(* ===== verification/_CoqProject ===== *)
-Q . S2P
Prelude.v
Bits.v
Sparse.v
TrieNode.v
TrieDb.v
TrieDbSpec.v
TrieUpdate.v
TrieRoots.v
TrieMap.v
TrieIter.v
TrieWalk.v
Util.v
Lru.v
MetaEntry.v
Blockchain.v
BlockchainSpec.v
Chain.v
ChainEntries.v
Cells.v
Heap.v
HeapGrow.v
Bigs.v
TermEnv.v
HeapSpec.v
UnifySpec.v
UnifyLoop.v
Unify.v
UnifyFrame.v
TermCopy.v
TermCopySpec.v
TermCopyLoop.v
Machine.v
Wam.v
WamSafe.v
WamUndo.v
WamRun.v
Backtrack.v
WamBugs.v
Arith.v
Builtins.v
BuiltinsSafe.v
BuiltinsKeep.v
BuiltinsSpec.v
Control.v
Clauses.v
ClausesSpec.v
TermCopyFrame.v
Interpreter.v
InterpSafe.v
InterpExamples.v
InterpRun.v
InterpFail.v
Serializer.v
ReadSafe.v
SerialText.v
FastHash.v
HeapBlock.v
Probing.v
GlobalDb.v
GlobalDbSpec.v
BlockHeap.v
BlockHeapSpec.v
BlockHeapDiscard.v
BlockHeapRun.v
GlobalState.v
GlobalAtoms.v
GlobalClosures.v
GlobalProgram.v
GlobalCommit.v
