(* ===== verification/Prelude.v ===== *)
(** * A verification library for Epilog

    Epilog is a Prolog system with a WAM on top of a term heap, and a block chain whose
    state (heap, code, symbols) lives in persistent trie databases.  This library models
    the layers the rest of the system stands on and proves them correct.  Paths below
    are relative to [src/src].

    ** Parts of the program and their files here

    - [Bits]: [common/bits.hpp].  Least and greatest set bits by De Bruijn tables and
      reversal tables; little-endian words.
    - [Util]: [common/checked_cast.hpp], [common/hex.hpp], [common/utime.*].
    - [Lru]: [common/lru_cache.hpp], the cache in front of the trie database.
    - [Sparse], [TrieNode], [TrieDb], [TrieIter]: [db/triedb.hpp], [db/triedb.cpp].
      [Sparse] is the compressed array of children with its mask, [TrieNode] the nodes
      and their bytes, [TrieDb] the operations, [TrieIter] the iterators and [find].
      Proofs: [TrieDbSpec] (the shape [trie_ok] of a trie and the map it stands for),
      [TrieUpdate] (what [update_part], [grow] and [remove_part] do to that map),
      [TrieRoots] (the same for whole databases), [TrieMap] (refinement of versioned
      finite maps), [TrieWalk] (iteration in key order).
    - [MetaEntry]: [global/meta_entry.hpp] with the byte forms of [pow/flt.hpp],
      [pow/fxp.hpp] and [pow/pow_verifier.hpp].  [Blockchain]: [global/blockchain.*],
      a client of [TrieDb] and [MetaEntry].  Proofs: [BlockchainSpec] (levels, paths of
      followers, chains equal up to empty levels), [Chain] and [ChainEntries].
    - [Cells], [Heap], [Bigs]: [common/term.hpp], [common/term.cpp].  Cells are 64-bit
      words; the heap is a map from addresses to cells in blocks of 8192; big integers
      are bytes that straddle blocks, read and written through [cell_byte], which keeps a
      cell until it moves to the next.
    - [TermEnv]: [common/term_env.hpp], [common/term_env.cpp]: stacks, trail, [bind],
      [unify], [equal], [standard_order], cost and hash of terms.  Proofs: [HeapSpec]
      (well-formed heaps, chains of references), [UnifySpec] (the invariant of the
      unification loop), [UnifyLoop] (one iteration, the loop), [Unify] (the theorems).
    - [Machine], [Wam]: the abstract machine of [interp/interpreter_base.*] and
      [interp/wam_interpreter.*].  [Machine] has the registers, the stack of environments
      and choice points and the operations of the base class on them, [Wam] one definition
      for each instruction, one step and the loop of [cont_wam].  Built-ins are functions
      an instruction points to.  Proofs: [HeapGrow] (heaps that grow and shrink),
      [UnifyFrame] (what [unify] does to any heap at all), [WamSafe] and [WamUndo] (the
      invariant of a run over a choice point and the primitive operations), [WamRun] (every
      instruction preserves it), [Backtrack] (the theorems), [WamBugs] (runs of the code
      whose effect is not the intended one).
    - [Arith]: [interp/arithmetics.*] and the predicates of [interp/builtins.cpp] that use
      it: the functions on 61-bit integers, the evaluator with its two stacks, [is/2] and the
      comparisons, proved against the recursive evaluation of an expression.
    - [Builtins]: [interp/builtins.cpp]: control, order, unification, type tests, arithmetic,
      predicates that take terms apart; [BuiltinsKeep] has the table of [load].  Proofs:
      [BuiltinsSafe] and [BuiltinsKeep] (built-ins keep choice points), [BuiltinsSpec] (type
      tests, tests of unification), [Control] (conjunction, if-then-else).
    - [Clauses]: [managed_clauses] of [interp/interpreter_base.*]: the clauses of a predicate
      and their index.  Proofs: [ClausesSpec].
    - [TermCopy]: [copy] of [common/term_env.hpp], with its stack and its patching of
      cycles.  Proofs: [TermCopySpec] (the correspondence of cells and copies),
      [TermCopyLoop] (the loop), [TermCopyFrame] (copying only appends to the heap).
    - [Interpreter]: [execute], [dispatch], [select_clause], [fail] and the rest of the
      interpreter over clauses in [interp/interpreter.*] and [interp/interpreter_base.*].
      It runs the built-ins of [Builtins] and the clauses of [Clauses] on the registers of
      [Machine].  Proofs: [InterpSafe] (each operation keeps what is below the newest
      choice point), [InterpRun] (a resolution between two visits of a choice point),
      [InterpFail] (failure ends), [InterpExamples] (whole programs run).
    - [Serializer]: [common/term_serializer.*]: terms as buffers, the header of names, reading
      with relocation of pointers, the integrity check.  Proofs: [SerialText] (cells and strings
      in a buffer), [ReadSafe] (what reading untrusted bytes can do to the heap).
    - The global state, [global/global.*] and [global/global_interpreter.*]: what the
      interpreter of the chain keeps between blocks.  [FastHash] ([common/fast_hash.*]) is
      the hash of names, [HeapBlock] a block of the heap, [GlobalDb] the stores in the trie
      databases of the tip, a client of [TrieDb], [TrieIter] and [Blockchain].  [BlockHeap]
      is the heap whose blocks are objects in a cache, in a table of changed blocks or in
      the database.  [GlobalState] has the atoms, the frozen closures and the predicates
      with their changes, [increment_height] and [discard_changes].  Proofs: [Probing]
      (tables with ten slots for each key), [GlobalDbSpec] (what each store holds),
      [BlockHeapSpec], [BlockHeapDiscard] and [BlockHeapRun] (the heap), [GlobalAtoms],
      [GlobalClosures], [GlobalProgram], and [GlobalCommit] (a block stores all of it).

    ** How states and operations correspond

    A class is a record of its fields ([triedb], [blockchain], [heap], [term_env],
    [lru_cache]), a method a function that takes the record and returns it changed.
    What may throw, trip an [assert] or leave C++ undefined returns [res]: [Ok] or
    [Throw] with the exception; [UndefinedBehaviour] and [AssertFailed] are values of
    the same type, so a theorem that a call returns [Ok] excludes them.  Unsigned words
    are [Z] with the wrap-around written out ([w8], [w32], [w64]; [sgn] for two's
    complement), bytes and characters are [Z] in lists.  [std::map] and [std::set] are
    [gmap] and [gset], sorted where the code iterates.  Files of the trie database are
    maps from offsets to nodes; that reading a node's bytes returns the node is
    [TrieNode.nodes_read_written], and that reading through the cache is reading is
    [Lru.cached_reads_are_reads].

    ** The theorems

    - Storage: the trie database refines a database of versioned finite maps; snapshots
      persist until [new_root()] issues their identifier again; iteration and [find] agree
      with the map; errors; byte formats.
    - Chain: the look-ahead functions in terms of paths of followers; [sync_point]
      returns; [update_tip] keeps the index; identifiers commit to the state; entries
      stored are loaded again.
    - Terms: cells, chunks of strings and big integers are read back; unification
      terminates on all well-formed heaps and decides unifiability over rational trees,
      success is most general, failure restores, the trail backtracks.
    - The machine: after any run over a choice point, retrying or trusting it restores
      the argument registers, environment, continuation, trail and cells of the time it
      was made (cells of variables up to their watch bit).  The run keeps the choice point on
      the stack, the heap below the stack, and watched references in registers, stack and
      heap unbound ([steady]); the last is what [deref] relies
      on and the code does not ensure ([WamBugs.watched_variable_rebound]).
    - Built-ins: those of the table satisfy what the theorems about choice points assume of
      built-ins ([builtin_keeps], the interface between [WamRun] and [BuiltinsKeep]); what
      the type tests answer; conjunction and if-then-else run their goals in order; testing
      whether terms unify changes nothing.
    - Clauses: looking up an index is scanning the clauses themselves (their arguments and
      the history of their predicate), until [asserta] is used.
    - Copying: the copy of a term is isomorphic to it, cycles included, with new variables.
    - The interpreter: a run over a choice point, built-ins and clauses included, restores
      at retry what the choice point saved, as long as its states are [settled] (steady, with
      room on the heap for [fuel] copies of clauses); a failure pops choice points until one
      can continue and ends, if unification and copying end in each round; runs of whole programs, with two defects of the order
      of answers and cuts ([InterpExamples.backtracking_forgets_frozen_goal],
      [InterpExamples.cut_resurrects_else_branch]).
    - Arithmetic and serialisation: [eval] is the evaluation of the expression a term denotes;
      the division functions; names are read back; reading changes no existing cell and
      the cells it makes of the body are sound.
    - The global state: the heap in blocks behaves as one array of cells, whatever is
      cached, evicted or read again; a commit stores it and a discard brings the committed
      heap back; symbols, closures and predicates are stored as they are known in memory, and
      [increment_height] returns with a block that holds everything if the state can be
      stored ([GlobalCommit.block_stores_state], [GlobalCommit.state_ok]).  What the code does otherwise than it means to has
      theorems of its own in [GlobalAtoms], [GlobalClosures] and [GlobalProgram].
    - Utilities: casts, bits, hexadecimal, time, the cache.

    Several theorems record defects: identifiers issued twice
    ([TrieMap.new_root_reuses_identifier]), a wrong exception
    ([TrieMap.remove_absent_key_exception]), a time stamp and a mantissa that do not
    survive their bytes ([Util.utime_bytes], [MetaEntry.entry_read_write]), constants
    that read back changed ([Cells.con_cell_name_roundtrip], [Cells.con_cell_index_roundtrip]),
    a synchronisation point that is no block ([Chain.sync_point_walk]), clauses lost by
    [asserta] ([ClausesSpec.asserta_loses_clauses]) and a cut barrier that is gone
    ([Control.if_then_else_commits]).

    ** Bounds and fuel

    Loops of the code that are not structural take fuel and throw [OutOfFuel].  The
    theorems give enough of it: a unification needs one iteration for each argument of
    each structure plus one; an iterator step at most [version_fuel] calls; the recursion
    of the trie 13 levels ([MAX_DEPTH], since 13 sub-indices of 5 bits cover a 64-bit
    key); [sync_point] the start height and the highest level; operations of the global
    state run with all fuel from some bound on ([GlobalDbSpec.eventually]).  [deref] uses the size of
    the heap, which no chain of references on a well-formed heap exceeds.

    ** Assumptions

    The hash functions ([blake2b] and [blake2b_64], parameters of the trie database and the chain), the
    date conversion of Boost, and [import_bits] of Boost's multiprecision integers are
    parameters; a hypothesis on one of them is stated in the theorem that needs it.

    ** Not modelled

    - The Merkle calls of the trie database and [common/merkle_trie.hpp], used by the
      synchronisation protocol.
    - Garbage collection, tokenizer, parser and emitter: the parser runs the
      generated tables of [common/term_parser_gen.hpp].
    - Of the machine: meta contexts (recursive invocations), delayed goals, compilation on
      call, reallocation of code; the compiler.  Of the interpreter: directives, syntax checks
      of clauses, debugging, calls into compiled code.
    - Of the built-ins: findall, [copy_term], freeze, sorting, modules, assert and retract, strings,
      statistics.
    - Hashes of serialised terms and [print_buffer].
    - Of the global interpreter: executing goals (hidden variables, hashes, fees), the
      queries for meta entries, [set_tip] and [total_reset], [reset()] of the machine in
      [discard_changes], watching cells as an operation of the programs in
      [BlockHeapRun], big integers that span blocks.
    - Sockets, threads and user interfaces ([node], [terminal], [main], [wallet]),
      cryptography ([ec], [coin], [secp256k1], the hash functions of [common]) and the
      search for proofs of work ([pow]). *)

From stdpp Require Export base tactics list gmap sets strings.
From Stdlib Require Export ZArith Lia.
#[global] Open Scope Z_scope.

(** ** Outcomes

    C++ functions that may throw, trip an [assert] or touch memory they do not
    own return a value of [res]: the normal result or the exception raised. *)

Inductive exn : Type :=
  | HeapIndexOutOfRange (index size : Z)   (* heap_index_out_of_range_exception *)
  | ExpectedConCell (index c : Z)          (* expected_con_cell_exception *)
  | ExpectedStrCell (c : Z)                (* expected_str_cell_exception *)
  | CoinSecurity                           (* coin_security_exception *)
  | CheckedCast                            (* checked_cast_exception *)
  | KeyAlreadyExists (key : Z)             (* triedb_key_already_exists_exception *)
  | KeyNotFound (key : Z)                  (* triedb_key_not_found_exception *)
  | DivisionByZero                         (* interpreter_exception_division_by_zero *)
  | UndefinedFunction (f : Z)              (* interpreter_exception_undefined_function *)
  | UndefinedPredicate (module f : Z)      (* interpreter_exception_undefined_predicate *)
  | BadAlloc                               (* std::bad_alloc *)
  | NotInstantiated                        (* ..._not_sufficiently_instantiated *)
  | WrongArgType (t : Z)                   (* interpreter_exception_wrong_arg_type *)
  | NotList (t : Z)                        (* interpreter_exception_not_list *)
  | UnexpectedData (c offset : Z)          (* serializer_exception_unexpected_data *)
  | UnexpectedEnd (offset : Z)             (* serializer_exception_unexpected_end *)
  | UnsupportedVersion (c : Z)             (* serializer_exception_unsupported_version *)
  | MissingIndex (c : Z)                   (* serializer_exception_missing_index *)
  | DanglingPointer (c offset : Z)         (* serializer_exception_dangling_pointer *)
  | IllegalFunctor (f fo s so : Z)         (* serializer_exception_illegal_functor *)
  | IllegalDat (d fo s so : Z)             (* serializer_exception_illegal_dat *)
  | MissingArgument (f fo s so : Z)        (* serializer_exception_missing_argument *)
  | ErroneousArgument (f fo s so : Z)      (* serializer_exception_erroneous_argument *)
  | DatTooSmall (d offset : Z)             (* serializer_exception_dat_too_small *)
  | DatTooBig (d offset n : Z)             (* serializer_exception_dat_too_big *)
  | CyclicReference (c offset : Z)         (* serializer_exception_cyclic_reference *)
  | LengthError                            (* std::length_error *)
  | StackOverflow                          (* interpreter_exception_stack_overflow *)
  | OutOfFunds                             (* interpreter_exception_out_of_funds *)
  | AssertFailed                           (* assert() *)
  | UndefinedBehaviour                     (* a read or write C++ leaves undefined *)
  | OutOfFuel.                             (* the model's loop bound was reached *)

#[export] Instance exn_eq_dec : EqDecision exn.
Proof. solve_decision. Defined.

Inductive res (A : Type) : Type :=
  | Ok (a : A)
  | Throw (e : exn).
Arguments Ok {A} a.
Arguments Throw {A} e.

#[export] Instance res_ret : MRet res := fun A a => Ok a.
#[export] Instance res_bind : MBind res := fun A B f m =>
  match m with Ok a => f a | Throw e => Throw e end.
#[export] Instance res_fmap : FMap res := fun A B f m =>
  match m with Ok a => Ok (f a) | Throw e => Throw e end.
#[export] Instance res_throw : MThrow exn res := fun A e => Throw e.

#[export] Instance res_eq_dec {A} `{EqDecision A} : EqDecision (res A).
Proof. solve_decision. Defined.

(** [require b e]: go on when the guard [b] holds, raise [e] otherwise. *)
Definition require (b : bool) (e : exn) : res unit :=
  if b then Ok () else Throw e.

Definition of_option {A} (o : option A) (e : exn) : res A :=
  match o with Some a => Ok a | None => Throw e end.

Definition is_ok {A} (r : res A) : bool :=
  match r with Ok _ => true | Throw _ => false end.

Lemma Ok_bind {A B} (a : A) (f : A -> res B) : Ok a ≫= f = f a.
Proof. done. Qed.

Lemma bind_Ok {A B} (m : res A) (f : A -> res B) (b : B) :
  m ≫= f = Ok b <-> exists a, m = Ok a /\ f a = Ok b.
Proof. destruct m; cbn; split; [eauto|intros (?&[=->]&?)|..]; done || by intros (?&?&?). Qed.

Lemma bind_Throw {A B} (m : res A) (f : A -> res B) e :
  m ≫= f = Throw e <-> m = Throw e \/ exists a, m = Ok a /\ f a = Throw e.
Proof.
  destruct m; cbn; split; intros H.
  - right. eauto.
  - by destruct H as [|(? & [= ->] & ?)].
  - left. congruence.
  - by destruct H as [[= ->]|(? & ? & ?)].
Qed.

Lemma require_Ok b e u : require b e = Ok u <-> b = true.
Proof. by destruct b, u. Qed.

Lemma require_true b e : b = true -> require b e = Ok ().
Proof. by intros ->. Qed.

Lemma of_option_Ok {A} (o : option A) e a : of_option o e = Ok a <-> o = Some a.
Proof. destruct o; cbn; split; congruence. Qed.

(** Run one step of a computation whose result [H] gives. *)
Ltac run H := rewrite H, !Ok_bind; cbn beta iota.

(** Split a hypothesis [m ≫= f = Ok b] into its steps. *)
Ltac bind_inv H :=
  lazymatch type of H with
  | mbind _ _ = Ok _ =>
      let a := fresh "r" in let H1 := fresh H in
      apply bind_Ok in H; destruct H as (a & H1 & H);
      try bind_inv H1; try bind_inv H
  | require _ _ = Ok _ => apply require_Ok in H
  | of_option _ _ = Ok _ => apply of_option_Ok in H
  end.

(** ** Machine integers

    An unsigned [w]-bit integer is a [Z] in [0, 2^w); [wrap w] is the reduction
    C++ applies to the result of unsigned arithmetic, [sgn w] the two's
    complement reading of a [w]-bit pattern. *)

Declare Scope epilog_scope.
Delimit Scope epilog_scope with epi.

Definition wrap (w x : Z) : Z := Z.land x (Z.ones w).
Definition sgn (w x : Z) : Z :=
  let u := wrap w x in if Z.testbit u (w - 1) then u - 2 ^ w else u.

Abbreviation w8 := (wrap 8).
Abbreviation w16 := (wrap 16).
Abbreviation w32 := (wrap 32).
Abbreviation w64 := (wrap 64).

Notation "x '&&&' y" := (Z.land x y) (at level 40, left associativity) : epilog_scope.
Notation "x '|||' y" := (Z.lor x y) (at level 50, left associativity) : epilog_scope.
Notation "x '^^^' y" := (Z.lxor x y) (at level 45, left associativity) : epilog_scope.
#[global] Open Scope epilog_scope.

(** [is_word w x]: [x] is a value of the unsigned [w]-bit type. *)
Definition is_word (w x : Z) : Prop := 0 <= x < 2 ^ w.
#[export] Instance is_word_dec w x : Decision (is_word w x).
Proof. unfold is_word. apply _. Defined.

Lemma wrap_mod w x : 0 <= w -> wrap w x = x mod 2 ^ w.
Proof. intros. unfold wrap. by rewrite Z.land_ones. Qed.

Lemma wrap_word w x : 0 <= w -> is_word w (wrap w x).
Proof. intros. rewrite wrap_mod by done. apply Z.mod_pos_bound. lia. Qed.

Lemma wrap_id w x : is_word w x -> wrap w x = x.
Proof.
  intros [H1 H2]. destruct (decide (0 <= w)).
  - rewrite wrap_mod by done. by apply Z.mod_small.
  - rewrite Z.pow_neg_r in H2 by lia. lia.
Qed.

Lemma wrap_wrap w x : 0 <= w -> wrap w (wrap w x) = wrap w x.
Proof. intros. by apply wrap_id, wrap_word. Qed.

Lemma wrap_spec w x i :
  0 <= w -> Z.testbit (wrap w x) i = Z.testbit x i && (i <? w).
Proof.
  intros. unfold wrap. rewrite Z.land_spec, Z.testbit_ones by done.
  destruct (Z.leb_spec 0 i); [done|]. by rewrite Z.testbit_neg_r by lia.
Qed.

Lemma wrap_range w x : 0 <= w -> 0 <= wrap w x < 2 ^ w.
Proof. apply wrap_word. Qed.

Lemma is_word_le w w' x : is_word w x -> w <= w' -> is_word w' x.
Proof.
  unfold is_word. intros [??] ?. split; [done|].
  destruct (decide (0 <= w)).
  - assert (2 ^ w <= 2 ^ w') by (apply Z.pow_le_mono_r; lia). lia.
  - rewrite Z.pow_neg_r in * by lia. lia.
Qed.

Lemma is_word_testbit w x :
  0 <= w -> (is_word w x <-> 0 <= x /\ forall i, w <= i -> Z.testbit x i = false).
Proof.
  intros Hw. unfold is_word. split.
  - intros [H0 H1]. split; [done|]. intros i Hi.
    destruct (decide (x = 0)) as [->|]; [apply Z.bits_0|].
    apply Z.bits_above_log2; [done|].
    assert (Z.log2 x < w); [|lia]. apply Z.log2_lt_pow2; lia.
  - intros [H0 H1]. split; [done|].
    rewrite <-(wrap_id w x) at 1.
    + by apply wrap_word.
    + enough (x = wrap w x) as -> by by apply wrap_word.
      apply Z.bits_inj'. intros i Hi. rewrite wrap_spec by done.
      destruct (Z.ltb_spec i w); [by rewrite andb_true_r|].
      rewrite andb_false_r. by apply H1.
Qed.

Lemma sgn_id w v : 0 < w -> - 2 ^ (w - 1) <= v < 2 ^ (w - 1) -> sgn w v = v.
Proof.
  intros Hw Hv. assert (Hp : 2 ^ w = 2 * 2 ^ (w - 1)) by (rewrite <-Z.pow_succ_r by lia; f_equal; lia).
  unfold sgn. rewrite wrap_mod by lia.
  assert (Hpos : 0 < 2 ^ (w - 1)) by (apply Z.pow_pos_nonneg; lia).
  destruct (decide (0 <= v)) as [H0|H0].
  - rewrite Z.mod_small by lia. destruct (Z.testbit v (w - 1)) eqn:Hb; [|done].
    assert (Hv' : is_word (w - 1) v) by (split; lia).
    apply is_word_testbit in Hv' as [_ Hz]; [|lia]. by rewrite Hz in Hb by lia.
  - assert (Hm : v mod 2 ^ w = v + 2 ^ w).
    { symmetry. apply (Z.mod_unique_pos _ _ (-1)); lia. }
    rewrite Hm. assert (Ht : Z.testbit (v + 2 ^ w) (w - 1) = true).
    { apply Z.testbit_true; [lia|]. replace ((v + 2 ^ w) / 2 ^ (w - 1)) with 1; [done|].
      apply (Z.div_unique _ _ _ (v + 2 ^ (w - 1))); lia. }
    rewrite Ht. lia.
Qed.

(** Bitwise goals: compare test bits and split on every comparison. *)
Create Rewrite HintDb zbits.
#[export] Hint Rewrite Z.land_spec Z.lor_spec Z.lxor_spec Z.bits_0 : zbits.
#[export] Hint Rewrite wrap_spec Z.shiftr_spec Z.testbit_ones Z.lnot_spec
  using lia : zbits.
#[export] Hint Rewrite Z.shiftl_spec using lia : zbits.

Ltac bool_cases :=
  repeat match goal with
  | |- context [?a <? ?b] => destruct (Z.ltb_spec a b)
  | |- context [?a <=? ?b] => destruct (Z.leb_spec a b)
  | |- context [?a =? ?b] => destruct (Z.eqb_spec a b)
  end.

Ltac zbits :=
  apply Z.bits_inj'; intros ? ?; autorewrite with zbits; bool_cases;
  rewrite ?andb_true_r, ?andb_false_r, ?orb_false_r, ?orb_true_r, ?andb_true_l,
    ?xorb_false_r, ?xorb_false_l; try done; try lia.

(** Results of the bitwise operators stay in range. *)
Lemma land_word w x y : 0 <= w -> is_word w x -> is_word w (x &&& y).
Proof.
  intros Hw Hx. apply is_word_testbit in Hx as [H0 H1]; [|done].
  apply is_word_testbit; [done|]. split; [apply Z.land_nonneg; by left|].
  intros i Hi. by rewrite Z.land_spec, H1.
Qed.

Lemma lor_word w x y : 0 <= w -> is_word w x -> is_word w y -> is_word w (x ||| y).
Proof.
  intros Hw [Hx0 Hx]%is_word_testbit [Hy0 Hy]%is_word_testbit; [|done..].
  apply is_word_testbit; [done|]. split; [by apply Z.lor_nonneg|].
  intros i Hi. by rewrite Z.lor_spec, Hx, Hy.
Qed.

Lemma lxor_word w x y : 0 <= w -> is_word w x -> is_word w y -> is_word w (x ^^^ y).
Proof.
  intros Hw [Hx0 Hx]%is_word_testbit [Hy0 Hy]%is_word_testbit; [|done..].
  apply is_word_testbit; [done|]. split; [apply Z.lxor_nonneg; lia|].
  intros i Hi. by rewrite Z.lxor_spec, Hx, Hy.
Qed.

Lemma shiftr_word w w' x n :
  0 <= n -> 0 <= w' -> w - n <= w' -> is_word w x -> is_word w' (x ≫ n).
Proof.
  intros Hn Hw' Hle [H0 H1]. split; [by apply Z.shiftr_nonneg|].
  rewrite Z.shiftr_div_pow2 by done.
  apply Z.div_lt_upper_bound; [lia|].
  rewrite <-Z.pow_add_r by lia.
  assert (2 ^ w <= 2 ^ (n + w')); [|lia]. apply Z.pow_le_mono_r; lia.
Qed.

Create HintDb words.
#[export] Hint Resolve wrap_word land_word lor_word lxor_word shiftr_word : words.
#[export] Hint Extern 5 (_ <= _) => lia : words.
#[export] Hint Extern 5 (_ - _ <= _) => lia : words.

(** ** Byte strings

    Serialised integers are little endian unless a name says otherwise. *)

Fixpoint le_bytes (n : nat) (v : Z) : list Z :=
  match n with
  | O => []
  | S n => w8 v :: le_bytes n (v ≫ 8)
  end.

Fixpoint le_value (bs : list Z) : Z :=
  match bs with
  | [] => 0
  | b :: bs => b ||| (le_value bs ≪ 8)
  end.

Definition are_bytes (bs : list Z) : Prop := Forall (is_word 8) bs.

Lemma length_le_bytes n v : length (le_bytes n v) = n.
Proof. revert v. induction n; intros; cbn; auto. Qed.

Lemma le_bytes_are_bytes n v : are_bytes (le_bytes n v).
Proof.
  revert v. unfold are_bytes.
  induction n; intros; cbn; constructor; auto with words.
Qed.

Lemma le_value_bytes n v : le_value (le_bytes n v) = wrap (8 * Z.of_nat n) v.
Proof.
  revert v. induction n as [|n IH]; intros v; cbn [le_bytes le_value].
  - apply Z.bits_inj'. intros i Hi. rewrite wrap_spec by lia. rewrite Z.bits_0.
    destruct (Z.ltb_spec i (8 * Z.of_nat 0)); [lia|]. by rewrite andb_false_r.
  - rewrite IH. apply Z.bits_inj'. intros i Hi.
    rewrite Z.lor_spec, Z.shiftl_spec, !wrap_spec by lia.
    destruct (Z.ltb_spec i 8).
    + rewrite (Z.testbit_neg_r _ (i - 8)) by lia. cbn.
      rewrite orb_false_r, andb_true_r. bool_cases; try lia. by rewrite andb_true_r.
    + rewrite Z.shiftr_spec by lia. rewrite andb_false_r. cbn.
      replace (i - 8 + 8) with i by lia. bool_cases; done || lia.
Qed.

Lemma le_bytes_value bs : are_bytes bs -> le_bytes (length bs) (le_value bs) = bs.
Proof.
  unfold are_bytes. induction 1 as [|b bs Hb Hbs IH]; cbn [length le_bytes le_value]; [done|].
  assert (Hb' := Hb). apply is_word_testbit in Hb' as [_ Hb']; [|done].
  f_equal.
  - rewrite <-(wrap_id 8 b) at 2 by done. zbits.
    rewrite (Z.testbit_neg_r _ (n - 8)) by lia. by rewrite orb_false_r.
  - transitivity (le_bytes (length bs) (le_value bs)); [f_equal|done]. zbits.
    rewrite Hb' by lia. cbn. f_equal. lia.
Qed.

Lemma le_value_range bs : are_bytes bs -> is_word (8 * Z.of_nat (length bs)) (le_value bs).
Proof.
  intros H. rewrite <-(le_bytes_value bs H) at 2. rewrite le_value_bytes.
  apply wrap_word. lia.
Qed.

Lemma elem_of_rev {A} (x : A) l : x ∈ rev l <-> x ∈ l.
Proof. by rewrite !list_elem_of_In, <-in_rev. Qed.

Lemma elem_of_take_in {A} (x : A) n l : x ∈ take n l -> x ∈ l.
Proof. intros H. rewrite <-(take_drop n l). apply elem_of_app. by left. Qed.
Lemma elem_of_drop_in {A} (x : A) n l : x ∈ drop n l -> x ∈ l.
Proof. intros H. rewrite <-(take_drop n l). apply elem_of_app. by right. Qed.
