(* ===== verification/Bits.v ===== *)
(** * Bit twiddling ([src/src/common/bits.hpp])

    The De Bruijn tables behind [lsb], the table-driven bit reversal behind
    [msb], and the little-endian readers and writers.  [lsb32], [msb32], ... are
    the C++ overloads of [lsb] and [msb] at each width; the theorems show that
    the multiplications and tables compute the least and the greatest set bit,
    and that reading inverts writing. *)

From S2P Require Import Prelude.

(** ** Definitions *)

Definition LSB_64_TABLE : list Z :=
  [63; 30;  3; 32; 59; 14; 11; 33;
   60; 24; 50;  9; 55; 19; 21; 34;
   61; 29;  2; 53; 51; 23; 41; 18;
   56; 28;  1; 43; 46; 27;  0; 35;
   62; 31; 58;  4;  5; 49; 54;  6;
   15; 52; 12; 40;  7; 42; 45; 16;
   25; 57; 48; 13; 10; 39;  8; 44;
   20; 47; 38; 22; 17; 37; 36; 26].

Definition LSB_32_TABLE : list Z :=
  [0; 1; 28; 2; 29; 14; 24; 3; 30; 22; 20; 15; 25; 17; 4; 8;
   31; 27; 13; 23; 21; 19; 16; 7; 26; 12; 18; 6; 11; 5; 10; 9].

Definition table_at (t : list Z) (i : Z) : Z := nth (Z.to_nat i) t 0.

(** [inline size_t lsb(uint64_t b)]: [(int)b] is sign extended before the xor
    and the result is truncated to [unsigned int]. *)
Definition lsb64 (b : Z) : Z :=
  let b1 := b ^^^ w64 (b - 1) in
  let folded := w32 (w64 (sgn 32 b1) ^^^ (b1 ≫ 32)) in
  table_at LSB_64_TABLE (w32 (folded * 0x78291acf) ≫ 26).

(** [inline size_t lsb(uint32_t b)] *)
Definition lsb32 (b : Z) : Z :=
  table_at LSB_32_TABLE (w32 ((b &&& w32 (- b)) * 0x077CB531) ≫ 27).

Definition bit_rev_table_256 : list Z :=
  [0x00; 0x80; 0x40; 0xC0; 0x20; 0xA0; 0x60; 0xE0; 0x10; 0x90; 0x50; 0xD0; 0x30; 0xB0; 0x70; 0xF0;
   0x08; 0x88; 0x48; 0xC8; 0x28; 0xA8; 0x68; 0xE8; 0x18; 0x98; 0x58; 0xD8; 0x38; 0xB8; 0x78; 0xF8;
   0x04; 0x84; 0x44; 0xC4; 0x24; 0xA4; 0x64; 0xE4; 0x14; 0x94; 0x54; 0xD4; 0x34; 0xB4; 0x74; 0xF4;
   0x0C; 0x8C; 0x4C; 0xCC; 0x2C; 0xAC; 0x6C; 0xEC; 0x1C; 0x9C; 0x5C; 0xDC; 0x3C; 0xBC; 0x7C; 0xFC;
   0x02; 0x82; 0x42; 0xC2; 0x22; 0xA2; 0x62; 0xE2; 0x12; 0x92; 0x52; 0xD2; 0x32; 0xB2; 0x72; 0xF2;
   0x0A; 0x8A; 0x4A; 0xCA; 0x2A; 0xAA; 0x6A; 0xEA; 0x1A; 0x9A; 0x5A; 0xDA; 0x3A; 0xBA; 0x7A; 0xFA;
   0x06; 0x86; 0x46; 0xC6; 0x26; 0xA6; 0x66; 0xE6; 0x16; 0x96; 0x56; 0xD6; 0x36; 0xB6; 0x76; 0xF6;
   0x0E; 0x8E; 0x4E; 0xCE; 0x2E; 0xAE; 0x6E; 0xEE; 0x1E; 0x9E; 0x5E; 0xDE; 0x3E; 0xBE; 0x7E; 0xFE;
   0x01; 0x81; 0x41; 0xC1; 0x21; 0xA1; 0x61; 0xE1; 0x11; 0x91; 0x51; 0xD1; 0x31; 0xB1; 0x71; 0xF1;
   0x09; 0x89; 0x49; 0xC9; 0x29; 0xA9; 0x69; 0xE9; 0x19; 0x99; 0x59; 0xD9; 0x39; 0xB9; 0x79; 0xF9;
   0x05; 0x85; 0x45; 0xC5; 0x25; 0xA5; 0x65; 0xE5; 0x15; 0x95; 0x55; 0xD5; 0x35; 0xB5; 0x75; 0xF5;
   0x0D; 0x8D; 0x4D; 0xCD; 0x2D; 0xAD; 0x6D; 0xED; 0x1D; 0x9D; 0x5D; 0xDD; 0x3D; 0xBD; 0x7D; 0xFD;
   0x03; 0x83; 0x43; 0xC3; 0x23; 0xA3; 0x63; 0xE3; 0x13; 0x93; 0x53; 0xD3; 0x33; 0xB3; 0x73; 0xF3;
   0x0B; 0x8B; 0x4B; 0xCB; 0x2B; 0xAB; 0x6B; 0xEB; 0x1B; 0x9B; 0x5B; 0xDB; 0x3B; 0xBB; 0x7B; 0xFB;
   0x07; 0x87; 0x47; 0xC7; 0x27; 0xA7; 0x67; 0xE7; 0x17; 0x97; 0x57; 0xD7; 0x37; 0xB7; 0x77; 0xF7;
   0x0F; 0x8F; 0x4F; 0xCF; 0x2F; 0xAF; 0x6F; 0xEF; 0x1F; 0x9F; 0x5F; 0xDF; 0x3F; 0xBF; 0x7F; 0xFF].

(** [inline uint32_t bitrev(uint32_t b)] *)
Definition bitrev32 (b : Z) : Z :=
  w32 ((table_at bit_rev_table_256 (b &&& 0xff) ≪ 24) |||
       (table_at bit_rev_table_256 ((b ≫ 8) &&& 0xff) ≪ 16) |||
       (table_at bit_rev_table_256 ((b ≫ 16) &&& 0xff) ≪ 8) |||
       table_at bit_rev_table_256 ((b ≫ 24) &&& 0xff)).

(** [inline uint64_t bitrev(uint64_t b)] *)
Definition bitrev64 (b : Z) : Z :=
  bitrev32 (w32 (b ≫ 32)) ||| w64 (bitrev32 (w32 b) ≪ 32).

Definition msb32 (b : Z) : Z := 31 - lsb32 (bitrev32 b).
Definition msb64 (b : Z) : Z := 63 - lsb64 (bitrev64 b).

(** The readers index a raw pointer: a buffer that is too short reads memory
    outside it. *)
Definition byte_at (buf : list Z) (i : nat) : res Z :=
  of_option (buf !! i) UndefinedBehaviour.

Definition read_uint32 (buf : list Z) : res Z :=
  b0 ← byte_at buf 0; b1 ← byte_at buf 1; b2 ← byte_at buf 2; b3 ← byte_at buf 3;
  Ok ((b0 &&& 0xff) ||| ((b1 &&& 0xff) ≪ 8) ||| ((b2 &&& 0xff) ≪ 16) |||
      ((b3 &&& 0xff) ≪ 24)).

Definition write_uint32 (v : Z) : list Z :=
  [w8 (v &&& 0xff); w8 ((v ≫ 8) &&& 0xff); w8 ((v ≫ 16) &&& 0xff);
   w8 ((v ≫ 24) &&& 0xff)].

Definition read_uint64 (buf : list Z) : res Z :=
  b0 ← byte_at buf 0; b1 ← byte_at buf 1; b2 ← byte_at buf 2; b3 ← byte_at buf 3;
  b4 ← byte_at buf 4; b5 ← byte_at buf 5; b6 ← byte_at buf 6; b7 ← byte_at buf 7;
  Ok ((b0 &&& 0xff) ||| ((b1 &&& 0xff) ≪ 8) ||| ((b2 &&& 0xff) ≪ 16) |||
      ((b3 &&& 0xff) ≪ 24) ||| ((b4 &&& 0xff) ≪ 32) ||| ((b5 &&& 0xff) ≪ 40) |||
      ((b6 &&& 0xff) ≪ 48) ||| ((b7 &&& 0xff) ≪ 56)).

Definition write_uint64 (v : Z) : list Z :=
  [w8 (v &&& 0xff); w8 ((v ≫ 8) &&& 0xff); w8 ((v ≫ 16) &&& 0xff);
   w8 ((v ≫ 24) &&& 0xff); w8 ((v ≫ 32) &&& 0xff); w8 ((v ≫ 40) &&& 0xff);
   w8 ((v ≫ 48) &&& 0xff); w8 ((v ≫ 56) &&& 0xff)].

(** ** Least and greatest set bits *)

Definition is_lsb (b k : Z) : Prop :=
  0 <= k /\ Z.testbit b k = true /\ forall j, 0 <= j < k -> Z.testbit b j = false.
Definition is_msb (b k : Z) : Prop :=
  0 <= k /\ Z.testbit b k = true /\ forall j, k < j -> Z.testbit b j = false.

Lemma is_lsb_unique b k1 k2 : is_lsb b k1 -> is_lsb b k2 -> k1 = k2.
Proof.
  intros (H1 & T1 & L1) (H2 & T2 & L2).
  destruct (Z.lt_total k1 k2) as [?|[?|?]]; [|done|].
  - rewrite L2 in T1; [done|lia].
  - rewrite L1 in T2; [done|lia].
Qed.

Lemma is_msb_unique b k1 k2 : is_msb b k1 -> is_msb b k2 -> k1 = k2.
Proof.
  intros (H1 & T1 & L1) (H2 & T2 & L2).
  destruct (Z.lt_total k1 k2) as [?|[?|?]]; [|done|].
  - rewrite L1 in T2; [done|lia].
  - rewrite L2 in T1; [done|lia].
Qed.

Lemma is_msb_log2 b : 0 < b -> is_msb b (Z.log2 b).
Proof.
  intros H. split_and!; [apply Z.log2_nonneg|by apply Z.bit_log2|].
  intros j Hj. apply Z.bits_above_log2; lia.
Qed.

Lemma lsb_exists b : 0 < b -> exists k, is_lsb b k.
Proof.
  intros H. destruct b as [|p|]; try lia. clear H.
  induction p as [p IH|p [k (H0 & H1 & H2)]|].
  - exists 0. split_and!; [done|done|lia].
  - exists (Z.succ k). split_and!; [lia| |].
    + by rewrite Pos2Z.inj_xO, Z.testbit_even_succ by done.
    + intros j Hj. rewrite Pos2Z.inj_xO.
      destruct (decide (j = 0)) as [->|]; [apply Z.testbit_even_0|].
      replace j with (Z.succ (j - 1)) by lia.
      rewrite Z.testbit_even_succ by lia. apply H2. lia.
  - exists 0. split_and!; [done|done|lia].
Qed.

(** [b = 2^k + 2^(k+1) m] and [b - 1 = (2^k - 1) + 2^(k+1) m] share no carries,
    which gives the bits of [b - 1]. *)
Lemma pred_testbit b k i :
  is_lsb b k -> 0 <= i ->
  Z.testbit (b - 1) i = (i <? k) || (Z.testbit b i && negb (i =? k)).
Proof.
  intros (Hk & Ht & Hl) Hi.
  set (m := b ≫ (k + 1)).
  assert (Hb : b = 2 ^ k + (m ≪ (k + 1))).
  { rewrite Z.add_nocarry_lxor.
    - apply Z.bits_inj'. intros j Hj. unfold m.
      rewrite Z.lxor_spec, Z.shiftl_spec, Z.pow2_bits_eqb by lia.
      destruct (Z.eqb_spec k j) as [->|].
      + rewrite Ht, Z.testbit_neg_r by lia. done.
      + destruct (Z.ltb_spec j k).
        * rewrite Hl, Z.testbit_neg_r by lia. done.
        * rewrite Z.shiftr_spec by lia. replace (j - (k + 1) + (k + 1)) with j by lia. done.
    - apply Z.bits_inj'. intros j Hj.
      rewrite Z.land_spec, Z.shiftl_spec, Z.pow2_bits_eqb, Z.bits_0 by lia.
      destruct (Z.eqb_spec k j) as [->|]; [|done].
      by rewrite Z.testbit_neg_r by lia. }
  assert (Hb1 : b - 1 = Z.ones k + (m ≪ (k + 1))) by (rewrite Z.ones_equiv; lia).
  rewrite Hb1, Z.add_nocarry_lxor.
  - rewrite Z.lxor_spec, Z.shiftl_spec, Z.testbit_ones by lia. unfold m.
    destruct (Z.ltb_spec i k); cbn.
    + rewrite andb_true_r, (Z.testbit_neg_r _ (i - _)) by lia.
      destruct (Z.leb_spec 0 i); [done|lia].
    + rewrite andb_false_r. destruct (Z.eqb_spec i k) as [->|].
      * rewrite Z.testbit_neg_r by lia. by rewrite andb_false_r.
      * rewrite Z.shiftr_spec by lia. replace (i - (k + 1) + (k + 1)) with i by lia.
        by rewrite andb_true_r.
  - apply Z.bits_inj'. intros j Hj.
    rewrite Z.land_spec, Z.shiftl_spec, Z.testbit_ones, Z.bits_0 by lia.
    destruct (Z.ltb_spec j k); [|by rewrite andb_false_r].
    rewrite (Z.testbit_neg_r _ (j - _)) by lia. by rewrite andb_false_r.
Qed.

Lemma is_lsb_lt w b k : 0 <= w -> is_word w b -> is_lsb b k -> k < w.
Proof.
  intros Hw [_ Hb]%is_word_testbit (? & Ht & _); [|done].
  destruct (decide (k < w)); [done|]. rewrite Hb in Ht by lia. done.
Qed.

Lemma isolate_lsb w b k :
  0 <= w -> is_word w b -> is_lsb b k -> b &&& wrap w (- b) = 2 ^ k.
Proof.
  intros Hw Hb Hk. assert (k < w) by eauto using is_lsb_lt.
  pose proof Hk as (Hk0 & Ht & Hl).
  replace (- b) with (Z.lnot (b - 1)) by (unfold Z.lnot; lia).
  apply Z.bits_inj'. intros i Hi.
  rewrite Z.land_spec, wrap_spec, Z.lnot_spec, (pred_testbit b k), Z.pow2_bits_eqb by done.
  destruct (Z.eqb_spec k i) as [<-|].
  - rewrite Z.ltb_irrefl, Z.eqb_refl, Ht. cbn. by apply Z.ltb_lt.
  - rewrite (proj2 (Z.eqb_neq i k)) by lia. destruct (Z.ltb_spec i k); cbn.
    + by rewrite Hl by lia.
    + by destruct (Z.testbit b i).
Qed.

Lemma mask_lsb w b k :
  0 <= w -> is_word w b -> is_lsb b k -> b ^^^ wrap w (b - 1) = Z.ones (k + 1).
Proof.
  intros Hw Hb Hk. assert (k < w) by eauto using is_lsb_lt.
  pose proof Hk as (Hk0 & Ht & Hl).
  apply is_word_testbit in Hb as [_ Hb]; [|done].
  apply Z.bits_inj'. intros i Hi.
  rewrite Z.lxor_spec, wrap_spec, (pred_testbit b k), Z.testbit_ones by (done || lia).
  rewrite (proj2 (Z.leb_le 0 i)) by lia.
  destruct (Z.lt_total i k) as [?|[->|?]].
  - rewrite Hl, (proj2 (Z.ltb_lt i k)), (proj2 (Z.ltb_lt i w)) by lia.
    symmetry. apply Z.ltb_lt. lia.
  - rewrite Ht, Z.ltb_irrefl, Z.eqb_refl. cbn. symmetry. apply Z.ltb_lt. lia.
  - rewrite (proj2 (Z.ltb_ge i k)), (proj2 (Z.eqb_neq i k)), (proj2 (Z.ltb_ge i (k + 1))) by lia.
    cbn. rewrite andb_true_r. destruct (Z.ltb_spec i w).
    + by destruct (Z.testbit b i).
    + by rewrite Hb.
Qed.

(** A property of all [k < n], checked by evaluation. *)
Lemma forallb_below (P : Z -> bool) (n : nat) (k : Z) :
  forallb P (seqZ 0 (Z.of_nat n)) = true -> 0 <= k < Z.of_nat n -> P k = true.
Proof.
  intros H Hk. rewrite forallb_forall in H. apply H.
  apply list_elem_of_In. apply elem_of_seqZ. lia.
Qed.

Lemma lsb32_spec b : 0 < b -> is_word 32 b -> is_lsb b (lsb32 b).
Proof.
  intros H0 Hb. destruct (lsb_exists b H0) as [k Hk].
  assert (k < 32) by (apply (is_lsb_lt 32 b); done).
  enough (lsb32 b = k) as -> by done.
  unfold lsb32. rewrite (isolate_lsb 32 b k) by done.
  apply Z.eqb_eq.
  apply (forallb_below (fun k =>
    table_at LSB_32_TABLE (w32 (2 ^ k * 0x077CB531) ≫ 27) =? k) 32).
  - by vm_compute.
  - destruct Hk. lia.
Qed.

Lemma lsb64_spec b : 0 < b -> is_word 64 b -> is_lsb b (lsb64 b).
Proof.
  intros H0 Hb. destruct (lsb_exists b H0) as [k Hk].
  assert (k < 64) by (apply (is_lsb_lt 64 b); done).
  enough (lsb64 b = k) as -> by done.
  unfold lsb64. rewrite (mask_lsb 64 b k) by done.
  apply Z.eqb_eq.
  apply (forallb_below (fun k =>
    let b1 := Z.ones (k + 1) in
    table_at LSB_64_TABLE
      (w32 (w32 (w64 (sgn 32 b1) ^^^ (b1 ≫ 32)) * 0x78291acf) ≫ 26) =? k) 64).
  - by vm_compute.
  - destruct Hk. lia.
Qed.

(** ** Bit reversal *)

Lemma rev_table_spec x t :
  is_word 8 x -> 0 <= t < 8 ->
  Z.testbit (table_at bit_rev_table_256 x) t = Z.testbit x (7 - t).
Proof.
  intros Hx Ht.
  assert (H : forallb (fun x => forallb (fun t =>
    eqb (Z.testbit (table_at bit_rev_table_256 x) t) (Z.testbit x (7 - t)))
      (seqZ 0 (Z.of_nat 8))) (seqZ 0 (Z.of_nat 256)) = true) by by vm_compute.
  pose proof (forallb_below _ 256 x H Hx) as H1.
  pose proof (forallb_below _ 8 t H1 Ht) as H2. by apply eqb_prop in H2.
Qed.

Lemma rev_table_word x : is_word 8 (table_at bit_rev_table_256 x).
Proof.
  assert (H : forallb (fun y => (0 <=? y) && (y <? 256)) bit_rev_table_256 = true)
    by by vm_compute.
  unfold table_at. destruct (decide (Z.to_nat x < 256)%nat) as [?|?].
  - rewrite forallb_forall in H.
    assert (Hin : In (nth (Z.to_nat x) bit_rev_table_256 0) bit_rev_table_256)
      by (apply nth_In; done).
    apply H in Hin. unfold is_word. lia.
  - rewrite nth_overflow by (cbn [length bit_rev_table_256]; lia). done.
Qed.

(** Bits of a byte of [b], reversed by the table and moved [s] places up. *)
Lemma rev_byte_bit b j s i :
  0 <= j -> 0 <= s -> 0 <= i ->
  Z.testbit (table_at bit_rev_table_256 ((b ≫ j) &&& 0xff) ≪ s) i =
  Z.testbit b (j + 7 - (i - s)) && ((s <=? i) && (i <? s + 8)).
Proof.
  intros Hj Hs Hi. rewrite Z.shiftl_spec by done.
  destruct (Z.leb_spec s i), (Z.ltb_spec i (s + 8)); cbn [andb]; rewrite ?andb_true_r, ?andb_false_r.
  - rewrite rev_table_spec by (lia || by apply (wrap_word 8)).
    change 255 with (Z.ones 8). rewrite Z.land_spec, Z.testbit_ones, Z.shiftr_spec by lia.
    destruct (Z.leb_spec 0 (7 - (i - s))), (Z.ltb_spec (7 - (i - s)) 8); try lia.
    cbn. rewrite andb_true_r. f_equal. lia.
  - apply (is_word_testbit 8 _ ltac:(lia)); [apply rev_table_word|lia].
  - by rewrite Z.testbit_neg_r by lia.
  - lia.
Qed.

Lemma bitrev32_spec b i :
  0 <= i < 32 -> Z.testbit (bitrev32 b) i = Z.testbit b (31 - i).
Proof.
  intros Hi. unfold bitrev32. rewrite wrap_spec, !Z.lor_spec by lia.
  replace (b &&& 255) with ((b ≫ 0) &&& 255) by (by rewrite Z.shiftr_0_r).
  rewrite <-(Z.shiftl_0_r (table_at _ ((b ≫ 24) &&& 255))).
  rewrite !rev_byte_bit by lia.
  rewrite (proj2 (Z.ltb_lt i 32)) by lia. rewrite andb_true_r.
  destruct (decide (i < 8)); [|destruct (decide (i < 16)); [|destruct (decide (i < 24))]].
  all: repeat match goal with
    | |- context [?a <=? ?b] =>
        first [rewrite (proj2 (Z.leb_le a b)) by lia | rewrite (proj2 (Z.leb_gt a b)) by lia]
    | |- context [?a <? ?b] =>
        first [rewrite (proj2 (Z.ltb_lt a b)) by lia | rewrite (proj2 (Z.ltb_ge a b)) by lia]
    end; cbn [andb]; rewrite ?andb_false_r, ?andb_true_r, ?orb_false_r, ?orb_false_l;
    f_equal; lia.
Qed.

Lemma bitrev32_word b : is_word 32 (bitrev32 b).
Proof. by apply wrap_word. Qed.

Lemma bitrev64_spec b i :
  0 <= i < 64 -> Z.testbit (bitrev64 b) i = Z.testbit b (63 - i).
Proof.
  intros Hi. unfold bitrev64. rewrite Z.lor_spec, wrap_spec, Z.shiftl_spec by lia.
  rewrite (proj2 (Z.ltb_lt i 64)) by lia. rewrite andb_true_r.
  destruct (decide (i < 32)).
  - rewrite bitrev32_spec, wrap_spec, Z.shiftr_spec by lia.
    rewrite (Z.testbit_neg_r _ (i - 32)), (proj2 (Z.ltb_lt (31 - i) 32)) by lia.
    rewrite orb_false_r, andb_true_r. f_equal. lia.
  - rewrite (proj2 (proj1 (is_word_testbit 32 _ ltac:(lia)) (bitrev32_word _))) by lia.
    rewrite bitrev32_spec, wrap_spec, (proj2 (Z.ltb_lt _ 32)) by lia.
    rewrite andb_true_r. cbn. f_equal. lia.
Qed.

Lemma bitrev64_word b : is_word 64 (bitrev64 b).
Proof.
  unfold bitrev64. apply lor_word; [lia| |by apply wrap_word].
  apply (is_word_le 32); [apply bitrev32_word|lia].
Qed.

Lemma positive_bit b k : 0 <= b -> Z.testbit b k = true -> 0 < b.
Proof. intros H0 Hk. destruct (decide (b = 0)) as [->|]; [by rewrite Z.bits_0 in Hk|lia]. Qed.

(** The greatest set bit of [b] is the mirror image of the least set bit of
    its reversal, at either width. *)
Lemma msb_of_rev w (rev lsb : Z -> Z) b :
  0 < w ->
  (forall i, 0 <= i < w -> Z.testbit (rev b) i = Z.testbit b (w - 1 - i)) ->
  is_word w (rev b) -> (0 < rev b -> is_lsb (rev b) (lsb (rev b))) ->
  0 < b -> is_word w b -> w - 1 - lsb (rev b) = Z.log2 b.
Proof.
  intros Hw Hrev Hword Hlsb H0 Hb.
  pose proof (is_msb_log2 b H0) as (Hm0 & Hmt & Hml).
  assert (Hlt : Z.log2 b < w) by (apply Z.log2_lt_pow2; [lia|apply Hb]).
  assert (Hpos : 0 < rev b).
  { apply (positive_bit _ (w - 1 - Z.log2 b)); [apply Hword|].
    rewrite Hrev by lia. rewrite <-Hmt. f_equal. lia. }
  destruct (Hlsb Hpos) as (Hl0 & Hlt' & Hll).
  assert (lsb (rev b) < w) by (eapply (is_lsb_lt w (rev b)); [lia|done|by apply Hlsb]).
  apply (is_msb_unique b); [|done].
  split_and!; [lia| |].
  - rewrite <-Hrev by lia. done.
  - intros j Hj. destruct (decide (j < w)).
    + replace j with (w - 1 - (w - 1 - j)) by lia. rewrite <-Hrev by lia. apply Hll. lia.
    + apply (is_word_testbit w b ltac:(lia)); [done|lia].
Qed.

Lemma msb32_log2 b : 0 < b -> is_word 32 b -> msb32 b = Z.log2 b.
Proof.
  intros. apply (msb_of_rev 32 bitrev32 lsb32); try done.
  - intros. by apply bitrev32_spec.
  - apply bitrev32_word.
  - intros. apply lsb32_spec; [done|apply bitrev32_word].
Qed.

Lemma msb64_log2 b : 0 < b -> is_word 64 b -> msb64 b = Z.log2 b.
Proof.
  intros. apply (msb_of_rev 64 bitrev64 lsb64); try done.
  - intros. by apply bitrev64_spec.
  - apply bitrev64_word.
  - intros. apply lsb64_spec; [done|apply bitrev64_word].
Qed.

(** ** Readers and writers *)

Lemma byte_mask b : is_word 8 b -> b &&& 0xff = b.
Proof. apply (wrap_id 8). Qed.

(** [x & 0xff] is the truncation to a byte. *)
Ltac fold_w8 :=
  repeat match goal with |- context [?x &&& 255] => change (x &&& 255) with (w8 x) end.

Lemma write_uint32_le v : write_uint32 v = le_bytes 4 v.
Proof.
  unfold write_uint32. cbn [le_bytes]. rewrite !Z.shiftr_shiftr by lia.
  fold_w8. by rewrite !(wrap_wrap 8) by done.
Qed.

Lemma write_uint64_le v : write_uint64 v = le_bytes 8 v.
Proof.
  unfold write_uint64. cbn [le_bytes]. rewrite !Z.shiftr_shiftr by lia.
  fold_w8. by rewrite !(wrap_wrap 8) by done.
Qed.

Lemma lor_shift_assoc a b x n m : 0 <= n -> 0 <= m ->
  (a ||| (b ≪ n)) ||| (x ≪ (m + n)) = a ||| ((b ||| (x ≪ m)) ≪ n).
Proof.
  intros. rewrite Z.shiftl_lor, Z.shiftl_shiftl, Z.lor_assoc by lia. done.
Qed.

Lemma read_uint32_le bs tl :
  length bs = 4%nat -> are_bytes bs -> read_uint32 (bs ++ tl) = Ok (le_value bs).
Proof.
  intros Hlen H. do 5 (destruct bs as [|? bs]; try done).
  unfold are_bytes in H. rewrite !Forall_cons in H. destruct H as (?&?&?&?&_).
  unfold read_uint32. cbn -[Z.land Z.lor Z.shiftl]. rewrite !byte_mask by done.
  f_equal. rewrite Z.shiftl_0_l, Z.lor_0_r, !Z.shiftl_lor, !Z.shiftl_shiftl, !Z.lor_assoc by lia.
  done.
Qed.

Lemma read_uint64_le bs tl :
  length bs = 8%nat -> are_bytes bs -> read_uint64 (bs ++ tl) = Ok (le_value bs).
Proof.
  intros Hlen H. do 9 (destruct bs as [|? bs]; try done).
  unfold are_bytes in H. rewrite !Forall_cons in H. destruct H as (?&?&?&?&?&?&?&?&_).
  unfold read_uint64. cbn -[Z.land Z.lor Z.shiftl]. rewrite !byte_mask by done.
  f_equal. rewrite Z.shiftl_0_l, Z.lor_0_r, !Z.shiftl_lor, !Z.shiftl_shiftl, !Z.lor_assoc by lia.
  done.
Qed.

Lemma read_write_uint32 v tl : read_uint32 (write_uint32 v ++ tl) = Ok (w32 v).
Proof.
  rewrite write_uint32_le, read_uint32_le.
  - by rewrite le_value_bytes.
  - done.
  - apply le_bytes_are_bytes.
Qed.

Lemma read_write_uint64 v tl : read_uint64 (write_uint64 v ++ tl) = Ok (w64 v).
Proof.
  rewrite write_uint64_le, read_uint64_le.
  - by rewrite le_value_bytes.
  - done.
  - apply le_bytes_are_bytes.
Qed.

(** The De Bruijn multiplications with their tables compute the least set bit,
    and the reversals by table the greatest, of every non-zero 32- and 64-bit word;
    the little-endian writers and readers are inverse to each other. *)
Theorem lsb_msb_correct b tl :
  0 < b -> is_word 64 b ->
  is_lsb b (lsb64 b) /\ msb64 b = Z.log2 b /\
  (is_word 32 b -> is_lsb b (lsb32 b) /\ msb32 b = Z.log2 b /\ read_uint32 (write_uint32 b ++ tl) = Ok b) /\
  read_uint64 (write_uint64 b ++ tl) = Ok b.
Proof.
  intros H0 Hb. split; [by apply lsb64_spec|]. split; [by apply msb64_log2|]. split.
  - intros Hw. split; [by apply lsb32_spec|]. split; [by apply msb32_log2|]. by rewrite read_write_uint32, wrap_id.
  - by rewrite read_write_uint64, wrap_id.
Qed.

Lemma lsb_msb_correct_witness : is_lsb 24 (lsb64 24) /\ msb64 24 = 4 /\ lsb64 24 = 3.
Proof.
  destruct (lsb_msb_correct 24 [] ltac:(lia) ltac:(by split)) as (H1 & H2 & _).
  split; [exact H1|]. split; [exact H2|by vm_compute].
Defined.
