(* ===== verification/Sparse.v ===== *)
(** * Bitmap-compressed child arrays

    The branches of [merkle_trie.hpp] and [triedb.hpp] keep the children of up to
    32 sub-indices in a dense array, together with a 32-bit mask of the occupied
    sub-indices; the child of sub-index [i] sits at the position given by the
    number of mask bits below [i] ([std::bitset<32>(...).count()]).

    [child] is the abstract view, a partial function from sub-indices; the lemmas
    give the view after each array operation, and [mask_positions] is the loop
    [i = lsb(m); m &= (-1 << i) << 1] that visits the children. *)

From S2P Require Import Prelude Bits.

(** ** Population counts *)

Fixpoint popcount_below (n : nat) (x : Z) : nat :=
  match n with
  | O => O
  | S k => ((if Z.testbit x (Z.of_nat k) then 1 else 0) + popcount_below k x)%nat
  end.

(** [std::bitset<32>(x).count()] *)
Definition bitset_count (x : Z) : nat := popcount_below 32 x.

Definition MAX_BRANCH_BITS : Z := 5.
Definition MAX_BRANCH : Z := 32.

(** The position of sub-index [i]: [count(mask & ((1 << i) - 1))]. *)
Definition child_index (mask i : Z) : nat :=
  bitset_count (mask &&& w32 (w32 (1 ≪ i) - 1)).

Lemma popcount_below_le n x : (popcount_below n x <= n)%nat.
Proof. induction n; cbn; [lia|]. destruct (Z.testbit _ _); lia. Qed.

Lemma popcount_below_mono n n' x :
  (n <= n')%nat -> (popcount_below n x <= popcount_below n' x)%nat.
Proof. induction 1; cbn; [lia|]. lia. Qed.

Lemma popcount_below_ext n x y :
  (forall k, (k < n)%nat -> Z.testbit x (Z.of_nat k) = Z.testbit y (Z.of_nat k)) ->
  popcount_below n x = popcount_below n y.
Proof.
  induction n as [|n IH]; intros H; cbn; [done|].
  rewrite (H n) by lia. f_equal. apply IH. intros. apply H. lia.
Qed.

(** Only the bits below [m] count when the others are zero. *)
Lemma popcount_below_truncate n m x :
  (m <= n)%nat -> (forall k, (m <= k < n)%nat -> Z.testbit x (Z.of_nat k) = false) ->
  popcount_below n x = popcount_below m x.
Proof.
  induction 1 as [|n Hle IH]; intros H; cbn; [done|].
  rewrite (H n) by lia. apply IH. intros. apply H. lia.
Qed.

Definition is_sub_index (i : Z) : Prop := 0 <= i < 32.
#[export] Instance is_sub_index_dec i : Decision (is_sub_index i).
Proof. unfold is_sub_index. apply _. Defined.

Lemma is_sub_index_nonneg i : is_sub_index i -> 0 <= i.
Proof. by intros []. Qed.
#[export] Hint Resolve is_sub_index_nonneg : core.
Ltac sub_lia := unfold is_sub_index in *; lia.

Lemma child_index_below mask i :
  is_sub_index i -> child_index mask i = popcount_below (Z.to_nat i) mask.
Proof.
  intros Hi. unfold is_sub_index in Hi. unfold child_index, bitset_count.
  assert (Hones : w32 (w32 (1 ≪ i) - 1) = Z.ones i).
  { assert (1 ≪ i < 2 ^ 32 /\ 0 < 1 ≪ i).
    { rewrite Z.shiftl_1_l. split; [apply Z.pow_lt_mono_r|]; lia. }
    rewrite (wrap_id 32 (1 ≪ i)) by (unfold is_word; lia).
    rewrite wrap_id by (unfold is_word; lia).
    rewrite Z.ones_equiv, Z.shiftl_1_l. lia. }
  rewrite Hones.
  assert (Hbit : forall k, Z.testbit (mask &&& Z.ones i) (Z.of_nat k) =
                 Z.testbit mask (Z.of_nat k) && bool_decide (k < Z.to_nat i)%nat).
  { intros k. rewrite Z.land_spec, Z.testbit_ones by lia. f_equal.
    case_bool_decide; destruct (Z.leb_spec 0 (Z.of_nat k)), (Z.ltb_spec (Z.of_nat k) i); cbn; lia. }
  rewrite (popcount_below_truncate 32 (Z.to_nat i)).
  - apply popcount_below_ext. intros k Hk. rewrite Hbit, bool_decide_true by done.
    apply andb_true_r.
  - lia.
  - intros k Hk. rewrite Hbit, bool_decide_false by lia. apply andb_false_r.
Qed.

Lemma popcount_below_next x i :
  0 <= i -> Z.testbit x i = true ->
  popcount_below (S (Z.to_nat i)) x = S (popcount_below (Z.to_nat i) x).
Proof. intros Hi Hx. cbn [popcount_below]. by rewrite Z2Nat.id, Hx by done. Qed.

Lemma popcount_below_setbit n x i :
  0 <= i -> Z.testbit x i = false ->
  popcount_below n (x ||| (1 ≪ i)) =
  (popcount_below n x + if decide (i < Z.of_nat n)%Z then 1 else 0)%nat.
Proof.
  intros Hi Hx. induction n as [|n IH]; cbn.
  - destruct (decide _); lia.
  - rewrite IH, Z.lor_spec, Z.shiftl_1_l, Z.pow2_bits_eqb by done.
    destruct (Z.eqb_spec i (Z.of_nat n)) as [->|].
    + rewrite Hx. cbn. rewrite !decide_False, !decide_True by lia. lia.
    + rewrite orb_false_r. destruct (decide (i < Z.of_nat n)), (decide (i < Z.of_nat (S n))); lia.
Qed.

Lemma popcount_below_clearbit n x i :
  0 <= i -> Z.testbit x i = true ->
  popcount_below n x =
  (popcount_below n (Z.ldiff x (1 ≪ i)) + if decide (i < Z.of_nat n)%Z then 1 else 0)%nat.
Proof.
  intros Hi Hx.
  assert (Hf : Z.testbit (Z.ldiff x (1 ≪ i)) i = false).
  { rewrite Z.ldiff_spec, Z.shiftl_1_l, Z.pow2_bits_true by done. by rewrite Hx. }
  rewrite <-(popcount_below_setbit n _ i Hi Hf). apply popcount_below_ext. intros k Hk.
  rewrite Z.lor_spec, Z.ldiff_spec, Z.shiftl_1_l, Z.pow2_bits_eqb by done.
  destruct (Z.eqb_spec i (Z.of_nat k)) as [->|]; cbn; [by rewrite Hx|].
  by rewrite andb_true_r, orb_false_r.
Qed.

(** ** The abstract view *)

Section child.
Context {A : Type}.
Implicit Types (mask : Z) (data : list A).

Definition child mask data (i : Z) : option A :=
  if Z.testbit mask i then data !! child_index mask i else None.

(** The array holds exactly one entry per mask bit. *)
Definition compressed mask data : Prop :=
  is_word 32 mask /\ length data = bitset_count mask.

Lemma child_index_lt mask data i :
  compressed mask data -> is_sub_index i -> Z.testbit mask i = true ->
  (child_index mask i < length data)%nat.
Proof.
  intros [_ ->] Hi Hm. rewrite child_index_below by done. unfold bitset_count.
  enough (popcount_below (S (Z.to_nat i)) mask <= popcount_below 32 mask)%nat as H.
  { rewrite popcount_below_next in H by auto. lia. }
  apply popcount_below_mono. unfold is_sub_index in *. lia.
Qed.

Lemma child_index_mono mask i j :
  is_sub_index i -> is_sub_index j -> i < j -> Z.testbit mask i = true ->
  (child_index mask i < child_index mask j)%nat.
Proof.
  intros Hi Hj Hlt Hm. rewrite !child_index_below by done.
  enough (popcount_below (S (Z.to_nat i)) mask <= popcount_below (Z.to_nat j) mask)%nat as H.
  { rewrite popcount_below_next in H by auto. lia. }
  apply popcount_below_mono. unfold is_sub_index in *. lia.
Qed.

Lemma child_index_le mask data i :
  compressed mask data -> is_sub_index i -> (child_index mask i <= length data)%nat.
Proof.
  intros [_ ->] Hi. rewrite child_index_below by done. apply popcount_below_mono.
  unfold is_sub_index in *. lia.
Qed.

Lemma child_is_Some mask data i :
  compressed mask data -> is_sub_index i ->
  (is_Some (child mask data i) <-> Z.testbit mask i = true).
Proof.
  intros Hc Hi. unfold child. destruct (Z.testbit mask i) eqn:Hm.
  - rewrite lookup_lt_is_Some. split; [done|]. intros _. by apply child_index_lt.
  - split; [by intros []|done].
Qed.

Lemma child_out mask data i :
  compressed mask data -> ~ is_sub_index i -> child mask data i = None.
Proof.
  intros [Hw _] Hi. unfold child.
  destruct (decide (0 <= i)) as [Hi0|].
  - apply is_word_testbit in Hw as [_ Hw]; [|done]. rewrite Hw; [done|].
    unfold is_sub_index in Hi. lia.
  - by rewrite Z.testbit_neg_r by lia.
Qed.

Lemma setbit_testbit mask i j :
  0 <= i -> Z.testbit (mask ||| (1 ≪ i)) j = Z.testbit mask j || bool_decide (j = i).
Proof.
  intros Hi. rewrite Z.lor_spec, Z.shiftl_1_l. f_equal.
  destruct (decide (0 <= j)).
  - rewrite Z.pow2_bits_eqb by done.
    case_bool_decide; destruct (Z.eqb_spec i j); congruence || done.
  - rewrite Z.testbit_neg_r by lia. rewrite bool_decide_false by lia. done.
Qed.

Lemma setbit_word mask i :
  is_word 32 mask -> is_sub_index i -> is_word 32 (mask ||| (1 ≪ i)).
Proof.
  intros. apply lor_word; [done..|]. rewrite Z.shiftl_1_l. destruct H0. split; [lia|].
  apply Z.pow_lt_mono_r; lia.
Qed.

(** Overwriting the entry of an occupied sub-index. *)
Lemma child_update mask data i x j :
  compressed mask data -> is_sub_index i -> is_sub_index j -> Z.testbit mask i = true ->
  child mask (<[child_index mask i := x]> data) j =
  if decide (j = i) then Some x else child mask data j.
Proof.
  intros Hc Hi Hj Hm. unfold child. destruct (decide (j = i)) as [Heq|Heq].
  - subst. rewrite Hm. apply list_lookup_insert_eq. by apply child_index_lt.
  - destruct (Z.testbit mask j) eqn:Hmj; [|done].
    apply list_lookup_insert_ne.
    destruct (Z.lt_total i j) as [?|[?|?]]; [|lia|].
    + pose proof (child_index_mono mask i j). naive_solver lia.
    + pose proof (child_index_mono mask j i). naive_solver lia.
Qed.

Lemma compressed_update mask data i x :
  compressed mask data -> compressed mask (<[i := x]> data).
Proof. intros [??]. split; [done|]. by rewrite length_insert. Qed.

Lemma lookup_cons_succ (x : A) (l : list A) n : (x :: l) !! S n = l !! n.
Proof. done. Qed.

Definition list_insert_at (k : nat) (x : A) (l : list A) : list A :=
  take k l ++ x :: drop k l.

(** Opening a slot for an empty sub-index. *)
Lemma child_insert mask data i x j :
  compressed mask data -> is_sub_index i -> is_sub_index j -> Z.testbit mask i = false ->
  child (mask ||| (1 ≪ i)) (list_insert_at (child_index mask i) x data) j =
  if decide (j = i) then Some x else child mask data j.
Proof.
  intros Hc Hi Hj Hm. pose proof (child_index_le mask data i Hc Hi) as Hle.
  unfold child, list_insert_at. rewrite setbit_testbit by auto.
  rewrite (child_index_below (_ ||| _)) by done.
  rewrite popcount_below_setbit, <-child_index_below by auto.
  destruct (decide (j = i)) as [Heq|Heq].
  - subst. rewrite bool_decide_true, orb_true_r by done.
    rewrite decide_False by sub_lia. rewrite Nat.add_0_r.
    rewrite lookup_app_r; rewrite length_take; [|lia].
    by replace (_ - _)%nat with 0%nat by lia.
  - rewrite bool_decide_false, orb_false_r by done.
    destruct (Z.testbit mask j) eqn:Hmj; [|done].
    destruct (decide (i < Z.of_nat (Z.to_nat j))) as [Hlt|Hge].
    + assert (child_index mask i <= child_index mask j)%nat.
      { rewrite !child_index_below by done. apply popcount_below_mono. lia. }
      rewrite lookup_app_r; rewrite length_take; [|lia].
      replace (_ - _)%nat with (S (child_index mask j - child_index mask i)) by lia.
      rewrite lookup_cons_succ, lookup_drop. f_equal. lia.
    + pose proof (child_index_mono mask j i Hj Hi ltac:(unfold is_sub_index in *; lia) Hmj).
      rewrite lookup_app_l by (rewrite length_take; lia).
      rewrite lookup_take_lt by lia. f_equal. lia.
Qed.

Lemma compressed_insert mask data i x :
  compressed mask data -> is_sub_index i -> Z.testbit mask i = false ->
  compressed (mask ||| (1 ≪ i)) (list_insert_at (child_index mask i) x data).
Proof.
  intros [Hw Hl] Hi Hm. split; [by apply setbit_word|].
  unfold list_insert_at, bitset_count.
  rewrite popcount_below_setbit by auto. rewrite decide_True by sub_lia.
  pose proof (child_index_le mask data i (conj Hw Hl) Hi).
  rewrite length_app, length_cons, length_take, length_drop, Hl. unfold bitset_count. lia.
Qed.

Lemma clearbit_testbit mask i j :
  0 <= i -> Z.testbit (Z.ldiff mask (1 ≪ i)) j = Z.testbit mask j && negb (bool_decide (j = i)).
Proof.
  intros Hi. rewrite Z.ldiff_spec, Z.shiftl_1_l. f_equal. f_equal.
  destruct (decide (0 <= j)).
  - rewrite Z.pow2_bits_eqb by done.
    case_bool_decide; destruct (Z.eqb_spec i j); congruence || done.
  - rewrite Z.testbit_neg_r by lia. rewrite bool_decide_false by lia. done.
Qed.

Lemma clearbit_word mask i : is_word 32 mask -> is_word 32 (Z.ldiff mask (1 ≪ i)).
Proof.
  intros [H0 H]%is_word_testbit; [|done]. apply is_word_testbit; [done|].
  split; [apply Z.ldiff_nonneg; by left|]. intros j Hj. by rewrite Z.ldiff_spec, H.
Qed.

(** Closing the slot of an occupied sub-index. *)
Lemma child_delete mask data i j :
  compressed mask data -> is_sub_index i -> is_sub_index j -> Z.testbit mask i = true ->
  child (Z.ldiff mask (1 ≪ i)) (delete (child_index mask i) data) j =
  if decide (j = i) then None else child mask data j.
Proof.
  intros Hc Hi Hj Hm. unfold child. rewrite clearbit_testbit by auto.
  destruct (decide (j = i)) as [Heq|Heq].
  - subst. rewrite bool_decide_true, andb_false_r by done. done.
  - rewrite bool_decide_false, andb_true_r by done.
    destruct (Z.testbit mask j) eqn:Hmj; [|done].
    pose proof (popcount_below_clearbit (Z.to_nat j) mask i (proj1 Hi) Hm) as Hp.
    rewrite <-!child_index_below in Hp by done.
    destruct (decide (i < Z.of_nat (Z.to_nat j))) as [Hlt|Hge].
    + pose proof (child_index_mono mask i j Hi Hj ltac:(unfold is_sub_index in *; lia) Hm).
      rewrite list_lookup_delete_ge by lia. f_equal. lia.
    + pose proof (child_index_mono mask j i Hj Hi ltac:(unfold is_sub_index in *; lia) Hmj).
      rewrite list_lookup_delete_lt by lia. f_equal. lia.
Qed.

Lemma compressed_delete mask data i :
  compressed mask data -> is_sub_index i -> Z.testbit mask i = true ->
  compressed (Z.ldiff mask (1 ≪ i)) (delete (child_index mask i) data).
Proof.
  intros Hc Hi Hm. pose proof (child_index_lt mask data i Hc Hi Hm) as Hlt.
  destruct Hc as [Hw Hl]. split; [by apply clearbit_word|].
  pose proof (popcount_below_clearbit 32 mask i (proj1 Hi) Hm) as Hp.
  rewrite decide_True in Hp by sub_lia.
  rewrite length_delete by (by apply lookup_lt_is_Some). unfold bitset_count in *. lia.
Qed.

Lemma compressed_empty : compressed 0 ([] : list A).
Proof. by split. Qed.

End child.

(** ** Loops over the occupied sub-indices *)

(** [m & ((static_cast<uint32_t>(-1) << i) << 1)] *)
Definition mask_next (m i : Z) : Z := m &&& w32 (w32 (w32 (-1) ≪ i) ≪ 1).
(** [m & ((static_cast<uint32_t>(-1) >> (31-i)) >> 1)] *)
Definition mask_prev (m i : Z) : Z := m &&& ((w32 (-1) ≫ (31 - i)) ≫ 1).

(** [while (m) { i = lsb(m); m = mask_next(m, i); ... }]: the sub-indices in the
    order the loop body sees them.  The fuel counts iterations; 32 suffice. *)
Fixpoint mask_loop (fuel : nat) (m : Z) : list Z :=
  match fuel with
  | O => []
  | S fuel =>
      if m =? 0 then []
      else let i := lsb32 m in i :: mask_loop fuel (mask_next m i)
  end.
Definition mask_positions (m : Z) : list Z := mask_loop 32 m.

Lemma mask_next_testbit m i j :
  is_sub_index i -> is_word 32 m ->
  Z.testbit (mask_next m i) j = Z.testbit m j && (i <? j).
Proof.
  intros Hi Hm. unfold is_sub_index in *. unfold mask_next. rewrite Z.land_spec.
  destruct (Z.testbit m j) eqn:Hj; [|done]. cbn.
  assert (0 <= j < 32).
  { destruct (decide (0 <= j)); [|by rewrite Z.testbit_neg_r in Hj by lia].
    destruct (decide (j < 32)); [lia|].
    apply is_word_testbit in Hm as [_ Hm]; [|done]. rewrite Hm in Hj by lia. done. }
  rewrite wrap_spec, Z.shiftl_spec, (proj2 (Z.ltb_lt j 32)), andb_true_r by lia.
  destruct (decide (j = 0)) as [->|].
  - rewrite Z.testbit_neg_r by lia. symmetry. apply Z.ltb_ge. lia.
  - rewrite wrap_spec, Z.shiftl_spec, (proj2 (Z.ltb_lt (j - 1) 32)), andb_true_r by lia.
    destruct (Z.ltb_spec i j).
    + rewrite wrap_spec, Z.bits_m1 by lia. apply Z.ltb_lt. lia.
    + by rewrite Z.testbit_neg_r by lia.
Qed.

Lemma mask_prev_testbit m i j :
  is_sub_index i -> is_word 32 m ->
  Z.testbit (mask_prev m i) j = Z.testbit m j && (j <? i).
Proof.
  intros Hi Hm. unfold is_sub_index in *. unfold mask_prev. rewrite Z.land_spec.
  destruct (Z.testbit m j) eqn:Hj; [|done]. cbn.
  assert (0 <= j) by (destruct (decide (0 <= j)); [done|];
    by rewrite Z.testbit_neg_r in Hj by lia).
  rewrite !Z.shiftr_spec, wrap_spec, Z.bits_m1 by lia. cbn.
  destruct (Z.ltb_spec (j + 1 + (31 - i)) 32), (Z.ltb_spec j i); done || lia.
Qed.

Lemma mask_next_word m i : is_word 32 m -> is_word 32 (mask_next m i).
Proof. intros. by apply land_word. Qed.

Lemma mask_prev_word m i : is_word 32 m -> is_word 32 (mask_prev m i).
Proof. intros. by apply land_word. Qed.

Lemma lsb32_sub_index m : 0 < m -> is_word 32 m -> is_sub_index (lsb32 m).
Proof.
  intros H0 Hm. pose proof (lsb32_spec m H0 Hm) as Hl. split; [apply Hl|].
  by apply (is_lsb_lt 32 m).
Qed.

Lemma word_nonzero w m : is_word w m -> (m =? 0) = false -> 0 < m.
Proof. unfold is_word. lia. Qed.

Lemma word_zero_bits w m : is_word w m -> (forall j, 0 <= j -> Z.testbit m j = false) -> m = 0.
Proof. intros _ H. apply Z.bits_inj'. intros j Hj. by rewrite H, Z.bits_0. Qed.

(** The set bits of [m] at positions [lo] and above, in increasing order. *)
Definition bits_from (m lo : Z) : list Z :=
  filter (fun j => Z.testbit m j = true) (seqZ lo (32 - lo)).

Lemma bits_from_ext m m' lo :
  (forall j, lo <= j < 32 -> Z.testbit m j = Z.testbit m' j) ->
  bits_from m lo = bits_from m' lo.
Proof.
  intros H. unfold bits_from.
  assert (Hall : Forall (fun j => lo <= j < 32) (seqZ lo (32 - lo))).
  { apply Forall_forall. intros j Hj%elem_of_seqZ. lia. }
  induction Hall as [|j l Hj Hl IH]; [done|].
  rewrite !filter_cons, IH, (H j Hj). done.
Qed.

Lemma bits_from_skip m lo :
  lo < 32 -> Z.testbit m lo = false -> bits_from m lo = bits_from m (lo + 1).
Proof.
  intros Hlo Hm. unfold bits_from. rewrite seqZ_cons by lia.
  rewrite filter_cons_False by (by rewrite Hm).
  f_equal. f_equal; lia.
Qed.

Lemma bits_from_take m lo :
  lo < 32 -> Z.testbit m lo = true -> bits_from m lo = lo :: bits_from m (lo + 1).
Proof.
  intros Hlo Hm. unfold bits_from. rewrite seqZ_cons by lia.
  rewrite filter_cons_True by done. f_equal. f_equal. f_equal; lia.
Qed.

Lemma bits_from_lsb m lo k :
  0 <= lo <= k -> is_sub_index k -> Z.testbit m k = true ->
  (forall j, lo <= j < k -> Z.testbit m j = false) ->
  bits_from m lo = k :: bits_from m (k + 1).
Proof.
  intros Hlo Hk Hm. remember (Z.to_nat (k - lo)) as n eqn:Hn. revert lo Hlo Hn.
  unfold is_sub_index in Hk. induction n as [|n IH]; intros lo Hlo Hn Hz.
  - replace k with lo in * by lia. apply bits_from_take; [lia|done].
  - rewrite bits_from_skip by (lia || apply Hz; lia).
    apply IH; [lia..|]. intros. apply Hz. lia.
Qed.

Lemma bits_from_none m lo :
  0 <= lo -> (forall j, lo <= j < 32 -> Z.testbit m j = false) -> bits_from m lo = [].
Proof.
  intros Hlo H. unfold bits_from.
  assert (Hall : Forall (fun j => lo <= j < 32) (seqZ lo (32 - lo))).
  { apply Forall_forall. intros j Hj%elem_of_seqZ. lia. }
  induction Hall as [|j l Hj Hl IH]; [done|].
  rewrite filter_cons_False; [done|]. by rewrite H.
Qed.

Lemma mask_loop_spec fuel m lo :
  is_word 32 m -> 0 <= lo -> 32 - lo <= Z.of_nat fuel ->
  (forall j, 0 <= j < lo -> Z.testbit m j = false) ->
  mask_loop fuel m = bits_from m lo.
Proof.
  revert m lo. induction fuel as [|fuel IH]; intros m lo Hm Hlo Hf Hz; cbn [mask_loop].
  - symmetry. apply bits_from_none; [done|lia].
  - destruct (m =? 0) eqn:E.
    + apply Z.eqb_eq in E as ->. symmetry. apply bits_from_none; [done|].
      intros. apply Z.bits_0.
    + pose proof (word_nonzero _ _ Hm E) as H0.
      pose proof (lsb32_spec m H0 Hm) as (Hk0 & Hkt & Hkl).
      pose proof (lsb32_sub_index m H0 Hm) as Hk.
      set (k := lsb32 m) in *.
      assert (lo <= k).
      { destruct (decide (lo <= k)); [done|]. rewrite Hz in Hkt by lia. done. }
      rewrite (bits_from_lsb m lo k) by (done || (intros; apply Hkl; lia)). f_equal.
      rewrite (IH _ (k + 1)).
      * apply bits_from_ext. intros j Hj. rewrite mask_next_testbit by done.
        rewrite (proj2 (Z.ltb_lt k j)) by lia. apply andb_true_r.
      * by apply mask_next_word.
      * lia.
      * lia.
      * intros j Hj. rewrite mask_next_testbit by done.
        rewrite (proj2 (Z.ltb_ge k j)) by lia. apply andb_false_r.
Qed.

(** The loop visits exactly the set bits, in increasing order. *)
Lemma mask_positions_spec m :
  is_word 32 m ->
  mask_positions m = filter (fun j => Z.testbit m j = true) (seqZ 0 32).
Proof.
  intros Hm. unfold mask_positions. rewrite (mask_loop_spec 32 m 0); [done|done|lia..].
Qed.

Lemma elem_of_mask_positions m i :
  is_word 32 m -> i ∈ mask_positions m <-> is_sub_index i /\ Z.testbit m i = true.
Proof.
  intros Hm. rewrite mask_positions_spec by done.
  rewrite list_elem_of_filter, elem_of_seqZ. unfold is_sub_index.
  split; intros [? ?]; split; done || lia.
Qed.
