(* ===== verification/TrieNode.v ===== *)
(** * Trie database nodes ([src/src/db/triedb.hpp], [src/src/db/triedb.cpp])

    The roots, leaves and branches of the trie database and the byte formats they
    are stored in.  Serialisers produce the bytes written, deserialisers return
    the node or the [assert] that fails; reading a node back yields the node
    written. *)

From S2P Require Import Prelude Bits Sparse.

(** ** [custom_data_t] and [node_hash] *)

(** [data_] is the array ([[]] for a null pointer) and [size_] the size field. *)
Record custom_data := CustomData { cd_bytes : list Z; cd_size : Z }.

Definition custom_data_null : custom_data := CustomData [] 0.
Definition custom_data_of (bs : list Z) : custom_data :=
  CustomData bs (Z.of_nat (length bs)).

(** [set_data(dat, sz)] *)
Definition set_data (cd : custom_data) (dat : list Z) : custom_data :=
  let sz := Z.of_nat (length dat) in
  let cd1 :=
    if sz =? cd_size cd then cd
    else if sz =? 0 then CustomData [] (cd_size cd)
    else CustomData (cd_bytes cd) sz in
  if sz =? 0 then cd1 else CustomData dat (cd_size cd1).

(** [memcpy(p, data(), size())]: the [size_] bytes behind [data_]. *)
Definition copy_out (cd : custom_data) : res (list Z) :=
  _ ← require (cd_size cd <=? Z.of_nat (length (cd_bytes cd))) UndefinedBehaviour;
  Ok (take (Z.to_nat (cd_size cd)) (cd_bytes cd)).

(** ** [triedb_root] *)

Record triedb_root := TriedbRoot {
  r_id : Z; r_previous_id : Z; r_ptr : Z; r_height : Z; r_num_entries : Z
}.

Definition root_MAX_SIZE_IN_BYTES : Z := 4096.
Definition root_serialization_size : Z := 4 + 4 + 8 + 8 + 8.

(** [triedb_root(parent, child)] *)
Definition root_of_parent (parent : triedb_root) (child : Z) : triedb_root :=
  TriedbRoot child (r_id parent) 0 (r_height parent + 1) (r_num_entries parent).

(** [checked_cast<uintN_t>] of a non-negative value. *)
Definition checked_cast_unsigned (w v : Z) : res Z :=
  _ ← require ((0 <=? v) && (v <? 2 ^ w)) CheckedCast; Ok v.

Definition get_u8 (p : list Z) : res (Z * list Z) :=
  v ← byte_at p 0; Ok (v, drop 1 p).
Definition get_u32 (p : list Z) : res (Z * list Z) :=
  v ← read_uint32 p; Ok (v, drop 4 p).
Definition get_u64 (p : list Z) : res (Z * list Z) :=
  v ← read_uint64 p; Ok (v, drop 8 p).
Definition get_bytes (n : Z) (p : list Z) : res (list Z * list Z) :=
  _ ← require (n <=? Z.of_nat (length p)) UndefinedBehaviour;
  Ok (take (Z.to_nat n) p, drop (Z.to_nat n) p).

Definition root_write (r : triedb_root) : res (list Z) :=
  let sz := root_serialization_size in
  _ ← require (sz <? root_MAX_SIZE_IN_BYTES) AssertFailed;
  sz32 ← checked_cast_unsigned 32 sz;
  h32 ← checked_cast_unsigned 32 (r_height r);
  n64 ← checked_cast_unsigned 64 (r_num_entries r);
  Ok (write_uint32 sz32 ++ write_uint32 h32 ++ write_uint64 n64 ++
      write_uint64 (r_previous_id r) ++ write_uint64 (r_ptr r)).

(** [read] leaves [id_] alone: the caller sets it from the file offset. *)
Definition root_read (self : triedb_root) (buffer : list Z) : res triedb_root :=
  '(sz, p) ← get_u32 buffer;
  _ ← require (sz =? root_serialization_size) AssertFailed;
  '(h, p) ← get_u32 p;
  '(n, p) ← get_u64 p;
  '(prev, p) ← get_u64 p;
  '(ptr, p) ← get_u64 p;
  Ok (TriedbRoot (r_id self) prev ptr h n).

(** ** [triedb_leaf] *)

Record triedb_leaf := TriedbLeaf {
  l_hash : custom_data; l_key : Z; l_data : custom_data
}.

Definition MB : Z := 1024 * 1024.
Definition leaf_MAX_SIZE_IN_BYTES : Z := 2 * MB.

Definition new_leaf (key : Z) (data : list Z) : triedb_leaf :=
  TriedbLeaf custom_data_null key (custom_data_of data).

Definition leaf_set_hash (l : triedb_leaf) (h : list Z) : triedb_leaf :=
  TriedbLeaf (set_data (l_hash l) h) (l_key l) (l_data l).

Definition leaf_serialization_size (l : triedb_leaf) : Z :=
  4 + 8 + 1 + cd_size (l_hash l) + cd_size (l_data l).

Definition leaf_write (l : triedb_leaf) : res (list Z) :=
  let sz := leaf_serialization_size l in
  _ ← require (sz <? leaf_MAX_SIZE_IN_BYTES) AssertFailed;
  sz32 ← checked_cast_unsigned 32 sz;
  hash ← (if 0 <? cd_size (l_hash l) then copy_out (l_hash l) else Ok []);
  data ← (if bool_decide (cd_bytes (l_data l) <> []) then copy_out (l_data l) else Ok []);
  Ok (write_uint32 sz32 ++ [w8 (cd_size (l_hash l))] ++ write_uint64 (l_key l) ++
      hash ++ data).

Definition leaf_read (self : triedb_leaf) (buffer : list Z) : res triedb_leaf :=
  '(sz, p) ← get_u32 buffer;
  '(hash_size, p) ← get_u8 p;
  '(key, p) ← get_u64 p;
  _ ← require (13 + hash_size <? leaf_MAX_SIZE_IN_BYTES) AssertFailed;
  '(hash, p) ← get_bytes hash_size p;
  let pos := 13 + hash_size in
  let custom_data_sz := w64 (sz - pos) in
  _ ← require (w64 (pos + custom_data_sz) <? leaf_MAX_SIZE_IN_BYTES) AssertFailed;
  '(data, _) ← get_bytes custom_data_sz p;
  Ok (TriedbLeaf (set_data (l_hash self) hash) key (set_data (l_data self) data)).

(** ** [triedb_branch] *)

Record triedb_branch := TriedbBranch {
  b_hash : custom_data; b_depth : Z; b_mask : Z; b_leaf : Z; b_num : Z;
  b_ptr : list Z
}.

Definition branch_MAX_SIZE_IN_BYTES : Z := 1024.

Definition branch_default : triedb_branch :=
  TriedbBranch custom_data_null 0 0 0 0 [].

Definition compute_max_key_bits (key : Z) : Z :=
  let required := msb64 key + 1 in
  (required + MAX_BRANCH_BITS - 1) / MAX_BRANCH_BITS * MAX_BRANCH_BITS.

Section accessors.
Implicit Types (b : triedb_branch) (i : Z).

Definition branch_set_hash b (h : list Z) : triedb_branch :=
  TriedbBranch (set_data (b_hash b) h) (b_depth b) (b_mask b) (b_leaf b) (b_num b) (b_ptr b).
(** [depth_] is a [uint8_t]. *)
Definition set_depth b (d : Z) : triedb_branch :=
  TriedbBranch (b_hash b) (w8 d) (b_mask b) (b_leaf b) (b_num b) (b_ptr b).
Definition num_children b : nat := bitset_count (b_mask b).
Definition is_empty b i : bool := Z.land (b_mask b ≫ i) 1 =? 0.
Definition is_leaf b i : bool := negb (is_empty b i) && negb (Z.land (b_leaf b ≫ i) 1 =? 0).
Definition is_branch b i : bool := negb (is_empty b i) && negb (is_leaf b i).
Definition set_leaf b i : triedb_branch :=
  TriedbBranch (b_hash b) (b_depth b) (b_mask b) (b_leaf b ||| w32 (1 ≪ i)) (b_num b) (b_ptr b).
Definition set_branch b i : triedb_branch :=
  TriedbBranch (b_hash b) (b_depth b) (b_mask b) (Z.ldiff (b_leaf b) (w32 (1 ≪ i)))
    (b_num b) (b_ptr b).
Definition set_num_entries b n : triedb_branch :=
  TriedbBranch (b_hash b) (b_depth b) (b_mask b) (b_leaf b) n (b_ptr b).
Definition add_num_entries b dn : triedb_branch := set_num_entries b (w64 (b_num b + dn)).
Definition sub_num_entries b dn : triedb_branch := set_num_entries b (w64 (b_num b - dn)).

Definition get_child_pointer b i : res Z :=
  of_option (b_ptr b !! child_index (b_mask b) i) UndefinedBehaviour.

Definition set_child_pointer b i (ptr : Z) : triedb_branch :=
  let k := child_index (b_mask b) i in
  let ptrs := if is_empty b i then list_insert_at k ptr (b_ptr b) else <[k := ptr]> (b_ptr b) in
  TriedbBranch (b_hash b) (b_depth b) (b_mask b ||| w32 (1 ≪ i)) (b_leaf b) (b_num b) ptrs.

(** [set_empty] shifts the tail of [ptr_] down by one.  Its last step reads
    [ptr_[n]], one past the end of the array: [beyond] is whatever is there.
    The final slot is then zeroed; it is no longer covered by the mask. *)
Definition shift_down (k : nat) (ptrs : list Z) (beyond : Z) : list Z :=
  take k ptrs ++ drop (S k) ptrs ++ [beyond].
Definition set_empty (beyond : Z) b i : triedb_branch :=
  let k := child_index (b_mask b) i in
  let n := num_children b in
  let ptrs := <[(n - 1)%nat := 0]> (shift_down k (b_ptr b) beyond) in
  TriedbBranch (b_hash b) (b_depth b) (Z.ldiff (b_mask b) (w32 (1 ≪ i)))
    (Z.ldiff (b_leaf b) (w32 (1 ≪ i))) (b_num b) (take (n - 1) ptrs).

(** [set_mask]: keep the pointers of the sub-indices already present, null the
    new ones.  [m0 &= ~(1 << lsb(m0))] drops the bit just visited. *)
Fixpoint set_mask_loop (fuel : nat) b (m0 : Z) : res (list Z) :=
  match fuel with
  | O => if m0 =? 0 then Ok [] else Throw OutOfFuel
  | S fuel =>
      if m0 =? 0 then Ok []
      else
        let i := lsb32 m0 in
        p ← (if is_empty b i then Ok 0 else get_child_pointer b i);
        ps ← set_mask_loop fuel b (Z.ldiff m0 (w32 (1 ≪ i)));
        Ok (p :: ps)
  end.
Definition set_mask b (m : Z) : res triedb_branch :=
  ptrs ← set_mask_loop 32 b m;
  Ok (TriedbBranch (b_hash b) (b_depth b) m (b_leaf b) (b_num b) ptrs).

Definition branch_serialization_size b : res Z :=
  let sz := 4 + 1 + 1 + 4 + 4 + 8 + 8 * Z.of_nat (num_children b) + cd_size (b_hash b) in
  _ ← require (sz <? branch_MAX_SIZE_IN_BYTES) AssertFailed; Ok sz.

Definition branch_write b : res (list Z) :=
  sz ← branch_serialization_size b;
  sz32 ← checked_cast_unsigned 32 sz;
  hs ← checked_cast_unsigned 8 (cd_size (b_hash b));
  let n := num_children b in
  _ ← require (bool_decide (n <= length (b_ptr b))%nat) UndefinedBehaviour;
  hash ← (if cd_size (b_hash b) =? 0 then Ok [] else copy_out (b_hash b));
  Ok (write_uint32 sz32 ++ [b_depth b] ++ [hs] ++ write_uint32 (b_mask b) ++
      write_uint32 (b_leaf b) ++ write_uint64 (b_num b) ++
      mjoin (write_uint64 <$> take n (b_ptr b)) ++ hash).

(** The loop over child pointers; [pos] is [p - buffer]. *)
Fixpoint read_ptrs (n : nat) (sz pos : Z) (p : list Z) : res (list Z * Z * list Z) :=
  match n with
  | O => Ok ([], pos, p)
  | S n =>
      _ ← require (pos + 8 <=? sz) AssertFailed;
      '(v, p) ← get_u64 p;
      '(vs, pos, p) ← read_ptrs n sz (pos + 8) p;
      Ok (v :: vs, pos, p)
  end.

Definition branch_read (self : triedb_branch) (buffer : list Z) : res triedb_branch :=
  '(sz, p) ← get_u32 buffer;
  _ ← require ((4 <=? sz) && (sz <? branch_MAX_SIZE_IN_BYTES)) AssertFailed;
  _ ← require (4 + 4 <=? sz) AssertFailed;
  '(depth, p) ← get_u8 p;
  _ ← require (5 + 4 <=? sz) AssertFailed;
  '(hash_sz, p) ← get_u8 p;
  _ ← require (6 + 4 <=? sz) AssertFailed;
  '(mask, p) ← get_u32 p;
  _ ← require (10 + 4 <=? sz) AssertFailed;
  '(leaf, p) ← get_u32 p;
  _ ← require (14 + 8 <=? sz) AssertFailed;
  '(num, p) ← get_u64 p;
  '(ptrs, pos, p) ← read_ptrs (bitset_count mask) sz 22 p;
  _ ← require (pos <=? sz) AssertFailed;
  _ ← require (hash_sz =? sz - pos) AssertFailed;
  hash ← (if 0 <? hash_sz then '(h, _) ← get_bytes hash_sz p; Ok (Some h) else Ok None);
  Ok (TriedbBranch
        (match hash with Some h => set_data (b_hash self) h | None => b_hash self end)
        depth mask leaf num ptrs).

End accessors.

(** ** Well-formed nodes *)

Definition data_wf (cd : custom_data) : Prop :=
  cd_size cd = Z.of_nat (length (cd_bytes cd)) /\ are_bytes (cd_bytes cd).

Record branch_wf (b : triedb_branch) : Prop := BranchWf {
  bw_hash : data_wf (b_hash b);
  bw_hash_size : cd_size (b_hash b) < 256;
  bw_depth : is_word 8 (b_depth b);
  bw_ptrs : compressed (b_mask b) (b_ptr b);
  bw_leaf : is_word 32 (b_leaf b);
  bw_num : is_word 64 (b_num b);
  bw_ptr_words : Forall (is_word 64) (b_ptr b)
}.

Record leaf_wf (l : triedb_leaf) : Prop := LeafWf {
  lw_hash : data_wf (l_hash l);
  lw_hash_size : cd_size (l_hash l) < 256;
  lw_key : is_word 64 (l_key l);
  lw_data : data_wf (l_data l);
  lw_size : leaf_serialization_size l < leaf_MAX_SIZE_IN_BYTES
}.

Record root_wf (r : triedb_root) : Prop := RootWf {
  rw_previous : is_word 64 (r_previous_id r);
  rw_ptr : is_word 64 (r_ptr r);
  rw_height : is_word 32 (r_height r);
  rw_num : is_word 64 (r_num_entries r)
}.

(** ** Reading back what was written *)

Lemma get_u8_cons v tl : get_u8 (v :: tl) = Ok (v, tl).
Proof. done. Qed.
Lemma get_u32_write v tl : is_word 32 v -> get_u32 (write_uint32 v ++ tl) = Ok (v, tl).
Proof.
  intros. unfold get_u32. rewrite read_write_uint32, wrap_id by done. cbn [mbind res_bind].
  by rewrite drop_app_length' by done.
Qed.
Lemma get_u64_write v tl : is_word 64 v -> get_u64 (write_uint64 v ++ tl) = Ok (v, tl).
Proof.
  intros. unfold get_u64. rewrite read_write_uint64, wrap_id by done. cbn [mbind res_bind].
  by rewrite drop_app_length' by done.
Qed.
Lemma get_bytes_app n bs tl :
  n = Z.of_nat (length bs) -> get_bytes n (bs ++ tl) = Ok (bs, tl).
Proof.
  intros ->. unfold get_bytes, require. rewrite length_app.
  rewrite (proj2 (Z.leb_le _ _)) by lia. cbn. rewrite Nat2Z.id.
  by rewrite take_app_length, drop_app_length.
Qed.

Create Rewrite HintDb reads.
#[export] Hint Rewrite get_u8_cons : reads.
#[export] Hint Rewrite get_u32_write get_u64_write get_bytes_app using done : reads.

(** Discharge a guard that holds. *)
Ltac pass_guard :=
  match goal with
  | |- context [require ?b ?e] =>
      rewrite (require_true b e) by
        first [reflexivity | repeat (rewrite andb_true_iff; split); try (unfold is_word in *); lia]
  end; cbn [mbind res_bind].
Ltac run_reads := repeat (progress (autorewrite with reads; cbn [mbind res_bind])).

Lemma checked_cast_word w v : is_word w v -> checked_cast_unsigned w v = Ok v.
Proof. unfold is_word, checked_cast_unsigned. intros. by pass_guard. Qed.

Lemma copy_out_wf cd : data_wf cd -> copy_out cd = Ok (cd_bytes cd).
Proof.
  intros [H _]. unfold copy_out. pass_guard. f_equal. apply take_ge. lia.
Qed.

Lemma set_data_null_of bs : set_data custom_data_null bs = custom_data_of bs.
Proof. by destruct bs. Qed.

Lemma custom_data_of_wf cd : data_wf cd -> custom_data_of (cd_bytes cd) = cd.
Proof. intros [H _]. destruct cd. cbn in *. by rewrite H. Qed.

Lemma data_wf_of bs : are_bytes bs -> data_wf (custom_data_of bs).
Proof. by split. Qed.

Lemma set_data_wf cd bs : data_wf cd -> are_bytes bs -> bs <> [] ->
  set_data cd bs = custom_data_of bs.
Proof.
  intros [H _] Hb Hne. unfold set_data. destruct bs as [|x bs]; [done|].
  rewrite (proj2 (Z.eqb_neq _ 0)) by (cbn; lia).
  case_match eqn:E; [|done]. apply Z.eqb_eq in E. unfold custom_data_of. by rewrite E.
Qed.

Lemma bitset_count_le m : (bitset_count m <= 32)%nat.
Proof. apply popcount_below_le. Qed.

Lemma read_ptrs_write ptrs sz pos tl :
  Forall (is_word 64) ptrs -> pos + 8 * Z.of_nat (length ptrs) <= sz ->
  read_ptrs (length ptrs) sz pos (mjoin (write_uint64 <$> ptrs) ++ tl) =
  Ok (ptrs, pos + 8 * Z.of_nat (length ptrs), tl).
Proof.
  revert pos. induction ptrs as [|v ptrs IH]; intros pos Hw Hsz; cbn [length read_ptrs].
  - cbn. by rewrite Z.add_0_r.
  - apply Forall_cons in Hw as [Hv Hw]. rewrite length_cons in Hsz.
    pass_guard. rewrite fmap_cons. cbn [mjoin list_join]. rewrite <-app_assoc.
    rewrite get_u64_write by done. cbn [mbind res_bind].
    rewrite IH by (done || lia). cbn. do 2 f_equal. f_equal. lia.
Qed.

Lemma root_read_write_lemma self r tl :
  root_wf r ->
  (root_write r ≫= λ bs, root_read self (bs ++ tl)) =
  Ok (TriedbRoot (r_id self) (r_previous_id r) (r_ptr r) (r_height r) (r_num_entries r)).
Proof.
  intros [H1 H2 H3 H4]. unfold root_write. pass_guard.
  rewrite !checked_cast_word by done. cbn [mbind res_bind]. unfold root_read.
  rewrite <-!app_assoc. unfold root_serialization_size.
  rewrite get_u32_write by done. cbn [mbind res_bind]. pass_guard.
  by run_reads.
Qed.

Lemma leaf_read_write_lemma l tl :
  leaf_wf l ->
  (leaf_write l ≫= λ bs, leaf_read (TriedbLeaf custom_data_null 0 custom_data_null) (bs ++ tl)) = Ok l.
Proof.
  intros [Hh Hhs Hk Hd Hsz]. pose proof Hh as [Hhl _]. pose proof Hd as [Hdl _].
  unfold leaf_write, leaf_serialization_size, leaf_MAX_SIZE_IN_BYTES, MB in *. pass_guard.
  rewrite checked_cast_word by (unfold is_word; lia). cbn [mbind res_bind].
  assert (Hhash : (if 0 <? cd_size (l_hash l) then copy_out (l_hash l) else Ok []) =
                  Ok (cd_bytes (l_hash l))).
  { case_match eqn:E; [by apply copy_out_wf|]. f_equal. symmetry. apply nil_length_inv. lia. }
  assert (Hdata : (if bool_decide (cd_bytes (l_data l) <> []) then copy_out (l_data l) else Ok []) =
                  Ok (cd_bytes (l_data l))).
  { case_bool_decide as E; [by apply copy_out_wf|]. destruct (cd_bytes (l_data l)); [done|]. by destruct E. }
  rewrite Hhash, Hdata. cbn [mbind res_bind].
  rewrite (wrap_id 8) by (unfold is_word; lia). unfold leaf_read.
  rewrite <-!app_assoc, get_u32_write by (unfold is_word; lia). cbn [mbind res_bind app].
  rewrite get_u8_cons. cbn [mbind res_bind]. run_reads. unfold leaf_MAX_SIZE_IN_BYTES, MB.
  pass_guard. run_reads.
  replace (w64 _) with (cd_size (l_data l)) by (symmetry; rewrite wrap_id; [lia|unfold is_word; lia]).
  rewrite require_true by (apply Z.ltb_lt; rewrite wrap_id; unfold is_word; lia).
  cbn [mbind res_bind]. run_reads.
  rewrite !set_data_null_of, !custom_data_of_wf by done. by destruct l.
Qed.

Lemma branch_read_write_lemma b tl :
  branch_wf b ->
  (branch_write b ≫= λ bs, branch_read branch_default (bs ++ tl)) = Ok b.
Proof.
  intros [Hh Hhs Hd Hp Hl Hn Hpw]. pose proof Hh as [Hhl _]. pose proof Hp as [Hm Hpl].
  pose proof (bitset_count_le (b_mask b)) as H32.
  unfold branch_write, branch_serialization_size, branch_MAX_SIZE_IN_BYTES, num_children.
  pass_guard. rewrite !checked_cast_word by (unfold is_word; lia). cbn [mbind res_bind].
  rewrite require_true by (apply bool_decide_eq_true; lia). cbn [mbind res_bind].
  assert (Hhash : (if cd_size (b_hash b) =? 0 then Ok [] else copy_out (b_hash b)) =
                  Ok (cd_bytes (b_hash b))).
  { case_match eqn:E; [|by apply copy_out_wf]. f_equal. symmetry. apply nil_length_inv. lia. }
  rewrite Hhash. cbn [mbind res_bind]. rewrite <-Hpl, take_ge by done.
  unfold branch_read, branch_MAX_SIZE_IN_BYTES.
  rewrite <-!app_assoc, get_u32_write by (unfold is_word; lia). cbn [mbind res_bind].
  repeat pass_guard. cbn [app]. run_reads. repeat pass_guard.
  rewrite <-Hpl, read_ptrs_write by (done || lia). cbn [mbind res_bind]. repeat pass_guard.
  destruct (0 <? cd_size (b_hash b)) eqn:E.
  - rewrite get_bytes_app by done. cbn -[set_data].
    rewrite set_data_null_of, custom_data_of_wf by done. by destruct b.
  - cbn [mbind res_bind b_hash branch_default]. f_equal.
    assert (b_hash b = custom_data_null) as Hnull; [|by destruct b; cbn in *; subst].
    destruct (b_hash b) as [bs n]. cbn in *. unfold custom_data_null.
    assert (bs = []) as -> by (apply nil_length_inv; lia). cbn in *. by subst.
Qed.

(** ** Child pointers *)

Lemma land_1_testbit m i : 0 <= i -> (Z.land (m ≫ i) 1 =? 0) = negb (Z.testbit m i).
Proof.
  intros Hi. change 1 with (Z.ones 1). rewrite Z.land_ones by lia.
  assert (Z.testbit m i = Z.testbit (m ≫ i) 0) as -> by (rewrite Z.shiftr_spec; f_equal; lia).
  change (2 ^ 1) with 2. rewrite <-Z.bit0_mod. by destruct (Z.testbit _ 0).
Qed.

Section children.
Implicit Types (b : triedb_branch) (i j : Z).

(** The child pointer of sub-index [i], as a partial function. *)
Definition ptr_at b i : option Z := child (b_mask b) (b_ptr b) i.

Lemma is_empty_testbit b i : 0 <= i -> is_empty b i = negb (Z.testbit (b_mask b) i).
Proof. intros. by apply land_1_testbit. Qed.

Lemma is_leaf_testbit b i :
  0 <= i -> is_leaf b i = Z.testbit (b_mask b) i && Z.testbit (b_leaf b) i.
Proof.
  intros. unfold is_leaf. rewrite is_empty_testbit, land_1_testbit by done.
  by rewrite !negb_involutive.
Qed.

Lemma is_branch_testbit b i :
  0 <= i -> is_branch b i = Z.testbit (b_mask b) i && negb (Z.testbit (b_leaf b) i).
Proof.
  intros. unfold is_branch. rewrite is_leaf_testbit, is_empty_testbit by done.
  destruct (Z.testbit _ _), (Z.testbit _ _); done.
Qed.

Lemma w32_bit i : is_sub_index i -> w32 (1 ≪ i) = 1 ≪ i.
Proof.
  intros [??]. apply wrap_id. rewrite Z.shiftl_1_l. split; [lia|]. apply Z.pow_lt_mono_r; lia.
Qed.

Lemma get_child_pointer_Ok b i p :
  ptr_at b i = Some p -> get_child_pointer b i = Ok p.
Proof.
  unfold ptr_at, child, get_child_pointer. destruct (Z.testbit _ _); [|done]. by intros ->.
Qed.

Lemma ptr_at_is_Some b i :
  compressed (b_mask b) (b_ptr b) -> is_sub_index i ->
  is_empty b i = false -> exists p, ptr_at b i = Some p.
Proof.
  intros Hc Hi. rewrite is_empty_testbit by auto. rewrite negb_false_iff. intros Hm.
  by apply (child_is_Some _ _ i Hc Hi).
Qed.

Lemma ptr_at_set b i p j :
  compressed (b_mask b) (b_ptr b) -> is_sub_index i -> is_sub_index j ->
  ptr_at (set_child_pointer b i p) j = if decide (j = i) then Some p else ptr_at b j.
Proof.
  intros Hc Hi Hj. unfold ptr_at, set_child_pointer. cbn [b_mask b_ptr].
  rewrite w32_bit, is_empty_testbit by auto. destruct (Z.testbit (b_mask b) i) eqn:Hm; cbn [negb].
  - replace (b_mask b ||| (1 ≪ i)) with (b_mask b); [by apply child_update|].
    apply Z.bits_inj'. intros n Hn. rewrite setbit_testbit by auto.
    case_bool_decide; [subst; by rewrite Hm|by rewrite orb_false_r].
  - by apply child_insert.
Qed.

Lemma compressed_set b i p :
  compressed (b_mask b) (b_ptr b) -> is_sub_index i ->
  compressed (b_mask (set_child_pointer b i p)) (b_ptr (set_child_pointer b i p)).
Proof.
  intros Hc Hi. unfold set_child_pointer. cbn [b_mask b_ptr].
  rewrite w32_bit, is_empty_testbit by auto. destruct (Z.testbit (b_mask b) i) eqn:Hm; cbn [negb].
  - replace (b_mask b ||| (1 ≪ i)) with (b_mask b); [by apply compressed_update|].
    apply Z.bits_inj'. intros n Hn. rewrite setbit_testbit by auto.
    case_bool_decide; [subst; by rewrite Hm|by rewrite orb_false_r].
  - by apply compressed_insert.
Qed.

(** [set_empty] removes the entry, whatever the word past the end is. *)
Lemma set_empty_delete beyond b i :
  compressed (b_mask b) (b_ptr b) -> is_sub_index i -> Z.testbit (b_mask b) i = true ->
  b_ptr (set_empty beyond b i) = delete (child_index (b_mask b) i) (b_ptr b).
Proof.
  intros Hc Hi Hm. pose proof (child_index_lt _ _ i Hc Hi Hm) as Hlt.
  destruct Hc as [_ Hl]. unfold set_empty, num_children. cbn [b_ptr]. rewrite <-Hl.
  rewrite take_insert_ge by lia. unfold shift_down.
  rewrite delete_take_drop, app_assoc, take_app_le.
  - apply take_ge. rewrite length_app, length_take, length_drop. lia.
  - rewrite length_app, length_take, length_drop. lia.
Qed.

Lemma ptr_at_set_empty beyond b i j :
  compressed (b_mask b) (b_ptr b) -> is_sub_index i -> is_sub_index j ->
  Z.testbit (b_mask b) i = true ->
  ptr_at (set_empty beyond b i) j = if decide (j = i) then None else ptr_at b j.
Proof.
  intros Hc Hi Hj Hm. unfold ptr_at. rewrite set_empty_delete by done.
  unfold set_empty. cbn [b_mask]. rewrite w32_bit by done. by apply child_delete.
Qed.

Lemma compressed_set_empty beyond b i :
  compressed (b_mask b) (b_ptr b) -> is_sub_index i -> Z.testbit (b_mask b) i = true ->
  compressed (b_mask (set_empty beyond b i)) (b_ptr (set_empty beyond b i)).
Proof.
  intros Hc Hi Hm. rewrite set_empty_delete by done. unfold set_empty. cbn [b_mask].
  rewrite w32_bit by done. by apply compressed_delete.
Qed.

End children.

(** C32: Roots, leaves and branches survive their files: reading the bytes that writing
    a well-formed node produces, whatever follows them, gives the node back (a root
    keeps the identifier it is read under, which is its place in the file). *)
Theorem nodes_read_written self r l b tl :
  root_wf r -> leaf_wf l -> branch_wf b ->
  (root_write r ≫= λ bs, root_read self (bs ++ tl)) =
    Ok (TriedbRoot (r_id self) (r_previous_id r) (r_ptr r) (r_height r) (r_num_entries r)) /\
  (leaf_write l ≫= λ bs, leaf_read (TriedbLeaf custom_data_null 0 custom_data_null) (bs ++ tl)) = Ok l /\
  (branch_write b ≫= λ bs, branch_read branch_default (bs ++ tl)) = Ok b.
Proof.
  intros Hr Hl Hb. split; [by apply root_read_write_lemma|].
  split; [by apply leaf_read_write_lemma|by apply branch_read_write_lemma].
Qed.

Lemma nodes_read_written_witness :
  (leaf_write (TriedbLeaf custom_data_null 7 (custom_data_of [1; 2])) ≫= λ bs,
     leaf_read (TriedbLeaf custom_data_null 0 custom_data_null) (bs ++ [9])) =
    Ok (TriedbLeaf custom_data_null 7 (custom_data_of [1; 2])) /\
  (branch_write (TriedbBranch custom_data_null 1 5 4 2 [100; 200]) ≫= λ bs,
     branch_read branch_default (bs ++ [9])) = Ok (TriedbBranch custom_data_null 1 5 4 2 [100; 200]).
Proof.
  refine (proj2 (nodes_read_written (TriedbRoot 20 0 0 0 0) (TriedbRoot 20 0 64 0 1)
    (TriedbLeaf custom_data_null 7 (custom_data_of [1; 2])) (TriedbBranch custom_data_null 1 5 4 2 [100; 200]) [9] _ _ _)).
  - split; by split.
  - assert (Hn : data_wf custom_data_null) by (split; [done|constructor]).
    split; [exact Hn|done|by split| |done]. split; [done|]. apply (bool_decide_unpack _); by vm_compute.
  - assert (Hn : data_wf custom_data_null) by (split; [done|constructor]).
    split; [exact Hn|done|by split|split; [by split|by vm_compute]|by split|by split|].
    apply (bool_decide_unpack _); by vm_compute.
Defined.
