(* ===== verification/TrieDb.v ===== *)
(** * The trie database ([src/src/db/triedb.hpp], [src/src/db/triedb.cpp])

    A persistent map from 64-bit keys to byte strings.  Nodes are appended to the
    bucket files and never overwritten; a root names the branch its version of
    the map starts from, so an update copies the path it changes and leaves the
    other roots alone.

    The bucket files are the map [nodes] from file offsets to the node stored
    there ([branch_write]/[leaf_write] run on every append, and [TrieNode] shows
    that reading the bytes gives the node back, which is what makes the node
    caches invisible); the file [roots.bin] is the map [roots] from file offsets
    with the end and the current position of its stream. *)

From S2P Require Import Prelude Bits Sparse TrieNode.

Inductive node : Type :=
  | NLeaf (l : triedb_leaf)
  | NBranch (b : triedb_branch).

Record triedb := Triedb {
  use_hashing : bool;
  bucket_size : Z;
  nodes : gmap Z node;
  last_offset : Z;
  roots : gmap Z triedb_root;
  roots_at_height : gmap Z (gset Z);
  roots_end : Z;
  roots_pos : Z
}.

(** [VERSION] and the bucket size precede the root records. *)
Definition VERSION_SZ : Z := 16.
Definition roots_overhead_size : Z := VERSION_SZ + 4.

(** A database in an empty directory, as [triedb(params, dir_path)] leaves it. *)
Definition triedb_empty (hashing : bool) (bucket_sz : Z) : triedb :=
  Triedb hashing bucket_sz ∅ 0 ∅ ∅ roots_overhead_size roots_overhead_size.

Definition with_nodes (db : triedb) ns off : triedb :=
  Triedb (use_hashing db) (bucket_size db) ns off (roots db) (roots_at_height db)
    (roots_end db) (roots_pos db).
Definition with_roots (db : triedb) rs hs e p : triedb :=
  Triedb (use_hashing db) (bucket_size db) (nodes db) (last_offset db) rs hs e p.

(** ** Reading and appending nodes *)

Definition get_leaf_at (db : triedb) (offset : Z) : res triedb_leaf :=
  match nodes db !! offset with Some (NLeaf l) => Ok l | _ => Throw UndefinedBehaviour end.
Definition get_branch_at (db : triedb) (offset : Z) : res triedb_branch :=
  match nodes db !! offset with Some (NBranch b) => Ok b | _ => Throw UndefinedBehaviour end.
Definition get_leaf (db : triedb) (parent : triedb_branch) (i : Z) : res triedb_leaf :=
  p ← get_child_pointer parent i; get_leaf_at db p.
Definition get_branch (db : triedb) (parent : triedb_branch) (i : Z) : res triedb_branch :=
  p ← get_child_pointer parent i; get_branch_at db p.

(** Where a node of [n] bytes goes: at [last_offset_], or at the start of the
    next bucket when it would reach the bucket boundary. *)
Definition append_offset (db : triedb) (n : Z) : Z :=
  let offset := last_offset db in
  let bucket_index := offset / bucket_size db in
  let first_offset := bucket_index * bucket_size db in
  if bucket_size db <=? offset - first_offset + n
  then (bucket_index + 1) * bucket_size db else offset.

Definition append_leaf_node (db : triedb) (l : triedb_leaf) : res (triedb * Z) :=
  let offset := append_offset db (leaf_serialization_size l) in
  bytes ← leaf_write l;
  Ok (with_nodes db (<[offset := NLeaf l]> (nodes db))
        (offset + Z.of_nat (length bytes)), offset).

Definition append_branch_node (db : triedb) (b : triedb_branch) : res (triedb * Z) :=
  n ← branch_serialization_size b;
  let offset := append_offset db n in
  bytes ← branch_write b;
  Ok (with_nodes db (<[offset := NBranch b]> (nodes db))
        (offset + Z.of_nat (length bytes)), offset).

Section hashing.

(** The 32-byte BLAKE2b digest of a byte string ([common/blake2.cpp]). *)
Context (blake2b : list Z -> list Z).

(** The digest of the children, in the order [branch_hasher] feeds them. *)
Fixpoint child_hashes (db : triedb) (b : triedb_branch) (subs : list Z) : res (list Z) :=
  match subs with
  | [] => Ok []
  | i :: subs =>
      h ← (if is_branch b i then c ← get_branch db b i; copy_out (b_hash c)
           else if is_leaf b i then l ← get_leaf db b i; copy_out (l_hash l)
           else Ok []);
      hs ← child_hashes db b subs;
      Ok (h ++ hs)
  end.

Definition branch_hasher (db : triedb) (b : triedb_branch) : res triedb_branch :=
  if use_hashing db then
    hs ← child_hashes db b (mask_positions (b_mask b));
    Ok (branch_set_hash b (blake2b ([b_depth b] ++ write_uint32 (b_mask b) ++ hs)))
  else Ok (branch_set_hash b []).

Definition leaf_hasher (l : triedb_leaf) : res triedb_leaf :=
  data ← (if 0 <? cd_size (l_data l) then copy_out (l_data l) else Ok []);
  Ok (leaf_set_hash l (blake2b (write_uint64 (l_key l) ++ data))).

(** The hashing step shared by the two places that create a leaf. *)
Definition hash_leaf (db : triedb) (l : triedb_leaf) : res triedb_leaf :=
  if use_hashing db then leaf_hasher l else Ok (leaf_set_hash l []).

(** ** Updating *)

(** [(key >> ((depth-1) * MAX_BRANCH_BITS)) & (MAX_BRANCH-1)], a 64-bit shift
    that is undefined at depth 0 and above depth 13. *)
Definition sub_index_of (depth key : Z) : Z :=
  Z.land (key ≫ ((depth - 1) * MAX_BRANCH_BITS)) (MAX_BRANCH - 1).
Definition sub_index (depth key : Z) : res Z :=
  _ ← require ((1 <=? depth) && (depth <=? 13)) UndefinedBehaviour;
  Ok (sub_index_of depth key).

(** [update_part] returns the copied branch and its offset; [new_entry] is the
    in-out flag. *)
Fixpoint update_part (fuel : nat) (db : triedb) (node : triedb_branch) (key : Z)
    (data : list Z) (do_insert new_entry : bool) : res (triedb * triedb_branch * Z * bool) :=
  match fuel with
  | O => Throw OutOfFuel
  | S fuel =>
      let depth := b_depth node in
      i ← sub_index depth key;
      if is_empty node i then
        leaf ← hash_leaf db (new_leaf key data);
        '(db, leaf_ptr) ← append_leaf_node db leaf;
        let new_branch := add_num_entries (set_leaf (set_child_pointer node i leaf_ptr) i) 1 in
        new_branch ← branch_hasher db new_branch;
        '(db, ptr) ← append_branch_node db new_branch;
        Ok (db, new_branch, ptr, true)
      else if is_leaf node i then
        old ← get_leaf db node i;
        if l_key old =? key then
          _ ← require (negb do_insert) (KeyAlreadyExists key);
          leaf ← hash_leaf db (new_leaf key data);
          '(db, leaf_ptr) ← append_leaf_node db leaf;
          let new_branch := set_leaf (set_child_pointer node i leaf_ptr) i in
          new_branch ← branch_hasher db new_branch;
          '(db, ptr) ← append_branch_node db new_branch;
          Ok (db, new_branch, ptr, new_entry)
        else
          let sub_depth := depth - 1 in
          sub_sub_index ← sub_index sub_depth (l_key old);
          old_ptr ← get_child_pointer node i;
          let tmp_branch :=
            set_leaf (set_child_pointer (set_depth branch_default sub_depth)
                        sub_sub_index old_ptr) sub_sub_index in
          '(db, _, new_child_ptr, new_entry') ←
            update_part fuel db tmp_branch key data do_insert new_entry;
          let new_branch := set_branch (set_child_pointer node i new_child_ptr) i in
          let new_branch :=
            if eqb new_entry new_entry' then new_branch else add_num_entries new_branch 1 in
          new_branch ← branch_hasher db new_branch;
          '(db, ptr) ← append_branch_node db new_branch;
          Ok (db, new_branch, ptr, new_entry')
      else
        child ← get_branch db node i;
        '(db, _, new_child_ptr, new_entry') ←
          update_part fuel db child key data do_insert new_entry;
        let new_branch := set_child_pointer node i new_child_ptr in
        let new_branch :=
          if eqb new_entry new_entry' then new_branch else add_num_entries new_branch 1 in
        new_branch ← branch_hasher db new_branch;
        '(db, ptr) ← append_branch_node db new_branch;
        Ok (db, new_branch, ptr, new_entry')
  end.

(** ** Roots *)

Definition get_root (db : triedb) (id : Z) : res triedb_root :=
  of_option (roots db !! id) AssertFailed.
Definition has_root (db : triedb) (id : Z) : bool := bool_decide (is_Some (roots db !! id)).
Definition find_roots (db : triedb) (height : Z) : gset Z :=
  default ∅ (roots_at_height db !! height).

Definition set_root (db : triedb) (id offset : Z) : res triedb :=
  root ← get_root db id;
  let root := TriedbRoot (r_id root) (r_previous_id root) offset (r_height root)
                (r_num_entries root) in
  let file_offset := r_id root in
  _ ← require (VERSION_SZ <=? file_offset) AssertFailed;
  bytes ← root_write root;
  let p := file_offset + Z.of_nat (length bytes) in
  Ok (with_roots db (<[id := root]> (roots db)) (roots_at_height db)
        (Z.max (roots_end db) p) p).

Definition add_root (db : triedb) (root : triedb_root) (n : Z) : triedb :=
  with_roots db (<[r_id root := root]> (roots db))
    (<[r_height root := {[r_id root]} ∪ find_roots db (r_height root)]> (roots_at_height db))
    (roots_end db + n) (roots_end db + n).

(** [new_root()]: the identifier is the stream position before the seek to the
    end of the file. *)
Definition new_root (db : triedb) : res (triedb * Z) :=
  b ← branch_hasher db (set_depth branch_default 1);
  '(db, ptr) ← append_branch_node db b;
  let root := TriedbRoot (roots_pos db) 0 ptr 0 0 in
  bytes ← root_write root;
  Ok (add_root db root (Z.of_nat (length bytes)), r_id root).

(** [new_root(parent_id)]: the identifier is the end of the file. *)
Definition new_root_from (db : triedb) (parent_id : Z) : res (triedb * Z) :=
  parent ← get_root db parent_id;
  let root := TriedbRoot (roots_end db) (r_id parent) (r_ptr parent) (r_height parent + 1)
                (r_num_entries parent) in
  bytes ← root_write root;
  Ok (add_root db root (Z.of_nat (length bytes)), r_id root).

Definition set_root_num_entries (db : triedb) (id : Z) (f : Z -> Z) : triedb :=
  with_roots db
    (alter (fun r => TriedbRoot (r_id r) (r_previous_id r) (r_ptr r) (r_height r)
                       (f (r_num_entries r))) id (roots db))
    (roots_at_height db) (roots_end db) (roots_pos db).
Definition increment_num_entries (db : triedb) (id : Z) : triedb :=
  set_root_num_entries db id (fun n => w64 (n + 1)).
Definition decrement_num_entries (db : triedb) (id : Z) : triedb :=
  set_root_num_entries db id (fun n => w64 (n - 1)).

(** ** [insert], [update] and [remove] *)

(** The loop that raises the root until it covers [key_bits]. *)
Fixpoint grow (fuel : nat) (db : triedb) (root : triedb_branch) (root_ptr depth key_bits : Z)
    : res (triedb * triedb_branch * Z) :=
  if depth * MAX_BRANCH_BITS <? key_bits then
    match fuel with
    | O => Throw OutOfFuel
    | S fuel =>
        let depth := depth + 1 in
        b ← branch_hasher db (set_child_pointer (set_depth branch_default depth) 0 root_ptr);
        '(db, ptr) ← append_branch_node db b;
        grow fuel db b ptr depth key_bits
    end
  else Ok (db, root, root_ptr).

(** A 64-bit key needs at most 13 levels of five bits. *)
Definition MAX_DEPTH : nat := 13.

Definition insert_or_update (db : triedb) (at_root key : Z) (data : list Z)
    (do_insert : bool) : res triedb :=
  (* An unknown root reaches the [assert] of [get_root] in [set_root], or, with no
     root at all, the end iterator. *)
  some_root ← of_option (roots db !! at_root)
    (if bool_decide (roots db = ∅) then UndefinedBehaviour else AssertFailed);
  current_root ← get_branch_at db (r_ptr some_root);
  '(db, current_root, _) ←
    grow MAX_DEPTH db current_root (r_ptr some_root) (b_depth current_root)
      (compute_max_key_bits key);
  '(db, _, new_branch_ptr, new_entry) ←
    update_part MAX_DEPTH db current_root key data do_insert false;
  let db := if (new_entry : bool) then increment_num_entries db at_root else db in
  set_root db at_root new_branch_ptr.

Definition insert db at_root key data := insert_or_update db at_root key data true.
Definition update db at_root key data := insert_or_update db at_root key data false.

(** [beyond] is the word behind the pointer array, see [set_empty]. *)
Fixpoint remove_part (beyond : Z) (fuel : nat) (db : triedb) (node : triedb_branch) (key : Z)
    : res (triedb * triedb_branch * Z) :=
  match fuel with
  | O => Throw OutOfFuel
  | S fuel =>
      i ← sub_index (b_depth node) key;
      if is_empty node i then Throw (KeyNotFound key)
      else if is_leaf node i then
        leaf ← get_leaf db node i;
        _ ← require (l_key leaf =? key) (KeyAlreadyExists key);
        new_branch ← branch_hasher db (sub_num_entries (set_empty beyond node i) 1);
        '(db, ptr) ← append_branch_node db new_branch;
        Ok (db, new_branch, ptr)
      else
        child ← get_branch db node i;
        '(db, new_child, new_child_ptr) ← remove_part beyond fuel db child key;
        let new_branch :=
          if b_mask new_child =? 0 then set_empty beyond node i
          else set_child_pointer node i new_child_ptr in
        new_branch ← branch_hasher db (sub_num_entries new_branch 1);
        '(db, ptr) ← append_branch_node db new_branch;
        Ok (db, new_branch, ptr)
  end.

Definition remove (beyond : Z) (db : triedb) (at_root key : Z) : res triedb :=
  found_root ← of_option (roots db !! at_root) (KeyNotFound key);
  current_root ← get_branch_at db (r_ptr found_root);
  _ ← require (compute_max_key_bits key <=? b_depth current_root * MAX_BRANCH_BITS)
        (KeyNotFound key);
  '(db, _, new_branch_ptr) ← remove_part beyond MAX_DEPTH db current_root key;
  set_root (decrement_num_entries db at_root) at_root new_branch_ptr.

End hashing.
