(* ===== verification/TrieUpdate.v ===== *)
(** * What [update_part], [grow] and [remove_part] do to the map

    Each of them copies one path of the trie.  [branch_step] says how the copied
    branch differs from the original, [step_ok] turns that into the shape and the
    lookups of the copy, and [commit_ok] ([TrieDbSpec]) writes it out. *)

From S2P Require Import Prelude Bits Sparse TrieNode TrieDb TrieDbSpec.

(** The payload fits in a leaf with a 32-byte hash. *)
Definition data_fits (data : list Z) : Prop :=
  are_bytes data /\ 45 + Z.of_nat (length data) < leaf_MAX_SIZE_IN_BYTES.

(** [b] is [node] with the child of sub-index [i] replaced by [o]. *)
Record branch_step (node b : triedb_branch) (i : Z) (o : option Z) : Prop := BranchStep {
  bs_hash : b_hash b = b_hash node;
  bs_depth : b_depth b = b_depth node;
  bs_compressed : compressed (b_mask b) (b_ptr b);
  bs_leaf : is_word 32 (b_leaf b);
  bs_ptr : forall j, is_sub_index j -> ptr_at b j = if decide (j = i) then o else ptr_at node j;
  bs_kind : forall j, is_sub_index j -> j <> i -> Z.testbit (b_leaf b) j = Z.testbit (b_leaf node) j
}.

Lemma get_branch_at_Ok db off b : nodes db !! off = Some (NBranch b) -> get_branch_at db off = Ok b.
Proof. unfold get_branch_at. by intros ->. Qed.
Lemma get_leaf_at_Ok db off l : nodes db !! off = Some (NLeaf l) -> get_leaf_at db off = Ok l.
Proof. unfold get_leaf_at. by intros ->. Qed.

Section steps.
Implicit Types (node b : triedb_branch) (i j ptr : Z).

Lemma set_pointer_step node i ptr n :
  branch_shape n node -> is_sub_index i ->
  branch_step node (set_child_pointer node i ptr) i (Some ptr).
Proof.
  intros (? & ? & ?) Hi. split; try done; [by apply compressed_set|].
  intros. by apply ptr_at_set.
Qed.

Lemma set_leaf_step node b i o :
  is_sub_index i -> branch_step node b i o -> branch_step node (set_leaf b i) i o.
Proof.
  intros Hi []. split; try done; cbn; rewrite w32_bit by done.
  - by apply setbit_word.
  - intros j Hj Hne. rewrite setbit_testbit, bool_decide_false, orb_false_r by auto. auto.
Qed.

Lemma set_branch_step node b i o :
  is_sub_index i -> branch_step node b i o -> branch_step node (set_branch b i) i o.
Proof.
  intros Hi []. split; try done; cbn; rewrite w32_bit by done.
  - by apply clearbit_word.
  - intros j Hj Hne. rewrite clearbit_testbit, bool_decide_false, andb_true_r by auto. auto.
Qed.

Lemma set_empty_step beyond node i n :
  branch_shape n node -> is_sub_index i -> Z.testbit (b_mask node) i = true ->
  branch_step node (set_empty beyond node i) i None.
Proof.
  intros (? & ? & ?) Hi Hm. split; try done.
  - by apply compressed_set_empty.
  - cbn. rewrite w32_bit by done. by apply clearbit_word.
  - intros. by apply ptr_at_set_empty.
  - intros j Hj Hne. cbn. rewrite w32_bit by done.
    rewrite clearbit_testbit, bool_decide_false, andb_true_r by auto. done.
Qed.

Lemma set_num_step node b i o m : branch_step node b i o -> branch_step node (set_num_entries b m) i o.
Proof. by intros []. Qed.

Lemma set_leaf_testbit b i : is_sub_index i -> Z.testbit (b_leaf (set_leaf b i)) i = true.
Proof.
  intros. cbn. rewrite w32_bit by done.
  by rewrite setbit_testbit, bool_decide_true, orb_true_r by auto.
Qed.

Lemma set_branch_testbit b i : is_sub_index i -> Z.testbit (b_leaf (set_branch b i)) i = false.
Proof.
  intros. cbn. rewrite w32_bit by done.
  by rewrite clearbit_testbit, bool_decide_true, andb_false_r by auto.
Qed.

(** What a replaced child must be for the copy to be well formed. *)
Definition child_ok hz n ns p b i ptr : Prop :=
  if Z.testbit (b_leaf b) i
  then exists l, ns !! ptr = Some (NLeaf l) /\ leaf_ok hz l /\ l_key l ≫ level_bits n = p * 32 + i
  else exists c, ns !! ptr = Some (NBranch c) /\ trie_ok hz n ns (p * 32 + i) c.

Lemma step_ok hz n ns ns' p node b i o :
  ns ⊆ ns' -> trie_pre hz (S n) ns p node -> branch_step node b i o ->
  (forall ptr, o = Some ptr -> child_ok hz n ns' p b i ptr) ->
  trie_pre hz (S n) ns' p b.
Proof.
  intros Hns ([Hd _] & Hh & Hc) [] Hnew.
  split; [|split].
  - split; [congruence|done].
  - by rewrite bs_hash0.
  - intros j off Hj. rewrite bs_ptr0 by done. destruct (decide (j = i)) as [->|Hne].
    + intros ->. by apply Hnew.
    + intros Hoff. rewrite bs_kind0 by done.
      specialize (Hc j off Hj Hoff). destruct (Z.testbit _ _);
        destruct Hc as (x & Hx & Hc); exists x; (split; [by eapply lookup_weaken|]); [done|].
      by eapply trie_ok_mono.
Qed.

(** Keys that do not go through the replaced child are found as before. *)
Lemma step_lookup_other hz n ns ns' p node b i o k :
  ns ⊆ ns' -> trie_pre hz (S n) ns p node -> branch_step node b i o ->
  sub_index_of (Z.of_nat (S n)) k <> i ->
  trie_lookup (S n) ns' b k = trie_lookup (S n) ns node k.
Proof.
  intros Hns Hok [] Hk. rewrite <-(trie_lookup_mono hz (S n) ns ns' p node k) by done.
  cbn [trie_lookup]. rewrite bs_ptr0 by apply sub_index_of_range.
  by rewrite decide_False by done.
Qed.

(** The lookup of a key that goes through child [i]. *)
Definition child_lookup n ns b i k : option (list Z) :=
  match ptr_at b i with
  | None => None
  | Some off =>
      match ns !! off with
      | Some (NLeaf l) => if l_key l =? k then Some (cd_bytes (l_data l)) else None
      | Some (NBranch c) => trie_lookup n ns c k
      | None => None
      end
  end.

Lemma step_lookup hz n ns ns' p node b i o k :
  ns ⊆ ns' -> trie_pre hz (S n) ns p node -> branch_step node b i o ->
  trie_lookup (S n) ns' b k =
  if decide (sub_index_of (Z.of_nat (S n)) k = i) then child_lookup n ns' b i k
  else trie_lookup (S n) ns node k.
Proof.
  intros Hns Hok Hstep. case_decide as Hk; [|by eapply step_lookup_other].
  cbn [trie_lookup]. by rewrite Hk.
Qed.

End steps.

(** ** Writing nodes *)

Section hashing.
Context (blake2b : list Z -> list Z).
Hypothesis blake2b_length : forall bs, length (blake2b bs) = 32%nat.
Hypothesis blake2b_bytes : forall bs, are_bytes (blake2b bs).

Lemma leaf_write_Ok l :
  data_wf (l_hash l) -> data_wf (l_data l) -> leaf_serialization_size l < leaf_MAX_SIZE_IN_BYTES ->
  exists bytes, leaf_write l = Ok bytes /\ (0 < length bytes)%nat.
Proof.
  intros Hh Hd Hs. pose proof Hh as [Hhl _]. pose proof Hd as [Hdl _].
  unfold leaf_write, leaf_serialization_size, leaf_MAX_SIZE_IN_BYTES, MB in *. pass_guard.
  rewrite checked_cast_word by (unfold is_word; lia). cbn [mbind res_bind].
  rewrite !copy_out_wf by done. case_match; case_match; cbn [mbind res_bind]; eexists;
    (split; [done|]); rewrite length_app; cbn; lia.
Qed.

(** Hashing a new leaf and appending it always succeeds. *)
Lemma put_leaf_ok db key data :
  store_ok db -> data_fits data -> is_word 64 key ->
  exists l db' ptr,
    hash_leaf blake2b db (new_leaf key data) = Ok l /\
    append_leaf_node db l = Ok (db', ptr) /\ extends db db' /\
    nodes db' !! ptr = Some (NLeaf l) /\ leaf_ok (hash_size_of db) l /\
    l_key l = key /\ cd_bytes (l_data l) = data.
Proof.
  intros Hst [Hb Hfit] Hk.
  destruct (hash_leaf_ok blake2b blake2b_length blake2b_bytes db key data Hb Hk)
    as (l & Hl & Hok & Hkey & Hdata).
  pose proof Hok as ([Hh Hhs] & Hd & _). pose proof Hd as [Hdl _]. pose proof Hh as [Hhl _].
  assert (Hsz : cd_size (l_hash l) <= 32 /\ 0 <= cd_size (l_hash l)).
  { unfold hash_size_of in Hhs. destruct (use_hashing db); lia. }
  assert (Hfits : 0 <= leaf_serialization_size l < leaf_MAX_SIZE_IN_BYTES).
  { unfold leaf_serialization_size. rewrite Hdl, Hdata. lia. }
  destruct (leaf_write_Ok l) as (bytes & Hw & Hlen); [done..|lia|].
  exists l. unfold append_leaf_node. run Hw.
  destruct (append_extends db (NLeaf l) (leaf_serialization_size l) (Z.of_nat (length bytes)) Hst)
    as (He & Hlk & _); [lia|lia|].
  do 2 eexists. split; [done|]. split; [done|]. by split_and!.
Qed.

Lemma commit_inv db b db' b' ptr :
  commit blake2b db b = Ok (db', b', ptr) ->
  branch_hasher blake2b db b = Ok b' /\ append_branch_node db b' = Ok (db', ptr).
Proof.
  unfold commit. intros (b1 & H1 & H)%bind_Ok. apply bind_Ok in H as ([db1 p1] & H2 & H).
  by simplify_eq.
Qed.

(** The last two steps of every copy: hash the branch and append it. *)
Lemma finish_ok db n p b :
  store_ok db -> trie_pre (hash_size_of db) (S n) (nodes db) p b ->
  exists db' b' ptr,
    branch_hasher blake2b db b = Ok b' /\ append_branch_node db b' = Ok (db', ptr) /\
    extends db db' /\ nodes db' !! ptr = Some (NBranch b') /\
    trie_ok (hash_size_of db) (S n) (nodes db') p b' /\ b_mask b' = b_mask b /\
    forall k, trie_lookup (S n) (nodes db') b' k = trie_lookup (S n) (nodes db) b k.
Proof.
  intros Hst Hpre.
  destruct (commit_ok blake2b blake2b_length blake2b_bytes db n p b Hst Hpre)
    as (db' & b' & ptr & Hc & He & Hlk & Hok & Hm & Hl & Hp).
  apply commit_inv in Hc as [H1 H2]. exists db', b', ptr. split_and!; try done.
  intros k. rewrite <-(trie_lookup_mono (hash_size_of db) (S n) (nodes db) (nodes db') p b)
    by (done || apply He).
  cbn [trie_lookup]. unfold ptr_at. by rewrite Hm, Hp.
Qed.

(** ** [update_part] *)

(** The result of a copy: new nodes only, a well-formed branch at [ptr], and the
    given map. *)
Record copied (db db' : triedb) (n : nat) (p : Z) (b' : triedb_branch) (ptr : Z)
    (m : Z -> option (list Z)) : Prop := Copied {
  cp_extends : extends db db';
  cp_stored : nodes db' !! ptr = Some (NBranch b');
  cp_ok : trie_ok (hash_size_of db) n (nodes db') p b';
  cp_lookup : forall k, trie_lookup n (nodes db') b' k = m k
}.

(** From the replaced child to the copied branch. *)
Lemma copy_step db0 db n p node b i o :
  extends db0 db -> trie_pre (hash_size_of db0) (S n) (nodes db0) p node ->
  branch_step node b i o ->
  (forall ptr, o = Some ptr -> child_ok (hash_size_of db0) n (nodes db) p b i ptr) ->
  exists db' b' ptr,
    branch_hasher blake2b db b = Ok b' /\ append_branch_node db b' = Ok (db', ptr) /\
    b_mask b' = b_mask b /\
    copied db0 db' (S n) p b' ptr
      (fun k => if decide (sub_index_of (Z.of_nat (S n)) k = i)
                then child_lookup n (nodes db) b i k
                else trie_lookup (S n) (nodes db0) node k).
Proof.
  intros He Hpre Hstep Hchild.
  pose proof (step_ok _ n _ _ p node b i o (ex_nodes _ _ He) Hpre Hstep Hchild) as Hb.
  rewrite <-(extends_hz _ _ He) in Hb.
  destruct (finish_ok db n p b (ex_store _ _ He) Hb)
    as (db' & b' & ptr & H1 & H2 & He' & Hlk & Hok & Hm & Hl).
  exists db', b', ptr. split; [done|]. split; [done|]. split; [done|]. split.
  - by eapply extends_trans.
  - done.
  - by rewrite <-(extends_hz _ _ He).
  - intros k. rewrite Hl. eapply step_lookup; try done. apply He.
Qed.

Definition put (key : Z) (data : list Z) (m : Z -> option (list Z)) (k : Z) : option (list Z) :=
  if decide (k = key) then Some data else m k.

Lemma copied_ext db db' n p b ptr m m' :
  (forall k, m k = m' k) -> copied db db' n p b ptr m -> copied db db' n p b ptr m'.
Proof. intros Hm []. split; try done. intros. by rewrite <-Hm. Qed.

(** The statistics field does not matter. *)
Definition renum (b b' : triedb_branch) : Prop := exists m, b' = set_num_entries b m.
Lemma renum_refl b : renum b b.
Proof. exists (b_num b). by destruct b. Qed.
Lemma renum_add b d : renum b (add_num_entries b d).
Proof. by eexists. Qed.
Lemma renum_if (c : bool) b d : renum b (if c then b else add_num_entries b d).
Proof. destruct c; auto using renum_refl, renum_add. Qed.

(** A new leaf below the copied branch. *)
Lemma put_leaf_step db n p node key data (f : triedb_branch -> triedb_branch) :
  store_ok db -> trie_pre (hash_size_of db) (S n) (nodes db) p node ->
  data_fits data -> is_word 64 key -> key ≫ level_bits (S n) = p ->
  let i := sub_index_of (Z.of_nat (S n)) key in
  (forall k, k <> key -> sub_index_of (Z.of_nat (S n)) k = i ->
     trie_lookup (S n) (nodes db) node k = None) ->
  (forall b, renum b (f b)) ->
  exists l db1 lp db' b' ptr,
    hash_leaf blake2b db (new_leaf key data) = Ok l /\
    append_leaf_node db l = Ok (db1, lp) /\
    branch_hasher blake2b db1 (f (set_leaf (set_child_pointer node i lp) i)) = Ok b' /\
    append_branch_node db1 b' = Ok (db', ptr) /\
    copied db db' (S n) p b' ptr (put key data (trie_lookup (S n) (nodes db) node)).
Proof.
  intros Hst Hpre Hfit Hk Hp i Hother Hf.
  pose proof (sub_index_of_range (Z.of_nat (S n)) key) as Hi. fold i in Hi.
  destruct (put_leaf_ok db key data Hst Hfit Hk)
    as (l & db1 & lp & Hl & Ha & He & Hlk & Hok & Hkey & Hdata).
  exists l, db1, lp.
  destruct (Hf (set_leaf (set_child_pointer node i lp) i)) as [m ->].
  assert (Hstep : branch_step node
    (set_num_entries (set_leaf (set_child_pointer node i lp) i) m) i (Some lp)).
  { apply set_num_step, set_leaf_step; [done|]. eapply set_pointer_step; [|done]. apply Hpre. }
  destruct (copy_step db db1 n p node _ i (Some lp) He Hpre Hstep)
    as (db' & b' & ptr & H1 & H2 & _ & Hc).
  { intros ? [= <-]. unfold child_ok. cbn [set_num_entries b_leaf].
    rewrite set_leaf_testbit by done. exists l. split_and!; [done..|].
    rewrite Hkey. by apply key_split. }
  exists db', b', ptr. split_and!; [done..|]. eapply copied_ext; [|exact Hc].
  intros k. cbn beta. unfold put, child_lookup.
  rewrite (bs_ptr _ _ _ _ Hstep), (decide_True (P := (i = i))), Hlk, Hkey, Hdata by done.
  destruct (decide (k = key)) as [->|Hne].
  - by rewrite decide_True, Z.eqb_refl by done.
  - rewrite (proj2 (Z.eqb_neq key k)) by done.
    case_decide; [|done]. symmetry. by apply Hother.
Qed.

(** An updated branch below the copied branch. *)
Lemma put_branch_step db db1 n p node key data b i cp c' m :
  trie_pre (hash_size_of db) (S n) (nodes db) p node ->
  i = sub_index_of (Z.of_nat (S n)) key ->
  copied db db1 n (p * 32 + i) c' cp (put key data m) ->
  (forall k, sub_index_of (Z.of_nat (S n)) k = i -> m k = trie_lookup (S n) (nodes db) node k) ->
  branch_step node b i (Some cp) -> Z.testbit (b_leaf b) i = false ->
  exists db' b' ptr,
    branch_hasher blake2b db1 b = Ok b' /\ append_branch_node db1 b' = Ok (db', ptr) /\
    copied db db' (S n) p b' ptr (put key data (trie_lookup (S n) (nodes db) node)).
Proof.
  intros Hpre -> [He Hlk Hok Hl] Hm Hstep Hbit.
  destruct (copy_step db db1 n p node b _ (Some cp) He Hpre Hstep)
    as (db' & b' & ptr & H1 & H2 & _ & Hc).
  { intros ? [= <-]. unfold child_ok. rewrite Hbit. eauto. }
  exists db', b', ptr. split_and!; [done..|]. eapply copied_ext; [|exact Hc].
  intros k. cbn beta. unfold child_lookup.
  set (i := sub_index_of (Z.of_nat (S n)) key) in *.
  rewrite (bs_ptr _ _ _ _ Hstep), (decide_True (P := (i = i))), Hlk, Hl
    by (done || apply sub_index_of_range).
  unfold put. case_decide as Hk; [by rewrite Hm|].
  by rewrite (decide_False (P := (k = key))) by (intros ->; by apply Hk).
Qed.

(** The temporary branch that pushes an old leaf one level down. *)
Lemma tmp_branch_ok hz n ns p l lp d :
  ns !! lp = Some (NLeaf l) -> leaf_ok hz l -> l_key l ≫ level_bits (S n) = p ->
  d = Z.of_nat (S n) -> (n < 13)%nat ->
  let j := sub_index_of d (l_key l) in
  let tmp := set_leaf (set_child_pointer (set_depth branch_default d) j lp) j in
  trie_pre hz (S n) ns p tmp /\
  forall k, trie_lookup (S n) ns tmp k =
            if l_key l =? k then Some (cd_bytes (l_data l)) else None.
Proof.
  intros Hlk Hok Hp -> Hn j tmp.
  pose proof (sub_index_of_range (Z.of_nat (S n)) (l_key l)) as Hj. fold j in Hj.
  set (d0 := set_depth branch_default (Z.of_nat (S n))).
  assert (Hd : b_depth d0 = Z.of_nat (S n)) by (cbn; apply wrap_id; unfold is_word; lia).
  assert (Hshape : branch_shape (S n) d0) by (split; [exact Hd|split; [apply compressed_empty|cbn; unfold is_word; lia]]).
  assert (Hpre0 : trie_pre hz (S n) ns p d0).
  { split; [done|]. split; [apply hash_pre_null|]. intros i off Hi.
    unfold ptr_at, child. cbn. by rewrite Z.bits_0. }
  assert (Hstep : branch_step d0 tmp j (Some lp))
    by (apply set_leaf_step; [done|]; by eapply set_pointer_step).
  assert (Hchild : forall ptr, Some lp = Some ptr -> child_ok hz n ns p tmp j ptr).
  { intros ? [= <-]. unfold child_ok, tmp. rewrite set_leaf_testbit by done.
    exists l. split_and!; [done..|]. by apply key_split. }
  split; [by eapply step_ok|].
  intros k. erewrite (step_lookup hz n ns ns p d0 tmp) by done.
  unfold child_lookup. rewrite (bs_ptr _ _ _ _ Hstep), (decide_True (P := (j = j))), Hlk by done.
  case_decide as Hk; [done|].
  assert (trie_lookup (S n) ns d0 k = None) as ->.
  { cbn [trie_lookup]. unfold ptr_at, child. cbn [d0 set_depth branch_default b_mask].
    by rewrite Z.bits_0. }
  case_match eqn:E; [|done]. apply Z.eqb_eq in E. subst k. done.
Qed.

Lemma copied_refl_hz db db' : extends db db' -> hash_size_of db' = hash_size_of db.
Proof. apply extends_hz. Qed.

(** What [update_part] promises for a branch of depth [n] and prefix [p]. *)
Definition update_part_post db n p node key data (e : bool)
    (r : res (triedb * triedb_branch * Z * bool)) : Prop :=
  exists db' b' ptr,
    r = Ok (db', b', ptr, e || bool_decide (trie_lookup n (nodes db) node key = None)) /\
    copied db db' n p b' ptr (put key data (trie_lookup n (nodes db) node)).

(** [trie_pre] says what the child of an occupied sub-index is. *)
Lemma child_cases db n p node key (i := sub_index_of (Z.of_nat (S n)) key) :
  trie_pre (hash_size_of db) (S n) (nodes db) p node ->
  (is_empty node i = true /\ ptr_at node i = None) \/
  exists off, is_empty node i = false /\ ptr_at node i = Some off /\
    get_child_pointer node i = Ok off /\ is_leaf node i = Z.testbit (b_leaf node) i /\
    child_ok (hash_size_of db) n (nodes db) p node i off.
Proof.
  intros ((Hd & Hcomp & Hleaf) & _ & Hc).
  pose proof (sub_index_of_range (Z.of_nat (S n)) key) as Hi. fold i in Hi.
  destruct (is_empty node i) eqn:E.
  - left. split; [done|]. rewrite is_empty_testbit in E by auto. unfold ptr_at, child.
    apply negb_true_iff in E. by rewrite E.
  - right. destruct (ptr_at_is_Some node i Hcomp Hi E) as [off Hoff]. exists off.
    split_and!; [done|done|by apply get_child_pointer_Ok| |by apply Hc].
    rewrite is_leaf_testbit by auto. rewrite is_empty_testbit in E by auto.
    apply negb_false_iff in E. by rewrite E.
Qed.

Lemma renum_step node b b' i o : renum b b' -> branch_step node b i o -> branch_step node b' i o.
Proof. intros [m ->]. apply set_num_step. Qed.
Lemma renum_leaf b b' : renum b b' -> b_leaf b' = b_leaf b.
Proof. by intros [m ->]. Qed.

(** After the recursive call: relink the child, hash and append. *)
Lemma put_relink db db1 n p node key data b i cp c' m (r : triedb_branch) :
  trie_pre (hash_size_of db) (S n) (nodes db) p node ->
  i = sub_index_of (Z.of_nat (S n)) key ->
  copied db db1 n (p * 32 + i) c' cp (put key data m) ->
  (forall k, sub_index_of (Z.of_nat (S n)) k = i -> m k = trie_lookup (S n) (nodes db) node k) ->
  branch_step node b i (Some cp) -> Z.testbit (b_leaf b) i = false -> renum b r ->
  exists db' b' ptr,
    branch_hasher blake2b db1 r = Ok b' /\ append_branch_node db1 b' = Ok (db', ptr) /\
    copied db db' (S n) p b' ptr (put key data (trie_lookup (S n) (nodes db) node)).
Proof.
  intros Hpre Hi Hc Hm Hstep Hbit Hr. eapply put_branch_step; try done.
  - by eapply renum_step.
  - by rewrite (renum_leaf _ _ Hr).
Qed.

Lemma update_part_correct fuel : forall db n p node key data (ins e : bool),
  store_ok db -> trie_pre (hash_size_of db) n (nodes db) p node ->
  data_fits data -> is_word 64 key -> key ≫ level_bits n = p -> (n <= 13)%nat -> (n <= fuel)%nat ->
  (ins = true -> trie_lookup n (nodes db) node key = None) ->
  update_part_post db n p node key data e (update_part blake2b fuel db node key data ins e).
Proof.
  induction fuel as [|fuel IH]; intros db n p node key data ins e Hst Hpre Hfit Hk Hp Hn Hfuel Hins.
  { destruct n; [done|lia]. }
  destruct n as [|n]; [done|]. cbn [update_part].
  rewrite (proj1 (proj1 Hpre)), sub_index_Ok by lia. cbn [mbind res_bind].
  pose proof (child_cases db n p node key Hpre) as Hcases. cbv zeta in Hcases.
  pose proof (sub_index_of_range (Z.of_nat (S n)) key) as Hi.
  set (i := sub_index_of (Z.of_nat (S n)) key) in *.
  assert (Hvia : forall k, sub_index_of (Z.of_nat (S n)) k = i ->
    trie_lookup (S n) (nodes db) node k = child_lookup n (nodes db) node i k).
  { intros k Hki. cbn [trie_lookup]. by rewrite Hki. }
  unfold update_part_post. rewrite (Hvia key) by done. rewrite (Hvia key) in Hins by done.
  unfold child_lookup in Hvia, Hins |- *.
  destruct Hcases as [[-> Hnone]|(off & -> & Hoff & Hget & -> & Hchild)].
  - rewrite Hnone in *.
    destruct (put_leaf_step db n p node key data (fun b => add_num_entries b 1))
      as (l & db1 & lp & db' & b' & ptr & H1 & H2 & H3 & H4 & Hc);
      [done..|by intros; apply Hvia|intros; apply renum_add|].
    run H1. run H2.
    cbn beta in H3. fold i in H3. run H3. run H4.
    exists db', b', ptr. by rewrite (bool_decide_true (_ = None)), orb_true_r by done.
  - unfold child_ok in Hchild. rewrite Hoff in *. unfold get_leaf, get_branch. rewrite Hget.
    cbn [mbind res_bind]. unfold get_leaf_at, get_branch_at.
    assert (Hset : forall cp, branch_step node (set_child_pointer node i cp) i (Some cp))
      by (intros; eapply set_pointer_step; [apply Hpre|done]).
    destruct (Z.testbit (b_leaf node) i) eqn:Hbit.
    + destruct Hchild as (l & Hlk & Hok & Hlp). rewrite Hlk in *. cbn [mbind res_bind].
      destruct (l_key l =? key) eqn:Ekey.
      * destruct ins; [by discriminate Hins|]. cbn [require negb mbind res_bind].
        apply Z.eqb_eq in Ekey.
        destruct (put_leaf_step db n p node key data (fun b => b))
          as (l' & db1 & lp & db' & b' & ptr & H1 & H2 & H3 & H4 & Hc); [done..| |intros; apply renum_refl|].
        { intros k Hne Hki. rewrite (Hvia k Hki). by rewrite (proj2 (Z.eqb_neq _ _)) by congruence. }
        run H1. run H2.
        cbn beta in H3. fold i in H3. run H3. run H4.
        exists db', b', ptr. by rewrite bool_decide_false, orb_false_r by done.
      * apply Z.eqb_neq in Ekey. assert (Hkp : key ≫ level_bits n = p * 32 + i) by (by apply key_split).
        destruct n as [|n].
        { exfalso. unfold level_bits in *. cbn in Hlp, Hkp. rewrite !Z.shiftr_0_r in *. congruence. }
        replace (Z.of_nat (S (S n)) - 1) with (Z.of_nat (S n)) by lia.
        rewrite sub_index_Ok by lia. cbn [mbind res_bind].
        destruct (tmp_branch_ok (hash_size_of db) n (nodes db) (p * 32 + i) l off (Z.of_nat (S n)))
          as [Htmp Htl]; [done..|lia|].
        edestruct (IH db (S n) (p * 32 + i) _ key data ins e Hst Htmp)
          as (db1 & c' & cp & Hrec & Hc); [done..|lia|lia| |].
        { intros _. by rewrite Htl, (proj2 (Z.eqb_neq _ _)). }
        run Hrec. rewrite Htl, (proj2 (Z.eqb_neq _ _)) by done.
        edestruct (put_relink db db1 (S n) p node key data
          (set_branch (set_child_pointer node i cp) i) i cp c') as (db' & b' & ptr & H1 & H2 & Hc');
          [done|done|exact Hc| | | |apply renum_if|].
        { intros k Hki. by rewrite Hvia, Htl. }
        { by apply set_branch_step. }
        { by apply set_branch_testbit. }
        run H1. run H2. by exists db', b', ptr.
    + destruct Hchild as (c & Hlk & Hok). rewrite Hlk in *. cbn [mbind res_bind].
      assert (Hkp : key ≫ level_bits n = p * 32 + i) by (by apply key_split).
      edestruct (IH db n (p * 32 + i) c key data ins e Hst)
        as (db1 & c' & cp & Hrec & Hc); [by apply trie_ok_pre|done..|lia|lia|done|].
      run Hrec.
      edestruct (put_relink db db1 n p node key data (set_child_pointer node i cp) i cp c')
        as (db' & b' & ptr & H1 & H2 & Hc');
        [done|done|exact Hc|by intros; rewrite Hvia|done|done|apply renum_if|].
      run H1. run H2. by exists db', b', ptr.
Qed.

(** Inserting a key that is there fails and changes nothing. *)
Lemma update_part_exists fuel : forall db n p node key data d e,
  trie_pre (hash_size_of db) n (nodes db) p node -> (n <= 13)%nat -> (n <= fuel)%nat ->
  trie_lookup n (nodes db) node key = Some d ->
  update_part blake2b fuel db node key data true e = Throw (KeyAlreadyExists key).
Proof.
  induction fuel as [|fuel IH]; intros db n p node key data d e Hpre Hn Hfuel Hl.
  { destruct n; [done|lia]. }
  destruct n as [|n]; [done|]. cbn [update_part trie_lookup] in *.
  rewrite (proj1 (proj1 Hpre)), sub_index_Ok by lia. cbn [mbind res_bind].
  destruct (child_cases db n p node key Hpre)
    as [[_ Hnone]|(off & -> & Hoff & Hget & -> & Hchild)]; [by rewrite Hnone in Hl|].
  unfold child_ok in Hchild. rewrite Hoff in Hl. unfold get_leaf, get_branch. rewrite Hget.
  cbn [mbind res_bind]. unfold get_leaf_at, get_branch_at.
  destruct (Z.testbit _ _); destruct Hchild as (x & Hlk & Hok); rewrite Hlk in *;
    cbn [mbind res_bind].
  - by destruct (l_key x =? key).
  - erewrite IH; [done|by apply trie_ok_pre|lia|lia|done].
Qed.

(** ** [grow] *)

Lemma key_bits_spec key :
  is_word 64 key ->
  compute_max_key_bits key <= 65 /\
  forall n, compute_max_key_bits key <= level_bits n -> key ≫ level_bits n = 0.
Proof.
  intros Hk. destruct (decide (key = 0)) as [->|Hne].
  { split; [by vm_compute|]. intros. apply Z.shiftr_0_l. }
  assert (H0 : 0 < key) by (unfold is_word in Hk; lia).
  unfold compute_max_key_bits, MAX_BRANCH_BITS. rewrite msb64_log2 by done.
  assert (Z.log2 key < 64) by (apply Z.log2_lt_pow2; unfold is_word in Hk; lia).
  pose proof (Z.log2_nonneg key).
  pose proof (Z.div_mod (Z.log2 key + 1 + 5 - 1) 5 ltac:(lia)).
  pose proof (Z.mod_pos_bound (Z.log2 key + 1 + 5 - 1) 5 ltac:(lia)).
  split; [lia|]. intros n Hn. apply Z.shiftr_eq_0; [lia|]. unfold level_bits in *. lia.
Qed.

(** The branch [grow] puts on top stands for the same map. *)
Lemma raise_ok hz n ns root ptr :
  ns !! ptr = Some (NBranch root) -> trie_ok hz n ns 0 root -> (n < 13)%nat ->
  let top := set_child_pointer (set_depth branch_default (Z.of_nat (S n))) 0 ptr in
  trie_pre hz (S n) ns 0 top /\
  forall k, trie_lookup (S n) ns top k = trie_lookup n ns root k.
Proof.
  intros Hlk Hok Hn top.
  assert (Hi : is_sub_index 0) by sub_lia.
  set (d0 := set_depth branch_default (Z.of_nat (S n))).
  assert (Hd : b_depth d0 = Z.of_nat (S n)) by (cbn; apply wrap_id; unfold is_word; lia).
  assert (Hshape : branch_shape (S n) d0)
    by (split; [exact Hd|split; [apply compressed_empty|cbn; unfold is_word; lia]]).
  assert (Hpre0 : trie_pre hz (S n) ns 0 d0).
  { split; [done|]. split; [apply hash_pre_null|]. intros i off _.
    unfold ptr_at, child. cbn. by rewrite Z.bits_0. }
  assert (Hstep : branch_step d0 top 0 (Some ptr)) by (by eapply set_pointer_step).
  assert (Hchild : forall q, Some ptr = Some q -> child_ok hz n ns 0 top 0 q).
  { intros ? [= <-]. unfold child_ok. cbn. eauto. }
  split; [by eapply step_ok|].
  intros k. rewrite (step_lookup hz n ns ns 0 d0 top 0 (Some ptr)) by done.
  unfold child_lookup. rewrite (bs_ptr _ _ _ _ Hstep), (decide_True (P := (0 = 0))), Hlk by done.
  case_decide as Hk; [done|].
  assert (trie_lookup (S n) ns d0 k = None) as ->.
  { cbn [trie_lookup]. unfold ptr_at, child. cbn [d0 set_depth branch_default b_mask].
    by rewrite Z.bits_0. }
  destruct (trie_lookup n ns root k) eqn:E; [|done]. exfalso. apply Hk.
  apply (trie_lookup_prefix hz n ns 0) in E; [|by apply trie_ok_pre].
  change (k ≫ level_bits n = 0 * 32 + 0) in E. by apply (sub_index_of_prefix n k 0 0).
Qed.

Lemma grow_correct fuel : forall db n root ptr bits,
  store_ok db -> nodes db !! ptr = Some (NBranch root) ->
  trie_ok (hash_size_of db) n (nodes db) 0 root -> (n <= 13)%nat -> bits <= 65 ->
  (13 - n <= fuel)%nat ->
  exists db' n' root' ptr',
    grow blake2b fuel db root ptr (Z.of_nat n) bits = Ok (db', root', ptr') /\
    (n <= n' <= 13)%nat /\ bits <= level_bits n' /\
    copied db db' n' 0 root' ptr' (trie_lookup n (nodes db) root).
Proof.
  induction fuel as [|fuel IH]; intros db n root ptr bits Hst Hlk Hok Hn Hb Hf; cbn [grow];
    destruct (Z.ltb_spec (Z.of_nat n * MAX_BRANCH_BITS) bits) as [Hlt|Hge]; unfold MAX_BRANCH_BITS in *.
  - lia.
  - exists db, n, root, ptr. split; [done|]. split; [lia|]. split; [unfold level_bits; lia|].
    by split; [apply extends_refl|..].
  - replace (Z.of_nat n + 1) with (Z.of_nat (S n)) by lia.
    destruct (raise_ok (hash_size_of db) n (nodes db) root ptr Hlk Hok) as [Hpre Hl]; [lia|].
    destruct (finish_ok db n 0 _ Hst Hpre) as (db1 & b1 & p1 & H1 & H2 & He & Hlk1 & Hok1 & _ & Hl1).
    run H1. run H2.
    rewrite <-(extends_hz _ _ He) in Hok1.
    destruct (IH db1 (S n) b1 p1 bits) as (db' & n' & root' & ptr' & Hg & Hn' & Hb' & []);
      [apply He|done..|lia|lia|lia|].
    exists db', n', root', ptr'. split; [done|]. split; [lia|]. split; [done|].
    split; [by eapply extends_trans|done|by rewrite <-(extends_hz _ _ He)|].
    intros k. by rewrite cp_lookup0, Hl1, Hl.
  - exists db, n, root, ptr. split; [done|]. split; [lia|]. split; [unfold level_bits; lia|].
    by split; [apply extends_refl|..].
Qed.

(** ** [remove_part] *)

Definition drop_key (key : Z) (m : Z -> option (list Z)) (k : Z) : option (list Z) :=
  if decide (k = key) then None else m k.

Lemma trie_lookup_empty n ns b k : b_mask b = 0 -> trie_lookup n ns b k = None.
Proof.
  intros H. destruct n; [done|]. cbn [trie_lookup]. unfold ptr_at, child.
  by rewrite H, Z.bits_0.
Qed.

Lemma remove_part_correct beyond fuel : forall db n p node key d,
  store_ok db -> trie_ok (hash_size_of db) n (nodes db) p node ->
  (n <= 13)%nat -> (n <= fuel)%nat ->
  trie_lookup n (nodes db) node key = Some d ->
  exists db' b' ptr,
    remove_part blake2b beyond fuel db node key = Ok (db', b', ptr) /\
    copied db db' n p b' ptr (drop_key key (trie_lookup n (nodes db) node)).
Proof.
  induction fuel as [|fuel IH]; intros db n p node key d Hst Hok Hn Hfuel Hd.
  { destruct n; [done|lia]. }
  destruct n as [|n]; [done|]. cbn [remove_part].
  pose proof (trie_ok_pre _ _ _ _ _ Hok) as Hpre. pose proof (proj1 Hpre) as Hshape.
  rewrite (proj1 Hshape), sub_index_Ok by lia. cbn [mbind res_bind].
  pose proof (child_cases db n p node key Hpre) as Hcases. cbv zeta in Hcases.
  pose proof (sub_index_of_range (Z.of_nat (S n)) key) as Hi.
  set (i := sub_index_of (Z.of_nat (S n)) key) in *.
  assert (Hvia : forall k, sub_index_of (Z.of_nat (S n)) k = i ->
    trie_lookup (S n) (nodes db) node k = child_lookup n (nodes db) node i k).
  { intros k Hki. cbn [trie_lookup]. by rewrite Hki. }
  rewrite (Hvia key) in Hd by done. unfold child_lookup in Hvia, Hd.
  destruct Hcases as [[_ Hnone]|(off & He & Hoff & Hget & Hleaf & Hchild)]; [by rewrite Hnone in Hd|].
  rewrite He, Hleaf. unfold child_ok in Hchild. rewrite Hoff in *. unfold get_leaf, get_branch.
  run Hget.
  assert (Hm : Z.testbit (b_mask node) i = true).
  { rewrite is_empty_testbit in He by auto. by apply negb_false_iff in He. }
  assert (Hclear : branch_step node (set_empty beyond node i) i None)
    by (by eapply set_empty_step).
  (* Whatever child is left, the copy has the right map. *)
  assert (Hdone : forall db1 b o, extends db db1 ->
    branch_step node b i o ->
    (forall ptr, o = Some ptr -> child_ok (hash_size_of db) n (nodes db1) p b i ptr) ->
    (forall k, sub_index_of (Z.of_nat (S n)) k = i ->
       child_lookup n (nodes db1) b i k = drop_key key (trie_lookup (S n) (nodes db) node) k) ->
    exists db' b' ptr,
      branch_hasher blake2b db1 (sub_num_entries b 1) = Ok b' /\
      append_branch_node db1 b' = Ok (db', ptr) /\
      copied db db' (S n) p b' ptr (drop_key key (trie_lookup (S n) (nodes db) node))).
  { intros db1 b o Hex Hstep Hc Hl.
    destruct (copy_step db db1 n p node (sub_num_entries b 1) i o Hex Hpre)
      as (db' & b' & ptr & H1 & H2 & _ & Hcp); [by apply set_num_step|done|].
    exists db', b', ptr. split_and!; [done..|]. eapply copied_ext; [|exact Hcp].
    intros k. cbn beta. case_decide as Hk; [by apply Hl|].
    unfold drop_key. by rewrite (decide_False (P := (k = key))) by (intros ->; by apply Hk). }
  destruct (Z.testbit (b_leaf node) i) eqn:Hbit.
  - destruct Hchild as (l & Hlk & _ & _). run (get_leaf_at_Ok _ _ _ Hlk). rewrite Hlk in *.
    destruct (l_key l =? key) eqn:Ekey; [|done]. cbn [require mbind res_bind].
    apply Z.eqb_eq in Ekey.
    edestruct (Hdone db (set_empty beyond node i) None) as (db' & b' & ptr & H1 & H2 & Hcp);
      [by apply extends_refl|done|done| |].
    { intros k Hk. unfold child_lookup. rewrite (bs_ptr _ _ _ _ Hclear), decide_True by done.
      unfold drop_key. case_decide as Hkk; [done|]. rewrite (Hvia k Hk).
      by rewrite (proj2 (Z.eqb_neq _ _)) by congruence. }
    run H1. rewrite H2. by exists db', b', ptr.
  - destruct Hchild as (c & Hlk & Hcok). run (get_branch_at_Ok _ _ _ Hlk). rewrite Hlk in *.
    destruct (IH db n (p * 32 + i) c key d Hst Hcok) as (db1 & c' & cp & Hrec & [Hex Hst' Hok' Hl']);
      [lia|lia|done|].
    run Hrec.
    edestruct (Hdone db1 (if b_mask c' =? 0 then set_empty beyond node i
        else set_child_pointer node i cp) (if b_mask c' =? 0 then None else Some cp))
      as (db' & b' & ptr & H1 & H2 & Hcp); [done| | | |].
    + destruct (b_mask c' =? 0); [done|]. eapply set_pointer_step; done.
    + intros q. destruct (b_mask c' =? 0); [done|]. intros [= <-]. unfold child_ok.
      cbn [set_child_pointer b_leaf]. rewrite Hbit. eauto.
    + intros k Hk. unfold child_lookup, drop_key. rewrite (Hvia k Hk).
      destruct (b_mask c' =? 0) eqn:Ez.
      * rewrite (bs_ptr _ _ _ _ Hclear), decide_True by done. symmetry.
        apply Z.eqb_eq in Ez. pose proof (Hl' k) as Hlk'. rewrite trie_lookup_empty in Hlk' by done.
        by unfold drop_key in Hlk'.
      * pose proof (set_pointer_step node i cp (S n) Hshape Hi) as Hset.
        rewrite (bs_ptr _ _ _ _ Hset), (decide_True (P := (i = i))), Hst' by done.
        by rewrite Hl'.
    + run H1. rewrite H2. by exists db', b', ptr.
Qed.

(** Removing a key that is not there fails. *)
Lemma remove_part_missing beyond fuel : forall db n p node key,
  trie_ok (hash_size_of db) n (nodes db) p node -> (n <= 13)%nat -> (n <= fuel)%nat ->
  trie_lookup n (nodes db) node key = None ->
  remove_part blake2b beyond fuel db node key = Throw (KeyNotFound key) \/
  remove_part blake2b beyond fuel db node key = Throw (KeyAlreadyExists key).
Proof.
  induction fuel as [|fuel IH]; intros db n p node key Hok Hn Hfuel Hl.
  { destruct n; [done|lia]. }
  destruct n as [|n]; [done|]. cbn [remove_part trie_lookup] in *.
  pose proof (trie_ok_pre _ _ _ _ _ Hok) as Hpre.
  rewrite (proj1 (proj1 Hpre)), sub_index_Ok by lia. cbn [mbind res_bind].
  destruct (child_cases db n p node key Hpre)
    as [[-> _]|(off & -> & Hoff & Hget & -> & Hchild)]; [by left|].
  unfold child_ok in Hchild. rewrite Hoff in Hl. unfold get_leaf, get_branch. rewrite Hget.
  cbn [mbind res_bind]. unfold get_leaf_at, get_branch_at.
  destruct (Z.testbit _ _); destruct Hchild as (x & Hlk & Hc); rewrite Hlk in *;
    cbn [mbind res_bind].
  - destruct (l_key x =? key); [done|]. by right.
  - destruct (IH db n _ x key Hc) as [-> | ->]; [lia|lia|done|by left|by right].
Qed.

End hashing.
