(* ===== verification/TrieRoots.v ===== *)
(** * The trie database seen through its roots

    Every root of a well-formed database stands for a finite map
    ([root_map]).  [insert], [update] and [remove] change the map of the root they
    are given and of no other root, raise the documented exceptions, and keep the
    database well formed; [new_root(parent)] takes a snapshot. *)

From S2P Require Import Prelude Bits Sparse TrieNode TrieDb TrieDbSpec TrieUpdate.

(** The record of a root and the branch it names. *)
Record root_ok (db : triedb) (id : Z) (r : triedb_root) : Prop := RootOk {
  ro_id : r_id r = id;
  ro_low : VERSION_SZ <= id;
  ro_high : id + root_serialization_size <= roots_end db;
  ro_height : is_word 32 (r_height r);
  ro_num : is_word 64 (r_num_entries r);
  ro_branch : exists n b, nodes db !! r_ptr r = Some (NBranch b) /\ (n <= 13)%nat /\
              trie_ok (hash_size_of db) n (nodes db) 0 b
}.

Record db_ok (db : triedb) : Prop := DbOk {
  do_store : store_ok db;
  do_pos : VERSION_SZ <= roots_pos db <= roots_end db;
  do_roots : forall id r, roots db !! id = Some r -> root_ok db id r
}.

(** The map a root stands for. *)
Definition root_map (db : triedb) (id : Z) (key : Z) : option (list Z) :=
  match roots db !! id with
  | Some r =>
      match nodes db !! r_ptr r with
      | Some (NBranch b) => trie_lookup (Z.to_nat (b_depth b)) (nodes db) b key
      | _ => None
      end
  | None => None
  end.

Lemma trie_depth hz n ns p b : trie_ok hz n ns p b -> b_depth b = Z.of_nat n.
Proof. destruct n; [done|]. by intros [[? _] _]. Qed.

Lemma root_map_eq db id r n b key :
  roots db !! id = Some r -> nodes db !! r_ptr r = Some (NBranch b) ->
  b_depth b = Z.of_nat n -> root_map db id key = trie_lookup n (nodes db) b key.
Proof. intros H1 H2 H3. unfold root_map. by rewrite H1, H2, H3, Nat2Z.id. Qed.

(** More nodes: roots keep their records and their maps. *)
Lemma root_ok_extends db db' id r : extends db db' -> root_ok db id r -> root_ok db' id r.
Proof.
  intros He [H1 H2 H3 H4 H5 (n & b & Hb & Hn & Hok)]. split; try done.
  - by rewrite (ex_end _ _ He).
  - exists n, b. split; [|split; [done|]].
    + eapply lookup_weaken; [done|apply He].
    + rewrite (extends_hz _ _ He). eapply trie_ok_mono; [apply He|done].
Qed.

Lemma db_ok_extends db db' : db_ok db -> extends db db' -> db_ok db'.
Proof.
  intros [H1 H2 H3] He. split; [apply He| |].
  - by rewrite (ex_pos _ _ He), (ex_end _ _ He).
  - intros id r. rewrite (ex_roots _ _ He). intros Hr. eapply root_ok_extends; eauto.
Qed.

Lemma root_map_extends db db' id key :
  db_ok db -> extends db db' -> root_map db' id key = root_map db id key.
Proof.
  intros Hdb He. unfold root_map. rewrite (ex_roots _ _ He).
  destruct (roots db !! id) as [r|] eqn:Hr; [|done].
  destruct (ro_branch _ _ _ (do_roots _ Hdb id r Hr)) as (n & b & Hb & Hn & Hok).
  rewrite (lookup_weaken _ _ _ _ Hb (ex_nodes _ _ He)), Hb.
  rewrite (trie_depth _ _ _ _ _ Hok), Nat2Z.id.
  eapply trie_lookup_mono; [apply He|by apply trie_ok_pre].
Qed.

(** Changing the record of root [id] so that it names another branch. *)
Lemma set_root_correct db id r ptr n b :
  db_ok db -> roots db !! id = Some r ->
  nodes db !! ptr = Some (NBranch b) -> trie_ok (hash_size_of db) n (nodes db) 0 b ->
  (n <= 13)%nat ->
  exists db', set_root db id ptr = Ok db' /\ db_ok db' /\
    (forall k, root_map db' id k = trie_lookup n (nodes db) b k) /\
    (forall id' k, id' <> id -> root_map db' id' k = root_map db id' k) /\
    roots db' = <[id := TriedbRoot id (r_previous_id r) ptr (r_height r) (r_num_entries r)]> (roots db) /\
    nodes db' = nodes db.
Proof.
  intros [Hst Hpos Hroots] Hr Hb Hok Hn. pose proof (Hroots id r Hr) as [H1 H2 H3 H4 H5 _].
  unfold set_root, get_root. rewrite Hr. cbn [of_option]. rewrite Ok_bind. rewrite H1.
  cbn [r_id r_height r_num_entries]. rewrite require_true by (by apply Z.leb_le).
  cbn [mbind res_bind]. unfold root_write. cbn [r_height r_num_entries r_previous_id r_ptr].
  rewrite require_true by done. cbn [mbind res_bind].
  rewrite !checked_cast_word by done. cbn [mbind res_bind].
  eexists. split; [done|].
  match goal with |- context [with_roots db ?rs ?hs ?e ?p] =>
    set (e' := e); set (p' := p); set (db' := with_roots db rs hs e' p') end.
  assert (Hp' : p' = id + root_serialization_size) by done.
  assert (He' : e' = roots_end db) by (unfold e'; lia).
  assert (Hother : forall id' r', id' <> id -> roots db !! id' = Some r' ->
    <[id := TriedbRoot id (r_previous_id r) ptr (r_height r) (r_num_entries r)]> (roots db) !! id' = Some r').
  { intros id' r' Hne Hr'. by rewrite lookup_insert_ne. }
  split; [split|split; [|split; [|done]]].
  - done.
  - cbn. unfold root_serialization_size in *. lia.
  - intros id' r' Hr'. cbn in Hr'. rewrite lookup_insert in Hr'.
    destruct (decide (id = id')) as [<-|Hne].
    + injection Hr' as <-. split; cbn; try done; [lia|]. by exists n, b.
    + destruct (Hroots id' r' Hr') as [? ? ? ? ? ?]. split; try done. cbn. by rewrite He'.
  - intros k. apply (root_map_eq db' id (TriedbRoot id (r_previous_id r) ptr (r_height r)
      (r_num_entries r)) n b k); [apply lookup_insert_eq|done|by eapply trie_depth].
  - intros id' k Hne. unfold root_map. cbn. by rewrite lookup_insert_ne by done.
Qed.

Lemma set_num_entries_id db id : set_root_num_entries db id (fun n => n) = db.
Proof.
  destruct db. unfold set_root_num_entries, with_roots. cbn. f_equal. apply map_eq. intros i.
  destruct (decide (i = id)) as [->|]; [|by rewrite lookup_alter_ne].
  rewrite lookup_alter_eq. destruct (_ !! id) as [[]|]; done.
Qed.

Lemma set_num_entries_correct db id r f :
  db_ok db -> roots db !! id = Some r -> is_word 64 (f (r_num_entries r)) ->
  let db' := set_root_num_entries db id f in
  db_ok db' /\ (forall id' k, root_map db' id' k = root_map db id' k) /\
  roots db' !! id =
    Some (TriedbRoot id (r_previous_id r) (r_ptr r) (r_height r) (f (r_num_entries r))) /\
  (forall id', id' <> id -> roots db' !! id' = roots db !! id') /\ nodes db' = nodes db /\
  hash_size_of db' = hash_size_of db.
Proof.
  intros [Hst Hpos Hroots] Hr Hf db'.
  assert (Hid : roots db' !! id =
    Some (TriedbRoot id (r_previous_id r) (r_ptr r) (r_height r) (f (r_num_entries r)))).
  { cbn. rewrite lookup_alter_eq, Hr. cbn. by rewrite (ro_id _ _ _ (Hroots id r Hr)). }
  assert (Hne : forall id', id' <> id -> roots db' !! id' = roots db !! id')
    by (intros; by apply lookup_alter_ne).
  split; [|split; [|by split_and!]].
  - split; [done|done|]. intros id' r' Hr'. destruct (decide (id' = id)) as [->|Hn].
    + rewrite Hid in Hr'. injection Hr' as <-. by destruct (Hroots id r Hr); split.
    + rewrite Hne in Hr' by done. by destruct (Hroots id' r' Hr'); split.
  - intros id' k. unfold root_map. destruct (decide (id' = id)) as [->|Hn].
    + by rewrite Hid, Hr.
    + by rewrite Hne.
Qed.

Section hashing.
Context (blake2b : list Z -> list Z).
Hypothesis blake2b_length : forall bs, length (blake2b bs) = 32%nat.
Hypothesis blake2b_bytes : forall bs, are_bytes (blake2b bs).

(** What a change of the map of root [id] leaves in place. *)
Record root_changed (db db' : triedb) (id : Z) (m : Z -> option (list Z)) (num : Z) : Prop :=
  RootChanged {
    rc_ok : db_ok db';
    rc_map : forall k, root_map db' id k = m k;
    rc_others : forall id' k, id' <> id -> root_map db' id' k = root_map db id' k;
    rc_records : forall id', id' <> id -> roots db' !! id' = roots db !! id';
    rc_num : forall r, roots db !! id = Some r -> exists r', roots db' !! id = Some r' /\
             r_num_entries r' = num /\ r_height r' = r_height r /\ r_previous_id r' = r_previous_id r
  }.

(** Raising the root and running [update_part] on it. *)
Lemma insert_or_update_correct db id r key data (ins : bool) :
  db_ok db -> roots db !! id = Some r -> data_fits data -> is_word 64 key ->
  (ins = true -> root_map db id key = None) ->
  exists db', insert_or_update blake2b db id key data ins = Ok db' /\
    root_changed db db' id (put key data (root_map db id))
      (if decide (root_map db id key = None) then w64 (r_num_entries r + 1)
       else r_num_entries r).
Proof.
  intros Hdb Hr Hfit Hk Hins.
  pose proof (do_roots _ Hdb id r Hr) as Hro.
  destruct (ro_branch _ _ _ Hro) as (n & b & Hb & Hn & Hok).
  pose proof (trie_depth _ _ _ _ _ Hok) as Hd.
  assert (Hmap : forall k, root_map db id k = trie_lookup n (nodes db) b k)
    by (intros; by eapply root_map_eq).
  unfold insert_or_update. rewrite Hr. cbn [of_option]. rewrite Ok_bind.
  run (get_branch_at_Ok _ _ _ Hb). rewrite Hd.
  destruct (key_bits_spec key Hk) as [Hb65 Hcover].
  destruct (grow_correct blake2b blake2b_length blake2b_bytes MAX_DEPTH db n b (r_ptr r)
    (compute_max_key_bits key)) as (db1 & n1 & b1 & p1 & Hg & Hn1 & Hbits & [He1 Hb1 Hok1 Hl1]);
    [apply Hdb|done..|unfold MAX_DEPTH; lia|].
  run Hg.
  edestruct (update_part_correct blake2b blake2b_length blake2b_bytes MAX_DEPTH db1 n1 0 b1 key
    data ins false) as (db2 & b2 & p2 & Hu & [He2 Hb2 Hok2 Hl2]);
    [apply He1|rewrite (extends_hz _ _ He1); by apply trie_ok_pre|done|done|by apply Hcover|lia
    |unfold MAX_DEPTH; lia|intros; by rewrite Hl1, <-Hmap; auto|].
  run Hu. rewrite orb_false_l.
  assert (He : extends db db2) by (by eapply extends_trans).
  pose proof (db_ok_extends _ _ Hdb He) as Hdb2.
  assert (Hr2 : roots db2 !! id = Some r) by (by rewrite (ex_roots _ _ He)).
  set (new := bool_decide (trie_lookup n1 (nodes db1) b1 key = None)).
  destruct (set_num_entries_correct db2 id r (if new then fun n => w64 (n + 1) else fun n => n) Hdb2 Hr2)
    as (Hdb3 & Hm3 & Hr3 & Hrne & Hn3 & Hhz); [destruct new; [by apply wrap_word|apply Hro]|].
  assert (Hdb3' : (if new then increment_num_entries db2 id else db2) =
    set_root_num_entries db2 id (if new then fun n => w64 (n + 1) else fun n => n)).
  { destruct new; [done|]. by rewrite set_num_entries_id. }
  rewrite Hdb3'.
  destruct (set_root_correct _ id _ p2 n1 b2 Hdb3 Hr3) as (db4 & Hs & Hdb4 & Hm & Ho & Hrs & Hns);
    [by rewrite Hn3|rewrite Hhz, Hn3, (extends_hz _ _ He), <-(extends_hz _ _ He1); done|lia|].
  exists db4. split; [done|]. split; [done| | | |].
  - intros k. rewrite Hm, Hn3, Hl2. unfold put. by rewrite Hl1, Hmap.
  - intros id' k Hne. rewrite Ho by done. rewrite Hm3. by apply root_map_extends.
  - intros id' Hne. rewrite Hrs, lookup_insert_ne by done. rewrite Hrne by done.
    by rewrite (ex_roots _ _ He).
  - intros r' Hr'. rewrite Hr in Hr'. injection Hr' as <-.
    eexists. split; [rewrite Hrs; apply lookup_insert_eq|]. cbn. split; [|done].
    unfold new. rewrite Hl1, Hmap. by destruct (trie_lookup n (nodes db) b key).
Qed.

Lemma insert_present db id r key data d :
  db_ok db -> roots db !! id = Some r -> is_word 64 key -> root_map db id key = Some d ->
  insert blake2b db id key data = Throw (KeyAlreadyExists key).
Proof.
  intros Hdb Hr Hk Hd. pose proof (do_roots _ Hdb id r Hr) as Hro.
  destruct (ro_branch _ _ _ Hro) as (n & b & Hb & Hn & Hok).
  pose proof (trie_depth _ _ _ _ _ Hok) as Hdep. rewrite (root_map_eq _ _ _ _ _ _ Hr Hb Hdep) in Hd.
  unfold insert, insert_or_update. rewrite Hr. cbn [of_option]. rewrite Ok_bind.
  run (get_branch_at_Ok _ _ _ Hb). rewrite Hdep.
  destruct (key_bits_spec key Hk) as [Hb65 Hcover].
  destruct (grow_correct blake2b blake2b_length blake2b_bytes MAX_DEPTH db n b (r_ptr r)
    (compute_max_key_bits key)) as (db1 & n1 & b1 & p1 & Hg & Hn1 & Hbits & [He1 Hb1 Hok1 Hl1]);
    [apply Hdb|done..|unfold MAX_DEPTH; lia|].
  run Hg.
  rewrite (update_part_exists blake2b MAX_DEPTH db1 n1 0 b1 key data d false); [done| |lia| |].
  - rewrite (extends_hz _ _ He1). by apply trie_ok_pre.
  - unfold MAX_DEPTH. lia.
  - by rewrite Hl1.
Qed.

(** A key the root is too shallow for cannot be in its map. *)
Lemma root_covers hz n ns b key d :
  trie_ok hz n ns 0 b -> is_word 64 key -> trie_lookup n ns b key = Some d ->
  compute_max_key_bits key <= Z.of_nat n * MAX_BRANCH_BITS.
Proof.
  intros Hok Hk Hl. apply (trie_lookup_prefix hz n ns 0) in Hl; [|by apply trie_ok_pre].
  unfold MAX_BRANCH_BITS. destruct n as [|n]; [done|].
  destruct (decide (key = 0)) as [->|Hne].
  { assert (compute_max_key_bits 0 = 5) as -> by done. lia. }
  assert (0 < key) by (unfold is_word in Hk; lia).
  unfold compute_max_key_bits, MAX_BRANCH_BITS. rewrite msb64_log2 by done.
  rewrite Z.shiftr_eq_0_iff in Hl. destruct Hl as [|[_ Hlt]]; [done|].
  unfold level_bits in Hlt. pose proof (Z.log2_nonneg key).
  assert ((Z.log2 key + 1 + 5 - 1) / 5 < Z.of_nat (S n) + 1); [|lia].
  apply Z.div_lt_upper_bound; lia.
Qed.

Lemma remove_present beyond db id r key d :
  db_ok db -> roots db !! id = Some r -> is_word 64 key -> root_map db id key = Some d ->
  exists db', remove blake2b beyond db id key = Ok db' /\
    root_changed db db' id (drop_key key (root_map db id)) (w64 (r_num_entries r - 1)).
Proof.
  intros Hdb Hr Hk Hd. pose proof (do_roots _ Hdb id r Hr) as Hro.
  destruct (ro_branch _ _ _ Hro) as (n & b & Hb & Hn & Hok).
  pose proof (trie_depth _ _ _ _ _ Hok) as Hdep.
  assert (Hmap : forall k, root_map db id k = trie_lookup n (nodes db) b k)
    by (intros; by eapply root_map_eq).
  rewrite Hmap in Hd. unfold remove. rewrite Hr. cbn [of_option]. rewrite Ok_bind.
  run (get_branch_at_Ok _ _ _ Hb). rewrite Hdep.
  rewrite require_true by (apply Z.leb_le; by eapply root_covers). rewrite Ok_bind.
  destruct (remove_part_correct blake2b blake2b_length blake2b_bytes beyond MAX_DEPTH db n 0 b key d)
    as (db1 & b1 & p1 & Hrem & [He Hb1 Hok1 Hl1]); [apply Hdb|done|lia|unfold MAX_DEPTH; lia|done|].
  run Hrem. pose proof (db_ok_extends _ _ Hdb He) as Hdb1.
  assert (Hr1 : roots db1 !! id = Some r) by (by rewrite (ex_roots _ _ He)).
  destruct (set_num_entries_correct db1 id r (fun n => w64 (n - 1)) Hdb1 Hr1)
    as (Hdb2 & Hm2 & Hr2 & Hrne & Hn2 & Hhz); [by apply wrap_word|].
  destruct (set_root_correct _ id _ p1 n b1 Hdb2 Hr2) as (db3 & Hs & Hdb3 & Hm & Ho & Hrs & Hns);
    [by rewrite Hn2|by rewrite Hhz, Hn2, (extends_hz _ _ He)|lia|].
  exists db3. split; [exact Hs|]. split; [exact Hdb3| | | |].
  - intros k. rewrite Hm, Hn2, Hl1. unfold drop_key. by rewrite Hmap.
  - intros id' k Hne. rewrite Ho by done. rewrite Hm2. by apply root_map_extends.
  - intros id' Hne. rewrite Hrs, lookup_insert_ne by done. rewrite Hrne by done.
    by rewrite (ex_roots _ _ He).
  - intros r' Hr'. rewrite Hr in Hr'. injection Hr' as <-.
    eexists. split; [rewrite Hrs; apply lookup_insert_eq|]. by split.
Qed.

Lemma remove_absent beyond db id r key :
  db_ok db -> roots db !! id = Some r -> root_map db id key = None ->
  remove blake2b beyond db id key = Throw (KeyNotFound key) \/
  remove blake2b beyond db id key = Throw (KeyAlreadyExists key).
Proof.
  intros Hdb Hr Hd. pose proof (do_roots _ Hdb id r Hr) as Hro.
  destruct (ro_branch _ _ _ Hro) as (n & b & Hb & Hn & Hok).
  pose proof (trie_depth _ _ _ _ _ Hok) as Hdep. rewrite (root_map_eq _ _ _ _ _ _ Hr Hb Hdep) in Hd.
  unfold remove. rewrite Hr. cbn [of_option]. rewrite Ok_bind.
  run (get_branch_at_Ok _ _ _ Hb).
  destruct (compute_max_key_bits key <=? _); [|by left]. cbn [require mbind res_bind].
  destruct (remove_part_missing blake2b beyond MAX_DEPTH db n 0 b key)
    as [-> | ->]; [done|lia|unfold MAX_DEPTH; lia|done|by left|by right].
Qed.

(** ** Making roots *)

Lemma add_root_correct db r n m b :
  db_ok db -> root_serialization_size <= n -> VERSION_SZ <= r_id r <= roots_end db ->
  is_word 32 (r_height r) -> is_word 64 (r_num_entries r) ->
  nodes db !! r_ptr r = Some (NBranch b) -> trie_ok (hash_size_of db) m (nodes db) 0 b -> (m <= 13)%nat ->
  let db' := add_root db r n in
  db_ok db' /\ (forall k, root_map db' (r_id r) k = trie_lookup m (nodes db) b k) /\
  (forall id k, id <> r_id r -> root_map db' id k = root_map db id k) /\
  roots db' !! r_id r = Some r /\ (forall id, id <> r_id r -> roots db' !! id = roots db !! id).
Proof.
  intros [Hst Hpos Hroots] Hn Hid Hh Hnum Hb Hok Hm db'.
  split_and!.
  - split; [done|cbn; unfold root_serialization_size in *; lia|].
    intros id r' Hr'. cbn in Hr'. rewrite lookup_insert in Hr'.
    destruct (decide (r_id r = id)) as [<-|Hne].
    + injection Hr' as <-. split; try done; [lia|cbn; lia|]. by exists m, b.
    + destruct (Hroots id r' Hr'). split; try done. cbn. unfold root_serialization_size in *. lia.
  - intros k. apply (root_map_eq db' (r_id r) r m b k); [apply lookup_insert_eq|done|by eapply trie_depth].
  - intros id k Hne. unfold root_map. cbn. by rewrite lookup_insert_ne by done.
  - apply lookup_insert_eq.
  - intros. by apply lookup_insert_ne.
Qed.

Lemma roots_end_fresh db : db_ok db -> roots db !! roots_end db = None.
Proof.
  intros Hdb. destruct (roots db !! roots_end db) as [r'|] eqn:E; [|done].
  apply (do_roots _ Hdb) in E as []. unfold root_serialization_size in *. lia.
Qed.

Lemma new_root_from_correct db parent r :
  db_ok db -> roots db !! parent = Some r -> is_word 32 (r_height r + 1) ->
  exists db', new_root_from db parent = Ok (db', roots_end db) /\ db_ok db' /\
    roots db !! roots_end db = None /\
    (forall k, root_map db' (roots_end db) k = root_map db parent k) /\
    (forall id k, id <> roots_end db -> root_map db' id k = root_map db id k) /\
    roots db' !! roots_end db =
      Some (TriedbRoot (roots_end db) parent (r_ptr r) (r_height r + 1) (r_num_entries r)) /\
    (forall id, id <> roots_end db -> roots db' !! id = roots db !! id).
Proof.
  intros Hdb Hr Hh. pose proof (do_roots _ Hdb parent r Hr) as Hro.
  destruct (ro_branch _ _ _ Hro) as (n & b & Hb & Hn & Hok).
  unfold new_root_from, get_root. rewrite Hr. cbn [of_option]. rewrite Ok_bind.
  rewrite (ro_id _ _ _ Hro). unfold root_write. cbn [r_height r_num_entries r_previous_id r_ptr].
  rewrite require_true by done. cbn [mbind res_bind].
  rewrite !checked_cast_word by (done || apply Hro). cbn [mbind res_bind].
  eexists. split; [done|].
  match goal with |- context [add_root db ?q ?sz] =>
    destruct (add_root_correct db q sz n b Hdb) as (H1 & H3 & H4 & H5 & H6);
      [done|cbn; pose proof (do_pos _ Hdb); lia|done|apply Hro|done..|] end.
  split_and!; try done; [by apply roots_end_fresh|]. intros k. cbn [r_id] in H3. rewrite H3. symmetry. eapply root_map_eq; [done..|].
  by eapply trie_depth.
Qed.

Lemma checked_cast_Ok w v u : checked_cast_unsigned w v = Ok u -> is_word w v.
Proof.
  unfold checked_cast_unsigned, is_word. intros (? & H & _)%bind_Ok. apply require_Ok in H. lia.
Qed.

(** A height that does not fit in its field is refused. *)
Lemma new_root_from_height db parent r x :
  new_root_from db parent = Ok x -> roots db !! parent = Some r -> is_word 32 (r_height r + 1).
Proof.
  unfold new_root_from, get_root, root_write. intros H Hr. rewrite Hr in H. cbn [of_option] in H.
  rewrite Ok_bind in H. apply bind_Ok in H as (bs & H & _).
  apply bind_Ok in H as (? & _ & H). apply bind_Ok in H as (? & _ & H).
  apply bind_Ok in H as (? & H & _). by apply checked_cast_Ok in H.
Qed.

(** [new_root()] gives the identifier at which the stream stands, whether or not
    a root already has it; that root's map is replaced by the empty one. *)
Lemma new_root_correct db :
  db_ok db ->
  exists db', new_root blake2b db = Ok (db', roots_pos db) /\ db_ok db' /\
    (forall k, root_map db' (roots_pos db) k = None) /\
    (forall id k, id <> roots_pos db -> root_map db' id k = root_map db id k) /\
    (forall id, id <> roots_pos db -> roots db' !! id = roots db !! id) /\
    (exists r, roots db' !! roots_pos db = Some r /\ r_height r = 0 /\ r_num_entries r = 0).
Proof.
  intros Hdb. unfold new_root.
  assert (Hpre : trie_pre (hash_size_of db) 1 (nodes db) 0 (set_depth branch_default 1)).
  { split; [split; [done|split; [apply compressed_empty|cbn; unfold is_word; lia]]|].
    split; [apply hash_pre_null|]. intros i off _. unfold ptr_at, child. cbn. by rewrite Z.bits_0. }
  destruct (finish_ok blake2b blake2b_length blake2b_bytes db 0 0 _ (do_store _ Hdb) Hpre)
    as (db1 & b & ptr & H1 & H2 & He & Hb & Hok & Hm & Hl).
  run H1. run H2. cbn [root_write r_height].
  unfold root_write. cbn [r_height r_num_entries r_previous_id r_ptr].
  rewrite require_true by done. cbn [mbind res_bind].
  rewrite !checked_cast_word by (cbn; unfold is_word; lia). cbn [mbind res_bind].
  pose proof (db_ok_extends _ _ Hdb He) as Hdb1.
  rewrite (ex_pos _ _ He). cbn [r_id]. eexists. split; [done|].
  match goal with |- context [add_root db1 ?q ?sz] =>
    destruct (add_root_correct db1 q sz 1 b Hdb1) as (Ha & Hc & Hd & Hr & Hrs);
      [done|cbn; rewrite (ex_end _ _ He); apply Hdb|cbn; unfold is_word; lia|cbn; unfold is_word; lia|done| |lia|] end.
  { by rewrite (extends_hz _ _ He). }
  cbn [r_id] in *. split_and!; try done.
  - intros k. rewrite Hc. apply trie_lookup_empty. by rewrite Hm.
  - intros id k Hne. rewrite Hd by done. by apply root_map_extends.
  - intros id Hne. rewrite Hrs by done. by rewrite (ex_roots _ _ He).
  - eexists. split; [done|]. done.
Qed.

Lemma triedb_empty_ok hashing sz : 0 < sz -> db_ok (triedb_empty hashing sz).
Proof.
  intros. split; [|done|done].
  split; [done|]. split; [done|]. intros off nd Hl.
  change ((∅ : gmap Z node) !! off = Some nd) in Hl. by rewrite lookup_empty in Hl.
Qed.

End hashing.
