(* ===== verification/TrieMap.v ===== *)
(** * The trie database implements versioned finite maps

    The abstract database is a finite map from root identifiers to finite maps
    from keys to byte strings.  Each operation of [triedb] simulates the
    operation of the abstract database, including the number of entries it
    reports, and fails exactly when the abstract operation is not defined. *)

From S2P Require Import Prelude Bits Sparse TrieNode TrieDb TrieDbSpec TrieUpdate TrieRoots.

(** ** The abstract database *)

Abbreviation version_map := (gmap Z (list Z)).
Abbreviation versions := (gmap Z (gmap Z (list Z))).

(** [OpNew] is [new_root()], [OpNewRoot] is [new_root(parent)]. *)
Inductive db_op : Type :=
  | OpNew
  | OpInsert (at_root key : Z) (data : list Z)
  | OpUpdate (at_root key : Z) (data : list Z)
  | OpRemove (at_root key : Z)
  | OpNewRoot (parent : Z).

(** [fresh] is the identifier the new version gets.  It need not be unused:
    a version that has it is replaced. *)
Definition spec_run (fresh : Z) (s : versions) (op : db_op) : option versions :=
  match op with
  | OpNew => Some (<[fresh := ∅]> s)
  | OpInsert id key data =>
      m ← s !! id; guard (m !! key = None);; Some (<[id := <[key := data]> m]> s)
  | OpUpdate id key data => m ← s !! id; Some (<[id := <[key := data]> m]> s)
  | OpRemove id key =>
      m ← s !! id; guard (is_Some (m !! key));; Some (<[id := delete key m]> s)
  | OpNewRoot parent => m ← s !! parent; Some (<[fresh := m]> s)
  end.

Section hashing.
Context (blake2b : list Z -> list Z).

(** The calls a client makes. *)
Definition db_run (beyond : Z) (db : triedb) (op : db_op) : res triedb :=
  match op with
  | OpNew => fst <$> new_root blake2b db
  | OpInsert id key data => insert blake2b db id key data
  | OpUpdate id key data => update blake2b db id key data
  | OpRemove id key => remove blake2b beyond db id key
  | OpNewRoot parent => fst <$> new_root_from db parent
  end.

Fixpoint db_run_all (beyond : Z) (db : triedb) (ops : list db_op) : res triedb :=
  match ops with
  | [] => Ok db
  | op :: ops => db ← db_run beyond db op; db_run_all beyond db ops
  end.

(** The identifier a call gives to a new version: [new_root()] takes the stream
    position as it happens to be, [new_root(parent)] the end of the file. *)
Definition fresh_id (db : triedb) (op : db_op) : Z :=
  match op with OpNew => roots_pos db | _ => roots_end db end.

(** Arguments in the range of their C++ types; a new version's height must fit
    in the 32-bit field of its record. *)
Definition op_ok (db : triedb) (op : db_op) : Prop :=
  match op with
  | OpInsert _ key data | OpUpdate _ key data => is_word 64 key /\ data_fits data
  | OpRemove _ key => is_word 64 key
  | OpNewRoot parent => forall r, roots db !! parent = Some r -> is_word 32 (r_height r + 1)
  | OpNew => True
  end.

Record refines (db : triedb) (s : versions) : Prop := Refines {
  rf_ok : db_ok db;
  rf_dom : forall id, roots db !! id = None -> s !! id = None;
  rf_root : forall id r, roots db !! id = Some r -> exists m, s !! id = Some m /\
    (forall k, root_map db id k = m !! k) /\ r_num_entries r = w64 (Z.of_nat (size m))
}.

(** ** Simulation *)

Section sim.
Hypothesis blake2b_length : forall bs, length (blake2b bs) = 32%nat.
Hypothesis blake2b_bytes : forall bs, are_bytes (blake2b bs).

Lemma refines_changed db db' s id m m' mk num :
  refines db s -> s !! id = Some m -> is_Some (roots db !! id) ->
  root_changed db db' id mk num ->
  (forall k, mk k = m' !! k) -> num = w64 (Z.of_nat (size m')) ->
  refines db' (<[id := m']> s).
Proof.
  intros [Hok Hdom Hroot] Hs [r Hr] [Hok' Hmap Ho Hrec Hnum] Hm' Hn. split; [done| |].
  - intros id' Hid'. destruct (decide (id' = id)) as [->|Hne].
    + destruct (Hnum r Hr) as (r' & Hr' & _). by rewrite Hr' in Hid'.
    + rewrite lookup_insert_ne by done. apply Hdom. by rewrite <-Hrec.
  - intros id' r' Hr'. destruct (decide (id' = id)) as [->|Hne].
    + destruct (Hnum r Hr) as (r2 & Hr2 & Hn2 & _). rewrite Hr2 in Hr'. injection Hr' as <-.
      exists m'. rewrite lookup_insert_eq. split; [done|]. split; [|congruence].
      intros k. by rewrite Hmap.
    + rewrite Hrec in Hr' by done. destruct (Hroot id' r' Hr') as (m0 & Hm0 & Hk & Hsz).
      exists m0. rewrite lookup_insert_ne by done. split; [done|]. split; [|done].
      intros k. by rewrite Ho.
Qed.

Lemma refines_lookup db s id :
  refines db s ->
  (roots db !! id = None /\ s !! id = None) \/
  exists r m, roots db !! id = Some r /\ s !! id = Some m /\
    (forall k, root_map db id k = m !! k) /\ r_num_entries r = w64 (Z.of_nat (size m)).
Proof.
  intros [_ Hdom Hroot]. destruct (roots db !! id) as [r|] eqn:E; [right|left; auto].
  destruct (Hroot id r E) as (m & ?). by exists r, m.
Qed.

Lemma put_insert (m : version_map) key data mk k :
  (forall k, mk k = m !! k) -> put key data mk k = <[key := data]> m !! k.
Proof.
  intros H. unfold put. case_decide as E; [subst; by rewrite lookup_insert_eq|].
  by rewrite lookup_insert_ne.
Qed.

Lemma drop_delete (m : version_map) key mk k :
  (forall k, mk k = m !! k) -> drop_key key mk k = delete key m !! k.
Proof.
  intros H. unfold drop_key. case_decide as E; [subst; by rewrite lookup_delete_eq|].
  by rewrite lookup_delete_ne.
Qed.

Lemma wrap_add w a b : 0 <= w -> wrap w (wrap w a + b) = wrap w (a + b).
Proof. intros. rewrite !wrap_mod by done. by rewrite Z.add_mod_idemp_l by lia. Qed.

Lemma wrap_sub w a b : 0 <= w -> wrap w (wrap w a - b) = wrap w (a - b).
Proof. intros. rewrite !wrap_mod by done. by rewrite Zminus_mod_idemp_l. Qed.

(** [insert] and [update] store the pair. *)
Lemma store_sim db s id r m key data ins :
  refines db s -> roots db !! id = Some r -> s !! id = Some m ->
  (forall k, root_map db id k = m !! k) -> r_num_entries r = w64 (Z.of_nat (size m)) ->
  is_word 64 key -> data_fits data -> (ins = true -> m !! key = None) ->
  exists db', insert_or_update blake2b db id key data ins = Ok db' /\
              refines db' (<[id := <[key := data]> m]> s).
Proof.
  intros Href Hr Hs Hm Hn Hk Hfit Hins.
  destruct (insert_or_update_correct blake2b blake2b_length blake2b_bytes db id r key data ins)
    as (db' & Hdb' & Hch); [apply Href|done..|by intros; rewrite Hm; auto|].
  exists db'. split; [done|]. eapply refines_changed; [done|done|by eexists|done| |].
  - intros k. by apply put_insert.
  - rewrite Hm, Hn. destruct (decide (m !! key = None)) as [E|E].
    + rewrite wrap_add by done. f_equal. rewrite map_size_insert_None by done. lia.
    + f_equal. apply not_eq_None_Some in E. by rewrite map_size_insert_Some.
Qed.

Lemma remove_sim beyond db s id r m key :
  refines db s -> roots db !! id = Some r -> s !! id = Some m ->
  (forall k, root_map db id k = m !! k) -> r_num_entries r = w64 (Z.of_nat (size m)) ->
  is_word 64 key -> is_Some (m !! key) ->
  exists db', remove blake2b beyond db id key = Ok db' /\
              refines db' (<[id := delete key m]> s).
Proof.
  intros Href Hr Hs Hm Hn Hk [d Hd].
  destruct (remove_present blake2b blake2b_length blake2b_bytes beyond db id r key d)
    as (db' & Hdb' & Hch); [apply Href|done|done|by rewrite Hm|].
  exists db'. split; [done|]. eapply refines_changed; [done|done|by eexists|done| |].
  - intros k. by apply drop_delete.
  - rewrite Hn, wrap_sub by done. f_equal.
    pose proof (map_size_delete key m) as Hsz. rewrite Hd in Hsz. rewrite Hsz.
    assert (size m <> 0%nat); [|lia]. apply map_size_ne_0_lookup. eauto.
Qed.

Lemma new_root_sim db s parent r m :
  refines db s -> roots db !! parent = Some r -> s !! parent = Some m ->
  (forall k, root_map db parent k = m !! k) -> r_num_entries r = w64 (Z.of_nat (size m)) ->
  is_word 32 (r_height r + 1) ->
  exists db', fst <$> new_root_from db parent = Ok db' /\
              refines db' (<[roots_end db := m]> s).
Proof.
  intros [Hok Hdom Hroot] Hr Hs Hm Hn Hh.
  destruct (new_root_from_correct db parent r Hok Hr Hh)
    as (db' & -> & Hok' & Hfresh & Hmap & Ho & Hrec & Hrecs).
  exists db'. split; [done|]. split; [done| |].
  - intros id Hid. destruct (decide (id = roots_end db)) as [->|Hne].
    + by rewrite Hrec in Hid.
    + rewrite lookup_insert_ne by done. apply Hdom. by rewrite <-Hrecs.
  - intros id r' Hr'. destruct (decide (id = roots_end db)) as [->|Hne].
    + rewrite Hrec in Hr'. injection Hr' as <-. exists m. rewrite lookup_insert_eq.
      split; [done|]. split; [|done]. intros k. by rewrite Hmap.
    + rewrite Hrecs in Hr' by done. destruct (Hroot id r' Hr') as (m0 & Hm0 & Hk & Hsz).
      exists m0. rewrite lookup_insert_ne by done. split; [done|]. split; [|done].
      intros k. by rewrite Ho.
Qed.

Lemma new_root_any_sim db s :
  refines db s ->
  exists db', fst <$> new_root blake2b db = Ok db' /\ refines db' (<[roots_pos db := ∅]> s).
Proof.
  intros [Hok Hdom Hroot].
  destruct (new_root_correct blake2b blake2b_length blake2b_bytes db Hok)
    as (db' & -> & Hok' & Hmap & Ho & Hrecs & r & Hr & Hh & Hn).
  exists db'. split; [done|]. split; [done| |].
  - intros id' Hid'. destruct (decide (id' = roots_pos db)) as [->|Hne]; [by rewrite Hr in Hid'|].
    rewrite lookup_insert_ne by done. apply Hdom. by rewrite <-Hrecs.
  - intros id' r' Hr'. destruct (decide (id' = roots_pos db)) as [->|Hne].
    + rewrite Hr in Hr'. injection Hr' as <-. exists ∅.
      rewrite lookup_insert_eq. split; [done|]. split; [|by rewrite Hn].
      intros k. by rewrite Hmap, lookup_empty.
    + rewrite Hrecs in Hr' by done. destruct (Hroot id' r' Hr') as (m0 & Hm0 & Hk & Hsz).
      exists m0. rewrite lookup_insert_ne by done. split; [done|]. split; [|done].
      intros k. by rewrite Ho.
Qed.

(** The root a call reads. *)
Definition op_root (op : db_op) : option Z :=
  match op with
  | OpInsert i _ _ | OpUpdate i _ _ | OpRemove i _ | OpNewRoot i => Some i
  | OpNew => None
  end.

(** An unknown root is refused. *)
Lemma unknown_root beyond db op id :
  op_root op = Some id -> roots db !! id = None -> exists e, db_run beyond db op = Throw e.
Proof.
  destruct op as [|i ? ?|i ? ?|i ?|i]; cbn [op_root db_run]; [done|intros [= ->] Hr..];
    unfold insert, update, insert_or_update, remove, new_root_from, get_root;
    rewrite Hr; cbn [of_option]; eexists; reflexivity.
Qed.

Lemma unknown_version fresh s op id :
  op_root op = Some id -> s !! id = None -> spec_run fresh s op = None.
Proof. destruct op; cbn [op_root spec_run]; [done|by intros [= ->] ->..]. Qed.

(** The simulation behind the properties below. *)
Lemma db_run_sim beyond db s op :
  refines db s -> op_ok db op ->
  match spec_run (fresh_id db op) s op with
  | Some s' => exists db', db_run beyond db op = Ok db' /\ refines db' s'
  | None => exists e, db_run beyond db op = Throw e
  end.
Proof.
  intros Href Hop. destruct (op_root op) as [at_root|] eqn:Hat.
  2: { destruct op; try done. by apply new_root_any_sim. }
  destruct (refines_lookup db s at_root Href) as [[Hr Hs]|(r & m & Hr & Hs & Hm & Hn)].
  { rewrite (unknown_version _ _ _ _ Hat Hs). by eapply unknown_root. }
  destruct op as [|id key data|id key data|id key|id]; [done|injection Hat as ->..];
    cbn [spec_run db_run fresh_id] in *; rewrite Hs; cbn [mbind option_bind].
  - destruct Hop as [Hk Hfit]. destruct (m !! key) as [d|] eqn:E; case_guard; try done.
    + exists (KeyAlreadyExists key).
      by eapply insert_present; [..|apply Href|exact Hr|exact Hk|rewrite Hm].
    + by eapply store_sim.
  - destruct Hop as [Hk Hfit]. by eapply store_sim.
  - destruct (m !! key) as [d|] eqn:E.
    + rewrite option_guard_True by done. cbn [mbind option_bind]. by eapply remove_sim.
    + rewrite option_guard_False by (by intros [? ?]). cbn [mbind option_bind].
      destruct (remove_absent blake2b beyond db at_root r key (rf_ok _ _ Href) Hr) as [->| ->]; eauto.
      by rewrite Hm.
  - eapply new_root_sim; try done. by apply Hop.
Qed.

(** A run that succeeds follows the abstract database, whatever the heights. *)
Definition args_ok (op : db_op) : Prop :=
  match op with
  | OpInsert _ key data | OpUpdate _ key data => is_word 64 key /\ data_fits data
  | OpRemove _ key => is_word 64 key
  | OpNewRoot _ | OpNew => True
  end.

Lemma db_run_Ok beyond db s op db' :
  refines db s -> args_ok op -> db_run beyond db op = Ok db' ->
  exists s', spec_run (fresh_id db op) s op = Some s' /\ refines db' s'.
Proof.
  intros Href Hargs Hrun. assert (Hop : op_ok db op).
  { destruct op as [|id key data|id key data|id key|id]; try done.
    intros r Hr. cbn [db_run] in Hrun. destruct (new_root_from db id) eqn:E; [|done].
    by eapply new_root_from_height. }
  pose proof (db_run_sim beyond db s op Href Hop) as Hsim.
  destruct (spec_run (fresh_id db op) s op) as [s'|].
  - destruct Hsim as (db2 & Hdb2 & Hs'). rewrite Hdb2 in Hrun. injection Hrun as ->. by exists s'.
  - destruct Hsim as [e He]. by rewrite He in Hrun.
Qed.

(** The root whose map a call sets: [new_root()] sets the map of the identifier
    it issues, which may be in use. *)
Definition writes (db : triedb) (op : db_op) : option Z :=
  match op with
  | OpNew => Some (roots_pos db)
  | OpInsert i _ _ | OpUpdate i _ _ | OpRemove i _ => Some i
  | OpNewRoot _ => None
  end.

(** No call of the sequence sets the map of [id]. *)
Fixpoint leaves_alone (beyond id : Z) (db : triedb) (ops : list db_op) : Prop :=
  match ops with
  | [] => True
  | op :: ops => writes db op <> Some id /\
      forall db', db_run beyond db op = Ok db' -> leaves_alone beyond id db' ops
  end.

Lemma spec_run_other db s op s' id m :
  spec_run (fresh_id db op) s op = Some s' -> s !! id = Some m -> writes db op <> Some id ->
  id <> roots_end db -> s' !! id = Some m.
Proof.
  intros Hs Hm Hw Hf. destruct op; cbn [spec_run writes fresh_id] in *; simplify_option_eq;
    rewrite lookup_insert_ne by congruence; done.
Qed.

(** Databases a client can build: an empty one, and whatever the operations
    return.  An operation that throws does so before it touches a root, but it
    may have appended nodes. *)
Inductive reachable (beyond : Z) : triedb -> Prop :=
  | reach_empty hashing sz : 0 < sz -> reachable beyond (triedb_empty hashing sz)
  | reach_run db db' op : reachable beyond db -> args_ok op ->
      db_run beyond db op = Ok db' -> reachable beyond db'
  | reach_throw db db' op e : reachable beyond db -> db_run beyond db op = Throw e ->
      extends db db' -> reachable beyond db'.

Lemma empty_refines hashing sz : 0 < sz -> refines (triedb_empty hashing sz) ∅.
Proof.
  intros Hsz. split; [by apply triedb_empty_ok|done|]. intros id r Hr.
  change ((∅ : gmap Z triedb_root) !! id = Some r) in Hr. by rewrite lookup_empty in Hr.
Qed.

Lemma refines_extends db db' s : refines db s -> extends db db' -> refines db' s.
Proof.
  intros [Hok Hdom Hroot] He. split; [by eapply db_ok_extends| |].
  - intros id. rewrite (ex_roots _ _ He). apply Hdom.
  - intros id r. rewrite (ex_roots _ _ He). intros Hr. destruct (Hroot id r Hr) as (m & Hm & Hk & Hn).
    exists m. split; [done|]. split; [|done]. intros k. by rewrite (root_map_extends db) by done.
Qed.

Lemma reachable_refines beyond db : reachable beyond db -> exists s, refines db s.
Proof.
  induction 1 as [hashing sz Hsz|db db' op Hdb [s Hs] Hargs Hrun|db db' op e Hdb [s Hs] Hrun He].
  - exists ∅. by apply empty_refines.
  - destruct (db_run_Ok beyond db s op db' Hs Hargs Hrun) as (s' & _ & Hs'). by exists s'.
  - exists s. by eapply refines_extends.
Qed.

End sim.
End hashing.

(** ** The correctness of the database *)

Section properties.
Context (blake2b : list Z -> list Z).
Hypothesis blake2b_length : forall bs, length (blake2b bs) = 32%nat.
Hypothesis blake2b_bytes : forall bs, are_bytes (blake2b bs).

(** C1: the trie database implements versioned finite maps.  In a database that
    refines an abstract one, every call whose abstract counterpart is defined
    returns, and the resulting database refines the abstract result: the map and
    the entry count of the root are updated, all other roots keep theirs.  Every
    other call throws.  The calls are [new_root()], [new_root(parent)],
    [insert], [update] and [remove]; the identifier [new_root()] issues is the
    position of the roots stream, and a root that has it already is replaced by
    one with the empty map. *)
Theorem triedb_implements_versions beyond db s op :
  refines db s -> op_ok db op ->
  match spec_run (fresh_id db op) s op with
  | Some s' => exists db', db_run blake2b beyond db op = Ok db' /\ refines db' s'
  | None => exists e, db_run blake2b beyond db op = Throw e
  end.
Proof. by apply db_run_sim. Qed.

(** C2: every database that clients reach represents finite maps: calls that return,
    [new_root()] at any position of the stream included, keep the trie invariant,
    lose no node and count the entries right, and so do the nodes that a call
    appends before it throws. *)
Theorem reachable_databases_refine beyond db :
  reachable blake2b beyond db -> exists s, refines db s.
Proof. by apply reachable_refines. Qed.

(** C3: snapshots persist.  After any sequence of calls that return and do not
    set the map of root [id], the root's map is what it was, although nodes are
    shared with the roots that were written.  A [new_root()] that issues [id]
    again sets its map. *)
Theorem snapshots_persist beyond db ops db' id r key :
  reachable blake2b beyond db -> roots db !! id = Some r ->
  Forall args_ok ops -> leaves_alone blake2b beyond id db ops ->
  db_run_all blake2b beyond db ops = Ok db' ->
  root_map db' id key = root_map db id key.
Proof.
  intros Hreach Hr Hargs Hw Hrun.
  destruct (reachable_refines blake2b blake2b_length blake2b_bytes beyond db Hreach) as [s Hs].
  clear Hreach. revert db r s Hr Hs Hw Hrun. induction ops as [|op ops IH]; intros db r s Hr Hs Hw Hrun.
  { by injection Hrun as ->. }
  apply Forall_cons in Hargs as [Ha Hargs]. destruct Hw as [Hwo Hw].
  cbn [db_run_all] in Hrun. apply bind_Ok in Hrun as (db1 & Hop & Hrun). specialize (Hw db1 Hop).
  destruct (db_run_Ok blake2b blake2b_length blake2b_bytes beyond db s op db1 Hs Ha Hop)
    as (s1 & Hs1 & Href1).
  destruct (rf_root _ _ Hs id r Hr) as (m & Hm & Hmap & _).
  assert (Hne : id <> roots_end db).
  { pose proof (ro_high _ _ _ (do_roots _ (rf_ok _ _ Hs) id r Hr)).
    unfold root_serialization_size in *. lia. }
  pose proof (spec_run_other _ _ _ _ _ _ Hs1 Hm Hwo Hne) as Hm1.
  destruct (roots db1 !! id) as [r1|] eqn:Hr1.
  - rewrite (IH Hargs db1 r1 s1 Hr1 Href1 Hw Hrun).
    destruct (rf_root _ _ Href1 id r1 Hr1) as (m1 & Hm1' & Hmap1 & _).
    rewrite Hmap, Hmap1. congruence.
  - by rewrite (rf_dom _ _ Href1 id Hr1) in Hm1.
Qed.

(** the failures of [insert] and [remove].  Inserting a key that is present
    throws [triedb_key_already_exists_exception]; removing one that is absent
    throws one of the two key exceptions. *)
Theorem insert_remove_errors beyond db id r key data :
  db_ok db -> roots db !! id = Some r -> is_word 64 key ->
  (is_Some (root_map db id key) -> insert blake2b db id key data = Throw (KeyAlreadyExists key)) /\
  (root_map db id key = None ->
     remove blake2b beyond db id key = Throw (KeyNotFound key) \/
     remove blake2b beyond db id key = Throw (KeyAlreadyExists key)).
Proof.
  intros Hdb Hr Hk. split.
  - intros [d Hd]. by eapply insert_present.
  - intros. by eapply remove_absent.
Qed.

End properties.

(** ** Concrete databases *)

(** A stand-in for the digest, to run the definitions on. *)
Definition checksum (bs : list Z) : list Z := w8 (foldr Z.add 0 bs) :: replicate 31 0.

Lemma checksum_length bs : length (checksum bs) = 32%nat.
Proof. done. Qed.
Lemma checksum_bytes bs : are_bytes (checksum bs).
Proof.
  constructor; [by apply wrap_word|]. apply Forall_replicate. by split.
Qed.

Definition ok_or {A} (d : A) (r : res A) : A := match r with Ok a => a | Throw _ => d end.

(** One root, number 20, with an empty map. *)
Definition example_db : triedb :=
  ok_or (triedb_empty true 65536) (fst <$> new_root checksum (triedb_empty true 65536)).
(** Keys 1 and 33 share their low five bits. *)
Definition example_ops : list db_op :=
  [OpInsert 20 1 [10]; OpInsert 20 33 [20]; OpNewRoot 20].
Definition example_db2 : triedb := ok_or example_db (db_run_all checksum 0 example_db example_ops).

Lemma example_reachable : reachable checksum 0 example_db.
Proof.
  eapply (reach_run _ _ (triedb_empty true 65536) _ OpNew); [by constructor|done|].
  by vm_compute.
Qed.

Lemma example_refines : refines example_db (<[20 := ∅]> ∅).
Proof.
  destruct (new_root_any_sim checksum checksum_length checksum_bytes (triedb_empty true 65536) ∅)
    as (db & Hdb & Href); [by apply empty_refines|].
  vm_compute in Hdb. injection Hdb as <-. exact Href.
Qed.

Lemma small_data (x : Z) : 0 <= x < 256 -> data_fits [x].
Proof. intros. split; [by constructor|done]. Qed.

Lemma example_args : Forall args_ok example_ops.
Proof. repeat constructor; cbn; try lia. Qed.

Lemma example_reachable2 : reachable checksum 0 example_db2.
Proof.
  destruct (db_run checksum 0 example_db (OpInsert 20 1 [10])) as [db1|] eqn:E1; [|by vm_compute in E1].
  destruct (db_run checksum 0 db1 (OpInsert 20 33 [20])) as [db2|] eqn:E2;
    [|exfalso; vm_compute in E1; injection E1 as <-; by vm_compute in E2].
  pose proof example_args as [A1 [A2 [A3 _]%Forall_cons]%Forall_cons]%Forall_cons.
  eapply (reach_run _ _ db2 _ (OpNewRoot 20)); [|done|].
  - eapply reach_run; [|exact A2|exact E2]. eapply reach_run; [|exact A1|exact E1].
    apply example_reachable.
  - vm_compute in E1. injection E1 as <-. vm_compute in E2. injection E2 as <-. by vm_compute.
Qed.

Lemma example_op_ok : op_ok example_db (OpInsert 20 7 [1]).
Proof. split; [by split|apply small_data; lia]. Qed.

Lemma triedb_implements_versions_witness :
  exists db', db_run checksum 0 example_db (OpInsert 20 7 [1]) = Ok db' /\
              refines db' (<[20 := <[7 := [1]]> ∅]> (<[20 := ∅]> ∅)).
Proof.
  exact (triedb_implements_versions checksum checksum_length checksum_bytes 0 example_db
    (<[20 := ∅]> ∅) (OpInsert 20 7 [1]) example_refines example_op_ok).
Defined.

Lemma reachable_databases_refine_witness : exists s, refines example_db2 s.
Proof.
  exact (reachable_databases_refine checksum checksum_length checksum_bytes 0 example_db2
    example_reachable2).
Defined.

(** Writing to root 52 and making a new root, number 84, leave root 20 alone. *)
Lemma snapshots_persist_witness :
  root_map (ok_or example_db (db_run_all checksum 0 example_db2 [OpUpdate 52 1 [11]; OpNew; OpRemove 52 33])) 20 1
  = Some [10].
Proof.
  transitivity (root_map example_db2 20 1); [|by vm_compute].
  eapply (snapshots_persist checksum checksum_length checksum_bytes 0 example_db2
    [OpUpdate 52 1 [11]; OpNew; OpRemove 52 33]).
  - apply example_reachable2.
  - by vm_compute.
  - repeat constructor; cbn; lia.
  - split; [done|]. intros db1 H1. vm_compute in H1. injection H1 as <-.
    split; [done|]. intros db2 H2. vm_compute in H2. injection H2 as <-. by split.
  - by vm_compute.
Defined.

Lemma insert_remove_errors_witness :
  insert checksum example_db2 20 33 [5] = Throw (KeyAlreadyExists 33) /\
  (remove checksum 0 example_db2 20 2 = Throw (KeyNotFound 2) \/
   remove checksum 0 example_db2 20 2 = Throw (KeyAlreadyExists 2)).
Proof.
  destruct (reachable_refines checksum checksum_length checksum_bytes 0 example_db2 example_reachable2)
    as [s Hs].
  destruct (roots example_db2 !! 20) as [r|] eqn:Hr; [|by vm_compute in Hr].
  split.
  - eapply (insert_remove_errors checksum checksum_length checksum_bytes 0 example_db2 20 r 33 [5]);
      [apply Hs|exact Hr|by split|]. vm_compute. by eexists.
  - eapply (insert_remove_errors checksum checksum_length checksum_bytes 0 example_db2 20 r 2 [5]);
      [apply Hs|exact Hr|by split|]. by vm_compute.
Defined.

(** an identifier can be issued twice.  [new_root()] takes its identifier from
    [tellg()] before it seeks to the end of the roots file; after a write to root
    20 the stream stands behind its record, which is where the record of root 52
    begins: a client that calls [new_root()] then gets 52 again, and the map of
    root 52 is lost. *)
Theorem new_root_reuses_identifier :
  exists db db',
    reachable checksum 0 db /\ root_map db 52 1 = Some [10] /\
    new_root checksum db = Ok (db', 52) /\ root_map db' 52 1 = None.
Proof.
  destruct (db_run checksum 0 example_db2 (OpUpdate 20 1 [12])) as [db|] eqn:E; [|by vm_compute in E].
  exists db, (ok_or db (fst <$> new_root checksum db)). split.
  - eapply reach_run; [apply example_reachable2| |exact E]. split; [by split|apply small_data; lia].
  - vm_compute in E. injection E as <-. by vm_compute.
Qed.

(** [remove] of an absent key whose path ends in another key's leaf throws the
    exception for a key that already exists. *)
Theorem remove_absent_key_exception :
  exists db, reachable checksum 0 db /\ root_map db 20 97 = None /\
    remove checksum 0 db 20 97 = Throw (KeyAlreadyExists 97).
Proof.
  destruct (db_run checksum 0 example_db (OpInsert 20 1 [10])) as [db|] eqn:E; [|by vm_compute in E].
  exists (ok_or db (db_run checksum 0 db (OpInsert 20 98 [10]))).
  destruct (db_run checksum 0 db (OpInsert 20 98 [10])) as [db1|] eqn:E1.
  2: { vm_compute in E. injection E as <-. by vm_compute in E1. }
  cbn [ok_or]. split.
  - eapply (reach_run _ _ db); [eapply reach_run; [apply example_reachable| |exact E]| |exact E1];
      (split; [by split|apply small_data; lia]).
  - vm_compute in E. injection E as <-. vm_compute in E1. injection E1 as <-. by vm_compute.
Qed.
