(* ===== verification/TrieIter.v ===== *)
(** * Iterators over the trie database ([triedb_iterator] and [triedb::find])

    An iterator is the path from the root branch to a leaf: a stack of cursors,
    each a branch, its file offset and the sub-index taken.  The top of the stack
    is the head of the list.  [leftmost] and [next] call each other while they
    skip empty branches, so they share their fuel. *)

From S2P Require Import Prelude Bits Sparse TrieNode TrieDb.

Record cursor := Cursor {
  cu_parent : triedb_branch;
  cu_parent_ptr : Z;
  cu_sub_index : Z
}.

Definition with_sub_index (c : cursor) (i : Z) : cursor := Cursor (cu_parent c) (cu_parent_ptr c) i.

Definition cursor_eqb (c d : cursor) : bool :=
  (cu_parent_ptr c =? cu_parent_ptr d) && (cu_sub_index c =? cu_sub_index d).

Definition spine := list cursor.

Definition at_end (s : spine) : bool := match s with [] => true | _ => false end.

(** [operator ==] *)
Fixpoint spine_eqb (s t : spine) : bool :=
  match s, t with
  | [], [] => true
  | c :: s, d :: t => cursor_eqb c d && spine_eqb s t
  | _, _ => false
  end.
Definition iterator_eqb (s t : spine) : bool :=
  if at_end t then at_end s else spine_eqb s t.

Section iterator.
Context (db : triedb).

(** [while (!spine_.empty() && parent->mask() == 0) pop_back()] *)
Fixpoint skip_empty (s : spine) : res spine :=
  match s with
  | [] => Ok []
  | c :: s' =>
      parent ← get_branch_at db (cu_parent_ptr c);
      if b_mask parent =? 0 then skip_empty s' else Ok s
  end.

(** [while (parent->is_branch(sub_index))]: [false] when it meets an empty branch.
    [pick] is [lsb] or [msb]. *)
Fixpoint descend (pick : Z -> Z) (fuel : nat) (parent : triedb_branch) (i : Z) (s : spine)
    : res (spine * bool) :=
  match fuel with
  | O => Throw OutOfFuel
  | S fuel =>
      if is_branch parent i then
        parent_ptr ← get_child_pointer parent i;
        parent ← get_branch_at db parent_ptr;
        if b_mask parent =? 0 then Ok (s, false)
        else
          let i := pick (b_mask parent) in
          descend pick fuel parent i (Cursor parent parent_ptr i :: s)
      else Ok (s, true)
  end.

(** The loop of [next]: the first cursor with another child. *)
Fixpoint pop_next (s : spine) : res spine :=
  match s with
  | [] => Ok []
  | c :: s =>
      parent ← get_branch_at db (cu_parent_ptr c);
      let m := mask_next (b_mask parent) (cu_sub_index c) in
      if m =? 0 then pop_next s else Ok (with_sub_index c (lsb32 m) :: s)
  end.

Fixpoint pop_previous (s : spine) : res spine :=
  match s with
  | [] => Ok []
  | c :: s =>
      parent ← get_branch_at db (cu_parent_ptr c);
      let m := mask_prev (b_mask parent) (cu_sub_index c) in
      if m =? 0 then pop_previous s else Ok (with_sub_index c (msb32 m) :: s)
  end.

Fixpoint leftmost (fuel : nat) (s : spine) : res spine :=
  match fuel with
  | O => Throw OutOfFuel
  | S fuel =>
      s ← skip_empty s;
      match s with
      | [] => Ok []
      | c :: _ =>
          parent ← get_branch_at db (cu_parent_ptr c);
          '(s, found) ← descend lsb32 MAX_DEPTH parent (cu_sub_index c) s;
          if (found : bool) then Ok s else next fuel s
      end
  end
with next (fuel : nat) (s : spine) : res spine :=
  match fuel with
  | O => Throw OutOfFuel
  | S fuel =>
      match s with
      | [] => Throw UndefinedBehaviour
      | _ =>
          s ← pop_next s;
          match s with [] => Ok [] | _ => leftmost fuel s end
      end
  end.

(** [root_ptr] is the root branch of the iterator, where a step back from the end
    starts. *)
Fixpoint rightmost (fuel : nat) (root_ptr : Z) (s : spine) : res spine :=
  match fuel with
  | O => Throw OutOfFuel
  | S fuel =>
      s ← skip_empty s;
      match s with
      | [] => Ok []
      | c :: _ =>
          parent ← get_branch_at db (cu_parent_ptr c);
          '(s, found) ← descend msb32 MAX_DEPTH parent (cu_sub_index c) s;
          if (found : bool) then Ok s else previous fuel root_ptr s
      end
  end
with previous (fuel : nat) (root_ptr : Z) (s : spine) : res spine :=
  match fuel with
  | O => Throw OutOfFuel
  | S fuel =>
      match s with
      | [] =>
          if bool_decide (roots db = ∅) then Ok []
          else
            parent ← get_branch_at db root_ptr;
            if b_mask parent =? 0 then Ok []
            else rightmost fuel root_ptr [Cursor parent root_ptr (msb32 (b_mask parent))]
      | _ =>
          s ← pop_previous s;
          match s with [] => Ok [] | _ => rightmost fuel root_ptr s end
      end
  end.

(** [operator *] *)
Definition iterator_leaf (s : spine) : res triedb_leaf :=
  match s with
  | [] => Throw UndefinedBehaviour
  | c :: _ =>
      parent ← get_branch_at db (cu_parent_ptr c);
      get_leaf db parent (cu_sub_index c)
  end.

(** [begin(at_root)] *)
Definition iterator_begin (fuel : nat) (at_root : Z) : res spine :=
  if bool_decide (roots db = ∅) then Ok []
  else
    root ← get_root db at_root;
    let parent_ptr := r_ptr root in
    parent ← get_branch_at db parent_ptr;
    if b_mask parent =? 0 then Ok []
    else leftmost fuel [Cursor parent parent_ptr (lsb32 (b_mask parent))].

Fixpoint adjust (fuel : nat) (s : spine) (key : Z) : res spine :=
  match s with
  | [] => Ok []
  | _ =>
      match fuel with
      | O => Throw OutOfFuel
      | S fuel' =>
          leaf ← iterator_leaf s;
          if key <=? l_key leaf then Ok s
          else s ← next fuel s; adjust fuel' s key
      end
  end.

(** [while (!parent->is_empty(sub_index) && parent->is_branch(sub_index))]: the
    branch and sub-index where the loop stops, with the cursors pushed. *)
Fixpoint descend_key (fuel : nat) (parent : triedb_branch) (parent_ptr i key : Z) (s : spine)
    : res (triedb_branch * Z * Z * spine) :=
  match fuel with
  | O => Throw OutOfFuel
  | S fuel =>
      if negb (is_empty parent i) && is_branch parent i then
        let s := Cursor parent parent_ptr i :: s in
        parent_ptr ← get_child_pointer parent i;
        parent ← get_branch_at db parent_ptr;
        i ← sub_index (b_depth parent) key;
        descend_key fuel parent parent_ptr i key s
      else Ok (parent, parent_ptr, i, s)
  end.

Definition start_from_key (fuel : nat) (parent_ptr key : Z) : res spine :=
  parent ← get_branch_at db parent_ptr;
  i ← sub_index (b_depth parent) key;
  if b_depth parent * MAX_BRANCH_BITS <=? msb64 key then Ok []
  else if is_empty parent i then
    let m := mask_next (b_mask parent) i in
    if m =? 0 then Ok []
    else
      s ← leftmost fuel [Cursor parent parent_ptr (lsb32 m)];
      adjust fuel s key
  else
    '(parent, parent_ptr, i, s) ← descend_key MAX_DEPTH parent parent_ptr i key [];
    if is_empty parent i then
      let m := mask_next (b_mask parent) i in
      if m =? 0 then
        s ← next fuel (Cursor parent parent_ptr (MAX_BRANCH - 1) :: s);
        adjust fuel s key
      else
        s ← leftmost fuel (Cursor parent parent_ptr (lsb32 m) :: s);
        adjust fuel s key
    else adjust fuel (Cursor parent parent_ptr i :: s) key.

(** [begin(at_root, key)] *)
Definition iterator_begin_key (fuel : nat) (at_root key : Z) : res spine :=
  if bool_decide (roots db = ∅) then Ok []
  else root ← get_root db at_root; start_from_key fuel (r_ptr root) key.

(** [find]: the leaf, with the path to it from the root down. *)
Definition find (fuel : nat) (at_root key : Z)
    : res (option (triedb_leaf * list (triedb_branch * Z))) :=
  if at_root =? 0 then Ok None
  else
    it ← iterator_begin_key fuel at_root key;
    if iterator_eqb it [] then Ok None
    else
      leaf ← iterator_leaf it;
      if negb (l_key leaf =? key) then Ok None
      else Ok (Some (leaf, rev ((fun c => (cu_parent c, cu_sub_index c)) <$> it))).

(** [for (it = begin; it != end; ++it) visit( *it)]: the leaves visited. *)
Fixpoint iterate (steps fuel : nat) (s : spine) : res (list triedb_leaf) :=
  if iterator_eqb s [] then Ok []
  else
    match steps with
    | O => Throw OutOfFuel
    | S steps =>
        leaf ← iterator_leaf s;
        s ← next fuel s;
        ls ← iterate steps fuel s;
        Ok (leaf :: ls)
    end.

(** The same from the end backwards: [while (true) { --it; if (it == end) break; ... }] *)
Fixpoint iterate_back (steps fuel : nat) (root_ptr : Z) (s : spine) : res (list triedb_leaf) :=
  match steps with
  | O => Throw OutOfFuel
  | S steps =>
      s ← previous fuel root_ptr s;
      if iterator_eqb s [] then Ok []
      else
        leaf ← iterator_leaf s;
        ls ← iterate_back steps fuel root_ptr s;
        Ok (leaf :: ls)
  end.

End iterator.
