(* ===== verification/TrieWalk.v ===== *)
(** * Iterators visit the entries of a version in key order

    [walk] lists the nodes below a branch in the order of their sub-indices and
    [entries] the keys and values among them.  An iterator stands for the nodes it
    has still to visit ([rest]); [next] drops the first of them, and
    [start_from_key] starts at the first key that is not less than the given one. *)

From Stdlib Require Import Sorting.Sorted.
From S2P Require Import Prelude Bits Sparse TrieNode TrieDb TrieDbSpec TrieUpdate TrieRoots TrieMap TrieIter.

Section walk.
Context (ns : gmap Z node).
Implicit Types (b c : triedb_branch) (s : spine) (n : nat) (i j p key : Z).

(** ** The nodes below a branch *)

Definition child_node b i : option node := off ← ptr_at b i; ns !! off.

(** The branch itself comes before its children; [n] is its level. *)
Fixpoint walk n b : list node :=
  match n with
  | O => []
  | S n =>
      bits_from (b_mask b) 0 ≫= (fun i =>
        match child_node b i with
        | Some (NLeaf l) => [NLeaf l]
        | Some (NBranch c) => NBranch c :: walk n c
        | None => []
        end)
  end.

Definition child_walk n b i : list node :=
  match child_node b i with
  | Some (NLeaf l) => [NLeaf l]
  | Some (NBranch c) => NBranch c :: walk (pred n) c
  | None => []
  end.
Definition walk_from n b lo : list node := bits_from (b_mask b) lo ≫= child_walk n b.

Definition leaf_entry (nd : node) : option (Z * list Z) :=
  match nd with NLeaf l => Some (l_key l, cd_bytes (l_data l)) | NBranch _ => None end.
Definition entries (l : list node) : list (Z * list Z) := omap leaf_entry l.

Lemma walk_walk_from n b : (0 < n)%nat -> walk n b = walk_from n b 0.
Proof. by destruct n; [lia|]. Qed.

Lemma entries_app l l' : entries (l ++ l') = entries l ++ entries l'.
Proof. apply omap_app. Qed.

Lemma walk_from_skip n b lo :
  lo < 32 -> Z.testbit (b_mask b) lo = false -> walk_from n b lo = walk_from n b (lo + 1).
Proof. intros. unfold walk_from. by rewrite bits_from_skip. Qed.

Lemma walk_from_first n b lo i :
  0 <= lo <= i -> is_sub_index i -> Z.testbit (b_mask b) i = true ->
  (forall j, lo <= j < i -> Z.testbit (b_mask b) j = false) ->
  walk_from n b lo = child_walk n b i ++ walk_from n b (i + 1).
Proof. intros. unfold walk_from. rewrite (bits_from_lsb _ _ i) by done. done. Qed.

Lemma walk_from_none n b lo :
  0 <= lo -> (forall j, lo <= j < 32 -> Z.testbit (b_mask b) j = false) -> walk_from n b lo = [].
Proof. intros. unfold walk_from. by rewrite bits_from_none. Qed.

(** ** Keys and their order *)

Context (hz : Z).
Abbreviation ok := (trie_ok hz).

Lemma ok_child n p b i :
  ok (S n) ns p b -> is_sub_index i -> Z.testbit (b_mask b) i = true ->
  exists off, ptr_at b i = Some off /\
    ((Z.testbit (b_leaf b) i = true /\ exists l, child_node b i = Some (NLeaf l) /\ ns !! off = Some (NLeaf l) /\
        l_key l ≫ level_bits n = p * 32 + i) \/
     (Z.testbit (b_leaf b) i = false /\ exists c, child_node b i = Some (NBranch c) /\
        ns !! off = Some (NBranch c) /\ ok n ns (p * 32 + i) c)).
Proof.
  intros (Hs & _ & Hc) Hi Hm. destruct (proj2 (child_is_Some _ _ i (proj1 (proj2 Hs)) Hi) Hm) as [off Hoff].
  change (ptr_at b i = Some off) in Hoff. exists off. split; [done|]. specialize (Hc i off Hi Hoff).
  unfold child_node. rewrite Hoff. cbn [mbind option_bind].
  destruct (Z.testbit (b_leaf b) i); destruct Hc as (x & Hx & Hc); [left|right]; (split; [done|]);
    exists x; split_and!; done || apply Hc.
Qed.

Lemma ok_mask n p b : ok n ns p b -> is_word 32 (b_mask b).
Proof. destruct n; [done|]. intros ((_ & [? _] & _) & _). done. Qed.

Lemma ok_pos n p b : ok n ns p b -> (0 < n)%nat.
Proof. destruct n; [done|lia]. Qed.

(** All entries below a branch carry its prefix. *)
Definition has_prefix n p (kd : Z * list Z) : Prop := kd.1 ≫ level_bits n = p.

Lemma child_walk_prefix n p b i :
  (forall p b, ok n ns p b -> Forall (has_prefix n p) (entries (walk n b))) ->
  ok (S n) ns p b -> is_sub_index i -> Forall (has_prefix n (p * 32 + i)) (entries (child_walk (S n) b i)).
Proof.
  intros IH Hok Hi. unfold child_walk. destruct (Z.testbit (b_mask b) i) eqn:Hm.
  - destruct (ok_child n p b i Hok Hi Hm) as (off & _ & [(_ & l & -> & _ & Hk)|(_ & c & -> & _ & Hc)]).
    + repeat constructor. exact Hk.
    + by apply IH.
  - unfold child_node, ptr_at, child. rewrite Hm. constructor.
Qed.

Lemma walk_prefix n p b : ok n ns p b -> Forall (has_prefix n p) (entries (walk n b)).
Proof.
  revert p b. induction n as [|n IH]; intros p b Hok; [done|].
  rewrite walk_walk_from by lia. unfold walk_from, bits_from.
  assert (Hall : Forall is_sub_index (filter (fun j => Z.testbit (b_mask b) j = true) (seqZ 0 (32 - 0)))).
  { apply Forall_forall. intros j [_ Hj%elem_of_seqZ]%list_elem_of_filter. unfold is_sub_index. lia. }
  induction Hall as [|i l Hi _ IHl]; [constructor|]. cbn [mbind list_bind]. rewrite entries_app.
  apply Forall_app. split; [|done].
  eapply Forall_impl; [by apply child_walk_prefix|]. intros [k d] Hk. unfold has_prefix in *. cbn [fst] in *.
  destruct (sub_index_of_prefix n k p i Hi Hk) as [_ H]. done.
Qed.

(** Entries of smaller sub-indices come first and have smaller keys. *)
Lemma prefix_lt n p q k k' : p < q -> k ≫ level_bits n = p -> k' ≫ level_bits n = q -> k < k'.
Proof.
  intros Hpq Hk Hk'. destruct (decide (k < k')) as [|Hge]; [done|].
  assert (k' ≫ level_bits n <= k ≫ level_bits n); [|lia].
  rewrite !Z.shiftr_div_pow2 by (unfold level_bits; lia). apply Z.div_le_mono; [|lia].
  apply Z.pow_pos_nonneg; unfold level_bits; lia.
Qed.

Abbreviation key_lt := (fun x y : Z * list Z => x.1 < y.1).

Lemma StronglySorted_app_2 {A} (R : A -> A -> Prop) l l' :
  StronglySorted R l -> StronglySorted R l' -> (forall x y, x ∈ l -> y ∈ l' -> R x y) ->
  StronglySorted R (l ++ l').
Proof.
  induction 1 as [|x l Hl IH Hx]; intros Hl' HR; [done|]. cbn. constructor.
  - apply IH; [done|]. intros. apply HR; [by right|done].
  - apply Forall_app. split; [done|]. apply Forall_forall. intros y Hy. apply HR; [by left|done].
Qed.

Lemma walk_sorted n p b : ok n ns p b -> StronglySorted key_lt (entries (walk n b)).
Proof.
  revert p b. induction n as [|n IH]; intros p b Hok; [constructor|].
  rewrite walk_walk_from by lia. unfold walk_from.
  assert (Hgen : forall lo k, 0 <= lo -> lo + Z.of_nat k = 32 ->
    StronglySorted key_lt (entries (bits_from (b_mask b) lo ≫= child_walk (S n) b)) /\
    Forall (fun kd => exists j, lo <= j < 32 /\ has_prefix n (p * 32 + j) kd)
      (entries (bits_from (b_mask b) lo ≫= child_walk (S n) b))).
  { intros lo k. revert lo. induction k as [|k IHk]; intros lo Hlo Hk.
    - rewrite bits_from_none by lia. split; constructor.
    - destruct (IHk (lo + 1)) as [Hs Hp]; [lia..|].
      assert (Hp' : Forall (fun kd => exists j, lo <= j < 32 /\ has_prefix n (p * 32 + j) kd)
        (entries (bits_from (b_mask b) (lo + 1) ≫= child_walk (S n) b))).
      { eapply Forall_impl; [exact Hp|]. intros kd (j & ? & ?). exists j. split; [lia|done]. }
      destruct (Z.testbit (b_mask b) lo) eqn:Hm; [|by rewrite bits_from_skip by (done || lia)].
      rewrite bits_from_take by (done || lia). cbn [mbind list_bind]. rewrite entries_app.
      assert (Hi : is_sub_index lo) by (unfold is_sub_index; lia).
      pose proof (child_walk_prefix n p b lo (walk_prefix n) Hok Hi) as Hc. split.
      + apply StronglySorted_app_2; [|done|].
        * unfold child_walk.
          destruct (ok_child n p b lo Hok Hi Hm) as (off & _ & [(_ & l & -> & _ & _)|(_ & c & -> & _ & Hcok)]).
          -- repeat constructor.
          -- by eapply IH.
        * intros x y Hx Hy. rewrite Forall_forall in Hc, Hp. destruct (Hp y Hy) as (j & Hj & Hyj).
          eapply (prefix_lt n (p * 32 + lo) (p * 32 + j)); [lia|by apply Hc|done].
      + apply Forall_app. split; [|done]. eapply Forall_impl; [exact Hc|]. intros kd Hkd.
        exists lo. split; [lia|done]. }
  by destruct (Hgen 0 32%nat).
Qed.

(** The entries are those of the map the branch stands for. *)
Lemma walk_lookup n p b key d :
  ok n ns p b -> (key, d) ∈ entries (walk n b) <-> trie_lookup n ns b key = Some d.
Proof.
  revert p b. induction n as [|n IH]; intros p b Hok; [split; [by intros ?%elem_of_nil|done]|].
  set (i := sub_index_of (Z.of_nat (S n)) key). pose proof (sub_index_of_range (Z.of_nat (S n)) key) as Hi.
  assert (Hchild : (key, d) ∈ entries (child_walk (S n) b i) <-> trie_lookup (S n) ns b key = Some d).
  { cbn [trie_lookup]. fold i. unfold child_walk. destruct (Z.testbit (b_mask b) i) eqn:Hm.
    - destruct (ok_child n p b i Hok Hi Hm) as (off & Hoff & [(_ & l & -> & Hl & _)|(_ & c & -> & Hc & Hcok)]).
      + rewrite Hoff, Hl. cbn. rewrite list_elem_of_singleton. destruct (l_key l =? key) eqn:E.
        * apply Z.eqb_eq in E. split; [intros H; congruence|]. intros H. f_equal; congruence.
        * apply Z.eqb_neq in E. split; [intros H; congruence|done].
      + rewrite Hoff, Hc. cbn [entries omap list_omap leaf_entry]. by eapply IH.
    - unfold child_node, ptr_at, child. rewrite Hm. cbn. split; [by intros ?%elem_of_nil|done]. }
  rewrite <-Hchild. rewrite walk_walk_from by lia. unfold walk_from. split.
  - intros H. apply list_elem_of_omap in H as (nd & Hnd & Hent).
    apply list_elem_of_bind in Hnd as (j & Hnd & Hj).
    apply list_elem_of_filter in Hj as [_ Hj%elem_of_seqZ].
    assert (Hin : (key, d) ∈ entries (child_walk (S n) b j)) by (apply list_elem_of_omap; eauto).
    assert (is_sub_index j) as Hjs by (unfold is_sub_index; lia).
    pose proof (child_walk_prefix n p b j (walk_prefix n) Hok Hjs) as Hp. rewrite Forall_forall in Hp.
    specialize (Hp _ Hin). destruct (sub_index_of_prefix n key p j Hjs Hp) as [Hij _].
    fold i in Hij. by rewrite Hij.
  - intros H. apply list_elem_of_omap in H as (nd & Hnd & Hent). apply list_elem_of_omap. exists nd.
    split; [|done]. apply list_elem_of_bind. exists i. split; [done|]. apply list_elem_of_filter. split.
    + destruct (Z.testbit (b_mask b) i) eqn:Hm; [done|].
      unfold child_walk, child_node, ptr_at, child in Hnd. rewrite Hm in Hnd. by apply elem_of_nil in Hnd.
    + apply elem_of_seqZ. unfold is_sub_index in Hi. lia.
Qed.

End walk.

(** ** What is left for an iterator *)

Section spines.
Context (db : triedb) (hz : Z) (N : nat) (root : triedb_branch) (root_ptr : Z).
Hypothesis HN : (N <= 13)%nat.
Hypothesis Hroot : nodes db !! root_ptr = Some (NBranch root).
Hypothesis Hrok : trie_ok hz N (nodes db) 0 root.
Abbreviation ns := (nodes db).
Implicit Types (b : triedb_branch) (c : cursor) (s : spine) (n : nat) (i j p key : Z).

(** A path of branches from the root; [n] is the level of the last one and [p] its
    prefix. *)
Inductive spine_ok : nat -> Z -> spine -> Prop :=
  | spine_root i : is_sub_index i -> spine_ok N 0 [Cursor root root_ptr i]
  | spine_push n p b ptr i s off b' j :
      spine_ok (S n) p (Cursor b ptr i :: s) -> ptr_at b i = Some off ->
      Z.testbit (b_leaf b) i = false -> ns !! off = Some (NBranch b') -> is_sub_index j ->
      spine_ok n (p * 32 + i) (Cursor b' off j :: Cursor b ptr i :: s).

(** The nodes after the children the cursors stand at, and those from the head's
    child on. *)
Fixpoint pend n s : list node :=
  match s with
  | [] => []
  | c :: s => walk_from ns n (cu_parent c) (cu_sub_index c + 1) ++ pend (S n) s
  end.
Definition rest n s : list node :=
  match s with
  | [] => []
  | c :: _ => child_walk ns n (cu_parent c) (cu_sub_index c) ++ pend n s
  end.

Lemma spine_inv n p c s :
  spine_ok n p (c :: s) ->
  nodes db !! cu_parent_ptr c = Some (NBranch (cu_parent c)) /\ trie_ok hz n ns p (cu_parent c) /\
  is_sub_index (cu_sub_index c) /\ (n <= N)%nat.
Proof.
  remember (c :: s) as t eqn:Ht. intros H. revert c s Ht.
  induction H as [i Hi|n p b ptr i s off c j H IH Hoff Hl Hc Hj]; intros c' s' [= <- <-]; [by split_and!|].
  destruct (IH _ _ eq_refl) as (Hb & Hok & Hi & Hn). cbn [cu_parent cu_parent_ptr cu_sub_index] in *.
  split_and!; [done| |done|lia].
  assert (Hm : Z.testbit (b_mask b) i = true).
  { unfold ptr_at, child in Hoff. by destruct (Z.testbit (b_mask b) i). }
  destruct (ok_child ns hz n p b i Hok Hi Hm) as (off' & Hoff' & H').
  assert (off' = off) as -> by congruence.
  destruct H' as [(? & _)|(_ & c' & _ & Hc' & Hcok)]; [congruence|].
  assert (c' = c) as -> by congruence. done.
Qed.

Lemma spine_move n p c s i :
  spine_ok n p (c :: s) -> is_sub_index i -> spine_ok n p (with_sub_index c i :: s).
Proof. intros H Hi. inversion H; subst; cbn; by econstructor. Qed.

Lemma spine_pop n p c s : spine_ok n p (c :: s) -> s <> [] -> exists q, spine_ok (S n) q s.
Proof. intros H Hne. inversion H; subst; [done|]. eauto. Qed.

(** The head's next child, or none. *)
Lemma head_next n p c s :
  spine_ok n p (c :: s) ->
  let m := mask_next (b_mask (cu_parent c)) (cu_sub_index c) in
  if m =? 0 then walk_from ns n (cu_parent c) (cu_sub_index c + 1) = []
  else is_sub_index (lsb32 m) /\ Z.testbit (b_mask (cu_parent c)) (lsb32 m) = true /\
    walk_from ns n (cu_parent c) (cu_sub_index c + 1) =
    child_walk ns n (cu_parent c) (lsb32 m) ++ walk_from ns n (cu_parent c) (lsb32 m + 1).
Proof.
  intros Hs m. destruct (spine_inv _ _ _ _ Hs) as (_ & Hok & Hi & _).
  pose proof (ok_mask ns hz _ _ _ Hok) as Hmw.
  pose proof (mask_next_word (b_mask (cu_parent c)) (cu_sub_index c) Hmw) as Hnw. fold m in Hnw.
  assert (Hbit : forall j, Z.testbit m j = Z.testbit (b_mask (cu_parent c)) j && (cu_sub_index c <? j))
    by (intros; by apply mask_next_testbit).
  assert (Hlow : forall j, Z.testbit m j = false -> cu_sub_index c + 1 <= j ->
    Z.testbit (b_mask (cu_parent c)) j = false).
  { intros j Hj Hle. rewrite Hbit, (proj2 (Z.ltb_lt _ _)), andb_true_r in Hj by lia. done. }
  unfold is_sub_index in Hi. destruct (m =? 0) eqn:Hz.
  - apply walk_from_none; [lia|]. intros j Hj. apply Hlow; [|lia].
    apply Z.eqb_eq in Hz. by rewrite Hz, Z.bits_0.
  - pose proof (word_nonzero _ _ Hnw Hz) as H0.
    destruct (lsb32_spec _ H0 Hnw) as (Hk0 & Hkt & Hkl). pose proof (lsb32_sub_index _ H0 Hnw) as Hk.
    rewrite Hbit in Hkt. apply andb_true_iff in Hkt as [Hkm Hlt%Z.ltb_lt].
    split_and!; [done|done|]. apply walk_from_first; [lia|done|done|].
    intros j Hj. apply Hlow; [apply Hkl|]; lia.
Qed.

(** [pop_next]: the nodes after the head's child, from a child that exists. *)
Lemma pop_next_ok n p c s :
  spine_ok n p (c :: s) ->
  exists s', pop_next db (c :: s) = Ok s' /\
    ((s' = [] /\ pend n (c :: s) = []) \/
     exists n' p' c' s'', s' = c' :: s'' /\ spine_ok n' p' s' /\
       Z.testbit (b_mask (cu_parent c')) (cu_sub_index c') = true /\ rest n' s' = pend n (c :: s)).
Proof.
  revert n p c. induction s as [|d s IH]; intros n p c Hs; destruct (spine_inv _ _ _ _ Hs) as (Hb & _).
  all: cbn [pop_next]; run (get_branch_at_Ok _ _ _ Hb); pose proof (head_next n p c _ Hs) as Hnext; cbv zeta in Hnext.
  all: cbn [pend]; destruct (mask_next _ _ =? 0) eqn:Hz; [rewrite Hnext|].
  - exists []. split; [done|]. by left.
  - destruct Hnext as (Hk & Hm & ->). eexists. split; [done|]. right.
    exists n, p, (with_sub_index c (lsb32 (mask_next (b_mask (cu_parent c)) (cu_sub_index c)))), [].
    split_and!; [done|by apply spine_move|done|]. cbn. by rewrite <-app_assoc.
  - destruct (spine_pop _ _ _ _ Hs) as [q Hq]; [done|]. exact (IH _ _ _ Hq).
  - destruct Hnext as (Hk & Hm & ->). eexists. split; [done|]. right.
    exists n, p, (with_sub_index c (lsb32 (mask_next (b_mask (cu_parent c)) (cu_sub_index c)))), (d :: s).
    split_and!; [done|by apply spine_move|done|]. cbn. by rewrite <-app_assoc.
Qed.

(** [descend] with [lsb]: the head's child is a leaf, or an empty branch. *)
Lemma descend_ok fuel n p c s :
  spine_ok n p (c :: s) -> Z.testbit (b_mask (cu_parent c)) (cu_sub_index c) = true -> (n <= fuel)%nat ->
  exists n' p' c' s' found, descend db lsb32 fuel (cu_parent c) (cu_sub_index c) (c :: s) = Ok (c' :: s', found) /\
    spine_ok n' p' (c' :: s') /\ entries (rest n' (c' :: s')) = entries (rest n (c :: s)) /\
    (length (rest n' (c' :: s')) <= length (rest n (c :: s)))%nat /\
    if found then exists l, child_node ns (cu_parent c') (cu_sub_index c') = Some (NLeaf l)
    else exists b, rest n' (c' :: s') = NBranch b :: pend n' (c' :: s').
Proof.
  revert n p c s. induction fuel as [|fuel IH]; intros n p c s Hs Hm Hn.
  all: destruct (spine_inv _ _ _ _ Hs) as (Hb & Hok & Hi & _); pose proof (ok_pos ns hz _ _ _ Hok) as Hpos.
  { lia. }
  destruct n as [|n]; [lia|]. cbn [descend]. rewrite is_branch_testbit, Hm by auto.
  destruct (ok_child ns hz n p _ _ Hok Hi Hm) as (off & Hoff & [(Hl & l & Hch & _)|(Hl & b & Hch & Hb' & Hbok)]);
    rewrite Hl; cbn [andb negb].
  - exists (S n), p, c, s, true. split_and!; [done..|]. by exists l.
  - run (get_child_pointer_Ok _ _ _ Hoff). run (get_branch_at_Ok _ _ _ Hb').
    assert (Hrest : rest (S n) (c :: s) = NBranch b :: walk ns n b ++ pend (S n) (c :: s)).
    { cbn [rest]. unfold child_walk at 1. by rewrite Hch. }
    assert (Hwalk : walk ns n b = walk_from ns n b 0) by (apply walk_walk_from; by eapply ok_pos).
    pose proof (ok_mask ns hz _ _ _ Hbok) as Hbw.
    destruct (b_mask b =? 0) eqn:Hz.
    + exists (S n), p, c, s, false. split_and!; [done..|]. exists b. rewrite Hrest, Hwalk.
      rewrite walk_from_none; [done|lia|]. intros j _. apply Z.eqb_eq in Hz. by rewrite Hz, Z.bits_0.
    + pose proof (word_nonzero _ _ Hbw Hz) as H0.
      destruct (lsb32_spec _ H0 Hbw) as (Hk0 & Hkt & Hkl). pose proof (lsb32_sub_index _ H0 Hbw) as Hk.
      set (k := lsb32 (b_mask b)) in *.
      destruct (IH n (p * 32 + cu_sub_index c) (Cursor b off k) (c :: s))
        as (n' & p' & c' & s' & found & Hd & Hs' & Hent & Hlen & Hf); [|done|lia|].
      { destruct c as [cb cp ci]. by apply spine_push. }
      assert (Hr2 : rest n (Cursor b off k :: c :: s) = walk ns n b ++ pend (S n) (c :: s)).
      { cbn [rest cu_parent cu_sub_index]. cbn [pend]. cbn [cu_parent cu_sub_index]. rewrite app_assoc, Hwalk.
        f_equal. symmetry. apply walk_from_first; [lia|done|done|]. intros j Hj. apply Hkl. lia. }
      exists n', p', c', s', found. split_and!; [exact Hd|exact Hs'| | |exact Hf].
      * rewrite Hent, Hr2, Hrest. done.
      * rewrite Hr2 in Hlen. rewrite Hrest. cbn [length]. lia.
Qed.

(** A spine at rest: at the end, or at a leaf. *)
Definition at_leaf n p s : Prop :=
  match s with
  | [] => True
  | c :: _ => spine_ok n p s /\ exists l, child_node ns (cu_parent c) (cu_sub_index c) = Some (NLeaf l)
  end.

Lemma leftmost_next_ok fuel :
  (forall n p c s, spine_ok n p (c :: s) -> Z.testbit (b_mask (cu_parent c)) (cu_sub_index c) = true ->
    (2 * length (rest n (c :: s)) + 1 <= fuel)%nat ->
    exists n' p' s', leftmost db fuel (c :: s) = Ok s' /\ at_leaf n' p' s' /\
      entries (rest n' s') = entries (rest n (c :: s)) /\ (length (rest n' s') <= length (rest n (c :: s)))%nat) /\
  (forall n p c s, spine_ok n p (c :: s) -> (2 * length (pend n (c :: s)) + 2 <= fuel)%nat ->
    exists n' p' s', next db fuel (c :: s) = Ok s' /\ at_leaf n' p' s' /\
      entries (rest n' s') = entries (pend n (c :: s)) /\ (length (rest n' s') <= length (pend n (c :: s)))%nat).
Proof.
  induction fuel as [|fuel [IHl IHn]]; (split; intros n p c s Hs); [lia|lia| |].
  - intros Hm Hf. destruct (spine_inv _ _ _ _ Hs) as (Hb & Hok & Hi & Hn). cbn [leftmost skip_empty].
    run (get_branch_at_Ok _ _ _ Hb).
    assert ((b_mask (cu_parent c) =? 0) = false) as ->.
    { apply Z.eqb_neq. intros Hz. by rewrite Hz, Z.bits_0 in Hm. }
    rewrite Ok_bind. cbn beta iota. run (get_branch_at_Ok _ _ _ Hb).
    destruct (descend_ok MAX_DEPTH n p c s Hs Hm) as (n1 & p1 & c1 & s1 & found & Hd & Hs1 & He & Hl & Hfound);
      [unfold MAX_DEPTH; lia|].
    rewrite Hd, Ok_bind. destruct found.
    + exists n1, p1, (c1 :: s1). by split_and!.
    + destruct Hfound as [b Hrest]. rewrite Hrest in Hl. cbn [length] in Hl.
      destruct (IHn n1 p1 c1 s1 Hs1) as (n' & p' & s' & Hnx & Hat & He' & Hl'); [lia|].
      exists n', p', s'. split_and!; [exact Hnx|done| |lia]. rewrite He', <-He, Hrest. done.
  - intros Hf. cbn [next]. destruct (pop_next_ok n p c s Hs) as (s1 & -> & [[-> Hp]|H]); rewrite Ok_bind.
    + exists n, p, []. rewrite Hp. by split_and!.
    + destruct H as (n1 & p1 & c1 & s2 & -> & Hs1 & Hm1 & Hr1). rewrite <-Hr1 in *.
      destruct (IHl n1 p1 c1 s2 Hs1 Hm1) as (n' & p' & s' & H1 & H2 & H3 & H4); [lia|].
      exists n', p', s'. by split_and!.
Qed.

(** ** Running an iterator *)

Lemma iterator_leaf_ok n p c s :
  at_leaf n p (c :: s) ->
  exists l, iterator_leaf db (c :: s) = Ok l /\ rest n (c :: s) = NLeaf l :: pend n (c :: s).
Proof.
  intros [Hs [l Hl]]. destruct (spine_inv _ _ _ _ Hs) as (Hb & _). exists l. split.
  - unfold iterator_leaf. run (get_branch_at_Ok _ _ _ Hb). unfold child_node in Hl.
    destruct (ptr_at (cu_parent c) (cu_sub_index c)) as [off|] eqn:Hoff; [|done]. cbn in Hl.
    unfold get_leaf. run (get_child_pointer_Ok _ _ _ Hoff). by apply get_leaf_at_Ok.
  - cbn [rest]. unfold child_walk. by rewrite Hl.
Qed.

Lemma iterator_leaf_wf n p c s l :
  at_leaf n p (c :: s) -> iterator_leaf db (c :: s) = Ok l -> leaf_ok hz l.
Proof.
  intros [Hs [l' Hl]] Hleaf. destruct (spine_inv _ _ _ _ Hs) as (Hb & Hok & Hi & _).
  unfold child_node in Hl. destruct (ptr_at (cu_parent c) (cu_sub_index c)) as [off|] eqn:Hoff; [|done]. cbn in Hl.
  unfold iterator_leaf in Hleaf. rewrite (get_branch_at_Ok _ _ _ Hb), Ok_bind in Hleaf. unfold get_leaf in Hleaf.
  rewrite (get_child_pointer_Ok _ _ _ Hoff), Ok_bind, (get_leaf_at_Ok _ _ _ Hl) in Hleaf. injection Hleaf as <-.
  destruct n; [done|]. destruct Hok as (_ & _ & Hc). specialize (Hc _ off Hi Hoff).
  destruct (Z.testbit _ _); destruct Hc as (x & Hx & Hc); [|by rewrite Hx in Hl].
  rewrite Hx in Hl. injection Hl as ->. apply Hc.
Qed.

Definition leaf_pair (l : triedb_leaf) : Z * list Z := (l_key l, cd_bytes (l_data l)).

Lemma iterate_ok steps fuel n p s :
  at_leaf n p s -> (2 * length (rest n s) + 2 <= fuel)%nat -> (length (rest n s) <= steps)%nat ->
  exists ls, iterate db steps fuel s = Ok ls /\ leaf_pair <$> ls = entries (rest n s) /\ Forall (leaf_ok hz) ls.
Proof.
  revert n p s. induction steps as [|steps IH]; intros n p s Hs Hf Hst; (destruct s as [|c s]; [by exists []|]).
  all: destruct (iterator_leaf_ok n p c s Hs) as (l & Hl & Hr); rewrite Hr in *; cbn [length] in *.
  { lia. }
  cbn [iterate]. change (iterator_eqb (c :: s) []) with false. cbn iota. run Hl.
  pose proof (iterator_leaf_wf n p c s l Hs Hl) as Hlw. destruct Hs as [Hs _]. destruct (proj2 (leftmost_next_ok fuel) n p c s Hs) as (n' & p' & s' & Hn & Hat & He & Hlen); [lia|].
  run Hn. destruct (IH n' p' s' Hat) as (ls & -> & Hls & Hlok); [lia..|]. rewrite Ok_bind.
  exists (l :: ls). split; [done|]. split; [cbn; by rewrite Hls, He|]. by constructor.
Qed.

Lemma adjust_ok fuel n p s key :
  at_leaf n p s -> StronglySorted (fun x y => x.1 < y.1) (entries (rest n s)) ->
  (2 * length (rest n s) + 2 <= fuel)%nat ->
  exists n' p' s', adjust db fuel s key = Ok s' /\ at_leaf n' p' s' /\
    entries (rest n' s') = filter (fun kd => key <= kd.1) (entries (rest n s)) /\
    (length (rest n' s') <= length (rest n s))%nat.
Proof.
  revert n p s. induction fuel as [|fuel IH]; intros n p s Hs Hsort Hf.
  { lia. }
  destruct s as [|c s]; [by exists n, p, []|].
  destruct (iterator_leaf_ok n p c s Hs) as (l & Hl & Hr). cbn [adjust]. run Hl.
  assert (Hent : entries (rest n (c :: s)) = leaf_pair l :: entries (pend n (c :: s))) by (by rewrite Hr).
  rewrite Hent in *. inversion_clear Hsort as [|? ? Hsort' Hall].
  destruct (key <=? l_key l) eqn:Hk.
  - apply Z.leb_le in Hk. exists n, p, (c :: s). split_and!; [done..| |done]. rewrite Hent. symmetry.
    assert (Hkeep : forall x, x ∈ leaf_pair l :: entries (pend n (c :: s)) -> key <= x.1).
    { intros x [->|Hx]%elem_of_cons; [done|]. rewrite Forall_forall in Hall. specialize (Hall x Hx). cbn in Hall. lia. }
    revert Hkeep. generalize (leaf_pair l :: entries (pend n (c :: s))). intros l0 Hkeep.
    induction l0 as [|x l0 IHl]; [done|]. rewrite filter_cons_True by (apply Hkeep; by left).
    f_equal. apply IHl. intros. apply Hkeep. by right.
  - apply Z.leb_gt in Hk. destruct Hs as [Hs _]. rewrite Hr in Hf. cbn [length] in Hf.
    destruct (proj2 (leftmost_next_ok (S fuel)) n p c s Hs) as (n1 & p1 & s1 & Hn & Hat & He & Hlen); [lia|].
    run Hn. destruct (IH n1 p1 s1 Hat) as (n' & p' & s' & H1 & H2 & H3 & H4); [by rewrite He|lia|].
    exists n', p', s'. split_and!; [done|done| |].
    + rewrite H3, He. rewrite filter_cons_False; [done|]. cbn. lia.
    + rewrite Hr. cbn [length]. lia.
Qed.

(** ** Starting at a key *)

Lemma walk_from_split n p b lo key :
  trie_ok hz n ns p b -> key ≫ level_bits n = p -> 0 <= lo <= sub_index_of (Z.of_nat n) key ->
  exists pre, walk_from ns n b lo = pre ++ walk_from ns n b (sub_index_of (Z.of_nat n) key) /\
    Forall (fun kd => kd.1 < key) (entries pre).
Proof.
  intros Hok Hp Hlo. pose proof (ok_pos _ _ _ _ _ Hok) as Hpos. destruct n as [|n]; [lia|].
  set (i := sub_index_of (Z.of_nat (S n)) key) in *.
  pose proof (sub_index_of_range (Z.of_nat (S n)) key) as Hi. fold i in Hi. unfold is_sub_index in Hi.
  remember (Z.to_nat (i - lo)) as k eqn:Hk. revert lo Hlo Hk.
  induction k as [|k IH]; intros lo Hlo Hk.
  - exists []. replace lo with i by lia. done.
  - destruct (IH (lo + 1)) as (pre & Hpre & Hall); [lia..|].
    assert (Hls : is_sub_index lo) by (unfold is_sub_index; lia).
    destruct (Z.testbit (b_mask b) lo) eqn:Hm.
    + exists (child_walk ns (S n) b lo ++ pre). split.
      * rewrite (walk_from_first _ _ _ _ lo) by (done || lia). by rewrite Hpre, app_assoc.
      * rewrite entries_app. apply Forall_app. split; [|done].
        eapply Forall_impl; [apply (child_walk_prefix ns hz n p b lo); [apply walk_prefix|done|done]|].
        intros kd Hkd. eapply (prefix_lt n (p * 32 + lo) (p * 32 + i)); [lia|exact Hkd|].
        by apply (key_split n key p).
    + exists pre. rewrite (walk_from_skip _ _ _ lo) by (done || lia). done.
Qed.

Lemma filter_drop_small key pre l :
  Forall (fun kd : Z * list Z => kd.1 < key) pre ->
  filter (fun kd : Z * list Z => key <= kd.1) (pre ++ l) = filter (fun kd : Z * list Z => key <= kd.1) l.
Proof.
  intros Hpre. rewrite filter_app. induction Hpre as [|x pre Hx _ IH]; [done|].
  rewrite filter_cons_False by lia. done.
Qed.

Lemma sorted_suffix (R : Z * list Z -> Z * list Z -> Prop) pre l :
  StronglySorted R (pre ++ l) -> StronglySorted R l.
Proof. induction pre as [|x pre IH]; [done|]. cbn. intros H. inversion_clear H. auto. Qed.

(** The nodes from the path to [key] on; the entries before are smaller. *)
Definition from_key key (l : list node) : Prop :=
  exists pre, walk ns N root = pre ++ l /\ Forall (fun kd => kd.1 < key) (entries pre).

Lemma from_key_filter key l :
  from_key key l ->
  filter (fun kd : Z * list Z => key <= kd.1) (entries (walk ns N root)) =
    filter (fun kd : Z * list Z => key <= kd.1) (entries l) /\
  StronglySorted (fun x y => x.1 < y.1) (entries l) /\ (length l <= length (walk ns N root))%nat.
Proof.
  intros (pre & Heq & Hall). pose proof (walk_sorted _ _ _ _ _ Hrok) as Hsort.
  rewrite Heq in *. rewrite entries_app in *. split_and!; [by apply filter_drop_small|by eapply sorted_suffix|].
  rewrite length_app. lia.
Qed.

Lemma from_key_app key pre l :
  from_key key (pre ++ l) -> Forall (fun kd => kd.1 < key) (entries pre) -> from_key key l.
Proof.
  intros (pre' & Heq & Hall) Hpre. exists (pre' ++ pre). split; [by rewrite <-app_assoc|].
  rewrite entries_app. by apply Forall_app.
Qed.

Lemma descend_key_ok fuel n p b ptr i s key :
  spine_ok n p (Cursor b ptr i :: s) -> i = sub_index_of (Z.of_nat n) key -> key ≫ level_bits n = p ->
  (n <= fuel)%nat -> from_key key (walk_from ns n b i ++ pend (S n) s) ->
  exists n' p' b' ptr' i' s', descend_key db fuel b ptr i key s = Ok (b', ptr', i', s') /\
    spine_ok n' p' (Cursor b' ptr' i' :: s') /\ from_key key (walk_from ns n' b' i' ++ pend (S n') s') /\
    is_branch b' i' = false.
Proof.
  revert n p b ptr i s. induction fuel as [|fuel IH]; intros n p b ptr i s Hs Hi Hp Hn Hfrom.
  all: destruct (spine_inv _ _ _ _ Hs) as (Hb & Hok & His & _); cbn [cu_parent cu_parent_ptr cu_sub_index] in *.
  all: pose proof (ok_pos _ _ _ _ _ Hok) as Hpos; destruct n as [|n]; [lia|]. { lia. }
  assert (Hdone : is_branch b i = false -> descend_key db (S fuel) b ptr i key s = Ok (b, ptr, i, s)).
  { intros H. cbn [descend_key]. by rewrite H, andb_false_r. }
  destruct (is_branch b i) eqn:Hbr.
  2:{ exists (S n), p, b, ptr, i, s. split_and!; auto. }
  clear Hdone. cbn [descend_key]. pose proof Hbr as Hbits. rewrite is_branch_testbit in Hbits by auto.
  apply andb_true_iff in Hbits as [Hm Hl]. apply negb_true_iff in Hl.
  rewrite is_empty_testbit, Hm, Hbr by auto. cbn [negb andb].
  destruct (ok_child ns hz n p b i Hok His Hm) as (off & Hoff & [(? & _)|(_ & c & Hch & Hc & Hcok)]); [congruence|].
  run (get_child_pointer_Ok _ _ _ Hoff). run (get_branch_at_Ok _ _ _ Hc).
  rewrite (trie_depth _ _ _ _ _ Hcok).
  pose proof (ok_pos _ _ _ _ _ Hcok) as Hnpos. destruct n as [|n]; [lia|].
  destruct (spine_inv _ _ _ _ Hs) as (_ & _ & _ & HnN).
  rewrite sub_index_Ok by lia. rewrite Ok_bind.
  apply (key_split (S n) key p) in Hp. rewrite <-Hi in Hp.
  apply (IH (S n) (p * 32 + i)).
  - apply spine_push; [done..|]. apply sub_index_of_range.
  - done.
  - done.
  - lia.
  - destruct (walk_from_split (S n) (p * 32 + i) c 0 key Hcok Hp) as (pre & Hpre & Hall);
      [pose proof (sub_index_of_range (Z.of_nat (S n)) key) as Hr; unfold is_sub_index in Hr; lia|].
    apply (from_key_app key (NBranch c :: pre)); [|done].
    rewrite (walk_from_first _ _ _ i i) in Hfrom by (done || (unfold is_sub_index in His; lia)).
    unfold child_walk in Hfrom. rewrite Hch in Hfrom. cbn [pred] in Hfrom.
    rewrite (walk_walk_from _ (S n) c), Hpre in Hfrom by lia. cbn [pend cu_parent cu_sub_index].
    revert Hfrom. by rewrite <-!app_assoc, <-!app_comm_cons, <-!app_assoc.
Qed.

(** From the place where the path to the key ends, the iterator settles on the
    next leaf. *)
Lemma settle_ok fuel n p b ptr i s key :
  spine_ok n p (Cursor b ptr i :: s) -> from_key key (walk_from ns n b i ++ pend (S n) s) ->
  is_branch b i = false -> (2 * length (walk ns N root) + 2 <= fuel)%nat ->
  exists n' p' s', (if is_empty b i then
      let m := mask_next (b_mask b) i in
      if m =? 0 then s ← next db fuel (Cursor b ptr (MAX_BRANCH - 1) :: s); adjust db fuel s key
      else s ← leftmost db fuel (Cursor b ptr (lsb32 m) :: s); adjust db fuel s key
    else adjust db fuel (Cursor b ptr i :: s) key) = Ok s' /\ at_leaf n' p' s' /\
    entries (rest n' s') = filter (fun kd => key <= kd.1) (entries (walk ns N root)) /\
    (length (rest n' s') <= length (walk ns N root))%nat.
Proof.
  intros Hs Hfrom Hbr Hfuel. destruct (from_key_filter _ _ Hfrom) as (Hfil & Hsort & Hlen).
  destruct (spine_inv _ _ _ _ Hs) as (_ & Hok & Hi & _). cbn [cu_parent cu_sub_index] in *.
  assert (Hadj : forall n1 p1 s1, at_leaf n1 p1 s1 ->
    entries (rest n1 s1) = entries (walk_from ns n b i ++ pend (S n) s) ->
    (length (rest n1 s1) <= length (walk ns N root))%nat ->
    exists n' p' s', adjust db fuel s1 key = Ok s' /\ at_leaf n' p' s' /\
      entries (rest n' s') = filter (fun kd => key <= kd.1) (entries (walk ns N root)) /\
      (length (rest n' s') <= length (walk ns N root))%nat).
  { intros n1 p1 s1 Hat He Hl. destruct (adjust_ok fuel n1 p1 s1 key Hat) as (n' & p' & s' & H1 & H2 & H3 & H4);
      [by rewrite He|lia|]. exists n', p', s'. split_and!; [done|done| |lia]. by rewrite H3, He. }
  unfold is_sub_index in Hi. rewrite is_empty_testbit by lia.
  destruct (Z.testbit (b_mask b) i) eqn:Hm; cbn [negb].
  - (* a leaf *)
    destruct n as [|n]; [by apply ok_pos in Hok; lia|].
    assert (Hr : rest (S n) (Cursor b ptr i :: s) = walk_from ns (S n) b i ++ pend (S (S n)) s).
    { cbn [rest pend cu_parent cu_sub_index].
      rewrite (walk_from_first _ _ _ i i) by (done || unfold is_sub_index; lia). by rewrite app_assoc. }
    apply (Hadj (S n) p); [|by rewrite Hr|by rewrite Hr]. split; [done|]. cbn [cu_parent cu_sub_index].
    destruct (ok_child ns hz n p b i Hok Hi Hm) as (off & _ & [(_ & l & Hl & _)|(Hl & _)]); [by exists l|].
    rewrite is_branch_testbit, Hm, Hl in Hbr by lia. done.
  - pose proof (head_next n p (Cursor b ptr i) s Hs) as Hnext. cbv zeta in Hnext |- *.
    cbn [cu_parent cu_sub_index] in Hnext.
    rewrite (walk_from_skip _ _ _ i) in Hadj, Hlen by (done || lia).
    destruct (mask_next (b_mask b) i =? 0).
    + pose proof (spine_move _ _ _ _ (MAX_BRANCH - 1) Hs ltac:(unfold is_sub_index, MAX_BRANCH; lia)) as Hs31.
      change (with_sub_index (Cursor b ptr i) (MAX_BRANCH - 1)) with (Cursor b ptr (MAX_BRANCH - 1)) in Hs31.
      assert (Hp : pend n (Cursor b ptr (MAX_BRANCH - 1) :: s) = walk_from ns n b (i + 1) ++ pend (S n) s).
      { cbn [pend cu_parent cu_sub_index]. rewrite Hnext. by rewrite walk_from_none by (unfold MAX_BRANCH; lia). }
      destruct (proj2 (leftmost_next_ok fuel) _ _ _ _ Hs31) as (n1 & p1 & s1 & Hn & Hat & He & Hl);
        [rewrite Hp; lia|].
      rewrite Hn, Ok_bind. rewrite Hp in He, Hl. apply (Hadj n1 p1); [done|done|lia].
    + destruct Hnext as (Hk & Hkm & Hw).
      pose proof (spine_move _ _ _ _ (lsb32 (mask_next (b_mask b) i)) Hs Hk) as Hsk.
      unfold with_sub_index in Hsk. cbn [cu_parent cu_parent_ptr] in Hsk.
      assert (Hr : rest n (Cursor b ptr (lsb32 (mask_next (b_mask b) i)) :: s) =
                   walk_from ns n b (i + 1) ++ pend (S n) s).
      { cbn [rest pend cu_parent cu_sub_index]. by rewrite Hw, <-app_assoc. }
      destruct (proj1 (leftmost_next_ok fuel) _ _ _ _ Hsk) as (n1 & p1 & s1 & Hn & Hat & He & Hl);
        [exact Hkm|rewrite Hr; lia|].
      rewrite Hn, Ok_bind. rewrite Hr in He, Hl. apply (Hadj n1 p1); [done|done|lia].
Qed.

Lemma start_from_key_ok fuel key :
  is_word 64 key -> (2 * length (walk ns N root) + 2 <= fuel)%nat ->
  exists n p s, start_from_key db fuel root_ptr key = Ok s /\ at_leaf n p s /\
    entries (rest n s) = filter (fun kd => key <= kd.1) (entries (walk ns N root)) /\
    (length (rest n s) <= length (walk ns N root))%nat.
Proof.
  intros Hk Hfuel. pose proof (ok_pos _ _ _ _ _ Hrok) as Hpos.
  assert (exists M, N = S M) as [M HMN] by (exists (pred N); lia).
  unfold start_from_key. run (get_branch_at_Ok _ _ _ Hroot). rewrite (trie_depth _ _ _ _ _ Hrok).
  rewrite HMN, sub_index_Ok, Ok_bind, <-HMN by lia. set (i := sub_index_of (Z.of_nat N) key).
  pose proof (sub_index_of_range (Z.of_nat N) key) as Hi. fold i in Hi.
  destruct (Z.of_nat N * MAX_BRANCH_BITS <=? msb64 key) eqn:Hbig.
  { apply Z.leb_le in Hbig. unfold MAX_BRANCH_BITS in Hbig. exists N, 0, []. split; [done|]. split; [done|].
    split; [|cbn; lia]. cbn [rest entries omap list_omap]. symmetry.
    pose proof (walk_prefix ns hz N 0 root Hrok) as Hpre.
    induction Hpre as [|kd l Hkd _ IH]; [done|]. rewrite filter_cons_False; [exact IH|].
    assert (0 < key) as H0.
    { destruct (decide (key = 0)) as [->|]; [|unfold is_word in Hk; lia]. by rewrite HMN in Hbig. }
    rewrite msb64_log2 in Hbig by done. unfold has_prefix, level_bits in Hkd.
    assert (2 ^ (5 * Z.of_nat N) <= key) as Hge.
    { etrans; [apply Z.pow_le_mono_r; [lia|]|by apply Z.log2_spec]. lia. }
    rewrite Z.shiftr_div_pow2 in Hkd by lia. apply Z.div_small_iff in Hkd; [|lia]. lia. }
  assert (Hp : key ≫ level_bits N = 0).
  { apply Z.leb_gt in Hbig. unfold MAX_BRANCH_BITS, level_bits in *.
    rewrite Z.shiftr_div_pow2 by lia. apply Z.div_small. split; [apply Hk|].
    destruct (decide (key = 0)) as [->|Hne]; [lia|].
    assert (0 < key) as H0 by (unfold is_word in Hk; lia). rewrite msb64_log2 in Hbig by done.
    apply Z.log2_lt_pow2; lia. }
  assert (Hfrom : from_key key (walk_from ns N root i ++ pend (S N) [])).
  { destruct (walk_from_split N 0 root 0 key Hrok Hp) as (pre & Hpre & Hall);
      [fold i; unfold is_sub_index in Hi; lia|].
    exists pre. rewrite app_nil_r. split; [|done]. by rewrite walk_walk_from by lia. }
  pose proof (spine_root i Hi) as Hs. destruct (is_empty root i) eqn:He.
  - assert (Hbr : is_branch root i = false) by (unfold is_branch; by rewrite He).
    destruct (settle_ok fuel N 0 root root_ptr i [] key Hs Hfrom Hbr Hfuel) as (n & p & s & Hset & Hrest).
    rewrite He in Hset. cbv zeta in Hset |- *. destruct (mask_next (b_mask root) i =? 0) eqn:Hz.
    + pose proof (head_next N 0 (Cursor root root_ptr i) [] Hs) as Hnext. cbv zeta in Hnext.
      cbn [cu_parent cu_sub_index] in Hnext. rewrite Hz in Hnext.
      exists N, 0, []. split; [done|]. split; [done|]. split; [|cbn; lia].
      destruct (from_key_filter _ _ Hfrom) as (Hfil & _). rewrite Hfil.
      rewrite is_empty_testbit in He by auto. apply negb_true_iff in He.
      rewrite walk_from_skip, Hnext by (done || (unfold is_sub_index in Hi; lia)). done.
    + exists n, p, s. by split.
  - destruct (descend_key_ok MAX_DEPTH N 0 root root_ptr i [] key Hs eq_refl Hp)
      as (n1 & p1 & b1 & ptr1 & i1 & s1 & Hd & Hs1 & Hfrom1 & Hbr1); [unfold MAX_DEPTH; lia|done|].
    rewrite Hd, Ok_bind.
    destruct (settle_ok fuel n1 p1 b1 ptr1 i1 s1 key Hs1 Hfrom1 Hbr1 Hfuel) as (n & p & s & Hset & Hrest).
    exists n, p, s. by split.
Qed.

(** [begin(at_root)] *)
Lemma begin_ok fuel :
  (2 * length (walk ns N root) + 2 <= fuel)%nat ->
  exists n p s, (if b_mask root =? 0 then Ok []
                 else leftmost db fuel [Cursor root root_ptr (lsb32 (b_mask root))]) = Ok s /\ at_leaf n p s /\
    entries (rest n s) = entries (walk ns N root) /\ (length (rest n s) <= length (walk ns N root))%nat.
Proof.
  intros Hfuel. pose proof (ok_pos _ _ _ _ _ Hrok) as Hpos. pose proof (ok_mask _ _ _ _ _ Hrok) as Hw.
  rewrite walk_walk_from in * by lia. destruct (b_mask root =? 0) eqn:Hz.
  - exists N, 0, []. split; [done|]. split; [done|]. apply Z.eqb_eq in Hz.
    rewrite walk_from_none; [done|lia|]. intros. by rewrite Hz, Z.bits_0.
  - pose proof (word_nonzero _ _ Hw Hz) as H0. destruct (lsb32_spec _ H0 Hw) as (Hk0 & Hkt & Hkl).
    pose proof (lsb32_sub_index _ H0 Hw) as Hk. set (k := lsb32 (b_mask root)) in *.
    assert (Hr : rest N [Cursor root root_ptr k] = walk_from ns N root 0).
    { cbn [rest pend cu_parent cu_sub_index]. rewrite app_nil_r. symmetry.
      apply walk_from_first; [lia|done|done|]. intros j Hj. apply Hkl. lia. }
    destruct (proj1 (leftmost_next_ok fuel) N 0 (Cursor root root_ptr k) [] (spine_root k Hk) Hkt)
      as (n & p & s & H); [rewrite Hr; lia|]. rewrite Hr in H. by exists n, p, s.
Qed.

(** ** Walking backwards *)

Definition bits_below (m hi : Z) : list Z := filter (fun j => Z.testbit m j = true) (seqZ 0 hi).
Definition walk_below n b hi : list node := bits_below (b_mask b) hi ≫= child_walk ns n b.

Lemma bits_below_snoc m hi :
  0 <= hi -> Z.testbit m hi = true -> bits_below m (hi + 1) = bits_below m hi ++ [hi].
Proof.
  intros Hhi Hm. unfold bits_below. rewrite (seqZ_app 0 hi 1) by lia. rewrite filter_app. f_equal.
  rewrite seqZ_cons, filter_cons_True by (done || lia). done.
Qed.

Lemma bits_below_skip m lo hi :
  0 <= lo <= hi -> (forall j, lo <= j < hi -> Z.testbit m j = false) -> bits_below m hi = bits_below m lo.
Proof.
  intros Hlo H. unfold bits_below. replace hi with (lo + (hi - lo)) by lia.
  rewrite (seqZ_app 0 lo (hi - lo)) by lia. rewrite filter_app, <-app_nil_r. f_equal.
  assert (Hall : Forall (fun j => lo <= j < hi) (seqZ (0 + lo) (hi - lo))).
  { apply Forall_forall. intros j Hj%elem_of_seqZ. lia. }
  induction Hall as [|j l Hj _ IH]; [done|]. rewrite filter_cons_False; [done|]. by rewrite H.
Qed.

Lemma walk_below_last n b hi i :
  0 <= i < hi -> Z.testbit (b_mask b) i = true -> (forall j, i < j < hi -> Z.testbit (b_mask b) j = false) ->
  walk_below n b hi = walk_below n b i ++ child_walk ns n b i.
Proof.
  intros Hi Hm H. unfold walk_below. rewrite (bits_below_skip _ (i + 1) hi) by (lia || (intros; apply H; lia)).
  rewrite bits_below_snoc by (done || lia). rewrite bind_app. f_equal. apply app_nil_r.
Qed.

Lemma walk_walk_below n b : (0 < n)%nat -> walk ns n b = walk_below n b 32.
Proof. intros H. by rewrite walk_walk_from. Qed.

(** The nodes before the children the cursors stand at, and those up to the head's
    child. *)
Fixpoint prior n s : list node :=
  match s with
  | [] => []
  | c :: s => prior (S n) s ++ walk_below n (cu_parent c) (cu_sub_index c)
  end.
Definition upto n s : list node :=
  match s with
  | [] => []
  | c :: _ => prior n s ++ child_walk ns n (cu_parent c) (cu_sub_index c)
  end.

Lemma head_previous n p c s :
  spine_ok n p (c :: s) ->
  let m := mask_prev (b_mask (cu_parent c)) (cu_sub_index c) in
  if m =? 0 then walk_below n (cu_parent c) (cu_sub_index c) = []
  else is_sub_index (msb32 m) /\ Z.testbit (b_mask (cu_parent c)) (msb32 m) = true /\
    walk_below n (cu_parent c) (cu_sub_index c) =
    walk_below n (cu_parent c) (msb32 m) ++ child_walk ns n (cu_parent c) (msb32 m).
Proof.
  intros Hs m. destruct (spine_inv _ _ _ _ Hs) as (_ & Hok & Hi & _).
  pose proof (ok_mask ns hz _ _ _ Hok) as Hmw.
  pose proof (mask_prev_word (b_mask (cu_parent c)) (cu_sub_index c) Hmw) as Hnw. fold m in Hnw.
  assert (Hbit : forall j, Z.testbit m j = Z.testbit (b_mask (cu_parent c)) j && (j <? cu_sub_index c))
    by (intros; by apply mask_prev_testbit).
  assert (Hlow : forall j, Z.testbit m j = false -> j < cu_sub_index c ->
    Z.testbit (b_mask (cu_parent c)) j = false).
  { intros j Hj Hle. rewrite Hbit, (proj2 (Z.ltb_lt _ _)), andb_true_r in Hj by lia. done. }
  unfold is_sub_index in Hi. destruct (m =? 0) eqn:Hz.
  - unfold walk_below. rewrite (bits_below_skip _ 0) by
      (lia || (intros j Hj; apply Hlow; [apply Z.eqb_eq in Hz; by rewrite Hz, Z.bits_0|lia])). done.
  - pose proof (word_nonzero _ _ Hnw Hz) as H0. rewrite msb32_log2 by done.
    destruct (is_msb_log2 m H0) as (Hk0 & Hkt & Hkl).
    rewrite Hbit in Hkt. apply andb_true_iff in Hkt as [Hkm Hlt%Z.ltb_lt].
    split_and!; [unfold is_sub_index; lia|done|]. apply walk_below_last; [lia|done|].
    intros j Hj. apply Hlow; [apply Hkl|]; lia.
Qed.

Lemma pop_previous_ok n p c s :
  spine_ok n p (c :: s) ->
  exists s', pop_previous db (c :: s) = Ok s' /\
    ((s' = [] /\ prior n (c :: s) = []) \/
     exists n' p' c' s'', s' = c' :: s'' /\ spine_ok n' p' s' /\
       Z.testbit (b_mask (cu_parent c')) (cu_sub_index c') = true /\ upto n' s' = prior n (c :: s)).
Proof.
  revert n p c. induction s as [|d s IH]; intros n p c Hs; destruct (spine_inv _ _ _ _ Hs) as (Hb & _).
  all: cbn [pop_previous]; run (get_branch_at_Ok _ _ _ Hb); pose proof (head_previous n p c _ Hs) as Hnext;
    cbv zeta in Hnext.
  all: cbn [prior]; destruct (mask_prev _ _ =? 0) eqn:Hz; [rewrite Hnext|].
  - exists []. split; [done|]. by left.
  - destruct Hnext as (Hk & Hm & ->). eexists. split; [done|]. right.
    exists n, p, (with_sub_index c (msb32 (mask_prev (b_mask (cu_parent c)) (cu_sub_index c)))), [].
    split_and!; [done|by apply spine_move|done|]. done.
  - rewrite app_nil_r. destruct (spine_pop _ _ _ _ Hs) as [q Hq]; [done|]. exact (IH _ _ _ Hq).
  - destruct Hnext as (Hk & Hm & ->). eexists. split; [done|]. right.
    exists n, p, (with_sub_index c (msb32 (mask_prev (b_mask (cu_parent c)) (cu_sub_index c)))), (d :: s).
    split_and!; [done|by apply spine_move|done|]. cbn. by rewrite <-!app_assoc.
Qed.

Lemma descend_right_ok fuel n p c s :
  spine_ok n p (c :: s) -> Z.testbit (b_mask (cu_parent c)) (cu_sub_index c) = true -> (n <= fuel)%nat ->
  exists n' p' c' s' found, descend db msb32 fuel (cu_parent c) (cu_sub_index c) (c :: s) = Ok (c' :: s', found) /\
    spine_ok n' p' (c' :: s') /\ entries (upto n' (c' :: s')) = entries (upto n (c :: s)) /\
    (length (upto n' (c' :: s')) <= length (upto n (c :: s)))%nat /\
    if found then exists l, child_node ns (cu_parent c') (cu_sub_index c') = Some (NLeaf l)
    else exists b, upto n' (c' :: s') = prior n' (c' :: s') ++ [NBranch b].
Proof.
  revert n p c s. induction fuel as [|fuel IH]; intros n p c s Hs Hm Hn.
  all: destruct (spine_inv _ _ _ _ Hs) as (Hb & Hok & Hi & _); pose proof (ok_pos ns hz _ _ _ Hok) as Hpos.
  { lia. }
  destruct n as [|n]; [lia|]. cbn [descend]. rewrite is_branch_testbit, Hm by auto.
  destruct (ok_child ns hz n p _ _ Hok Hi Hm) as (off & Hoff & [(Hl & l & Hch & _)|(Hl & b & Hch & Hb' & Hbok)]);
    rewrite Hl; cbn [andb negb].
  - exists (S n), p, c, s, true. split_and!; [done..|]. by exists l.
  - run (get_child_pointer_Ok _ _ _ Hoff). run (get_branch_at_Ok _ _ _ Hb').
    assert (Hupto : upto (S n) (c :: s) = prior (S n) (c :: s) ++ NBranch b :: walk ns n b).
    { cbn [upto]. unfold child_walk at 1. by rewrite Hch. }
    assert (Hwalk : walk ns n b = walk_below n b 32) by (apply walk_walk_below; by eapply ok_pos).
    pose proof (ok_mask ns hz _ _ _ Hbok) as Hbw.
    destruct (b_mask b =? 0) eqn:Hz.
    + exists (S n), p, c, s, false. split_and!; [done..|]. exists b. rewrite Hupto, Hwalk. unfold walk_below.
      rewrite (bits_below_skip _ 0); [done|lia|]. intros j _. apply Z.eqb_eq in Hz. by rewrite Hz, Z.bits_0.
    + pose proof (word_nonzero _ _ Hbw Hz) as H0. pose proof (msb32_log2 _ H0 Hbw) as Hlog.
      destruct (is_msb_log2 _ H0) as (Hk0 & Hkt & Hkl). rewrite <-Hlog in Hk0, Hkt, Hkl.
      set (k := msb32 (b_mask b)) in *.
      assert (Hk : is_sub_index k).
      { split; [done|]. destruct (decide (k < 32)); [done|]. apply is_word_testbit in Hbw as [_ Hbw]; [|done].
        by rewrite Hbw in Hkt by lia. }
      destruct (IH n (p * 32 + cu_sub_index c) (Cursor b off k) (c :: s))
        as (n' & p' & c' & s' & found & Hd & Hs' & Hent & Hlen & Hf); [|done|lia|].
      { destruct c as [cb cp ci]. by apply spine_push. }
      assert (Hr2 : upto n (Cursor b off k :: c :: s) = prior (S n) (c :: s) ++ walk ns n b).
      { change (upto n (Cursor b off k :: c :: s)) with
          ((prior (S n) (c :: s) ++ walk_below n b k) ++ child_walk ns n b k).
        rewrite <-app_assoc, Hwalk. f_equal. symmetry.
        apply walk_below_last; [unfold is_sub_index in Hk; lia|done|]. intros j Hj. apply Hkl. lia. }
      exists n', p', c', s', found. split_and!; [exact Hd|exact Hs'| | |exact Hf].
      * rewrite Hent, Hr2, Hupto. by rewrite !entries_app.
      * rewrite Hr2, length_app in Hlen. rewrite Hupto, length_app. cbn [length]. lia.
Qed.

Lemma rightmost_previous_ok fuel :
  (forall n p c s, spine_ok n p (c :: s) -> Z.testbit (b_mask (cu_parent c)) (cu_sub_index c) = true ->
    (2 * length (upto n (c :: s)) + 1 <= fuel)%nat ->
    exists n' p' s', rightmost db fuel root_ptr (c :: s) = Ok s' /\ at_leaf n' p' s' /\
      entries (upto n' s') = entries (upto n (c :: s)) /\ (length (upto n' s') <= length (upto n (c :: s)))%nat) /\
  (forall n p c s, spine_ok n p (c :: s) -> (2 * length (prior n (c :: s)) + 2 <= fuel)%nat ->
    exists n' p' s', previous db fuel root_ptr (c :: s) = Ok s' /\ at_leaf n' p' s' /\
      entries (upto n' s') = entries (prior n (c :: s)) /\ (length (upto n' s') <= length (prior n (c :: s)))%nat).
Proof.
  induction fuel as [|fuel [IHl IHn]]; (split; intros n p c s Hs); [lia|lia| |].
  - intros Hm Hf. destruct (spine_inv _ _ _ _ Hs) as (Hb & Hok & Hi & Hn). cbn [rightmost skip_empty].
    run (get_branch_at_Ok _ _ _ Hb).
    assert ((b_mask (cu_parent c) =? 0) = false) as ->.
    { apply Z.eqb_neq. intros Hz. by rewrite Hz, Z.bits_0 in Hm. }
    rewrite Ok_bind. cbn beta iota. run (get_branch_at_Ok _ _ _ Hb).
    destruct (descend_right_ok MAX_DEPTH n p c s Hs Hm) as (n1 & p1 & c1 & s1 & found & Hd & Hs1 & He & Hl & Hfound);
      [unfold MAX_DEPTH; lia|].
    rewrite Hd, Ok_bind. destruct found.
    + exists n1, p1, (c1 :: s1). by split_and!.
    + destruct Hfound as [b Hrest]. rewrite Hrest, length_app in Hl. cbn [length] in Hl.
      destruct (IHn n1 p1 c1 s1 Hs1) as (n' & p' & s' & Hnx & Hat & He' & Hl'); [lia|].
      exists n', p', s'. split_and!; [exact Hnx|done| |lia].
      rewrite He', <-He, Hrest, entries_app. cbn. by rewrite app_nil_r.
  - intros Hf. cbn [previous]. destruct (pop_previous_ok n p c s Hs) as (s1 & -> & [[-> Hp]|H]); rewrite Ok_bind.
    + exists n, p, []. rewrite Hp. by split_and!.
    + destruct H as (n1 & p1 & c1 & s2 & -> & Hs1 & Hm1 & Hr1). rewrite <-Hr1 in *.
      destruct (IHl n1 p1 c1 s2 Hs1 Hm1) as (n' & p' & s' & H1 & H2 & H3 & H4); [lia|].
      exists n', p', s'. by split_and!.
Qed.

Lemma at_leaf_upto n p c s :
  at_leaf n p (c :: s) ->
  exists l, iterator_leaf db (c :: s) = Ok l /\ upto n (c :: s) = prior n (c :: s) ++ [NLeaf l].
Proof.
  intros Hat. destruct (iterator_leaf_ok n p c s Hat) as (l & Hl & Hr). exists l. split; [done|].
  destruct Hat as [_ [l' Hl']]. cbn [rest upto] in *. unfold child_walk in *. rewrite Hl' in *. cbn in Hr.
  by injection Hr as ->.
Qed.

Lemma back_from_ok steps fuel n p s :
  at_leaf n p s -> (2 * length (upto n s) + 2 <= fuel)%nat -> (length (upto n s) <= steps)%nat ->
  exists ls, (if iterator_eqb s [] then Ok []
              else leaf ← iterator_leaf db s; ls ← iterate_back db steps fuel root_ptr s; Ok (leaf :: ls)) = Ok ls /\
    leaf_pair <$> ls = rev (entries (upto n s)).
Proof.
  revert n p s. induction steps as [|steps IH]; intros n p s Hs Hf Hst; (destruct s as [|c s]; [by exists []|]).
  all: destruct (at_leaf_upto n p c s Hs) as (l & Hl & Hr); rewrite Hr in *; rewrite length_app in *; cbn [length] in *.
  { lia. }
  change (iterator_eqb (c :: s) []) with false. cbn iota. run Hl. destruct Hs as [Hs _]. cbn [iterate_back].
  destruct (proj2 (rightmost_previous_ok fuel) n p c s Hs) as (n' & p' & s' & Hn & Hat & He & Hlen); [lia|].
  run Hn. destruct (IH n' p' s' Hat) as (ls & Hls & Hrev); [lia..|]. rewrite Hls, Ok_bind.
  exists (l :: ls). split; [done|]. rewrite entries_app, rev_app_distr. cbn. by rewrite Hrev, He.
Qed.

Lemma iterate_back_ok steps fuel :
  roots db <> ∅ -> (2 * length (walk ns N root) + 3 <= fuel)%nat -> (length (walk ns N root) < steps)%nat ->
  exists ls, iterate_back db steps fuel root_ptr [] = Ok ls /\ leaf_pair <$> ls = rev (entries (walk ns N root)).
Proof.
  intros Hne Hf Hst. destruct steps as [|steps]; [lia|]. destruct fuel as [|fuel]; [lia|].
  pose proof (ok_pos _ _ _ _ _ Hrok) as Hpos. pose proof (ok_mask _ _ _ _ _ Hrok) as Hw.
  cbn [iterate_back]. unfold previous; fold (rightmost db). rewrite bool_decide_false by done.
  run (get_branch_at_Ok _ _ _ Hroot). pose proof (walk_walk_below N root Hpos) as Hwalk.
  destruct (b_mask root =? 0) eqn:Hz.
  - rewrite Ok_bind. cbn. exists []. split; [done|]. rewrite Hwalk. unfold walk_below.
    rewrite (bits_below_skip _ 0); [done|lia|]. intros j _. apply Z.eqb_eq in Hz. by rewrite Hz, Z.bits_0.
  - pose proof (word_nonzero _ _ Hw Hz) as H0. pose proof (msb32_log2 _ H0 Hw) as Hlog.
    destruct (is_msb_log2 _ H0) as (Hk0 & Hkt & Hkl). rewrite <-Hlog in Hk0, Hkt, Hkl.
    set (k := msb32 (b_mask root)) in *.
    assert (Hk : is_sub_index k).
    { split; [done|]. destruct (decide (k < 32)); [done|]. apply is_word_testbit in Hw as [_ Hw]; [|done].
      by rewrite Hw in Hkt by lia. }
    assert (Hr : upto N [Cursor root root_ptr k] = walk ns N root).
    { cbn [upto prior cu_parent cu_sub_index app]. rewrite Hwalk. symmetry.
      apply walk_below_last; [unfold is_sub_index in Hk; lia|done|]. intros j Hj. apply Hkl. lia. }
    destruct (proj1 (rightmost_previous_ok fuel) N 0 (Cursor root root_ptr k) [] (spine_root k Hk) Hkt)
      as (n & p & s & Hrm & Hat & He & Hlen); [rewrite Hr; lia|]. rewrite Hr in He, Hlen.
    run Hrm. destruct (back_from_ok steps (S fuel) n p s Hat) as (ls & Hls & Hrev); [lia..|].
    exists ls. by rewrite Hrev, He.
Qed.

End spines.

Lemma sorted_leaves ls :
  StronglySorted (fun x y => x.1 < y.1) (leaf_pair <$> ls) -> StronglySorted (fun l l' => l_key l < l_key l') ls.
Proof.
  induction ls as [|l ls IH]; [constructor|]. cbn. intros Hs. inversion_clear Hs as [|? ? H1 H2].
  constructor; [by apply IH|]. apply Forall_forall. intros l' Hl'. rewrite Forall_forall in H2.
  apply (H2 (leaf_pair l')). by apply list_elem_of_fmap_2.
Qed.

Lemma sorted_filter {A} (R : A -> A -> Prop) (P : A -> Prop) `{!forall x, Decision (P x)} l :
  StronglySorted R l -> StronglySorted R (filter P l).
Proof.
  induction 1 as [|x l Hl IH Hx]; [constructor|]. rewrite filter_cons. destruct (decide _); [|done].
  constructor; [done|]. apply Forall_forall. intros y [_ Hy]%list_elem_of_filter.
  rewrite Forall_forall in Hx. by apply Hx.
Qed.

(** ** Iterators and [find] on a version *)

(** The nodes below the root branch of a version. *)
Definition version_nodes (db : triedb) (id : Z) : list node :=
  match roots db !! id with
  | Some r =>
      match nodes db !! r_ptr r with
      | Some (NBranch b) => walk (nodes db) (Z.to_nat (b_depth b)) b
      | _ => []
      end
  | None => []
  end.
(** Enough fuel for one step of an iterator, and for a walk. *)
Definition version_fuel (db : triedb) (id : Z) : nat := (2 * length (version_nodes db id) + 3)%nat.

Section version.
Context (db : triedb) (id : Z) (r : triedb_root).
Hypothesis Hdb : db_ok db.
Hypothesis Hr : roots db !! id = Some r.

Lemma version_root :
  exists n b, nodes db !! r_ptr r = Some (NBranch b) /\ trie_ok (hash_size_of db) n (nodes db) 0 b /\ (n <= 13)%nat /\
    version_nodes db id = walk (nodes db) n b.
Proof.
  destruct (ro_branch _ _ _ (do_roots _ Hdb id r Hr)) as (n & b & Hb & Hn & Hok). exists n, b. split_and!; try done.
  unfold version_nodes. by rewrite Hr, Hb, (trie_depth _ _ _ _ _ Hok), Nat2Z.id.
Qed.

Lemma version_entries key d :
  (key, d) ∈ entries (version_nodes db id) <-> root_map db id key = Some d.
Proof.
  destruct version_root as (n & b & Hb & Hok & _ & ->).
  rewrite (root_map_eq db id r n b key Hr Hb (trie_depth _ _ _ _ _ Hok)). by eapply walk_lookup.
Qed.

Lemma version_sorted : StronglySorted (fun x y => x.1 < y.1) (entries (version_nodes db id)).
Proof. destruct version_root as (n & b & Hb & Hok & _ & ->). by eapply walk_sorted. Qed.

Lemma roots_not_empty : bool_decide (roots db = ∅) = false.
Proof. apply bool_decide_false. intros He. by rewrite He, lookup_empty in Hr. Qed.

(** C29: Walking an iterator from [begin(at_root)] to the end visits every entry of
    the version exactly once, in increasing order of keys; each step needs at most
    [version_fuel] calls of [leftmost] and [next]. *)
Theorem iteration_visits_version fuel steps :
  (version_fuel db id <= fuel)%nat -> (length (version_nodes db id) <= steps)%nat ->
  exists it ls, iterator_begin db fuel id = Ok it /\ iterate db steps fuel it = Ok ls /\
    StronglySorted (fun l l' => l_key l < l_key l') ls /\
    forall key d, root_map db id key = Some d <-> exists l, l ∈ ls /\ l_key l = key /\ cd_bytes (l_data l) = d.
Proof.
  unfold version_fuel. intros Hf Hst. destruct version_root as (n & b & Hb & Hok & Hn & Hwalk).
  pose proof version_entries as Hent. pose proof version_sorted as Hsort. rewrite Hwalk in *.
  unfold iterator_begin. rewrite roots_not_empty. unfold get_root. rewrite Hr. cbn [of_option]. rewrite Ok_bind.
  cbv zeta. run (get_branch_at_Ok _ _ _ Hb).
  destruct (begin_ok db _ n b (r_ptr r) Hn Hb Hok fuel) as (n1 & p1 & it & Hit & Hat & He & Hl); [lia|].
  destruct (iterate_ok db _ n b (r_ptr r) Hn Hb Hok steps fuel n1 p1 it Hat) as (ls & Hls & Hmap & Hlok); [lia..|].
  exists it, ls. split_and!; [exact Hit|exact Hls| |].
  - rewrite He in Hmap. rewrite <-Hmap in Hsort. by apply sorted_leaves.
  - intros key d. rewrite <-Hent, <-He, <-Hmap, list_elem_of_fmap. unfold leaf_pair. split.
    + intros (l & [= -> ->] & Hl'). by exists l.
    + intros (l & Hl' & <- & <-). by exists l.
Qed.

(** Walking backwards from the end visits the same entries in decreasing order
    of keys. *)
Theorem backward_iteration_visits_version fuel steps :
  (version_fuel db id <= fuel)%nat -> (length (version_nodes db id) < steps)%nat ->
  exists ls, iterate_back db steps fuel (r_ptr r) [] = Ok ls /\
    StronglySorted (fun l l' => l_key l < l_key l') (rev ls) /\
    forall key d, root_map db id key = Some d <-> exists l, l ∈ ls /\ l_key l = key /\ cd_bytes (l_data l) = d.
Proof.
  unfold version_fuel. intros Hf Hst. destruct version_root as (n & b & Hb & Hok & Hn & Hwalk).
  pose proof version_entries as Hent. pose proof version_sorted as Hsort. rewrite Hwalk in *.
  destruct (iterate_back_ok db _ n b (r_ptr r) Hn Hb Hok steps fuel) as (ls & Hls & Hmap); [|lia..|].
  { by intros He; rewrite He, lookup_empty in Hr. }
  assert (Hmap' : leaf_pair <$> rev ls = entries (walk (nodes db) n b)).
  { rewrite <-(rev_involutive (entries _)), <-Hmap. clear. induction ls as [|l ls IH]; [done|]. cbn.
    by rewrite fmap_app, IH. }
  exists ls. split_and!; [exact Hls| |].
  - rewrite <-Hmap' in Hsort. by apply sorted_leaves.
  - intros key d. rewrite <-Hent, <-Hmap', list_elem_of_fmap. unfold leaf_pair. split.
    + intros (l & [= -> ->] & Hl'). exists l. split; [|done]. by apply list_elem_of_In, in_rev, list_elem_of_In.
    + intros (l & Hl' & <- & <-). exists l. split; [done|]. apply list_elem_of_In, in_rev.
      rewrite rev_involutive. by apply list_elem_of_In.
Qed.

Lemma walk_from_key fuel steps key :
  is_word 64 key -> (version_fuel db id <= fuel)%nat -> (length (version_nodes db id) <= steps)%nat ->
  exists it ls, iterator_begin_key db fuel id key = Ok it /\ iterate db steps fuel it = Ok ls /\
    StronglySorted (fun l l' => l_key l < l_key l') ls /\
    (forall k d, (root_map db id k = Some d /\ key <= k) <-> exists l, l ∈ ls /\ l_key l = k /\ cd_bytes (l_data l) = d) /\
    Forall (leaf_ok (hash_size_of db)) ls.
Proof.
  unfold version_fuel. intros Hk Hf Hst. destruct version_root as (n & b & Hb & Hok & Hn & Hwalk).
  pose proof version_entries as Hent. pose proof version_sorted as Hsort. rewrite Hwalk in *.
  unfold iterator_begin_key. rewrite roots_not_empty. unfold get_root. rewrite Hr. cbn [of_option]. rewrite Ok_bind.
  destruct (start_from_key_ok db _ n b (r_ptr r) Hn Hb Hok fuel key Hk) as (n1 & p1 & it & Hit & Hat & He & Hl); [lia|].
  destruct (iterate_ok db _ n b (r_ptr r) Hn Hb Hok steps fuel n1 p1 it Hat) as (ls & Hls & Hmap & Hlok); [lia..|].
  exists it, ls. split_and!; [exact Hit|exact Hls| | |exact Hlok].
  - apply sorted_leaves. rewrite Hmap, He. by apply sorted_filter.
  - intros k d. rewrite <-Hent.
    assert (Hin : (k, d) ∈ entries (walk (nodes db) n b) /\ key <= k <-> (k, d) ∈ leaf_pair <$> ls).
    { rewrite Hmap, He, list_elem_of_filter. cbn. tauto. }
    rewrite Hin, list_elem_of_fmap. unfold leaf_pair. split.
    + intros (l & [= -> ->] & Hl'). by exists l.
    + intros (l & Hl' & <- & <-). by exists l.
Qed.

(** C30: [begin(at_root, key)] starts at the first key that is not less than [key]:
    the walk from there visits exactly the entries with such keys, in order. *)
Theorem iteration_from_key fuel steps key :
  is_word 64 key -> (version_fuel db id <= fuel)%nat -> (length (version_nodes db id) <= steps)%nat ->
  exists it ls, iterator_begin_key db fuel id key = Ok it /\ iterate db steps fuel it = Ok ls /\
    StronglySorted (fun l l' => l_key l < l_key l') ls /\
    forall k d, (root_map db id k = Some d /\ key <= k) <-> exists l, l ∈ ls /\ l_key l = k /\ cd_bytes (l_data l) = d.
Proof.
  intros Hk Hf Hst. destruct (walk_from_key fuel steps key Hk Hf Hst) as (it & ls & Hit & Hls & Hs & Hmap & _).
  by exists it, ls.
Qed.

Lemma find_leaf_ok fuel key :
  is_word 64 key -> (version_fuel db id <= fuel)%nat ->
  exists res, find db fuel id key = Ok res /\
    match res with
    | Some (l, _) => l_key l = key /\ root_map db id key = Some (cd_bytes (l_data l)) /\ leaf_ok (hash_size_of db) l
    | None => root_map db id key = None
    end.
Proof.
  unfold version_fuel. intros Hk Hf. destruct version_root as (n & b & Hb & Hok & Hn & Hwalk).
  pose proof version_entries as Hent. pose proof version_sorted as Hsort. rewrite Hwalk in *.
  pose proof (ro_low _ _ _ (do_roots _ Hdb id r Hr)) as Hlow. unfold VERSION_SZ in Hlow.
  unfold find. rewrite (proj2 (Z.eqb_neq id 0)) by lia. unfold iterator_begin_key. rewrite roots_not_empty.
  unfold get_root. rewrite Hr. cbn [of_option]. rewrite Ok_bind.
  destruct (start_from_key_ok db _ n b (r_ptr r) Hn Hb Hok fuel key Hk) as (n1 & p1 & it & Hit & Hat & He & Hl); [lia|].
  run Hit. assert (Hin : forall d, root_map db id key = Some d <-> (key, d) ∈ entries (rest db n1 it)).
  { intros d. rewrite <-Hent, He, list_elem_of_filter. cbn. split; [intros; split; [lia|done]|by intros [_ ?]]. }
  destruct it as [|c it].
  { exists None. split; [done|]. destruct (root_map db id key) as [d|]; [|done].
    pose proof (proj1 (Hin d) eq_refl) as Hd. by apply elem_of_nil in Hd. }
  change (iterator_eqb (c :: it) []) with false. cbn iota.
  destruct (iterator_leaf_ok db _ n b (r_ptr r) Hn Hb Hok n1 p1 c it Hat) as (l & Hleaf & Hrest). run Hleaf.
  assert (Hhead : entries (rest db n1 (c :: it)) = leaf_pair l :: entries (pend db n1 (c :: it))) by (by rewrite Hrest).
  rewrite Hhead in *. destruct (l_key l =? key) eqn:Heq; cbn [negb]; eexists; (split; [done|]).
  - apply Z.eqb_eq in Heq. split; [done|]. split; [|by eapply iterator_leaf_wf]. apply Hin. rewrite <-Heq. by left.
  - apply Z.eqb_neq in Heq. destruct (root_map db id key) as [d|] eqn:Hmap; [|done]. exfalso.
    pose proof (proj1 (Hin d) eq_refl) as Hd. apply elem_of_cons in Hd as [Hd|Hd].
    { apply Heq. by injection Hd as -> ?. }
    assert (Hge : key <= (leaf_pair l).1).
    { assert (Hfil : leaf_pair l ∈ filter (fun kd : Z * list Z => key <= kd.1) (entries (walk (nodes db) n b)))
        by (rewrite <-He; by left).
      apply list_elem_of_filter in Hfil. apply Hfil. }
    assert (Hs2 : StronglySorted (fun x y => x.1 < y.1) (leaf_pair l :: entries (pend db n1 (c :: it)))).
    { rewrite He. by apply sorted_filter. }
    inversion_clear Hs2 as [|? ? _ Hall]. rewrite Forall_forall in Hall. specialize (Hall _ Hd). cbn in *. lia.
Qed.

(** C31: [find] is the lookup of the version's map: the leaf it returns carries the
    key and the data, and there is none exactly when the key is absent. *)
Theorem find_is_lookup fuel key :
  is_word 64 key -> (version_fuel db id <= fuel)%nat ->
  exists res, find db fuel id key = Ok res /\
    match res with
    | Some (l, _) => l_key l = key /\ root_map db id key = Some (cd_bytes (l_data l))
    | None => root_map db id key = None
    end.
Proof.
  intros Hk Hf. destruct (find_leaf_ok fuel key Hk Hf) as ([[l path]|] & Hres & Hl); eexists; (split; [exact Hres|]); [|done].
  by destruct Hl as (? & ? & _).
Qed.

End version.

(** ** Root 20 of the example database: the keys 1 and 33 *)

Lemma example_db2_ok : db_ok example_db2.
Proof.
  destruct (reachable_refines checksum checksum_length checksum_bytes 0 example_db2 example_reachable2) as [s Hs].
  apply (rf_ok _ _ Hs).
Qed.
Definition example_root : triedb_root := ok_or (TriedbRoot 0 0 0 0 0) (get_root example_db2 20).
Lemma example_root_eq : roots example_db2 !! 20 = Some example_root.
Proof. by vm_compute. Qed.
Lemma example_fuel : (version_fuel example_db2 20 <= 20)%nat /\ (length (version_nodes example_db2 20) < 10)%nat.
Proof. split; [apply Nat.leb_le|apply Nat.ltb_lt]; by vm_compute. Qed.

Lemma iteration_visits_version_witness :
  exists it ls, iterator_begin example_db2 20 20 = Ok it /\ iterate example_db2 10 20 it = Ok ls /\
    StronglySorted (fun l l' => l_key l < l_key l') ls /\ exists l, l ∈ ls /\ l_key l = 33 /\ cd_bytes (l_data l) = [20].
Proof.
  destruct example_fuel as [H1 H2].
  destruct (iteration_visits_version example_db2 20 example_root example_db2_ok example_root_eq 20 10 H1
    ltac:(by apply Nat.lt_le_incl)) as (it & ls & Hit & Hls & Hs & Hmap).
  exists it, ls. split_and!; [done..|]. apply Hmap. by vm_compute.
Defined.

Lemma backward_iteration_visits_version_witness :
  exists ls, iterate_back example_db2 10 20 (r_ptr example_root) [] = Ok ls /\
    StronglySorted (fun l l' => l_key l < l_key l') (rev ls) /\
    exists l, l ∈ ls /\ l_key l = 1 /\ cd_bytes (l_data l) = [10].
Proof.
  destruct example_fuel as [H1 H2].
  destruct (backward_iteration_visits_version example_db2 20 example_root example_db2_ok example_root_eq 20 10 H1 H2)
    as (ls & Hls & Hs & Hmap).
  exists ls. split_and!; [done..|]. apply Hmap. by vm_compute.
Defined.

Lemma iteration_from_key_witness :
  exists it ls, iterator_begin_key example_db2 20 20 2 = Ok it /\ iterate example_db2 10 20 it = Ok ls /\
    StronglySorted (fun l l' => l_key l < l_key l') ls /\ exists l, l ∈ ls /\ l_key l = 33 /\ cd_bytes (l_data l) = [20].
Proof.
  destruct example_fuel as [H1 H2].
  destruct (iteration_from_key example_db2 20 example_root example_db2_ok example_root_eq 20 10 2
    ltac:(by split) H1 ltac:(by apply Nat.lt_le_incl)) as (it & ls & Hit & Hls & Hs & Hmap).
  exists it, ls. split_and!; [done..|]. apply Hmap. split; [by vm_compute|lia].
Defined.

Lemma find_is_lookup_witness :
  exists l path, find example_db2 20 20 33 = Ok (Some (l, path)) /\ cd_bytes (l_data l) = [20].
Proof.
  destruct (find_is_lookup example_db2 20 example_root example_db2_ok example_root_eq 20 33 ltac:(by split)
    (proj1 example_fuel)) as ([[l path]|] & Hfind & Hres).
  - exists l, path. split; [exact Hfind|]. destruct Hres as [_ Hmap].
    assert (Hmap' : root_map example_db2 20 33 = Some [20]) by by vm_compute. congruence.
  - exfalso. by vm_compute in Hres.
Defined.
