(* ===== verification/Util.v ===== *)
(** * Casts, hexadecimal strings and time stamps
    ([src/src/common/checked_cast.hpp], [hex.hpp], [utime.hpp], [utime.cpp])

    Characters are their codes.  The conversion between time points and ISO strings
    is Boost's and stays a parameter. *)

From S2P Require Import Prelude.

(** ** Checked casts *)

Record int_type := IntType { it_signed : bool; it_width : Z }.

Definition t_min (T : int_type) : Z := if it_signed T then - 2 ^ (it_width T - 1) else 0.
Definition t_max (T : int_type) : Z := (if it_signed T then 2 ^ (it_width T - 1) else 2 ^ it_width T) - 1.
Definition in_type (T : int_type) (v : Z) : Prop := t_min T <= v <= t_max T.
#[export] Instance in_type_dec T v : Decision (in_type T v).
Proof. unfold in_type. apply _. Defined.

(** [checked_compare_ab<false, false>] and [<true, true>] *)
Definition compare_same (t u : Z) : Z := if t <? u then -1 else if u <? t then 1 else 0.

(** The mixed cases look at the sign first and compare as unsigned values. *)
Definition checked_compare (T U : int_type) (a b : Z) : Z :=
  match it_signed T, it_signed U with
  | true, false => if a <? 0 then -1 else compare_same (wrap (it_width T) a) b
  | false, true => if b <? 0 then 1 else compare_same a (wrap (it_width U) b)
  | _, _ => compare_same a b
  end.

(** [checked_cast<T>(value)], [value] of type [U] *)
Definition checked_cast (T U : int_type) (value : Z) : res Z :=
  if checked_compare U T value (t_min T) <? 0 then Throw CheckedCast
  else if 0 <? checked_compare U T value (t_max T) then Throw CheckedCast
  else Ok (if it_signed T then sgn (it_width T) value else wrap (it_width T) value).

Lemma compare_same_spec t u :
  (compare_same t u < 0 <-> t < u) /\ (0 < compare_same t u <-> u < t).
Proof.
  unfold compare_same. destruct (Z.ltb_spec t u), (Z.ltb_spec u t); lia.
Qed.

Lemma wrap_nonneg T v : 0 < it_width T -> in_type T v -> 0 <= v -> wrap (it_width T) v = v.
Proof.
  intros Hw [H1 H2] Hv. apply wrap_id. split; [done|]. unfold t_max in H2.
  destruct (it_signed T); [|lia]. assert (2 ^ (it_width T - 1) < 2 ^ it_width T); [|lia].
  apply Z.pow_lt_mono_r; lia.
Qed.

Lemma checked_compare_spec T U a b :
  0 < it_width T -> 0 < it_width U -> in_type T a -> in_type U b ->
  (checked_compare T U a b < 0 <-> a < b) /\ (0 < checked_compare T U a b <-> b < a).
Proof.
  intros HT HU Ha Hb. unfold checked_compare.
  destruct (it_signed T) eqn:ET, (it_signed U) eqn:EU; try apply compare_same_spec.
  - destruct (Z.ltb_spec a 0) as [Hn|Hn].
    + unfold in_type, t_min in Hb. rewrite EU in Hb. lia.
    + rewrite wrap_nonneg by done. apply compare_same_spec.
  - destruct (Z.ltb_spec b 0) as [Hn|Hn].
    + unfold in_type, t_min in Ha. rewrite ET in Ha. lia.
    + rewrite wrap_nonneg by done. apply compare_same_spec.
Qed.

Lemma t_bounds_in T : 0 < it_width T -> in_type T (t_min T) /\ in_type T (t_max T).
Proof.
  intros Hw. unfold in_type, t_min, t_max. assert (0 < 2 ^ (it_width T - 1)) by (apply Z.pow_pos_nonneg; lia).
  assert (0 < 2 ^ it_width T) by (apply Z.pow_pos_nonneg; lia). destruct (it_signed T); lia.
Qed.

(** A checked cast between integer types of any signedness and width returns
    the value unchanged when the target type can hold it and throws otherwise. *)
Theorem checked_cast_exact T U value :
  0 < it_width T -> 0 < it_width U -> in_type U value ->
  checked_cast T U value = if decide (in_type T value) then Ok value else Throw CheckedCast.
Proof.
  intros HT HU Hv. destruct (t_bounds_in T HT) as [Hmin Hmax]. unfold checked_cast.
  destruct (checked_compare_spec U T value (t_min T) HU HT Hv Hmin) as [C1 _].
  destruct (checked_compare_spec U T value (t_max T) HU HT Hv Hmax) as [_ C2].
  destruct (Z.ltb_spec (checked_compare U T value (t_min T)) 0) as [H|H].
  { rewrite decide_False; [done|]. unfold in_type. lia. }
  destruct (Z.ltb_spec 0 (checked_compare U T value (t_max T))) as [H'|H'].
  { rewrite decide_False; [done|]. unfold in_type. lia. }
  assert (Hin : in_type T value) by (unfold in_type; lia). rewrite decide_True by done. f_equal.
  unfold in_type, t_min, t_max in Hin. destruct (it_signed T).
  - apply sgn_id; lia.
  - apply wrap_id. unfold is_word. lia.
Qed.

Lemma checked_cast_exact_witness :
  checked_cast (IntType false 8) (IntType true 32) (-1) = Throw CheckedCast /\
  checked_cast (IntType false 8) (IntType true 32) 255 = Ok 255.
Proof.
  split.
  - rewrite (checked_cast_exact (IntType false 8) (IntType true 32) (-1)); [done|done|done|by vm_compute].
  - rewrite (checked_cast_exact (IntType false 8) (IntType true 32) 255); [done|done|done|by vm_compute].
Defined.

(** ** Hexadecimal strings *)

(** [std::hex] with [setfill('0')] and [setw(2)] *)
Definition hex_char (d : Z) : Z := if d <? 10 then 48 + d else 87 + d.
Definition hex_byte (b : Z) : list Z := [hex_char (b / 16); hex_char (b mod 16)].
Definition hex_to_string (bytes : list Z) : list Z := bytes ≫= fun b => hex_byte (b &&& 0xff).

Definition tolower (c : Z) : Z := if (65 <=? c) && (c <=? 90) then c + 32 else c.
(** A character that is no digit counts as 0. *)
Definition nibble (c : Z) : Z :=
  let c := tolower c in
  if (48 <=? c) && (c <=? 57) then c - 48
  else if (97 <=? c) && (c <=? 102) then c - 97 + 10
  else 0.

Fixpoint hex_pairs (str : list Z) : list Z :=
  match str with
  | hi :: lo :: str => w8 ((nibble hi ≪ 4) ||| nibble lo) :: hex_pairs str
  | _ => []
  end.
Definition hex_from_string (str : list Z) (bytes_len : nat) : res (list Z) :=
  _ ← require (2 * bytes_len =? length str)%nat AssertFailed;
  Ok (hex_pairs str).

Lemma length_hex_to_string bs : length (hex_to_string bs) = (2 * length bs)%nat.
Proof.
  induction bs as [|b bs IH]; [done|]. change (hex_to_string (b :: bs)) with (hex_byte (b &&& 255) ++ hex_to_string bs).
  rewrite length_app, IH. cbn. lia.
Qed.

Lemma hex_pair b : is_word 8 b ->
  w8 ((nibble (hex_char (b / 16)) ≪ 4) ||| nibble (hex_char (b mod 16))) = b.
Proof.
  intros Hb. assert (Hall : forallb (fun b => w8 ((nibble (hex_char (b / 16)) ≪ 4) |||
    nibble (hex_char (b mod 16))) =? b) (seqZ 0 256) = true) by by vm_compute.
  rewrite forallb_forall in Hall. apply Z.eqb_eq, Hall, list_elem_of_In, elem_of_seqZ.
  unfold is_word in Hb. lia.
Qed.

(** Decoding the hexadecimal form of a byte string gives the bytes back, the
    form having two characters per byte; a length that does not fit trips the
    assertion. *)
Theorem hex_roundtrip bs n :
  are_bytes bs ->
  hex_from_string (hex_to_string bs) n =
    if decide (n = length bs) then Ok bs else Throw AssertFailed.
Proof.
  intros Hbs. unfold hex_from_string, require. rewrite length_hex_to_string.
  destruct (decide (n = length bs)) as [->|Hne].
  - rewrite Nat.eqb_refl, Ok_bind. f_equal. induction Hbs as [|b bs Hb _ IH]; [done|].
    change (hex_to_string (b :: bs)) with (hex_byte (b &&& 255) ++ hex_to_string bs).
    change (b &&& 255) with (w8 b). rewrite (wrap_id 8 b) by done.
    unfold hex_byte. cbn [app hex_pairs]. rewrite hex_pair by done. by rewrite IH.
  - rewrite (proj2 (Nat.eqb_neq _ _)) by lia. done.
Qed.

Lemma hex_roundtrip_witness :
  hex_from_string (hex_to_string [0; 171; 255]) 3 = Ok [0; 171; 255].
Proof. apply (hex_roundtrip [0; 171; 255] 3). apply (bool_decide_unpack _). by vm_compute. Defined.

(** ** Time stamps: microseconds in a 64-bit word *)

Definition now_seconds (now : Z) : Z := w64 (now - now mod 1000000).

(** [data[8-i-1] = t & 0xff; t >>= 8]: big endian. *)
Definition utime_to_bytes (t : Z) : list Z := rev (le_bytes 8 t).

(** [time_ |= data[i]; time_ <<= 8] for each byte. *)
Definition utime_from_bytes (data : list Z) : Z := foldl (fun t b => w64 ((t ||| b) ≪ 8)) 0 data.

(** The number the bytes are the big-endian form of. *)
Definition be_value (data : list Z) : Z := foldl (fun v b => 256 * v + b) 0 data.

Lemma be_value_le_bytes n v : be_value (rev (le_bytes n v)) = wrap (8 * Z.of_nat n) v.
Proof.
  unfold be_value. revert v. induction n as [|n IH]; intros v; cbn [le_bytes rev].
  - cbn. symmetry. apply Z.bits_inj'. intros i Hi. rewrite wrap_spec, Z.bits_0 by lia.
    rewrite (proj2 (Z.ltb_ge _ _)) by lia. apply andb_false_r.
  - rewrite foldl_app, IH. cbn [foldl]. rewrite !wrap_mod by lia. change (2 ^ 8) with 256.
    rewrite Z.shiftr_div_pow2 by lia. change (2 ^ 8) with 256.
    replace (8 * Z.of_nat (S n)) with (8 + 8 * Z.of_nat n) by lia. rewrite Z.pow_add_r by lia.
    change (2 ^ 8) with 256. rewrite Z.rem_mul_r by lia. lia.
Qed.

Lemma utime_from_bytes_value bs : are_bytes bs -> utime_from_bytes bs = w64 (be_value bs ≪ 8).
Proof.
  unfold utime_from_bytes, be_value. induction bs as [|b bs IH] using rev_ind; [done|].
  intros [Hbs [Hb _]%Forall_cons]%Forall_app. rewrite !foldl_app. cbn [foldl].
  rewrite IH by done. set (x := foldl (fun v b => 256 * v + b) 0 bs).
  assert (Hor : w64 (x ≪ 8) ||| b = w64 (x ≪ 8) + b).
  { rewrite <-Z.lxor_lor, <-Z.add_nocarry_lxor; [done|..]; apply Z.bits_inj'; intros n Hn;
      rewrite Z.land_spec, wrap_spec, Z.shiftl_spec, Z.bits_0 by lia;
      (destruct (decide (n < 8)); [by rewrite (Z.testbit_neg_r x (n - 8)) by lia|]);
      apply is_word_testbit in Hb as [_ Hb]; try done; rewrite (Hb n) by lia; apply andb_false_r. }
  rewrite Hor, !wrap_mod, !Z.shiftl_mul_pow2 by lia. change (2 ^ 8) with 256.
  rewrite <-(Z.mul_mod_idemp_l (_ + b)), <-(Z.mul_mod_idemp_l (256 * x + b)) by lia.
  rewrite Z.add_mod_idemp_l by lia. do 2 f_equal. f_equal. lia.
Qed.

Lemma utime_be_value t : is_word 64 t -> be_value (utime_to_bytes t) = t.
Proof. intros Ht. unfold utime_to_bytes. rewrite be_value_le_bytes. by apply wrap_id. Qed.

Lemma length_utime_to_bytes t : length (utime_to_bytes t) = 8%nat.
Proof. unfold utime_to_bytes. by rewrite length_rev, length_le_bytes. Qed.

Lemma utime_from_to_bytes t : is_word 64 t -> utime_from_bytes (utime_to_bytes t) = w64 (t ≪ 8).
Proof.
  intros Ht. rewrite utime_from_bytes_value, utime_be_value; [done|done|].
  unfold utime_to_bytes, are_bytes. apply Forall_forall.
  intros b Hb. pose proof (le_bytes_are_bytes 8 t) as Hall. unfold are_bytes in Hall. rewrite Forall_forall in Hall.
  by apply Hall, list_elem_of_In, in_rev, list_elem_of_In.
Qed.

(** [to_bytes] is the big-endian form of the time, but [from_bytes] is not its
    inverse: it shifts after the last byte too, so the time comes back times 256
    and without its most significant byte. *)
Theorem utime_bytes t :
  is_word 64 t ->
  be_value (utime_to_bytes t) = t /\ length (utime_to_bytes t) = 8%nat /\
  utime_from_bytes (utime_to_bytes t) = w64 (t ≪ 8).
Proof.
  intros Ht. split_and!; [by apply utime_be_value|apply length_utime_to_bytes|by apply utime_from_to_bytes].
Qed.

Lemma utime_bytes_witness : utime_from_bytes (utime_to_bytes 1) = 256.
Proof. apply (utime_bytes 1). by split. Defined.

(** [str]: [YYYYMMDDTHHMMSS] and an optional fraction become
    [YYYY.MM.DDTHH:MM:SS] and the fraction. *)
Definition substr (s : list Z) (i n : nat) : list Z := take n (drop i s).
Definition utime_format (iso : list Z) : list Z :=
  substr iso 0 4 ++ [46] ++ substr iso 4 2 ++ [46] ++ substr iso 6 2 ++ [84] ++
  substr iso 9 2 ++ [58] ++ substr iso 11 2 ++ [58] ++ substr iso 13 2 ++ drop 15 iso.

(** [parse] rewrites the dotted form to the ISO form and leaves other strings. *)
Definition utime_rewrite (s : list Z) : list Z :=
  if (19 <=? length s)%nat && bool_decide (s !! 4%nat = Some 46) && bool_decide (s !! 7%nat = Some 46) &&
     bool_decide (s !! 10%nat = Some 84) && bool_decide (s !! 13%nat = Some 58) && bool_decide (s !! 16%nat = Some 58)
  then
    let has_micro := (19 <? length s)%nat && bool_decide (s !! 19%nat = Some 46) in
    substr s 0 4 ++ substr s 5 2 ++ substr s 8 2 ++ [84] ++ substr s 11 2 ++ substr s 14 2 ++ substr s 17 2 ++
    (if has_micro then drop 19 s else [])
  else s.

Section boost.
(** Boost's [to_iso_string] and [from_iso_string] on microseconds since the epoch. *)
Context (to_iso : Z -> list Z) (from_iso : list Z -> option Z).

Definition utime_str (t : Z) : list Z := utime_format (to_iso t).
Definition utime_parse (s : list Z) : option Z := from_iso (utime_rewrite s).

(** The documented shape of an ISO string: date, [T], time of day and an optional
    fraction after a dot. *)
Definition iso_shape (iso : list Z) : Prop :=
  (15 <= length iso)%nat /\ iso !! 8%nat = Some 84 /\
  (length iso = 15%nat \/ iso !! 15%nat = Some 46).

(** The two rewritings of time strings are inverse to each other, so a printed
    time parses to itself whenever Boost's two conversions are inverse and print
    the documented format. *)
Theorem utime_str_parse t :
  iso_shape (to_iso t) -> from_iso (to_iso t) = Some t -> utime_parse (utime_str t) = Some t.
Proof.
  intros (Hlen & HT & Hfrac) Hinv. unfold utime_parse, utime_str.
  enough (utime_rewrite (utime_format (to_iso t)) = to_iso t) as -> by done.
  destruct (to_iso t) as [|a0 [|a1 [|a2 [|a3 [|a4 [|a5 [|a6 [|a7 [|a8 [|a9 [|a10 [|a11 [|a12 [|a13 [|a14 rest]]]]]]]]]]]]]]];
    cbn in Hlen; try lia. cbn in HT, Hfrac. injection HT as ->.
  unfold utime_rewrite, utime_format, substr. cbn [take drop app length Nat.leb Nat.ltb].
  rewrite !bool_decide_true by done. cbn [andb lookup list_lookup].
  destruct rest as [|f rest].
  - done.
  - destruct Hfrac as [|Hf]; [cbn [length] in *; lia|]. injection Hf as ->. cbn. done.
Qed.
End boost.

Lemma utime_str_parse_witness :
  let iso := [50; 48; 50; 52; 48; 49; 51; 49; 84; 49; 50; 51; 48; 48; 53; 46; 55] in
  utime_parse (fun s => if bool_decide (s = iso) then Some 7 else None)
    (utime_str (fun _ => iso) 7) = Some 7.
Proof.
  intros iso. apply (utime_str_parse (fun _ => iso) (fun s => if bool_decide (s = iso) then Some 7 else None) 7).
  - split; [cbn; lia|]. split; [done|by right].
  - by rewrite bool_decide_true.
Defined.
