(* ===== verification/Lru.v ===== *)
(** * The least-recently-used cache ([src/src/common/lru_cache.hpp])

    A cache is a map with the list of its keys in the order of their last access,
    the latest first.  The trie database reads its nodes through such caches; the
    last section shows that this reading is the reading of the store. *)

From S2P Require Import Prelude.

Section lru.
Context {K : Type} `{Countable K} {V : Type}.
Implicit Types (k : K) (v : V).

Record lru_cache := LruCache {
  lc_capacity : nat;
  lc_map : gmap K V;
  lc_access : list K
}.

Definition lru_empty (capacity : nat) : lru_cache := LruCache capacity ∅ [].

(** [erase]: the cache and the entry handed to [evicted]. *)
Definition lru_erase (c : lru_cache) k : lru_cache * option (K * V) :=
  match lc_map c !! k with
  | None => (c, None)
  | Some v =>
      (LruCache (lc_capacity c) (delete k (lc_map c)) (filter (fun k' => k' <> k) (lc_access c)),
       Some (k, v))
  end.

(** An existing key keeps its value and its place.  [access_.back()] of an empty
    list is undefined. *)
Definition lru_insert (c : lru_cache) k v : res (lru_cache * option (K * V)) :=
  match lc_map c !! k with
  | Some _ => Ok (c, None)
  | None =>
      '(c, evicted) ←
        (if (lc_capacity c <=? length (lc_access c))%nat then
           removed_key ← of_option (last (lc_access c)) UndefinedBehaviour;
           Ok (lru_erase c removed_key)
         else Ok (c, None));
      Ok (LruCache (lc_capacity c) (<[k := v]> (lc_map c)) (k :: lc_access c), evicted)
  end.

(** [find] moves the key to the front. *)
Definition lru_find (c : lru_cache) k : lru_cache * option V :=
  match lc_map c !! k with
  | None => (c, None)
  | Some v =>
      (LruCache (lc_capacity c) (lc_map c) (k :: filter (fun k' => k' <> k) (lc_access c)), Some v)
  end.

(** [while (!access_.empty()) erase(access_.back())] with the evicted entries. *)
Fixpoint clear_loop (fuel : nat) (c : lru_cache) : res (lru_cache * list (K * V)) :=
  match last (lc_access c) with
  | None => Ok (c, [])
  | Some k =>
      match fuel with
      | O => Throw OutOfFuel
      | S fuel =>
          let '(c, e) := lru_erase c k in
          '(c, es) ← clear_loop fuel c;
          Ok (c, option_list e ++ es)
      end
  end.
Definition lru_clear (c : lru_cache) : res (lru_cache * list (K * V)) :=
  clear_loop (length (lc_access c)) c.

(** ** The invariant *)

Record cache_ok (c : lru_cache) : Prop := CacheOk {
  co_nodup : NoDup (lc_access c);
  co_keys : forall k, k ∈ lc_access c <-> is_Some (lc_map c !! k);
  co_size : (length (lc_access c) <= lc_capacity c)%nat
}.

Lemma filter_other k (l : list K) : (k ∉ l) -> filter (fun k' => k' <> k) l = l.
Proof.
  intros Hk. induction l as [|x l IH]; [done|]. rewrite filter_cons_True.
  - f_equal. apply IH. intros Hx. apply Hk. by right.
  - intros ->. apply Hk. by left.
Qed.

Lemma length_filter_other k (l : list K) :
  NoDup l -> k ∈ l -> S (length (filter (fun k' => k' <> k) l)) = length l.
Proof.
  induction 1 as [|x l Hx Hl IH]; [by intros ?%elem_of_nil|].
  intros [->|Hk]%elem_of_cons.
  - rewrite filter_cons_False by (intros H'; by apply H'). by rewrite filter_other.
  - rewrite filter_cons_True by congruence. cbn. by rewrite IH.
Qed.

Lemma erase_ok c k : cache_ok c -> cache_ok (lru_erase c k).1.
Proof.
  intros [Hn Hk Hs]. unfold lru_erase. destruct (lc_map c !! k) as [v|] eqn:Hv; [|done].
  split; cbn.
  - by apply NoDup_filter.
  - intros k'. rewrite list_elem_of_filter, Hk. destruct (decide (k' = k)) as [->|Hne].
    + rewrite lookup_delete_eq. split; [by intros [? _]|by intros [? ?]].
    + rewrite lookup_delete_ne by done. tauto.
  - etrans; [|exact Hs]. apply length_filter.
Qed.

Lemma last_erase_length c k :
  cache_ok c -> last (lc_access c) = Some k ->
  S (length (lc_access (lru_erase c k).1)) = length (lc_access c).
Proof.
  intros [Hn Hk Hs] Hl. apply last_Some_elem_of in Hl as Hin. unfold lru_erase.
  destruct (proj1 (Hk k) Hin) as [v ->]. cbn. by apply length_filter_other.
Qed.

Lemma erase_capacity c k : lc_capacity (lru_erase c k).1 = lc_capacity c.
Proof. unfold lru_erase. by destruct (lc_map c !! k). Qed.

Lemma find_ok c k : cache_ok c -> cache_ok (lru_find c k).1.
Proof.
  intros [Hn Hk Hs]. unfold lru_find. destruct (lc_map c !! k) as [v|] eqn:Hv; [|done].
  assert (Hin : k ∈ lc_access c) by (apply Hk; by eexists).
  split; cbn.
  - constructor; [|by apply NoDup_filter]. rewrite list_elem_of_filter. by intros [? _].
  - intros k'. rewrite elem_of_cons, list_elem_of_filter, <-Hk. destruct (decide (k' = k)) as [->|]; tauto.
  - by rewrite length_filter_other.
Qed.

Lemma lru_insert_ok c k v :
  cache_ok c -> (0 < lc_capacity c)%nat ->
  exists c' evicted, lru_insert c k v = Ok (c', evicted) /\ cache_ok c' /\ lc_capacity c' = lc_capacity c.
Proof.
  intros Hc Hcap. pose proof Hc as [Hn Hk Hs]. unfold lru_insert.
  destruct (lc_map c !! k) as [w|] eqn:Hw; [by exists c, None|].
  assert (Hadd : forall c1, cache_ok c1 -> lc_map c1 !! k = None -> (length (lc_access c1) < lc_capacity c1)%nat ->
    cache_ok (LruCache (lc_capacity c1) (<[k:=v]> (lc_map c1)) (k :: lc_access c1))).
  { intros c1 [Hn1 Hk1 Hs1] Hw1 Hlt. split; cbn.
    - constructor; [|done]. rewrite Hk1, Hw1. by intros [? ?].
    - intros k'. rewrite elem_of_cons, Hk1. destruct (decide (k' = k)) as [->|Hne].
      + rewrite lookup_insert_eq. split; [by eexists|by left].
      + rewrite lookup_insert_ne by done. tauto.
    - lia. }
  destruct (lc_capacity c <=? length (lc_access c))%nat eqn:Hfull.
  - apply Nat.leb_le in Hfull. destruct (last (lc_access c)) as [d|] eqn:Hl.
    2:{ apply last_None in Hl. rewrite Hl in Hfull. cbn in Hfull. lia. }
    cbn [of_option]. rewrite Ok_bind. destruct (lru_erase c d) as [c1 ev] eqn:He. rewrite Ok_bind.
    pose proof (erase_ok c d Hc) as Hc1. pose proof (last_erase_length c d Hc Hl) as Hlen.
    pose proof (erase_capacity c d) as Hcap1. rewrite He in *. cbn [fst] in *.
    eexists _, ev. split; [done|]. rewrite <-Hcap1. split; [|done]. apply Hadd; [done| |lia].
    unfold lru_erase in He. destruct (lc_map c !! d); injection He as <- <-; [|done]. cbn.
    rewrite lookup_delete. by destruct (decide (d = k)).
  - apply Nat.leb_gt in Hfull. rewrite Ok_bind. eexists _, None. split; [done|]. by split; [apply Hadd|].
Qed.

(** ** The cache as a recency list *)

(** The entries, the last accessed first: what the cache promises. *)
Definition recency (c : lru_cache) : list (K * V) :=
  omap (fun k => v ← lc_map c !! k; Some (k, v)) (lc_access c).

Definition recent_insert (capacity : nat) (l : list (K * V)) k v : list (K * V) :=
  if bool_decide (k ∈ l.*1) then l else (k, v) :: take (capacity - 1) l.
Definition recent_find (l : list (K * V)) k : list (K * V) * option V :=
  match list_find (fun kv => kv.1 = k) l with
  | Some (_, (_, v)) => ((k, v) :: filter (fun kv => kv.1 <> k) l, Some v)
  | None => (l, None)
  end.

Lemma recency_keys c : cache_ok c -> (recency c).*1 = lc_access c.
Proof.
  intros [_ Hk _]. unfold recency.
  assert (Hall : Forall (fun k => is_Some (lc_map c !! k)) (lc_access c)) by (apply Forall_forall; intros k; apply Hk).
  clear Hk. induction Hall as [|k l [v Hv] _ IH]; [done|]. cbn. rewrite Hv. cbn. f_equal. exact IH.
Qed.

Lemma recency_last c k :
  cache_ok c -> last (lc_access c) = Some k ->
  exists v, lc_map c !! k = Some v /\ last (recency c) = Some (k, v).
Proof.
  intros Hc Hl. pose proof (recency_keys c Hc) as Hrk. destruct Hc as [_ Hk _].
  assert (Hin : is_Some (lc_map c !! k)) by (apply Hk; by apply last_Some_elem_of).
  destruct Hin as [v Hv]. exists v. split; [done|].
  assert (Hd : last ((recency c).*1) = Some k) by (by rewrite Hrk).
  rewrite fmap_last in Hd. destruct (last (recency c)) as [[d w]|] eqn:Hlr; [|done].
  injection Hd as ->. apply last_Some_elem_of in Hlr. unfold recency in Hlr.
  apply list_elem_of_omap in Hlr as (x & _ & Hx). destruct (lc_map c !! x) eqn:E; cbn in Hx; congruence.
Qed.

Lemma recency_filter c k (m : gmap K V) :
  (forall k', k' <> k -> m !! k' = lc_map c !! k') ->
  omap (fun k => v ← m !! k; Some (k, v)) (filter (fun k' => k' <> k) (lc_access c)) =
  filter (fun kv : K * V => kv.1 <> k) (recency c).
Proof.
  intros Hm. unfold recency. induction (lc_access c) as [|x l IH]; [done|].
  destruct (decide (x = k)) as [->|Hne].
  - rewrite filter_cons_False by (intros H'; by apply H'). rewrite IH. cbn [omap list_omap].
    destruct (lc_map c !! k); cbn [mbind option_bind]; [|done].
    rewrite filter_cons_False; [done|]. cbn. intros H'. by apply H'.
  - rewrite filter_cons_True by done. cbn [omap list_omap]. rewrite Hm by done.
    destruct (lc_map c !! x); cbn [mbind option_bind]; [|exact IH].
    rewrite filter_cons_True by done. f_equal. exact IH.
Qed.

Lemma filter_last k (l : list (K * V)) v :
  NoDup (l.*1) -> last l = Some (k, v) -> filter (fun kv => kv.1 <> k) l = take (length l - 1) l.
Proof.
  intros Hn Hl. apply last_Some in Hl as [l' ->]. rewrite length_app, fmap_app in *. cbn [length fmap list_fmap] in *.
  replace (length l' + 1 - 1)%nat with (length l') by lia. rewrite take_app_length, filter_app.
  rewrite filter_cons_False by (cbn; intros H'; by apply H'). rewrite app_nil_r.
  apply NoDup_app in Hn as (_ & Hn & _). induction l' as [|x l' IH]; [done|].
  rewrite filter_cons_True.
  - f_equal. apply IH. intros y Hy. apply Hn. by right.
  - intros Hx. apply (Hn x.1); [by left|]. rewrite Hx. by left.
Qed.

Lemma list_find_recency c k :
  match lc_map c !! k with
  | Some v => k ∈ lc_access c -> exists i, list_find (fun kv => kv.1 = k) (recency c) = Some (i, (k, v))
  | None => list_find (fun kv => kv.1 = k) (recency c) = None
  end.
Proof.
  unfold recency. induction (lc_access c) as [|x l IH].
  { destruct (lc_map c !! k); [by intros ?%elem_of_nil|done]. }
  cbn. destruct (decide (x = k)) as [->|Hne].
  - destruct (lc_map c !! k) as [v|] eqn:Hv; cbn; [|exact IH].
    intros _. rewrite decide_True by done. by exists 0%nat.
  - destruct (lc_map c !! k) as [v|]; destruct (lc_map c !! x) as [w|]; cbn.
    + intros [->|Hin]%elem_of_cons; [done|]. destruct (IH Hin) as [i Hi].
      rewrite decide_False by done. rewrite Hi. by exists (S i).
    + intros [->|Hin]%elem_of_cons; [done|]. by apply IH.
    + rewrite decide_False by done. by rewrite IH.
    + done.
Qed.

(** C39: The cache refines the recency list: its operations keep the invariant and
    act on the list of its entries, the last accessed first, as a
    least-recently-used cache should.  A full cache evicts the entry that was
    accessed longest ago, and an insertion of a known key changes nothing. *)
Theorem lru_refines_recency c k v :
  cache_ok c -> (0 < lc_capacity c)%nat ->
  (exists c' evicted, lru_insert c k v = Ok (c', evicted) /\ cache_ok c' /\
     recency c' = recent_insert (lc_capacity c) (recency c) k v /\
     evicted = (if bool_decide (k ∈ lc_access c) then None
                else if bool_decide (length (lc_access c) = lc_capacity c) then last (recency c) else None)) /\
  (cache_ok (lru_find c k).1 /\ (recency (lru_find c k).1, (lru_find c k).2) = recent_find (recency c) k).
Proof.
  intros Hc Hcap. pose proof Hc as [Hn Hk Hs]. pose proof (recency_keys c Hc) as Hrk.
  assert (Hlen : length (recency c) = length (lc_access c)) by (by rewrite <-Hrk, length_fmap).
  split.
  - destruct (lru_insert_ok c k v Hc Hcap) as (c' & ev & Hins & Hc' & Hcap'). exists c', ev.
    split; [done|]. split; [done|]. unfold recent_insert. rewrite Hrk. revert Hins. unfold lru_insert.
    destruct (lc_map c !! k) as [w|] eqn:Hw.
    { intros [= <- <-]. rewrite !(bool_decide_true (k ∈ lc_access c)) by (apply Hk; by eexists). done. }
    rewrite !(bool_decide_false (k ∈ _)) by (rewrite Hk, Hw; by intros [? ?]).
    assert (Hnew : forall c1, lc_map c1 !! k = None -> (k ∉ lc_access c1) ->
      recency (LruCache (lc_capacity c1) (<[k:=v]> (lc_map c1)) (k :: lc_access c1)) = (k, v) :: recency c1).
    { intros c1 Hw1 Hk1. unfold recency. cbn. rewrite lookup_insert_eq. cbn. f_equal.
      induction (lc_access c1) as [|x l IH]; [done|]. cbn.
      rewrite lookup_insert_ne by (intros ->; apply Hk1; by left).
      rewrite IH; [done|]. intros Hx. apply Hk1. by right. }
    assert (Hkn : k ∉ lc_access c) by (rewrite Hk, Hw; by intros [? ?]).
    destruct (lc_capacity c <=? length (lc_access c))%nat eqn:Hfull.
    + apply Nat.leb_le in Hfull. destruct (last (lc_access c)) as [d|] eqn:Hl; [|by intros H'].
      cbn [of_option]. rewrite Ok_bind. rewrite bool_decide_true by lia.
      destruct (recency_last c d Hc Hl) as (w' & Hw' & Hlast).
      unfold lru_erase. rewrite Hw'. rewrite Ok_bind. intros [= <- <-]. split; [|done].
      pose proof (Hnew (LruCache (lc_capacity c) (delete d (lc_map c))
        (filter (fun k' => k' <> d) (lc_access c)))) as Hn'. cbn [lc_map lc_access lc_capacity] in Hn'. rewrite Hn'.
      * f_equal. unfold recency at 1. cbn. rewrite (recency_filter c d) by (intros; by rewrite lookup_delete_ne).
        rewrite (filter_last d _ w') by (done || by rewrite Hrk). f_equal. lia.
      * rewrite lookup_delete. by destruct (decide (d = k)).
      * rewrite list_elem_of_filter. by intros [_ ?].
    + apply Nat.leb_gt in Hfull. rewrite Ok_bind. rewrite bool_decide_false by lia. intros [= <- <-].
      split; [|done]. rewrite Hnew by done. f_equal. rewrite take_ge; [done|]. lia.
  - split; [by apply find_ok|]. unfold lru_find, recent_find. pose proof (list_find_recency c k) as Hlf.
    destruct (lc_map c !! k) as [w|] eqn:Hw; [|by rewrite Hlf].
    destruct Hlf as [i ->]; [apply Hk; by eexists|]. cbn [fst snd]. f_equal. unfold recency at 1. cbn.
    rewrite Hw. cbn. f_equal. by apply recency_filter.
Qed.

(** ** Reading a store through a cache *)

Section store.
Context (store : gmap K V).

(** [get_leaf] and [get_branch] of the trie database. *)
Definition cached_get (c : lru_cache) k : res (lru_cache * V) :=
  match lru_find c k with
  | (c, Some v) => Ok (c, v)
  | (c, None) =>
      v ← of_option (store !! k) UndefinedBehaviour;
      '(c, _) ← lru_insert c k v;
      Ok (c, v)
  end.
Fixpoint cached_gets (c : lru_cache) (ks : list K) : res (lru_cache * list V) :=
  match ks with
  | [] => Ok (c, [])
  | k :: ks => '(c, v) ← cached_get c k; '(c, vs) ← cached_gets c ks; Ok (c, v :: vs)
  end.

(** Everything cached is what the store holds. *)
Definition coherent (c : lru_cache) : Prop := lc_map c ⊆ store.

Lemma cached_get_ok c k v :
  cache_ok c -> (0 < lc_capacity c)%nat -> coherent c -> store !! k = Some v ->
  exists c', cached_get c k = Ok (c', v) /\ cache_ok c' /\ lc_capacity c' = lc_capacity c /\ coherent c'.
Proof.
  intros Hc Hcap Hcoh Hv. unfold cached_get. pose proof (find_ok c k Hc) as Hf. unfold lru_find in *.
  destruct (lc_map c !! k) as [w|] eqn:Hw; cbn [fst] in Hf.
  - eexists. split; [|done]. assert (store !! k = Some w) by (by eapply lookup_weaken). congruence.
  - rewrite Hv. cbn [of_option]. rewrite Ok_bind.
    destruct (lru_insert_ok c k v Hc Hcap) as (c' & ev & Hins & Hc' & Hcap'). rewrite Hins, Ok_bind.
    exists c'. split_and!; [done..|]. revert Hins. unfold lru_insert. rewrite Hw. unfold coherent in *.
    destruct (lc_capacity c <=? length (lc_access c))%nat.
    + destruct (last (lc_access c)) as [d|]; [|by intros H']. cbn [of_option]. rewrite Ok_bind.
      unfold lru_erase. destruct (lc_map c !! d); rewrite Ok_bind; intros [= <- <-]; cbn.
      * apply insert_subseteq_l; [done|]. etrans; [apply delete_subseteq|done].
      * by apply insert_subseteq_l.
    + rewrite Ok_bind. intros [= <- <-]. cbn. by apply insert_subseteq_l.
Qed.

(** Reading nodes through the cache is reading the store: any sequence of
    cached reads returns the stored values, whatever is evicted on the way, and
    keeps the cache well-formed and coherent. *)
Theorem cached_reads_are_reads c ks vs :
  cache_ok c -> (0 < lc_capacity c)%nat -> coherent c ->
  Forall2 (fun k v => store !! k = Some v) ks vs ->
  exists c', cached_gets c ks = Ok (c', vs) /\ cache_ok c' /\ coherent c'.
Proof.
  intros Hc Hcap Hcoh Hall. revert c Hc Hcap Hcoh.
  induction Hall as [|k v ks vs Hv _ IH]; intros c Hc Hcap Hcoh; cbn [cached_gets]; [by exists c|].
  destruct (cached_get_ok c k v Hc Hcap Hcoh Hv) as (c1 & -> & Hc1 & Hcap1 & Hcoh1). rewrite Ok_bind.
  destruct (IH c1 Hc1) as (c' & -> & Hc' & Hcoh'); [lia|done|]. rewrite Ok_bind. by exists c'.
Qed.

End store.

(** ** Clearing *)

Lemma clear_ok c : cache_ok c -> exists c', lru_clear c = Ok (c', rev (recency c)) /\ recency c' = [].
Proof.
  unfold lru_clear. remember (length (lc_access c)) as n eqn:Hlen. revert c Hlen.
  induction n as [|n IH]; intros c Hlen Hc; cbn [clear_loop].
  - symmetry in Hlen. apply nil_length_inv in Hlen. rewrite Hlen. exists c. unfold recency. rewrite Hlen. done.
  - destruct (last (lc_access c)) as [k|] eqn:Hl; [|apply last_None in Hl; by rewrite Hl in Hlen].
    pose proof Hc as [Hn Hk Hs]. pose proof (recency_keys c Hc) as Hrk.
    destruct (recency_last c k Hc Hl) as (v & Hv & Hlast).
    pose proof (erase_ok c k Hc) as Hc1. pose proof (last_erase_length c k Hc Hl) as Hl1. unfold lru_erase in *.
    rewrite Hv in *. cbn [fst] in *.
    pose proof (fun h => IH _ h Hc1) as IH1. destruct IH1 as (c' & -> & Hr); [lia|]. rewrite Ok_bind. exists c'. split; [|done]. cbn [option_list app].
    assert (Hrec : recency (LruCache (lc_capacity c) (delete k (lc_map c)) (filter (fun k' => k' <> k) (lc_access c)))
      = filter (fun kv => kv.1 <> k) (recency c)).
    { unfold recency at 1. cbn. apply recency_filter. intros. by rewrite lookup_delete_ne. }
    rewrite Hrec, (filter_last k _ v) by (done || by rewrite Hrk).
    apply last_Some in Hlast as [l Hl']. rewrite Hl', length_app, rev_app_distr. cbn [length].
    replace (length l + 1 - 1)%nat with (length l) by lia. by rewrite take_app_length.
Qed.

End lru.
Arguments lru_cache K {_ _} V.

(** ** Examples: a cache of two entries *)

Definition small_cache : lru_cache Z Z := LruCache 2 {[1 := 10; 2 := 20]} [1; 2].
Lemma small_cache_ok : cache_ok small_cache.
Proof.
  split; [|intros k|done].
  - apply (bool_decide_unpack _). by vm_compute.
  - cbn. rewrite !elem_of_cons, elem_of_nil. split.
    + intros [->|[->|[]]]; by eexists.
    + intros [v Hv]. apply lookup_insert_Some in Hv as [[<- _]|[_ Hv]]; [by left|].
      apply lookup_singleton_Some in Hv as [<- _]. by right; left.
Qed.

Lemma lru_refines_recency_witness :
  exists c' evicted, lru_insert small_cache 3 30 = Ok (c', evicted) /\ cache_ok c' /\
    recency c' = [(3, 30); (1, 10)] /\ evicted = Some (2, 20).
Proof.
  destruct (lru_refines_recency small_cache 3 30 small_cache_ok ltac:(cbn; lia)) as [(c' & ev & H1 & H2 & H3 & H4) _].
  exists c', ev. split_and!; [exact H1|exact H2|rewrite H3; by vm_compute|rewrite H4; by vm_compute].
Defined.

Lemma cached_reads_are_reads_witness :
  exists c', cached_gets ({[1 := 10; 2 := 20; 3 := 30]} : gmap Z Z) small_cache [3; 2; 3] = Ok (c', [30; 20; 30]) /\
    cache_ok c' /\ coherent ({[1 := 10; 2 := 20; 3 := 30]} : gmap Z Z) c'.
Proof.
  apply cached_reads_are_reads; [apply small_cache_ok|cbn; lia| |repeat constructor].
  unfold coherent. cbn. apply map_subseteq_spec. intros k v Hv.
  apply lookup_insert_Some in Hv as [[<- <-]|[_ Hv]]; [done|].
  apply lookup_singleton_Some in Hv as [<- <-]. done.
Defined.
