(* ===== verification/MetaEntry.v ===== *)
(** * Block headers ([src/src/global/meta_entry.hpp], [meta_entry.cpp])

    Identifiers of blocks ([meta_id]), their order, and the serialisation of
    [meta_entry] with its parts: [flt1648] ([src/src/pow/flt.hpp] over
    [fxp.hpp]) and [pow_proof] ([src/src/pow/pow_verifier.hpp]). *)

From S2P Require Import Prelude Bits TrieNode Util.

(** ** Identifiers *)

Definition HASH_SIZE : nat := 32.
Abbreviation meta_id := (list Z).
Definition meta_id_zero : meta_id := replicate HASH_SIZE 0.
Definition id_is_zero (id : meta_id) : bool := bool_decide (id = meta_id_zero).

(** The sign of [memcmp]. *)
Fixpoint memcmp (a b : list Z) : Z :=
  match a, b with
  | x :: a, y :: b => if x <? y then -1 else if y <? x then 1 else memcmp a b
  | _, _ => 0
  end.
(** [operator <] *)
Definition id_lt (a b : meta_id) : bool := memcmp a b <? 0.

(** ** Proof of work fields *)

(** [exponent_] is 16-bit signed, [mantissa_] a 64-bit fixed-point word. *)
Record flt1648 := Flt { f_exponent : Z; f_mantissa : Z }.

(** [fxp1648::write] *)
Definition fxp_write (data : Z) : list Z :=
  [(data ≫ 56) &&& 0xff; (data ≫ 48) &&& 0xff; (data ≫ 40) &&& 0xff; (data ≫ 32) &&& 0xff;
   (data ≫ 24) &&& 0xff; (data ≫ 16) &&& 0xff; (data ≫ 8) &&& 0xff; (data ≫ 0) &&& 0xff].

(** The exponent overwrites the two high bytes of the mantissa. *)
Definition flt_write (f : flt1648) : list Z :=
  (w8 ((f_exponent f ≫ 8) &&& 0xff)) :: (w8 (f_exponent f &&& 0xff)) :: drop 2 (fxp_write (f_mantissa f)).

(** [mantissa().read(fraction)] reads into a temporary: the mantissa stays. *)
Definition flt_read (self : flt1648) (bytes : list Z) : res (flt1648 * list Z) :=
  '(b, rest) ← get_bytes 8 bytes;
  b0 ← of_option (b !! 0%nat) UndefinedBehaviour;
  b1 ← of_option (b !! 1%nat) UndefinedBehaviour;
  Ok (Flt (sgn 16 ((b0 ≪ 8) ||| b1)) (f_mantissa self), rest).

Definition NUM_ROWS : nat := 4.
Definition ROW_SIZE : nat := 9.
Definition TOTAL_SIZE : nat := ROW_SIZE * NUM_ROWS.
Definition TOTAL_SIZE_BYTES : Z := Z.of_nat TOTAL_SIZE * 4.

(** [pow_proof]: 36 words, big endian. *)
Definition word_bytes (word : Z) : list Z :=
  [(word ≫ 24) &&& 0xff; (word ≫ 16) &&& 0xff; (word ≫ 8) &&& 0xff; (word ≫ 0) &&& 0xff].
Definition proof_write (data : list Z) : list Z := data ≫= word_bytes.
Fixpoint proof_words (n : nat) (bytes : list Z) : res (list Z) :=
  match n with
  | O => Ok []
  | S n =>
      match bytes with
      | b0 :: b1 :: b2 :: b3 :: bytes =>
          ws ← proof_words n bytes;
          Ok (((b0 ≪ 24) ||| (b1 ≪ 16) ||| (b2 ≪ 8) ||| b3) :: ws)
      | _ => Throw UndefinedBehaviour
      end
  end.
Definition proof_read (bytes : list Z) : res (list Z * list Z) :=
  '(b, rest) ← get_bytes TOTAL_SIZE_BYTES bytes;
  ws ← proof_words TOTAL_SIZE b;
  Ok (ws, rest).

(** ** Entries *)

Record meta_entry := MetaEntry {
  m_id : meta_id;
  m_previous_id : meta_id;
  m_version : Z;
  m_height : Z;
  m_timestamp : Z;
  m_pow_proof : list Z;
  m_pow_difficulty : flt1648;
  m_root_meta : Z;
  m_root_blocks : Z;
  m_root_heap : Z;
  m_root_closure : Z;
  m_root_symbols : Z;
  m_root_program : Z
}.

(** [flt1648(1)]: mantissa 1 and exponent 48, normalised to 2^47 and 1. *)
Definition flt_one : flt1648 := Flt 1 (2 ^ 47).

Definition meta_entry_default : meta_entry :=
  MetaEntry meta_id_zero meta_id_zero 1 0 0 (replicate TOTAL_SIZE 0) flt_one 0 0 0 0 0 0.

Definition is_partial (e : meta_entry) : bool :=
  (m_root_heap e =? 0) || (m_root_closure e =? 0) || (m_root_symbols e =? 0) || (m_root_program e =? 0).

Definition entry_serialization_size : Z := 32 + 8 + 32 + 8 + TOTAL_SIZE_BYTES + 8 + 5 * 8 + 4 * 8.

(** The bytes [write] fills; the last 32 of [serialization_size] stay as they are. *)
Definition entry_write (e : meta_entry) : list Z :=
  m_id e ++ write_uint64 (m_version e) ++ m_previous_id e ++ utime_to_bytes (m_timestamp e) ++
  flt_write (m_pow_difficulty e) ++ proof_write (m_pow_proof e) ++
  write_uint64 (m_root_blocks e) ++ write_uint64 (m_root_heap e) ++ write_uint64 (m_root_closure e) ++
  write_uint64 (m_root_symbols e) ++ write_uint64 (m_root_program e).

(** [read] into [self]: height and [root_id_meta_] are not read. *)
Definition entry_read (self : meta_entry) (data : list Z) : res meta_entry :=
  '(id, p) ← get_bytes 32 data;
  '(version, p) ← get_u64 p;
  '(previous, p) ← get_bytes 32 p;
  '(ts, p) ← get_bytes 8 p;
  '(difficulty, p) ← flt_read (m_pow_difficulty self) p;
  '(proof, p) ← proof_read p;
  '(blocks, p) ← get_u64 p;
  '(heap, p) ← get_u64 p;
  '(closure, p) ← get_u64 p;
  '(symbols, p) ← get_u64 p;
  '(program, p) ← get_u64 p;
  Ok (MetaEntry id previous version (m_height self) (utime_from_bytes ts) proof difficulty (m_root_meta self)
        blocks heap closure symbols program).

(** [operator ==] looks at the shared fields, the proof apart. *)
Definition entry_eqb (a b : meta_entry) : bool :=
  bool_decide (m_id a = m_id b) && bool_decide (m_previous_id a = m_previous_id b) &&
  (m_version a =? m_version b) && (m_height a =? m_height b) && (m_timestamp a =? m_timestamp b) &&
  ((f_mantissa (m_pow_difficulty a) =? f_mantissa (m_pow_difficulty b)) &&
   (f_exponent (m_pow_difficulty a) =? f_exponent (m_pow_difficulty b))).

(** ** Well-formed entries *)

Record entry_wf (e : meta_entry) : Prop := EntryWf {
  ew_id : length (m_id e) = 32%nat;
  ew_previous : length (m_previous_id e) = 32%nat;
  ew_version : is_word 64 (m_version e);
  ew_timestamp : is_word 64 (m_timestamp e);
  ew_proof : length (m_pow_proof e) = TOTAL_SIZE /\ Forall (is_word 32) (m_pow_proof e);
  ew_exponent : in_type (IntType true 16) (f_exponent (m_pow_difficulty e));
  ew_roots : Forall (is_word 64) [m_root_blocks e; m_root_heap e; m_root_closure e; m_root_symbols e; m_root_program e]
}.

Lemma get_u64_app v b : is_word 64 v -> get_u64 (write_uint64 v ++ b) = Ok (v, b).
Proof.
  intros Hv. unfold get_u64. rewrite read_write_uint64, Ok_bind, (wrap_id 64 v) by done.
  rewrite write_uint64_le. by rewrite drop_app_length' by (by rewrite length_le_bytes).
Qed.

Lemma word_bytes_value w :
  is_word 32 w ->
  (((w ≫ 24) &&& 0xff) ≪ 24) ||| (((w ≫ 16) &&& 0xff) ≪ 16) ||| (((w ≫ 8) &&& 0xff) ≪ 8) ||| ((w ≫ 0) &&& 0xff) = w.
Proof.
  intros Hw. apply is_word_testbit in Hw as [_ Hw]; [|done]. apply Z.bits_inj'. intros n Hn.
  change 255 with (Z.ones 8). rewrite !Z.lor_spec, !Z.shiftl_spec by lia.
  assert (Hb : forall s, 0 <= s -> s <= n -> Z.testbit ((w ≫ s) &&& Z.ones 8) (n - s) = Z.testbit w n && (n <? s + 8)).
  { intros s Hs Hle. rewrite Z.land_spec, Z.shiftr_spec, Z.testbit_ones by lia. replace (n - s + s) with n by lia.
    f_equal. rewrite (proj2 (Z.leb_le 0 _)) by lia. cbn [andb]. apply eq_true_iff_eq. rewrite !Z.ltb_lt. lia. }
  assert (Hl : forall s, n < s -> Z.testbit ((w ≫ s) &&& Z.ones 8) (n - s) = false) by (intros; apply Z.testbit_neg_r; lia).
  pose proof (Hb 0 ltac:(lia) ltac:(lia)) as H0. rewrite Z.sub_0_r in H0. rewrite H0.
  destruct (decide (n < 8)); [rewrite !Hl by lia; rewrite (proj2 (Z.ltb_lt n _)) by lia; by rewrite andb_true_r|].
  destruct (decide (n < 16));
    [rewrite !(Hl 24), !(Hl 16), (Hb 8) by lia; rewrite (proj2 (Z.ltb_lt n (8 + 8))), (proj2 (Z.ltb_ge n (0 + 8))) by lia;
     by rewrite andb_true_r, andb_false_r, orb_false_r|].
  destruct (decide (n < 24));
    [rewrite (Hl 24), (Hb 16), (Hb 8) by lia;
     rewrite (proj2 (Z.ltb_lt n (16 + 8))), (proj2 (Z.ltb_ge n (8 + 8))), (proj2 (Z.ltb_ge n (0 + 8))) by lia;
     by rewrite andb_true_r, !andb_false_r, !orb_false_r|].
  rewrite (Hb 24), (Hb 16), (Hb 8) by lia.
  rewrite (proj2 (Z.ltb_ge n (16 + 8))), (proj2 (Z.ltb_ge n (8 + 8))), (proj2 (Z.ltb_ge n (0 + 8))) by lia.
  rewrite !andb_false_r, !orb_false_r. destruct (decide (n < 32)).
  - rewrite (proj2 (Z.ltb_lt n _)) by lia. apply andb_true_r.
  - rewrite Hw by lia. done.
Qed.

Lemma proof_words_write n ws :
  length ws = n -> Forall (is_word 32) ws -> proof_words n (proof_write ws) = Ok ws.
Proof.
  revert ws. induction n as [|n IH]; intros [|w ws] Hlen Hw; cbn in Hlen; try lia; [done|].
  apply Forall_cons in Hw as [Hw Hws]. change (proof_write (w :: ws)) with (word_bytes w ++ proof_write ws).
  unfold word_bytes. cbn [app proof_words]. rewrite IH by (done || lia). rewrite Ok_bind.
  f_equal. f_equal. by apply word_bytes_value.
Qed.

Lemma length_proof_write ws : length (proof_write ws) = (4 * length ws)%nat.
Proof.
  induction ws as [|w ws IH]; [done|]. change (proof_write (w :: ws)) with (word_bytes w ++ proof_write ws).
  rewrite length_app, IH. cbn. lia.
Qed.

Lemma exponent_roundtrip x :
  in_type (IntType true 16) x ->
  sgn 16 ((w8 ((x ≫ 8) &&& 0xff) ≪ 8) ||| w8 (x &&& 0xff)) = x.
Proof.
  intros Hx. rewrite <-(sgn_id 16 x) at 3 by (unfold in_type, t_min, t_max in Hx; cbn in Hx; lia).
  assert (Hw : wrap 16 ((w8 ((x ≫ 8) &&& 0xff) ≪ 8) ||| w8 (x &&& 0xff)) = wrap 16 x).
  { change 255 with (Z.ones 8). apply Z.bits_inj'. intros n Hn. rewrite !wrap_spec by lia.
    destruct (Z.ltb_spec n 16); rewrite ?andb_false_r, ?andb_true_r; [|done].
    rewrite Z.lor_spec, Z.shiftl_spec, !wrap_spec, !Z.land_spec by lia.
    destruct (decide (n < 8)).
    - rewrite (Z.testbit_neg_r (x ≫ 8)), !Z.testbit_ones by lia.
      rewrite (proj2 (Z.leb_le 0 n)), (proj2 (Z.ltb_lt n 8)) by lia. by rewrite !andb_true_r.
    - rewrite !Z.testbit_ones, Z.shiftr_spec by lia. rewrite (proj2 (Z.ltb_ge n 8)) by lia.
      rewrite (proj2 (Z.ltb_lt (n - 8) 8)), (proj2 (Z.leb_le 0 (n - 8))) by lia.
      replace (n - 8 + 8) with n by lia. by rewrite !andb_true_r, !andb_false_r, orb_false_r. }
  unfold sgn. by rewrite Hw.
Qed.

Lemma flt_read_write self f rest :
  in_type (IntType true 16) (f_exponent f) ->
  flt_read self (flt_write f ++ rest) = Ok (Flt (f_exponent f) (f_mantissa self), rest).
Proof.
  intros Hf. unfold flt_read. rewrite get_bytes_app by done. rewrite Ok_bind. cbn beta iota.
  unfold flt_write. cbn [lookup list_lookup of_option]. rewrite !Ok_bind. by rewrite exponent_roundtrip.
Qed.

Lemma proof_read_write ws rest :
  length ws = TOTAL_SIZE -> Forall (is_word 32) ws -> proof_read (proof_write ws ++ rest) = Ok (ws, rest).
Proof.
  intros Hl Hw. unfold proof_read. rewrite get_bytes_app by (rewrite length_proof_write, Hl; done).
  rewrite Ok_bind. cbn beta iota. by rewrite proof_words_write, Ok_bind.
Qed.

Lemma read_written self e junk :
  entry_wf e ->
  entry_read self (entry_write e ++ junk) =
    Ok (MetaEntry (m_id e) (m_previous_id e) (m_version e) (m_height self) (w64 (m_timestamp e ≪ 8))
          (m_pow_proof e) (Flt (f_exponent (m_pow_difficulty e)) (f_mantissa (m_pow_difficulty self)))
          (m_root_meta self) (m_root_blocks e) (m_root_heap e) (m_root_closure e) (m_root_symbols e)
          (m_root_program e)) /\
  Z.of_nat (length (entry_write e)) + 4 * 8 = entry_serialization_size.
Proof.
  intros [H1 H2 H3 H4 [H5 H5'] H6 H7].
  apply Forall_cons in H7 as [R1 H7]. apply Forall_cons in H7 as [R2 H7]. apply Forall_cons in H7 as [R3 H7].
  apply Forall_cons in H7 as [R4 H7]. apply Forall_cons in H7 as [R5 _].
  split.
  - unfold entry_read, entry_write. rewrite <-!app_assoc.
    run (get_bytes_app 32 (m_id e)); [|by rewrite H1]. run (get_u64_app (m_version e)); [|done].
    run (get_bytes_app 32 (m_previous_id e)); [|by rewrite H2].
    run (get_bytes_app 8 (utime_to_bytes (m_timestamp e))); [|by rewrite length_utime_to_bytes].
    run (flt_read_write (m_pow_difficulty self) (m_pow_difficulty e)); [|done].
    run (proof_read_write (m_pow_proof e)); [|done..].
    run (get_u64_app (m_root_blocks e)); [|done]. run (get_u64_app (m_root_heap e)); [|done].
    run (get_u64_app (m_root_closure e)); [|done]. run (get_u64_app (m_root_symbols e)); [|done].
    run (get_u64_app (m_root_program e)); [|done]. by rewrite utime_from_to_bytes.
  - unfold entry_write, entry_serialization_size, TOTAL_SIZE_BYTES.
    rewrite !length_app, H1, H2, length_utime_to_bytes, length_proof_write, H5, !write_uint64_le, !length_le_bytes. done.
Qed.

(** C38: Reading a written entry gives back the identifiers, the version, the proof
    of work, the exponent of the difficulty and the five database roots, for any
    bytes behind the record.  Height and meta root keep the values of the entry read
    into.  Two fields do not survive: the time stamp is shifted by a byte
    ([utime::from_bytes]) and the mantissa of the difficulty stays that of the entry
    read into ([flt1648::read]). *)
Theorem entry_read_write self e junk :
  entry_wf e ->
  entry_read self (entry_write e ++ junk) =
    Ok (MetaEntry (m_id e) (m_previous_id e) (m_version e) (m_height self) (w64 (m_timestamp e ≪ 8))
          (m_pow_proof e) (Flt (f_exponent (m_pow_difficulty e)) (f_mantissa (m_pow_difficulty self)))
          (m_root_meta self) (m_root_blocks e) (m_root_heap e) (m_root_closure e) (m_root_symbols e)
          (m_root_program e)) /\
  Z.of_nat (length (entry_write e)) + 4 * 8 = entry_serialization_size.
Proof. apply read_written. Qed.

Lemma default_entry_wf : entry_wf meta_entry_default.
Proof.
  split; [done|done|by split|by split|split; [done|]|by split|].
  - apply Forall_replicate. by split.
  - repeat (apply Forall_cons; split; [by split|]). by apply Forall_nil.
Qed.

Lemma entry_read_write_witness :
  exists e, entry_read meta_entry_default (entry_write meta_entry_default ++ [7]) = Ok e /\ m_version e = 1.
Proof.
  eexists. split; [apply (entry_read_write meta_entry_default meta_entry_default [7]), default_entry_wf|done].
Defined.
