(* ===== verification/Blockchain.v ===== *)
(** * The chain of blocks ([src/src/global/blockchain.hpp], [blockchain.cpp])

    A node keeps six trie databases, the entries it knows with an index by height,
    and the entry of its tip.  [std::map] and [std::set] are [gmap] and [gset];
    where the code iterates over them the elements are sorted first.  Looking up
    [at_height_] with [operator []] creates an empty entry, so the functions that do
    it return the changed chain. *)

From stdpp Require Import sorting.
From S2P Require Import Prelude Bits TrieNode TrieDb TrieIter Util MetaEntry.

Record blockchain := Blockchain {
  meta_db : triedb;
  blocks_db : triedb;
  heap_db : triedb;
  closure_db : triedb;
  symbols_db : triedb;
  program_db : triedb;
  tip : meta_entry;
  at_height : gmap Z (gset meta_id);
  chains : gmap meta_id meta_entry;
  bc_version : Z;
  bc_height : Z;
  bc_nonce : Z;
  bc_time : Z
}.

Definition with_tip (c : blockchain) (e : meta_entry) : blockchain :=
  Blockchain (meta_db c) (blocks_db c) (heap_db c) (closure_db c) (symbols_db c) (program_db c) e
    (at_height c) (chains c) (bc_version c) (bc_height c) (bc_nonce c) (bc_time c).
Definition with_index (c : blockchain) hs cs : blockchain :=
  Blockchain (meta_db c) (blocks_db c) (heap_db c) (closure_db c) (symbols_db c) (program_db c) (tip c)
    hs cs (bc_version c) (bc_height c) (bc_nonce c) (bc_time c).
Definition with_meta_db (c : blockchain) (db : triedb) : blockchain :=
  Blockchain db (blocks_db c) (heap_db c) (closure_db c) (symbols_db c) (program_db c) (tip c)
    (at_height c) (chains c) (bc_version c) (bc_height c) (bc_nonce c) (bc_time c).

(** ** Looking up *)

(** The elements in the order of [operator <]. *)
Definition id_le (a b : meta_id) : Prop := memcmp a b <= 0.
#[export] Instance id_le_dec a b : Decision (id_le a b).
Proof. unfold id_le. apply _. Defined.
Definition in_order (s : gset meta_id) : list meta_id := merge_sort id_le (elements s).

Definition get_meta_entry (c : blockchain) (id : meta_id) : option meta_entry := chains c !! id.
Definition previous_id (c : blockchain) (id : meta_id) : meta_id :=
  match get_meta_entry c id with None => meta_id_zero | Some e => m_previous_id e end.

(** [at_height_[h]] *)
Definition at_height_ref (c : blockchain) (h : Z) : blockchain * gset meta_id :=
  match at_height c !! h with
  | Some s => (c, s)
  | None => (with_index c (<[h := ∅]> (at_height c)) (chains c), ∅)
  end.

Definition is_follower (c : blockchain) (id next_id : meta_id) : bool :=
  match get_meta_entry c next_id with
  | Some next => bool_decide (m_previous_id next = id)
  | None => false
  end.

Definition follows (c : blockchain) (id : meta_id) : blockchain * gset meta_id :=
  match get_meta_entry c id with
  | None => (c, ∅)
  | Some entry =>
      let '(c, ids) := at_height_ref c (w32 (m_height entry + 1)) in
      (c, filter (fun next_id => is_follower c id next_id = true) ids)
  end.

Definition genesis (c : blockchain) : meta_id :=
  match at_height c !! 0 with
  | None => meta_id_zero
  | Some ids => default meta_id_zero (head (in_order ids))
  end.

Definition heights (c : blockchain) : list Z := merge_sort Z.le (elements (dom (at_height c))).
Definition max_height (c : blockchain) : Z := default 0 (last (heights c)).

(** [depth(id, max_depth)], the state being threaded through the followers. *)
Fixpoint depth (max_depth : nat) (c : blockchain) (from_id : meta_id) : blockchain * nat :=
  match max_depth with
  | O => (c, 0%nat)
  | S max_depth =>
      let '(c, next_ids) := follows c from_id in
      foldl (fun '(c, d) next_id =>
        let '(c, d') := depth max_depth c next_id in
        let next_depth := S d' in
        (c, if (d <? next_depth)%nat then next_depth else d)) (c, 0%nat) (in_order next_ids)
  end.

(** The first follower with the greatest depth, which must not be 0. *)
Definition next_block (c : blockchain) (from_id : meta_id) (max_lookahead : nat) : blockchain * meta_id :=
  match max_lookahead with
  | O => (c, from_id)
  | S lookahead =>
      let '(c, next_ids) := follows c from_id in
      let '(c, best_depth, best_id) :=
        foldl (fun '(c, best_depth, best_id) next_id =>
          let '(c, d) := depth lookahead c next_id in
          if (best_depth <? d)%nat then (c, d, next_id) else (c, best_depth, best_id))
          (c, 0%nat, meta_id_zero) (in_order next_ids) in
      (c, best_id)
  end.

Definition BRANCH_DEPTH : nat := 6.

(** [while (abs_height > 0 && at_height_[abs_height].size() != 1) abs_height--] *)
Fixpoint unambiguous (fuel : nat) (c : blockchain) (h : Z) : res (blockchain * Z) :=
  if 0 <? h then
    let '(c, ids) := at_height_ref c h in
    if (size ids =? 1)%nat then Ok (c, h)
    else match fuel with O => Throw OutOfFuel | S fuel => unambiguous fuel c (h - 1) end
  else Ok (c, h).

(** Whether the branches at [next_ids] are two or more of [BRANCH_DEPTH]. *)
Definition count_branches (c : blockchain) (next_ids : list meta_id) : blockchain * nat :=
  foldl (fun '(c, found) next_id =>
    let '(c, d) := depth BRANCH_DEPTH c next_id in
    (c, if (BRANCH_DEPTH <=? d)%nat then S found else found)) (c, 0%nat) next_ids.

Fixpoint forward (fuel : nat) (c : blockchain) (from_id : meta_id) : res (blockchain * meta_id) :=
  match fuel with
  | O => Throw OutOfFuel
  | S fuel =>
      let '(c, next_ids) := follows c from_id in
      match in_order next_ids with
      | [] => Ok (c, from_id)
      | [next_id] => forward fuel c next_id
      | ids =>
          let '(c, found) := count_branches c ids in
          if (1 <? found)%nat then Ok (c, from_id)
          else let '(c, from_id) := next_block c from_id BRANCH_DEPTH in forward fuel c from_id
      end
  end.

(** [sync_point(height)], [height] a signed 64-bit number *)
Definition sync_point (fuel : nat) (c : blockchain) (height : Z) : res (blockchain * meta_id) :=
  if bool_decide (at_height c = ∅) then Ok (c, meta_id_zero)
  else
    let total_height := max_height c in
    let abs_height :=
      if height <? 0 then (if total_height <? w64 (- height) then 0 else w64 (total_height - height))
      else height in
    '(c, abs_height) ← unambiguous fuel c abs_height;
    let '(c, ids) := at_height_ref c abs_height in
    from_id ← of_option (head (in_order ids)) UndefinedBehaviour;
    forward fuel c from_id.

Definition is_match (id : meta_id) (prefix : list Z) : bool :=
  (length prefix <=? length id)%nat && bool_decide (take (length prefix) id = prefix).

(** [lower_bound] of the prefix padded with zeros, then on while the identifiers
    match. *)
Fixpoint take_while (f : meta_id -> bool) (l : list meta_id) : list meta_id :=
  match l with [] => [] | x :: l => if f x then x :: take_while f l else [] end.
Fixpoint drop_while (f : meta_id -> bool) (l : list meta_id) : list meta_id :=
  match l with [] => [] | x :: l' => if f x then drop_while f l' else l end.
Definition find_entries (c : blockchain) (prefix : list Z) : res (list meta_id) :=
  _ ← require (length prefix <=? HASH_SIZE)%nat AssertFailed;
  let search_id := prefix ++ replicate (HASH_SIZE - length prefix) 0 in
  Ok (take_while (fun id => is_match id prefix)
        (drop_while (fun id => id_lt id search_id) (in_order (dom (chains c))))).

(** [for (; !at_height_[h].empty(); h++)] over all heights. *)
Fixpoint find_at_heights (fuel : nat) (c : blockchain) (h : Z) (prefix : list Z) (matched : gset meta_id)
    : res (blockchain * gset meta_id) :=
  match fuel with
  | O => Throw OutOfFuel
  | S fuel =>
      let '(c, ids) := at_height_ref c h in
      if bool_decide (ids = ∅) then Ok (c, matched)
      else find_at_heights fuel c (h + 1) prefix (matched ∪ filter (fun id => is_match id prefix = true) ids)
  end.
(** [None] is the height [NONE]: all of them. *)
Definition find_entries_at (fuel : nat) (c : blockchain) (height : option Z) (prefix : list Z)
    : res (blockchain * gset meta_id) :=
  match height with
  | None => find_at_heights fuel c 0 prefix ∅
  | Some h =>
      let '(c, ids) := at_height_ref c h in
      Ok (c, filter (fun id => is_match id prefix = true) ids)
  end.

Definition dbs_available (c : blockchain) (e : meta_entry) : bool :=
  has_root (heap_db c) (m_root_heap e) && has_root (closure_db c) (m_root_closure e) &&
  has_root (symbols_db c) (m_root_symbols e) && has_root (program_db c) (m_root_program e).

(** ** Changing the chain *)

Section hashing.
(** BLAKE2b with 32 and with 64 bytes of output ([src/src/common/blake2.cpp]). *)
Context (blake2b blake2b_64 : list Z -> list Z).

Definition set_id (e : meta_entry) id : meta_entry :=
  MetaEntry id (m_previous_id e) (m_version e) (m_height e) (m_timestamp e) (m_pow_proof e) (m_pow_difficulty e)
    (m_root_meta e) (m_root_blocks e) (m_root_heap e) (m_root_closure e) (m_root_symbols e) (m_root_program e).
Definition set_root_meta (e : meta_entry) r : meta_entry :=
  MetaEntry (m_id e) (m_previous_id e) (m_version e) (m_height e) (m_timestamp e) (m_pow_proof e)
    (m_pow_difficulty e) r (m_root_blocks e) (m_root_heap e) (m_root_closure e) (m_root_symbols e) (m_root_program e).
Definition set_height_and_meta (e : meta_entry) h r : meta_entry :=
  MetaEntry (m_id e) (m_previous_id e) (m_version e) h (m_timestamp e) (m_pow_proof e)
    (m_pow_difficulty e) r (m_root_blocks e) (m_root_heap e) (m_root_closure e) (m_root_symbols e) (m_root_program e).

(** [get_root_hash] *)
Definition root_hash (db : triedb) (root : Z) : res (list Z) :=
  r ← get_root db root; b ← get_branch_at db (r_ptr r); copy_out (b_hash b).
Definition num_entries (db : triedb) (root : Z) : res Z :=
  if root =? 0 then Ok 0 else r ← get_root db root; Ok (r_num_entries r).

(** What [update_meta_id] feeds to the hash. *)
Definition id_preimage (find_fuel : nat) (c : blockchain) : res (list Z) :=
  let t := tip c in
  block ←
    (if m_height t =? 0 then Ok []
     else
       b ← find (blocks_db c) find_fuel (m_root_blocks t) (m_height t);
       '(leaf, _) ← of_option b AssertFailed;
       copy_out (l_hash leaf));
  h1 ← root_hash (heap_db c) (m_root_heap t);
  h2 ← root_hash (closure_db c) (m_root_closure t);
  h3 ← root_hash (symbols_db c) (m_root_symbols t);
  h4 ← root_hash (program_db c) (m_root_program t);
  n1 ← num_entries (heap_db c) (m_root_heap t);
  n2 ← num_entries (closure_db c) (m_root_closure t);
  n3 ← num_entries (symbols_db c) (m_root_symbols t);
  n4 ← num_entries (program_db c) (m_root_program t);
  Ok (m_previous_id t ++ block ++ h1 ++ h2 ++ h3 ++ h4 ++
      write_uint64 n1 ++ write_uint64 n2 ++ write_uint64 n3 ++ write_uint64 n4 ++
      write_uint64 (m_version t) ++ write_uint32 (m_height t) ++ utime_to_bytes (m_timestamp t) ++
      flt_write (m_pow_difficulty t)).

(** The first 32 of the 64 hash bytes. *)
Definition update_meta_id (find_fuel : nat) (c : blockchain) : res blockchain :=
  bytes ← id_preimage find_fuel c;
  Ok (with_tip c (set_id (tip c) (take HASH_SIZE (blake2b_64 bytes)))).

(** [junk]: the last 32 bytes of the buffer, which [write] leaves alone. *)
Definition update_meta_entry (junk : list Z) (c : blockchain) (e : meta_entry) : res blockchain :=
  db ← update blake2b (meta_db c) (m_root_meta e) (m_height e) (entry_write e ++ junk);
  let c := with_meta_db c db in
  let '(c, ids) := at_height_ref c (m_height e) in
  Ok (with_index c (<[m_height e := {[m_id e]} ∪ ids]> (at_height c)) (<[m_id e := e]> (chains c))).

(** The entry is passed by reference and gets its meta root. *)
Definition add_meta_entry (junk : list Z) (c : blockchain) (e : meta_entry) : res (blockchain * meta_entry) :=
  '(db, root) ←
    (if id_is_zero (m_previous_id e) then new_root blake2b (meta_db c)
     else
       prev ← of_option (get_meta_entry c (m_previous_id e)) AssertFailed;
       new_root_from (meta_db c) (m_root_meta prev));
  let e := set_root_meta e root in
  c ← update_meta_entry junk (with_meta_db c db) e;
  Ok (c, e).

Definition update_tip (find_fuel : nat) (junk : list Z) (c : blockchain) : res blockchain :=
  c ← update_meta_id find_fuel c;
  let t := tip c in
  match chains c !! m_id t with
  | Some e =>
      let e' := MetaEntry (m_id e) (m_previous_id e) (m_version e) (m_height e) (m_timestamp e) (m_pow_proof e)
                  (m_pow_difficulty e) (m_root_meta e) (m_root_blocks t) (m_root_heap t) (m_root_closure t)
                  (m_root_symbols t) (m_root_program t) in
      Ok (if bool_decide (m_id t = m_id e) then with_index c (at_height c) (<[m_id t := e']> (chains c)) else c)
  | None =>
      '(c, t) ← add_meta_entry junk c t;
      Ok (with_tip c t)
  end.

(** A new root in each of the six databases, and the tip on top of the old one. *)
Definition advance (c : blockchain) : res blockchain :=
  let t := tip c in
  let is_genesis := m_root_meta t =? 0 in
  let next db root := if is_genesis then new_root blake2b db else new_root_from db root in
  '(mdb, next_meta) ← next (meta_db c) (m_root_meta t);
  '(bdb, next_blocks) ← next (blocks_db c) (m_root_blocks t);
  '(hdb, next_heap) ← next (heap_db c) (m_root_heap t);
  '(cdb, next_closure) ← next (closure_db c) (m_root_closure t);
  '(sdb, next_symbols) ← next (symbols_db c) (m_root_symbols t);
  '(pdb, next_program) ← next (program_db c) (m_root_program t);
  let new_height := if is_genesis then 0 else w32 (m_height t + 1) in
  let new_tip :=
    MetaEntry meta_id_zero (m_id t) (bc_version c) new_height (bc_time c) (m_pow_proof t) (m_pow_difficulty t)
      next_meta next_blocks next_heap next_closure next_symbols next_program in
  Ok (Blockchain mdb bdb hdb cdb sdb pdb new_tip (at_height c) (chains c) (bc_version c) (bc_height c)
        (bc_nonce c) (bc_time c)).

(** ** Loading *)

(** Opening the directory again: the records of [roots.bin] are read to its end. *)
Definition reopen (db : triedb) : triedb :=
  with_roots db (roots db) (roots_at_height db) (roots_end db) (roots_end db).

(** One stored record of [init]; [best] is the last complete entry so far. *)
Definition load_entry (find_fuel : nat) (height : Z) (acc : res (blockchain * meta_entry)) (root : Z)
    : res (blockchain * meta_entry) :=
  '(c, best) ← acc;
  stored ← find (meta_db c) find_fuel root height;
  match stored with
  | None => Ok (c, best)
  | Some (leaf, _) =>
      _ ← require (cd_size (l_data leaf) =? entry_serialization_size) AssertFailed;
      data ← copy_out (l_data leaf);
      entry ← entry_read meta_entry_default data;
      let entry := set_height_and_meta entry (w32 height) root in
      if id_is_zero (m_id entry) then Ok (c, best)
      else
        let cs := match chains c !! m_id entry with
                  | Some _ => chains c
                  | None => <[m_id entry := entry]> (chains c)
                  end in
        let '(c, ids) := at_height_ref c (m_height entry) in
        let c := with_index c (<[m_height entry := {[m_id entry]} ∪ ids]> (at_height c)) cs in
        Ok (c, if negb (is_partial entry) && dbs_available c entry then entry else best)
  end.

Fixpoint load_heights (fuel find_fuel : nat) (height : Z) (c : blockchain) (best : meta_entry)
    : res (blockchain * meta_entry) :=
  match fuel with
  | O => Throw OutOfFuel
  | S fuel =>
      let ids := merge_sort Z.le (elements (find_roots (meta_db c) height)) in
      match ids with
      | [] => Ok (c, best)
      | _ =>
          '(c, best) ← foldl (load_entry find_fuel height) (Ok (c, best)) ids;
          load_heights fuel find_fuel (height + 1) c best
      end
  end.

(** The first line of [tip.txt], if there is one.  The length is compared with the
    number of bytes, not of digits. *)
Definition read_tip (c : blockchain) (line : list Z) : res (option blockchain) :=
  if negb (length line =? HASH_SIZE)%nat then Ok None
  else
    id ← hex_from_string line HASH_SIZE;
    Ok (Some (match chains c !! id with Some e => with_tip c e | None => c end)).

Definition init (fuel find_fuel : nat) (tip_txt : option (list Z)) (c : blockchain) : res blockchain :=
  let c := Blockchain (reopen (meta_db c)) (reopen (blocks_db c)) (reopen (heap_db c)) (reopen (closure_db c))
             (reopen (symbols_db c)) (reopen (program_db c)) meta_entry_default ∅ ∅
             (bc_version c) (bc_height c) (bc_nonce c) (bc_time c) in
  '(c, best) ← load_heights fuel find_fuel 0 c meta_entry_default;
  let c := with_tip c best in
  let set_defaults c :=
    Blockchain (meta_db c) (blocks_db c) (heap_db c) (closure_db c) (symbols_db c) (program_db c) (tip c)
      (at_height c) (chains c) 1 (bc_height c) (bc_nonce c) 0 in
  match tip_txt with
  | None => Ok (set_defaults c)
  | Some line =>
      r ← read_tip c line;
      match r with
      | None => Ok c
      | Some c => Ok (set_defaults c)
      end
  end.

End hashing.
