(* ===== verification/BlockchainSpec.v ===== *)
(** * Reading the chain of blocks

    The readers of [Blockchain] leave the entries and the levels of the index as they
    are, up to empty levels; [same_blocks] is that equivalence.  Under it the
    functions that look ahead ([depth], [next], [sync_point]) are described by paths
    of followers. *)

From stdpp Require Import sorting.
From Stdlib Require Import Sorting.Sorted.
From S2P Require Import Prelude Bits TrieNode TrieDb TrieIter Util MetaEntry Blockchain.

(** ** Sorted sets of identifiers *)

Lemma elem_of_in_order s x : x ∈ in_order s <-> x ∈ s.
Proof. unfold in_order. rewrite merge_sort_Permutation. apply elem_of_elements. Qed.

Lemma in_order_nil s : in_order s = [] <-> s = ∅.
Proof.
  split.
  - intros H. apply set_eq. intros x. rewrite <-elem_of_in_order, H. set_solver.
  - intros ->. done.
Qed.

Lemma length_in_order s : length (in_order s) = size s.
Proof. unfold in_order. by rewrite merge_sort_Permutation. Qed.

Lemma in_order_singleton x : in_order {[x]} = [x].
Proof. unfold in_order. by rewrite elements_singleton. Qed.

Lemma memcmp_opp a b : memcmp b a = - memcmp a b.
Proof.
  revert b. induction a as [|x a IH]; intros [|y b]; cbn; try done.
  destruct (Z.ltb_spec x y), (Z.ltb_spec y x); try lia; apply IH.
Qed.

Lemma memcmp_eq a b : length a = length b -> memcmp a b = 0 -> a = b.
Proof.
  revert b. induction a as [|x a IH]; intros [|y b]; cbn; try done. intros Hl.
  destruct (Z.ltb_spec x y); [lia|]. destruct (Z.ltb_spec y x); [lia|]. intros He.
  f_equal; [lia|]. apply IH; lia.
Qed.

Lemma memcmp_trans a b d :
  length a = length b -> length b = length d -> memcmp a b <= 0 -> memcmp b d <= 0 -> memcmp a d <= 0.
Proof.
  revert b d. induction a as [|x a IH]; intros [|y b] [|z d]; cbn; try done. intros Hl1 Hl2.
  destruct (Z.ltb_spec x y), (Z.ltb_spec y x), (Z.ltb_spec y z), (Z.ltb_spec z y), (Z.ltb_spec x z), (Z.ltb_spec z x);
    try lia. intros. apply (IH b d); lia.
Qed.

#[export] Instance id_le_total : Total id_le.
Proof. intros a b. unfold id_le. rewrite (memcmp_opp a b). lia. Qed.

Lemma in_order_sorted s : Sorted id_le (in_order s).
Proof. apply (Sorted_merge_sort id_le). Qed.

(** ** The equivalence *)

Definition level (c : blockchain) (h : Z) : gset meta_id := default ∅ (at_height c !! h).

Definition same_blocks (c c' : blockchain) : Prop :=
  c' = with_index c (at_height c') (chains c) /\ forall h, level c' h = level c h.

Lemma with_index_eta c : with_index c (at_height c) (chains c) = c.
Proof. by destruct c. Qed.

Lemma same_blocks_refl c : same_blocks c c.
Proof. split; [by rewrite with_index_eta|done]. Qed.

Lemma same_blocks_chains c c' : same_blocks c c' -> chains c' = chains c.
Proof. intros [-> _]. done. Qed.

#[export] Instance same_blocks_equiv : Equivalence same_blocks.
Proof.
  split.
  - exact same_blocks_refl.
  - intros c c' Hs. destruct (Hs) as [He Hl]. split; [|done]. rewrite (same_blocks_chains c c') by done.
    rewrite He. by destruct c.
  - intros c1 c2 c3 [He Hl] [He' Hl']. split; [|intros h; by rewrite Hl', Hl].
    etransitivity; [exact He'|]. generalize (at_height c3). intros hs. by rewrite He.
Qed.

#[export] Instance level_proper : Proper (same_blocks ==> eq ==> eq) level.
Proof. intros c c' [_ Hl] h _ <-. by rewrite Hl. Qed.
#[export] Instance chains_proper : Proper (same_blocks ==> eq) chains.
Proof. intros c c' Hs. by rewrite (same_blocks_chains c c'). Qed.
#[export] Instance is_follower_proper : Proper (same_blocks ==> eq ==> eq ==> eq) is_follower.
Proof. intros c c' Hs x _ <- y _ <-. unfold is_follower, get_meta_entry. by rewrite Hs. Qed.

Lemma at_height_ref_ok c h :
  same_blocks c (at_height_ref c h).1 /\ (at_height_ref c h).2 = level c h.
Proof.
  unfold at_height_ref, level. destruct (at_height c !! h) as [s|] eqn:E; cbn [fst snd default].
  { split; [reflexivity|done]. }
  split; [|done]. split; [done|]. intros k. unfold level. cbn [at_height with_index].
  destruct (decide (k = h)) as [->|]; [by rewrite lookup_insert_eq, E|by rewrite lookup_insert_ne].
Qed.

(** ** Followers *)

Definition children (c : blockchain) (id : meta_id) : gset meta_id :=
  match get_meta_entry c id with
  | None => ∅
  | Some e => filter (fun next_id => is_follower c id next_id = true) (level c (w32 (m_height e + 1)))
  end.

#[export] Instance children_proper : Proper (same_blocks ==> eq ==> eq) children.
Proof.
  intros c c' Hs x _ <-. unfold children, get_meta_entry. rewrite <-Hs. destruct (chains c !! x); [|done].
  apply set_eq. intros y. rewrite !elem_of_filter. by setoid_rewrite Hs.
Qed.

Lemma follows_ok c id : same_blocks c (follows c id).1 /\ (follows c id).2 = children c id.
Proof.
  unfold follows, children. destruct (get_meta_entry c id) as [e|]; [|split; [reflexivity|done]].
  pose proof (at_height_ref_ok c (w32 (m_height e + 1))) as [Hs Hr].
  destruct (at_height_ref c (w32 (m_height e + 1))) as [c' ids]. cbn in Hs, Hr |- *. split; [done|].
  subst ids. apply set_eq. intros y. rewrite !elem_of_filter. by setoid_rewrite <-Hs.
Qed.

Lemma elem_of_children c id x :
  x ∈ children c id <->
  exists e e', chains c !! id = Some e /\ chains c !! x = Some e' /\ m_previous_id e' = id /\
               x ∈ level c (w32 (m_height e + 1)).
Proof.
  unfold children, get_meta_entry. destruct (chains c !! id) as [e|] eqn:E.
  - rewrite elem_of_filter. unfold is_follower, get_meta_entry. split.
    + intros [Hf Hx]. destruct (chains c !! x) as [e'|]; [|done]. exists e, e'.
      by rewrite bool_decide_eq_true in Hf.
    + intros (e0 & e' & [= <-] & -> & Hp & Hx). split; [by apply bool_decide_eq_true|done].
  - split; [set_solver|]. by intros (? & ? & ? & _).
Qed.

(** A path of followers from [id]. *)
Fixpoint path (c : blockchain) (id : meta_id) (p : list meta_id) : Prop :=
  match p with
  | [] => True
  | x :: p => x ∈ children c id /\ path c x p
  end.

(** ** Looking ahead, without the index *)

Definition deeper (f : meta_id -> nat) (d : nat) (x : meta_id) : nat :=
  if (d <? S (f x))%nat then S (f x) else d.
Fixpoint look (n : nat) (c : blockchain) (id : meta_id) : nat :=
  match n with
  | O => 0%nat
  | S n => foldl (deeper (look n c)) 0%nat (in_order (children c id))
  end.

Lemma foldl_ext_in {A B} (f g : A -> B -> A) a l :
  (forall a x, f a x = g a x) -> foldl f a l = foldl g a l.
Proof. intros H. revert a. induction l as [|x l IH]; intros a; cbn; [done|]. by rewrite H, IH. Qed.

#[export] Instance look_proper n : Proper (same_blocks ==> eq ==> eq) (look n).
Proof.
  induction n as [|n IH]; intros c c' Hs x _ <-; [done|]. cbn [look].
  rewrite <-(children_proper c c' Hs x x eq_refl). apply foldl_ext_in. intros d y. unfold deeper. by rewrite <-(IH c c' Hs y y eq_refl).
Qed.

Lemma depth_look n c id : same_blocks c (depth n c id).1 /\ (depth n c id).2 = look n c id.
Proof.
  revert c id. induction n as [|n IH]; intros c id; [split; [reflexivity|done]|]. cbn [depth look].
  pose proof (follows_ok c id) as [Hs Hr]. destruct (follows c id) as [c1 ids]. cbn [fst snd] in Hs, Hr. subst ids.
  generalize (in_order (children c id)), 0%nat. intros l d. revert c1 Hs d.
  induction l as [|x l IHl]; intros c1 Hs d; cbn [foldl]; [done|].
  pose proof (IH c1 x) as [Hs1 Hd]. destruct (depth n c1 x) as [c2 d']. cbn [fst snd] in Hs1, Hd. subst d'.
  assert (Hs2 : same_blocks c c2) by (by rewrite Hs).
  specialize (IHl c2 Hs2 (deeper (look n c) d x)). revert IHl. unfold deeper at 1 3.
  by rewrite <-(look_proper n c c1 Hs x x eq_refl).
Qed.

Lemma foldl_deeper f d l :
  (d <= foldl (deeper f) d l)%nat /\ (forall x, x ∈ l -> (S (f x) <= foldl (deeper f) d l)%nat) /\
  (foldl (deeper f) d l = d \/ exists x, x ∈ l /\ foldl (deeper f) d l = S (f x)).
Proof.
  revert d. induction l as [|x l IH]; intros d; cbn [foldl].
  { split; [done|]. split; [set_solver|by left]. }
  destruct (IH (deeper f d x)) as (H1 & H2 & H3). revert H1 H2 H3.
  generalize (foldl (deeper f) (deeper f d x) l). unfold deeper. intros r H1 H2 H3.
  destruct (Nat.ltb_spec d (S (f x))).
  - split; [lia|]. split.
    + intros y [->|Hy]%elem_of_cons; [lia|by apply H2].
    + right. destruct H3 as [->|(y & Hy & ->)]; [exists x|exists y]; set_solver.
  - split; [done|]. split.
    + intros y [->|Hy]%elem_of_cons; [lia|by apply H2].
    + destruct H3 as [->|(y & Hy & ->)]; [by left|right; exists y; set_solver].
Qed.

Lemma look_path n c id :
  (look n c id <= n)%nat /\ (exists p, path c id p /\ length p = look n c id) /\
  (forall p, path c id p -> (length p <= n)%nat -> (length p <= look n c id)%nat).
Proof.
  revert id. induction n as [|n IH]; intros id.
  { split; [done|]. split; [by exists []|]. cbn. lia. }
  cbn [look]. destruct (foldl_deeper (look n c) 0 (in_order (children c id))) as (H1 & H2 & H3).
  revert H1 H2 H3. generalize (foldl (deeper (look n c)) 0%nat (in_order (children c id))). intros r H1 H2 H3.
  split; [|split].
  - destruct H3 as [->|(x & Hx & ->)]; [lia|]. destruct (IH x) as [? _]. lia.
  - destruct H3 as [->|(x & Hx & ->)]; [by exists []|]. rewrite elem_of_in_order in Hx.
    destruct (IH x) as (_ & (p & Hp & Hl) & _). exists (x :: p). cbn. by rewrite Hl.
  - intros [|x p] Hp Hl; [cbn; lia|]. cbn in Hl. destruct Hp as [Hx Hp].
    destruct (IH x) as (_ & _ & Hm). specialize (Hm p Hp ltac:(lia)).
    specialize (H2 x ltac:(by apply elem_of_in_order)). cbn. lia.
Qed.

Lemma look_zero n c id : look (S n) c id = 0%nat <-> children c id = ∅.
Proof.
  split.
  - intros H. apply set_eq. intros x. split; [|set_solver]. intros Hx.
    destruct (look_path (S n) c id) as (_ & _ & Hm). specialize (Hm [x] (conj Hx I) ltac:(cbn; lia)). cbn [length] in Hm. lia.
  - intros H. cbn [look]. by rewrite H.
Qed.
