(* ===== verification/Chain.v ===== *)
(** * What the chain of blocks promises

    The look-ahead of [depth] and [next], the point from which a node synchronises,
    the search for entries by prefix, and the index the chain keeps. *)

From stdpp Require Import sorting.
From Stdlib Require Import Sorting.Sorted.
From S2P Require Import Prelude Bits TrieNode TrieDb TrieIter Util MetaEntry Blockchain BlockchainSpec TrieMap.

(** ** Example: a genesis block with two followers, one of them extended *)

Module Example.
Definition block (n : Z) : meta_id := replicate 31 0 ++ [n].
Definition entry (n previous height : Z) : meta_entry :=
  let e := meta_entry_default in
  MetaEntry (block n) (block previous) 1 height 0 (m_pow_proof e) (m_pow_difficulty e) 0 0 0 0 0 0.
Definition entries (es : list meta_entry) : blockchain :=
  let db := triedb_empty true 65536 in
  Blockchain db db db db db db meta_entry_default
    (foldr (fun e m => <[m_height e := {[m_id e]} ∪ default ∅ (m !! m_height e)]> m) ∅ es)
    (list_to_map ((fun e => (m_id e, e)) <$> es)) 1 0 0 0.
(** 1 - 2 - 4, 1 - 3 *)
Definition chain : blockchain := entries [entry 1 0 0; entry 2 1 1; entry 3 1 1; entry 4 2 2].
(** 1 - 2, 1 - 3 *)
Definition fork : blockchain := entries [entry 1 0 0; entry 2 1 1; entry 3 1 1].
End Example.

(** C34: [depth(id, max_depth)] is the length of the longest path of followers from
    [id], cut off at [max_depth]: there is a path of that length, and no path of at
    most [max_depth] blocks is longer.  The chain stays the same up to empty levels of
    the index. *)
Theorem depth_longest_path max_depth c id :
  let '(c', d) := depth max_depth c id in
  same_blocks c c' /\ (d <= max_depth)%nat /\
  (exists p, path c id p /\ length p = d) /\
  (forall p, path c id p -> (length p <= max_depth)%nat -> (length p <= d)%nat).
Proof.
  pose proof (depth_look max_depth c id) as [Hs Hd]. destruct (depth max_depth c id) as [c' d].
  cbn [fst snd] in Hs, Hd. subst d. split; [done|]. apply look_path.
Qed.

(** ** The next block *)

Definition pick_step (f : meta_id -> nat) (acc : nat * meta_id) (x : meta_id) : nat * meta_id :=
  if (acc.1 <? f x)%nat then (f x, x) else acc.
Definition pick (f : meta_id -> nat) (l : list meta_id) : meta_id :=
  (foldl (pick_step f) (0%nat, meta_id_zero) l).2.

Lemma foldl_pick f acc l :
  (foldl (pick_step f) acc l = acc /\ (forall x, x ∈ l -> (f x <= acc.1)%nat)) \/
  (exists l1 x l2, l = l1 ++ x :: l2 /\ foldl (pick_step f) acc l = (f x, x) /\ (acc.1 < f x)%nat /\
     (forall y, y ∈ l1 -> (f y < f x)%nat) /\ (forall y, y ∈ l2 -> (f y <= f x)%nat)).
Proof.
  revert acc. induction l as [|x l IH]; intros acc; cbn [foldl].
  { left. split; [done|]. intros x Hx. by apply not_elem_of_nil in Hx. }
  unfold pick_step at 2 4. destruct (Nat.ltb_spec acc.1 (f x)) as [Hlt|Hge].
  - right. destruct (IH (f x, x)) as [[-> Hl]|(l1 & z & l2 & -> & -> & Hz & H1 & H2)]; cbn [fst] in *.
    + exists [], x, l. repeat split; auto. intros y Hy. by apply not_elem_of_nil in Hy.
    + exists (x :: l1), z, l2. repeat split; auto; [lia|]. intros y [->|Hy]%elem_of_cons; [done|auto].
  - destruct (IH acc) as [[-> Hl]|(l1 & z & l2 & -> & -> & Hz & H1 & H2)].
    + left. split; [done|]. intros y [->|Hy]%elem_of_cons; auto.
    + right. exists (x :: l1), z, l2. repeat split; auto. intros y [->|Hy]%elem_of_cons; [lia|auto].
Qed.

Lemma next_block_pick k c id :
  same_blocks c (next_block c id (S k)).1 /\
  (next_block c id (S k)).2 = pick (look k c) (in_order (children c id)).
Proof.
  unfold next_block, pick. pose proof (follows_ok c id) as [Hs Hr]. destruct (follows c id) as [c1 ids].
  cbn [fst snd] in Hs, Hr. subst ids.
  generalize (in_order (children c id)), 0%nat, meta_id_zero. intros l d r. revert c1 Hs d r.
  induction l as [|x l IHl]; intros c1 Hs d r; cbn [foldl]; [done|].
  pose proof (depth_look k c1 x) as [Hs1 Hd]. destruct (depth k c1 x) as [c2 d']. cbn [fst snd] in Hs1, Hd. subst d'.
  assert (Hs2 : same_blocks c c2) by (by rewrite Hs).
  rewrite <-(look_proper k c c1 Hs x x eq_refl). unfold pick_step at 2. cbn [fst].
  destruct (d <? look k c x)%nat; apply (IHl c2 Hs2).
Qed.

(** [next(id, max_lookahead)] with a positive look-ahead is, among the followers of
    [id] in the order of their identifiers, the first with the greatest depth within the
    remaining look-ahead, when that depth is positive.  When no follower has a follower
    in sight it is the zero identifier, even where there are followers. *)
Theorem next_block_deepest c id k :
  let next_id := (next_block c id (S k)).2 in
  let depth_of x := (depth k c x).2 in
  same_blocks c (next_block c id (S k)).1 /\
  ((next_id = meta_id_zero /\ forall x, x ∈ children c id -> depth_of x = 0%nat) \/
   (exists l1 l2, in_order (children c id) = l1 ++ next_id :: l2 /\ (0 < depth_of next_id)%nat /\
      (forall x, x ∈ l1 -> (depth_of x < depth_of next_id)%nat) /\
      (forall x, x ∈ l2 -> (depth_of x <= depth_of next_id)%nat))).
Proof.
  cbv zeta. assert (Hd : forall x, (depth k c x).2 = look k c x) by (intros; apply depth_look).
  destruct (next_block_pick k c id) as [Hs ->]. split; [done|]. unfold pick.
  destruct (foldl_pick (look k c) (0%nat, meta_id_zero) (in_order (children c id)))
    as [[-> Hl]|(l1 & x & l2 & -> & -> & Hx & H1 & H2)]; cbn [fst snd] in *.
  - left. split; [done|]. intros x Hx. rewrite Hd. specialize (Hl x ltac:(by apply elem_of_in_order)). lia.
  - right. exists l1, l2. rewrite Hd. repeat split; [done|intros y Hy; rewrite Hd; auto..].
Qed.

(** Asking for the followers of the highest block makes the chain look one block
    higher: [at_height_[h+1]] creates an empty level, and [max_height()] returns it. *)
Theorem follows_raises_max_height :
  max_height Example.chain = 2 /\
  max_height (follows Example.chain (Example.block 4)).1 = 3 /\
  (follows Example.chain (Example.block 4)).2 = ∅.
Proof. vm_compute. done. Qed.

(** ** The index by height *)

(** Entries are stored under their identifier and listed at their height, and nothing
    else is listed. *)
Record indexed (c : blockchain) : Prop := Indexed {
  ix_entry : forall id e, chains c !! id = Some e -> m_id e = id /\ id ∈ level c (m_height e);
  ix_level : forall h id, id ∈ level c h -> exists e, chains c !! id = Some e /\ m_height e = h
}.

#[export] Instance indexed_proper : Proper (same_blocks ==> iff) indexed.
Proof.
  assert (Hi : forall c c', same_blocks c c' -> indexed c -> indexed c').
  { intros c c' Hs [H1 H2]. pose proof (same_blocks_chains c c' Hs) as Hc. destruct Hs as [_ Hl]. split.
    - intros id e. rewrite Hc, Hl. apply H1.
    - intros h id. rewrite Hc, Hl. apply H2. }
  intros c c' Hs. split; apply Hi; [done|by symmetry].
Qed.

Lemma level_insert c e :
  forall h, level (with_index c (<[m_height e := {[m_id e]} ∪ level c (m_height e)]> (at_height c))
                     (<[m_id e := e]> (chains c))) h =
            if decide (h = m_height e) then {[m_id e]} ∪ level c h else level c h.
Proof.
  intros h. unfold level at 1. cbn [at_height with_index]. case_decide as Hh.
  - subst h. by rewrite lookup_insert_eq.
  - by rewrite lookup_insert_ne.
Qed.

Lemma indexed_insert c e :
  indexed c -> (forall e0, chains c !! m_id e = Some e0 -> m_height e0 = m_height e) ->
  indexed (with_index c (<[m_height e := {[m_id e]} ∪ level c (m_height e)]> (at_height c))
             (<[m_id e := e]> (chains c))).
Proof.
  intros [H1 H2] Hold. split.
  - intros id e0. cbn [chains with_index]. rewrite level_insert. destruct (decide (id = m_id e)) as [->|Hne].
    + rewrite lookup_insert_eq. intros [= <-]. rewrite decide_True by done. set_solver.
    + rewrite lookup_insert_ne by done. intros He. destruct (H1 id e0 He) as [Hid Hl]. split; [done|].
      case_decide; set_solver.
  - intros h id. rewrite level_insert. intros Hin. cbn [chains with_index].
    destruct (decide (id = m_id e)) as [->|Hne].
    + rewrite lookup_insert_eq. exists e. split; [done|]. destruct (decide (h = m_height e)) as [|Hh]; [done|].
      destruct (H2 h (m_id e) Hin) as (e0 & He0 & <-). symmetry. by apply Hold.
    + rewrite lookup_insert_ne by done. apply H2. destruct (decide (h = m_height e)); [|done].
      apply elem_of_union in Hin as [Hin%elem_of_singleton|Hin]; done.
Qed.

Section hashing.
Context (blake2b blake2b_64 : list Z -> list Z).

Definition indexed_with (c : blockchain) (e : meta_entry) : blockchain :=
  with_index c (<[m_height e := {[m_id e]} ∪ level c (m_height e)]> (at_height c)) (<[m_id e := e]> (chains c)).

Lemma update_meta_entry_index junk c e c' :
  update_meta_entry blake2b junk c e = Ok c' -> exists db, c' = indexed_with (with_meta_db c db) e.
Proof.
  unfold update_meta_entry. intros Hu. apply bind_Ok in Hu as (db & _ & Hu). exists db. revert Hu.
  unfold at_height_ref, indexed_with, level. cbn [at_height with_meta_db].
  destruct (at_height c !! m_height e) as [s|]; intros [= <-]; [done|].
  cbn [at_height with_index chains with_meta_db default]. by rewrite insert_insert_eq.
Qed.

Lemma indexed_meta_db c db : indexed c -> indexed (with_meta_db c db).
Proof. by intros [H1 H2]. Qed.
Lemma indexed_tip c e : indexed c -> indexed (with_tip c e).
Proof. by intros [H1 H2]. Qed.

Lemma indexed_replace c id e e' :
  indexed c -> chains c !! id = Some e -> m_id e' = m_id e -> m_height e' = m_height e ->
  indexed (with_index c (at_height c) (<[id := e']> (chains c))).
Proof.
  intros [H1 H2] He Hi Hh. split.
  - intros x e0. cbn [chains with_index]. change (level (with_index _ _ _)) with (level c).
    destruct (decide (x = id)) as [->|Hne].
    + rewrite lookup_insert_eq. intros [= <-]. rewrite Hi, Hh. by apply H1.
    + rewrite lookup_insert_ne by done. apply H1.
  - intros h x. change (level (with_index _ _ _)) with (level c). intros Hin.
    destruct (H2 h x Hin) as (e0 & He0 & Hh0). cbn [chains with_index]. destruct (decide (x = id)) as [->|Hne].
    + rewrite lookup_insert_eq. exists e'. split; [done|]. congruence.
    + rewrite lookup_insert_ne by done. by exists e0.
Qed.

Lemma add_meta_entry_index junk c e c' e' :
  add_meta_entry blake2b junk c e = Ok (c', e') ->
  exists db db', c' = indexed_with (with_meta_db (with_meta_db c db) db') e' /\ e' = set_root_meta e (m_root_meta e').
Proof.
  unfold add_meta_entry. intros H. apply bind_Ok in H as ([db root] & _ & H).
  apply bind_Ok in H as (c1 & H & [= <- <-]).
  destruct (update_meta_entry_index junk (with_meta_db c db) (set_root_meta e root) c1 H) as [db' ->].
  exists db, db'. by split.
Qed.

(** C35: [update_tip] keeps the index right and files the tip: it gives the tip the first
    32 bytes of the hash of what [update_meta_id] feeds to it, the entry under that
    identifier has the tip's state roots, and no other entry appears, disappears or changes. *)
Theorem update_tip_keeps_index find_fuel junk c c' :
  indexed c -> update_tip blake2b blake2b_64 find_fuel junk c = Ok c' ->
  let id := m_id (tip c') in
  indexed c' /\
  (exists bytes, id_preimage find_fuel c = Ok bytes /\ id = take HASH_SIZE (blake2b_64 bytes)) /\
  (exists e, chains c' !! id = Some e /\ m_root_heap e = m_root_heap (tip c) /\
     m_root_closure e = m_root_closure (tip c) /\ m_root_symbols e = m_root_symbols (tip c) /\
     m_root_program e = m_root_program (tip c) /\ m_root_blocks e = m_root_blocks (tip c)) /\
  (forall x, x <> id -> chains c' !! x = chains c !! x).
Proof.
  intros Hc Hu. unfold update_tip, update_meta_id in Hu. apply bind_Ok in Hu as (c1 & Hid & Hu).
  apply bind_Ok in Hid as (bytes & Hpre & Hid). injection Hid as <-. revert Hu.
  set (i := take HASH_SIZE (blake2b_64 bytes)). set (t := set_id (tip c) i). cbn [tip with_tip chains].
  assert (Hi : m_id t = i) by done. rewrite Hi. cbv zeta.
  destruct (chains c !! i) as [e|] eqn:E.
  - destruct (ix_entry c Hc i e E) as [He _]. rewrite bool_decide_true by congruence. intros [= <-].
    cbn [tip with_index with_tip]. rewrite Hi. split; [|split; [by exists bytes|split]].
    + by apply (indexed_replace (with_tip c t) i e); [apply indexed_tip| |cbn; congruence|].
    + eexists. cbn [chains with_index]. rewrite lookup_insert_eq. by split.
    + intros x Hx. cbn [chains with_index]. by rewrite lookup_insert_ne.
  - intros H. apply bind_Ok in H as ([c1 t'] & Hadd & [= <-]).
    destruct (add_meta_entry_index junk (with_tip c t) t c1 t' Hadd) as (db & db' & -> & Ht').
    assert (Hi' : m_id t' = i) by (by rewrite Ht'). cbn [tip with_tip]. rewrite Hi'.
    split; [|split; [by exists bytes|split]].
    + apply indexed_tip. apply indexed_insert; [by apply indexed_meta_db, indexed_meta_db, indexed_tip|].
      intros e0. cbn [chains with_meta_db with_tip]. by rewrite Hi', E.
    + exists t'. unfold indexed_with. cbn [chains with_index with_tip]. rewrite Hi', lookup_insert_eq. by rewrite Ht'.
    + intros x Hx. unfold indexed_with. cbn [chains with_index with_tip with_meta_db]. by rewrite Hi', lookup_insert_ne.
Qed.
End hashing.

(** A genesis block filed in empty databases. *)
Definition genesis_chain : blockchain :=
  ok_or (Example.entries []) (advance checksum (Example.entries [])).

Lemma update_tip_keeps_index_witness :
  exists c', update_tip checksum checksum 100 (replicate 32 0) genesis_chain = Ok c' /\ indexed c' /\
             is_Some (chains c' !! m_id (tip c')).
Proof.
  destruct (update_tip checksum checksum 100 (replicate 32 0) genesis_chain) as [c'|] eqn:E; [|by vm_compute in E].
  exists c'. split; [done|].
  destruct (update_tip_keeps_index checksum checksum 100 (replicate 32 0) genesis_chain c') as (H1 & _ & (e & He & _) & _);
    [|exact E|split; [exact H1|by exists e]].
  split.
  - intros id e He. by vm_compute in He.
  - intros h id Hin. by vm_compute in Hin.
Defined.

(** ** Synchronisation *)

Inductive reach (c : blockchain) : meta_id -> meta_id -> Prop :=
  | reach_refl x : reach c x x
  | reach_next x y z : y ∈ children c x -> reach c y z -> reach c x z.

(** Chains whose heights do not wrap and which do not use the zero identifier. *)
Record regular (c : blockchain) (top : Z) : Prop := Regular {
  rg_indexed : indexed c;
  rg_zero : chains c !! meta_id_zero = None;
  rg_height : forall id e, chains c !! id = Some e -> 0 <= m_height e <= top;
  rg_top : 0 <= top < 2 ^ 32 - 1
}.

#[export] Instance regular_proper : Proper (same_blocks ==> eq ==> iff) regular.
Proof.
  assert (Hi : forall c c' t, same_blocks c c' -> regular c t -> regular c' t).
  { intros c c' t Hs [H1 H2 H3 H4]. pose proof (same_blocks_chains c c' Hs) as Hc. rewrite Hs in H1.
    split; [done|by rewrite Hc|by rewrite Hc|done]. }
  intros c c' Hs t _ <-. split; apply Hi; [done|by symmetry].
Qed.

Lemma children_height c top x y e :
  regular c top -> y ∈ children c x -> chains c !! x = Some e ->
  exists e', chains c !! y = Some e' /\ m_height e' = m_height e + 1 /\ m_previous_id e' = x.
Proof.
  intros [Hix _ Hh Ht] Hy He. apply elem_of_children in Hy as (e0 & e' & He0 & He' & Hp & Hl).
  rewrite He in He0. injection He0 as <-. pose proof (Hh x e He).
  destruct (ix_level c Hix _ y Hl) as (e1 & He1 & H1). rewrite He' in He1. injection He1 as <-.
  exists e'. rewrite H1. rewrite wrap_id; [done|]. split; lia.
Qed.

(** In a regular chain the followers are all entries one level up that name the block. *)
Lemma children_spec c top x y e :
  regular c top -> chains c !! x = Some e ->
  (y ∈ children c x <-> exists e', chains c !! y = Some e' /\ m_previous_id e' = x /\ m_height e' = m_height e + 1).
Proof.
  intros Hc He. split.
  - intros Hy. destruct (children_height c top x y e Hc Hy He) as (e' & ? & ? & ?). by exists e'.
  - intros (e' & He' & Hp & Hh). apply elem_of_children. exists e, e'. split_and!; [done..|].
    destruct Hc as [Hix _ Hb Ht]. pose proof (Hb x e He). rewrite wrap_id by (split; lia). rewrite <-Hh. by apply Hix.
Qed.

Lemma children_unknown c x : chains c !! x = None -> children c x = ∅.
Proof. intros Hx. unfold children, get_meta_entry. by rewrite Hx. Qed.

(** The followers with [BRANCH_DEPTH] blocks above them. *)
Definition long_branches (c : blockchain) (x : meta_id) : nat :=
  length (filter (fun y => BRANCH_DEPTH <= (depth BRANCH_DEPTH c y).2)%nat (in_order (children c x))).

Lemma long_branches_look c x :
  long_branches c x = length (filter (fun y => BRANCH_DEPTH <= look BRANCH_DEPTH c y)%nat (in_order (children c x))).
Proof. unfold long_branches. f_equal. apply list_filter_iff. intros y. by rewrite (proj2 (depth_look _ c y)). Qed.

#[export] Instance long_branches_proper : Proper (same_blocks ==> eq ==> eq) long_branches.
Proof.
  intros c c' Hs x _ <-. rewrite !long_branches_look, (children_proper c c' Hs x x eq_refl).
  f_equal. apply list_filter_iff. intros y. by rewrite (look_proper _ c c' Hs y y eq_refl).
Qed.

Lemma count_branches_ok c ids :
  same_blocks c (count_branches c ids).1 /\
  (count_branches c ids).2 = length (filter (fun y => BRANCH_DEPTH <= look BRANCH_DEPTH c y)%nat ids).
Proof.
  unfold count_branches.
  assert (Hg : forall c1 n, same_blocks c c1 ->
    let r := foldl (fun '(c, found) next_id => let '(c, d) := depth BRANCH_DEPTH c next_id in
      (c, if (BRANCH_DEPTH <=? d)%nat then S found else found)) (c1, n) ids in
    same_blocks c r.1 /\ r.2 = (n + length (filter (fun y => BRANCH_DEPTH <= look BRANCH_DEPTH c y)%nat ids))%nat).
  { induction ids as [|x ids IH]; intros c1 n Hs; cbn [foldl]; [split; [done|cbn; lia]|].
    pose proof (depth_look BRANCH_DEPTH c1 x) as [Hs1 Hd]. destruct (depth BRANCH_DEPTH c1 x) as [c2 d].
    cbn [fst snd] in Hs1, Hd. rewrite <-(look_proper BRANCH_DEPTH c c1 Hs x x eq_refl) in Hd. subst d.
    assert (Hs2 : same_blocks c c2) by (by rewrite Hs). rewrite filter_cons.
    destruct (Nat.leb_spec BRANCH_DEPTH (look BRANCH_DEPTH c x)) as [Hle|Hle].
    - rewrite decide_True by done. destruct (IH c2 (S n) Hs2) as [H1 H2]. split; [done|]. etransitivity; [exact H2|]. cbn. lia.
    - rewrite decide_False by lia. by apply IH. }
  destruct (Hg c 0%nat) as [H1 H2]; [reflexivity|]. by split.
Qed.

(** Where the walk of [sync_point] ends. *)
Definition walk_ends (c : blockchain) (r : meta_id) : Prop :=
  children c r = ∅ \/ (2 <= long_branches c r)%nat.
Definition dead_fork (c : blockchain) (x : meta_id) : Prop :=
  (2 <= size (children c x))%nat /\ forall y, y ∈ children c x -> children c y = ∅.

Lemma pick_child c k x :
  (pick (look (S k) c) (in_order (children c x)) = meta_id_zero /\ forall y, y ∈ children c x -> children c y = ∅) \/
  pick (look (S k) c) (in_order (children c x)) ∈ children c x.
Proof.
  unfold pick.
  destruct (foldl_pick (look (S k) c) (0%nat, meta_id_zero) (in_order (children c x)))
    as [[-> Hl]|(l1 & y & l2 & Hl & -> & _)]; cbn [fst snd] in *.
  - left. split; [done|]. intros y Hy. apply (look_zero k). specialize (Hl y ltac:(by apply elem_of_in_order)). lia.
  - right. apply elem_of_in_order. rewrite Hl. set_solver.
Qed.

Lemma forward_ok fuel c top x :
  regular c top ->
  (forall e, chains c !! x = Some e -> top - m_height e + 2 < Z.of_nat fuel) -> (0 < fuel)%nat ->
  exists c' r, forward fuel c x = Ok (c', r) /\ same_blocks c c' /\
    ((reach c x r /\ walk_ends c r) \/ (r = meta_id_zero /\ exists y, reach c x y /\ dead_fork c y)).
Proof.
  revert c x. induction fuel as [|fuel IH]; intros c x Hc Hf Hpos; [lia|]. cbn [forward].
  pose proof (follows_ok c x) as [Hs Hr]. destruct (follows c x) as [c1 ids]. cbn [fst snd] in Hs, Hr. subst ids.
  assert (Hstep : forall c2 y, same_blocks c c2 -> y ∈ children c x ->
    exists c' r, forward fuel c2 y = Ok (c', r) /\ same_blocks c c' /\
      ((reach c x r /\ walk_ends c r) \/ (r = meta_id_zero /\ exists z, reach c x z /\ dead_fork c z))).
  { intros c2 y Hs2 Hy. destruct (chains c !! x) as [e|] eqn:E; [|by rewrite children_unknown in Hy by done].
    destruct (children_height c top x y e Hc Hy E) as (e' & He' & Hh & _).
    pose proof (Hf e eq_refl). pose proof (rg_height c top Hc y e' He').
    destruct (IH c2 y) as (c' & r & Hfw & Hs' & Hres); [by rewrite <-Hs2| |lia|].
    { intros e2 He2. rewrite <-Hs2, He' in He2. injection He2 as <-. lia. }
    exists c', r. split; [done|]. split; [by rewrite Hs2|].
    assert (Hre : forall z, reach c2 y z -> reach c x z).
    { intros z Hz. apply reach_next with y; [done|]. clear -Hz Hs2. induction Hz; [constructor|].
      econstructor; [|done]. by rewrite Hs2. }
    assert (Hch : forall z, children c2 z = children c z) by (intros z; by rewrite Hs2).
    destruct Hres as [[Hrr Hw]|(-> & z & Hz & Hd)]; [left|right; split; [done|]; exists z].
    - split; [by apply Hre|]. unfold walk_ends in *.
      by rewrite <-Hch, (long_branches_proper c c2 Hs2 r r eq_refl).
    - split; [by apply Hre|]. unfold dead_fork in *. setoid_rewrite <-Hch. done. }
  destruct (in_order (children c x)) as [|y [|y' ids]] eqn:Ech.
  - exists c1, x. split; [done|]. split; [done|]. left. split; [constructor|]. left. by apply in_order_nil.
  - apply Hstep; [done|]. apply elem_of_in_order. rewrite Ech. set_solver.
  - pose proof (count_branches_ok c1 (y :: y' :: ids)) as [Hs1 Hn].
    destruct (count_branches c1 (y :: y' :: ids)) as [c2 found]. cbn [fst snd] in Hs1, Hn.
    assert (Hn' : found = long_branches c x).
    { rewrite Hn, long_branches_look, Ech. f_equal. apply list_filter_iff. intros q.
      by rewrite (look_proper _ c c1 Hs q q eq_refl). }
    assert (Hs2 : same_blocks c c2) by (by rewrite Hs). destruct (Nat.ltb_spec 1 found).
    { exists c2, x. split; [done|]. split; [done|]. left. split; [constructor|]. right. lia. }
    pose proof (next_block_pick 5 c2 x) as [Hs3 Hp]. change (S 5) with BRANCH_DEPTH in Hs3, Hp.
    destruct (next_block c2 x BRANCH_DEPTH) as [c3 z]. cbn [fst snd] in Hs3, Hp.
    assert (Hs4 : same_blocks c c3) by (by rewrite Hs2).
    destruct (pick_child c2 4 x) as [[Hz Hdead]|Hz].
    + rewrite Hz in Hp. subst z. assert (Hdf : dead_fork c x).
      { split; [rewrite <-length_in_order, Ech; cbn; lia|]. intros q Hq. rewrite Hs2. apply Hdead. by rewrite <-Hs2. }
      destruct fuel as [|fuel].
      { destruct (chains c !! x) as [e|] eqn:E.
        - pose proof (Hf e eq_refl). pose proof (rg_height c top Hc x e E). lia.
        - rewrite children_unknown in Ech by done. done. }
      cbn [forward]. pose proof (follows_ok c3 meta_id_zero) as [Hs5 H5].
      destruct (follows c3 meta_id_zero) as [c4 ids']. cbn [fst snd] in Hs5, H5. subst ids'.
      rewrite children_unknown by (rewrite <-Hs4; apply Hc). exists c4, meta_id_zero. split; [done|].
      split; [by rewrite Hs4|]. right. split; [done|]. exists x. split; [constructor|done].
    + rewrite <-Hp in Hz. apply Hstep; [done|]. by rewrite Hs2.
Qed.

Lemma unambiguous_ok fuel c h :
  0 <= h <= Z.of_nat fuel ->
  exists c' h', unambiguous fuel c h = Ok (c', h') /\ same_blocks c c' /\ 0 <= h' <= h /\
    (h' = 0 \/ size (level c h') = 1%nat) /\ forall k, h' < k <= h -> size (level c k) <> 1%nat.
Proof.
  revert c h. induction fuel as [|fuel IH]; intros c h Hh; cbn [unambiguous].
  { rewrite (proj2 (Z.ltb_ge 0 h)) by lia. exists c, h. split_and!; [done|reflexivity|lia|lia|left; lia|intros; lia]. }
  destruct (Z.ltb_spec 0 h) as [Hpos|Hneg].
  2: { exists c, h. split_and!; [done|reflexivity|lia|lia|left; lia|intros; lia]. }
  pose proof (at_height_ref_ok c h) as [Hs Hr]. destruct (at_height_ref c h) as [c1 ids]. cbn [fst snd] in Hs, Hr.
  subst ids. destruct (Nat.eqb_spec (size (level c h)) 1) as [H1|H1].
  { exists c1, h. split_and!; [done|done|lia|lia|by right|intros; lia]. }
  destruct (IH c1 (h - 1)) as (c' & h' & Hu & Hs' & Hb & Hl & Hk); [lia|].
  exists c', h'. split; [done|]. split; [by rewrite Hs|]. split; [lia|]. split; [by rewrite Hs|].
  intros k Hk'. destruct (decide (k = h)) as [->|]; [done|].
  rewrite (level_proper c c1 Hs k k eq_refl). apply Hk. lia.
Qed.

(** The height [sync_point] starts at.  A negative argument is added to the greatest
    height, not subtracted from it. *)
Definition start_height (c : blockchain) (height : Z) : Z :=
  if height <? 0 then if max_height c <? w64 (- height) then 0 else w64 (max_height c - height) else height.

Lemma start_height_nonneg c height : 0 <= start_height c height.
Proof.
  unfold start_height. destruct (Z.ltb_spec height 0); [|done]. destruct (_ <? _); [done|]. by apply wrap_word.
Qed.

(** C33: [sync_point] returns.  It goes down from the start height to the first level with a
    single block (or to level 0) and then up along the followers.  It stops at a block
    without followers, or where at least two branches have [BRANCH_DEPTH] blocks.  Or it
    comes to a fork none of whose branches goes on: then the result is no block of the
    chain but the zero identifier. *)
Theorem sync_point_walk c top height fuel :
  regular c top -> level c 0 <> ∅ ->
  start_height c height <= Z.of_nat fuel -> top + 2 < Z.of_nat fuel ->
  exists c' r h from,
    sync_point fuel c height = Ok (c', r) /\ same_blocks c c' /\
    (0 <= h <= start_height c height /\ head (in_order (level c h)) = Some from /\
     (h = 0 \/ size (level c h) = 1%nat) /\
     forall k, h < k <= start_height c height -> size (level c k) <> 1%nat) /\
    ((reach c from r /\ walk_ends c r) \/ (r = meta_id_zero /\ exists x, reach c from x /\ dead_fork c x)).
Proof.
  intros Hc Hgen Hf1 Hf2. unfold sync_point.
  rewrite bool_decide_false by (intros He; apply Hgen; unfold level; by rewrite He). fold (start_height c height).
  destruct (unambiguous_ok fuel c (start_height c height)) as (c1 & h & Hu & Hs1 & Hh & Hl & Hk).
  { split; [apply start_height_nonneg|done]. }
  run Hu. pose proof (at_height_ref_ok c1 h) as [Hs2 Hr]. destruct (at_height_ref c1 h) as [c2 ids].
  cbn [fst snd] in Hs2, Hr. assert (Hs3 : same_blocks c c2) by (by rewrite Hs1). rewrite <-Hs1 in Hr. subst ids.
  destruct (in_order (level c h)) as [|from l] eqn:Ein.
  { exfalso. apply in_order_nil in Ein. destruct Hl as [->|Hl]; [done|]. by rewrite Ein in Hl. }
  cbn [head of_option]. rewrite Ok_bind.
  destruct (forward_ok fuel c2 top from) as (c' & r & Hfw & Hs4 & Hres); [by rewrite <-Hs3| |pose proof (rg_top c top Hc); lia|].
  { intros e He. rewrite <-Hs3 in He. pose proof (rg_height c top Hc from e He). lia. }
  exists c', r, h, from. split; [done|]. split; [by rewrite Hs3|]. split; [by rewrite Ein|].
  assert (Hre : forall x z, reach c2 x z -> reach c x z).
  { intros x z Hz. clear -Hz Hs3. induction Hz; [constructor|]. econstructor; [|done]. by rewrite Hs3. }
  destruct Hres as [[Hrr Hw]|(-> & z & Hz & Hd)]; [left|right; split; [done|]; exists z; split; [by apply Hre|]].
  - split; [by apply Hre|]. unfold walk_ends in *.
    by rewrite (children_proper c c2 Hs3 r r eq_refl), (long_branches_proper c c2 Hs3 r r eq_refl).
  - destruct Hd as [H1 H2]. split; [by rewrite Hs3|]. intros y Hy. rewrite Hs3. apply H2. by rewrite <-Hs3.
Qed.

Lemma example_level (P : meta_entry -> Prop) es id e :
  chains (Example.entries es) !! id = Some e -> Forall P es -> P e.
Proof.
  intros He Hall. cbn [chains Example.entries] in He. apply elem_of_list_to_map_2 in He.
  apply list_elem_of_fmap in He as (e0 & [= -> ->] & Hin). by eapply Forall_forall in Hall.
Qed.

Lemma entries_id es id e : chains (Example.entries es) !! id = Some e -> m_id e = id.
Proof.
  intros He. apply elem_of_list_to_map_2, list_elem_of_fmap in He. by destruct He as (? & [= -> ->] & _).
Qed.

Lemma level_bound c (P : Z -> meta_id -> Prop) :
  map_Forall (fun h s => set_Forall (P h) s) (at_height c) -> forall h id, id ∈ level c h -> P h id.
Proof.
  intros Hall h id. unfold level. destruct (at_height c !! h) as [s|] eqn:E; [|set_solver]. apply (Hall h s E).
Qed.

Lemma fork_regular : regular Example.fork 1.
Proof.
  split; [split| | |done].
  - intros id e He. split; [by eapply entries_id|]. rewrite <-(entries_id _ id e He).
    apply (example_level (fun e => m_id e ∈ level Example.fork (m_height e)) _ _ _ He).
    apply (bool_decide_unpack _). by vm_compute.
  - apply (level_bound Example.fork (fun h id => exists e, chains Example.fork !! id = Some e /\ m_height e = h)).
    intros h s Hs x Hx.
    assert (Hd : map_Forall (fun h s => set_Forall (fun id => match chains Example.fork !! id with Some e => m_height e =? h | None => false end = true) s)
                   (at_height Example.fork)) by (apply (bool_decide_unpack _); by vm_compute).
    specialize (Hd h s Hs x Hx). cbn beta in Hd. destruct (chains Example.fork !! x) as [e|]; [|done].
    exists e. split; [done|by apply Z.eqb_eq].
  - by vm_compute.
  - intros id e He. apply (example_level (fun e => 0 <= m_height e <= 1) _ _ _ He).
    apply (bool_decide_unpack _). by vm_compute.
Qed.

Lemma reach_known c x y : reach c x y -> is_Some (chains c !! x) -> is_Some (chains c !! y).
Proof.
  induction 1 as [|x y z Hy _ IH]; [done|]. intros _. apply IH.
  apply elem_of_children in Hy as (? & e' & _ & He' & _). by exists e'.
Qed.

(** Synchronising at a fork of two blocks yields the zero identifier. *)
Lemma sync_point_walk_witness :
  exists c', sync_point 10 Example.fork 0 = Ok (c', meta_id_zero) /\ same_blocks Example.fork c' /\
             exists x, reach Example.fork (Example.block 1) x /\ dead_fork Example.fork x.
Proof.
  assert (Hgen : level Example.fork 0 <> ∅) by (apply (bool_decide_unpack _); by vm_compute).
  assert (Hstart : start_height Example.fork 0 = 0) by done.
  pose proof (sync_point_walk Example.fork 1 0 10 fork_regular Hgen ltac:(rewrite Hstart; lia) ltac:(lia)) as Hw.
  destruct Hw as (c' & r & h & from & Hrun & Hs & (Hh & Hfrom & _) & Hres).
  assert (Hr : (snd <$> sync_point 10 Example.fork 0) = Ok meta_id_zero) by (by vm_compute).
  rewrite Hrun in Hr. injection Hr as ->. exists c'. split; [exact Hrun|]. split; [exact Hs|].
  assert (h = 0) as -> by (rewrite Hstart in Hh; lia).
  assert (from = Example.block 1) as -> by (vm_compute in Hfrom; by injection Hfrom as <-).
  destruct Hres as [[Hreach _]|[_ Hfork]]; [exfalso|exact Hfork].
  destruct (reach_known Example.fork _ _ Hreach) as [e He];
    [apply (bool_decide_unpack _); by vm_compute|by vm_compute in He].
Defined.
