(* ===== verification/ChainEntries.v ===== *)
(** * Entries of the chain: searching, identifying, storing and loading

    [find_entries] is a search by prefix, the identifier of a block is the hash of a
    byte string that determines the state the block stands for, and [init] reads
    back what [update_meta_entry] stored. *)

From stdpp Require Import sorting.
From Stdlib Require Import Sorting.Sorted.
From S2P Require Import Prelude Bits Sparse TrieNode TrieDb TrieDbSpec TrieUpdate TrieRoots TrieMap TrieIter TrieWalk.
From S2P Require Import Util MetaEntry Blockchain BlockchainSpec Chain.

(** ** Searching by prefix *)

Section sorted.
Context (R : meta_id -> meta_id -> Prop) (f : meta_id -> bool).

(** On a sorted list whose [f]s come first, the loops are filters. *)
Definition closed (l : list meta_id) : Prop :=
  forall x y, x ∈ l -> y ∈ l -> R x y -> f y = true -> f x = true.

Lemma closed_tail x l : closed (x :: l) -> closed l.
Proof. intros Hc y z Hy Hz. apply Hc; by right. Qed.

Lemma head_false x l : closed (x :: l) -> Forall (R x) l -> f x = false -> forall y, y ∈ l -> f y = false.
Proof.
  intros Hc HR Hx y Hy. destruct (f y) eqn:E; [|done]. rewrite Forall_forall in HR.
  rewrite (Hc x y) in Hx; [done|by left|by right|by apply HR|done].
Qed.

Lemma elem_of_take_while l :
  StronglySorted R l -> closed l -> forall x, x ∈ take_while f l <-> x ∈ l /\ f x = true.
Proof.
  induction 1 as [|a l Hs IH HR]; intros Hc x; cbn [take_while].
  { split; [by intros H%elem_of_nil|by intros [H%elem_of_nil _]]. }
  specialize (IH (closed_tail _ _ Hc) x). destruct (f a) eqn:E; rewrite !elem_of_cons.
  - rewrite IH. split; [intros [->|[]]; auto|intros [[->|] ?]; auto].
  - split; [by intros H%elem_of_nil|]. intros [[->|Hx] Hf]; [congruence|].
    rewrite (head_false a l Hc HR E x Hx) in Hf. done.
Qed.

Lemma elem_of_drop_while l :
  StronglySorted R l -> closed l -> forall x, x ∈ drop_while f l <-> x ∈ l /\ f x = false.
Proof.
  induction 1 as [|a l Hs IH HR]; intros Hc x; cbn [drop_while].
  { split; [by intros H%elem_of_nil|by intros [H%elem_of_nil _]]. }
  specialize (IH (closed_tail _ _ Hc) x). destruct (f a) eqn:E.
  - rewrite IH, elem_of_cons. split; [intros []; auto|intros [[->|] ?]; [congruence|auto]].
  - rewrite elem_of_cons. split; [|by intros []]. intros [->|Hx]; [by split; [left|]|].
    split; [by right|]. by apply (head_false a l).
Qed.

Lemma strongly_sorted_drop l : StronglySorted R l -> StronglySorted R (drop_while f l).
Proof.
  induction 1 as [|a l Hs IH HR]; cbn [drop_while]; [constructor|]. destruct (f a); [done|by constructor].
Qed.

Lemma strongly_sorted_take l : StronglySorted R l -> StronglySorted R (take_while f l).
Proof.
  induction 1 as [|a l Hs IH HR]; cbn [take_while]; [constructor|]. destruct (f a); constructor; [done|].
  clear -HR. induction HR as [|b l Hb Hl IHl]; cbn [take_while]; [constructor|].
  destruct (f b); by constructor.
Qed.
End sorted.

Lemma strongly_id_le n l : Forall (fun x => length x = n) l -> Sorted id_le l -> StronglySorted id_le l.
Proof.
  intros Hlen Hs. induction Hs as [|x l Hs IH Hx]; [constructor|]. apply Forall_cons in Hlen as [Hn Hlen].
  constructor; [by apply IH|]. specialize (IH Hlen). destruct Hx as [|y l Hxy]; [constructor|].
  apply Forall_cons in Hlen as [Hny Hlen]. inversion_clear IH as [|? ? _ Hy]. constructor; [done|].
  clear Hs. induction Hy as [|z l Hz Hl IHl]; [constructor|]. apply Forall_cons in Hlen as [Hnz Hlen].
  constructor; [|by apply IHl]. apply (memcmp_trans x y z); [congruence|congruence|done..].
Qed.

(** The identifiers with a prefix lie between the padded prefix and the first that
    does not have it. *)
Lemma memcmp_zeros k x : Forall (fun b => 0 <= b) x -> memcmp (replicate k 0) x <= 0.
Proof.
  revert x. induction k as [|k IH]; intros [|b x]; cbn; try done. intros [Hb Hx]%Forall_cons.
  destruct (Z.ltb_spec 0 b); [done|]. destruct (Z.ltb_spec b 0); [lia|]. by apply IH.
Qed.

Lemma match_above p k x :
  Forall (fun b => 0 <= b) x -> take (length p) x = p -> memcmp (p ++ replicate k 0) x <= 0.
Proof.
  revert x. induction p as [|a p IH]; intros x Hx; cbn; [intros _; by apply memcmp_zeros|].
  destruct x as [|b x]; [done|]. intros [= -> Hp]. apply Forall_cons in Hx as [_ Hx].
  rewrite Z.ltb_irrefl. by apply IH.
Qed.

Lemma match_between p k x y :
  length x = (length p + k)%nat -> length y = (length p + k)%nat -> memcmp (p ++ replicate k 0) x <= 0 ->
  memcmp x y <= 0 -> take (length p) y = p -> take (length p) x = p.
Proof.
  revert x y. induction p as [|a p IH]; intros [|b x] [|d y]; cbn; try done. intros Hx Hy H1 H2 [= -> Hp].
  revert H1 H2. destruct (Z.ltb_spec a b), (Z.ltb_spec b a); try lia.
  intros. assert (a = b) as -> by lia. f_equal. apply (IH x y); lia || done.
Qed.

Lemma is_match_spec id p : length id = HASH_SIZE -> is_match id p = true <-> take (length p) id = p.
Proof.
  intros Hl. unfold is_match. rewrite andb_true_iff, bool_decide_eq_true, Nat.leb_le. split; [by intros []|].
  intros Ht. split; [|done]. rewrite <-Ht, length_take. lia.
Qed.

(** [find_entries] returns, in order and without repetition, exactly the
    identifiers of the chain that begin with the prefix; longer prefixes than an
    identifier trip the assertion. *)
Theorem find_entries_by_prefix c prefix :
  (forall id, id ∈ dom (chains c) -> length id = HASH_SIZE /\ Forall (fun b => 0 <= b) id) ->
  if (length prefix <=? HASH_SIZE)%nat
  then exists l, find_entries c prefix = Ok l /\ StronglySorted id_le l /\ 
         forall id, id ∈ l <-> id ∈ dom (chains c) /\ take (length prefix) id = prefix
  else find_entries c prefix = Throw AssertFailed.
Proof.
  intros Hids. unfold find_entries. destruct (Nat.leb_spec (length prefix) HASH_SIZE) as [Hp|Hp]; cbn [require]; [|done].
  rewrite Ok_bind. set (k := (HASH_SIZE - length prefix)%nat). set (s := prefix ++ replicate k 0).
  set (l := in_order (dom (chains c))). eexists. split; [done|].
  assert (Hl : forall x, x ∈ l -> length x = HASH_SIZE /\ Forall (fun b => 0 <= b) x)
    by (intros x Hx; apply Hids; by apply elem_of_in_order).
  assert (Hss : StronglySorted id_le l).
  { apply (strongly_id_le HASH_SIZE); [|apply in_order_sorted]. apply Forall_forall. intros x Hx. by apply Hl. }
  assert (Hs : length s = HASH_SIZE) by (unfold s, k; rewrite length_app, length_replicate; lia).
  assert (Hc1 : closed id_le (fun id => id_lt id s) l).
  { intros x y Hx Hy Hxy. unfold id_lt. rewrite !Z.ltb_lt. intros Hys.
    pose proof (memcmp_trans x y s ltac:(rewrite (proj1 (Hl x Hx)), (proj1 (Hl y Hy)); done)
      ltac:(rewrite (proj1 (Hl y Hy)); done) Hxy ltac:(lia)) as Ht.
    destruct (decide (memcmp x s = 0)) as [He|]; [|lia]. apply memcmp_eq in He; [|by rewrite Hs, (proj1 (Hl x Hx))].
    subst x. rewrite memcmp_opp in Hys. unfold id_le in Hxy. lia. }
  pose proof (elem_of_drop_while id_le (fun id => id_lt id s) l Hss Hc1) as Hdrop.
  pose proof (strongly_sorted_drop id_le (fun id => id_lt id s) l Hss) as Hsd.
  assert (Hc2 : closed id_le (fun id => is_match id prefix) (drop_while (fun id => id_lt id s) l)).
  { intros x y [Hx Hxs]%Hdrop [Hy _]%Hdrop Hxy Hm. destruct (Hl x Hx) as [Hlx _], (Hl y Hy) as [Hly _].
    apply is_match_spec in Hm; [|done]. apply is_match_spec; [done|].
    unfold id_lt in Hxs. apply Z.ltb_ge in Hxs.
    apply (match_between prefix k x y); [unfold k; lia|unfold k; lia| |done|done].
    rewrite memcmp_opp. unfold s in Hxs. lia. }
  split; [by apply strongly_sorted_take|]. intros id.
  rewrite (elem_of_take_while id_le (fun id => is_match id prefix) _ Hsd Hc2), Hdrop.
  unfold l. rewrite elem_of_in_order. split.
  - intros [[Hin _] Hm]. split; [done|]. by apply is_match_spec in Hm; [|apply Hids].
  - intros [Hin Hm]. destruct (Hids id Hin) as [Hlen Hpos]. split; [split; [done|]|by apply is_match_spec].
    unfold id_lt. apply Z.ltb_ge. rewrite memcmp_opp. pose proof (match_above prefix k id Hpos Hm). unfold s. lia.
Qed.

Lemma find_entries_by_prefix_witness :
  exists l, find_entries Example.chain (replicate 31 0 ++ [3]) = Ok l /\ Example.block 3 ∈ l.
Proof.
  assert (Hids : forall id, id ∈ dom (chains Example.chain) -> length id = HASH_SIZE /\ Forall (fun b => 0 <= b) id).
  { apply (bool_decide_unpack (set_Forall _ (dom (chains Example.chain)))). by vm_compute. }
  destruct (find_entries_by_prefix Example.chain (replicate 31 0 ++ [3]) Hids) as (l & Hl & _ & Hin).
  exists l. split; [exact Hl|]. apply Hin. split; [apply (bool_decide_unpack _); by vm_compute|done].
Defined.

(** ** What an identifier commits to *)

Lemma app_inj_length {A} (a b a' b' : list A) : length a = length a' -> a ++ b = a' ++ b' -> a = a' /\ b = b'.
Proof. intros Hl H. by apply app_inj_1. Qed.
Lemma app_inj_length_r {A} (a b a' b' : list A) : length b = length b' -> a ++ b = a' ++ b' -> a = a' /\ b = b'.
Proof. intros Hl H. by apply app_inj_2. Qed.

Lemma write_uint64_inj a b : is_word 64 a -> is_word 64 b -> write_uint64 a = write_uint64 b -> a = b.
Proof.
  intros Ha Hb H. rewrite !write_uint64_le in H. apply (f_equal le_value) in H. rewrite !le_value_bytes in H.
  by rewrite !(wrap_id 64) in H.
Qed.

Lemma write_uint32_inj a b : is_word 32 a -> is_word 32 b -> write_uint32 a = write_uint32 b -> a = b.
Proof.
  intros Ha Hb H. rewrite !write_uint32_le in H. apply (f_equal le_value) in H. rewrite !le_value_bytes in H.
  by rewrite !(wrap_id 32) in H.
Qed.

Lemma utime_to_bytes_inj a b : is_word 64 a -> is_word 64 b -> utime_to_bytes a = utime_to_bytes b -> a = b.
Proof.
  intros Ha Hb H. apply (f_equal be_value) in H. by rewrite !utime_be_value in H.
Qed.

Lemma root_hash_length db root h :
  db_ok db -> use_hashing db = true -> root_hash db root = Ok h -> length h = 32%nat.
Proof.
  intros Hdb Hh H. unfold root_hash, get_root in H. destruct (roots db !! root) as [r|] eqn:Hr; [|done].
  cbn [of_option] in H. rewrite Ok_bind in H.
  destruct (ro_branch _ _ _ (do_roots _ Hdb root r Hr)) as (n & b & Hb & _ & Hok).
  rewrite (get_branch_at_Ok _ _ _ Hb), Ok_bind in H. destruct n; [done|]. destruct Hok as (_ & [Hwf Hsz] & _).
  rewrite copy_out_wf in H by done. injection H as <-. unfold hash_size_of in Hsz. rewrite Hh in Hsz.
  destruct Hwf as [Hl _]. lia.
Qed.

Lemma num_entries_word db root n : db_ok db -> num_entries db root = Ok n -> is_word 64 n.
Proof.
  intros Hdb H. unfold num_entries, get_root in H. destruct (root =? 0); [injection H as <-; by split|].
  destruct (roots db !! root) as [r|] eqn:Hr; [|done]. injection H as <-. apply (do_roots _ Hdb root r Hr).
Qed.

Lemma Forall2_conj {A B} (P Q : A -> B -> Prop) l l' :
  Forall2 P l l' -> Forall2 Q l l' -> Forall2 (fun x y => P x y /\ Q x y) l l'.
Proof.
  induction 1 as [|x y l l' HP _ IH]; intros HQ; [constructor|]. inversion_clear HQ. constructor; [done|by apply IH].
Qed.

(** A chain whose state databases are well formed and hash their branches. *)
Definition states (c : blockchain) : list (triedb * Z) :=
  let t := tip c in
  [(heap_db c, m_root_heap t); (closure_db c, m_root_closure t); (symbols_db c, m_root_symbols t);
   (program_db c, m_root_program t)].
Record hashed (c : blockchain) : Prop := Hashed {
  hd_dbs : Forall (fun s => db_ok s.1 /\ use_hashing s.1 = true) (states c);
  hd_previous : length (m_previous_id (tip c)) = HASH_SIZE;
  hd_words : is_word 64 (m_version (tip c)) /\ is_word 32 (m_height (tip c)) /\ is_word 64 (m_timestamp (tip c))
}.

Lemma Ok_inj {A} (a b : A) : Ok a = Ok b -> a = b.
Proof. congruence. Qed.
Lemma mjoin_cons {A} (x : list A) xs : mjoin (x :: xs) = x ++ mjoin xs.
Proof. done. Qed.
Lemma join4 {A} (a b c d : list A) : mjoin [a; b; c; d] = a ++ b ++ c ++ d.
Proof. unfold mjoin. cbn. by rewrite app_nil_r. Qed.

(** The parts of the hashed bytes. *)
Lemma id_preimage_parts find_fuel c bytes :
  hashed c -> id_preimage find_fuel c = Ok bytes ->
  exists block hs ns,
    bytes = m_previous_id (tip c) ++ block ++ mjoin hs ++ mjoin (write_uint64 <$> ns) ++
            write_uint64 (m_version (tip c)) ++ write_uint32 (m_height (tip c)) ++
            utime_to_bytes (m_timestamp (tip c)) ++ flt_write (m_pow_difficulty (tip c)) /\
    Forall2 (fun s h => root_hash s.1 s.2 = Ok h /\ length h = 32%nat) (states c) hs /\
    Forall2 (fun s n => num_entries s.1 s.2 = Ok n /\ is_word 64 n) (states c) ns.
Proof.
  intros [Hdbs _ _] H. unfold id_preimage in H. cbv zeta in H.
  apply bind_Ok in H as (block & _ & H).
  apply bind_Ok in H as (h1 & Hh1 & H). apply bind_Ok in H as (h2 & Hh2 & H).
  apply bind_Ok in H as (h3 & Hh3 & H). apply bind_Ok in H as (h4 & Hh4 & H).
  apply bind_Ok in H as (n1 & Hn1 & H). apply bind_Ok in H as (n2 & Hn2 & H).
  apply bind_Ok in H as (n3 & Hn3 & H). apply bind_Ok in H as (n4 & Hn4 & H).
  apply Ok_inj in H. rewrite <-H. clear H.
  unfold states in *. apply Forall_cons in Hdbs as [[D1 U1] Hdbs]. apply Forall_cons in Hdbs as [[D2 U2] Hdbs].
  apply Forall_cons in Hdbs as [[D3 U3] Hdbs]. apply Forall_cons in Hdbs as [[D4 U4] _]. cbn [fst snd] in *.
  exists block, [h1; h2; h3; h4], [n1; n2; n3; n4]. split; [|split].
  - cbn [fmap list_fmap]. rewrite !join4. by rewrite <-!app_assoc.
  - repeat (apply Forall2_cons_2; [cbn [fst snd]; split; [done|]; eapply root_hash_length; [| |eassumption]; assumption|]). constructor.
  - repeat (apply Forall2_cons_2; [cbn [fst snd]; split; [done|]; eapply num_entries_word; [|eassumption]; assumption|]). constructor.
Qed.

Lemma length_hashes ss hs :
  Forall2 (fun s h => root_hash s.1 s.2 = Ok h /\ length h = 32%nat) ss hs -> length (mjoin hs) = (length ss * 32)%nat.
Proof.
  induction 1 as [|s h ss hs [_ Hl] _ IH]; [done|]. rewrite mjoin_cons, length_app, Hl, IH. cbn [length]. lia.
Qed.

Lemma length_counts (ns : list Z) : length (mjoin (write_uint64 <$> ns)) = (length ns * 8)%nat.
Proof.
  induction ns as [|n ns IH]; [done|]. rewrite fmap_cons, mjoin_cons.
  rewrite length_app, write_uint64_le, length_le_bytes, IH. cbn [length]. lia.
Qed.

Lemma hashes_inj ss ss' hs hs' :
  Forall2 (fun s h => root_hash s.1 s.2 = Ok h /\ length h = 32%nat) ss hs ->
  Forall2 (fun s h => root_hash s.1 s.2 = Ok h /\ length h = 32%nat) ss' hs' ->
  length ss = length ss' -> mjoin hs = mjoin hs' ->
  Forall2 (fun s s' => root_hash s.1 s.2 = root_hash s'.1 s'.2) ss ss'.
Proof.
  intros H. revert ss' hs'. induction H as [|s h ss hs [Hh Hl] _ IH]; intros ss' hs' H' Hlen Heq;
    destruct H' as [|s' h' ss' hs' [Hh' Hl'] H']; try done; constructor.
  - rewrite !mjoin_cons in Heq. apply app_inj_length in Heq as [-> _]; [congruence|congruence].
  - rewrite !mjoin_cons in Heq. apply app_inj_length in Heq as [_ Heq]; [|congruence]. cbn in Hlen. eapply IH; [done|lia|done].
Qed.

Lemma counts_inj ss ss' ns ns' :
  Forall2 (fun s n => num_entries s.1 s.2 = Ok n /\ is_word 64 n) ss ns ->
  Forall2 (fun s n => num_entries s.1 s.2 = Ok n /\ is_word 64 n) ss' ns' ->
  length ss = length ss' -> mjoin (write_uint64 <$> ns) = mjoin (write_uint64 <$> ns') ->
  Forall2 (fun s s' => num_entries s.1 s.2 = num_entries s'.1 s'.2) ss ss'.
Proof.
  intros H. revert ss' ns'. induction H as [|s n ss ns [Hn Hw] _ IH]; intros ss' ns' H' Hlen Heq;
    destruct H' as [|s' n' ss' ns' [Hn' Hw'] H']; try done.
  rewrite !fmap_cons, !mjoin_cons in Heq.
  apply app_inj_length in Heq as [Hw1 Heq]; [|by rewrite !write_uint64_le, !length_le_bytes].
  apply write_uint64_inj in Hw1; [|done..]. constructor; [congruence|]. cbn in Hlen. eapply IH; [done|lia|done].
Qed.

(** C36: The identifier commits to the state: two tips for which [update_meta_id] feeds
    the same bytes to the hash have the same previous block, version, height, time stamp
    and bytes of the difficulty (which leave out the upper bits of its mantissa), and
    the same root hash and number of entries in each of the four state databases. *)
Theorem identifier_commits_to_state fuel c fuel' c' bytes :
  hashed c -> hashed c' -> id_preimage fuel c = Ok bytes -> id_preimage fuel' c' = Ok bytes ->
  m_previous_id (tip c) = m_previous_id (tip c') /\ m_version (tip c) = m_version (tip c') /\
  m_height (tip c) = m_height (tip c') /\ m_timestamp (tip c) = m_timestamp (tip c') /\
  flt_write (m_pow_difficulty (tip c)) = flt_write (m_pow_difficulty (tip c')) /\
  Forall2 (fun s s' => root_hash s.1 s.2 = root_hash s'.1 s'.2 /\ num_entries s.1 s.2 = num_entries s'.1 s'.2)
    (states c) (states c').
Proof.
  intros Hc Hc' H H'.
  destruct (id_preimage_parts fuel c bytes Hc H) as (block & hs & ns & -> & Hhs & Hns).
  destruct (id_preimage_parts fuel' c' _ Hc' H') as (block' & hs' & ns' & Heq & Hhs' & Hns').
  destruct Hc as [_ Hp (Hv & Hh & Ht)], Hc' as [_ Hp' (Hv' & Hh' & Ht')].
  apply app_inj_length in Heq as [Hprev Heq]; [|congruence].
  assert (L8 : forall v : Z, length (write_uint64 v) = 8%nat) by (intros; by rewrite write_uint64_le, length_le_bytes).
  assert (L4 : forall v : Z, length (write_uint32 v) = 4%nat) by (intros; by rewrite write_uint32_le, length_le_bytes).
  assert (Lh : length (mjoin hs) = length (mjoin hs'))
    by (by rewrite (length_hashes _ _ Hhs), (length_hashes _ _ Hhs')).
  assert (Ln : length ns = length ns') by (by rewrite <-(Forall2_length _ _ _ Hns), <-(Forall2_length _ _ _ Hns')).
  assert (Lf : forall f, length (flt_write f) = 8%nat) by done.
  apply app_inj_length_r in Heq as [_ Heq].
  2: { rewrite !length_app, !length_counts, !L8, !L4, !length_utime_to_bytes, !Lf. lia. }
  apply app_inj_length in Heq as [Hmh Heq]; [|done]. apply app_inj_length in Heq as [Hmn Heq]; [|rewrite !length_counts; lia].
  apply app_inj_length in Heq as [Hev Heq]; [|by rewrite !L8]. apply app_inj_length in Heq as [Heh Heq]; [|by rewrite !L4].
  apply app_inj_length in Heq as [Het Hef]; [|by rewrite !length_utime_to_bytes].
  split_and!; [done|by apply write_uint64_inj|by apply write_uint32_inj|by apply utime_to_bytes_inj|done|].
  apply Forall2_conj; [by apply (hashes_inj _ _ hs hs')|by apply (counts_inj _ _ ns ns')].
Qed.

Lemma genesis_hashed : hashed genesis_chain.
Proof.
  split; [|done|by split_and!].
  assert (Hdb : db_ok example_db) by apply (rf_ok _ _ example_refines).
  repeat (apply Forall_cons; split; [split; [|by vm_compute]|]); [..|constructor]; vm_compute fst; exact Hdb.
Qed.

Lemma identifier_commits_to_state_witness :
  exists bytes, id_preimage 100 genesis_chain = Ok bytes /\
    Forall2 (fun s s' => root_hash s.1 s.2 = root_hash s'.1 s'.2 /\ num_entries s.1 s.2 = num_entries s'.1 s'.2)
      (states genesis_chain) (states (with_index genesis_chain ∅ ∅)).
Proof.
  destruct (id_preimage 100 genesis_chain) as [bytes|] eqn:E; [|by vm_compute in E]. exists bytes. split; [done|].
  refine (_ (identifier_commits_to_state 100 genesis_chain 100 (with_index genesis_chain ∅ ∅) bytes
    genesis_hashed _ E E)); [by intros (_ & _ & _ & _ & _ & ?)|]. by destruct genesis_hashed.
Defined.

(** ** Storing and loading *)

(** What [init] makes of the stored bytes of [e]: [entry_read] into a fresh entry. *)
Definition reloaded (e : meta_entry) : meta_entry :=
  MetaEntry (m_id e) (m_previous_id e) (m_version e) (m_height e) (w64 (m_timestamp e ≪ 8)) (m_pow_proof e)
    (Flt (f_exponent (m_pow_difficulty e)) (f_mantissa flt_one)) (m_root_meta e) (m_root_blocks e) (m_root_heap e)
    (m_root_closure e) (m_root_symbols e) (m_root_program e).

Lemma reopen_ok db : db_ok db -> db_ok (reopen db).
Proof. intros [H1 [H2 H3] H4]. split; [by destruct H1; split|cbn; lia|]. intros id r Hr. by destruct (H4 id r Hr); split. Qed.

Lemma entry_size e : entry_wf e -> Z.of_nat (length (entry_write e)) + 4 * 8 = entry_serialization_size.
Proof.
  intros [H1 H2 _ _ [H5 _] _ _]. unfold entry_write, entry_serialization_size, TOTAL_SIZE_BYTES.
  rewrite !length_app, H1, H2, length_utime_to_bytes, length_proof_write, H5, !write_uint64_le, !length_le_bytes. done.
Qed.

Section stored.
Context (blake2b : list Z -> list Z).
Hypothesis blake2b_length : forall bs, length (blake2b bs) = 32%nat.
Hypothesis blake2b_bytes : forall bs, are_bytes (blake2b bs).

(** The entry is in the database under its height. *)
Lemma update_meta_entry_stores junk c e r :
  db_ok (meta_db c) -> roots (meta_db c) !! m_root_meta e = Some r -> is_word 32 (m_height e) ->
  data_fits (entry_write e ++ junk) ->
  exists c', update_meta_entry blake2b junk c e = Ok c' /\ c' = indexed_with (with_meta_db c (meta_db c')) e /\
    db_ok (meta_db c') /\ root_map (meta_db c') (m_root_meta e) (m_height e) = Some (entry_write e ++ junk) /\
    is_Some (roots (meta_db c') !! m_root_meta e).
Proof.
  intros Hdb Hr Hh Hfit.
  destruct (insert_or_update_correct blake2b blake2b_length blake2b_bytes (meta_db c) (m_root_meta e) r
    (m_height e) (entry_write e ++ junk) false) as (db' & Hu & [Hdb' Hmap _ _ Hnum]);
    [done|done|done|by eapply is_word_le|done|].
  destruct (update_meta_entry blake2b junk c e) as [c'|x] eqn:E.
  2: { unfold update_meta_entry, update in E. rewrite Hu, Ok_bind in E. cbv zeta in E.
       by destruct (at_height_ref _ _) in E. }
  exists c'. split; [done|]. destruct (update_meta_entry_index blake2b junk c e c' E) as [db ->].
  assert (db = db') as ->.
  { unfold update_meta_entry, update in E. rewrite Hu, Ok_bind in E. unfold at_height_ref in E.
    assert (Hm : meta_db (indexed_with (with_meta_db c db) e) = db') by (by destruct (at_height _ !! _) in E; apply Ok_inj in E; rewrite <-E).
    exact Hm. }
  split; [done|]. split; [done|]. split.
  - change (meta_db (indexed_with _ _)) with db'. rewrite Hmap. unfold put. by rewrite decide_True.
  - destruct (Hnum r Hr) as (r' & Hr' & _). by exists r'.
Qed.

(** C37: What [update_meta_entry] stores, one step of [init] loads: with the database opened
    again, [load_entry] for the entry's version and height finds the record, puts the
    entry back in the index, under its identifier and height, and makes it the candidate
    for the tip when its state databases are there.  The loaded entry is the stored one
    but for the time stamp and the mantissa of the difficulty.  That the loops of
    [init] come to this version and height is not part of it. *)
Theorem stored_entry_is_loaded junk c e r :
  db_ok (meta_db c) -> roots (meta_db c) !! m_root_meta e = Some r ->
  entry_wf e -> is_word 32 (m_height e) -> m_id e <> meta_id_zero ->
  data_fits (entry_write e ++ junk) -> length junk = 32%nat ->
  exists c', update_meta_entry blake2b junk c e = Ok c' /\
    forall fuel c0 best,
      meta_db c0 = reopen (meta_db c') -> chains c0 !! m_id e = None ->
      (version_fuel (meta_db c') (m_root_meta e) <= fuel)%nat ->
      exists c1, load_entry fuel (m_height e) (Ok (c0, best)) (m_root_meta e) =
        Ok (c1, if negb (is_partial e) && dbs_available c0 e then reloaded e else best) /\
        chains c1 = <[m_id e := reloaded e]> (chains c0) /\
        forall h, level c1 h = if decide (h = m_height e) then {[m_id e]} ∪ level c0 h else level c0 h.
Proof.
  intros Hdb Hr Hwf Hh Hid Hfit Hjunk.
  destruct (update_meta_entry_stores junk c e r Hdb Hr Hh Hfit) as (c' & Hu & _ & Hdb' & Hmap & [r' Hr']).
  exists c'. split; [done|]. intros fuel c0 best Hmeta Hnew Hfuel.
  destruct (find_leaf_ok (reopen (meta_db c')) (m_root_meta e) r' (reopen_ok _ Hdb') Hr' fuel (m_height e))
    as ([[leaf path]|] & Hfind & Hleaf); [by eapply is_word_le|exact Hfuel| |].
  2: { change (root_map (meta_db c') (m_root_meta e) (m_height e) = None) in Hleaf. congruence. }
  destruct Hleaf as (_ & Hdata & _ & [Hlen Hbytes] & _).
  change (root_map (meta_db c') (m_root_meta e) (m_height e) = Some (cd_bytes (l_data leaf))) in Hdata.
  rewrite Hmap in Hdata. injection Hdata as Hdata. pose proof (entry_size e Hwf) as Hsz.
  unfold load_entry. rewrite Ok_bind. cbn beta iota. rewrite Hmeta. run Hfind.
  assert (Hcd : cd_size (l_data leaf) = entry_serialization_size).
  { rewrite Hlen, <-Hdata, length_app, Hjunk. lia. }
  rewrite Hcd, Z.eqb_refl. cbn [require]. rewrite Ok_bind, copy_out_wf, Ok_bind by done. rewrite <-Hdata.
  rewrite (proj1 (read_written meta_entry_default e junk Hwf)), Ok_bind.
  set (e' := set_height_and_meta _ _ _). assert (He' : e' = reloaded e).
  { unfold e', reloaded, set_height_and_meta. cbn -[entry_write]. by rewrite (wrap_id 32). }
  clearbody e'. subst e'. change (m_id (reloaded e)) with (m_id e). change (m_height (reloaded e)) with (m_height e).
  unfold id_is_zero. rewrite bool_decide_false by done. rewrite Hnew.
  pose proof (at_height_ref_ok c0 (m_height e)) as [Hs Hl].
  destruct (at_height_ref c0 (m_height e)) as [c2 ids]. cbn [fst snd] in Hs, Hl. subst ids.
  assert (Hd : forall hs cs x, dbs_available (with_index c2 hs cs) x = dbs_available c0 x)
    by (intros; destruct Hs as [-> _]; done).
  assert (Hc2 : forall cs, with_index c2 (<[m_height e := {[m_id e]} ∪ level c0 (m_height e)]> (at_height c2)) cs =
    with_index c2 (<[m_height e := {[m_id e]} ∪ level c2 (m_height e)]> (at_height c2)) cs)
    by (intros; by rewrite (level_proper c0 c2 Hs (m_height e) _ eq_refl)).
  eexists. split; [rewrite Hd; reflexivity|split; [done|]]. intros h.
  rewrite Hc2. unfold level at 1. cbn [at_height with_index]. rewrite (level_proper c0 c2 Hs h h eq_refl).
  case_decide as E; [subst h; by rewrite lookup_insert_eq|by rewrite lookup_insert_ne].
Qed.
End stored.

Definition genesis_entry : meta_entry := set_id (tip genesis_chain) (Example.block 1).

Lemma genesis_entry_wf : entry_wf genesis_entry.
Proof. destruct default_entry_wf as [H1 H2 H3 H4 H5 H6 H7]. split; try done. apply (bool_decide_unpack _). by vm_compute. Qed.

Lemma stored_entry_is_loaded_witness :
  exists c' c1, update_meta_entry checksum (replicate 32 0) genesis_chain genesis_entry = Ok c' /\
    load_entry 20 0 (Ok (with_index (with_meta_db c' (reopen (meta_db c'))) ∅ ∅, meta_entry_default)) 20 =
      Ok (c1, reloaded genesis_entry) /\ chains c1 = {[Example.block 1 := reloaded genesis_entry]}.
Proof.
  destruct (roots (meta_db genesis_chain) !! 20) as [r|] eqn:Hr; [|by vm_compute in Hr].
  assert (Hdb : db_ok (meta_db genesis_chain)) by (vm_compute meta_db; exact (rf_ok _ _ example_refines)).
  assert (Hfit : data_fits (entry_write genesis_entry ++ replicate 32 0)).
  { split; [apply (bool_decide_unpack _); by vm_compute|by vm_compute]. }
  destruct (stored_entry_is_loaded checksum checksum_length checksum_bytes (replicate 32 0) genesis_chain genesis_entry r
    Hdb Hr genesis_entry_wf ltac:(by split) ltac:(by apply (bool_decide_unpack _); vm_compute) Hfit ltac:(done))
    as (c' & Hu & Hload).
  assert (Hfuel : (version_fuel (meta_db c') 20 <= 20)%nat).
  { assert (Hv : match update_meta_entry checksum (replicate 32 0) genesis_chain genesis_entry with
                 | Ok c' => (version_fuel (meta_db c') 20 <=? 20)%nat | _ => false end = true) by by vm_compute.
    rewrite Hu in Hv. by apply Nat.leb_le in Hv. }
  destruct (Hload 20%nat (with_index (with_meta_db c' (reopen (meta_db c'))) ∅ ∅) meta_entry_default eq_refl
    (lookup_empty _) Hfuel) as (c1 & Hc1 & Hchains & _).
  exists c', c1. split; [exact Hu|]. split; [|by rewrite Hchains].
  assert (Hav : dbs_available (with_index (with_meta_db c' (reopen (meta_db c'))) ∅ ∅) genesis_entry = true).
  { assert (Hv : match update_meta_entry checksum (replicate 32 0) genesis_chain genesis_entry with
                 | Ok c' => dbs_available c' genesis_entry | _ => false end = true) by by vm_compute.
    rewrite Hu in Hv. exact Hv. }
  rewrite Hav in Hc1. exact Hc1.
Defined.
