(* ===== verification/Cells.v ===== *)
(** * Cells ([src/src/common/term.hpp], [src/src/common/term.cpp])

    A cell is a 64-bit word: a tag in the three low bits and a 61-bit value.
    This file models the cell classes ([ptr_cell], [con_cell], [int_cell],
    [dat_cell]) as functions on the raw word, including the two packings of text
    into a cell: names of constants and chunks of strings.  Strings are lists of
    their bytes. *)

From S2P Require Import Prelude.

(** ** Tags and values *)

(** [tag_t::kind_t], in the order of the enumerators. *)
Inductive tag : Type := REF | RFW | INT | BIG | CON | STR | DAT | FWD.
#[export] Instance tag_eq_dec : EqDecision tag.
Proof. solve_decision. Defined.

Definition tag_kind (t : tag) : Z :=
  match t with
  | REF => 0 | RFW => 1 | INT => 2 | BIG => 3 | CON => 4 | STR => 5 | DAT => 6 | FWD => 7
  end.
Definition kind_tag (k : Z) : tag :=
  match k with
  | 0 => REF | 1 => RFW | 2 => INT | 3 => BIG | 4 => CON | 5 => STR | 6 => DAT | _ => FWD
  end.
(** [tag_t::is_ref] *)
Definition is_ref (t : tag) : bool := (tag_kind t &&& 6) =? 0.

Definition cell_tag (c : Z) : tag := kind_tag (c &&& 7).
Definition cell_value (c : Z) : Z := c ≫ 3.
Definition set_value (c v : Z) : Z := w64 (v ≪ 3) ||| (c &&& 7).
Definition value_signed (c : Z) : Z := sgn 64 c ≫ 3.
(** [cell(tag_t t, value_t v)] *)
Definition mk_cell (t : tag) (v : Z) : Z := (tag_kind t &&& 7) ||| w64 (v ≪ 3).

(** [ptr_cell], [ref_cell], [str_cell], [fwd_cell], [big_cell] *)
Definition ptr_index (c : Z) : Z := cell_value c.
Definition ref_cell (index : Z) : Z := mk_cell REF index.
Definition ref_cell_watched (index : Z) : Z := mk_cell RFW index.
Definition watched_cell (c : Z) : bool := bool_decide (cell_tag c = RFW).
Definition str_cell (index : Z) : Z := mk_cell STR index.
Definition fwd_cell (index : Z) : Z := mk_cell FWD index.
Definition big_cell (index : Z) : Z := mk_cell BIG index.

(** ** Constants *)

Definition MAX_ARITY : Z := 8192 - 1.

(** [con_cell(atom_index, arity)] *)
Definition con_cell_index (atom_index arity : Z) : Z :=
  set_value (mk_cell CON 0) (w64 (atom_index ≪ 13) ||| arity).

Definition use_compacted (name : list Z) (arity : Z) : bool :=
  bool_decide (length name <= 7)%nat && (arity <=? 31).

Definition is_direct (c : Z) : bool := negb (((cell_value c ≫ 60) &&& 1) =? 0).

(** The non-direct mask is [(1 << 12) - 1]. *)
Definition con_arity (c : Z) : Z :=
  if is_direct c then cell_value c &&& 0x1f else cell_value c &&& (1 ≪ 12 - 1).
Definition con_to_atom (c : Z) : Z := set_value c (Z.ldiff (cell_value c) 0x1f).
Definition atom_index (c : Z) : res Z :=
  _ ← require (negb (is_direct c)) AssertFailed; Ok (cell_value c ≫ 13).

(** The loop of [con_cell(name, arity)] that packs the characters. *)
Fixpoint pack_name (name : list Z) (i v : Z) : Z :=
  match name with
  | [] => v
  | ch :: name => pack_name name (i + 1) (v ||| (((ch &&& 0x7f) ||| 0x80) ≪ (53 - i * 8)))
  end.
Definition con_cell_name (name : list Z) (arity : Z) : res Z :=
  _ ← require (use_compacted name arity) AssertFailed;
  Ok (set_value (mk_cell CON 0) (pack_name name 0 (1 ≪ 60) ||| arity)).

Definition name_byte (c i : Z) : Z := (cell_value c ≫ (53 - i * 8)) &&& 0xff.
Definition get_name_byte (c i : Z) : res Z :=
  _ ← require (is_direct c) AssertFailed; Ok (name_byte c i).

(** [for (i = 0; i < 7; i++)] with [n] iterations to go. *)
Fixpoint name_length_loop (n : nat) (c i : Z) : Z :=
  match n with
  | O => 7
  | S n => if (name_byte c i &&& 0x80) =? 0 then i else name_length_loop n c (i + 1)
  end.
Definition name_length (c : Z) : res Z :=
  _ ← require (is_direct c) AssertFailed; Ok (name_length_loop 7 c 0).
Definition con_name (c : Z) : res (list Z) :=
  n ← name_length c;
  Ok ((fun i => name_byte c i &&& 0x7f) <$> seqZ 0 n).

(** ** Integers *)

Definition int_cell (val : Z) : Z := mk_cell INT val.
Definition int_value (c : Z) : Z := value_signed c.
Definition int_max : Z := (2 ^ 63 - 1) ≫ 3.
Definition int_min : Z := (- 2 ^ 63) ≫ 3.
(** [saturate(int64_t)] *)
Definition saturate (val : Z) : Z :=
  if val <? int_min then int_min else if int_max <? val then int_max else val.
(** 64-bit signed arithmetic on the values; the result is cut to 61 bits. *)
Definition int_add (a b : Z) : Z := int_cell (int_value a + int_value b).
Definition int_sub (a b : Z) : Z := int_cell (int_value a - int_value b).
Definition int_negate (c : Z) : Z := int_cell (saturate (- int_value c)).
Definition int_abs (c : Z) : Z := if int_value c <? 0 then int_negate c else c.
Definition int_sign (c : Z) : Z := if int_value c <? 0 then int_cell (-1) else int_cell 1.

(** ** String chunks *)

(** [v |= (1 << (5+(6-(i-from))*8)) * str[i]], with [k = i - from]. *)
Fixpoint pack_chunk (str : list Z) (k v : Z) : Z :=
  match str with
  | [] => v
  | ch :: str => pack_chunk str (k + 1) (v ||| ((1 ≪ (5 + (6 - k) * 8)) * ch))
  end.
Definition encode_str_range (str : list Z) (from to : Z) (has_more : bool) : res Z :=
  _ ← require (w64 (to - from) <=? 7) AssertFailed;
  let end_ := Z.min to (Z.of_nat (length str)) in
  let chunk := take (Z.to_nat (end_ - from)) (drop (Z.to_nat from) str) in
  let v := pack_chunk chunk 0 0 in
  Ok (int_cell (if has_more then v ||| 1 else v)).
Definition encode_str (str : list Z) (has_more : bool) : res Z :=
  encode_str_range str 0 (Z.of_nat (length str)) has_more.

Definition chunk_byte (v i : Z) : Z := (v ≫ ((6 - i) * 8 + 5)) &&& 0xff.
Fixpoint as_char_chunk_loop (n : nat) (v i : Z) : list Z :=
  match n with
  | O => []
  | S n =>
      let ch := chunk_byte v i in
      if ch =? 0 then [] else ch :: as_char_chunk_loop n v (i + 1)
  end.
Definition as_char_chunk (c : Z) : list Z := as_char_chunk_loop 7 (int_value c) 0.
Definition is_valid_char (ch : Z) : bool := (1 <=? ch) && (ch <=? 127).
Fixpoint is_char_chunk_loop (n : nat) (v i : Z) : bool :=
  match n with
  | O => true
  | S n =>
      let ch := chunk_byte v i in
      if ch =? 0 then true
      else if negb (is_valid_char ch) then false else is_char_chunk_loop n v (i + 1)
  end.
Definition lowest_5_bits (c : Z) : Z := w8 (int_value c) &&& 0x1f.
Definition is_char_chunk (c : Z) : bool :=
  let low := lowest_5_bits c in
  if negb (low =? 0) && negb (low =? 1) then false
  else is_char_chunk_loop 7 (int_value c) 0.
Definition is_last_char_chunk (c : Z) : bool := lowest_5_bits c =? 0.

(** ** Headers of big integers *)

Definition NUM_SIZE_BITS : Z := 64 / 2 - 3.
Definition dat_cell (num_bits : Z) : Z := mk_cell DAT num_bits.
Definition dat_num_bits (c : Z) : Z := int_value c &&& (1 ≪ NUM_SIZE_BITS - 1).
Definition num_half_cells (c : Z) : Z := 1 + (dat_num_bits c + 32 - 1) / 32.
Definition dat_num_cells (c : Z) : Z := (num_half_cells c + 1) / 2.

(** ** Lemmas *)

Definition is_index (i : Z) : Prop := is_word 61 i.

Lemma tag_kind_range t : 0 <= tag_kind t < 8.
Proof. destruct t; cbn; lia. Qed.

Lemma kind_tag_kind t : kind_tag (tag_kind t) = t.
Proof. by destruct t. Qed.

Lemma mk_cell_bits t v j :
  0 <= j -> Z.testbit (mk_cell t v) j =
  if j <? 3 then Z.testbit (tag_kind t) j else Z.testbit v (j - 3) && (j <? 64).
Proof.
  intros Hj. unfold mk_cell. rewrite Z.lor_spec, Z.land_spec, wrap_spec, Z.shiftl_spec by lia.
  change 7 with (Z.ones 3). rewrite Z.testbit_ones by lia.
  destruct (Z.ltb_spec j 3).
  - rewrite (Z.testbit_neg_r v) by lia. rewrite (proj2 (Z.leb_le 0 j)) by lia.
    cbn. by rewrite andb_true_r, orb_false_r.
  - rewrite (proj2 (Z.leb_le 0 j)) by lia. cbn. by rewrite andb_false_r.
Qed.

Lemma cell_tag_mk t v : cell_tag (mk_cell t v) = t.
Proof.
  unfold cell_tag. rewrite <-(kind_tag_kind t) at 2. f_equal.
  apply Z.bits_inj'. intros j Hj. change 7 with (Z.ones 3).
  rewrite Z.land_spec, mk_cell_bits, Z.testbit_ones by lia.
  rewrite (proj2 (Z.leb_le 0 j)) by lia. cbn.
  destruct (Z.ltb_spec j 3); [by rewrite andb_true_r|]. rewrite andb_false_r.
  pose proof (tag_kind_range t). symmetry. destruct (decide (tag_kind t = 0)) as [->|];
    [apply Z.bits_0|]. apply Z.bits_above_log2; [lia|].
  assert (Z.log2 (tag_kind t) < 3); [|lia]. apply Z.log2_lt_pow2; lia.
Qed.

Lemma cell_value_mk t v : is_index v -> cell_value (mk_cell t v) = v.
Proof.
  intros Hv. unfold cell_value. apply Z.bits_inj'. intros j Hj.
  rewrite Z.shiftr_spec, mk_cell_bits by lia.
  rewrite (proj2 (Z.ltb_ge (j + 3) 3)) by lia. replace (j + 3 - 3) with j by lia.
  apply is_word_testbit in Hv as [_ Hv]; [|done].
  destruct (Z.ltb_spec (j + 3) 64); [by rewrite andb_true_r|]. rewrite Hv by lia. done.
Qed.

Lemma mk_cell_word t v : is_word 64 (mk_cell t v).
Proof.
  apply lor_word; [done| |by apply wrap_word].
  apply (is_word_le 3); [|done]. apply land_word; [done|]. pose proof (tag_kind_range t).
  unfold is_word. lia.
Qed.

Lemma set_value_mk t v w : set_value (mk_cell t v) w = mk_cell t w.
Proof.
  unfold set_value. rewrite Z.lor_comm. unfold mk_cell at 2. f_equal.
  apply Z.bits_inj'. intros j Hj. change 7 with (Z.ones 3).
  rewrite !Z.land_spec, mk_cell_bits, Z.testbit_ones by lia.
  rewrite (proj2 (Z.leb_le 0 j)) by lia. cbn.
  destruct (Z.ltb_spec j 3); [done|]. by rewrite !andb_false_r.
Qed.

Lemma cell_tag_value c : is_word 64 c -> mk_cell (cell_tag c) (cell_value c) = c.
Proof.
  intros Hc. apply Z.bits_inj'. intros j Hj. rewrite mk_cell_bits by done.
  unfold cell_value. destruct (Z.ltb_spec j 3).
  - unfold cell_tag. assert (Hk : forall k, 0 <= k < 8 -> tag_kind (kind_tag k) = k).
    { intros k Hk. destruct (decide (k ∈ seqZ 0 8)) as [Hin|Hin];
        [|rewrite elem_of_seqZ in Hin; lia]. cbn in Hin.
      repeat (apply elem_of_cons in Hin as [->|Hin]; [done|]). by apply not_elem_of_nil in Hin. }
    rewrite Hk. 2: { change 7 with (Z.ones 3). rewrite Z.land_ones by lia. apply Z.mod_pos_bound. lia. }
    change 7 with (Z.ones 3). rewrite Z.land_spec, Z.testbit_ones by lia.
    rewrite (proj2 (Z.leb_le 0 j)), (proj2 (Z.ltb_lt j 3)) by lia. by rewrite andb_true_r.
  - rewrite Z.shiftr_spec by lia. replace (j - 3 + 3) with j by lia.
    apply is_word_testbit in Hc as [_ Hc]; [|done].
    destruct (Z.ltb_spec j 64); [by rewrite andb_true_r|]. by rewrite Hc by lia.
Qed.

Lemma cell_ext c c' :
  is_word 64 c -> is_word 64 c' -> cell_tag c = cell_tag c' -> cell_value c = cell_value c' -> c = c'.
Proof. intros H H' Ht Hv. rewrite <-(cell_tag_value c), <-(cell_tag_value c') by done. congruence. Qed.

Lemma cell_value_index c : is_word 64 c -> is_index (cell_value c).
Proof. intros. by apply (shiftr_word 64). Qed.

Lemma is_ref_true t : is_ref t = true <-> t = REF \/ t = RFW.
Proof. destruct t; cbn; split; intuition discriminate. Qed.

(** ** Byte slots

    Names and chunks keep their byte [k] at bits [53 - 8k] and up. *)

Definition slot (x k : Z) : Z := (x ≫ (53 - k * 8)) &&& 0xff.

Lemma testbit_ff x j : Z.testbit (x &&& 0xff) j = Z.testbit x j && (j <? 8) && (0 <=? j).
Proof.
  change 0xff with (Z.ones 8). destruct (Z.leb_spec 0 j).
  - rewrite Z.land_spec, Z.testbit_ones by lia. rewrite (proj2 (Z.leb_le 0 j)) by done.
    cbn. by rewrite andb_true_r.
  - rewrite !Z.testbit_neg_r by lia. done.
Qed.

Lemma slot_testbit x k j :
  0 <= k <= 6 -> Z.testbit (slot x k) j = Z.testbit x (j + (53 - k * 8)) && (j <? 8) && (0 <=? j).
Proof.
  intros Hk. unfold slot. rewrite testbit_ff. destruct (Z.leb_spec 0 j).
  - by rewrite Z.shiftr_spec by done.
  - by rewrite !andb_false_r.
Qed.

Lemma slot_word x k : is_word 8 (slot x k).
Proof.
  unfold slot. rewrite Z.land_comm. by apply land_word.
Qed.

Lemma slot_lor x y k : 0 <= k <= 6 -> slot (x ||| y) k = slot x k ||| slot y k.
Proof.
  intros. apply Z.bits_inj'. intros j Hj. rewrite Z.lor_spec, !slot_testbit, Z.lor_spec by done.
  by destruct (j <? 8), (0 <=? j); rewrite ?andb_true_r, ?andb_false_r.
Qed.

Lemma slot_shiftl b i k :
  is_word 8 b -> 0 <= i <= 6 -> 0 <= k <= 6 ->
  slot (b ≪ (53 - i * 8)) k = if decide (k = i) then b else 0.
Proof.
  intros Hb Hi Hk. apply is_word_testbit in Hb as [_ Hb]; [|done].
  apply Z.bits_inj'. intros j Hj. rewrite slot_testbit, Z.shiftl_spec by lia.
  rewrite (proj2 (Z.leb_le 0 j)), andb_true_r by done.
  replace (j + (53 - k * 8) - (53 - i * 8)) with (j + (i - k) * 8) by lia.
  destruct (Z.ltb_spec j 8), (decide (k = i)) as [->|]; rewrite ?andb_true_r, ?andb_false_r, ?Z.bits_0;
    try done.
  - f_equal. lia.
  - destruct (decide (k < i)); [apply Hb; lia|apply Z.testbit_neg_r; lia].
  - symmetry. by apply Hb.
Qed.

Lemma slot_small x k : 0 <= k <= 6 -> 0 <= x < 32 -> slot x k = 0.
Proof.
  intros. unfold slot. rewrite Z.shiftr_eq_0; [done|lia|].
  destruct (decide (x = 0)) as [->|]; [cbn; lia|].
  assert (Z.log2 x < 5) by (apply Z.log2_lt_pow2; lia). lia.
Qed.

(** ** Names *)

Definition name_char (ch : Z) : Z := (ch &&& 0x7f) ||| 0x80.

Lemma name_char_word ch : is_word 8 (name_char ch).
Proof. apply lor_word; [done| |by split]. rewrite Z.land_comm. apply land_word; [done|by split]. Qed.

Lemma name_char_testbit ch j :
  0 <= j -> Z.testbit (name_char ch) j = (Z.testbit ch j && (j <? 7)) || (j =? 7).
Proof.
  intros Hj. unfold name_char. rewrite Z.lor_spec, Z.land_spec. change 0x7f with (Z.ones 7).
  change 0x80 with (2 ^ 7). rewrite Z.testbit_ones, Z.pow2_bits_eqb by lia.
  by rewrite (proj2 (Z.leb_le 0 j)), (Z.eqb_sym 7 j) by done.
Qed.

Lemma name_char_low ch : name_char ch &&& 0x7f = ch &&& 0x7f.
Proof.
  change 0x7f with (Z.ones 7). apply Z.bits_inj'. intros j Hj.
  rewrite !Z.land_spec, name_char_testbit, Z.testbit_ones by lia.
  destruct (Z.leb_spec 0 j), (Z.ltb_spec j 7), (Z.eqb_spec j 7); cbn;
    rewrite ?andb_true_r, ?orb_false_r, ?andb_false_r; done || lia.
Qed.

Lemma name_char_high ch : name_char ch ||| 0x80 = name_char ch.
Proof. unfold name_char. by rewrite <-Z.lor_assoc, Z.lor_diag. Qed.

Definition slot_of (name : list Z) (k : Z) : Z := from_option name_char 0 (name !! Z.to_nat k).

Lemma pack_name_slot name i v k :
  0 <= i -> i + Z.of_nat (length name) <= 7 -> 0 <= k <= 6 ->
  slot (pack_name name i v) k = slot v k ||| (if decide (k < i) then 0 else slot_of name (k - i)).
Proof.
  revert i v. induction name as [|ch name IH]; intros i v Hi Hl Hk; cbn [pack_name length] in *.
  - unfold slot_of. rewrite lookup_nil. cbn. by destruct (decide (k < i)); rewrite Z.lor_0_r.
  - rewrite IH by lia. rewrite slot_lor by done. fold (name_char ch).
    rewrite slot_shiftl by (apply name_char_word || lia). rewrite <-Z.lor_assoc. f_equal.
    unfold slot_of. destruct (decide (k = i)) as [->|].
    + rewrite decide_True by lia. rewrite decide_False by lia. rewrite Z.sub_diag. cbn.
      by rewrite Z.lor_0_r.
    + cbn. rewrite Z.lor_0_l. destruct (decide (k < i)).
      * by rewrite decide_True by lia.
      * rewrite decide_False by lia.
        by replace (Z.to_nat (k - i)) with (S (Z.to_nat (k - (i + 1)))) by lia.
Qed.

(** Bits outside the slots are not touched. *)
Lemma pack_name_low name i v j :
  0 <= i -> i + Z.of_nat (length name) <= 7 -> 0 <= j -> j < 5 \/ 61 <= j ->
  Z.testbit (pack_name name i v) j = Z.testbit v j.
Proof.
  revert i v. induction name as [|ch name IH]; intros i v Hi Hl Hj Hr; cbn [pack_name length] in *; [done|].
  rewrite IH, Z.lor_spec, Z.shiftl_spec by lia. fold (name_char ch).
  destruct (decide (j - (53 - i * 8) < 0)).
  - rewrite (Z.testbit_neg_r (name_char ch)) by lia. by rewrite orb_false_r.
  - pose proof (name_char_word ch) as [_ H]%is_word_testbit; [|done].
    rewrite H by lia. by rewrite orb_false_r.
Qed.

Lemma pack_name_mono name i v j :
  Z.testbit v j = true -> Z.testbit (pack_name name i v) j = true.
Proof.
  revert i v. induction name as [|ch name IH]; intros i v Hv; cbn [pack_name]; [done|].
  apply IH. by rewrite Z.lor_spec, Hv.
Qed.

Section names.
Context (name : list Z) (arity : Z).
Hypothesis Hfits : use_compacted name arity = true.
Hypothesis Harity : 0 <= arity.

Definition packed : Z := pack_name name 0 (1 ≪ 60) ||| arity.

Lemma fits_length : (length name <= 7)%nat /\ arity <= 31.
Proof.
  clear Harity. unfold use_compacted in Hfits. apply andb_true_iff in Hfits as [H1 H2].
  apply bool_decide_eq_true in H1. apply Z.leb_le in H2. done.
Qed.

Lemma arity_high j : 5 <= j -> Z.testbit arity j = false.
Proof.
  intros. destruct fits_length. assert (is_word 5 arity) as [_ H']%is_word_testbit by (unfold is_word; lia);
    [|done]. by apply H'.
Qed.

Lemma packed_index : is_index packed.
Proof.
  destruct fits_length. apply is_word_testbit; [done|]. split.
  - unfold packed. apply Z.lor_nonneg. split; [|done].
    assert (Hnn : forall name i v, 0 <= v -> 0 <= pack_name name i v).
    { clear. induction name as [|ch name IH]; intros i v Hv; cbn [pack_name]; [done|].
      apply IH, Z.lor_nonneg. split; [done|]. apply Z.shiftl_nonneg.
      fold (name_char ch). by destruct (name_char_word ch). }
    by apply Hnn.
  - intros j Hj. unfold packed. rewrite Z.lor_spec, pack_name_low by lia.
    rewrite arity_high by lia. rewrite Z.shiftl_1_l, Z.pow2_bits_false by lia. done.
Qed.

Lemma con_cell_name_Ok : con_cell_name name arity = Ok (mk_cell CON packed).
Proof.
  unfold con_cell_name. rewrite Hfits. cbn [require mbind res_bind]. by rewrite set_value_mk.
Qed.

Lemma packed_direct : is_direct (mk_cell CON packed) = true.
Proof.
  unfold is_direct. rewrite cell_value_mk by apply packed_index. apply negb_true_iff, Z.eqb_neq.
  intros H. assert (Hb : Z.testbit ((packed ≫ 60) &&& 1) 0 = true).
  { rewrite Z.land_spec, Z.shiftr_spec by done. rewrite andb_true_r. unfold packed.
    rewrite Z.lor_spec, pack_name_mono; [done|]. by rewrite Z.shiftl_1_l, Z.pow2_bits_eqb. }
  by rewrite H in Hb.
Qed.

Lemma packed_arity : con_arity (mk_cell CON packed) = arity.
Proof.
  destruct fits_length. unfold con_arity. rewrite packed_direct, cell_value_mk by apply packed_index.
  apply Z.bits_inj'. intros j Hj. change 0x1f with (Z.ones 5).
  rewrite Z.land_spec, Z.testbit_ones by lia. rewrite (proj2 (Z.leb_le 0 j)) by done. cbn.
  destruct (Z.ltb_spec j 5).
  - rewrite andb_true_r. unfold packed. rewrite Z.lor_spec, pack_name_low by lia.
    rewrite Z.shiftl_1_l, Z.pow2_bits_false by lia. done.
  - by rewrite andb_false_r, arity_high.
Qed.

(** The empty name leaves the marker bit alone in slot 0. *)
Definition effective : list Z := if decide (name = []) then [0] else name.

Lemma packed_byte k : 0 <= k <= 6 -> name_byte (mk_cell CON packed) k = slot_of effective k.
Proof.
  intros Hk. destruct fits_length. unfold name_byte. rewrite cell_value_mk by apply packed_index.
  fold (slot packed k). unfold packed. rewrite slot_lor, (slot_small arity) by lia.
  rewrite Z.lor_0_r, pack_name_slot by lia. rewrite decide_False by lia. rewrite Z.sub_0_r.
  assert (Hbit : slot (1 ≪ 60) k = if decide (k = 0) then 0x80 else 0).
  { change (1 ≪ 60) with (0x80 ≪ (53 - 0 * 8)). rewrite slot_shiftl by (lia || by split). done. }
  rewrite Hbit. unfold effective, slot_of. destruct (decide (k = 0)) as [->|].
  - destruct name as [|ch l]; [done|]. rewrite decide_False by done.
    change (0x80 ||| name_char ch = name_char ch). by rewrite Z.lor_comm, name_char_high.
  - rewrite Z.lor_0_l. destruct (decide (name = [])) as [->|]; [|done].
    rewrite lookup_nil. destruct (Z.to_nat k) as [|m] eqn:E; [lia|done].
Qed.

Lemma effective_length : (1 <= length effective <= 7)%nat.
Proof.
  destruct fits_length. unfold effective. case_decide as E; cbn; [lia|].
  destruct name; [done|cbn in *; lia].
Qed.

Lemma name_length_loop_eq n i :
  0 <= i -> Z.of_nat n = 7 - i -> i <= Z.of_nat (length effective) ->
  name_length_loop n (mk_cell CON packed) i = Z.of_nat (length effective).
Proof.
  pose proof effective_length as Hl. revert i. induction n as [|n IH]; intros i Hi Hn Hle;
    cbn [name_length_loop]; [lia|].
  rewrite packed_byte by lia. unfold slot_of.
  destruct (effective !! Z.to_nat i) as [ch|] eqn:E; cbn [from_option].
  - apply lookup_lt_Some in E.
    assert ((name_char ch &&& 0x80 =? 0) = false) as ->; [|apply IH; lia].
    apply Z.eqb_neq. intros H. assert (Hb : Z.testbit (name_char ch &&& 0x80) 7 = true).
    { rewrite Z.land_spec, name_char_testbit by done. by rewrite orb_true_r. }
    by rewrite H in Hb.
  - apply lookup_ge_None in E. change (i = Z.of_nat (length effective)). lia.
Qed.

Lemma packed_name :
  con_name (mk_cell CON packed) = Ok ((fun ch => ch &&& 0x7f) <$> effective).
Proof.
  pose proof effective_length as Hl. unfold con_name, name_length. rewrite packed_direct.
  cbn [require mbind res_bind]. rewrite name_length_loop_eq by lia. f_equal.
  apply list_eq. intros m. rewrite !list_lookup_fmap.
  destruct (decide (m < length effective)%nat) as [Hm|Hm].
  - rewrite lookup_seqZ_lt by lia. destruct (lookup_lt_is_Some_2 effective m Hm) as [ch Hch].
    rewrite Hch. cbn [fmap option_fmap option_map]. f_equal.
    rewrite packed_byte by lia. unfold slot_of.
    replace (Z.to_nat (0 + Z.of_nat m)) with m by lia. rewrite Hch. apply name_char_low.
  - rewrite lookup_seqZ_ge by lia. rewrite lookup_ge_None_2 by lia. done.
Qed.

End names.

(** ** Integers *)

Lemma sgn_testbit w x j :
  0 < w -> 0 <= j < w -> Z.testbit (sgn w x) j = Z.testbit x j.
Proof.
  intros Hw Hj. unfold sgn. destruct (Z.testbit (wrap w x) (w - 1)).
  - assert (Hm : (wrap w x - 2 ^ w) mod 2 ^ w = wrap w x).
    { rewrite Zminus_mod, Z_mod_same_full, Z.sub_0_r, Z.mod_mod by lia.
      apply Z.mod_small. apply wrap_word. lia. }
    transitivity (Z.testbit (wrap w (wrap w x - 2 ^ w)) j).
    + rewrite wrap_spec by lia. rewrite (proj2 (Z.ltb_lt j w)) by lia. by rewrite andb_true_r.
    + rewrite (wrap_mod w (_ - _)), Hm, wrap_spec by lia.
      rewrite (proj2 (Z.ltb_lt j w)) by lia. by rewrite andb_true_r.
  - rewrite wrap_spec by lia. rewrite (proj2 (Z.ltb_lt j w)) by lia. by rewrite andb_true_r.
Qed.

Lemma wrap_top w x :
  0 < w -> Z.testbit (wrap w x) (w - 1) = (2 ^ (w - 1) <=? wrap w x).
Proof.
  intros Hw. pose proof (wrap_word w x ltac:(lia)) as [H0 H1].
  assert (Hp : 2 ^ w = 2 * 2 ^ (w - 1)) by (rewrite <-Z.pow_succ_r by lia; f_equal; lia).
  rewrite Z.testbit_eqb by lia. destruct (Z.leb_spec (2 ^ (w - 1)) (wrap w x)) as [H|H].
  - assert (wrap w x / 2 ^ (w - 1) = 1) as ->; [|done].
    symmetry. apply (Z.div_unique _ _ 1 (wrap w x - 2 ^ (w - 1))); lia.
  - rewrite Z.div_small by lia. done.
Qed.

Lemma sgn_range w x : 0 < w -> - 2 ^ (w - 1) <= sgn w x < 2 ^ (w - 1).
Proof.
  intros Hw. unfold sgn. rewrite wrap_top by done.
  assert (Hp : 2 ^ w = 2 * 2 ^ (w - 1)) by (rewrite <-Z.pow_succ_r by lia; f_equal; lia).
  pose proof (wrap_word w x ltac:(lia)) as [H0 H1].
  destruct (Z.leb_spec (2 ^ (w - 1)) (wrap w x)); lia.
Qed.

(** The value of an integer cell is the 61-bit two's complement reading. *)
Lemma int_value_cell v : int_value (int_cell v) = sgn 61 v.
Proof.
  unfold int_value, value_signed, int_cell.
  assert (Hraw : wrap 64 (mk_cell INT v) = mk_cell INT v) by apply wrap_id, mk_cell_word.
  unfold sgn at 1. rewrite Hraw. rewrite mk_cell_bits by lia. cbn [Z.ltb Z.compare Z.sub].
  change (64 - 1 - 3) with 60. change (64 - 1 <? 64) with true. rewrite andb_true_r.
  unfold sgn. assert (Hb : Z.testbit (wrap 61 v) (61 - 1) = Z.testbit v 60).
  { rewrite wrap_spec by lia. change (61 - 1 <? 61) with true. by rewrite andb_true_r. }
  rewrite Hb. change (64 - 1 <? 3) with false. cbv iota.
  assert (Hs : mk_cell INT v ≫ 3 = wrap 61 v).
  { apply Z.bits_inj'. intros j Hj. rewrite Z.shiftr_spec, mk_cell_bits, wrap_spec by lia.
    rewrite (proj2 (Z.ltb_ge (j + 3) 3)) by lia. replace (j + 3 - 3) with j by lia. f_equal.
    destruct (Z.ltb_spec (j + 3) 64), (Z.ltb_spec j 61); done || lia. }
  destruct (Z.testbit v 60); [|done].
  rewrite <-Hs. rewrite !Z.shiftr_div_pow2 by lia.
  replace (2 ^ 64) with (2 ^ 61 * 2 ^ 3) by done.
  replace (mk_cell INT v - 2 ^ 61 * 2 ^ 3) with (mk_cell INT v + (- 2 ^ 61) * 2 ^ 3) by lia.
  rewrite Z.div_add by lia. lia.
Qed.

Lemma int_value_cell_id v : int_min <= v <= int_max -> int_value (int_cell v) = v.
Proof.
  intros Hv. rewrite int_value_cell. apply sgn_id; [lia|].
  change int_min with (- 2 ^ 60) in Hv. change int_max with (2 ^ 60 - 1) in Hv.
  change (61 - 1) with 60. lia.
Qed.

Lemma int_value_range c : int_min <= int_value c <= int_max.
Proof.
  unfold int_value, value_signed. pose proof (sgn_range 64 c ltac:(lia)) as [H1 H2].
  change (2 ^ (64 - 1)) with (2 ^ 63) in *. unfold int_min, int_max.
  rewrite !Z.shiftr_div_pow2 by lia. split; apply Z.div_le_mono; lia.
Qed.

(** ** Chunks *)

Definition is_text (s : list Z) : Prop := Forall (fun ch => 1 <= ch <= 255) s.

Lemma pack_chunk_slot s k0 v k :
  is_text s -> 0 <= k0 -> k0 + Z.of_nat (length s) <= 7 -> 0 <= k <= 6 ->
  slot (pack_chunk s k0 v) k =
  slot v k ||| (if decide (k < k0) then 0 else default 0 (s !! Z.to_nat (k - k0))).
Proof.
  intros Hs. revert k0 v. induction Hs as [|ch s Hch Hs IH]; intros k0 v Hk0 Hl Hk;
    cbn [pack_chunk length] in *.
  - rewrite lookup_nil. by destruct (decide _); rewrite Z.lor_0_r.
  - rewrite IH by lia. rewrite slot_lor by done.
    replace ((1 ≪ (5 + (6 - k0) * 8)) * ch) with (ch ≪ (53 - k0 * 8))
      by (rewrite !Z.shiftl_mul_pow2 by lia; replace (5 + (6 - k0) * 8) with (53 - k0 * 8) by lia; lia).
    rewrite slot_shiftl by (unfold is_word; lia). rewrite <-Z.lor_assoc. f_equal.
    destruct (decide (k = k0)) as [->|].
    + rewrite (decide_True (P := (k0 < k0 + 1))) by lia.
      rewrite (decide_False (P := (k0 < k0))) by lia. rewrite Z.sub_diag. apply Z.lor_0_r.
    + rewrite Z.lor_0_l. destruct (decide (k < k0)).
      * by rewrite decide_True by lia.
      * rewrite decide_False by lia.
        by replace (Z.to_nat (k - k0)) with (S (Z.to_nat (k - (k0 + 1)))) by lia.
Qed.

(** Nothing is written below bit 5 or above bit 60. *)
Lemma pack_chunk_low s k0 v j :
  is_text s -> 0 <= k0 -> k0 + Z.of_nat (length s) <= 7 -> 0 <= j -> j < 5 \/ 61 <= j ->
  Z.testbit (pack_chunk s k0 v) j = Z.testbit v j.
Proof.
  intros Hs. revert k0 v. induction Hs as [|ch s Hch Hs IH]; intros k0 v Hk0 Hl Hj Hr;
    cbn [pack_chunk length] in *; [done|].
  rewrite IH, Z.lor_spec by lia.
  replace ((1 ≪ (5 + (6 - k0) * 8)) * ch) with (ch ≪ (53 - k0 * 8))
    by (rewrite !Z.shiftl_mul_pow2 by lia; replace (5 + (6 - k0) * 8) with (53 - k0 * 8) by lia; lia).
  rewrite Z.shiftl_spec by done.
  destruct (decide (j - (53 - k0 * 8) < 0)).
  - rewrite (Z.testbit_neg_r ch) by lia. by rewrite orb_false_r.
  - assert (is_word 8 ch) as [_ H]%is_word_testbit by (unfold is_word; lia); [|done].
    rewrite H by lia. by rewrite orb_false_r.
Qed.

Section chunk.
Context (s : list Z) (has_more : bool).
Hypothesis Htext : is_text s.
Hypothesis Hlen : (length s <= 7)%nat.

Definition chunk_value : Z := if has_more then pack_chunk s 0 0 ||| 1 else pack_chunk s 0 0.

Lemma encode_str_Ok : encode_str s has_more = Ok (int_cell chunk_value).
Proof.
  clear Htext. unfold encode_str, encode_str_range. rewrite Z.sub_0_r, wrap_id by (unfold is_word; lia).
  rewrite (proj2 (Z.leb_le _ 7)) by lia. cbn [require]. rewrite Ok_bind. cbv zeta.
  rewrite Z.min_id, ?Z.sub_0_r, Nat2Z.id. change (Z.to_nat 0) with 0%nat.
  rewrite drop_0, take_ge by lia. done.
Qed.

Lemma chunk_value_slot k : 0 <= k <= 6 -> slot chunk_value k = default 0 (s !! Z.to_nat k).
Proof.
  intros Hk. assert (Hb : slot chunk_value k = slot (pack_chunk s 0 0) k).
  { unfold chunk_value. destruct has_more; [|done].
    rewrite slot_lor, (slot_small 1), Z.lor_0_r by lia. done. }
  rewrite Hb, pack_chunk_slot, decide_False, Z.sub_0_r by (done || lia).
  rewrite slot_small by lia. apply Z.lor_0_l.
Qed.

Lemma chunk_value_low j :
  0 <= j < 5 -> Z.testbit chunk_value j = has_more && (j =? 0).
Proof.
  intros Hj. unfold chunk_value. destruct has_more.
  - rewrite Z.lor_spec, pack_chunk_low, Z.bits_0 by (done || lia). cbn.
    change 1 with (2 ^ 0). rewrite Z.pow2_bits_eqb by lia. by rewrite Z.eqb_sym.
  - by rewrite pack_chunk_low, Z.bits_0 by (done || lia).
Qed.

Lemma chunk_byte_int k : 0 <= k <= 6 -> chunk_byte (int_value (int_cell chunk_value)) k = default 0 (s !! Z.to_nat k).
Proof.
  intros Hk. rewrite int_value_cell, <-chunk_value_slot by done. unfold chunk_byte.
  replace ((6 - k) * 8 + 5) with (53 - k * 8) by lia. fold (slot (sgn 61 chunk_value) k).
  apply Z.bits_inj'. intros j Hj. rewrite !slot_testbit by done.
  destruct (Z.ltb_spec j 8); [|by rewrite !andb_false_r]. by rewrite sgn_testbit by lia.
Qed.

Lemma as_char_chunk_loop_eq n i :
  Z.of_nat n = 7 - Z.of_nat i -> (i <= 7)%nat ->
  as_char_chunk_loop n (int_value (int_cell chunk_value)) (Z.of_nat i) = drop i s.
Proof.
  revert i. induction n as [|n IH]; intros i Hn Hi; cbn [as_char_chunk_loop].
  - by rewrite drop_ge by lia.
  - rewrite chunk_byte_int, Nat2Z.id by lia.
    destruct (s !! i) as [ch|] eqn:E; cbn [from_option id].
    + assert (1 <= ch <= 255) by (by apply (Forall_lookup_1 (fun ch => 1 <= ch <= 255) s i)).
      rewrite (proj2 (Z.eqb_neq ch 0)) by lia. rewrite (drop_S _ ch) by done. f_equal.
      replace (Z.of_nat i + 1) with (Z.of_nat (S i)) by lia. apply IH; [lia|].
      apply lookup_lt_Some in E. lia.
    + apply lookup_ge_None in E. by rewrite drop_ge by done.
Qed.

Lemma chunk_lowest : lowest_5_bits (int_cell chunk_value) = if has_more then 1 else 0.
Proof.
  unfold lowest_5_bits. rewrite int_value_cell. apply Z.bits_inj'. intros j Hj.
  change 0x1f with (Z.ones 5). rewrite Z.land_spec, wrap_spec, Z.testbit_ones by lia.
  rewrite (proj2 (Z.leb_le 0 j)) by done. cbn [andb]. destruct (Z.ltb_spec j 5).
  - rewrite (proj2 (Z.ltb_lt j 8)), !andb_true_r by lia. rewrite sgn_testbit by lia.
    rewrite chunk_value_low by lia. destruct has_more; [|by rewrite Z.bits_0].
    change 1 with (2 ^ 0). rewrite Z.pow2_bits_eqb by lia. cbn. by rewrite Z.eqb_sym.
  - rewrite andb_false_r. symmetry. destruct has_more; [|by rewrite Z.bits_0].
    change 1 with (2 ^ 0). apply Z.pow2_bits_false. lia.
Qed.

End chunk.

(** ** Indexed constants *)

Lemma con_cell_index_value ai arity :
  0 <= arity < 8192 -> 0 <= ai < 2 ^ 47 ->
  con_cell_index ai arity = mk_cell CON (ai * 8192 + arity).
Proof.
  intros Ha Hi. unfold con_cell_index. rewrite set_value_mk. f_equal.
  rewrite wrap_id.
  - rewrite Z.shiftl_mul_pow2 by lia. change (2 ^ 13) with 8192. rewrite Z.add_nocarry_lxor, Z.lxor_lor; [done| |].
    all: apply Z.bits_inj'; intros j Hj; rewrite Z.land_spec, Z.bits_0;
      change 8192 with (2 ^ 13); rewrite <-Z.shiftl_mul_pow2, Z.shiftl_spec by lia;
      destruct (decide (j < 13)); [rewrite Z.testbit_neg_r by lia; done|];
      assert (is_word 13 arity) as [_ H]%is_word_testbit by (unfold is_word; lia); [|done];
      rewrite H by lia; apply andb_false_r.
  - rewrite Z.shiftl_mul_pow2 by lia. unfold is_word. lia.
Qed.

Lemma con_cell_index_lemma ai arity :
  0 <= arity < 4096 -> 0 <= ai < 2 ^ 47 ->
  let c := con_cell_index ai arity in
  is_direct c = false /\ con_arity c = arity /\ atom_index c = Ok ai.
Proof.
  intros Ha Hi c. unfold c. rewrite con_cell_index_value by lia.
  assert (Hw : is_index (ai * 8192 + arity)) by (unfold is_index, is_word; lia).
  assert (Hd : is_direct (mk_cell CON (ai * 8192 + arity)) = false).
  { unfold is_direct. rewrite cell_value_mk by done. rewrite Z.shiftr_div_pow2 by lia.
    by rewrite Z.div_small by lia. }
  split; [done|]. unfold con_arity, atom_index. rewrite Hd, cell_value_mk by done.
  change (1 ≪ 12 - 1) with (Z.ones 12). rewrite Z.land_ones by lia. split.
  - symmetry. apply (Z.mod_unique _ _ (ai * 2)); lia.
  - cbn [negb require]. rewrite Ok_bind, Z.shiftr_div_pow2 by lia. f_equal.
    symmetry. apply (Z.div_unique _ _ _ arity); lia.
Qed.

(** ** Properties *)

(** a constant whose name has at most seven ASCII characters and at most 31
    arguments is stored in the cell itself: tag, name and arity are read back
    unchanged, except that the empty name reads back as one NUL character (the marker in
    bit 60 is also the continuation bit of the first character). *)
Theorem con_cell_name_roundtrip name arity :
  (length name <= 7)%nat -> Forall (is_word 7) name -> 0 <= arity <= 31 ->
  exists c, con_cell_name name arity = Ok c /\ is_word 64 c /\ cell_tag c = CON /\
    is_direct c = true /\ con_name c = Ok (match name with [] => [0] | _ => name end) /\ con_arity c = arity.
Proof.
  intros Hl Hascii Ha.
  assert (Hfits : use_compacted name arity = true)
    by (apply andb_true_iff; split; [by apply bool_decide_eq_true|apply Z.leb_le; lia]).
  exists (mk_cell CON (packed name arity)). split; [by apply con_cell_name_Ok|].
  split; [apply mk_cell_word|]. split; [apply cell_tag_mk|].
  split; [apply packed_direct; done || lia|]. split; [|apply packed_arity; done || lia].
  rewrite packed_name by (done || lia). f_equal. unfold effective.
  destruct (decide (name = [])) as [->|Hne]; [by vm_compute|].
  transitivity name; [|by destruct name].
  clear -Hascii. induction Hascii as [|ch name Hch Hn IH]; [done|]. rewrite fmap_cons, IH. f_equal.
  change 0x7f with (Z.ones 7). by apply wrap_id.
Qed.
Lemma con_cell_name_roundtrip_witness :
  exists c, con_cell_name [102; 111; 111] 2 = Ok c /\ is_word 64 c /\ cell_tag c = CON /\
    is_direct c = true /\ con_name c = Ok [102; 111; 111] /\ con_arity c = 2.
Proof.
  apply (con_cell_name_roundtrip [102; 111; 111] 2); [cbn; lia| |lia]. repeat constructor; lia.
Defined.

(** the atom with the empty name does not survive: the marker in bit 60 is also
    the continuation bit of the first character, so its name reads back as one
    NUL character. *)
Theorem con_cell_empty_name : (con_cell_name [] 0 ≫= con_name) = Ok [0].
Proof. by vm_compute. Qed.

(** constants with a long name keep their atom index and up to 4095 arguments;
    one more bit of arity is stored but not read: an arity of 4096, which
    [MAX_ARITY] admits, reads as 0. *)
Theorem con_cell_index_roundtrip :
  (forall ai arity, 0 <= arity < 4096 -> 0 <= ai < 2 ^ 47 ->
     let c := con_cell_index ai arity in
     is_direct c = false /\ con_arity c = arity /\ atom_index c = Ok ai) /\
  (4096 <= MAX_ARITY /\ con_arity (con_cell_index 5 4096) = 0).
Proof. split; [apply con_cell_index_lemma|done]. Qed.

(** a 61-bit value is read back from an integer cell, and arithmetic on cells is
    exact up to the wrap-around of 61 bits; negation and absolute value saturate
    instead. *)
Theorem int_cell_arithmetic a b :
  (forall v, int_min <= v <= int_max -> int_value (int_cell v) = v) /\
  int_value (int_add a b) = sgn 61 (int_value a + int_value b) /\
  int_value (int_sub a b) = sgn 61 (int_value a - int_value b) /\
  int_value (int_negate a) = Z.min int_max (- int_value a) /\
  int_value (int_abs a) = Z.min int_max (Z.abs (int_value a)).
Proof.
  split; [apply int_value_cell_id|]. split; [apply int_value_cell|]. split; [apply int_value_cell|].
  pose proof (int_value_range a) as Hr.
  assert (Hneg : int_value (int_negate a) = Z.min int_max (- int_value a)).
  { unfold int_negate. change int_min with (- 2 ^ 60) in Hr. change int_max with (2 ^ 60 - 1) in Hr.
    rewrite int_value_cell_id; unfold saturate; change int_min with (- 2 ^ 60);
      change int_max with (2 ^ 60 - 1);
      destruct (Z.ltb_spec (- int_value a) (- 2 ^ 60)), (Z.ltb_spec (2 ^ 60 - 1) (- int_value a)); lia. }
  split; [done|]. unfold int_abs. destruct (Z.ltb_spec (int_value a) 0); [|lia].
  rewrite Hneg. lia.
Qed.

(** up to seven bytes, none of them zero, packed into an integer cell are read
    back, and the low bit says whether more follow. *)
Theorem string_chunk_roundtrip s has_more :
  is_text s -> (length s <= 7)%nat ->
  exists c, encode_str s has_more = Ok c /\ as_char_chunk c = s /\
    is_last_char_chunk c = negb has_more.
Proof.
  intros Hs Hl. exists (int_cell (chunk_value s has_more)).
  split; [by apply encode_str_Ok|]. split.
  - apply (as_char_chunk_loop_eq s has_more Hs Hl 7 0); lia.
  - unfold is_last_char_chunk. rewrite chunk_lowest by done. by destruct has_more.
Qed.

Lemma string_chunk_roundtrip_witness :
  exists c, encode_str [104; 105; 255] true = Ok c /\ as_char_chunk c = [104; 105; 255] /\
    is_last_char_chunk c = false.
Proof. apply (string_chunk_roundtrip [104; 105; 255] true); [repeat constructor; lia|cbn; lia]. Defined.
