(* ===== verification/Heap.v ===== *)
(** * The term heap ([src/src/common/term.hpp], [src/src/common/term.cpp])

    The heap is a growing sequence of cells in blocks of 8192.  A structure must
    lie in one block, so allocation may leave a gap of uninitialised cells at the
    end of a block; reading such a cell is [UndefinedBehaviour].  A big integer
    may span blocks.

    The blocks are owned by the default callbacks ([get_block_default] and its
    companions), so a block is in memory exactly when its index is below
    [h_blocks]; the last block is the head block, and its size is
    [h_size - offset]. *)

From S2P Require Import Prelude Cells.

Record heap := Heap {
  h_cells : gmap Z Z;
  h_size : Z;
  h_blocks : Z;
  h_watched : list Z;
  h_coin_security : bool;
  h_name_to_index : gmap (list Z) Z;
  h_index_to_name : gmap Z (list Z)
}.

Definition MAX_SIZE : Z := 8192.

(** [heap()], [reset()] *)
Definition heap_empty : heap := Heap ∅ 0 0 [] true ∅ ∅.

Definition with_cells (h : heap) (m : gmap Z Z) : heap :=
  Heap m (h_size h) (h_blocks h) (h_watched h) (h_coin_security h)
    (h_name_to_index h) (h_index_to_name h).
Definition with_layout (h : heap) (m : gmap Z Z) (size blocks : Z) : heap :=
  Heap m size blocks (h_watched h) (h_coin_security h) (h_name_to_index h) (h_index_to_name h).
Definition with_watched (h : heap) (w : list Z) : heap :=
  Heap (h_cells h) (h_size h) (h_blocks h) w (h_coin_security h)
    (h_name_to_index h) (h_index_to_name h).
Definition with_atoms (h : heap) (n : gmap (list Z) Z) (i : gmap Z (list Z)) : heap :=
  Heap (h_cells h) (h_size h) (h_blocks h) (h_watched h) (h_coin_security h) n i.

(** ** Reading and writing cells *)

Definition check_index (h : heap) (index : Z) : res unit :=
  require (index <? h_size h) (HeapIndexOutOfRange index (h_size h)).

(** [get], [operator[] const] *)
Definition heap_get (h : heap) (addr : Z) : res Z :=
  _ ← check_index h addr; of_option (h_cells h !! addr) UndefinedBehaviour.

Definition find_block_index (addr : Z) : Z := addr / MAX_SIZE.
Definition block_exists (h : heap) (addr : Z) : bool := find_block_index addr <? h_blocks h.

(** [operator[]] used as an l-value: no check against the size. *)
Definition heap_set (h : heap) (addr c : Z) : res heap :=
  _ ← require (block_exists h addr) UndefinedBehaviour;
  Ok (with_cells h (<[addr := c]> (h_cells h))).

(** [heap_block::watch], [heap_block::watched] *)
Definition heap_watch (h : heap) (addr : Z) (value : bool) : res heap :=
  _ ← require (block_exists h addr) UndefinedBehaviour;
  c ← of_option (h_cells h !! addr) UndefinedBehaviour;
  let c' :=
    if bool_decide (cell_tag c = REF) && value then ref_cell_watched (ptr_index c)
    else if bool_decide (cell_tag c = RFW) && negb value then ref_cell (ptr_index c)
    else c in
  Ok (with_cells h (<[addr := c']> (h_cells h))).
Definition add_watched (h : heap) (addr : Z) : heap :=
  if bool_decide (addr ∈ h_watched h) then h else with_watched h (h_watched h ++ [addr]).

(** ** Dereferencing *)

(** More steps than there are cells only happen on a cycle. *)
Definition deref_fuel (h : heap) : nat := S (S (size (h_cells h))).

Fixpoint deref_loop (fuel : nat) (h : heap) (c cost : Z) : res (Z * Z) :=
  match fuel with
  | O => Throw OutOfFuel
  | S fuel =>
      if is_ref (cell_tag c) then
        referred ← heap_get h (ptr_index c);
        if referred =? c then Ok (c, cost) else deref_loop fuel h referred (w64 (cost + 1))
      else Ok (c, cost)
  end.
Definition deref_with_cost (h : heap) (c : Z) : res (Z * Z) := deref_loop (deref_fuel h) h c 1.
Definition deref (h : heap) (c : Z) : res Z := fst <$> deref_with_cost h c.

(** ** Functors and arguments *)

(** The four constants of the end of [term.cpp]. *)
Definition con_constant (name : list Z) (arity : Z) : Z :=
  match con_cell_name name arity with Ok c => c | Throw _ => 0 end.
Definition EMPTY_LIST : Z := con_constant [91; 93] 0.
Definition DOTTED_PAIR : Z := con_constant [46] 2.
Definition COMMA : Z := con_constant [44] 2.
Definition COIN : Z := con_constant [36; 99; 111; 105; 110] 2.

(** [functor(const str_cell &)] *)
Definition functor_str (h : heap) (s : Z) : res Z :=
  let index := ptr_index s in
  _ ← check_index h index;
  c ← heap_get h index;
  _ ← require (bool_decide (cell_tag c = CON)) (ExpectedConCell index c);
  Ok c.
(** [functor(const term)] *)
Definition functor (h : heap) (s : Z) : res Z :=
  ds ← deref h s;
  if bool_decide (cell_tag ds = CON) then Ok ds
  else
    _ ← require (bool_decide (cell_tag ds = STR)) (ExpectedStrCell ds);
    functor_str h ds.

Definition arg (h : heap) (c index : Z) : res Z :=
  dc ← deref h c;
  a ← heap_get h (ptr_index dc + index + 1);
  deref h a.
Definition set_arg (h : heap) (str index c : Z) : res heap :=
  dc ← deref h str;
  heap_set h (ptr_index dc + index + 1) c.

Definition is_con_or_functor (h : heap) (k c : Z) : res bool :=
  if bool_decide (cell_tag c = CON) then Ok (c =? k)
  else if bool_decide (cell_tag c = STR) then f ← functor h c; Ok (f =? k)
  else Ok false.
Definition is_empty_list (h : heap) (c : Z) : res bool := is_con_or_functor h EMPTY_LIST c.
Definition is_dotted_pair (h : heap) (c : Z) : res bool := is_con_or_functor h DOTTED_PAIR c.
Definition is_comma (h : heap) (c : Z) : res bool := is_con_or_functor h COMMA c.

(** [list_length]: the loop counts the pairs; what ends it without being the empty
    list counts twice. *)
Fixpoint list_length_loop (fuel : nat) (h : heap) (lst n : Z) : res (Z * Z) :=
  match fuel with
  | O => Throw OutOfFuel
  | S fuel =>
      if lst =? EMPTY_LIST then Ok (lst, n)
      else if negb (bool_decide (cell_tag lst = STR)) then Ok (lst, n + 1)
      else
        f ← functor h lst;
        if negb (f =? DOTTED_PAIR) then Ok (lst, n + 1)
        else tl ← arg h lst 1; list_length_loop fuel h tl (n + 1)
  end.
Definition list_length (fuel : nat) (h : heap) (lst0 : Z) : res Z :=
  '(lst, n) ← list_length_loop fuel h lst0 0;
  Ok (if lst =? EMPTY_LIST then n else n + 1).

(** [check_functor], [is_list] *)
Definition check_functor (h : heap) (c : Z) : res bool :=
  if negb (bool_decide (cell_tag c = STR)) then Ok false
  else if negb (ptr_index c <? h_size h) then Ok false
  else fc ← heap_get h (ptr_index c); Ok (bool_decide (cell_tag fc = CON)).
Fixpoint is_list_loop (fuel : nat) (h : heap) (l : Z) : res bool :=
  match fuel with
  | O => Throw OutOfFuel
  | S fuel =>
      if l =? EMPTY_LIST then Ok true
      else
        ok ← check_functor h l;
        if negb ok then Ok false
        else
          f ← functor h l;
          if negb (f =? DOTTED_PAIR) then Ok false
          else l ← arg h l 1; is_list_loop fuel h l
  end.
Definition is_list (fuel : nat) (h : heap) (c : Z) : res bool :=
  l ← deref h c; is_list_loop fuel h l.

(** ** Allocation *)

Definition head_offset (h : heap) : Z := (h_blocks h - 1) * MAX_SIZE.
Definition head_size (h : heap) : Z := h_size h - head_offset h.

(** [new_block_default], which makes the new block the head.
    ([get_block_default] then also forms a reference past the end of [blocks_],
    which its callers drop.) *)
Definition new_block (h : heap) : heap :=
  with_layout h (h_cells h) (h_blocks h * MAX_SIZE) (h_blocks h + 1).

Definition ensure_allocate (h : heap) (n : Z) : heap :=
  if (h_blocks h =? 0) || negb (head_size h + n <=? MAX_SIZE) then new_block h else h.

(** [allocate(tag, n)]: the cells of the structure, the first one initialised.
    A request beyond the block size overruns the block. *)
Definition allocate (h : heap) (t : tag) (n : Z) : res (heap * Z) :=
  let h := ensure_allocate h n in
  _ ← require (head_size h + n <=? MAX_SIZE) UndefinedBehaviour;
  let addr := h_size h in
  Ok (with_layout h (<[addr := mk_cell t addr]> (h_cells h)) (addr + n) (h_blocks h), addr).

(** [allocate0(n)] of the head block *)
Definition zero_cells (m : gmap Z Z) (from n : Z) : gmap Z Z :=
  foldr (fun i m => <[i := 0]> m) m (seqZ from n).
Fixpoint span_loop (fuel : nat) (h : heap) (n : Z) : res heap :=
  match fuel with
  | O => Throw OutOfFuel
  | S fuel =>
      if n <=? 0 then Ok h
      else
        let h := if (h_blocks h =? 0) || (head_size h =? MAX_SIZE) then new_block h else h in
        let next := Z.min n (MAX_SIZE - head_size h) in
        span_loop fuel
          (with_layout h (zero_cells (h_cells h) (h_size h) next) (h_size h + next) (h_blocks h))
          (n - next)
  end.
(** [allocate(tag, n, true)] *)
Definition allocate_span (h : heap) (t : tag) (n : Z) : res (heap * Z) :=
  let addr := h_size h in
  h ← span_loop (S (S (Z.to_nat n))) h n;
  Ok (with_cells h (<[addr := mk_cell t addr]> (h_cells h)), addr).

Definition coin_security_check (h : heap) (c : Z) : res unit :=
  require (negb (h_coin_security h && (c =? COIN))) CoinSecurity.

Definition new_ref (h : heap) : res (heap * Z) :=
  '(h, index) ← allocate h REF 1;
  Ok (h, ref_cell index).

(** [p[1] = con; p[i+2] = ref_cell(index+i+2)] *)
Definition fill_refs (m : gmap Z Z) (from n : Z) : gmap Z Z :=
  foldr (fun i m => <[i := ref_cell i]> m) m (seqZ from n).
Definition new_str (h : heap) (con : Z) : res (heap * Z) :=
  _ ← coin_security_check h con;
  let arity := con_arity con in
  '(h, index) ← allocate h STR (2 + arity);
  let p := str_cell (index + 1) in
  let m := <[index + 1 := con]> (<[index := p]> (h_cells h)) in
  Ok (with_cells h (fill_refs m (index + 2) arity), p).

Definition new_con0 (h : heap) (con : Z) : res (heap * Z) :=
  _ ← coin_security_check h con;
  let h := ensure_allocate h (1 + con_arity con) in
  '(h, index) ← allocate h CON 1;
  Ok (with_cells h (<[index := con]> (h_cells h)), str_cell index).
Definition new_str0 (h : heap) (con : Z) : res (heap * Z) :=
  _ ← coin_security_check h con;
  let h := ensure_allocate h (2 + con_arity con) in
  '(h, index) ← allocate h STR 2;
  Ok (with_cells h (<[index + 1 := con]> (<[index := str_cell (index + 1)]> (h_cells h))),
      str_cell (index + 1)).
Definition new_cell0 (h : heap) (c : Z) (has_tag : bool) : res (heap * Z) :=
  let h := if has_tag && bool_decide (cell_tag c = CON)
           then ensure_allocate h (1 + con_arity c) else h in
  '(h, index) ← allocate h STR 1;
  Ok (with_cells h (<[index := c]> (h_cells h)), index).
Definition new_dat_cell (h : heap) (c : Z) : res heap :=
  '(h, index) ← allocate_span h DAT 1;
  Ok (with_cells h (<[index := c]> (h_cells h))).
Definition new_dotted_pair (h : heap) (a b : Z) : res (heap * Z) :=
  '(h, t) ← new_str h DOTTED_PAIR;
  h ← set_arg h t 0 a;
  h ← set_arg h t 1 b;
  Ok (h, t).

(** [internal_trim] *)
Definition trim_heap (h : heap) (new_size : Z) : res heap :=
  if h_size h =? 0 then Ok h
  else
    let heap_end := if 0 <? new_size then new_size - 1 else 0 in
    _ ← require (block_exists h heap_end) UndefinedBehaviour;
    Ok (with_layout h (filter (fun p => p.1 < new_size) (h_cells h)) new_size
          (find_block_index heap_end + 1)).

(** ** Atoms *)

(** [resolve_atom_index] with the default callbacks: the next index is the number
    of atoms. *)
Definition resolve_atom_index (h : heap) (name : list Z) : heap * Z :=
  match h_name_to_index h !! name with
  | Some i => (h, i)
  | None =>
      let i := Z.of_nat (size (h_name_to_index h)) in
      (with_atoms h (<[name := i]> (h_name_to_index h)) (<[i := name]> (h_index_to_name h)), i)
  end.
(** [atom_name]: the default loader adds nothing, so an unknown index dereferences
    the end iterator. *)
Definition atom_name (h : heap) (c : Z) : res (list Z) :=
  if is_direct c then con_name c
  else i ← atom_index c; of_option (h_index_to_name h !! i) UndefinedBehaviour.
(** [functor(name, arity)] *)
Definition make_functor (h : heap) (name : list Z) (arity : Z) : res (heap * Z) :=
  if bool_decide (7 < length name)%nat then
    _ ← require (bool_decide (length name < 256)%nat) AssertFailed;
    let '(h, i) := resolve_atom_index h name in
    Ok (h, con_cell_index i arity)
  else c ← con_cell_name name arity; Ok (h, c).
