(* ===== verification/HeapGrow.v ===== *)
(** * Allocation appends to the heap

    Every allocation of [Heap] leaves the cells below the old size as they are, adds
    cells above it, and keeps the bound of the size by the blocks. *)

From S2P Require Import Prelude Cells Heap.

Definition heap_inv (h : heap) : Prop := 0 <= h_size h <= h_blocks h * MAX_SIZE.

(** [h'] is [h] with more cells at the end. *)
Record grows (h h' : heap) : Prop := Grows {
  gr_inv : heap_inv h';
  gr_size : h_size h <= h_size h';
  gr_cells : forall i, i < h_size h -> h_cells h' !! i = h_cells h !! i
}.

Lemma grows_refl h : heap_inv h -> grows h h.
Proof. by split. Qed.

Lemma grows_trans h1 h2 h3 : grows h1 h2 -> grows h2 h3 -> grows h1 h3.
Proof.
  intros [I1 S1 C1] [I2 S2 C2]. split; [done|lia|]. intros i Hi. rewrite C2, C1 by lia. done.
Qed.

Lemma ensure_grows h n :
  heap_inv h -> grows h (ensure_allocate h n) /\ h_cells (ensure_allocate h n) = h_cells h.
Proof.
  intros Hi. unfold ensure_allocate. destruct (_ || _); [|by split; [apply grows_refl|]].
  unfold new_block, with_layout. split; [|done]. unfold heap_inv in Hi. split; unfold heap_inv; cbn; unfold MAX_SIZE in *; lia || done.
Qed.

(** One cell at the end of the heap, at the address [i]. *)
Record appended (h h' : heap) (i c : Z) : Prop := Appended {
  ap_grows : grows h h';
  ap_at : h_size h <= i /\ h_size h' = i + 1;
  ap_cell : h_cells h' !! i = Some c;
  ap_other : forall j, j <> i -> h_cells h' !! j = h_cells h !! j
}.

Lemma allocate_one h t h' i :
  heap_inv h -> allocate h t 1 = Ok (h', i) -> appended h h' i (mk_cell t i).
Proof.
  intros Hi H. unfold allocate in H. apply bind_Ok in H as (u & Hr & H). injection H as <- <-.
  apply require_Ok, Z.leb_le in Hr. destruct (ensure_grows h 1 Hi) as [[I S C] Hc].
  set (h1 := ensure_allocate h 1) in *. unfold head_size, head_offset in Hr.
  split; cbn.
  - split; unfold heap_inv in *; cbn; [unfold MAX_SIZE in *; lia|lia|].
    intros j Hj. rewrite lookup_insert_ne by lia. by apply C.
  - lia.
  - apply lookup_insert_eq.
  - intros j Hj. rewrite lookup_insert_ne by done. by rewrite Hc.
Qed.

Lemma appended_ensure h n h' i c :
  heap_inv h -> appended (ensure_allocate h n) h' i c -> appended h h' i c.
Proof.
  intros Hi [G [A1 A2] C O]. destruct (ensure_grows h n Hi) as [G' Hc].
  split; [by eapply grows_trans| |done|].
  - destruct G'. lia.
  - intros j Hj. by rewrite O, Hc.
Qed.

Lemma appended_set h h' i c c' :
  appended h h' i c -> appended h (with_cells h' (<[i := c']> (h_cells h'))) i c'.
Proof.
  intros [[I S C] [A1 A2] Hc O]. split.
  - split; [done|done|]. intros j Hj. cbn. rewrite lookup_insert_ne by lia. by apply C.
  - done.
  - apply lookup_insert_eq.
  - intros j Hj. cbn. rewrite lookup_insert_ne by done. by apply O.
Qed.

Lemma new_cell0_appended h c tg h' i :
  heap_inv h -> new_cell0 h c tg = Ok (h', i) -> appended h h' i c.
Proof.
  intros Hi H. unfold new_cell0 in H. apply bind_Ok in H as ([h1 i'] & Ha & H). injection H as <- <-.
  eapply appended_set. destruct (tg && _); [|by eapply allocate_one].
  eapply appended_ensure; [done|]. eapply allocate_one; [|done].
  by destruct (ensure_grows h (1 + con_arity c) Hi) as [[? _ _] _].
Qed.

Lemma new_ref_appended h h' t :
  heap_inv h -> new_ref h = Ok (h', t) -> exists i, t = ref_cell i /\ appended h h' i (ref_cell i).
Proof.
  intros Hi H. unfold new_ref in H. apply bind_Ok in H as ([h1 i] & Ha & H). injection H as <- <-.
  exists i. split; [done|]. by apply allocate_one.
Qed.

Lemma zero_one m i : zero_cells m i 1 = <[i := 0]> m.
Proof. unfold zero_cells. rewrite seqZ_cons by lia. cbn [foldr]. by rewrite seqZ_nil by lia. Qed.

(** A word of a big integer goes right behind the last cell. *)
Lemma new_dat_appended h c h' :
  heap_inv h -> new_dat_cell h c = Ok h' -> appended h h' (h_size h) c.
Proof.
  intros Hi H. unfold new_dat_cell in H. apply bind_Ok in H as ([h1 i] & Ha & H). injection H as <-.
  unfold allocate_span in Ha. apply bind_Ok in Ha as (h2 & Hs & Ha). injection Ha as <- <-.
  change (Z.to_nat 1) with 1%nat in Hs. cbn [span_loop] in Hs. change (1 <=? 0) with false in Hs. cbv iota in Hs.
  set (h3 := if (h_blocks h =? 0) || (head_size h =? MAX_SIZE) then new_block h else h) in Hs.
  assert (Hh3 : h_size h3 = h_size h /\ h_cells h3 = h_cells h /\ h_size h3 < h_blocks h3 * MAX_SIZE).
  { unfold h3, head_size, head_offset. unfold heap_inv in Hi. unfold MAX_SIZE in *.
    destruct (Z.eqb_spec (h_blocks h) 0) as [Hb|Hb]; cbn [orb].
    { unfold new_block, with_layout; cbn [h_size h_cells h_blocks]; unfold MAX_SIZE; split_and!; lia || done. }
    destruct (Z.eqb_spec (h_size h - (h_blocks h - 1) * 8192) 8192).
    { unfold new_block, with_layout; cbn [h_size h_cells h_blocks]; unfold MAX_SIZE; split_and!; lia || done. }
    split_and!; lia || done. }
  destruct Hh3 as (Hs3 & Hc3 & Hr3).
  assert (Z.min 1 (MAX_SIZE - head_size h3) = 1) as Hm.
  { unfold head_size, head_offset. unfold MAX_SIZE in *. lia. }
  rewrite Hm, zero_one in Hs. cbn in Hs. injection Hs as <-.
  split; cbn; rewrite ?Hs3, ?Hc3.
  - split; cbn; [unfold heap_inv in *; cbn; lia|lia|].
    intros j Hj. by rewrite !lookup_insert_ne by lia.
  - lia.
  - apply lookup_insert_eq.
  - intros j Hj. by rewrite !lookup_insert_ne by done.
Qed.


(** ** Structures *)

Lemma new_con0_grows h con h' t : heap_inv h -> new_con0 h con = Ok (h', t) -> grows h h'.
Proof.
  intros Hi H. unfold new_con0 in H. apply bind_Ok in H as (u & _ & ([h1 i] & Ha & H)%bind_Ok).
  injection H as <- _. destruct (ensure_grows h (1 + con_arity con) Hi) as [[Hi' _ _] _].
  exact (ap_grows _ _ _ _ (appended_set _ _ _ _ con (appended_ensure _ _ _ _ _ Hi (allocate_one _ _ _ _ Hi' Ha)))).
Qed.

Lemma allocate_grows h t n h' i : heap_inv h -> 0 <= n -> allocate h t n = Ok (h', i) ->
  grows h h' /\ h_size h <= i /\ h_size h' = i + n.
Proof.
  intros Hi Hn H. unfold allocate in H. apply bind_Ok in H as (u & Hr & H). injection H as <- <-.
  apply require_Ok, Z.leb_le in Hr. destruct (ensure_grows h n Hi) as [[I S C] Hc].
  set (h1 := ensure_allocate h n) in *. unfold head_size, head_offset in Hr. cbn. split; [|lia].
  split; unfold heap_inv in *; cbn; [unfold MAX_SIZE in *; lia|lia|].
  intros j Hj. rewrite lookup_insert_ne by lia. by apply C.
Qed.

Lemma new_str0_grows h con h' t : heap_inv h -> new_str0 h con = Ok (h', t) -> grows h h'.
Proof.
  intros Hi H. unfold new_str0 in H. apply bind_Ok in H as (u & _ & ([h1 i] & Ha & H)%bind_Ok).
  injection H as <- _. destruct (ensure_grows h (2 + con_arity con) Hi) as [Hg _].
  destruct (allocate_grows _ STR 2 h1 i (gr_inv _ _ Hg) ltac:(lia) Ha) as ([I S C] & Hi1 & Hs).
  destruct Hg as [I' S' C']. split; cbn; [done|lia|].
  intros j Hj. rewrite !lookup_insert_ne by lia. rewrite C by lia. by apply C'.
Qed.

(** New cells have addresses from the old size on. *)
Record extended (h h' : heap) : Prop := Extended {
  ex_grows : grows h h';
  ex_dom : forall i, is_Some (h_cells h' !! i) -> is_Some (h_cells h !! i) \/ h_size h <= i
}.

Lemma appended_extended h h' i c : appended h h' i c -> extended h h'.
Proof.
  intros [G [A1 A2] C O]. split; [done|]. intros j Hj. destruct (decide (j = i)) as [->|Hne]; [by right|].
  rewrite O in Hj by done. by left.
Qed.

Lemma new_ref_extended h h' t : heap_inv h -> new_ref h = Ok (h', t) -> extended h h'.
Proof. intros Hi H. destruct (new_ref_appended _ _ _ Hi H) as (i & _ & A). by eapply appended_extended. Qed.

Lemma new_cell0_extended h c tg h' i : heap_inv h -> new_cell0 h c tg = Ok (h', i) -> extended h h'.
Proof. intros Hi H. by eapply appended_extended, new_cell0_appended. Qed.

Lemma new_con0_extended h con h' t : heap_inv h -> new_con0 h con = Ok (h', t) -> extended h h'.
Proof.
  intros Hi H. split; [by eapply new_con0_grows|].
  unfold new_con0 in H. apply bind_Ok in H as (u & _ & ([h1 i] & Ha & H)%bind_Ok). injection H as <- _.
  destruct (ensure_grows h (1 + con_arity con) Hi) as [[Hi' Hs _] Hc].
  destruct (allocate_one _ _ _ _ Hi' Ha) as [_ [A1 _] _ O]. intros j. cbn.
  destruct (decide (j = i)) as [->|Hne]; [right; lia|].
  rewrite lookup_insert_ne by done. rewrite O by done. rewrite Hc. by left.
Qed.

Lemma new_str0_extended h con h' t : heap_inv h -> new_str0 h con = Ok (h', t) -> extended h h'.
Proof.
  intros Hi H. split; [by eapply new_str0_grows|].
  unfold new_str0 in H. apply bind_Ok in H as (u & _ & ([h1 i] & Ha & H)%bind_Ok). injection H as <- _.
  destruct (ensure_grows h (2 + con_arity con) Hi) as [[Hi' Hs _] Hc].
  destruct (allocate_grows _ STR 2 h1 i Hi' ltac:(lia) Ha) as (_ & Hi1 & _).
  unfold allocate in Ha. apply bind_Ok in Ha as (u2 & _ & Ha). injection Ha as <- <-.
  destruct (ensure_grows _ 2 Hi') as [[_ Hs2 _] Hc2]. intros j. cbn.
  destruct (decide (h_size h <= j)) as [|Hj]; [by right|].
  rewrite !lookup_insert_ne by (cbn in *; lia). rewrite Hc2, Hc. by left.
Qed.

(** Trimming *)
Lemma trim_heap_cells h n h' : heap_inv h -> 0 <= n <= h_size h -> trim_heap h n = Ok h' ->
  heap_inv h' /\ h_size h' = n /\ forall i, i < n -> h_cells h' !! i = h_cells h !! i.
Proof.
  intros Hi Hn H. unfold trim_heap in H. destruct (Z.eqb_spec (h_size h) 0) as [E|E].
  { injection H as <-. split_and!; [done|lia|done]. }
  apply bind_Ok in H as (u & _ & H). injection H as <-. unfold heap_inv in *. cbn. split; [|split].
  - unfold find_block_index, MAX_SIZE. split; [lia|]. destruct (Z.ltb_spec 0 n).
    + pose proof (Z.div_mod (n - 1) 8192). pose proof (Z.mod_pos_bound (n - 1) 8192). lia.
    + change (0 / 8192) with 0. lia.
  - done.
  - intros i Hlt. apply option_eq. intros x. rewrite map_lookup_filter_Some. naive_solver.
Qed.

Lemma trim_heap_dom h n h' i : trim_heap h n = Ok h' -> is_Some (h_cells h' !! i) -> is_Some (h_cells h !! i).
Proof.
  intros H. unfold trim_heap in H. destruct (_ =? 0); [by injection H as <-|].
  apply bind_Ok in H as (u & _ & H). injection H as <-. cbn. intros [x [Hx _]%map_lookup_filter_Some]. by eexists.
Qed.
