(* ===== verification/Bigs.v ===== *)
(** * Big integers on the heap ([src/src/common/term.hpp], [src/src/common/term.cpp])

    A big integer is a header cell ([dat_cell], the number of bits in its low
    half) followed by bytes: byte [k] of the number sits at byte [4 + k] counted
    from the header, eight to a cell.  [big_iterator] walks them. *)

From S2P Require Import Prelude Cells Heap.

(** ** Operations *)

Definition num_bits (h : heap) (big : Z) : res Z :=
  hdr ← heap_get h (ptr_index big); Ok (dat_num_bits hdr).
Definition num_bytes (h : heap) (big : Z) : res Z := n ← num_bits h big; Ok ((n + 7) / 8).

(** [new_big(num_bits)]: the number of cells is computed from the byte count. *)
Definition big_alloc_cells (nbits : Z) : Z :=
  let nbytes := (nbits + 7) / 8 in
  if nbytes <=? 4 then 1 else 1 + ((nbytes - 4) + 8 - 1) / 8.
Definition new_big (h : heap) (nbits : Z) : res (heap * Z) :=
  '(h, index) ← allocate_span h DAT (big_alloc_cells nbits);
  Ok (with_cells h (<[index := dat_cell nbits]> (h_cells h)), big_cell index).

(** [cell_byte::get_byte], [cell_byte::set_byte] on the cached cell *)
Definition cell_get_byte (c i : Z) : Z := w8 (c ≫ (8 * (i mod 8))).
Definition cell_set_byte (c i v : Z) : Z :=
  Z.ldiff c (w64 (0xff ≪ (8 * (i mod 8)))) ||| w64 (v ≪ (8 * (i mod 8))).

(** A [big_iterator] with its [cell_byte]: the address of the cell it stands on
    and its byte number; the address [base_] points to, the byte offset from it,
    the bound [n_], the cached cell and whether it is newer than the heap.
    [None] is memory nothing was stored in. *)
Record big_iterator : Type := BigIterator {
  bi_index : Z;
  bi_i : Z;
  cb_base : Z;
  cb_index : Z;
  cb_n : Z;
  cb_cached : option Z;
  cb_dirty : bool
}.

(** [&untagged_at(addr)] and the load through it *)
Definition load_untagged (h : heap) (addr : Z) : res (option Z) :=
  _ ← require (block_exists h addr) UndefinedBehaviour; Ok (h_cells h !! addr).

(** [big_iterator(h, index, num)] *)
Definition make_iterator (h : heap) (index num : Z) : res big_iterator :=
  c ← load_untagged h index; Ok (BigIterator index 4 index 4 (num + 4) c false).

(** [base_[index_ / 8] = cached_] if the cached cell is dirty; the destructor and
    [flush_and_invalidate] do the same. *)
Definition cell_byte_flush (h : heap) (it : big_iterator) : heap :=
  match cb_dirty it, cb_cached it with
  | true, Some c => with_cells h (<[cb_base it + cb_index it / 8 := c]> (h_cells h))
  | _, _ => h
  end.

(** [cell_byte::operator ++]: the cache is reloaded at the end of a cell unless
    the byte there is beyond the bound. *)
Definition cell_byte_next (h : heap) (it : big_iterator) : heap * big_iterator :=
  let k := cb_index it + 1 in
  if k mod 8 =? 0 then
    let h := cell_byte_flush h it in
    let c := if k <? cb_n it then h_cells h !! (cb_base it + k / 8) else cb_cached it in
    (h, BigIterator (bi_index it) (bi_i it) (cb_base it) k (cb_n it) c false)
  else
    (h, BigIterator (bi_index it) (bi_i it) (cb_base it) k (cb_n it) (cb_cached it) (cb_dirty it)).

(** [cell_byte::set_address] *)
Definition cell_byte_set_address (h : heap) (it : big_iterator) (addr : Z) : res (heap * big_iterator) :=
  _ ← require (block_exists h addr) UndefinedBehaviour;
  let h := cell_byte_flush h it in
  Ok (h, BigIterator (bi_index it) (bi_i it) addr 0 (cb_n it) (h_cells h !! addr) false).

(** [big_iterator_base::operator ++]: the first cell of a block gets a base of
    its own. *)
Definition big_next (h : heap) (it : big_iterator) : res (heap * big_iterator) :=
  let i := bi_i it + 1 in
  let index := if i mod 8 =? 0 then bi_index it + 1 else bi_index it in
  let it := BigIterator index i (cb_base it) (cb_index it) (cb_n it) (cb_cached it) (cb_dirty it) in
  if (i mod 8 =? 0) && (index mod MAX_SIZE =? 0) then cell_byte_set_address h it index
  else Ok (cell_byte_next h it).

(** [*it] and [*it = v] *)
Definition big_get (it : big_iterator) : res Z :=
  c ← of_option (cb_cached it) UndefinedBehaviour; Ok (cell_get_byte c (cb_index it)).
Definition big_put (it : big_iterator) (v : Z) : res big_iterator :=
  c ← of_option (cb_cached it) UndefinedBehaviour;
  Ok (BigIterator (bi_index it) (bi_i it) (cb_base it) (cb_index it) (cb_n it)
        (Some (cell_set_byte c (cb_index it) v)) true).

(** [begin(big)]; the constant one checks the index. *)
Definition big_begin (h : heap) (big : Z) : res big_iterator :=
  b ← deref h big;
  hdr ← load_untagged h (ptr_index b);
  hdr ← of_option hdr UndefinedBehaviour;
  make_iterator h (ptr_index b) ((dat_num_bits hdr + 7) / 8).
Definition big_cbegin (h : heap) (big : Z) : res big_iterator :=
  b ← deref h big;
  hdr ← heap_get h (ptr_index b);
  make_iterator h (ptr_index b) ((dat_num_bits hdr + 7) / 8).

(** The loops over the next [n] bytes. *)
Fixpoint big_load (n : nat) (h : heap) (it : big_iterator) : res (list Z) :=
  match n with
  | O => Ok []
  | S n =>
      b ← big_get it;
      '(h, it) ← big_next h it;
      bs ← big_load n h it;
      Ok (b :: bs)
  end.
Fixpoint big_store (bs : list Z) (h : heap) (it : big_iterator) : res heap :=
  match bs with
  | [] => Ok (cell_byte_flush h it)
  | b :: bs =>
      it ← big_put it b;
      '(h, it) ← big_next h it;
      big_store bs h it
  end.

(** [get_big(cell, bytes, n)], [set_big(cell, bytes, n)] *)
Definition get_big (h : heap) (big : Z) (n : nat) : res (list Z) :=
  b ← deref h big;
  let index := ptr_index b in
  _ ← check_index h index;
  _ ← check_index h (w64 (index + (Z.of_nat n + 8 - 1) / 8 - 1));
  it ← big_cbegin h b;
  big_load n h it.
Definition set_big (h : heap) (big : Z) (bytes : list Z) : res heap :=
  b ← deref h big;
  let index := ptr_index b in
  _ ← check_index h index;
  it ← big_begin h b;
  big_store bytes h it.

(** The bytes between [begin(big)] and [end(big)], and the first four of them. *)
Definition big_bytes (h : heap) (big : Z) : res (list Z) :=
  it ← big_cbegin h big; big_load (Z.to_nat (cb_n it - 4)) h it.
Definition first_bytes (h : heap) (big : Z) : res (list Z) :=
  it ← big_cbegin h big; big_load (Nat.min 4 (Z.to_nat (cb_n it - 4))) h it.

(** [big_equal], [big_compare]: the result and the cost. *)
Fixpoint big_equal_loop (n : nat) (h : heap) (it1 it2 : big_iterator) (cost : Z) : res (bool * Z) :=
  match n with
  | O => Ok (true, cost)
  | S n =>
      let cost := w64 (cost + 1) in
      b1 ← big_get it1;
      b2 ← big_get it2;
      if negb (b1 =? b2) then Ok (false, cost)
      else
        '(h, it1) ← big_next h it1;
        '(h, it2) ← big_next h it2;
        big_equal_loop n h it1 it2 cost
  end.
Definition big_equal (h : heap) (big1 big2 : Z) : res (bool * Z) :=
  n1 ← num_bits h big1;
  n2 ← num_bits h big2;
  if negb (n1 =? n2) then Ok (false, 1)
  else
    it1 ← big_cbegin h big1;
    it2 ← big_cbegin h big2;
    big_equal_loop (Z.to_nat ((n1 + 7) / 8)) h it1 it2 1.

Fixpoint big_compare_loop (n : nat) (h : heap) (it1 it2 : big_iterator) (cost : Z) : res (Z * Z) :=
  match n with
  | O => Ok (0, cost)
  | S n =>
      let cost := w64 (cost + 1) in
      b1 ← big_get it1;
      b2 ← big_get it2;
      if b1 <? b2 then Ok (-1, cost)
      else if b2 <? b1 then Ok (1, cost)
      else
        '(h, it1) ← big_next h it1;
        '(h, it2) ← big_next h it2;
        big_compare_loop n h it1 it2 cost
  end.
Definition big_compare (h : heap) (big1 big2 : Z) : res (Z * Z) :=
  n1 ← num_bits h big1;
  n2 ← num_bits h big2;
  let cmp := sgn 32 (w64 (n1 - n2)) in
  if negb (cmp =? 0) then Ok (if cmp <? 0 then -1 else 1, 1)
  else
    it1 ← big_cbegin h big1;
    it2 ← big_cbegin h big2;
    big_compare_loop (Z.to_nat ((n1 + 7) / 8)) h it1 it2 1.

(** ** The bytes of the heap, read and written in place

    What the iterators compute as long as they stay within the bytes of the
    number. *)

Definition big_step (h : heap) (index i : Z) : res unit :=
  let next := index + (i + 1) / 8 in
  if ((i + 1) mod 8 =? 0) && (next mod MAX_SIZE =? 0)
  then require (block_exists h next) UndefinedBehaviour else Ok ().
Definition big_byte (h : heap) (index i : Z) : res Z :=
  c ← of_option (h_cells h !! (index + i / 8)) UndefinedBehaviour;
  Ok (cell_get_byte c i).
Fixpoint big_read (n : nat) (h : heap) (index i : Z) : res (list Z) :=
  match n with
  | O => Ok []
  | S n =>
      b ← big_byte h index i;
      _ ← big_step h index i;
      bs ← big_read n h index (i + 1);
      Ok (b :: bs)
  end.
Fixpoint big_write (bs : list Z) (h : heap) (index i : Z) : res heap :=
  match bs with
  | [] => Ok h
  | b :: bs =>
      c ← of_option (h_cells h !! (index + i / 8)) UndefinedBehaviour;
      let h := with_cells h (<[index + i / 8 := cell_set_byte c i b]> (h_cells h)) in
      _ ← big_step h index i;
      big_write bs h index (i + 1)
  end.

(** ** Lemmas *)

(** The allocator and the header agree on the number of cells. *)
Lemma big_cells_agree nbits :
  0 <= nbits < 2 ^ 29 -> dat_num_cells (dat_cell nbits) = big_alloc_cells nbits.
Proof.
  intros Hn. unfold dat_num_cells, num_half_cells, dat_num_bits, dat_cell.
  change (int_value (mk_cell DAT nbits)) with (sgn 64 (mk_cell DAT nbits) ≫ 3).
  assert (Hc : mk_cell DAT nbits = nbits * 8 + 6).
  { assert (Hv : cell_value (mk_cell DAT nbits) = nbits)
      by (apply cell_value_mk; unfold is_index, is_word; lia).
    assert (Ht : mk_cell DAT nbits &&& 7 = 6).
    { apply Z.bits_inj'. intros j Hj. change 7 with (Z.ones 3).
      rewrite Z.land_spec, mk_cell_bits, Z.testbit_ones by lia. rewrite (proj2 (Z.leb_le 0 j)) by done.
      cbn [andb]. destruct (Z.ltb_spec j 3); [by rewrite andb_true_r|]. rewrite andb_false_r.
      symmetry. change (tag_kind DAT) with 6. apply Z.bits_above_log2; [lia|]. cbn. lia. }
    unfold cell_value in Hv. rewrite Z.shiftr_div_pow2 in Hv by lia. change (2 ^ 3) with 8 in Hv.
    change 7 with (Z.ones 3) in Ht. rewrite Z.land_ones in Ht by lia. change (2 ^ 3) with 8 in Ht.
    pose proof (Z.div_mod (mk_cell DAT nbits) 8 ltac:(lia)). lia. }
  rewrite sgn_id by (rewrite ?Hc; lia). rewrite Hc, Z.shiftr_div_pow2 by lia. change (2 ^ 3) with 8.
  replace ((nbits * 8 + 6) / 8) with nbits by (apply (Z.div_unique _ _ _ 6); lia).
  change (1 ≪ NUM_SIZE_BITS - 1) with (Z.ones 29). fold (wrap 29 nbits). rewrite wrap_id by done.
  unfold big_alloc_cells. destruct (Z.leb_spec ((nbits + 7) / 8) 4); zify; Z.to_euclidean_division_equations; lia.
Qed.

Lemma dat_num_bits_cell nbits : 0 <= nbits < 2 ^ 29 -> dat_num_bits (dat_cell nbits) = nbits.
Proof.
  intros Hn. unfold dat_num_bits. change (int_value (dat_cell nbits)) with (value_signed (dat_cell nbits)).
  assert (Hw : wrap 29 (value_signed (dat_cell nbits)) = nbits); [|done].
  apply Z.bits_inj'. intros j Hj. unfold value_signed.
  rewrite wrap_spec, Z.shiftr_spec by lia.
  destruct (Z.ltb_spec j 29); [|rewrite andb_false_r; symmetry;
    apply (is_word_testbit 29) in Hn as [_ Hn]; [by apply Hn|done]].
  rewrite andb_true_r, sgn_testbit by lia. unfold dat_cell. rewrite mk_cell_bits by lia.
  rewrite (proj2 (Z.ltb_ge (j + 3) 3)), (proj2 (Z.ltb_lt (j + 3) 64)), andb_true_r by lia.
  f_equal. lia.
Qed.

Lemma get_set_byte c i v j :
  is_word 8 v ->
  cell_get_byte (cell_set_byte c i v) j = if decide (i mod 8 = j mod 8) then v else cell_get_byte c j.
Proof.
  intros Hv. unfold cell_get_byte, cell_set_byte.
  pose proof (Z.mod_pos_bound i 8 ltac:(lia)). pose proof (Z.mod_pos_bound j 8 ltac:(lia)).
  set (a := i mod 8) in *. set (b := j mod 8) in *. clearbody a b.
  apply Z.bits_inj'. intros k Hk. rewrite wrap_spec, Z.shiftr_spec, Z.lor_spec, Z.ldiff_spec by lia.
  rewrite !wrap_spec, !Z.shiftl_spec by lia. change 0xff with (Z.ones 8).
  rewrite Z.testbit_ones by lia.
  apply is_word_testbit in Hv as [_ Hv]; [|done].
  destruct (Z.ltb_spec k 8).
  - rewrite (proj2 (Z.ltb_lt (k + 8 * b) 64)), !andb_true_r by lia.
    destruct (decide (a = b)) as [->|Hne].
    + replace (k + 8 * b - 8 * b) with k by lia.
      rewrite (proj2 (Z.leb_le 0 k)), (proj2 (Z.ltb_lt k 8)) by lia. cbn.
      by rewrite andb_false_r.
    + rewrite wrap_spec, Z.shiftr_spec by lia. rewrite (proj2 (Z.ltb_lt k 8)), andb_true_r by lia.
      destruct (decide (b < a)).
      * rewrite (Z.testbit_neg_r v), (proj2 (Z.leb_gt 0 (k + 8 * b - 8 * a))) by lia. cbn.
        by rewrite andb_true_r, orb_false_r.
      * rewrite Hv by lia. rewrite (proj2 (Z.ltb_ge (k + 8 * b - 8 * a) 8)) by lia.
        by rewrite andb_false_r, andb_true_r, orb_false_r.
  - rewrite !andb_false_r. destruct (decide (a = b)); [symmetry; by apply Hv|].
    rewrite wrap_spec by lia. by rewrite (proj2 (Z.ltb_ge k 8)), andb_false_r by lia.
Qed.

(** ** Iterators within the bytes of the number *)

(** [it] stands on byte [i] of the number at [index] with [num] bytes. *)
Record it_at (h : heap) (index i num : Z) (it : big_iterator) : Prop := ItAt {
  ia_index : bi_index it = index + i / 8;
  ia_i : bi_i it = i;
  ia_cell : cb_base it + cb_index it / 8 = index + i / 8;
  ia_byte : cb_index it mod 8 = i mod 8;
  ia_le : cb_index it <= i;
  ia_n : cb_n it = num + 4;
  ia_cached : i < num + 4 -> cb_cached it = h_cells (cell_byte_flush h it) !! (index + i / 8)
}.

Lemma with_cells_id h : with_cells h (h_cells h) = h.
Proof. by destruct h. Qed.
Lemma flush_blocks h it : h_blocks (cell_byte_flush h it) = h_blocks h.
Proof. unfold cell_byte_flush. by repeat case_match. Qed.
Lemma flush_clean h it : cb_dirty it = false -> cell_byte_flush h it = h.
Proof. unfold cell_byte_flush. by intros ->. Qed.

Lemma make_iterator_at h index num it :
  make_iterator h index num = Ok it -> it_at h index 4 num it /\ cb_dirty it = false.
Proof.
  unfold make_iterator, load_untagged. intros (c & Hc & [= <-])%bind_Ok.
  apply bind_Ok in Hc as (u & _ & [= <-]). split; [|done].
  assert (4 / 8 = 0) as E by done. split; cbn [bi_index bi_i cb_base cb_index cb_n cb_cached];
    rewrite ?E, ?Z.add_0_r; done || lia.
Qed.

Lemma div8_step i : (i + 1) / 8 = if (i + 1) mod 8 =? 0 then i / 8 + 1 else i / 8.
Proof. destruct (Z.eqb_spec ((i + 1) mod 8) 0); zify; Z.to_euclidean_division_equations; lia. Qed.

Lemma mod8_step a b : a mod 8 = b mod 8 -> (a + 1) mod 8 = (b + 1) mod 8.
Proof. intros. zify; Z.to_euclidean_division_equations; lia. Qed.

Lemma big_next_at h index i num it :
  it_at h index i num it -> 0 <= i < num + 4 ->
  match big_step h index i with
  | Ok _ => exists h' it', big_next h it = Ok (h', it') /\ it_at h' index (i + 1) num it' /\
      cell_byte_flush h' it' = cell_byte_flush h it /\ h_blocks h' = h_blocks h /\
      (cb_dirty it = false -> h' = h /\ cb_dirty it' = false)
  | Throw e => big_next h it = Throw e
  end.
Proof.
  intros [H1 H2 H3 H4 H5 H6 H7] Hi. unfold big_step, big_next. rewrite H2, H1.
  specialize (H7 ltac:(lia)). pose proof (mod8_step _ _ H4) as Hm. pose proof (div8_step i) as Hd.
  pose proof (div8_step (cb_index it)) as Hdc. rewrite Hm in Hdc.
  destruct ((i + 1) mod 8 =? 0) eqn:Eb; cbn [andb].
  - replace (index + i / 8 + 1) with (index + (i + 1) / 8) by lia.
    destruct ((index + (i + 1) / 8) mod MAX_SIZE =? 0).
    + unfold cell_byte_set_address. destruct (block_exists h _) eqn:Ebl; [|done]. cbn [require mbind res_bind].
      do 2 eexists. split; [done|]. split; [|split; [done|split; [by apply flush_blocks|intros E]]].
      * assert (0 / 8 = 0) as E0 by done. apply Z.eqb_eq in Eb.
        split; cbn [bi_index bi_i cb_base cb_index cb_n cb_cached]; rewrite ?E0; try done; lia.
      * split; [by apply flush_clean|done].
    + unfold cell_byte_next. cbn [cb_index bi_index bi_i cb_base cb_n cb_cached cb_dirty].
      rewrite Hm, Eb. cbn [mbind res_bind].
      do 2 eexists. split; [done|]. split; [|split; [done|split; [by apply flush_blocks|intros E]]].
      * split; cbn [bi_index bi_i cb_base cb_index cb_n cb_cached]; try done; try lia. intros Hn.
        rewrite (proj2 (Z.ltb_lt (cb_index it + 1) _)) by lia. f_equal; lia.
      * split; [by apply flush_clean|done].
  - unfold cell_byte_next. cbn [cb_index bi_index bi_i cb_base cb_n cb_cached cb_dirty].
    rewrite Hm, Eb.
    assert (Hfl : forall j, cell_byte_flush h
      (BigIterator (index + i / 8) j (cb_base it) (cb_index it + 1) (cb_n it) (cb_cached it) (cb_dirty it)) =
      cell_byte_flush h it).
    { intros j. unfold cell_byte_flush. cbn [cb_index cb_base cb_cached cb_dirty]. by rewrite Hdc. }
    do 2 eexists. split; [done|]. split; [|split; [by apply Hfl|done]].
    split; cbn [bi_index bi_i cb_base cb_index cb_n cb_cached]; try done; try lia.
    intros _. rewrite Hfl, Hd. done.
Qed.

(** Reading: within the bytes of the number the iterator sees the heap. *)
Lemma big_get_at h index i num it :
  it_at h index i num it -> i < num + 4 -> cb_dirty it = false -> big_get it = big_byte h index i.
Proof.
  intros [_ _ _ H4 _ _ H7] Hi Hc. unfold big_get, big_byte. rewrite H7 by done. rewrite flush_clean by done.
  unfold cell_get_byte. by rewrite H4.
Qed.

Lemma big_load_direct n h index i num it :
  it_at h index i num it -> cb_dirty it = false -> 0 <= i -> i + Z.of_nat n <= num + 4 ->
  big_load n h it = big_read n h index i.
Proof.
  revert i it. induction n as [|n IH]; intros i it Hat Hc Hi Hn; cbn [big_load big_read]; [done|].
  rewrite (big_get_at h index i num) by (done || lia).
  destruct (big_byte h index i) as [b|e]; [|done]. cbn [mbind res_bind].
  pose proof (big_next_at h index i num it Hat ltac:(lia)) as Hnext.
  destruct (big_step h index i) as [u|e].
  - destruct Hnext as (h' & it' & -> & Hat' & _ & _ & Hcl). destruct (Hcl Hc) as [-> Hc']. cbn [mbind res_bind].
    rewrite (IH (i + 1)) by (done || lia). done.
  - rewrite Hnext. done.
Qed.

(** A step of an iterator that has written nothing. *)
Lemma big_next_clean h index i num it :
  it_at h index i num it -> cb_dirty it = false -> 0 <= i < num + 4 ->
  forall u, big_step h index i = Ok u ->
  exists it', big_next h it = Ok (h, it') /\ it_at h index (i + 1) num it' /\ cb_dirty it' = false.
Proof.
  intros Hat Hc Hi u Hu. pose proof (big_next_at h index i num it Hat Hi) as Hnext. rewrite Hu in Hnext.
  destruct Hnext as (h' & it' & Hn & Hat' & _ & _ & Hcl). destruct (Hcl Hc) as [-> Hc']. by exists it'.
Qed.

(** Writing: the cached cell is stored sooner or later. *)
Lemma big_store_direct bs h index i num it :
  it_at h index i num it -> 0 <= i -> i + Z.of_nat (length bs) <= num + 4 ->
  big_store bs h it = big_write bs (cell_byte_flush h it) index i.
Proof.
  revert i h it. induction bs as [|b bs IH]; intros i h it Hat Hi Hn; cbn [big_store big_write length] in *; [done|].
  assert (Hput : match h_cells (cell_byte_flush h it) !! (index + i / 8) with
    | Some c => exists it', big_put it b = Ok it' /\ it_at h index i num it' /\
        cell_byte_flush h it' = with_cells (cell_byte_flush h it)
          (<[index + i / 8 := cell_set_byte c i b]> (h_cells (cell_byte_flush h it)))
    | None => big_put it b = Throw UndefinedBehaviour
    end).
  { pose proof Hat as [H1 H2 H3 H4 H5 H6 H7]. specialize (H7 ltac:(lia)). unfold big_put. rewrite H7.
    destruct (h_cells (cell_byte_flush h it) !! (index + i / 8)) as [c|]; [|done]. cbn [of_option mbind res_bind].
    assert (Hfl : cell_byte_flush h (BigIterator (bi_index it) (bi_i it) (cb_base it) (cb_index it) (cb_n it)
        (Some (cell_set_byte c (cb_index it) b)) true) = with_cells (cell_byte_flush h it)
          (<[index + i / 8 := cell_set_byte c i b]> (h_cells (cell_byte_flush h it)))).
    { unfold cell_byte_flush at 1. cbn [cb_index cb_base cb_cached cb_dirty]. rewrite H3.
      unfold cell_set_byte. rewrite H4. unfold cell_byte_flush.
      destruct (cb_dirty it); [|done]. destruct (cb_cached it); [|done].
      rewrite H3. cbn [h_cells with_cells]. by rewrite insert_insert_eq. }
    eexists. split; [done|]. split; [|exact Hfl]. split; cbn [bi_index bi_i cb_base cb_index cb_n cb_cached]; try done.
    intros _. rewrite Hfl. cbn [h_cells with_cells]. rewrite lookup_insert_eq.
    unfold cell_set_byte. by rewrite H4. }
  destruct (h_cells (cell_byte_flush h it) !! (index + i / 8)) as [c|]; [|by rewrite Hput].
  destruct Hput as (it1 & -> & Hat1 & Hfl1). cbn [of_option mbind res_bind]. rewrite <-Hfl1.
  pose proof (big_next_at h index i num it1 Hat1 ltac:(lia)) as Hnext.
  assert (Hstep : big_step (cell_byte_flush h it1) index i = big_step h index i).
  { unfold big_step, block_exists. by rewrite flush_blocks. }
  rewrite Hstep. destruct (big_step h index i) as [u|e].
  - destruct Hnext as (h2 & it2 & -> & Hat2 & Hfl2 & _ & _). cbn [mbind res_bind].
    rewrite (IH (i + 1)) by (done || lia). by rewrite Hfl2.
  - by rewrite Hnext.
Qed.

(** ** Reading back what was written *)

Lemma big_write_frame bs h index i h' :
  big_write bs h index i = Ok h' -> 0 <= i -> are_bytes bs ->
  h_blocks h' = h_blocks h /\ h_size h' = h_size h /\
  (forall j, 0 <= j < i -> big_byte h' index j = big_byte h index j).
Proof.
  revert h i. induction bs as [|b bs IH]; intros h i Hw Hi Hb; cbn [big_write] in Hw.
  { by injection Hw as ->. }
  apply Forall_cons in Hb as [Hb Hbs].
  apply bind_Ok in Hw as (c & Hc & Hw). apply of_option_Ok in Hc.
  apply bind_Ok in Hw as (u & Hstep & Hw).
  destruct (IH _ _ Hw) as (H1 & H2 & H3); [lia|done|]. split; [done|]. split; [done|].
  intros j Hj. rewrite H3 by lia. unfold big_byte. cbn [h_cells with_cells].
  destruct (decide (j / 8 = i / 8)) as [He|Hne].
  - rewrite He, lookup_insert_eq, Hc. cbn [of_option]. rewrite !Ok_bind. f_equal.
    rewrite get_set_byte by done. rewrite decide_False; [done|].
    pose proof (Z.div_mod i 8). pose proof (Z.div_mod j 8). lia.
  - rewrite lookup_insert_ne by lia. done.
Qed.

Lemma big_write_byte b bs h index i h' :
  big_write (b :: bs) h index i = Ok h' -> 0 <= i -> are_bytes (b :: bs) ->
  big_byte h' index i = Ok b.
Proof.
  intros Hw Hi Hb. cbn [big_write] in Hw.
  apply bind_Ok in Hw as (c & Hc & Hw). apply of_option_Ok in Hc.
  apply bind_Ok in Hw as (u & Hstep & Hw). apply Forall_cons in Hb as [Hb Hbs].
  destruct (big_write_frame _ _ _ _ _ Hw) as (_ & _ & H3); [lia|done|].
  rewrite H3 by lia. unfold big_byte. cbn [h_cells with_cells].
  rewrite lookup_insert_eq. cbn [of_option]. rewrite Ok_bind. f_equal.
  rewrite get_set_byte by done. by rewrite decide_True.
Qed.

Lemma big_step_blocks h h' index i : h_blocks h' = h_blocks h -> big_step h' index i = big_step h index i.
Proof. intros H. unfold big_step, block_exists. by rewrite H. Qed.

Lemma big_read_write bs h index i h' :
  big_write bs h index i = Ok h' -> 0 <= i -> are_bytes bs ->
  big_read (length bs) h' index i = Ok bs.
Proof.
  revert h i. induction bs as [|b bs IH]; intros h i Hw Hi Hb; cbn [length big_read]; [done|].
  rewrite (big_write_byte b bs h index i h' Hw Hi Hb), Ok_bind.
  destruct (big_write_frame _ _ _ _ _ Hw Hi Hb) as (Hbl & _ & _).
  cbn [big_write] in Hw. apply bind_Ok in Hw as (c & Hc & Hw).
  apply bind_Ok in Hw as (u & Hstep & Hw). apply Forall_cons in Hb as [Hb Hbs].
  rewrite (big_step_blocks h h') by done. rewrite (big_step_blocks h) in Hstep by done.
  rewrite Hstep, Ok_bind. rewrite (IH _ _ Hw) by (lia || done). done.
Qed.

Lemma deref_not_ref h c : is_ref (cell_tag c) = false -> deref h c = Ok c.
Proof. intros H. unfold deref, deref_with_cost, deref_fuel. cbn [deref_loop]. by rewrite H. Qed.

Lemma cell_tag_ne c t t' : cell_tag c = t -> t <> t' -> bool_decide (cell_tag c = t') = false.
Proof. intros -> ?. by apply bool_decide_eq_false. Qed.

(** ** Comparing *)

(** Lexicographic comparison of byte strings of one length. *)
Fixpoint compare_bytes (l1 l2 : list Z) : Z :=
  match l1, l2 with
  | b1 :: l1, b2 :: l2 => if b1 <? b2 then -1 else if b2 <? b1 then 1 else compare_bytes l1 l2
  | _, _ => 0
  end.

Lemma compare_bytes_swap l1 l2 : compare_bytes l2 l1 = - compare_bytes l1 l2.
Proof.
  revert l2. induction l1 as [|b1 l1 IH]; intros [|b2 l2]; cbn [compare_bytes]; try done.
  destruct (Z.ltb_spec b1 b2), (Z.ltb_spec b2 b1); try done; lia.
Qed.

Lemma compare_bytes_eq l1 l2 : length l1 = length l2 -> (compare_bytes l1 l2 = 0 <-> l1 = l2).
Proof.
  revert l2. induction l1 as [|b1 l1 IH]; intros [|b2 l2] Hl; cbn [compare_bytes length] in *; try done.
  destruct (Z.ltb_spec b1 b2), (Z.ltb_spec b2 b1).
  - lia.
  - split; [done|]. intros [= -> ->]. lia.
  - split; [done|]. intros [= -> ->]. lia.
  - rewrite IH by lia. assert (b1 = b2) as -> by lia. split; [by intros ->|by intros [= ->]].
Qed.

Lemma big_read_length n h index i bs : big_read n h index i = Ok bs -> length bs = n.
Proof.
  revert i bs. induction n as [|n IH]; intros i bs H; cbn [big_read] in H.
  { by injection H as <-. }
  apply bind_Ok in H as (b & Hb & H). apply bind_Ok in H as (u & Hu & H).
  apply bind_Ok in H as (bs' & Hbs & H). injection H as <-. cbn. f_equal. by eapply IH.
Qed.

Section compare.
Context (h : heap) (i1 i2 num : Z).

Lemma big_equal_loop_spec n i it1 it2 cost l1 l2 :
  it_at h i1 i num it1 -> it_at h i2 i num it2 -> cb_dirty it1 = false -> cb_dirty it2 = false ->
  0 <= i -> i + Z.of_nat n <= num + 4 ->
  big_read n h i1 i = Ok l1 -> big_read n h i2 i = Ok l2 ->
  exists cost', big_equal_loop n h it1 it2 cost = Ok (bool_decide (l1 = l2), cost').
Proof.
  revert i it1 it2 cost l1 l2. induction n as [|n IH]; intros i it1 it2 cost l1 l2 A1 A2 C1 C2 Hi Hn H1 H2;
    cbn [big_read big_equal_loop] in *.
  { injection H1 as <-. injection H2 as <-. by eexists. }
  apply bind_Ok in H1 as (b1 & Hb1 & H1). apply bind_Ok in H1 as (u1 & Hu1 & H1).
  apply bind_Ok in H1 as (m1 & Hm1 & [= <-]).
  apply bind_Ok in H2 as (b2 & Hb2 & H2). apply bind_Ok in H2 as (u2 & Hu2 & H2).
  apply bind_Ok in H2 as (m2 & Hm2 & [= <-]).
  rewrite (big_get_at h i1 i num it1), (big_get_at h i2 i num it2) by (done || lia).
  rewrite Hb1, Ok_bind, Hb2, Ok_bind. destruct (Z.eqb_spec b1 b2) as [->|Hne]; cbn [negb].
  - destruct (big_next_clean h i1 i num it1 A1 C1 ltac:(lia) u1 Hu1) as (it1' & -> & A1' & C1').
    rewrite Ok_bind.
    destruct (big_next_clean h i2 i num it2 A2 C2 ltac:(lia) u2 Hu2) as (it2' & -> & A2' & C2').
    rewrite Ok_bind.
    destruct (IH (i + 1) it1' it2' (w64 (cost + 1)) m1 m2 A1' A2' C1' C2' ltac:(lia) ltac:(lia) Hm1 Hm2) as [c' ->].
    exists c'. do 2 f_equal. apply bool_decide_ext. split; [by intros ->|by intros [= ->]].
  - exists (w64 (cost + 1)). do 2 f_equal. symmetry. apply bool_decide_false. congruence.
Qed.

Lemma big_compare_loop_spec n i it1 it2 cost l1 l2 :
  it_at h i1 i num it1 -> it_at h i2 i num it2 -> cb_dirty it1 = false -> cb_dirty it2 = false ->
  0 <= i -> i + Z.of_nat n <= num + 4 ->
  big_read n h i1 i = Ok l1 -> big_read n h i2 i = Ok l2 ->
  exists cost', big_compare_loop n h it1 it2 cost = Ok (compare_bytes l1 l2, cost').
Proof.
  revert i it1 it2 cost l1 l2. induction n as [|n IH]; intros i it1 it2 cost l1 l2 A1 A2 C1 C2 Hi Hn H1 H2;
    cbn [big_read big_compare_loop] in *.
  { injection H1 as <-. injection H2 as <-. by eexists. }
  apply bind_Ok in H1 as (b1 & Hb1 & H1). apply bind_Ok in H1 as (u1 & Hu1 & H1).
  apply bind_Ok in H1 as (m1 & Hm1 & [= <-]).
  apply bind_Ok in H2 as (b2 & Hb2 & H2). apply bind_Ok in H2 as (u2 & Hu2 & H2).
  apply bind_Ok in H2 as (m2 & Hm2 & [= <-]).
  rewrite (big_get_at h i1 i num it1), (big_get_at h i2 i num it2) by (done || lia).
  rewrite Hb1, Ok_bind, Hb2, Ok_bind. cbn [compare_bytes].
  destruct (b1 <? b2); [by eexists|]. destruct (b2 <? b1); [by eexists|].
  destruct (big_next_clean h i1 i num it1 A1 C1 ltac:(lia) u1 Hu1) as (it1' & -> & A1' & C1').
  rewrite Ok_bind.
  destruct (big_next_clean h i2 i num it2 A2 C2 ltac:(lia) u2 Hu2) as (it2' & -> & A2' & C2').
  rewrite Ok_bind. by eapply (IH (i + 1)); [..|lia|lia| |].
Qed.

End compare.

(** A big integer that can be read: its header, its first block and its bytes. *)
Definition big_value (h : heap) (big : Z) (nbits : Z) (bs : list Z) : Prop :=
  cell_tag big = BIG /\ num_bits h big = Ok nbits /\ block_exists h (ptr_index big) = true /\
  big_read (Z.to_nat ((nbits + 7) / 8)) h (ptr_index big) 4 = Ok bs.

Lemma num_bits_range h big n : num_bits h big = Ok n -> is_word 29 n.
Proof.
  unfold num_bits. intros H. apply bind_Ok in H as (hdr & _ & [= <-]). unfold dat_num_bits.
  rewrite Z.land_comm. by apply land_word.
Qed.

Lemma big_cbegin_value h big n bs :
  big_value h big n bs ->
  exists it, big_cbegin h big = Ok it /\ it_at h (ptr_index big) 4 ((n + 7) / 8) it /\ cb_dirty it = false.
Proof.
  intros (Ht & Hn & Hb & _). unfold num_bits in Hn. apply bind_Ok in Hn as (hdr & Hhdr & [= <-]).
  unfold big_cbegin. rewrite deref_not_ref, Ok_bind by (by rewrite Ht). rewrite Hhdr, Ok_bind.
  assert (Hit : make_iterator h (ptr_index big) ((dat_num_bits hdr + 7) / 8) =
    Ok (BigIterator (ptr_index big) 4 (ptr_index big) 4 ((dat_num_bits hdr + 7) / 8 + 4)
          (h_cells h !! ptr_index big) false)) by (unfold make_iterator, load_untagged; by rewrite Hb).
  rewrite Hit. eexists. split; [done|]. by apply make_iterator_at.
Qed.

Lemma big_bytes_value h big n bs : big_value h big n bs -> big_bytes h big = Ok bs.
Proof.
  intros Hv. destruct (big_cbegin_value _ _ _ _ Hv) as (it & Hit & Hat & Hc). unfold big_bytes.
  rewrite Hit, Ok_bind. rewrite (ia_n _ _ _ _ _ Hat).
  replace ((n + 7) / 8 + 4 - 4) with ((n + 7) / 8) by lia. destruct Hv as (_ & Hn & _ & <-).
  apply num_bits_range in Hn. unfold is_word in Hn.
  assert (0 <= (n + 7) / 8) by (apply Z.div_pos; lia).
  by apply (big_load_direct _ _ _ _ ((n + 7) / 8)); [..|lia].
Qed.

Lemma big_equal_spec h a b na nb la lb :
  big_value h a na la -> big_value h b nb lb ->
  exists cost, big_equal h a b = Ok (bool_decide (na = nb /\ la = lb), cost).
Proof.
  intros Hva Hvb. destruct (big_cbegin_value _ _ _ _ Hva) as (ia & Hia & Aa & Ca).
  destruct (big_cbegin_value _ _ _ _ Hvb) as (ib & Hib & Ab & Cb).
  destruct Hva as (_ & Ha & _ & Hla), Hvb as (_ & Hb & _ & Hlb).
  unfold big_equal. rewrite Ha, Ok_bind, Hb, Ok_bind.
  destruct (Z.eqb_spec na nb) as [->|Hne]; cbn [negb].
  - rewrite Hia, Ok_bind, Hib, Ok_bind. pose proof (num_bits_range _ _ _ Ha) as Hr. unfold is_word in Hr.
    assert (0 <= (nb + 7) / 8) by (apply Z.div_pos; lia).
    destruct (big_equal_loop_spec h (ptr_index a) (ptr_index b) _ (Z.to_nat ((nb + 7) / 8)) 4 ia ib 1 la lb Aa Ab Ca Cb
      ltac:(lia) ltac:(lia) Hla Hlb) as [c Hc].
    exists c. rewrite Hc. do 2 f_equal. apply bool_decide_ext.
    split; [by intros ->|by intros [_ ->]].
  - exists 1. do 2 f_equal. symmetry. apply bool_decide_false. by intros [? _].
Qed.

Definition compare_bigs (na nb : Z) (la lb : list Z) : Z :=
  if na <? nb then -1 else if nb <? na then 1 else compare_bytes la lb.

Lemma big_compare_spec h a b na nb la lb :
  big_value h a na la -> big_value h b nb lb ->
  exists cost, big_compare h a b = Ok (compare_bigs na nb la lb, cost).
Proof.
  intros Hva Hvb. destruct (big_cbegin_value _ _ _ _ Hva) as (ia & Hia & Aa & Ca).
  destruct (big_cbegin_value _ _ _ _ Hvb) as (ib & Hib & Ab & Cb).
  destruct Hva as (_ & Ha & _ & Hla), Hvb as (_ & Hb & _ & Hlb).
  unfold big_compare. rewrite Ha, Ok_bind, Hb, Ok_bind.
  pose proof (num_bits_range _ _ _ Ha) as Hra. pose proof (num_bits_range _ _ _ Hb) as Hrb.
  unfold is_word in *.
  assert (Hs : sgn 32 (w64 (na - nb)) = na - nb).
  { transitivity (sgn 32 (na - nb)); [|apply sgn_id; lia]. unfold sgn. cbv zeta.
    assert (wrap 32 (w64 (na - nb)) = wrap 32 (na - nb)) as ->; [|done].
    unfold wrap. by rewrite <-Z.land_assoc. }
  rewrite Hs. unfold compare_bigs.
  destruct (Z.ltb_spec na nb); [|destruct (Z.ltb_spec nb na)].
  - rewrite (proj2 (Z.eqb_neq _ 0)), (proj2 (Z.ltb_lt (na - nb) 0)) by lia. by eexists.
  - rewrite (proj2 (Z.eqb_neq _ 0)), (proj2 (Z.ltb_ge (na - nb) 0)) by lia. by eexists.
  - assert (na = nb) as -> by lia. rewrite Z.sub_diag. cbn [Z.eqb negb].
    rewrite Hia, Ok_bind, Hib, Ok_bind. assert (0 <= (nb + 7) / 8) by (apply Z.div_pos; lia).
    by apply (big_compare_loop_spec h (ptr_index a) (ptr_index b) ((nb + 7) / 8) _ 4); [..|lia| |].
Qed.

(** The number at [index] has room for [len] bytes: its cells are allocated, and
    the block the iterator stands in after the last byte exists. *)
Record big_room (h : heap) (index len : Z) : Prop := BigRoom {
  br_index : 0 <= index;
  br_size : is_word 64 (h_size h);
  br_end : index + (len + 3) / 8 < h_size h;
  br_cells : forall j, 4 <= j < 4 + len -> is_Some (h_cells h !! (index + j / 8));
  br_block : block_exists h (index + (4 + len) / 8) = true
}.

Lemma block_exists_le h a b : a <= b -> block_exists h b = true -> block_exists h a = true.
Proof.
  unfold block_exists, find_block_index. rewrite !Z.ltb_lt. intros Hab Hb.
  pose proof (Z.div_le_mono a b MAX_SIZE ltac:(done) Hab). lia.
Qed.

Lemma big_step_room h index len j :
  big_room h index len -> 4 <= j < 4 + len -> big_step h index j = Ok ().
Proof.
  intros [_ _ _ _ Hb] Hj. unfold big_step. case_match; [|done].
  by rewrite (block_exists_le h _ (index + (4 + len) / 8)) by (done || (pose proof (Z.div_le_mono (j + 1) (4 + len) 8); lia)).
Qed.

Lemma big_write_total bs h index i :
  (forall j, i <= j < i + Z.of_nat (length bs) ->
     is_Some (h_cells h !! (index + j / 8)) /\ big_step h index j = Ok ()) ->
  exists h', big_write bs h index i = Ok h' /\
    (forall a, (forall j, i <= j < i + Z.of_nat (length bs) -> a <> index + j / 8) ->
       h_cells h' !! a = h_cells h !! a).
Proof.
  revert h i. induction bs as [|b bs IH]; intros h i Hj; cbn [big_write]; [by exists h|].
  destruct (Hj i ltac:(cbn; lia)) as [[c Hc] Hs]. rewrite Hc. cbn [of_option mbind res_bind].
  rewrite (big_step_blocks h) by done. rewrite Hs. cbn [mbind res_bind].
  destruct (IH (with_cells h (<[index + i / 8 := cell_set_byte c i b]> (h_cells h))) (i + 1))
    as (h' & -> & Hother).
  - intros j Hj'. destruct (Hj j ltac:(cbn [length]; lia)) as [Hc' Hs']. split.
    + cbn [h_cells with_cells]. by apply lookup_insert_is_Some'; right.
    + by rewrite (big_step_blocks h).
  - exists h'. split; [done|]. intros a Ha. rewrite Hother.
    + cbn [h_cells with_cells]. apply lookup_insert_ne. intros E. apply (Ha i); [cbn; lia|done].
    + intros j Hj'. apply Ha. cbn [length]. lia.
Qed.

(** The header is in the first four bytes. *)
Lemma dat_num_bits_bytes c c' :
  (forall j, 0 <= j < 4 -> cell_get_byte c j = cell_get_byte c' j) -> dat_num_bits c = dat_num_bits c'.
Proof.
  intros H. apply Z.bits_inj'. intros k Hk. unfold dat_num_bits.
  change (1 ≪ NUM_SIZE_BITS - 1) with (Z.ones 29). rewrite !Z.land_spec, Z.testbit_ones by lia.
  destruct (Z.ltb_spec k 29); [|by rewrite !andb_false_r]. f_equal.
  change (int_value c) with (sgn 64 c ≫ 3). change (int_value c') with (sgn 64 c' ≫ 3).
  rewrite !Z.shiftr_spec, !sgn_testbit by lia.
  specialize (H ((k + 3) / 8) ltac:(zify; Z.to_euclidean_division_equations; lia)).
  apply (f_equal (fun v => Z.testbit v ((k + 3) mod 8))) in H. unfold cell_get_byte in H.
  pose proof (Z.mod_pos_bound (k + 3) 8 ltac:(lia)).
  rewrite !wrap_spec, !Z.shiftr_spec in H by lia.
  rewrite (proj2 (Z.ltb_lt ((k + 3) mod 8) 8)), !andb_true_r in H by lia.
  rewrite (Z.mod_small ((k + 3) / 8) 8) in H by (zify; Z.to_euclidean_division_equations; lia).
  replace ((k + 3) mod 8 + 8 * ((k + 3) / 8)) with (k + 3) in H
    by (pose proof (Z.div_mod (k + 3) 8); lia). exact H.
Qed.

Lemma num_bytes_header h big n :
  num_bytes h big = Ok n -> exists hdr, ptr_index big < h_size h /\
    h_cells h !! ptr_index big = Some hdr /\ (dat_num_bits hdr + 7) / 8 = n.
Proof.
  unfold num_bytes, num_bits, heap_get, check_index.
  intros (b & (hdr & (u & Hs%require_Ok & Hh%of_option_Ok)%bind_Ok & [= <-])%bind_Ok & [= <-])%bind_Ok.
  exists hdr. split; [by apply Z.ltb_lt|done].
Qed.

Lemma header_kept h h' index hdr :
  (forall j, 0 <= j < 4 -> big_byte h' index j = big_byte h index j) ->
  h_cells h !! index = Some hdr ->
  exists hdr', h_cells h' !! index = Some hdr' /\ dat_num_bits hdr' = dat_num_bits hdr.
Proof.
  intros Hlow Hh. assert (Hdiv : forall j, 0 <= j < 4 -> index + j / 8 = index)
    by (intros; rewrite Z.div_small by lia; lia).
  pose proof (Hlow 0 ltac:(lia)) as H0. unfold big_byte in H0. rewrite Hdiv, Hh in H0 by lia.
  destruct (h_cells h' !! index) as [hdr'|] eqn:E; [|done]. exists hdr'. split; [done|].
  apply dat_num_bits_bytes. intros j Hj. specialize (Hlow j Hj). unfold big_byte in Hlow.
  rewrite Hdiv, Hh, E in Hlow by lia. by injection Hlow.
Qed.

(** [set_big] and [get_big] within the bytes of the number. *)
Lemma set_big_direct h big bytes n hdr h' :
  cell_tag big = BIG -> ptr_index big < h_size h -> h_cells h !! ptr_index big = Some hdr ->
  (dat_num_bits hdr + 7) / 8 = n -> Z.of_nat (length bytes) <= n ->
  block_exists h (ptr_index big) = true -> big_write bytes h (ptr_index big) 4 = Ok h' ->
  set_big h big bytes = Ok h'.
Proof.
  intros Ht Hs Hh Hn Hlen Hbl Hw.
  assert (Hd : deref h big = Ok big) by (apply deref_not_ref; by rewrite Ht).
  assert (Hit : make_iterator h (ptr_index big) n =
    Ok (BigIterator (ptr_index big) 4 (ptr_index big) 4 (n + 4) (Some hdr) false))
    by (unfold make_iterator, load_untagged; by rewrite Hbl, Hh).
  assert (Hbegin : big_begin h big = make_iterator h (ptr_index big) n)
    by (unfold big_begin, load_untagged; rewrite Hd, Ok_bind, Hbl, Hh; cbn; by rewrite Hn).
  unfold set_big, check_index. run Hd. cbv zeta. rewrite require_true by (by apply Z.ltb_lt). rewrite Ok_bind.
  rewrite Hbegin, Hit, Ok_bind. destruct (make_iterator_at _ _ _ _ Hit) as [Hat Hc].
  rewrite (big_store_direct bytes h (ptr_index big) 4 n) by (done || lia). by rewrite flush_clean.
Qed.

Lemma get_big_direct h big len n hdr bytes :
  cell_tag big = BIG -> is_word 64 (h_size h) -> ptr_index big < h_size h ->
  0 <= ptr_index big + (Z.of_nat len + 7) / 8 - 1 < h_size h ->
  h_cells h !! ptr_index big = Some hdr -> (dat_num_bits hdr + 7) / 8 = n -> Z.of_nat len <= n ->
  block_exists h (ptr_index big) = true -> big_read len h (ptr_index big) 4 = Ok bytes ->
  get_big h big len = Ok bytes.
Proof.
  intros Ht Hsz Hs He Hh Hn Hlen Hbl Hr.
  assert (Hd : deref h big = Ok big) by (apply deref_not_ref; by rewrite Ht).
  assert (Hit : make_iterator h (ptr_index big) n =
    Ok (BigIterator (ptr_index big) 4 (ptr_index big) 4 (n + 4) (Some hdr) false))
    by (unfold make_iterator, load_untagged; by rewrite Hbl, Hh).
  assert (Hbegin : big_cbegin h big = make_iterator h (ptr_index big) n).
  { unfold big_cbegin, heap_get, check_index. run Hd. rewrite require_true by (by apply Z.ltb_lt).
    rewrite Ok_bind, Hh. cbn. by rewrite Hn. }
  unfold get_big, check_index. run Hd. cbv zeta.
  rewrite (require_true (ptr_index big <? _)) by (by apply Z.ltb_lt). rewrite Ok_bind.
  replace (Z.of_nat len + 8 - 1) with (Z.of_nat len + 7) by lia.
  rewrite (wrap_id 64) by (unfold is_word in *; lia). rewrite require_true by (apply Z.ltb_lt; lia).
  rewrite Ok_bind, Hbegin, Hit, Ok_bind. destruct (make_iterator_at _ _ _ _ Hit) as [Hat Hc].
  rewrite (big_load_direct len h (ptr_index big) 4 n) by (done || lia). done.
Qed.


(** [big_compare] is the order that first compares the number of bits and then
    the bytes; it is antisymmetric, and it agrees with [big_equal]. *)
Theorem big_compare_order h a b na nb la lb :
  big_value h a na la -> big_value h b nb lb ->
  exists r cost cost' cost'',
    big_compare h a b = Ok (r, cost) /\ big_compare h b a = Ok (- r, cost') /\
    big_equal h a b = Ok (r =? 0, cost'') /\ r = compare_bigs na nb la lb /\
    (r = 0 <-> na = nb /\ la = lb).
Proof.
  intros Ha Hb. destruct (big_compare_spec h a b na nb la lb Ha Hb) as [c1 H1].
  destruct (big_compare_spec h b a nb na lb la Hb Ha) as [c2 H2].
  destruct (big_equal_spec h a b na nb la lb Ha Hb) as [c3 H3].
  exists (compare_bigs na nb la lb), c1, c2, c3.
  assert (Hz : compare_bigs na nb la lb = 0 <-> na = nb /\ la = lb).
  { unfold compare_bigs. destruct (Z.ltb_spec na nb), (Z.ltb_spec nb na); try (split; [done|by intros [? _]; lia]); try lia.
    assert (na = nb) as -> by lia. destruct Ha as (_ & _ & _ & Ha), Hb as (_ & _ & _ & Hb).
    apply big_read_length in Ha, Hb. rewrite compare_bytes_eq by congruence.
    split; [by intros ->|by intros [_ ->]]. }
  split; [done|]. split.
  - rewrite H2. do 2 f_equal. unfold compare_bigs. rewrite compare_bytes_swap.
    destruct (Z.ltb_spec na nb), (Z.ltb_spec nb na); lia.
  - split; [|done]. rewrite H3. do 2 f_equal.
    destruct (Z.eqb_spec (compare_bigs na nb la lb) 0) as [E|E].
    + by apply bool_decide_true, Hz.
    + apply bool_decide_false. by rewrite <-Hz.
Qed.

(** A heap with two 64-bit numbers. *)
Definition example_bigs : res (heap * Z * Z) :=
  '(h, a) ← new_big heap_empty 64;
  '(h, b) ← new_big h 64;
  h ← set_big h a [0; 0; 0; 0; 0; 0; 1; 2];
  h ← set_big h b [0; 0; 0; 0; 0; 0; 2; 1];
  Ok (h, a, b).

Definition heap_of {A} (r : res (heap * A)) : heap :=
  match r with Ok (h, _) => h | Throw _ => heap_empty end.
Definition ok_heap (r : res (heap * Z * Z)) : heap * Z * Z :=
  match r with Ok x => x | Throw _ => (heap_empty, 0, 0) end.
Definition bytes_from (n : nat) (b : Z) : list Z := (fun k => b + Z.of_nat k) <$> seq 0 n.

(** A 200-bit number of four cells, two on each side of a block boundary. *)
Definition straddling : heap := heap_of (new_big (with_layout heap_empty ∅ (MAX_SIZE - 2) 1) 200).


(** Beyond the bytes of the number the iterator keeps the cell it has cached:
    sixteen bytes written to a number of eight go wrong twice.  The last four are
    put into a copy of the cell before, which then replaces the header of the
    number behind it; and reading sixteen bytes gives the last four of the
    number's own cell again. *)
Definition two_numbers : heap * Z * Z :=
  ok_heap ('(h, a) ← new_big heap_empty 64; '(h, b) ← new_big h 64;
    h ← set_big h b (replicate 8 9); Ok (h, a, b)).

Lemma stale_bytes_written :
  let '(h, a, b) := two_numbers in
  num_bits h b = Ok 64 /\
  (h ← set_big h a (bytes_from 16 0); num_bits h b) <> Ok 64 /\
  (h ← set_big h a (bytes_from 16 0); get_big h a 16) = Ok (bytes_from 12 0 ++ bytes_from 4 4).
Proof. vm_compute. split_and!; congruence. Qed.

Lemma big_compare_order_witness :
  exists h a b, example_bigs = Ok (h, a, b) /\
    exists r cost cost' cost'',
      big_compare h a b = Ok (r, cost) /\ big_compare h b a = Ok (- r, cost') /\
      big_equal h a b = Ok (r =? 0, cost'') /\ r = -1 /\ (r = 0 <-> 64 = 64 /\
        [0; 0; 0; 0; 0; 0; 1; 2] = [0; 0; 0; 0; 0; 0; 2; 1]).
Proof.
  do 3 eexists. split; [vm_compute; reflexivity|].
  apply (big_compare_order _ _ _ 64 64 [0; 0; 0; 0; 0; 0; 1; 2] [0; 0; 0; 0; 0; 0; 2; 1]);
    by vm_compute.
Defined.
