(* ===== verification/TermEnv.v ===== *)
(** * Term environments ([src/src/common/term_env.hpp], [src/src/common/term_env.cpp])

    A [term_env] is a heap with a stack, a trail of variable bindings, the
    temporary stacks of [term_utils] and the register [hb], the heap size at the
    last choice point.  This file models the stacks, binding and trailing,
    unification, structural equality, the standard order and the cost and hash of
    a term.

    The stack and the temporary trail are lists with the back of the vector at
    the head; the trail, which is indexed, is in vector order.  Loops over terms
    run on fuel: they do not terminate on every cyclic term. *)

From S2P Require Import Prelude Cells Heap Bigs.

Record term_env := TermEnv {
  e_heap : heap;
  e_stack : list Z;
  e_trail : list Z;
  e_temp_trail : list Z;
  e_hb : Z
}.

Definition env_empty : term_env := TermEnv heap_empty [] [] [] 0.

Definition with_heap (e : term_env) h :=
  TermEnv h (e_stack e) (e_trail e) (e_temp_trail e) (e_hb e).
Definition with_stack (e : term_env) s :=
  TermEnv (e_heap e) s (e_trail e) (e_temp_trail e) (e_hb e).
Definition with_trail (e : term_env) t :=
  TermEnv (e_heap e) (e_stack e) t (e_temp_trail e) (e_hb e).
Definition with_temp_trail (e : term_env) t :=
  TermEnv (e_heap e) (e_stack e) (e_trail e) t (e_hb e).
Definition set_register_hb (e : term_env) hb :=
  TermEnv (e_heap e) (e_stack e) (e_trail e) (e_temp_trail e) hb.

(** ** Stacks and trail *)

Definition push (e : term_env) (t : Z) : term_env := with_stack e (t :: e_stack e).
Definition pop (e : term_env) : res (Z * term_env) :=
  match e_stack e with
  | t :: s => Ok (t, with_stack e s)
  | [] => Throw UndefinedBehaviour
  end.
Definition stack_size (e : term_env) : nat := length (e_stack e).
(** [resize]: the back is the head of the list. *)
Definition trim_stack (e : term_env) (n : nat) : term_env :=
  with_stack e (replicate (n - stack_size e) 0 ++ drop (stack_size e - n) (e_stack e)).

Definition trail_size (e : term_env) : nat := length (e_trail e).
Definition trim_trail (e : term_env) (n : nat) : term_env :=
  with_trail e (take n (e_trail e) ++ replicate (n - trail_size e) 0).
(** Only bindings older than the choice point are recorded. *)
Definition trail (e : term_env) (index : Z) : term_env :=
  if index <? e_hb e then with_trail e (e_trail e ++ [index]) else e.

(** [while (i < to)]: an entry that is not kept is overwritten by the last one. *)
Fixpoint tidy_trail_loop (fuel : nat) (keep : Z -> bool) (tr : list Z) (i to : nat) : res (list Z) :=
  match fuel with
  | O => Throw OutOfFuel
  | S fuel =>
      if (i <? to)%nat then
        x ← of_option (tr !! i) UndefinedBehaviour;
        if keep x then tidy_trail_loop fuel keep tr (S i) to
        else
          y ← of_option (tr !! (to - 1)%nat) UndefinedBehaviour;
          tidy_trail_loop fuel keep (<[i := y]> tr) i (to - 1)
      else Ok (take to tr)
  end.
(** Entries below [hb] are kept. *)
Definition tidy_trail (e : term_env) (from to : nat) : res term_env :=
  tr ← tidy_trail_loop (S (to - from)) (fun x => x <? e_hb e) (e_trail e) from to;
  Ok (with_trail e tr).

Fixpoint unwind_loop (h : heap) (trail : list Z) : res heap :=
  match trail with
  | [] => Ok h
  | index :: trail => h ← heap_set h index (ref_cell index); unwind_loop h trail
  end.
(** Entries [from] to [to - 1]. *)
Definition unwind_trail (e : term_env) (from to : nat) : res term_env :=
  h ← unwind_loop (e_heap e) (take (to - from) (drop from (e_trail e)));
  Ok (with_heap e h).

(** [bind(a, b)] *)
Definition bind (e : term_env) (a b : Z) : res term_env :=
  let h := if bool_decide (cell_tag a = RFW) then add_watched (e_heap e) (ptr_index a) else e_heap e in
  h ← heap_set h (ptr_index a) b;
  Ok (trail (with_heap e h) (ptr_index a)).

(** The push of the argument pairs, last pair first. *)
Fixpoint push_args (n : nat) (e : term_env) (a b : Z) : res term_env :=
  match n with
  | O => Ok e
  | S n =>
      ai ← arg (e_heap e) a (Z.of_nat n);
      bi ← arg (e_heap e) b (Z.of_nat n);
      push_args n (push (push e bi) ai) a b
  end.

(** ** Unification *)

(** [while (dest.tag() == FWD)]: the end of the chain and its cell. *)
Fixpoint fwd_loop (fuel : nat) (h : heap) (index : Z) : res (Z * Z) :=
  match fuel with
  | O => Throw OutOfFuel
  | S fuel =>
      dest ← heap_get h index;
      if bool_decide (cell_tag dest = FWD) then fwd_loop fuel h (ptr_index dest)
      else Ok (index, dest)
  end.

(** [restore_cells_after_unify]: the cell behind the forwarding pointer is copied
    back. *)
Fixpoint restore_loop (h : heap) (temp_trail : list Z) : res heap :=
  match temp_trail with
  | [] => Ok h
  | index :: temp_trail =>
      fwd ← heap_get h index;
      c ← heap_get h (ptr_index fwd);
      h ← heap_set h index c;
      restore_loop h temp_trail
  end.
Definition restore_cells_after_unify (e : term_env) : res term_env :=
  h ← restore_loop (e_heap e) (e_temp_trail e);
  Ok (with_temp_trail (with_heap e h) []).

Section import.

(** [boost::multiprecision::import_bits] with 8 bits per byte: the number whose
    big-endian digits the bytes are. *)
Context (import_bits : list Z -> Z).

(** [get_big(big, i, nbits)] *)
Definition get_big_number (h : heap) (big : Z) : res Z :=
  bs ← big_bytes h big; Ok (import_bits bs).

(** The two references are bound so that the higher address points to the lower. *)
Definition unify_refs (e : term_env) (a b : Z) : res term_env :=
  if ptr_index a <? ptr_index b then
    h ← (if watched_cell b then heap_watch (e_heap e) (ptr_index a) true else Ok (e_heap e));
    bind (with_heap e h) b a
  else
    h ← (if watched_cell a then heap_watch (e_heap e) (ptr_index b) true else Ok (e_heap e));
    bind (with_heap e h) a b.

(** The [STR] case.  The check on [bdest] tests [adest] again. *)
Definition unify_structures (e : term_env) (a b : Z) : res (term_env * bool) :=
  '(aindex, adest) ← fwd_loop (deref_fuel (e_heap e)) (e_heap e) (ptr_index a);
  '(bindex, bdest) ← fwd_loop (deref_fuel (e_heap e)) (e_heap e) (ptr_index b);
  _ ← require (bool_decide (cell_tag adest = CON)) (ExpectedConCell aindex adest);
  _ ← require (bool_decide (cell_tag adest = CON)) (ExpectedConCell bindex bdest);
  if aindex =? bindex then Ok (e, true)
  else if negb (adest =? bdest) then Ok (e, false)
  else
    let e := with_temp_trail e (aindex :: e_temp_trail e) in
    h ← heap_set (e_heap e) aindex (fwd_cell bindex);
    e ← push_args (Z.to_nat (con_arity adest)) (with_heap e h) a b;
    Ok (e, true).

Definition unify_bigs (e : term_env) (a b : Z) : res bool :=
  na ← num_bits (e_heap e) a;
  nb ← num_bits (e_heap e) b;
  if negb (na =? nb) then Ok false
  else
    ai ← get_big_number (e_heap e) a;
    bi ← get_big_number (e_heap e) b;
    Ok (ai =? bi).

(** The body of the loop on two dereferenced cells; [false] means that the terms
    clash. *)
Definition unify_cells (e : term_env) (a b : Z) : res (term_env * bool) :=
  if a =? b then Ok (e, true)
  else if is_ref (cell_tag a) then
    if is_ref (cell_tag b) then e ← unify_refs e a b; Ok (e, true)
    else e ← bind e a b; Ok (e, true)
  else if is_ref (cell_tag b) then e ← bind e b a; Ok (e, true)
  else if negb (bool_decide (cell_tag a = cell_tag b)) then Ok (e, false)
  else
    match cell_tag a with
    | CON | INT => Ok (e, a =? b)
    | STR => unify_structures e a b
    | BIG => r ← unify_bigs e a b; Ok (e, r)
    | _ => Ok (e, true)
    end.

(** One iteration. *)
Definition unify_step (e : term_env) (cost : Z) : res (term_env * Z * bool) :=
  '(a, e) ← pop e;
  '(a, c1) ← deref_with_cost (e_heap e) a;
  '(b, e) ← pop e;
  '(b, c2) ← deref_with_cost (e_heap e) b;
  '(e, ok) ← unify_cells e a b;
  Ok (e, w64 (w64 (cost + c1) + c2), ok).

(** [d] is the stack size at the start. *)
Fixpoint unify_loop (fuel : nat) (d : nat) (e : term_env) (cost : Z) : res (term_env * bool * Z) :=
  if (d <? stack_size e)%nat then
    match fuel with
    | O => Throw OutOfFuel
    | S fuel =>
        '(e, cost, ok) ← unify_step e cost;
        if (ok : bool) then unify_loop fuel d e cost
        else e ← restore_cells_after_unify e; Ok (e, false, cost)
    end
  else e ← restore_cells_after_unify e; Ok (e, true, cost).

Definition unify_helper (fuel : nat) (e : term_env) (a b : Z) : res (term_env * bool * Z) :=
  unify_loop fuel (stack_size e) (push (push e b) a) 0.

Definition unify (fuel : nat) (e : term_env) (a b : Z) : res (term_env * bool * Z) :=
  let start_trail := trail_size e in
  let start_stack := stack_size e in
  let old_register_hb := e_hb e in
  let e := set_register_hb e (h_size (e_heap e)) in
  '(e, r, cost) ← unify_helper fuel e a b;
  if (r : bool) then
    let e := set_register_hb e old_register_hb in
    e ← tidy_trail e start_trail (trail_size e);
    Ok (e, true, cost)
  else
    e ← unwind_trail e start_trail (trail_size e);
    let e := trim_stack (trim_trail e start_trail) start_stack in
    Ok (set_register_hb e old_register_hb, false, cost).

(** ** Equality *)

Definition equal_step (e : term_env) (cost : Z) : res (term_env * Z * bool) :=
  '(a, e) ← pop e;
  '(a, c1) ← deref_with_cost (e_heap e) a;
  '(b, e) ← pop e;
  '(b, c2) ← deref_with_cost (e_heap e) b;
  let cost := w64 (w64 (cost + c1) + c2) in
  if a =? b then Ok (e, cost, true)
  else if negb (bool_decide (cell_tag a = cell_tag b)) then Ok (e, cost, false)
  else if bool_decide (cell_tag a = BIG) then
    '(r, c) ← big_equal (e_heap e) a b;
    Ok (e, w64 (cost + c), r)
  else if negb (bool_decide (cell_tag a = STR)) then Ok (e, cost, false)
  else
    fa ← functor (e_heap e) a;
    fb ← functor (e_heap e) b;
    if negb (fa =? fb) then Ok (e, cost, false)
    else
      e ← push_args (Z.to_nat (con_arity fa)) e a b;
      Ok (e, cost, true).

Fixpoint equal_loop (fuel : nat) (d : nat) (e : term_env) (cost : Z) : res (term_env * bool * Z) :=
  if (d <? stack_size e)%nat then
    match fuel with
    | O => Throw OutOfFuel
    | S fuel =>
        '(e, cost, ok) ← equal_step e cost;
        if (ok : bool) then equal_loop fuel d e cost
        else Ok (trim_stack e d, false, cost)
    end
  else Ok (e, true, cost).
Definition equal (fuel : nat) (e : term_env) (a b : Z) : res (term_env * bool * Z) :=
  equal_loop fuel (stack_size e) (push (push e b) a) 0.

(** ** The standard order *)

(** The sign of [std::string::compare]. *)
Fixpoint string_compare (s1 s2 : list Z) : Z :=
  match s1, s2 with
  | [], [] => 0
  | [], _ :: _ => -1
  | _ :: _, [] => 1
  | c1 :: s1, c2 :: s2 => if c1 <? c2 then -1 else if c2 <? c1 then 1 else string_compare s1 s2
  end.

Definition functor_standard_order (h : heap) (a b : Z) : res Z :=
  if a =? b then Ok 0
  else
    let arity_a := con_arity a in
    let arity_b := con_arity b in
    if arity_a <? arity_b then Ok (-1)
    else if arity_b <? arity_a then Ok 1
    else
      name_a ← atom_name h a;
      name_b ← atom_name h b;
      Ok (string_compare name_a name_b).

(** One iteration: [None] to go on.  [big_compare] overwrites the cost; the stack
    is trimmed before two equal big integers go on. *)
Definition standard_order_step (d : nat) (e : term_env) (cost : Z)
    : res (term_env * Z * option Z) :=
  '(a, e) ← pop e;
  '(a, c1) ← deref_with_cost (e_heap e) a;
  '(b, e) ← pop e;
  '(b, c2) ← deref_with_cost (e_heap e) b;
  let cost := w64 (w64 (cost + c1) + c2) in
  if a =? b then Ok (e, cost, None)
  else if negb (bool_decide (cell_tag a = cell_tag b)) then
    Ok (trim_stack e d, cost,
        Some (if tag_kind (cell_tag a) <? tag_kind (cell_tag b) then -1 else 1))
  else
    let structures :=
      fa ← functor (e_heap e) a;
      fb ← functor (e_heap e) b;
      if negb (fa =? fb) then
        r ← functor_standard_order (e_heap e) fa fb;
        Ok (trim_stack e d, cost, Some r)
      else
        e ← push_args (Z.to_nat (con_arity fa)) e a b;
        Ok (e, cost, None) in
    match cell_tag a with
    | CON =>
        cmp ← functor_standard_order (e_heap e) a b;
        Ok (trim_stack e d, cost, Some (if cmp <? 0 then -1 else 1))
    | REF | RFW =>
        Ok (trim_stack e d, cost, Some (if ptr_index a <? ptr_index b then -1 else 1))
    | INT =>
        Ok (trim_stack e d, cost, Some (if int_value a <? int_value b then -1 else 1))
    | BIG =>
        let e := trim_stack e d in
        '(v, cost) ← big_compare (e_heap e) a b;
        Ok (e, cost, if negb (v =? 0) then Some v else None)
    | STR | DAT | FWD => structures
    end.

Fixpoint standard_order_loop (fuel : nat) (d : nat) (e : term_env) (cost : Z)
    : res (term_env * Z * Z) :=
  if (d <? stack_size e)%nat then
    match fuel with
    | O => Throw OutOfFuel
    | S fuel =>
        '(e, cost, r) ← standard_order_step d e cost;
        match r with
        | Some v => Ok (e, v, cost)
        | None => standard_order_loop fuel d e cost
        end
    end
  else Ok (e, 0, cost).
Definition standard_order (fuel : nat) (e : term_env) (a b : Z) : res (term_env * Z * Z) :=
  standard_order_loop fuel (stack_size e) (push (push e b) a) 0.

(** ** Cost and hash *)

(** [for (i = 0; i < n; i++) push(arg(t, i))], from [i] on. *)
Fixpoint push_all (n : nat) (i : Z) (e : term_env) (t : Z) : res term_env :=
  match n with
  | O => Ok e
  | S n => a ← arg (e_heap e) t i; push_all n (i + 1) (push e a) t
  end.

Fixpoint cost_loop (fuel : nat) (d : nat) (e : term_env) (acc : Z) : res (term_env * Z) :=
  if (d <? stack_size e)%nat then
    match fuel with
    | O => Throw OutOfFuel
    | S fuel =>
        '(t, e) ← pop e;
        '(t, c) ← deref_with_cost (e_heap e) t;
        let acc := w64 (acc + c) in
        match cell_tag t with
        | STR =>
            f ← functor (e_heap e) t;
            e ← push_all (Z.to_nat (con_arity f)) 0 e t;
            cost_loop fuel d e acc
        | _ => cost_loop fuel d e acc
        end
    end
  else Ok (e, acc).
Definition term_cost (fuel : nat) (e : term_env) (t : Z) : res (term_env * Z) :=
  cost_loop fuel (stack_size e) (push e t) 0.

(** [h <<= 8; h += *big_it] for the first four bytes of a big integer. *)
Definition hash_bytes (h0 : Z) (bs : list Z) : Z :=
  foldl (fun h b => w64 (w64 (h ≪ 8) + b)) h0 bs.

Definition simple_hash (h : heap) (t : Z) : res Z :=
  match cell_tag t with
  | CON | INT | REF | RFW => Ok t
  | BIG =>
      n ← num_bits h t;
      bs ← first_bytes h t;
      Ok (hash_bytes n bs)
  | STR => functor h t
  | _ => Throw AssertFailed
  end.

Fixpoint hash_loop (fuel : nat) (d : nat) (e : term_env) (acc : Z) : res (term_env * Z) :=
  if (d <? stack_size e)%nat then
    match fuel with
    | O => Throw OutOfFuel
    | S fuel =>
        '(t, e) ← pop e;
        t ← deref (e_heap e) t;
        match cell_tag t with
        | CON | INT | REF | RFW => hash_loop fuel d e (w64 (acc + t))
        | BIG =>
            n ← num_bits (e_heap e) t;
            bs ← first_bytes (e_heap e) t;
            hash_loop fuel d e (hash_bytes (w64 (acc + n)) bs)
        | STR =>
            f ← functor (e_heap e) t;
            e ← push_all (Z.to_nat (con_arity f)) 0 e t;
            hash_loop fuel d e (w64 (acc + f))
        | _ => hash_loop fuel d e acc
        end
    end
  else Ok (e, acc).
Definition term_hash (fuel : nat) (e : term_env) (t : Z) : res (term_env * Z) :=
  hash_loop fuel (stack_size e) (push e t) 0.

End import.
