(* ===== verification/HeapSpec.v ===== *)
(** * Well-formed heaps

    A [layout] names the roles of the cells of a heap: functor cells of
    structures, value cells (variables and arguments), and the cells of big
    integers.  [heap_ok] says that a heap follows its layout, where some functor
    cells may currently hold forwarding pointers of a running unification.
    [derefs] is the chain of references [deref] follows. *)

From S2P Require Import Prelude Cells Heap Bigs.

Record layout := Layout {
  ly_fn : gmap Z Z;        (* functor cells *)
  ly_vals : gset Z;        (* addresses of value cells *)
  ly_dat : gmap Z Z;       (* cells of big integers *)
  ly_size : Z;
  ly_blocks : Z
}.

(** A heap that holds only the big integers: enough to read them. *)
Definition dat_heap (L : layout) : heap :=
  Heap (ly_dat L) (ly_size L) (ly_blocks L) [] true ∅ ∅.

(** A cell that may stand in a value position, on a stack or in a register. *)
Definition good (L : layout) (c : Z) : Prop :=
  is_word 64 c /\
  match cell_tag c with
  | REF | RFW => ptr_index c ∈ ly_vals L
  | STR => is_Some (ly_fn L !! ptr_index c)
  | BIG => exists nbits bs, big_value (dat_heap L) c nbits bs
  | CON | INT => True
  | DAT | FWD => False
  end.

Definition in_heap (L : layout) (i : Z) : Prop :=
  0 <= i < ly_size L /\ find_block_index i < ly_blocks L.

Record layout_ok (L : layout) : Prop := LayoutOk {
  lo_fn : forall s f, ly_fn L !! s = Some f ->
    in_heap L s /\ is_index s /\ (s ∉ ly_vals L) /\ is_word 64 f /\ cell_tag f = CON /\
    forall k, 0 <= k < con_arity f -> s + 1 + k ∈ ly_vals L;
  lo_vals : forall v, v ∈ ly_vals L -> in_heap L v /\ is_index v;
  lo_dat : forall i, is_Some (ly_dat L !! i) -> (i ∉ ly_vals L) /\ ly_fn L !! i = None
}.

(** ** Chains of references *)

Inductive derefs (h : heap) : Z -> nat -> Z -> Prop :=
  | derefs_value c : is_ref (cell_tag c) = false -> derefs h c 0 c
  | derefs_self c : is_ref (cell_tag c) = true -> heap_get h (ptr_index c) = Ok c -> derefs h c 0 c
  | derefs_step c r n d : is_ref (cell_tag c) = true -> heap_get h (ptr_index c) = Ok r ->
      r <> c -> derefs h r n d -> derefs h c (S n) d.

Section derefs.
Context (h : heap).

Lemma derefs_det c n d n' d' : derefs h c n d -> derefs h c n' d' -> n = n' /\ d = d'.
Proof.
  intros H. revert n' d'. induction H as [c Hc|c Hc Hs|c r n d Hc Hr Hne H IH]; intros n' d' H';
    inversion H'; simplify_eq; try congruence; try done.
  edestruct IH as [-> ->]; [|done]. congruence.
Qed.

Lemma derefs_end c n d : derefs h c n d -> derefs h d 0 d.
Proof. induction 1; eauto using derefs. Qed.

Lemma derefs_end_cases c n d :
  derefs h c n d -> is_ref (cell_tag d) = false \/ (is_ref (cell_tag d) = true /\ heap_get h (ptr_index d) = Ok d).
Proof. induction 1; eauto. Qed.

(** The addresses a chain reads are distinct. *)
Lemma derefs_path c n d :
  derefs h c n d ->
  exists l, length l = n /\ NoDup l /\
    (forall x, x ∈ l -> x ∈ dom (h_cells h) /\ exists r m, heap_get h x = Ok r /\ (m < n)%nat /\ derefs h r m d).
Proof.
  induction 1 as [c Hc|c Hc Hs|c r n d Hc Hr Hne H IH].
  - exists []. split; [done|]. split; [constructor|]. by intros x ?%elem_of_nil.
  - exists []. split; [done|]. split; [constructor|]. by intros x ?%elem_of_nil.
  - destruct IH as (l & Hl & Hnd & Hin). exists (ptr_index c :: l).
    split; [cbn; by rewrite Hl|]. split.
    + constructor; [|done]. intros Hx. destruct (Hin _ Hx) as (_ & r' & m & Hr' & Hm & Hd).
      rewrite Hr in Hr'. injection Hr' as <-. destruct (derefs_det _ _ _ _ _ H Hd). lia.
    + intros x [->|Hx]%elem_of_cons.
      * split; [|exists r, n; eauto]. unfold heap_get in Hr. apply bind_Ok in Hr as (u & _ & Hr).
        apply of_option_Ok in Hr. by apply elem_of_dom.
      * destruct (Hin x Hx) as (Hdom & r' & m & ? & ? & ?). split; [done|]. exists r', m. split_and!; done || lia.
Qed.

Lemma derefs_short c n d : derefs h c n d -> (n < deref_fuel h)%nat.
Proof.
  intros (l & <- & Hnd & Hin)%derefs_path. unfold deref_fuel. rewrite <-size_dom.
  assert (length l <= size (dom (h_cells h)))%nat; [|lia].
  rewrite <-(size_list_to_set (C := gset Z) l) by done. apply subseteq_size.
  intros x Hx%elem_of_list_to_set. by apply Hin.
Qed.

Lemma deref_loop_eq fuel c n d cost :
  derefs h c n d -> (n < fuel)%nat -> exists cost', deref_loop fuel h c cost = Ok (d, cost').
Proof.
  intros H. revert fuel cost. induction H as [c Hc|c Hc Hs|c r n d Hc Hr Hne H IH];
    intros [|fuel] cost Hf; try lia; cbn [deref_loop]; rewrite Hc.
  - by eexists.
  - rewrite Hs, Ok_bind, Z.eqb_refl. by eexists.
  - rewrite Hr, Ok_bind, (proj2 (Z.eqb_neq r c)) by done. apply IH. lia.
Qed.

Lemma derefs_deref_with_cost c n d :
  derefs h c n d -> exists cost, deref_with_cost h c = Ok (d, cost).
Proof. intros H. eapply deref_loop_eq; [done|by eapply derefs_short]. Qed.

Lemma derefs_deref c n d : derefs h c n d -> deref h c = Ok d.
Proof. intros [cost H]%derefs_deref_with_cost. unfold deref. by rewrite H. Qed.

End derefs.

(** ** Heaps that follow a layout *)

(** [F]: the forwarding pointers in place, from functor cell to functor cell. *)
Record heap_ok (L : layout) (F : gmap Z Z) (h : heap) : Prop := HeapOk {
  ho_size : h_size h = ly_size L;
  ho_blocks : h_blocks h = ly_blocks L;
  ho_fn : forall s f, ly_fn L !! s = Some f ->
    h_cells h !! s = Some (match F !! s with Some j => fwd_cell j | None => f end);
  ho_fwd : forall s j, F !! s = Some j ->
    exists f, ly_fn L !! s = Some f /\ ly_fn L !! j = Some f;
  ho_vals : forall v, v ∈ ly_vals L -> exists c n d, h_cells h !! v = Some c /\ good L c /\ derefs h c n d;
  ho_dat : ly_dat L ⊆ h_cells h
}.

Section heap_ok.
Context (L : layout) (HL : layout_ok L).
Implicit Types (F : gmap Z Z) (h : heap).

Lemma heap_get_Ok h i c :
  h_size h = ly_size L -> in_heap L i -> h_cells h !! i = Some c -> heap_get h i = Ok c.
Proof.
  intros Hs [Hi _] Hc. unfold heap_get, check_index. rewrite Hs. unfold require.
  rewrite (proj2 (Z.ltb_lt i _)), Ok_bind by lia. by rewrite Hc.
Qed.

Lemma heap_get_inv h i c : heap_get h i = Ok c -> h_cells h !! i = Some c.
Proof. intros (u & _ & H)%bind_Ok. by apply of_option_Ok in H. Qed.

Lemma heap_set_Ok h i c :
  h_blocks h = ly_blocks L -> in_heap L i -> heap_set h i c = Ok (with_cells h (<[i := c]> (h_cells h))).
Proof.
  intros Hb [_ Hi]. unfold heap_set, block_exists, require. rewrite Hb.
  by rewrite (proj2 (Z.ltb_lt _ _) Hi), Ok_bind.
Qed.

Lemma val_get F h v : heap_ok L F h -> v ∈ ly_vals L -> exists c, heap_get h v = Ok c /\ h_cells h !! v = Some c /\ good L c.
Proof.
  intros Hok Hv. destruct (ho_vals _ _ _ Hok v Hv) as (c & n & d & Hc & Hg & _).
  exists c. split; [|done]. apply heap_get_Ok; [apply Hok|by apply (lo_vals _ HL)|done].
Qed.

Lemma good_ref c : good L c -> is_ref (cell_tag c) = true -> ptr_index c ∈ ly_vals L.
Proof. intros [_ H] Hr. apply is_ref_true in Hr as [Hr|Hr]; by rewrite Hr in H. Qed.

(** Every good cell has an end of its chain. *)
Lemma good_derefs F h c : heap_ok L F h -> good L c -> exists n d, derefs h c n d /\ good L d.
Proof.
  intros Hok Hc.
  assert (Hchain : forall c n d, derefs h c n d -> good L c -> good L d).
  { clear c Hc. induction 1 as [c Hr|c Hr Hs|c r n d Hr Hget Hne H IH]; intros Hg; [done..|].
    apply IH. destruct (val_get F h (ptr_index c) Hok (good_ref c Hg Hr)) as (c' & Hc' & _ & Hg').
    rewrite Hget in Hc'. by injection Hc' as ->. }
  assert (He : exists n d, derefs h c n d).
  { destruct (is_ref (cell_tag c)) eqn:Hr; [|exists 0%nat, c; by constructor].
    pose proof (good_ref c Hc Hr) as Hv.
    destruct (ho_vals _ _ _ Hok _ Hv) as (r & n & d & Hget & Hg & Hd).
    apply (heap_get_Ok h) in Hget; [|apply Hok|by apply (lo_vals _ HL)].
    destruct (decide (r = c)) as [->|Hne].
    - exists 0%nat, c. by constructor.
    - exists (S n), d. by eapply derefs_step. }
  destruct He as (n & d & Hd). exists n, d. split; [done|]. by eapply Hchain.
Qed.

Lemma derefs_good F h c n d : heap_ok L F h -> good L c -> derefs h c n d -> good L d.
Proof.
  intros Hok Hc Hd. destruct (good_derefs F h c Hok Hc) as (n' & d' & Hd' & Hg).
  by destruct (derefs_det _ _ _ _ _ _ Hd Hd') as [-> ->].
Qed.

(** The end of a chain is no reference or a variable that refers to itself. *)
Lemma derefs_var F h c n d :
  heap_ok L F h -> derefs h c n d -> is_ref (cell_tag d) = true -> h_cells h !! ptr_index d = Some d.
Proof.
  intros Hok Hd Hr. destruct (derefs_end_cases _ _ _ _ Hd) as [H|[_ H]]; [congruence|].
  by apply heap_get_inv.
Qed.

(** Chains only read value cells. *)
Lemma derefs_agree F h h' c n d :
  heap_ok L F h -> h_size h' = h_size h ->
  (forall v, v ∈ ly_vals L -> h_cells h' !! v = h_cells h !! v) ->
  good L c -> derefs h c n d -> derefs h' c n d.
Proof.
  intros Hok Hs Hag Hg Hd. revert Hg. induction Hd as [c Hr|c Hr Hself|c r n d Hr Hget Hne H IH]; intros Hg.
  - by constructor.
  - apply derefs_self; [done|]. pose proof (good_ref c Hg Hr) as Hv.
    apply heap_get_Ok; [rewrite Hs; apply Hok|by apply (lo_vals _ HL)|].
    rewrite Hag by done. by apply heap_get_inv.
  - pose proof (good_ref c Hg Hr) as Hv. apply derefs_step with r; [done| |done|].
    + apply heap_get_Ok; [rewrite Hs; apply Hok|by apply (lo_vals _ HL)|].
      rewrite Hag by done. by apply heap_get_inv.
    + apply IH. destruct (val_get F h _ Hok Hv) as (c' & Hc' & _ & Hg'). rewrite Hget in Hc'.
      by injection Hc' as ->.
Qed.

(** Overwriting the variable [s] at address [i] by [b]. *)
Section redirect.
Context (h : heap) (i s b : Z).
Hypothesis Hs : heap_get h i = Ok s.
Hypothesis Hsr : is_ref (cell_tag s) = true.
Hypothesis Hsi : ptr_index s = i.
Hypothesis Hi : in_heap L i.
Hypothesis Hsz : h_size h = ly_size L.
Let h' := with_cells h (<[i := b]> (h_cells h)).

Lemma redirect_get : heap_get h' i = Ok b.
Proof. apply heap_get_Ok; [done|done|]. apply lookup_insert_eq. Qed.

Lemma redirect_other k : k <> i -> heap_get h' k = heap_get h k.
Proof. intros Hk. unfold heap_get, check_index. cbn. by rewrite lookup_insert_ne. Qed.

Lemma derefs_var_end c n d : derefs h c n d -> is_ref (cell_tag c) = true -> ptr_index c = i -> d = s.
Proof.
  intros H Hr Hc. inversion H; simplify_eq; [congruence|congruence|].
  assert (r = s) as -> by congruence.
  match goal with H' : derefs h s _ d |- _ => inversion H'; simplify_eq; congruence end.
Qed.

(** Chains that end elsewhere stay. *)
Lemma derefs_keep c n d : derefs h c n d -> d <> s -> derefs h' c n d.
Proof.
  induction 1 as [c Hr|c Hr Hself|c r n d Hr Hget Hrc H IH]; intros Hd.
  - by constructor.
  - apply derefs_self; [done|]. rewrite redirect_other; [done|]. intros He.
    rewrite He, Hs in Hself. congruence.
  - apply derefs_step with r; [done| |done|by apply IH]. rewrite redirect_other; [done|]. intros He.
    apply Hd. eapply derefs_var_end; [|done|exact He]. by eapply derefs_step.
Qed.

(** Chains that ended in [s] end where [b] does. *)
Lemma derefs_moved c n m e :
  derefs h c n s -> (is_ref (cell_tag b) = true -> ptr_index b = i -> b = e) -> b <> s ->
  derefs h' b m e -> exists n', derefs h' c n' e.
Proof.
  intros H Hbi Hne Hb.
  assert (Hvia : forall c, is_ref (cell_tag c) = true -> ptr_index c = i -> exists n, derefs h' c n e).
  { intros c0 Hr Hc. destruct (decide (c0 = b)) as [->|Hcb]; [by exists m|].
    exists (S m). apply derefs_step with b; [done|by rewrite Hc, redirect_get|done|done]. }
  enough (Hall : forall c n d, derefs h c n d -> d = s -> exists n', derefs h' c n' e) by eauto.
  clear c n H. induction 1 as [c Hr|c Hr Hself|c r n d Hr Hget Hrc H IH]; intros Hd.
  - congruence.
  - apply Hvia; congruence.
  - destruct (decide (ptr_index c = i)) as [Hci|Hci]; [by apply Hvia|].
    destruct (IH Hd) as [n' Hn']. exists (S n').
    eapply derefs_step; [done|by rewrite redirect_other|done|done].
Qed.

End redirect.

End heap_ok.
