(* ===== verification/UnifySpec.v ===== *)
(** * The invariant of the unification loop

    A unifier of two cells is an equivalence of cells that contains them, follows
    the bindings of the heap and respects structure ([unifier]).  The loop keeps
    the least such equivalence in the form [ceq]: generated by the bindings made
    so far, the forwarding pointers and the pairs still on the stack. *)

From S2P Require Import Prelude Cells Heap Bigs TermEnv HeapSpec.

Section spec.
Context (import_bits : list Z -> Z).
Context (L : layout) (HL : layout_ok L).
Implicit Types (F : gmap Z Z) (h : heap) (P : list (Z * Z)) (Q : Z -> Z -> Prop).

(** ** Unifiers *)

Definition same_big (c d : Z) : Prop :=
  exists n bs bs', big_value (dat_heap L) c n bs /\ big_value (dat_heap L) d n bs' /\
    good L c /\ good L d /\ import_bits bs = import_bits bs'.

(** Cells that are not references and denote equal terms, the arguments being
    related by [Q]; [m] holds the arguments. *)
Definition agree (m : gmap Z Z) Q (c d : Z) : Prop :=
  c = d \/ same_big c d \/
  (cell_tag c = STR /\ cell_tag d = STR /\
   ly_fn L !! ptr_index c = ly_fn L !! ptr_index d /\
   forall f k x y, ly_fn L !! ptr_index c = Some f -> 0 <= k < con_arity f ->
     m !! (ptr_index c + 1 + k) = Some x -> m !! (ptr_index d + 1 + k) = Some y -> Q x y).

Record unifier (m : gmap Z Z) Q : Prop := Unifier {
  un_refl : forall c, Q c c;
  un_sym : forall c d, Q c d -> Q d c;
  un_trans : forall c d e, Q c d -> Q d e -> Q c e;
  un_var : forall c x, good L c -> is_ref (cell_tag c) = true ->
    m !! ptr_index c = Some x -> Q c x;
  un_agree : forall c d, good L c -> good L d -> Q c d ->
    is_ref (cell_tag c) = false -> is_ref (cell_tag d) = false -> agree m Q c d
}.

Definition unifiable (m : gmap Z Z) (a b : Z) : Prop := exists Q, unifier m Q /\ Q a b.

(** ** The equivalence of a state *)

Inductive ceq (h : heap) F P : Z -> Z -> Prop :=
  | ceq_refl c : ceq h F P c c
  | ceq_sym c d : ceq h F P c d -> ceq h F P d c
  | ceq_trans c d e : ceq h F P c d -> ceq h F P d e -> ceq h F P c e
  | ceq_pend a b : (a, b) ∈ P -> ceq h F P a b
  | ceq_deref c n d : good L c -> derefs h c n d -> ceq h F P c d
  | ceq_fwd s j : F !! s = Some j -> ceq h F P (str_cell s) (str_cell j)
  | ceq_big c d : same_big c d -> ceq h F P c d.

Lemma ceq_mono h F P h' F' P' x y :
  (forall a b, (a, b) ∈ P -> ceq h' F' P' a b) ->
  (forall c n d, good L c -> derefs h c n d -> ceq h' F' P' c d) ->
  F ⊆ F' ->
  ceq h F P x y -> ceq h' F' P' x y.
Proof.
  intros HP Hd HF. induction 1; eauto using ceq_refl, ceq_sym, ceq_trans, ceq_big.
  apply ceq_fwd. by eapply lookup_weaken.
Qed.

(** ** Variables *)

Definition self_var (v c : Z) : Prop := is_word 64 c /\ is_ref (cell_tag c) = true /\ ptr_index c = v.

Lemma self_var_cases v c : self_var v c -> c = ref_cell v \/ c = ref_cell_watched v.
Proof.
  intros (Hw & Hr & <-). pose proof (cell_tag_value c Hw) as E.
  apply is_ref_true in Hr as [Hr|Hr]; rewrite Hr in E; [left|right]; done.
Qed.

Lemma self_var_ref v : is_index v -> self_var v (ref_cell v).
Proof.
  intros. split; [apply mk_cell_word|]. unfold ref_cell, ptr_index.
  by rewrite cell_tag_mk, cell_value_mk.
Qed.
Lemma self_var_watched v : is_index v -> self_var v (ref_cell_watched v).
Proof.
  intros. split; [apply mk_cell_word|]. unfold ref_cell_watched, ptr_index.
  by rewrite cell_tag_mk, cell_value_mk.
Qed.

Lemma self_var_good v c : v ∈ ly_vals L -> self_var v c -> good L c.
Proof.
  intros Hv (Hw & Hr & Hp). split; [done|]. apply is_ref_true in Hr as [-> | ->]; by rewrite Hp.
Qed.

Lemma str_cell_spec s : is_index s -> cell_tag (str_cell s) = STR /\ ptr_index (str_cell s) = s.
Proof. intros. unfold str_cell, ptr_index. by rewrite cell_tag_mk, cell_value_mk. Qed.

Lemma fn_index s f : ly_fn L !! s = Some f -> is_index s.
Proof. intros H. by destruct (lo_fn _ HL s f H) as (_ & ? & _). Qed.

Lemma str_cell_good s f : ly_fn L !! s = Some f -> good L (str_cell s).
Proof.
  intros H. destruct (str_cell_spec s (fn_index s f H)) as [Ht Hp]. split; [apply mk_cell_word|].
  rewrite Ht, Hp. eauto.
Qed.

Lemma str_cell_eq c : good L c -> cell_tag c = STR -> c = str_cell (ptr_index c).
Proof.
  intros [Hw _] Ht. unfold str_cell, ptr_index. rewrite <-Ht. symmetry. by apply cell_tag_value.
Qed.

Lemma str_not_ref s : is_index s -> is_ref (cell_tag (str_cell s)) = false.
Proof. intros H. by destruct (str_cell_spec s H) as [-> _]. Qed.

Lemma same_big_tags c d : same_big c d -> cell_tag c = BIG /\ cell_tag d = BIG.
Proof. intros (n & bs & bs' & (Hc & _) & (Hd & _) & _). done. Qed.

Lemma big_value_det h c n bs n' bs' : big_value h c n bs -> big_value h c n' bs' -> n = n' /\ bs = bs'.
Proof. intros (_ & H1 & _ & H2) (_ & H3 & _ & H4). split; congruence. Qed.

Lemma same_big_sym c d : same_big c d -> same_big d c.
Proof. intros (n & bs & bs' & H). exists n, bs', bs. intuition. Qed.
Lemma same_big_trans c d e : same_big c d -> same_big d e -> same_big c e.
Proof.
  intros (n & bs & bs' & Hc & Hd & Gc & Gd & H) (n2 & bs2 & bs2' & Hd2 & He & _ & Ge & H2).
  destruct (big_value_det _ _ _ _ _ _ Hd Hd2) as [<- <-].
  exists n, bs, bs2'. split_and!; congruence || done.
Qed.

(** ** Forwarding chains *)

Inductive fchain F : Z -> nat -> Z -> Prop :=
  | fchain_root s : F !! s = None -> fchain F s 0 s
  | fchain_step s j n r : F !! s = Some j -> fchain F j n r -> fchain F s (S n) r.

Lemma fchain_end F s n r : fchain F s n r -> F !! r = None.
Proof. by induction 1. Qed.

Lemma fchain_add F s n r i j :
  fchain F s n r -> F !! i = None -> F !! j = None -> i <> j ->
  exists n', fchain (<[i := j]> F) s n' (if decide (r = i) then j else r) /\ (n' <= S n)%nat.
Proof.
  intros H Hi Hj Hij. induction H as [s Hs|s k n r Hs H IH].
  - destruct (decide (s = i)) as [->|].
    + exists 1%nat. split; [|lia]. eapply fchain_step; [by rewrite lookup_insert_eq|].
      apply fchain_root. by rewrite lookup_insert_ne.
    + exists 0%nat. split; [|lia]. apply fchain_root. by rewrite lookup_insert_ne.
  - destruct IH as (n' & IH & Hn'). exists (S n'). split; [|lia].
    eapply fchain_step; [|done]. rewrite lookup_insert_ne; congruence.
Qed.

(** ** The states of the loop *)

(** [h0]: the heap at the start; [a0], [b0]: the cells to unify; [T]: the
    addresses bound so far. *)
Record inv (h0 : gmap Z Z) (a0 b0 : Z) (h : heap) F P (T : list Z) : Prop := Inv {
  in_ok : heap_ok L F h;
  in_chains : forall s, is_Some (ly_fn L !! s) -> exists n r, fchain F s n r /\ (n <= size F)%nat;
  in_pend : forall p, p ∈ P -> good L p.1 /\ good L p.2;
  in_bound : forall v c0 c, v ∈ ly_vals L -> h0 !! v = Some c0 -> h_cells h !! v = Some c ->
    c = c0 \/ (self_var v c0 /\ (v ∈ T \/ self_var v c));
  in_args : forall s j f k x y, F !! s = Some j -> ly_fn L !! s = Some f -> 0 <= k < con_arity f ->
    h_cells h !! (s + 1 + k) = Some x -> h_cells h !! (j + 1 + k) = Some y -> ceq h F P x y;
  in_pairs : forall Q, unifier h0 Q -> Q a0 b0 -> forall p, p ∈ P -> Q p.1 p.2;
  in_links : forall Q, unifier h0 Q -> Q a0 b0 -> forall s j, F !! s = Some j ->
    Q (str_cell s) (str_cell j);
  in_binds : forall Q, unifier h0 Q -> Q a0 b0 -> forall v c, v ∈ ly_vals L ->
    h_cells h !! v = Some c -> Q (ref_cell v) c;
  in_goal : ceq h F P a0 b0;
  in_trail : forall v, v ∈ T -> v ∈ ly_vals L /\ forall c0, h0 !! v = Some c0 -> self_var v c0;
  in_dom : forall v, v ∈ ly_vals L -> is_Some (h0 !! v)
}.

Section inv.
Context (h0 : gmap Z Z) (a0 b0 : Z).

(** A unifier relates every cell to the end of its chain. *)
Lemma unifier_derefs h F P T Q c n d :
  inv h0 a0 b0 h F P T -> unifier h0 Q -> Q a0 b0 -> good L c -> derefs h c n d -> Q c d.
Proof.
  intros Hinv HQ Hab Hg Hd. revert Hg.
  induction Hd as [c Hr|c Hr Hself|c r n d Hr Hget Hne Hd IH]; intros Hg; [apply HQ|apply HQ|].
  pose proof (good_ref L c Hg Hr) as Hv. apply (un_trans _ _ HQ _ r).
  - destruct (in_dom _ _ _ _ _ _ _ Hinv _ Hv) as [x Hx].
    pose proof (un_var _ _ HQ c x Hg Hr Hx) as H1.
    assert (H2 : Q (ref_cell (ptr_index c)) x).
    { destruct (self_var_ref (ptr_index c)) as (Hw & Hr' & Hp); [by apply (lo_vals _ HL)|].
      apply (un_var _ _ HQ); [|done|by rewrite Hp]. by apply (self_var_good (ptr_index c)). }
    apply (un_trans _ _ HQ _ x); [done|]. apply (un_trans _ _ HQ _ (ref_cell (ptr_index c)));
      [by apply (un_sym _ _ HQ)|].
    eapply in_binds; [done..|]. by apply heap_get_inv.
  - apply IH. destruct (val_get L HL F h _ (in_ok _ _ _ _ _ _ _ Hinv) Hv) as (c' & Hc' & _ & Hg').
    rewrite Hget in Hc'. by injection Hc' as ->.
Qed.

(** Along a forwarding chain everything agrees. *)
Lemma chain_fn h F s n r : heap_ok L F h -> fchain F s n r -> is_Some (ly_fn L !! s) -> ly_fn L !! r = ly_fn L !! s.
Proof.
  intros Hok. induction 1 as [s Hs|s j n r Hs H IH]; intros Hf; [done|].
  destruct (ho_fwd _ _ _ Hok s j Hs) as (f & H1 & H2). rewrite IH by eauto. congruence.
Qed.

Lemma chain_ceq h F P s n r : fchain F s n r -> ceq h F P (str_cell s) (str_cell r).
Proof. induction 1; eauto using ceq_refl, ceq_trans, ceq_fwd. Qed.

Lemma chain_unifier h F P T Q s n r :
  inv h0 a0 b0 h F P T -> unifier h0 Q -> Q a0 b0 -> fchain F s n r -> Q (str_cell s) (str_cell r).
Proof.
  intros Hinv HQ Hab. induction 1 as [s Hs|s j n r Hs H IH]; [apply HQ|].
  eapply (un_trans _ _ HQ); [|done]. by eapply in_links.
Qed.

Lemma fn_arg s f k : ly_fn L !! s = Some f -> 0 <= k < con_arity f -> s + 1 + k ∈ ly_vals L.
Proof. intros Hf. destruct (lo_fn _ HL s f Hf) as (_ & _ & _ & _ & _ & H). apply H. Qed.

Lemma arg_cell h F s f k :
  heap_ok L F h -> ly_fn L !! s = Some f -> 0 <= k < con_arity f ->
  exists x, heap_get h (s + 1 + k) = Ok x /\ h_cells h !! (s + 1 + k) = Some x /\ good L x.
Proof. intros Hok Hf Hk. eapply val_get; [done|done|]. by eapply fn_arg. Qed.

Lemma chain_args h F P T s n r f k x y :
  inv h0 a0 b0 h F P T -> fchain F s n r -> ly_fn L !! s = Some f -> 0 <= k < con_arity f ->
  h_cells h !! (s + 1 + k) = Some x -> h_cells h !! (r + 1 + k) = Some y -> ceq h F P x y.
Proof.
  intros Hinv H. revert x. induction H as [s Hs|s j n r Hs H IH]; intros x Hf Hk Hx Hy.
  - rewrite Hx in Hy. injection Hy as ->. apply ceq_refl.
  - destruct (ho_fwd _ _ _ (in_ok _ _ _ _ _ _ _ Hinv) s j Hs) as (f' & H1 & H2).
    rewrite Hf in H1. injection H1 as <-.
    destruct (arg_cell h F j f k (in_ok _ _ _ _ _ _ _ Hinv) H2 Hk) as (z & _ & Hz & _).
    apply (ceq_trans _ _ _ _ z); [by eapply in_args|by apply IH].
Qed.

(** ** Steps that keep the invariant *)

Lemma derefs_same h h' c n d :
  h_cells h' = h_cells h -> h_size h' = h_size h -> derefs h c n d -> derefs h' c n d.
Proof.
  intros Hc Hs. assert (Hg : forall i, heap_get h' i = heap_get h i).
  { intros i. unfold heap_get, check_index. by rewrite Hc, Hs. }
  induction 1; [by constructor|by apply derefs_self; rewrite ?Hg|].
    eapply derefs_step; rewrite ?Hg; eauto.
Qed.

(** Only the cells and the layout of the heap matter. *)
Lemma inv_same h h' F P T :
  h_cells h' = h_cells h -> h_size h' = h_size h -> h_blocks h' = h_blocks h ->
  inv h0 a0 b0 h F P T -> inv h0 a0 b0 h' F P T.
Proof.
  intros Hc Hs Hb Hinv. pose proof (in_ok _ _ _ _ _ _ _ Hinv) as Hok.
  assert (Hceq : forall x y, ceq h F P x y -> ceq h' F P x y).
  { intros x y. apply ceq_mono; [intros; by apply ceq_pend| |done].
    intros c n d ? ?. eapply ceq_deref; [done|]. by eapply derefs_same. }
  assert (Hok' : heap_ok L F h').
  { destruct Hok as [H1 H2 H3 H4 H5 H6]. split; rewrite ?Hc, ?Hs, ?Hb; try done.
    intros v Hv. destruct (H5 v Hv) as (c & n & d & ? & ? & ?). exists c, n, d.
    split_and!; try done. by eapply derefs_same. }
  destruct Hinv. split; try done; rewrite ?Hc; auto. intros. apply Hceq. eauto.
Qed.

(** Pairs that are already related may be dropped. *)
Lemma inv_sub h F P P' T :
  inv h0 a0 b0 h F P T -> (forall p, p ∈ P' -> p ∈ P) ->
  (forall a b, (a, b) ∈ P -> ceq h F P' a b) -> inv h0 a0 b0 h F P' T.
Proof.
  intros Hinv Hsub Hcov. pose proof Hinv as [K1 K2 K3 K4 K5 K6 K7 K8 K9 K10 K11].
  assert (Hceq : forall x y, ceq h F P x y -> ceq h F P' x y).
  { intros x y. apply ceq_mono; [done|intros; by eapply ceq_deref|done]. }
  split; try done.
  - intros p Hp. by apply K3, Hsub.
  - intros s j f k x y ? ? ? ? ?. apply Hceq. by eapply (K5 s j f k).
  - intros Q HQ Hab p Hp. by apply (K6 Q HQ Hab), Hsub.
  - by apply Hceq.
Qed.

Lemma inv_drop h F P T a b :
  inv h0 a0 b0 h F ((a, b) :: P) T -> ceq h F P a b -> inv h0 a0 b0 h F P T.
Proof.
  intros Hinv Hab. eapply inv_sub; [done|intros; by apply elem_of_cons; right|].
  intros c d [[= -> ->]|?]%elem_of_cons; [done|by apply ceq_pend].
Qed.

Definition put_cell (h : heap) (i b : Z) : heap := with_cells h (<[i := b]> (h_cells h)).

Lemma rebind_inv h F P T i s b n e T' (h' := put_cell h i b) :
  inv h0 a0 b0 h F P T -> i ∈ ly_vals L -> h_cells h !! i = Some s -> self_var i s ->
  good L b -> derefs h' b n e ->
  (forall c n, derefs h c n s -> exists n', derefs h' c n' e) ->
  (forall c n d, derefs h c n d -> d <> s -> derefs h' c n d) ->
  (forall v, v ∈ T -> v ∈ T') -> (forall v, v ∈ T' -> v ∈ T \/ v = i) -> i ∈ T' \/ self_var i b ->
  (forall Q, unifier h0 Q -> Q a0 b0 -> Q (ref_cell i) b) ->
  inv h0 a0 b0 h' F P T'.
Proof.
  intros [] Hi Hs Hself Hb Hbe Hmove Hkeep HT HT' HiT HQi.
  assert (Hss : derefs h s 0 s).
  { apply derefs_self; [apply Hself|]. destruct Hself as (_ & _ & ->).
    apply (heap_get_Ok L); [apply in_ok0|by apply (lo_vals _ HL)|done]. }
  assert (Hsb : ceq h' F P s b).
  { destruct (Hmove s 0%nat Hss) as [n' Hn']. apply (ceq_trans _ _ _ _ e).
    - eapply ceq_deref; [|done]. by apply (self_var_good i).
    - apply ceq_sym. by eapply ceq_deref. }
  assert (Hceq : forall x y, ceq h F P x y -> ceq h' F P x y).
  { intros x y. apply ceq_mono; [intros; by apply ceq_pend| |done].
    intros c m d Hc Hd. destruct (decide (d = s)) as [->|Hne].
    - destruct (Hmove c m Hd) as [m' Hm']. destruct (Hmove s 0%nat Hss) as [n' Hn'].
      apply (ceq_trans _ _ _ _ e); [by eapply ceq_deref|]. apply ceq_sym.
      eapply ceq_deref; [|done]. by apply (self_var_good i).
    - eapply ceq_deref; [done|]. by apply Hkeep. }
  assert (Hcell : forall v c, h_cells h' !! v = Some c -> exists c', h_cells h !! v = Some c' /\ ceq h' F P c' c).
  { intros v c. cbn. rewrite lookup_insert. destruct (decide (i = v)) as [<-|Hne].
    - intros [= <-]. eauto.
    - intros Hc. exists c. split; [done|]. apply ceq_refl. }
  split; try done; eauto.
  - destruct in_ok0 as [K1 K2 K3 K4 K5 K6]. split; try done.
    + intros s' f Hf. cbn. rewrite lookup_insert_ne; [by apply K3|]. intros ->.
      destruct (lo_fn _ HL _ _ Hf) as (_ & _ & ? & _). done.
    + intros v Hv. cbn. rewrite lookup_insert. destruct (decide (i = v)) as [<-|Hne].
      * exists b, n, e. done.
      * destruct (K5 v Hv) as (c & m & d & Hc & Hg & Hd). exists c.
        destruct (decide (d = s)) as [->|Hds].
        -- destruct (Hmove c m Hd) as [m' Hm']. exists m', e. done.
        -- exists m, d. split_and!; [done..|]. by apply Hkeep.
    + apply insert_subseteq_r; [|done]. destruct (ly_dat L !! i) eqn:E; [|done].
      destruct (lo_dat _ HL i) as [? _]; [by eexists|done].
  - intros v c0 c Hv Hc0. cbn. rewrite lookup_insert. destruct (decide (i = v)) as [<-|Hne].
    + intros [= <-]. right. destruct (in_bound0 i c0 s Hi Hc0 Hs) as [<-|[Hc0s _]]; split; auto.
    + intros Hc. destruct (in_bound0 v c0 c Hv Hc0 Hc) as [->|[? [?|?]]]; auto.
  - intros s' j f k x y Hsj Hf Hk Hx Hy.
    destruct (Hcell _ _ Hx) as (x' & Hx' & Hxx). destruct (Hcell _ _ Hy) as (y' & Hy' & Hyy).
    apply (ceq_trans _ _ _ _ x'); [by apply ceq_sym|]. apply (ceq_trans _ _ _ _ y'); [|done].
    apply Hceq. by eapply in_args0.
  - intros Q HQ Hab v c Hv. cbn. rewrite lookup_insert. destruct (decide (i = v)) as [<-|Hne].
    + intros [= <-]. by apply HQi.
    + intros Hc. by eapply in_binds0.
  - intros v Hv. destruct (HT' v Hv) as [?| ->]; [by apply in_trail0|]. split; [done|].
    intros c0 Hc0. by destruct (in_bound0 i c0 s Hi Hc0 Hs) as [<-|[? _]].
Qed.

(** Binding the variable [s] at [i] to [b]. *)
Lemma bind_inv h F P T i s b nb eb :
  inv h0 a0 b0 h F P T -> i ∈ ly_vals L -> h_cells h !! i = Some s -> self_var i s ->
  good L b -> derefs h b nb eb -> eb <> s ->
  (forall Q, unifier h0 Q -> Q a0 b0 -> Q s b) ->
  inv h0 a0 b0 (put_cell h i b) F P (T ++ [i]) /\
  forall c n d, derefs h c n d -> exists n', derefs (put_cell h i b) c n' (if decide (d = s) then eb else d).
Proof.
  intros Hinv Hi Hs Hself Hb Hd Hne HQ. pose proof Hself as (Hw & Hr & Hp).
  destruct (lo_vals _ HL i Hi) as [Hin Hidx]. pose proof (in_ok _ _ _ _ _ _ _ Hinv) as Hok.
  assert (Hget : heap_get h i = Ok s) by (apply (heap_get_Ok L); [apply Hok|done..]).
  assert (Hss : derefs h s 0 s) by (apply derefs_self; [done|by rewrite Hp]).
  assert (Hbs : b <> s).
  { intros ->. destruct (derefs_det _ _ _ _ _ _ Hd Hss). congruence. }
  assert (Hkeep : forall c n d, derefs h c n d -> d <> s -> derefs (put_cell h i b) c n d).
  { intros. by apply (derefs_keep L h i s b Hget Hr Hp Hin). }
  assert (Hbe : derefs (put_cell h i b) b nb eb) by auto.
  assert (Hmove : forall c n, derefs h c n s -> exists n', derefs (put_cell h i b) c n' eb).
  { intros c n Hc. eapply (derefs_moved L h i s b Hr Hp Hin (ho_size _ _ _ Hok)); [done| |done|done].
    intros Hbr Hbi. exfalso. apply Hne. by eapply (derefs_var_end L h i s b Hget Hr Hp Hin). }
  split.
  - eapply rebind_inv; try done.
    + intros v Hv. apply elem_of_app. by left.
    + intros v [?| ->%list_elem_of_singleton]%elem_of_app; auto.
    + left. apply elem_of_app. right. by apply list_elem_of_singleton.
    + intros Q HQ' Hab. apply (un_trans _ _ HQ' _ s); [|by apply HQ].
      destruct (in_dom _ _ _ _ _ _ _ Hinv i Hi) as [x Hx].
      apply (un_trans _ _ HQ' _ x).
      * apply (un_var _ _ HQ'); [by apply (self_var_good i), self_var_ref| |].
        -- by apply self_var_ref.
        -- by destruct (self_var_ref i Hidx) as (_ & _ & ->).
      * apply (un_sym _ _ HQ'). apply (un_var _ _ HQ'); [by apply (self_var_good i)|done|by rewrite Hp].
  - intros c n d Hc. destruct (decide (d = s)) as [->|Hds]; [by eapply Hmove|exists n; auto].
Qed.

(** Setting the watch bit of a variable. *)
Lemma watch_inv h F P T i s :
  inv h0 a0 b0 h F P T -> i ∈ ly_vals L -> h_cells h !! i = Some s -> self_var i s ->
  inv h0 a0 b0 (put_cell h i (ref_cell_watched i)) F P T /\
  forall c n d, derefs h c n d ->
    exists n', derefs (put_cell h i (ref_cell_watched i)) c n' (if decide (d = s) then ref_cell_watched i else d).
Proof.
  intros Hinv Hi Hs Hself. pose proof Hself as (Hw & Hr & Hp).
  destruct (lo_vals _ HL i Hi) as [Hin Hidx]. pose proof (in_ok _ _ _ _ _ _ _ Hinv) as Hok.
  pose proof (self_var_watched i Hidx) as Hwv. set (b := ref_cell_watched i) in *.
  assert (Hget : heap_get h i = Ok s) by (apply (heap_get_Ok L); [apply Hok|done..]).
  destruct (decide (s = b)) as [->|Hne].
  { assert (put_cell h i b = h) as ->.
    { unfold put_cell. rewrite insert_id by done. by destruct h. }
    split; [done|]. intros c n d Hc. exists n. by destruct (decide (d = b)) as [->|]. }
  assert (Hkeep : forall c n d, derefs h c n d -> d <> s -> derefs (put_cell h i b) c n d).
  { intros. by apply (derefs_keep L h i s b Hget Hr Hp Hin). }
  assert (Hbe : derefs (put_cell h i b) b 0 b).
  { destruct Hwv as (_ & Hbr & Hbp). apply derefs_self; [done|]. rewrite Hbp.
    apply (redirect_get L); [done|apply Hok]. }
  assert (Hmove : forall c n, derefs h c n s -> exists n', derefs (put_cell h i b) c n' b).
  { intros c n Hc. by eapply (derefs_moved L h i s b Hr Hp Hin (ho_size _ _ _ Hok)). }
  split.
  - eapply rebind_inv; try done; [by apply (self_var_good i)|auto|by right|].
    intros Q HQ' Hab. destruct (in_dom _ _ _ _ _ _ _ Hinv i Hi) as [x Hx].
    apply (un_trans _ _ HQ' _ x).
    + apply (un_var _ _ HQ'); [by apply (self_var_good i), self_var_ref| |].
      * by apply self_var_ref.
      * by destruct (self_var_ref i Hidx) as (_ & _ & ->).
    + apply (un_sym _ _ HQ'). destruct Hwv as (? & ? & Hbp).
      apply (un_var _ _ HQ'); [by apply (self_var_good i)|done|by rewrite Hbp].
  - intros c n d Hc. destruct (decide (d = s)) as [->|Hds]; [by eapply Hmove|exists n; auto].
Qed.

(** ** Linking two structures *)

Lemma fchain_det F s n r n' r' : fchain F s n r -> fchain F s n' r' -> r = r'.
Proof.
  intros H. revert n' r'. induction H as [s Hs|s j n r Hs H IH]; intros n' r' H';
    inversion H'; simplify_eq; congruence || eauto.
Qed.

Lemma unifier_val h F P T Q v c0 c :
  inv h0 a0 b0 h F P T -> unifier h0 Q -> Q a0 b0 -> v ∈ ly_vals L ->
  h0 !! v = Some c0 -> h_cells h !! v = Some c -> Q c0 c.
Proof.
  intros Hinv HQ Hab Hv Hc0 Hc. destruct (lo_vals _ HL v Hv) as [_ Hidx].
  apply (un_trans _ _ HQ _ (ref_cell v)); [apply (un_sym _ _ HQ)|by eapply in_binds].
  destruct (self_var_ref v Hidx) as (? & ? & Hp).
  apply (un_var _ _ HQ); [by apply (self_var_good v)|done|by rewrite Hp].
Qed.

(** The pairs of arguments of [a] and [b], dereferenced. *)
Definition arg_pair h (a b : Z) (f : Z) (p : Z * Z) : Prop :=
  exists k x y n m, 0 <= k < con_arity f /\ h_cells h !! (ptr_index a + 1 + k) = Some x /\
    h_cells h !! (ptr_index b + 1 + k) = Some y /\ derefs h x n p.1 /\ derefs h y m p.2.

Section link.
Context (h : heap) (F : gmap Z Z) (P : list (Z * Z)) (T : list Z) (a b i j f : Z) (na nb : nat).
Hypothesis Hinv : inv h0 a0 b0 h F P T.
Hypothesis Ha : good L a.
Hypothesis Hb : good L b.
Hypothesis Hat : cell_tag a = STR.
Hypothesis Hbt : cell_tag b = STR.
Hypothesis Hai : fchain F (ptr_index a) na i.
Hypothesis Hbj : fchain F (ptr_index b) nb j.
Hypothesis Hij : i <> j.
Hypothesis Hfi : ly_fn L !! i = Some f.
Hypothesis Hfj : ly_fn L !! j = Some f.
Hypothesis HQ : forall Q, unifier h0 Q -> Q a0 b0 -> Q a b.

Let F' := <[i := j]> F.
Let h' := put_cell h i (fwd_cell j).

Lemma link_fn_a : ly_fn L !! ptr_index a = Some f.
Proof.
  rewrite <-Hfi. symmetry. eapply chain_fn; [apply Hinv|done|]. destruct Ha as [_ H]. by rewrite Hat in H.
Qed.
Lemma link_fn_b : ly_fn L !! ptr_index b = Some f.
Proof.
  rewrite <-Hfj. symmetry. eapply chain_fn; [apply Hinv|done|]. destruct Hb as [_ H]. by rewrite Hbt in H.
Qed.

Lemma link_val v : v ∈ ly_vals L -> h_cells h' !! v = h_cells h !! v.
Proof.
  intros Hv. cbn. apply lookup_insert_ne. intros ->.
  by destruct (lo_fn _ HL _ _ Hfi) as (_ & _ & ? & _).
Qed.

Lemma link_derefs c n d : good L c -> derefs h c n d -> derefs h' c n d.
Proof.
  intros Hg Hd. eapply (derefs_agree L HL F h h'); [apply Hinv|done| |done|done].
  intros v Hv. by apply link_val.
Qed.

Lemma link_heap_ok : heap_ok L F' h'.
Proof.
  pose proof (in_ok _ _ _ _ _ _ _ Hinv) as Hok. destruct Hok as [K1 K2 K3 K4 K5 K6]. split; try done.
  - intros s g Hs. cbn. unfold F'. rewrite !lookup_insert. destruct (decide (i = s)); [done|by apply K3].
  - intros s k. unfold F'. rewrite lookup_insert. destruct (decide (i = s)) as [<-|]; [|by apply K4].
    intros [= <-]. by exists f.
  - intros v Hv. rewrite link_val by done. destruct (K5 v Hv) as (c & n & d & Hc & Hg & Hd).
    exists c, n, d. split_and!; [done..|]. by apply link_derefs.
  - apply insert_subseteq_r; [|done]. destruct (ly_dat L !! i) eqn:E; [|done].
    destruct (lo_dat _ HL i) as [_ H]; [by eexists|congruence].
Qed.

Section pairs.
Context (PA : list (Z * Z)).
Hypothesis HPA : forall p, p ∈ PA -> arg_pair h a b f p.
Hypothesis Hcov : forall k, 0 <= k < con_arity f -> exists p x y n m, p ∈ PA /\
  h_cells h !! (ptr_index a + 1 + k) = Some x /\ h_cells h !! (ptr_index b + 1 + k) = Some y /\
  derefs h x n p.1 /\ derefs h y m p.2.

Lemma link_ceq x y : ceq h F P x y -> ceq h' F' (PA ++ P) x y.
Proof.
  apply ceq_mono.
  - intros c d Hcd. apply ceq_pend, elem_of_app. by right.
  - intros c n d Hg Hd. eapply ceq_deref; [done|]. by apply link_derefs.
  - apply insert_subseteq. by eapply fchain_end.
Qed.

Lemma link_goal : ceq h' F' (PA ++ P) a b.
Proof.
  rewrite (str_cell_eq a), (str_cell_eq b) by done.
  apply (ceq_trans _ _ _ _ (str_cell i)); [apply link_ceq; by eapply chain_ceq|].
  apply (ceq_trans _ _ _ _ (str_cell j)).
  - apply ceq_fwd. apply lookup_insert_eq.
  - apply ceq_sym, link_ceq. by eapply chain_ceq.
Qed.

Lemma link_args k x y :
  0 <= k < con_arity f -> h_cells h !! (i + 1 + k) = Some x -> h_cells h !! (j + 1 + k) = Some y ->
  ceq h' F' (PA ++ P) x y.
Proof.
  intros Hk Hx Hy. destruct (Hcov k Hk) as ([p1 p2] & xa & yb & n & m & Hp & Hxa & Hyb & Hd1 & Hd2).
  assert (Hga : good L xa).
  { destruct (arg_cell h F _ f k (in_ok _ _ _ _ _ _ _ Hinv) link_fn_a Hk) as (z & _ & Hz & Hg). congruence. }
  assert (Hgb : good L yb).
  { destruct (arg_cell h F _ f k (in_ok _ _ _ _ _ _ _ Hinv) link_fn_b Hk) as (z & _ & Hz & Hg). congruence. }
  cbn in Hd1, Hd2.
  apply (ceq_trans _ _ _ _ xa).
  { apply link_ceq, ceq_sym.
    by apply (chain_args h F P T (ptr_index a) na i f k xa x Hinv Hai link_fn_a Hk). }
  apply (ceq_trans _ _ _ _ p1); [eapply ceq_deref; [done|by apply link_derefs]|].
  apply (ceq_trans _ _ _ _ p2); [apply ceq_pend, elem_of_app; by left|].
  apply (ceq_trans _ _ _ _ yb); [apply ceq_sym; eapply ceq_deref; [done|by apply link_derefs]|].
  apply link_ceq.
  by apply (chain_args h F P T (ptr_index b) nb j f k yb y Hinv Hbj link_fn_b Hk).
Qed.

(** The pairs are in every unifier. *)
Lemma link_pairs Q p : unifier h0 Q -> Q a0 b0 -> p ∈ PA -> Q p.1 p.2.
Proof.
  intros HU Hab Hp. destruct (HPA p Hp) as (k & x & y & n & m & Hk & Hx & Hy & Hd1 & Hd2).
  pose proof (in_ok _ _ _ _ _ _ _ Hinv) as Hok.
  pose proof (fn_arg _ f k link_fn_a Hk) as Hva. pose proof (fn_arg _ f k link_fn_b Hk) as Hvb.
  destruct (in_dom _ _ _ _ _ _ _ Hinv _ Hva) as [x0 Hx0].
  destruct (in_dom _ _ _ _ _ _ _ Hinv _ Hvb) as [y0 Hy0].
  assert (Hxy : Q x0 y0).
  { destruct (un_agree _ _ HU a b) as [->|[Hbig|(_ & _ & _ & Hargs)]];
      [done|done|by apply HQ|by rewrite Hat|by rewrite Hbt| | |].
    - destruct Hij. by eapply fchain_det.
    - apply same_big_tags in Hbig as [? _]. congruence.
    - eapply Hargs; [apply link_fn_a|done..]. }
  assert (Hgx : good L x) by (destruct (arg_cell h F _ f k Hok link_fn_a Hk) as (? & _ & ? & ?); congruence).
  assert (Hgy : good L y) by (destruct (arg_cell h F _ f k Hok link_fn_b Hk) as (? & _ & ? & ?); congruence).
  apply (un_trans _ _ HU _ x0).
  { apply (un_sym _ _ HU), (un_trans _ _ HU _ x);
      [exact (unifier_val h F P T Q _ x0 x Hinv HU Hab Hva Hx0 Hx)|by eapply unifier_derefs]. }
  apply (un_trans _ _ HU _ y0); [done|].
  apply (un_trans _ _ HU _ y);
    [exact (unifier_val h F P T Q _ y0 y Hinv HU Hab Hvb Hy0 Hy)|by eapply unifier_derefs].
Qed.

Lemma link_inv : inv h0 a0 b0 h' F' (PA ++ P) T.
Proof.
  pose proof Hinv as [K1 K2 K3 K4 K5 K6 K7 K8 K9 K10 K11].
  pose proof (fchain_end _ _ _ _ Hai) as Hi. pose proof (fchain_end _ _ _ _ Hbj) as Hj.
  split; try done.
  - apply link_heap_ok.
  - intros s Hs. destruct (K2 s Hs) as (n & r & Hc & Hn).
    destruct (fchain_add F s n r i j Hc Hi Hj Hij) as (n' & Hc' & Hn').
    exists n', (if decide (r = i) then j else r). split; [done|]. unfold F'.
    rewrite map_size_insert_None by done. lia.
  - intros p [Hp|Hp]%elem_of_app; [|by apply K3].
    destruct (HPA p Hp) as (k & x & y & n & m & Hk & Hx & Hy & Hd1 & Hd2).
    destruct (arg_cell h F _ f k K1 link_fn_a Hk) as (x' & _ & Hx' & Hg1).
    destruct (arg_cell h F _ f k K1 link_fn_b Hk) as (y' & _ & Hy' & Hg2).
    assert (x' = x) as -> by congruence. assert (y' = y) as -> by congruence.
    split; [exact (derefs_good L HL F h x n p.1 K1 Hg1 Hd1)|exact (derefs_good L HL F h y m p.2 K1 Hg2 Hd2)].
  - intros v c0 c Hv Hc0. rewrite link_val by done. by apply K4.
  - intros s j' g k x y Hs Hg Hk Hx Hy.
    destruct (ho_fwd _ _ _ link_heap_ok s j' Hs) as (g' & Hg1 & Hg2).
    rewrite Hg in Hg1. injection Hg1 as <-.
    rewrite link_val in Hx by exact (fn_arg s g k Hg Hk).
    rewrite link_val in Hy by exact (fn_arg j' g k Hg2 Hk).
    revert Hs. unfold F'. rewrite lookup_insert. destruct (decide (i = s)) as [<-|Hne].
    + intros [= <-]. assert (g = f) as -> by congruence. by eapply link_args.
    + intros Hs. apply link_ceq. by eapply K5.
  - intros Q HU Hab p [Hp|Hp]%elem_of_app; [by apply link_pairs|by eapply K6].
  - intros Q HU Hab s j'. unfold F'. rewrite lookup_insert. destruct (decide (i = s)) as [<-|]; [|by apply K7].
    intros [= <-]. apply (un_trans _ _ HU _ a).
    + apply (un_sym _ _ HU). rewrite (str_cell_eq a) by done. by eapply chain_unifier.
    + apply (un_trans _ _ HU _ b); [by apply HQ|]. rewrite (str_cell_eq b) by done. by eapply chain_unifier.
  - intros Q HU Hab v c Hv. rewrite link_val by done. by apply K8.
  - by apply link_ceq.
Qed.

End pairs.
End link.

End inv.
End spec.
