(* ===== verification/UnifyLoop.v ===== *)
(** * The unification loop terminates and keeps its invariant

    [unify_step_ok] runs one iteration of [unify_helper] on a state that satisfies
    [state_ok] ([inv] for the heap, with the stacks that belong to it);
    [unify_loop_ok] runs the loop to its end within [measure] iterations and
    restores the functor cells. *)

From S2P Require Import Prelude Cells Heap Bigs TermEnv HeapSpec UnifySpec.

Definition flat (P : list (Z * Z)) : list Z := P ≫= (fun p => [p.1; p.2]).

Lemma flat_app P P' : flat (P ++ P') = flat P ++ flat P'.
Proof. apply bind_app. Qed.

(** The temporary trail lists the forwarding pointers, newest first. *)
Inductive links : list Z -> gmap Z Z -> Prop :=
  | links_nil : links [] ∅
  | links_cons i j tt F : links tt F -> F !! i = None -> F !! j = None -> i <> j ->
      links (i :: tt) (<[i := j]> F).

Section loop.
Context (import_bits : list Z -> Z).
Context (L : layout) (HL : layout_ok L).
Implicit Types (F : gmap Z Z) (h : heap) (P : list (Z * Z)) (e : term_env).

(** ** Reading through the heap of a layout *)

Lemma big_read_mono h h' n index i bs :
  h_cells h ⊆ h_cells h' -> h_blocks h' = h_blocks h ->
  big_read n h index i = Ok bs -> big_read n h' index i = Ok bs.
Proof.
  intros Hsub Hb. revert i bs. induction n as [|n IH]; intros i bs H; cbn [big_read] in *; [done|].
  apply bind_Ok in H as (b & Hbyte & H). apply bind_Ok in H as (u & Hu & H).
  apply bind_Ok in H as (bs' & Hbs & H).
  assert (big_byte h' index i = Ok b) as ->.
  { unfold big_byte in *. apply bind_Ok in Hbyte as (c & Hc & Hbyte). apply of_option_Ok in Hc.
    by rewrite (lookup_weaken _ _ _ _ Hc Hsub). }
  rewrite Ok_bind, (big_step_blocks h) by done. rewrite Hu, Ok_bind. by rewrite (IH _ _ Hbs), Ok_bind.
Qed.

Lemma big_value_mono h h' c n bs :
  h_cells h ⊆ h_cells h' -> h_blocks h' = h_blocks h -> h_size h' = h_size h ->
  big_value h c n bs -> big_value h' c n bs.
Proof.
  intros Hsub Hbl Hsz (Ht & Hn & Hb & Hr). split; [done|]. split; [|split].
  - unfold num_bits, heap_get, check_index in *. rewrite Hsz. apply bind_Ok in Hn as (hdr & Hg & Hn).
    apply bind_Ok in Hg as (u & -> & Hg). apply of_option_Ok in Hg. rewrite Ok_bind.
    by rewrite (lookup_weaken _ _ _ _ Hg Hsub).
  - unfold block_exists in *. by rewrite Hbl.
  - by apply (big_read_mono h).
Qed.

Lemma big_value_heap F h c n bs :
  heap_ok L F h -> big_value (dat_heap L) c n bs -> num_bits h c = Ok n /\ big_bytes h c = Ok bs.
Proof.
  intros Hok Hv. apply (big_value_mono _ h) in Hv;
    [|apply (ho_dat _ _ _ Hok)|apply (ho_blocks _ _ _ Hok)|apply (ho_size _ _ _ Hok)].
  split; [apply Hv|by eapply big_bytes_value].
Qed.

(** ** Restoring the functor cells *)

Lemma restore_loop_ok h F tt :
  links tt F -> heap_ok L F h ->
  exists h', restore_loop h tt = Ok h' /\ heap_ok L ∅ h' /\
    (forall v, v ∈ ly_vals L -> h_cells h' !! v = h_cells h !! v) /\
    (forall i, ly_fn L !! i = None -> h_cells h' !! i = h_cells h !! i) /\
    h_watched h' = h_watched h.
Proof.
  intros Hl. revert h. induction Hl as [|i j tt F Hl IH Hi Hj Hij]; intros h Hok; cbn [restore_loop].
  { exists h. by split_and!. }
  destruct (ho_fwd _ _ _ Hok i j) as (f & Hfi & Hfj); [by rewrite lookup_insert_eq|].
  destruct (lo_fn _ HL i f Hfi) as (Hin & Hidx & Hiv & Hfw & Hft & _).
  destruct (lo_fn _ HL j f Hfj) as (Hinj & Hidxj & _).
  pose proof (ho_fn _ _ _ Hok i f Hfi) as Hci. rewrite lookup_insert_eq in Hci.
  pose proof (ho_fn _ _ _ Hok j f Hfj) as Hcj. rewrite lookup_insert_ne, Hj in Hcj by done.
  rewrite (heap_get_Ok L h i _ (ho_size _ _ _ Hok) Hin Hci), Ok_bind.
  unfold ptr_index, fwd_cell. rewrite cell_value_mk by done.
  rewrite (heap_get_Ok L h j _ (ho_size _ _ _ Hok) Hinj Hcj), Ok_bind.
  rewrite (heap_set_Ok L) by (done || apply Hok). rewrite Ok_bind.
  set (h1 := with_cells h (<[i := f]> (h_cells h))).
  assert (Hvals : forall v, v ∈ ly_vals L -> h_cells h1 !! v = h_cells h !! v).
  { intros v Hv. cbn. apply lookup_insert_ne. congruence. }
  assert (Hok1 : heap_ok L F h1).
  { destruct Hok as [K1 K2 K3 K4 K5 K6]. split; try done.
    - intros s g Hs. cbn. rewrite lookup_insert. destruct (decide (i = s)) as [<-|Hne].
      + rewrite Hi. congruence.
      + specialize (K3 s g Hs). by rewrite lookup_insert_ne in K3.
    - intros s k Hs. apply K4. rewrite lookup_insert_ne; [done|]. congruence.
    - intros v Hv. rewrite Hvals by done. destruct (K5 v Hv) as (c & n & d & ? & ? & ?).
      exists c, n, d. split_and!; [done..|].
      eapply (derefs_agree L HL (<[i:=j]> F) h h1); [done|done| |done|done].
      intros. by apply Hvals.
    - apply insert_subseteq_r; [|done]. destruct (ly_dat L !! i) eqn:E; [|done].
      destruct (lo_dat _ HL i) as [_ H]; [by eexists|congruence]. }
  destruct (IH h1 Hok1) as (h' & Hr & Hok' & Hv' & Hn' & Hw'). exists h'. split; [done|]. split; [done|].
  split; [|split; [|done]].
  - intros v Hv. rewrite Hv' by done. by apply Hvals.
  - intros k Hk. rewrite Hn' by done. cbn. apply lookup_insert_ne. congruence.
Qed.

(** ** Following forwarding pointers *)

Lemma fwd_loop_ok h F s n r fuel :
  heap_ok L F h -> fchain F s n r -> is_Some (ly_fn L !! s) -> (n < fuel)%nat ->
  exists f, fwd_loop fuel h s = Ok (r, f) /\ ly_fn L !! r = Some f.
Proof.
  intros Hok H. revert fuel. induction H as [s Hs|s j n r Hs H IH]; intros [|fuel] [f Hf] Hn; try lia;
    cbn [fwd_loop]; destruct (lo_fn _ HL s f Hf) as (Hin & Hidx & _ & _ & Hft & _);
    pose proof (ho_fn _ _ _ Hok s f Hf) as Hc; rewrite Hs in Hc;
    rewrite (heap_get_Ok L h s _ (ho_size _ _ _ Hok) Hin Hc), Ok_bind.
  - rewrite bool_decide_false by congruence. by exists f.
  - rewrite bool_decide_true by (unfold fwd_cell; apply cell_tag_mk).
    destruct (ho_fwd _ _ _ Hok s j Hs) as (g & Hg & Hgj).
    destruct (lo_fn _ HL j g Hgj) as (_ & Hidxj & _).
    unfold ptr_index, fwd_cell. rewrite cell_value_mk by done. apply IH; [by eexists|lia].
Qed.

Lemma links_size h F : heap_ok L F h -> (size F <= size (h_cells h))%nat.
Proof.
  intros Hok. rewrite <-!size_dom. apply subseteq_size. intros s [j Hj]%elem_of_dom.
  destruct (ho_fwd _ _ _ Hok s j Hj) as (f & Hf & _). apply elem_of_dom.
  eexists. by apply (ho_fn _ _ _ Hok s f).
Qed.

(** ** Pushing arguments *)

Lemma arg_ok h F a f k :
  heap_ok L F h -> good L a -> cell_tag a = STR -> ly_fn L !! ptr_index a = Some f ->
  0 <= k < con_arity f ->
  exists x n d, h_cells h !! (ptr_index a + 1 + k) = Some x /\ derefs h x n d /\ good L d /\
    arg h a k = Ok d.
Proof.
  intros Hok Ha Ht Hf Hk. destruct (arg_cell L HL h F _ f k Hok Hf Hk) as (x & Hget & Hx & Hg).
  destruct (good_derefs L HL F h x Hok Hg) as (n & d & Hd & Hgd).
  exists x, n, d. split_and!; [done..|]. unfold arg. rewrite deref_not_ref by (by rewrite Ht).
  rewrite Ok_bind. replace (ptr_index a + k + 1) with (ptr_index a + 1 + k) by lia.
  rewrite Hget, Ok_bind. by eapply derefs_deref.
Qed.

Lemma push_args_ok F e a b f n :
  heap_ok L F (e_heap e) -> good L a -> good L b -> cell_tag a = STR -> cell_tag b = STR ->
  ly_fn L !! ptr_index a = Some f -> ly_fn L !! ptr_index b = Some f ->
  Z.of_nat n <= con_arity f ->
  exists PA, push_args n e a b = Ok (with_stack e (flat PA ++ e_stack e)) /\ length PA = n /\
    (forall p, p ∈ PA -> arg_pair (e_heap e) a b f p) /\
    (forall k, 0 <= k < Z.of_nat n -> exists p x y m m', p ∈ PA /\
      h_cells (e_heap e) !! (ptr_index a + 1 + k) = Some x /\
      h_cells (e_heap e) !! (ptr_index b + 1 + k) = Some y /\
      derefs (e_heap e) x m p.1 /\ derefs (e_heap e) y m' p.2).
Proof.
  intros Hok Ha Hb Hta Htb Hfa Hfb. revert e Hok. induction n as [|n IH]; intros e Hok Hn; cbn [push_args].
  { exists []. split; [by destruct e|]. split; [done|]. split; [by intros p ?%elem_of_nil|lia]. }
  destruct (arg_ok _ F a f (Z.of_nat n) Hok Ha Hta Hfa) as (x & m & d & Hx & Hd & Hgd & ->); [lia|].
  destruct (arg_ok _ F b f (Z.of_nat n) Hok Hb Htb Hfb) as (y & m' & d' & Hy & Hd' & Hgd' & ->); [lia|].
  rewrite !Ok_bind.
  destruct (IH (push (push e d') d) Hok) as (PA & Hpush & Hlen & HPA & Hcov); [lia|].
  exists (PA ++ [(d, d')]). rewrite Hpush. split; [|split; [|split]].
  - unfold with_stack. cbn. rewrite flat_app, <-app_assoc. done.
  - rewrite length_app, Hlen. cbn. lia.
  - intros p [Hp| ->%list_elem_of_singleton]%elem_of_app; [by apply HPA|].
    exists (Z.of_nat n), x, y, m, m'. split_and!; done || lia.
  - intros k Hk. destruct (decide (k = Z.of_nat n)) as [->|].
    + exists (d, d'), x, y, m, m'. split_and!; try done. apply elem_of_app. right.
      by apply list_elem_of_singleton.
    + destruct (Hcov k) as (p & x' & y' & k1 & k2 & Hp & ? & ? & ? & ?); [lia|].
      exists p, x', y', k1, k2. split_and!; try done. apply elem_of_app. by left.
Qed.

(** ** The measure *)

(** Arguments of the structures that are not forwarded yet. *)
Definition weight F : nat :=
  sum_list ((fun p => Z.to_nat (con_arity p.2)) <$> map_to_list (filter (fun p => F !! p.1 = None) (ly_fn L))).

Lemma weight_link F i j f :
  ly_fn L !! i = Some f -> F !! i = None ->
  weight F = (Z.to_nat (con_arity f) + weight (<[i := j]> F))%nat.
Proof.
  intros Hf Hi. unfold weight.
  set (m := filter (fun p : Z * Z => F !! p.1 = None) (ly_fn L)).
  assert (Hm : m !! i = Some f) by (by apply map_lookup_filter_Some).
  assert (Hm' : filter (fun p : Z * Z => <[i := j]> F !! p.1 = None) (ly_fn L) = delete i m).
  { apply map_eq. intros k. destruct (decide (k = i)) as [->|Hne].
    - rewrite lookup_delete_eq. apply map_lookup_filter_None. right. intros x Hx. cbn.
      by rewrite lookup_insert_eq.
    - rewrite lookup_delete_ne by done. unfold m. rewrite !map_lookup_filter. cbn.
      destruct (ly_fn L !! k) as [x|]; cbn; [|done].
      rewrite lookup_insert_ne by done. done. }
  rewrite Hm', <-(map_to_list_delete m i f) by done. done.
Qed.

Definition measure F P : nat := (weight F + length P)%nat.

(** ** States *)

Section states.
Context (h0 : gmap Z Z) (a0 b0 : Z) (base : list Z) (tr0 : list Z).

Abbreviation Inv := (inv import_bits L h0 a0 b0).
Abbreviation no_unifier := (forall Q, unifier import_bits L h0 Q -> ~ Q a0 b0).

(** What surrounds the heap: the trail holds [T] on top of [tr0], the temporary
    trail the links of [F], and [hb] is the heap size. *)
Record frame_ok (e : term_env) F (T : list Z) : Prop := FrameOk {
  fr_trail : e_trail e = tr0 ++ T;
  fr_links : links (e_temp_trail e) F;
  fr_hb : e_hb e = ly_size L
}.

Definition state_ok (e : term_env) F P T : Prop :=
  Inv (e_heap e) F P T /\ frame_ok e F T /\ e_stack e = flat P ++ base.
(** The same with some stack above the base. *)
Definition rest_ok (e : term_env) F P T : Prop :=
  Inv (e_heap e) F P T /\ frame_ok e F T /\ exists pre, e_stack e = pre ++ base.

Lemma var_self h F c n d :
  heap_ok L F h -> good L c -> derefs h c n d -> is_ref (cell_tag d) = true ->
  self_var (ptr_index d) d /\ ptr_index d ∈ ly_vals L /\ h_cells h !! ptr_index d = Some d.
Proof.
  intros Hok Hc Hd Hr. pose proof (derefs_good L HL F h c n d Hok Hc Hd) as Hg.
  split; [|split]; [split; [apply Hg|done]|by apply (good_ref L)|by eapply derefs_var].
Qed.

(** [bind] on a variable. *)
Lemma bind_ok e F P T s b nb eb :
  Inv (e_heap e) F P T -> frame_ok e F T ->
  self_var (ptr_index s) s -> ptr_index s ∈ ly_vals L -> h_cells (e_heap e) !! ptr_index s = Some s ->
  good L b -> derefs (e_heap e) b nb eb -> eb <> s ->
  (forall Q, unifier import_bits L h0 Q -> Q a0 b0 -> Q s b) ->
  exists e', bind e s b = Ok e' /\ Inv (e_heap e') F P (T ++ [ptr_index s]) /\
    frame_ok e' F (T ++ [ptr_index s]) /\ e_stack e' = e_stack e /\
    (forall c n d, derefs (e_heap e) c n d ->
       exists n', derefs (e_heap e') c n' (if decide (d = s) then eb else d)).
Proof.
  intros Hinv [Ht Hl Hhb] Hself Hv Hs Hb Hd Hne HQ.
  destruct (bind_inv import_bits L HL h0 a0 b0 (e_heap e) F P T (ptr_index s) s b nb eb) as [Hinv' Hmove];
    [done..|].
  set (i := ptr_index s) in *. pose proof (in_ok _ _ _ _ _ _ _ _ _ Hinv) as Hok.
  destruct (lo_vals _ HL i Hv) as [Hin _].
  set (hw := if bool_decide (cell_tag s = RFW) then add_watched (e_heap e) i else e_heap e).
  assert (Hw : h_cells hw = h_cells (e_heap e) /\ h_size hw = h_size (e_heap e) /\
               h_blocks hw = h_blocks (e_heap e)).
  { unfold hw, add_watched. repeat case_match; done. }
  destruct Hw as (Hw1 & Hw2 & Hw3).
  unfold bind. fold i. fold hw. rewrite (heap_set_Ok L) by (rewrite ?Hw3; done || apply Hok).
  rewrite Ok_bind. set (h' := with_cells hw (<[i := b]> (h_cells hw))).
  assert (Hh1 : h_cells h' = h_cells (put_cell (e_heap e) i b)) by (cbn; by rewrite Hw1).
  exists (with_trail (with_heap e h') (e_trail e ++ [i])). split; [|split; [|split; [|split]]].
  - unfold trail. cbn [with_heap e_hb]. rewrite Hhb, (proj2 (Z.ltb_lt i _)) by (destruct Hin; lia). done.
  - eapply inv_same; [exact Hh1|done|done|exact Hinv'].
  - split; cbn; [by rewrite Ht, app_assoc|done|done].
  - done.
  - intros c n d Hc. destruct (Hmove c n d Hc) as [n' Hn']. exists n'.
    eapply derefs_same; [exact Hh1|done|exact Hn'].
Qed.

(** The two-variable case, [s] bound to [t]. *)
Lemma refs_ok e F P T s t (w : bool) :
  Inv (e_heap e) F P T -> frame_ok e F T ->
  self_var (ptr_index s) s -> ptr_index s ∈ ly_vals L -> h_cells (e_heap e) !! ptr_index s = Some s ->
  self_var (ptr_index t) t -> ptr_index t ∈ ly_vals L -> h_cells (e_heap e) !! ptr_index t = Some t ->
  ptr_index s <> ptr_index t ->
  (forall Q, unifier import_bits L h0 Q -> Q a0 b0 -> Q s t) ->
  exists e' x T',
    (h ← (if w then heap_watch (e_heap e) (ptr_index t) true else Ok (e_heap e)); bind (with_heap e h) s t)
    = Ok e' /\ Inv (e_heap e') F P T' /\ frame_ok e' F T' /\ e_stack e' = e_stack e /\
    (forall c n d, derefs (e_heap e) c n d -> d = s \/ d = t -> exists n', derefs (e_heap e') c n' x).
Proof.
  intros Hinv Hfr Hs Hsv Hsc Ht Htv Htc Hne HQ. pose proof (in_ok _ _ _ _ _ _ _ _ _ Hinv) as Hok.
  destruct (lo_vals _ HL _ Htv) as [Htin Htidx].
  assert (Hw : exists h1 x, (if w then heap_watch (e_heap e) (ptr_index t) true else Ok (e_heap e)) = Ok h1 /\
    Inv h1 F P T /\ ptr_index x = ptr_index t /\ h_cells h1 !! ptr_index s = Some s /\
    (forall c n d, derefs (e_heap e) c n d -> exists n', derefs h1 c n' (if decide (d = t) then x else d))).
  { destruct w.
    - destruct (watch_inv import_bits L HL h0 a0 b0 (e_heap e) F P T (ptr_index t) t) as [Hi' Hm]; [done..|].
      exists (put_cell (e_heap e) (ptr_index t) (ref_cell_watched (ptr_index t))), (ref_cell_watched (ptr_index t)).
      split_and!; try done.
      + unfold heap_watch, block_exists, require. rewrite (ho_blocks _ _ _ Hok).
        rewrite (proj2 (Z.ltb_lt _ _)), Ok_bind by apply Htin. rewrite Htc. cbn [of_option]. rewrite Ok_bind.
        unfold put_cell. do 3 f_equal. destruct Ht as (Hw & Hr & _). apply is_ref_true in Hr as [Hr|Hr]; rewrite Hr.
        * done.
        * cbn. pose proof (cell_tag_value t Hw) as E. rewrite Hr in E. by rewrite <-E at 1.
      + unfold ptr_index at 1, ref_cell_watched. by apply cell_value_mk.
      + cbn. by rewrite lookup_insert_ne.
    - exists (e_heap e), t. split_and!; try done. intros c n d Hd. exists n. by destruct (decide (d = t)) as [->|]. }
  destruct Hw as (h1 & x & -> & Hinv1 & Hx & Hs1 & Hm1). rewrite Ok_bind.
  assert (Htt : derefs (e_heap e) t 0 t).
  { apply derefs_self; [apply Ht|]. apply (heap_get_Ok L); [apply Hok|done|done]. }
  assert (Hss : derefs (e_heap e) s 0 s).
  { apply derefs_self; [apply Hs|]. apply (heap_get_Ok L); [apply Hok|by apply (lo_vals _ HL)|done]. }
  assert (Hst : s <> t) by congruence.
  destruct (Hm1 t 0%nat t Htt) as [nt Hnt]. rewrite decide_True in Hnt by done.
  destruct (bind_ok (with_heap e h1) F P T s t nt x) as (e' & Hb & Hinv' & Hfr' & Hstk & Hm2);
    [done|by destruct Hfr|done|done|done|by apply (self_var_good L (ptr_index t))|done|congruence|done|].
  exists e', x, (T ++ [ptr_index s]). split_and!; [done..|].
  intros c n d Hd Hor. destruct (Hm1 c n d Hd) as [n1 Hn1].
  destruct Hor as [->| ->].
  - rewrite decide_False in Hn1 by done. destruct (Hm2 c n1 s Hn1) as [n2 Hn2].
    rewrite decide_True in Hn2 by done. by exists n2.
  - rewrite decide_True in Hn1 by done. destruct (Hm2 c n1 x Hn1) as [n2 Hn2].
    rewrite decide_False in Hn2 by congruence. by exists n2.
Qed.

(** Two cells with the same end are related. *)
Lemma same_end h F P a b n m x :
  good L a -> good L b -> derefs h a n x -> derefs h b m x -> ceq import_bits L h F P a b.
Proof.
  intros Ha Hb Hn Hm. apply (ceq_trans _ _ _ _ _ _ x); [by eapply ceq_deref|].
  apply ceq_sym. by eapply ceq_deref.
Qed.

(** ** One pair *)

Section pair.
Context (e : term_env) (F : gmap Z Z) (P : list (Z * Z)) (T : list Z).
Context (a' b' a b : Z) (na nb : nat).
Hypothesis Hinv : Inv (e_heap e) F ((a', b') :: P) T.
Hypothesis Hfr : frame_ok e F T.
Hypothesis Hstk : e_stack e = flat P ++ base.
Hypothesis Hda : derefs (e_heap e) a' na a.
Hypothesis Hdb : derefs (e_heap e) b' nb b.

(** The state after a pair that is done, and after a clash. *)
Definition done_ok (e' : term_env) : Prop :=
  exists F' P' T', state_ok e' F' P' T' /\ (measure F' P' < measure F ((a', b') :: P))%nat.
Definition clash_ok (e' : term_env) : Prop := rest_ok e' F ((a', b') :: P) T /\ no_unifier.

Lemma pair_good : good L a' /\ good L b' /\ good L a /\ good L b.
Proof.
  destruct (in_pend _ _ _ _ _ _ _ _ _ Hinv (a', b')) as [Ha Hb]; [by left|]. cbn in *.
  pose proof (in_ok _ _ _ _ _ _ _ _ _ Hinv) as Hok.
  split; [done|]. split; [done|]. split; [exact (derefs_good L HL F _ a' na a Hok Ha Hda)|].
  exact (derefs_good L HL F _ b' nb b Hok Hb Hdb).
Qed.

Lemma pair_unifier Q : unifier import_bits L h0 Q -> Q a0 b0 -> Q a b.
Proof.
  intros HQ Hab. destruct pair_good as (Ha & Hb & _).
  apply (un_trans _ _ _ _ HQ _ a').
  - apply (un_sym _ _ _ _ HQ). by eapply (unifier_derefs import_bits L HL).
  - apply (un_trans _ _ _ _ HQ _ b').
    + eapply (in_pairs _ _ _ _ _ _ _ _ _ Hinv Q HQ Hab (a', b')). by left.
    + by eapply (unifier_derefs import_bits L HL).
Qed.

(** Both sides have come to the same end. *)
Lemma pair_done e' T' n m x :
  Inv (e_heap e') F ((a', b') :: P) T' -> frame_ok e' F T' -> e_stack e' = e_stack e ->
  derefs (e_heap e') a' n x -> derefs (e_heap e') b' m x -> done_ok e'.
Proof.
  intros Hi Hf Hs Hn Hm. destruct pair_good as (Ha & Hb & _). exists F, P, T'. split.
  - split; [|split; [done|congruence]]. eapply inv_drop; [done|]. by eapply same_end.
  - unfold measure. cbn. lia.
Qed.

Lemma pair_ceq : ceq import_bits L (e_heap e) F P a b -> done_ok e.
Proof.
  intros H. destruct pair_good as (Ha & Hb & _). exists F, P, T. split; [|unfold measure; cbn; lia].
  split; [|done]. eapply inv_drop; [done|]. apply (ceq_trans _ _ _ _ _ _ a); [by eapply ceq_deref|].
  apply (ceq_trans _ _ _ _ _ _ b); [done|]. apply ceq_sym. by eapply ceq_deref.
Qed.

Lemma pair_clash :
  is_ref (cell_tag a) = false -> is_ref (cell_tag b) = false ->
  (forall Q, agree import_bits L h0 Q a b -> False) -> clash_ok e.
Proof.
  intros Ha Hb H. split.
  - split; [done|]. split; [done|]. by exists (flat P).
  - intros Q HQ Hab. apply (H Q). destruct pair_good as (_ & _ & ? & ?).
    apply (un_agree _ _ _ _ HQ); try done. by apply pair_unifier.
Qed.

(** [a] is a variable. *)
Lemma pair_bind_a :
  a <> b -> is_ref (cell_tag a) = true -> is_ref (cell_tag b) = false ->
  exists e', bind e a b = Ok e' /\ done_ok e'.
Proof.
  intros Hne Hra Hrb. destruct pair_good as (Ha & Hb & Hga & Hgb).
  destruct (var_self (e_heap e) F a' na a (in_ok _ _ _ _ _ _ _ _ _ Hinv) Ha Hda Hra) as (Hself & Hv & Hc).
  destruct (bind_ok e F ((a', b') :: P) T a b 0 b) as (e' & He' & Hi & Hf & Hs & Hm);
    [done..|by constructor|done|apply pair_unifier|].
  exists e'. split; [done|]. destruct (Hm _ _ _ Hda) as [n Hn]. destruct (Hm _ _ _ Hdb) as [m Hm'].
  rewrite decide_True in Hn by done. rewrite decide_False in Hm' by done. by eapply pair_done.
Qed.

Lemma pair_bind_b :
  a <> b -> is_ref (cell_tag a) = false -> is_ref (cell_tag b) = true ->
  exists e', bind e b a = Ok e' /\ done_ok e'.
Proof.
  intros Hne Hra Hrb. destruct pair_good as (Ha & Hb & Hga & Hgb).
  destruct (var_self (e_heap e) F b' nb b (in_ok _ _ _ _ _ _ _ _ _ Hinv) Hb Hdb Hrb) as (Hself & Hv & Hc).
  destruct (bind_ok e F ((a', b') :: P) T b a 0 a) as (e' & He' & Hi & Hf & Hs & Hm);
    [done..|by constructor|done| |].
  { intros Q HQ Hab. apply (un_sym _ _ _ _ HQ). by apply pair_unifier. }
  exists e'. split; [done|]. destruct (Hm _ _ _ Hda) as [n Hn]. destruct (Hm _ _ _ Hdb) as [m Hm'].
  rewrite decide_False in Hn by done. rewrite decide_True in Hm' by done. by eapply pair_done.
Qed.

Lemma pair_refs :
  a <> b -> is_ref (cell_tag a) = true -> is_ref (cell_tag b) = true ->
  exists e', unify_refs e a b = Ok e' /\ done_ok e'.
Proof.
  intros Hne Hra Hrb. destruct pair_good as (Ha & Hb & Hga & Hgb).
  pose proof (in_ok _ _ _ _ _ _ _ _ _ Hinv) as Hok.
  destruct (var_self (e_heap e) F a' na a Hok Ha Hda Hra) as (Hsa & Hva & Hca).
  destruct (var_self (e_heap e) F b' nb b Hok Hb Hdb Hrb) as (Hsb & Hvb & Hcb).
  assert (Hidx : ptr_index a <> ptr_index b) by congruence.
  unfold unify_refs. destruct (ptr_index a <? ptr_index b).
  - destruct (refs_ok e F ((a', b') :: P) T b a (watched_cell b)) as (e' & x & T' & He' & Hi & Hf & Hs & Hm);
      [done..| |].
    { intros Q HQ Hab. apply (un_sym _ _ _ _ HQ). by apply pair_unifier. }
    exists e'. split; [done|].
    destruct (Hm _ _ _ Hda) as [n Hn]; [by right|]. destruct (Hm _ _ _ Hdb) as [m Hm']; [by left|].
    by eapply pair_done.
  - destruct (refs_ok e F ((a', b') :: P) T a b (watched_cell a)) as (e' & x & T' & He' & Hi & Hf & Hs & Hm);
      [done..|congruence|apply pair_unifier|].
    exists e'. split; [done|].
    destruct (Hm _ _ _ Hda) as [n Hn]; [by left|]. destruct (Hm _ _ _ Hdb) as [m Hm']; [by right|].
    by eapply pair_done.
Qed.

(** Two structures: their roots are equal, differ in functor, or are linked. *)
Section structures.
Context (i j f : Z) (ni nj : nat).
Hypothesis Hat : cell_tag a = STR.
Hypothesis Hbt : cell_tag b = STR.
Hypothesis Hai : fchain F (ptr_index a) ni i.
Hypothesis Hbj : fchain F (ptr_index b) nj j.

Lemma roots_equal : i = j -> done_ok e.
Proof.
  intros ->. apply pair_ceq. destruct pair_good as (_ & _ & Ha & Hb).
  rewrite (str_cell_eq L a), (str_cell_eq L b) by done.
  apply (ceq_trans _ _ _ _ _ _ (str_cell j)); [by eapply chain_ceq|].
  apply ceq_sym. by eapply chain_ceq.
Qed.

Lemma roots_clash : ly_fn L !! i <> ly_fn L !! j -> clash_ok e.
Proof.
  intros Hne. destruct pair_good as (_ & _ & [_ Ha] & [_ Hb]). rewrite Hat in Ha. rewrite Hbt in Hb.
  pose proof (in_ok _ _ _ _ _ _ _ _ _ Hinv) as Hok.
  apply pair_clash; [by rewrite Hat|by rewrite Hbt|].
  intros Q [Heq|[Hbig|(_ & _ & Heq & _)]].
  - apply Hne. subst b. f_equal. by eapply fchain_det.
  - apply same_big_tags in Hbig as [? _]. congruence.
  - apply Hne. rewrite (chain_fn L _ _ _ _ _ Hok Hai Ha), (chain_fn L _ _ _ _ _ Hok Hbj Hb). done.
Qed.

Hypothesis Hij : i <> j.
Hypothesis Hfi : ly_fn L !! i = Some f.
Hypothesis Hfj : ly_fn L !! j = Some f.
Let h' := put_cell (e_heap e) i (fwd_cell j).

Lemma linked_done PA e' :
  (forall p, p ∈ PA -> arg_pair (e_heap e) a b f p) ->
  (forall k, 0 <= k < con_arity f -> exists p x y n m, p ∈ PA /\
    h_cells (e_heap e) !! (ptr_index a + 1 + k) = Some x /\
    h_cells (e_heap e) !! (ptr_index b + 1 + k) = Some y /\
    derefs (e_heap e) x n p.1 /\ derefs (e_heap e) y m p.2) ->
  length PA = Z.to_nat (con_arity f) ->
  e_heap e' = h' -> e_stack e' = flat PA ++ e_stack e -> e_trail e' = e_trail e ->
  e_temp_trail e' = i :: e_temp_trail e -> e_hb e' = e_hb e -> done_ok e'.
Proof.
  intros HPA Hcov Hlen Hh Hs Ht Htt Hhb. destruct pair_good as (Ha' & Hb' & Ha & Hb).
  pose proof (fchain_end _ _ _ _ Hai) as Hi. pose proof (fchain_end _ _ _ _ Hbj) as Hj.
  exists (<[i := j]> F), (PA ++ P), T. split; [split; [|split]|].
  - rewrite Hh. eapply inv_sub.
    + by apply (link_inv import_bits L HL h0 a0 b0 (e_heap e) F ((a', b') :: P) T a b i j f ni nj
        Hinv Ha Hb Hat Hbt Hai Hbj Hij Hfi Hfj pair_unifier PA HPA Hcov).
    + intros p. rewrite !elem_of_app, elem_of_cons. intuition.
    + intros c d [Hcd|[[= -> ->]|Hcd]%elem_of_cons]%elem_of_app;
        [by apply ceq_pend, elem_of_app; left| |by apply ceq_pend, elem_of_app; right].
      assert (Hd : forall c n d, good L c -> derefs (e_heap e) c n d -> derefs h' c n d).
      { intros c n d. by apply (link_derefs import_bits L HL h0 a0 b0 (e_heap e) F _ T a i j f ni Hinv). }
      assert (Hc : forall s n r, fchain F s n r -> ceq import_bits L h' (<[i:=j]> F) (PA ++ P) (str_cell s) (str_cell r)).
      { intros s n r Hc. apply (ceq_mono import_bits L (e_heap e) F []).
        - by intros ? ? ?%elem_of_nil.
        - intros c n' d Hg Hcd. eapply ceq_deref; [done|by apply Hd].
        - by apply insert_subseteq.
        - by eapply chain_ceq. }
      apply (ceq_trans _ _ _ _ _ _ a); [eapply ceq_deref; [done|by apply Hd]|].
      apply (ceq_trans _ _ _ _ _ _ b); [|apply ceq_sym; eapply ceq_deref; [done|by apply Hd]].
      rewrite (str_cell_eq L a), (str_cell_eq L b) by done.
      apply (ceq_trans _ _ _ _ _ _ (str_cell i)); [by eapply Hc|].
      apply (ceq_trans _ _ _ _ _ _ (str_cell j)); [|apply ceq_sym; by eapply Hc].
      apply ceq_fwd, lookup_insert_eq.
  - destruct Hfr as [K1 K2 K3]. split; [congruence| |congruence]. rewrite Htt. by apply links_cons.
  - rewrite Hs, Hstk, flat_app. by rewrite app_assoc.
  - unfold measure. rewrite (weight_link F i j f) by done. rewrite length_app. cbn. lia.
Qed.

End structures.

Lemma con_arity_nonneg c : is_word 64 c -> 0 <= con_arity c.
Proof.
  intros H. unfold con_arity. case_match; apply Z.land_nonneg; right; by vm_compute.
Qed.

(** The loop of the code from a structure to its root. *)
Lemma root_of c :
  good L c -> cell_tag c = STR ->
  exists n r f, fwd_loop (deref_fuel (e_heap e)) (e_heap e) (ptr_index c) = Ok (r, f) /\
    fchain F (ptr_index c) n r /\ ly_fn L !! r = Some f.
Proof.
  intros [_ Hc] Ht. rewrite Ht in Hc. pose proof (in_ok _ _ _ _ _ _ _ _ _ Hinv) as Hok.
  destruct (in_chains _ _ _ _ _ _ _ _ _ Hinv _ Hc) as (n & r & Hr & Hn).
  pose proof (links_size _ _ Hok) as Hsz.
  destruct (fwd_loop_ok (e_heap e) F (ptr_index c) n r (deref_fuel (e_heap e)) Hok Hr Hc) as (f & H1 & H2).
  { unfold deref_fuel. lia. }
  by exists n, r, f.
Qed.

Lemma pair_structures :
  cell_tag a = STR -> cell_tag b = STR ->
  exists e' ok, unify_structures e a b = Ok (e', ok) /\ if ok then done_ok e' else clash_ok e'.
Proof.
  intros Hat Hbt. destruct pair_good as (_ & _ & Ha & Hb). pose proof (in_ok _ _ _ _ _ _ _ _ _ Hinv) as Hok.
  destruct (root_of a Ha Hat) as (ni & i & f & Hra & Hai & Hfi).
  destruct (root_of b Hb Hbt) as (nj & j & g & Hrb & Hbj & Hfj).
  destruct (lo_fn _ HL i f Hfi) as (Hin & _ & _ & Hfw & Hft & _).
  unfold unify_structures. run Hra. run Hrb.
  rewrite !bool_decide_true by done. unfold require. rewrite !Ok_bind.
  destruct (i =? j) eqn:Hij.
  { exists e, true. split; [done|]. apply Z.eqb_eq in Hij. by eapply (roots_equal i j). }
  apply Z.eqb_neq in Hij. destruct (f =? g) eqn:Hfg; cbn [negb].
  2:{ exists e, false. split; [done|]. apply Z.eqb_neq in Hfg.
      eapply (roots_clash i j); try done. congruence. }
  apply Z.eqb_eq in Hfg. subst g. cbn [with_temp_trail e_heap].
  rewrite (heap_set_Ok L) by (done || apply Hok). rewrite Ok_bind.
  set (e1 := with_heap (with_temp_trail e (i :: e_temp_trail e)) _).
  pose proof (link_heap_ok import_bits L HL h0 a0 b0 (e_heap e) F _ T a i j f ni Hinv Hai Hij Hfi Hfj) as Hok'.
  pose proof (link_fn_a import_bits L h0 a0 b0 (e_heap e) F _ T a i f ni Hinv Ha Hat Hai Hfi) as Hfa.
  pose proof (link_fn_b import_bits L h0 a0 b0 (e_heap e) F _ T b j f nj Hinv Hb Hbt Hbj Hfj) as Hfb.
  pose proof (con_arity_nonneg f Hfw) as Hnn.
  destruct (push_args_ok (<[i:=j]> F) e1 a b f (Z.to_nat (con_arity f)))
    as (PA & Hpush & Hlen & HPA & Hcov); [done..|lia|].
  rewrite Z2Nat.id in Hcov by done.
  exists (with_stack e1 (flat PA ++ e_stack e1)), true. rewrite Hpush, Ok_bind. split; [done|].
  (* the pairs, read in the heap before the link *)
  assert (Hv : forall v, v ∈ ly_vals L -> h_cells (e_heap e) !! v = h_cells (e_heap e1) !! v).
  { intros v Hv. symmetry. by eapply (link_val L HL (e_heap e) F a i j f ni). }
  assert (Hd : forall s k x n d, ly_fn L !! s = Some f -> 0 <= k < con_arity f ->
    h_cells (e_heap e1) !! (s + 1 + k) = Some x -> derefs (e_heap e1) x n d ->
    h_cells (e_heap e) !! (s + 1 + k) = Some x /\ derefs (e_heap e) x n d).
  { intros s k x n d Hs Hk Hx Hdx. pose proof (fn_arg L HL s f k Hs Hk) as Hin'.
    split; [by rewrite Hv|]. eapply (derefs_agree L HL _ (e_heap e1) (e_heap e)); [exact Hok'|done|done| |done].
    destruct (arg_cell L HL _ _ s f k Hok' Hs Hk) as (x' & _ & Hx' & Hg).
    change (h_cells (e_heap e1) !! (s + 1 + k) = Some x') in Hx'. congruence. }
  apply (linked_done i j f ni nj Hat Hbt Hai Hbj Hij Hfi Hfj PA); try done.
  - intros p Hp. destruct (HPA p Hp) as (k & x & y & n & m & Hk & Hx & Hy & H1 & H2).
    destruct (Hd _ _ _ _ _ Hfa Hk Hx H1). destruct (Hd _ _ _ _ _ Hfb Hk Hy H2). by exists k, x, y, n, m.
  - intros k Hk. destruct (Hcov k Hk) as (p & x & y & n & m & Hp & Hx & Hy & H1 & H2).
    destruct (Hd _ _ _ _ _ Hfa Hk Hx H1). destruct (Hd _ _ _ _ _ Hfb Hk Hy H2). by exists p, x, y, n, m.
Qed.

Lemma pair_bigs :
  a <> b -> cell_tag a = BIG -> cell_tag b = BIG ->
  exists r, unify_bigs import_bits e a b = Ok r /\ if r then done_ok e else clash_ok e.
Proof.
  intros Hne Hat Hbt. destruct pair_good as (_ & _ & Ha & Hb). pose proof (in_ok _ _ _ _ _ _ _ _ _ Hinv) as Hok.
  pose proof (proj2 Ha) as Hga. pose proof (proj2 Hb) as Hgb. rewrite Hat in Hga. rewrite Hbt in Hgb.
  destruct Hga as (n & bs & Hva). destruct Hgb as (n' & bs' & Hvb).
  destruct (big_value_heap F (e_heap e) a n bs Hok Hva) as [Hna Hba].
  destruct (big_value_heap F (e_heap e) b n' bs' Hok Hvb) as [Hnb Hbb].
  assert (Hbig : (n = n' /\ import_bits bs = import_bits bs' <-> same_big import_bits L a b)).
  { split.
    - intros [<- Hi]. by exists n, bs, bs'.
    - intros (n1 & bs1 & bs1' & H1 & H2 & _ & _ & Hi).
      destruct (big_value_det _ _ _ _ _ _ Hva H1) as [-> ->].
      destruct (big_value_det _ _ _ _ _ _ Hvb H2) as [-> ->]. done. }
  assert (Hclash : ~ same_big import_bits L a b -> clash_ok e).
  { intros Hno. apply pair_clash; [by rewrite Hat|by rewrite Hbt|].
    intros Q [?|[?|(? & _)]]; [done|done|congruence]. }
  unfold unify_bigs, get_big_number. run Hna. run Hnb. destruct (n =? n') eqn:Hn; cbn [negb].
  2:{ exists false. split; [done|]. apply Z.eqb_neq in Hn. apply Hclash. intros [? _]%Hbig. done. }
  run Hba. run Hbb. apply Z.eqb_eq in Hn. eexists. split; [done|].
  destruct (import_bits bs =? import_bits bs') eqn:Hi.
  - apply Z.eqb_eq in Hi. apply pair_ceq, ceq_big. by apply Hbig.
  - apply Z.eqb_neq in Hi. apply Hclash. intros [_ ?]%Hbig. done.
Qed.

Lemma unify_cells_ok :
  exists e' ok, unify_cells import_bits e a b = Ok (e', ok) /\ if ok then done_ok e' else clash_ok e'.
Proof.
  destruct pair_good as (_ & _ & Ha & Hb). unfold unify_cells.
  destruct (a =? b) eqn:Hab.
  { exists e, true. split; [done|]. apply Z.eqb_eq in Hab. apply pair_ceq. rewrite Hab. apply ceq_refl. }
  pose proof (proj1 (Z.eqb_neq a b) Hab) as Hne.
  assert (Hdiff : cell_tag a <> cell_tag b \/ cell_tag a = CON \/ cell_tag a = INT ->
    is_ref (cell_tag a) = false -> is_ref (cell_tag b) = false -> clash_ok e).
  { intros Ht Hra Hrb. apply pair_clash; [done..|].
    intros Q [?|[[? ?]%same_big_tags|(? & ? & _)]]; [done| |]; intuition congruence. }
  destruct (is_ref (cell_tag a)) eqn:Hra, (is_ref (cell_tag b)) eqn:Hrb.
  - destruct (pair_refs Hne Hra Hrb) as (e' & -> & H). rewrite Ok_bind. by exists e', true.
  - destruct (pair_bind_a Hne Hra Hrb) as (e' & -> & H). rewrite Ok_bind. by exists e', true.
  - destruct (pair_bind_b Hne Hra Hrb) as (e' & -> & H). rewrite Ok_bind. by exists e', true.
  - destruct (decide (cell_tag a = cell_tag b)) as [Ht|Ht].
    2:{ rewrite bool_decide_false by done. exists e, false. split; [done|]. apply Hdiff; auto. }
    rewrite bool_decide_true by done. cbn [negb]. destruct (cell_tag a) eqn:Hat; try done.
    + exists e, false. split; [done|]. apply Hdiff; auto.
    + destruct (pair_bigs Hne Hat) as (r & -> & H); [done|]. rewrite Ok_bind. by exists e, r.
    + exists e, false. split; [done|]. apply Hdiff; auto.
    + by apply pair_structures.
    + destruct Ha as [_ Ha]. by rewrite Hat in Ha.
    + destruct Ha as [_ Ha]. by rewrite Hat in Ha.
Qed.

End pair.

(** ** One iteration, and the loop *)

Lemma state_rest e F P T : state_ok e F P T -> rest_ok e F P T.
Proof. intros (? & ? & ?). split_and!; [done..|]. by exists (flat P). Qed.

Lemma unify_step_ok e F p P T cost :
  state_ok e F (p :: P) T ->
  exists e' cost' ok, unify_step import_bits e cost = Ok (e', cost', ok) /\
    if ok then exists F' P' T', state_ok e' F' P' T' /\ (measure F' P' < measure F (p :: P))%nat
    else rest_ok e' F (p :: P) T /\ no_unifier.
Proof.
  destruct p as [a' b']. intros (Hinv & Hfr & Hs).
  destruct (in_pend _ _ _ _ _ _ _ _ _ Hinv (a', b')) as [Ha Hb]; [by left|]. cbn in Ha, Hb.
  pose proof (in_ok _ _ _ _ _ _ _ _ _ Hinv) as Hok.
  destruct (good_derefs L HL F _ a' Hok Ha) as (na & a & Hda & _).
  destruct (good_derefs L HL F _ b' Hok Hb) as (nb & b & Hdb & _).
  destruct (derefs_deref_with_cost _ _ _ _ Hda) as [c1 Hc1].
  destruct (derefs_deref_with_cost _ _ _ _ Hdb) as [c2 Hc2].
  set (e2 := with_stack (with_stack e (b' :: flat P ++ base)) (flat P ++ base)).
  destruct (unify_cells_ok e2 F P T a' b' a b na nb) as (e' & ok & He' & Hok'); [done|by destruct Hfr|done..|].
  unfold unify_step, pop. rewrite Hs. change (flat ((a', b') :: P) ++ base) with (a' :: b' :: flat P ++ base).
  cbv beta iota. rewrite Ok_bind. cbn [with_stack e_heap e_stack]. run Hc1.
  cbn [with_stack e_heap e_stack]. run Hc2.
  change (with_stack (with_stack _ _) _) with e2. rewrite He', Ok_bind.
  exists e', (w64 (w64 (cost + c1) + c2)), ok. split; [done|]. destruct ok; exact Hok'.
Qed.

Lemma unify_loop_ok fuel e F P T cost :
  state_ok e F P T -> (measure F P <= fuel)%nat ->
  exists r e1 F1 P1 T1 cost1,
    unify_loop import_bits fuel (length base) e cost =
      (e ← restore_cells_after_unify e1; Ok (e, r, cost1)) /\
    rest_ok e1 F1 P1 T1 /\
    if (r : bool) then P1 = [] /\ e_stack e1 = base else no_unifier.
Proof.
  revert e F P T cost. induction fuel as [|fuel IH]; intros e F P T cost Hst Hm; cbn [unify_loop];
    pose proof Hst as (_ & _ & Hs); unfold stack_size; rewrite Hs, length_app.
  all: destruct P as [|p P].
  1,3: cbn [flat mbind list_bind length Nat.add]; rewrite Nat.ltb_irrefl; exists true, e, F, [], T, cost;
    split; [done|]; split; [by apply state_rest|done].
  { unfold measure in Hm. cbn in Hm. lia. }
  rewrite (proj2 (Nat.ltb_lt _ _)) by (destruct p; cbn; lia).
  destruct (unify_step_ok e F p P T cost Hst) as (e' & cost' & ok & -> & H). rewrite Ok_bind.
  destruct ok.
  - destruct H as (F' & P' & T' & Hst' & Hm'). apply (IH e' F' P' T'); [done|lia].
  - destruct H as [Hr Hno]. exists false, e', F, (p :: P), T, cost'. done.
Qed.

End states.
End loop.
