(* ===== verification/Unify.v ===== *)
(** * Unification is correct

    [unify_run] collects what one call of [unify] does; the theorems state that it
    is total and decides unifiability, that success leaves a most general
    unifier and equal terms, that failure leaves the heap as it was, and that the
    trail suffices to backtrack over a success. *)

From S2P Require Import Prelude Cells Heap Bigs TermEnv HeapSpec UnifySpec UnifyLoop.

(** ** The trail *)

Lemma tidy_loop_keep keep fuel tr i to :
  (i <= to)%nat -> (to <= length tr)%nat -> (to - i < fuel)%nat ->
  exists T', tidy_trail_loop fuel keep tr i to = Ok (take i tr ++ T') /\
    T' ≡ₚ filter (fun x => keep x = true) (take (to - i) (drop i tr)).
Proof.
  revert tr i to. induction fuel as [|fuel IH]; intros tr i to Hi Ht Hf; [lia|]. cbn [tidy_trail_loop].
  destruct (i <? to)%nat eqn:Hlt.
  2:{ apply Nat.ltb_ge in Hlt. assert (i = to) as -> by lia. exists []. rewrite Nat.sub_diag, take_0, app_nil_r.
      done. }
  apply Nat.ltb_lt in Hlt. destruct (lookup_lt_is_Some_2 tr i) as [x Hx]; [lia|].
  rewrite Hx. cbn [of_option]. rewrite Ok_bind.
  replace (to - i)%nat with (S (to - S i)) by lia. rewrite (drop_S tr x i) by done. cbn [take].
  rewrite filter_cons. destruct (keep x) eqn:Hkeep.
  - rewrite decide_True by done.
    destruct (IH tr (S i) to) as (T' & -> & HT'); [lia..|].
    exists (x :: T'). rewrite (take_S_r tr i x), <-app_assoc by done. split; [done|]. by rewrite HT'.
  - rewrite decide_False by done.
    destruct (lookup_lt_is_Some_2 tr (to - 1)) as [y Hy]; [lia|]. rewrite Hy. cbn [of_option]. rewrite Ok_bind.
    destruct (IH (<[i := y]> tr) i (to - 1)%nat) as (T' & -> & HT'); [lia|rewrite length_insert; lia|lia|].
    exists T'. rewrite take_insert_ge by lia. split; [done|]. rewrite HT'.
    rewrite (drop_S (<[i := y]> tr) y i) by (apply list_lookup_insert_eq; lia).
    rewrite drop_insert_lt by lia. destruct (to - S i)%nat as [|m] eqn:Hm.
    + replace (to - 1 - i)%nat with 0%nat by lia. done.
    + replace (to - 1 - i)%nat with (S m) by lia.
      rewrite (take_S_r (drop (S i) tr) m y).
      2:{ rewrite lookup_drop. rewrite <-Hy. f_equal. lia. }
      cbn [take]. by rewrite Permutation_cons_append.
Qed.

Lemma tidy_loop_ok hb fuel tr i to :
  (i <= to)%nat -> (to <= length tr)%nat -> (to - i < fuel)%nat ->
  exists T', tidy_trail_loop fuel (fun x => x <? hb) tr i to = Ok (take i tr ++ T') /\
    T' ≡ₚ filter (fun x => x < hb) (take (to - i) (drop i tr)).
Proof.
  intros Hi Ht Hf. destruct (tidy_loop_keep (fun x => x <? hb) fuel tr i to Hi Ht Hf) as (T' & H & Hp).
  exists T'. split; [done|]. rewrite Hp. apply reflexive_eq, list_filter_iff. intros x. apply Z.ltb_lt.
Qed.

Section unify.
Context (import_bits : list Z -> Z).
Context (L : layout) (HL : layout_ok L).
Implicit Types (F : gmap Z Z) (h : heap) (P : list (Z * Z)) (e : term_env).

(** ** Equal terms *)

(** Two dereferenced cells with the same shape. *)
Definition same_shape h (R : Z -> Z -> Prop) (c d : Z) : Prop :=
  c = d \/ same_big import_bits L c d \/
  (cell_tag c = STR /\ cell_tag d = STR /\
   ly_fn L !! ptr_index c = ly_fn L !! ptr_index d /\
   forall f k x y, ly_fn L !! ptr_index c = Some f -> 0 <= k < con_arity f ->
     h_cells h !! (ptr_index c + 1 + k) = Some x -> h_cells h !! (ptr_index d + 1 + k) = Some y -> R x y).

(** Equal as finite or infinite terms: some bisimulation relates the cells. *)
Definition bisimulation h (R : Z -> Z -> Prop) : Prop :=
  forall c d, R c d -> exists n c' m d', derefs h c n c' /\ derefs h d m d' /\ same_shape h R c' d'.
Definition equal_terms h (c d : Z) : Prop := exists R, bisimulation h R /\ R c d.

(** ** The ends of related cells *)

Definition same_root F (c d : Z) : Prop :=
  cell_tag c = STR /\ cell_tag d = STR /\ exists n m r, fchain F (ptr_index c) n r /\ fchain F (ptr_index d) m r.
Definition same_kind F (c d : Z) : Prop := c = d \/ same_big import_bits L c d \/ same_root F c d.

Lemma same_kind_sym F c d : same_kind F c d -> same_kind F d c.
Proof.
  intros [->|[?|(? & ? & n & m & r & ? & ?)]]; [by left|right; left; by apply same_big_sym|].
  right; right. split_and!; [done..|]. by exists m, n, r.
Qed.

Lemma same_kind_trans F c d (e : Z) : same_kind F c d -> same_kind F d e -> same_kind F c e.
Proof.
  intros [->|H]; [done|]. intros [<-|H']; [by right|].
  destruct H as [H|H], H' as [H'|H'].
  - right; left. by eapply same_big_trans.
  - destruct (same_big_tags _ _ _ _ H) as [_ H1]. destruct H' as [H2 _]. congruence.
  - destruct (same_big_tags _ _ _ _ H') as [H1 _]. destruct H as (_ & H2 & _). congruence.
  - destruct H as (Hc & Hd & n & m & r & H1 & H2). destruct H' as (_ & He & n' & m' & r' & H3 & H4).
    pose proof (fchain_det _ _ _ _ _ _ H3 H2) as ->. right; right. split_and!; [done..|]. by exists n, m', r.
Qed.

Section state.
Context (h0 : gmap Z Z) (a0 b0 : Z) (h : heap) (F : gmap Z Z) (T : list Z).
Hypothesis Hinv : inv import_bits L h0 a0 b0 h F [] T.

Let Hok := in_ok _ _ _ _ _ _ _ _ _ Hinv.

Lemma ceq_ends c d :
  ceq import_bits L h F [] c d ->
  c = d \/ (good L c /\ good L d /\ exists n c' m d', derefs h c n c' /\ derefs h d m d' /\ same_kind F c' d').
Proof.
  induction 1 as [c|c d _ IH|c d x _ IH1 _ IH2|a b H|c n d Hg Hd|s j Hs|c d Hb].
  - by left.
  - destruct IH as [->|(Hc & Hd & n & c' & m & d' & H1 & H2 & H3)]; [by left|].
    right. split_and!; [done..|]. exists m, d', n, c'. split_and!; [done..|]. by apply same_kind_sym.
  - destruct IH1 as [->|(Hc & Hd & n & c' & m & d' & H1 & H2 & H3)]; [done|].
    destruct IH2 as [<-|(_ & He & n2 & d2 & m2 & x' & H4 & H5 & H6)];
      [right; split_and!; [done..|]; by exists n, c', m, d'|].
    destruct (derefs_det _ _ _ _ _ _ H2 H4) as [<- <-].
    right. split_and!; [done..|]. exists n, c', m2, x'. split_and!; [done..|]. by eapply same_kind_trans.
  - by apply elem_of_nil in H.
  - right. split; [done|]. split; [by eapply (derefs_good L HL)|]. exists n, d, 0%nat, d.
    split_and!; [done|by eapply derefs_end|by left].
  - destruct (ho_fwd _ _ _ Hok s j Hs) as (f & Hf & Hfj). right.
    pose proof (str_cell_spec s (fn_index L HL s f Hf)) as [Ht Hp].
    pose proof (str_cell_spec j (fn_index L HL j f Hfj)) as [Htj Hpj].
    split; [by eapply str_cell_good|]. split; [by eapply str_cell_good|].
    exists 0%nat, (str_cell s), 0%nat, (str_cell j).
    split; [apply derefs_value; by rewrite Ht|]. split; [apply derefs_value; by rewrite Htj|].
    right; right. split_and!; [done..|]. rewrite Hp, Hpj.
    destruct (in_chains _ _ _ _ _ _ _ _ _ Hinv j) as (n & r & Hr & _); [by eexists|].
    exists (S n), n, r. split; [by eapply fchain_step|done].
  - right. pose proof (same_big_tags _ _ _ _ Hb) as [H1 H2]. pose proof Hb as (n & bs & bs' & _ & _ & Hc & Hd & _).
    split_and!; [done..|]. exists 0%nat, c, 0%nat, d.
    split; [apply derefs_value; by rewrite H1|]. split; [apply derefs_value; by rewrite H2|].
    by right; left.
Qed.

(** A reference is related to the cell it points to. *)
Lemma ceq_ref P c c' :
  good L c -> is_ref (cell_tag c) = true -> h_cells h !! ptr_index c = Some c' -> ceq import_bits L h F P c c'.
Proof.
  intros Hg Hr Hc. pose proof (good_ref L c Hg Hr) as Hv.
  destruct (val_get L HL F h _ Hok Hv) as (c'' & Hget & Hc'' & Hg').
  assert (c'' = c') as -> by congruence. destruct (decide (c' = c)) as [->|Hne]; [apply ceq_refl|].
  destruct (good_derefs L HL F h c' Hok Hg') as (n & d & Hd & _).
  apply (ceq_trans _ _ _ _ _ _ d); [|apply ceq_sym; by eapply ceq_deref].
  eapply ceq_deref; [done|]. by eapply derefs_step.
Qed.

(** The cells of the start are related to those of the end. *)
Lemma val_ceq P v c0 c :
  v ∈ ly_vals L -> h0 !! v = Some c0 -> h_cells h !! v = Some c -> ceq import_bits L h F P c0 c.
Proof.
  intros Hv Hc0 Hc. destruct (in_bound _ _ _ _ _ _ _ _ _ Hinv v c0 c Hv Hc0 Hc) as [->|[Hs _]]; [apply ceq_refl|].
  pose proof (self_var_good L v c0 Hv Hs) as Hg. destruct Hs as (_ & Hr & Hp).
  apply ceq_ref; [done|done|by rewrite Hp].
Qed.

(** Structures with one root have related arguments. *)
Lemma root_args c d f k x y :
  same_root F c d -> ly_fn L !! ptr_index c = Some f -> ly_fn L !! ptr_index d = Some f ->
  0 <= k < con_arity f ->
  h_cells h !! (ptr_index c + 1 + k) = Some x -> h_cells h !! (ptr_index d + 1 + k) = Some y ->
  ceq import_bits L h F [] x y.
Proof.
  intros (_ & _ & n & m & r & H1 & H2) Hfc Hfd Hk Hx Hy.
  pose proof (chain_fn L _ _ _ _ _ Hok H1 ltac:(by eexists)) as Hfr. rewrite Hfc in Hfr.
  destruct (arg_cell L HL h F r f k Hok Hfr Hk) as (z & _ & Hz & _).
  apply (ceq_trans _ _ _ _ _ _ z).
  - exact (chain_args import_bits L HL h0 a0 b0 h F [] T _ n r f k x z Hinv H1 Hfc Hk Hx Hz).
  - apply ceq_sym. exact (chain_args import_bits L HL h0 a0 b0 h F [] T _ m r f k y z Hinv H2 Hfd Hk Hy Hz).
Qed.

Lemma root_fn c d :
  good L c -> good L d -> same_root F c d -> ly_fn L !! ptr_index c = ly_fn L !! ptr_index d.
Proof.
  intros [_ Hc] [_ Hd] (Htc & Htd & n & m & r & H1 & H2). rewrite Htc in Hc. rewrite Htd in Hd.
  rewrite <-(chain_fn L _ _ _ _ _ Hok H1 Hc). by apply (chain_fn L _ _ _ _ _ Hok H2 Hd).
Qed.

(** When no pair is left, the equivalence of the state is a unifier of the start. *)
Lemma ceq_unifier : unifier import_bits L h0 (ceq import_bits L h F []).
Proof.
  split; [apply ceq_refl|apply ceq_sym|apply ceq_trans| |].
  - intros c x Hg Hr Hx. pose proof (good_ref L c Hg Hr) as Hv.
    destruct (val_get L HL F h _ Hok Hv) as (c' & _ & Hc' & _).
    apply (ceq_trans _ _ _ _ _ _ c'); [by apply ceq_ref|]. apply ceq_sym. by eapply val_ceq.
  - intros c d Hc Hd Hcd Hrc Hrd.
    destruct (ceq_ends c d Hcd) as [->|(_ & _ & n & c' & m & d' & H1 & H2 & H3)]; [by left|].
    destruct (derefs_det _ _ _ _ _ _ H1 (derefs_value h c Hrc)) as [_ ->].
    destruct (derefs_det _ _ _ _ _ _ H2 (derefs_value h d Hrd)) as [_ ->].
    destruct H3 as [->|[?|Hroot]]; [by left|by right; left|]. right; right.
    pose proof (root_fn c d Hc Hd Hroot) as Hfn. pose proof Hroot as (Htc & Htd & _).
    split_and!; [done..|]. intros f k x y Hf Hk Hx Hy.
    pose proof (eq_trans (eq_sym Hfn) Hf) as Hfd.
    destruct (arg_cell L HL h F _ f k Hok Hf Hk) as (x' & _ & Hx' & _).
    destruct (arg_cell L HL h F _ f k Hok Hfd Hk) as (y' & _ & Hy' & _).
    apply (ceq_trans _ _ _ _ _ _ x'); [exact (val_ceq _ _ x x' (fn_arg L HL _ f k Hf Hk) Hx Hx')|].
    apply (ceq_trans _ _ _ _ _ _ y'); [by eapply root_args|].
    apply ceq_sym. exact (val_ceq _ _ y y' (fn_arg L HL _ f k Hfd Hk) Hy Hy').
Qed.

(** Once the functor cells are back, related cells are equal terms. *)
Lemma ceq_equal_terms h' :
  heap_ok L ∅ h' -> (forall v, v ∈ ly_vals L -> h_cells h' !! v = h_cells h !! v) ->
  forall c d, good L c -> good L d -> ceq import_bits L h F [] c d -> equal_terms h' c d.
Proof.
  intros Hok' Hv c d Hc Hd Hcd.
  exists (fun c d => good L c /\ good L d /\ ceq import_bits L h F [] c d). split; [|done].
  assert (Hdr : forall c n d, good L c -> derefs h c n d -> derefs h' c n d).
  { intros c0 n d0 Hg H0. eapply (derefs_agree L HL F h h'); try done.
    rewrite (ho_size _ _ _ Hok'). symmetry. apply Hok. }
  clear c d Hc Hd Hcd. intros c d (Hc & Hd & Hcd).
  destruct (ceq_ends c d Hcd) as [->|(_ & _ & n & c' & m & d' & H1 & H2 & H3)].
  { destruct (good_derefs L HL F h d Hok Hd) as (n & d' & Hd' & _). exists n, d', n, d'.
    split_and!; [by apply Hdr..|by left]. }
  exists n, c', m, d'. split; [by apply Hdr|]. split; [by apply Hdr|].
  destruct H3 as [->|[?|Hroot]]; [by left|by right; left|]. right; right.
  pose proof (derefs_good L HL F h c n c' Hok Hc H1) as Hgc.
  pose proof (derefs_good L HL F h d m d' Hok Hd H2) as Hgd.
  pose proof (root_fn c' d' Hgc Hgd Hroot) as Hfn. pose proof Hroot as (Htc & Htd & _).
  split_and!; [done..|]. intros f k x y Hf Hk. pose proof (eq_trans (eq_sym Hfn) Hf) as Hfd.
  rewrite !Hv by (by eapply (fn_arg L HL)). intros Hx Hy.
  destruct (arg_cell L HL h F _ f k Hok Hf Hk) as (x' & _ & Hx' & ?).
  destruct (arg_cell L HL h F _ f k Hok Hfd Hk) as (y' & _ & Hy' & ?).
  split; [congruence|]. split; [congruence|]. by eapply root_args.
Qed.

End state.
Lemma unwind_ok h l :
  (forall v, v ∈ l -> v ∈ ly_vals L) -> h_blocks h = ly_blocks L ->
  exists h', unwind_loop h l = Ok h' /\ h_size h' = h_size h /\ h_blocks h' = h_blocks h /\
    forall i, h_cells h' !! i = if decide (i ∈ l) then Some (ref_cell i) else h_cells h !! i.
Proof.
  revert h. induction l as [|k l IH]; intros h Hl Hb; cbn [unwind_loop].
  { exists h. split_and!; [done..|]. intros i. rewrite decide_False; [done|]. apply not_elem_of_nil. }
  rewrite (heap_set_Ok L) by (done || apply (lo_vals _ HL), Hl; by left). rewrite Ok_bind.
  destruct (IH (with_cells h (<[k := ref_cell k]> (h_cells h)))) as (h' & -> & Hs & Hb' & Hc);
    [intros v Hv; apply Hl; by right|done|].
  exists h'. split_and!; [done..|]. intros i. rewrite Hc. cbn.
  destruct (decide (i ∈ l)) as [Hi|Hi].
  - rewrite decide_True by (by right). done.
  - rewrite lookup_insert. destruct (decide (k = i)) as [<-|Hne].
    + rewrite decide_True by (by left). done.
    + rewrite decide_False; [done|]. rewrite elem_of_cons. intuition.
Qed.

(** ** One call of [unify] *)

Lemma start_inv e a b :
  heap_ok L ∅ (e_heap e) -> good L a -> good L b ->
  inv import_bits L (h_cells (e_heap e)) a b (e_heap e) ∅ [(a, b)] [].
Proof.
  intros Hok Ha Hb. split; try done.
  - intros s _. exists 0%nat, s. split; [by apply fchain_root|lia].
  - by intros p ->%list_elem_of_singleton.
  - intros v c0 c _ H1 H2. left. congruence.
  - by intros Q HQ Hab p ->%list_elem_of_singleton.
  - intros Q HQ Hab v c Hv Hc. pose proof (self_var_ref v (proj2 (lo_vals _ HL v Hv))) as Hs.
    apply (un_var _ _ _ _ HQ); [by eapply self_var_good| |]; destruct Hs as (_ & ? & Hp); [done|by rewrite Hp].
  - apply ceq_pend. by left.
  - by intros v ?%elem_of_nil.
  - intros v Hv. destruct (ho_vals _ _ _ Hok v Hv) as (c & _ & _ & -> & _). by eexists.
Qed.

(** The end of a successful and of a failed call. *)
Definition success (e e' : term_env) (h2 : heap) (T : list Z) : Prop :=
  e_heap e' = h2 /\ exists T', e_trail e' = e_trail e ++ T' /\ T' ≡ₚ filter (fun x => x < e_hb e) T.
Definition failure (e e' : term_env) (h2 : heap) (T : list Z) : Prop :=
  e_trail e' = e_trail e /\ h_size (e_heap e') = h_size h2 /\ h_blocks (e_heap e') = h_blocks h2 /\
  forall i, h_cells (e_heap e') !! i = if decide (i ∈ T) then Some (ref_cell i) else h_cells h2 !! i.

Lemma unify_run fuel e a b :
  heap_ok L ∅ (e_heap e) -> e_temp_trail e = [] -> good L a -> good L b -> (S (weight L ∅) <= fuel)%nat ->
  exists r e' cost h1 F P T h2,
    unify import_bits fuel e a b = Ok (e', r, cost) /\
    e_stack e' = e_stack e /\ e_temp_trail e' = [] /\ e_hb e' = e_hb e /\
    inv import_bits L (h_cells (e_heap e)) a b h1 F P T /\
    heap_ok L ∅ h2 /\ (forall v, v ∈ ly_vals L -> h_cells h2 !! v = h_cells h1 !! v) /\
    if r then P = [] /\ success e e' h2 T
    else (forall Q, unifier import_bits L (h_cells (e_heap e)) Q -> ~ Q a b) /\ failure e e' h2 T.
Proof.
  intros Hok Htt Ha Hb Hfuel.
  set (es := push (push (set_register_hb e (h_size (e_heap e))) b) a).
  assert (Hst : state_ok import_bits L (h_cells (e_heap e)) a b (e_stack e) (e_trail e) es ∅ [(a, b)] []).
  { split; [by apply (start_inv e)|]. split; [|done]. split; [by rewrite app_nil_r| |apply Hok].
    cbn. rewrite Htt. constructor. }
  destruct (unify_loop_ok import_bits L HL _ a b (e_stack e) (e_trail e) fuel es ∅ [(a, b)] [] 0 Hst)
    as (r & e1 & F & P & T & cost & Hloop & (Hinv & [Htr Hlk Hhb] & pre & Hstk) & Hr).
  { unfold measure. cbn. lia. }
  destruct (restore_loop_ok L HL (e_heap e1) F (e_temp_trail e1) Hlk (in_ok _ _ _ _ _ _ _ _ _ Hinv))
    as (h2 & Hres & Hok2 & Hv2 & _ & _).
  unfold restore_cells_after_unify in Hloop. rewrite Hres, !Ok_bind in Hloop.
  set (e2 := with_temp_trail (with_heap e1 h2) []) in Hloop.
  unfold unify, unify_helper. change (push (push _ b) a) with es. change (stack_size _) with (length (e_stack e)).
  rewrite Hloop, Ok_bind. cbn beta iota. subst e2 es. exists r. destruct r.
  - destruct Hr as [-> Hbase]. unfold tidy_trail, trail_size, set_register_hb, with_temp_trail, with_heap.
    cbn [e_heap e_stack e_trail e_temp_trail e_hb]. rewrite Htr.
    destruct (tidy_loop_ok (e_hb e) (S (length (e_trail e ++ T) - length (e_trail e))) (e_trail e ++ T)
      (length (e_trail e)) (length (e_trail e ++ T))) as (T' & HT' & Hperm); [rewrite length_app; lia|lia|lia|].
    rewrite HT', !Ok_bind. rewrite take_app_length. rewrite drop_app_length, length_app, Nat.add_comm, Nat.add_sub, firstn_all in Hperm.
    eexists _, cost, (e_heap e1), F, [], T, h2. split; [done|]. cbn. split_and!; try done.
    split; [done|]. by exists T'.
  - unfold unwind_trail, trail_size, set_register_hb, with_temp_trail, with_heap.
    cbn [e_heap e_stack e_trail e_temp_trail e_hb].
    rewrite Htr, drop_app_length, length_app, Nat.add_comm, Nat.add_sub, firstn_all.
    destruct (unwind_ok h2 T) as (h3 & -> & Hs3 & Hb3 & Hc3);
      [intros v Hv; by apply (in_trail _ _ _ _ _ _ _ _ _ Hinv)|apply Hok2|].
    rewrite !Ok_bind. unfold trim_stack, trim_trail, trail_size, stack_size, with_stack, with_trail.
    cbn [e_heap e_stack e_trail e_temp_trail e_hb]. rewrite Hstk, take_app_length, !length_app.
    replace (length (e_stack e) - (length pre + length (e_stack e)))%nat with 0%nat by lia.
    replace (length (e_trail e) - (length (e_trail e) + length T))%nat with 0%nat by lia.
    rewrite Nat.add_sub, drop_app_length. cbn [replicate app]. rewrite app_nil_r.
    eexists _, cost, (e_heap e1), F, P, T, h2. split; [done|].
    cbn [e_heap e_stack e_trail e_temp_trail e_hb]. split_and!; done.
Qed.

(** ** Correctness *)

(** The cell of a variable or argument: unchanged up to the watch bit of an
    unbound variable. *)
Definition same_cell (v c0 c : Z) : Prop := c = c0 \/ (self_var v c0 /\ self_var v c).

Section theorems.
Context (fuel : nat) (e : term_env) (a b : Z).
Hypothesis Hok : heap_ok L ∅ (e_heap e).
Hypothesis Htt : e_temp_trail e = [].
Hypothesis Ha : good L a.
Hypothesis Hb : good L b.
Hypothesis Hfuel : (S (weight L ∅) <= fuel)%nat.

(** C7: Unification terminates on every well-formed heap, cyclic terms included,
    within one iteration per structure argument plus one; it throws nothing and
    returns [true] exactly when the two terms have a unifier (rational trees: no
    occurs check). *)
Theorem unify_decides :
  exists r e' cost, unify import_bits fuel e a b = Ok (e', r, cost) /\
    (r = true <-> unifiable import_bits L (h_cells (e_heap e)) a b).
Proof.
  destruct (unify_run fuel e a b Hok Htt Ha Hb Hfuel)
    as (r & e' & cost & h1 & F & P & T & h2 & H & _ & _ & _ & Hinv & _ & _ & Hr).
  exists r, e', cost. split; [done|]. destruct r.
  - destruct Hr as [-> _]. split; [|done]. intros _. exists (ceq import_bits L h1 F []).
    split; [by eapply ceq_unifier|by apply (in_goal _ _ _ _ _ _ _ _ _ Hinv)].
  - destruct Hr as [Hno _]. split; [done|]. intros (Q & HQ & Hab). by destruct (Hno Q HQ).
Qed.

(** C8: A successful unification leaves a well-formed heap in which the two terms
    are equal; it has only bound variables, the bindings hold in every unifier (so
    they are a most general one), and the stacks and [hb] are as before. *)
Theorem unify_most_general e' cost :
  unify import_bits fuel e a b = Ok (e', true, cost) ->
  heap_ok L ∅ (e_heap e') /\ equal_terms (e_heap e') a b /\
  (forall v c0 c, v ∈ ly_vals L -> h_cells (e_heap e) !! v = Some c0 -> h_cells (e_heap e') !! v = Some c ->
     c = c0 \/ self_var v c0) /\
  (forall Q, unifier import_bits L (h_cells (e_heap e)) Q -> Q a b ->
     forall v c, v ∈ ly_vals L -> h_cells (e_heap e') !! v = Some c -> Q (ref_cell v) c) /\
  e_stack e' = e_stack e /\ e_temp_trail e' = [] /\ e_hb e' = e_hb e.
Proof.
  destruct (unify_run fuel e a b Hok Htt Ha Hb Hfuel)
    as (r & e1 & cost1 & h1 & F & P & T & h2 & H & Hs & Ht & Hh & Hinv & Hok2 & Hv & Hr).
  rewrite H. intros [= -> -> ->]. destruct Hr as [-> [-> _]]. split_and!; try done.
  - eapply ceq_equal_terms; try done. by apply (in_goal _ _ _ _ _ _ _ _ _ Hinv).
  - intros v c0 c Hin Hc0. rewrite Hv by done. intros Hc.
    destruct (in_bound _ _ _ _ _ _ _ _ _ Hinv v c0 c Hin Hc0 Hc) as [?|[? _]]; auto.
  - intros Q HQ Hab v c Hin. rewrite Hv by done. by apply (in_binds _ _ _ _ _ _ _ _ _ Hinv).
Qed.

(** C9: A failed unification restores the environment: functor cells and the cells
    of big integers are as before, every variable or argument is as before up to
    the watch bit of unbound variables, and so are trail, stack, temporary trail
    and [hb]. *)
Theorem unify_failure_restores e' cost :
  unify import_bits fuel e a b = Ok (e', false, cost) ->
  (forall v c0, v ∈ ly_vals L -> h_cells (e_heap e) !! v = Some c0 ->
     exists c, h_cells (e_heap e') !! v = Some c /\ same_cell v c0 c) /\
  (forall s f, ly_fn L !! s = Some f -> h_cells (e_heap e') !! s = Some f) /\
  (forall i c, ly_dat L !! i = Some c -> h_cells (e_heap e') !! i = Some c) /\
  e_trail e' = e_trail e /\ e_stack e' = e_stack e /\ e_temp_trail e' = [] /\ e_hb e' = e_hb e.
Proof.
  destruct (unify_run fuel e a b Hok Htt Ha Hb Hfuel)
    as (r & e1 & cost1 & h1 & F & P & T & h2 & H & Hs & Ht & Hh & Hinv & Hok2 & Hv & Hr).
  rewrite H. intros [= -> -> ->]. destruct Hr as (_ & Htr & _ & _ & Hc).
  assert (HT : forall v, v ∈ T -> v ∈ ly_vals L) by (intros v ?; by apply (in_trail _ _ _ _ _ _ _ _ _ Hinv)).
  split_and!; try done.
  - intros v c0 Hin Hc0. rewrite Hc. destruct (decide (v ∈ T)) as [HvT|HvT].
    + eexists. split; [done|]. right. destruct (in_trail _ _ _ _ _ _ _ _ _ Hinv v HvT) as [_ Hself].
      split; [by apply Hself|]. apply self_var_ref. by apply (lo_vals _ HL).
    + destruct (val_get L HL ∅ h2 v Hok2 Hin) as (c & _ & Hc2 & _). exists c. split; [done|].
      rewrite Hv in Hc2 by done.
      destruct (in_bound _ _ _ _ _ _ _ _ _ Hinv v c0 c Hin Hc0 Hc2) as [?|[? [?|?]]]; [by left|done|by right].
  - intros s f Hf. destruct (lo_fn _ HL s f Hf) as (_ & _ & Hsv & _). rewrite Hc, decide_False by auto.
    by apply (ho_fn _ _ _ Hok2 s f).
  - intros i c Hi. destruct (lo_dat _ HL i) as [Hiv _]; [by eexists|]. rewrite Hc, decide_False by auto.
    eapply lookup_weaken; [done|]. apply Hok2.
Qed.

(** C10: After a successful unification the trail grows by entries below [hb] only,
    and unwinding it to its size at the start brings every variable or argument
    older than the choice point back, up to the watch bit of unbound variables. *)
Theorem unify_backtracks e' cost :
  unify import_bits fuel e a b = Ok (e', true, cost) ->
  (exists T, e_trail e' = e_trail e ++ T /\ forall v, v ∈ T -> v < e_hb e /\ v ∈ ly_vals L) /\
  exists e2, unwind_trail e' (trail_size e) (trail_size e') = Ok e2 /\
    forall v c0, v ∈ ly_vals L -> v < e_hb e -> h_cells (e_heap e) !! v = Some c0 ->
      exists c, h_cells (e_heap e2) !! v = Some c /\ same_cell v c0 c.
Proof.
  destruct (unify_run fuel e a b Hok Htt Ha Hb Hfuel)
    as (r & e1 & cost1 & h1 & F & P & T & h2 & H & Hs & Ht & Hh & Hinv & Hok2 & Hv & Hr).
  rewrite H. intros [= -> -> ->]. destruct Hr as (_ & Hh2 & T' & Htr & Hperm).
  assert (HT' : forall v, v ∈ T' <-> v < e_hb e /\ v ∈ T) by (intros v; by rewrite Hperm, list_elem_of_filter).
  assert (HT : forall v, v ∈ T -> v ∈ ly_vals L) by (intros v ?; by apply (in_trail _ _ _ _ _ _ _ _ _ Hinv)).
  split.
  { exists T'. split; [done|]. intros v [? ?]%HT'. auto. }
  unfold unwind_trail, trail_size. rewrite Htr, drop_app_length, length_app, Nat.add_comm, Nat.add_sub, firstn_all.
  destruct (unwind_ok (e_heap e') T') as (h3 & -> & _ & _ & Hc);
    [intros v [_ ?]%HT'; auto|rewrite Hh2; apply Hok2|].
  rewrite Ok_bind. eexists. split; [done|]. cbn [with_heap e_heap]. intros v c0 Hin Hlt Hc0. rewrite Hc.
  destruct (decide (v ∈ T')) as [HvT|HvT].
  - eexists. split; [done|]. right. apply HT' in HvT as [_ HvT].
    destruct (in_trail _ _ _ _ _ _ _ _ _ Hinv v HvT) as [_ Hself].
    split; [by apply Hself|]. apply self_var_ref. by apply (lo_vals _ HL).
  - destruct (val_get L HL ∅ h2 v Hok2 Hin) as (c & _ & Hc2 & _). rewrite Hh2. exists c. split; [done|].
    rewrite Hv in Hc2 by done.
    destruct (in_bound _ _ _ _ _ _ _ _ _ Hinv v c0 c Hin Hc0 Hc2) as [?|[? [?|?]]]; [by left| |by right].
    destruct HvT. by apply HT'.
Qed.

End theorems.
End unify.

(** ** An example: [f(X, a)] and [f(b, Y)] *)

Module Example.

Definition fn : Z := con_cell_index 7 2.
Definition atom_a : Z := con_cell_index 1 0.
Definition atom_b : Z := con_cell_index 2 0.

(** [f(X, a)] at 0 and [f(b, y)] at 3. *)
Definition lay : layout := Layout {[0 := fn; 3 := fn]} {[1; 2; 4; 5]} ∅ 6 1.
Definition cells (y : Z) : gmap Z Z :=
  {[0 := fn; 1 := ref_cell 1; 2 := atom_a; 3 := fn; 4 := atom_b; 5 := y]}.
Definition env (y : Z) : term_env := TermEnv (Heap (cells y) 6 1 [] true ∅ ∅) [] [] [] 2.

Definition digits (bs : list Z) : Z := foldl (fun v b => 256 * v + b) 0 bs.

Lemma lay_ok : layout_ok lay.
Proof.
  split.
  - intros s f Hs.
    assert (f = fn /\ (s = 0 \/ s = 3)) as [-> Hs'].
    { unfold lay in Hs. cbn [ly_fn] in Hs. apply lookup_insert_Some in Hs as [[<- <-]|[_ Hs]]; [auto|].
      apply lookup_singleton_Some in Hs as [<- <-]. auto. }
    assert (Hk : forall k, 0 <= k < con_arity fn -> k = 0 \/ k = 1).
    { change (con_arity fn) with 2. lia. }
    destruct Hs' as [-> | ->]; (split; [by vm_compute|split; [by vm_compute|split; [|split; [by vm_compute|split;
      [by vm_compute|]]]]]); [cbn; set_solver| |cbn; set_solver| ];
      intros k [-> | ->]%Hk; cbn; set_solver.
  - intros v Hv. assert (v = 1 \/ v = 2 \/ v = 4 \/ v = 5) as Hv' by (revert Hv; cbn; set_solver).
    destruct Hv' as [->|[->|[->| ->]]]; (split; by vm_compute).
  - intros i [c Hc]. by cbn in Hc.
Qed.

Lemma env_ok y n d :
  good lay y -> derefs (e_heap (env y)) y n d -> heap_ok lay ∅ (e_heap (env y)).
Proof.
  intros Hy Hd. split; try done.
  - intros s f Hs. unfold lay in Hs. cbn [ly_fn] in Hs.
    apply lookup_insert_Some in Hs as [[<- <-]|[_ Hs]]; [by vm_compute|].
    apply lookup_singleton_Some in Hs as [<- <-]. by vm_compute.
  - intros v Hv. assert (v = 1 \/ v = 2 \/ v = 4 \/ v = 5) as Hv' by (revert Hv; cbn; set_solver).
    destruct Hv' as [->|[->|[->| ->]]].
    + exists (ref_cell 1), 0%nat, (ref_cell 1). split; [by vm_compute|].
      split; [apply (self_var_good lay 1); [cbn; set_solver|by apply self_var_ref]|].
      apply derefs_self; by vm_compute.
    + exists atom_a, 0%nat, atom_a. split; [by vm_compute|]. split; [by vm_compute|]. by apply derefs_value.
    + exists atom_b, 0%nat, atom_b. split; [by vm_compute|]. split; [by vm_compute|]. by apply derefs_value.
    + exists y, n, d. split_and!; [|done..]. by vm_compute.
  - apply map_empty_subseteq.
Qed.

Lemma env_var_ok : heap_ok lay ∅ (e_heap (env (ref_cell 5))).
Proof.
  apply (env_ok _ 0 (ref_cell 5)); [apply (self_var_good lay 5); [cbn; set_solver|by apply self_var_ref]|].
  apply derefs_self; by vm_compute.
Qed.
Lemma env_atom_ok : heap_ok lay ∅ (e_heap (env atom_b)).
Proof. apply (env_ok _ 0 atom_b); [by vm_compute|by apply derefs_value]. Qed.

Lemma str_0_good : good lay (str_cell 0).
Proof. by apply (str_cell_good lay lay_ok 0 fn). Qed.
Lemma str_3_good : good lay (str_cell 3).
Proof. by apply (str_cell_good lay lay_ok 3 fn). Qed.

(** The two outcomes. *)
Definition env_or (r : res (term_env * bool * Z)) : term_env :=
  match r with Ok (e, _, _) => e | Throw _ => env_empty end.
Definition unified : term_env := env_or (unify digits 5 (env (ref_cell 5)) (str_cell 0) (str_cell 3)).
Definition refused : term_env := env_or (unify digits 5 (env atom_b) (str_cell 0) (str_cell 3)).

Lemma unified_eq : exists cost, unify digits 5 (env (ref_cell 5)) (str_cell 0) (str_cell 3) = Ok (unified, true, cost).
Proof. eexists. vm_compute. reflexivity. Qed.
Lemma refused_eq : exists cost, unify digits 5 (env atom_b) (str_cell 0) (str_cell 3) = Ok (refused, false, cost).
Proof. eexists. vm_compute. reflexivity. Qed.

End Example.
Import Example.

Lemma unify_decides_witness :
  exists r e' cost, unify digits 5 (env (ref_cell 5)) (str_cell 0) (str_cell 3) = Ok (e', r, cost) /\
    (r = true <-> unifiable digits lay (cells (ref_cell 5)) (str_cell 0) (str_cell 3)).
Proof.
  apply (unify_decides digits lay lay_ok 5 (env (ref_cell 5)) (str_cell 0) (str_cell 3) env_var_ok);
    [done|apply str_0_good|apply str_3_good|by apply Nat.leb_le; vm_compute].
Defined.

Lemma unify_most_general_witness :
  heap_ok lay ∅ (e_heap unified) /\ equal_terms digits lay (e_heap unified) (str_cell 0) (str_cell 3) /\
  h_cells (e_heap unified) !! 1 = Some atom_b /\ h_cells (e_heap unified) !! 5 = Some atom_a.
Proof.
  destruct unified_eq as [cost H].
  destruct (unify_most_general digits lay lay_ok 5 (env (ref_cell 5)) (str_cell 0) (str_cell 3) env_var_ok
    eq_refl str_0_good str_3_good ltac:(by apply Nat.leb_le; vm_compute) unified cost H) as (H1 & H2 & _).
  split_and!; [exact H1|exact H2|by vm_compute|by vm_compute].
Defined.

Lemma unify_failure_restores_witness :
  e_trail refused = [] /\ e_stack refused = [] /\ e_hb refused = 2 /\
  exists c, h_cells (e_heap refused) !! 1 = Some c /\ same_cell 1 (ref_cell 1) c.
Proof.
  destruct refused_eq as [cost H].
  destruct (unify_failure_restores digits lay lay_ok 5 (env atom_b) (str_cell 0) (str_cell 3) env_atom_ok
    eq_refl str_0_good str_3_good ltac:(by apply Nat.leb_le; vm_compute) refused cost H)
    as (H1 & _ & _ & H2 & H3 & _ & H4).
  split_and!; [exact H2|exact H3|exact H4|].
  apply (H1 1 (ref_cell 1)); [cbn; set_solver|by vm_compute].
Defined.

Lemma unify_backtracks_witness :
  e_trail unified = [1] /\
  exists e2, unwind_trail unified 0 1 = Ok e2 /\
    exists c, h_cells (e_heap e2) !! 1 = Some c /\ same_cell 1 (ref_cell 1) c.
Proof.
  destruct unified_eq as [cost H].
  destruct (unify_backtracks digits lay lay_ok 5 (env (ref_cell 5)) (str_cell 0) (str_cell 3) env_var_ok
    eq_refl str_0_good str_3_good ltac:(by apply Nat.leb_le; vm_compute) unified cost H)
    as (_ & e2 & H1 & H2).
  split; [by vm_compute|]. exists e2. split; [exact H1|].
  apply (H2 1 (ref_cell 1)); [cbn; set_solver|done|by vm_compute].
Defined.
