(* ===== verification/UnifyFrame.v ===== *)
(** * What unification may touch, on any heap

    The theorems of [Unify] need a well-formed heap.  A machine that runs also unifies
    while structures are under construction; this file states what holds without any
    layout: a call of [unify] that returns changes unbound variables only, records in the
    trail those older than the choice point, and puts every functor cell back. *)

From S2P Require Import Prelude Cells Heap Bigs TermEnv HeapSpec Unify.

(** ** Heaps that differ in variables *)

(** The address in a cell has 61 bits. *)
Definition address (c : Z) : Z := wrap 61 (ptr_index c).

Lemma address_mk t i : address (mk_cell t i) = wrap 61 i.
Proof.
  unfold address, ptr_index, cell_value. apply Z.bits_inj'. intros n Hn.
  rewrite !wrap_spec, Z.shiftr_spec, mk_cell_bits by lia. rewrite (proj2 (Z.ltb_ge (n + 3) 3)) by lia.
  replace (n + 3 - 3) with n by lia. bool_cases; rewrite ?andb_false_r, ?andb_true_r; done || lia.
Qed.

Lemma address_index c : is_index (ptr_index c) -> address c = ptr_index c.
Proof. apply wrap_id. Qed.


(** [c] is an unbound variable at [i]. *)
Definition self_ref (i c : Z) : Prop := is_ref (cell_tag c) = true /\ address c = i.

(** Equal up to the watch bit of a reference. *)
Definition watch_eq (o o' : option Z) : Prop :=
  o = o' \/ exists c c', o = Some c /\ o' = Some c' /\
    is_ref (cell_tag c) = true /\ is_ref (cell_tag c') = true /\ address c = address c'.

#[export] Instance watch_eq_equiv : Equivalence watch_eq.
Proof.
  split.
  - intros o. by left.
  - intros o o' [->|(c & c' & ? & ? & ? & ? & ?)]; [by left|]. right. by exists c', c.
  - intros o o' o'' [->|(c & c' & -> & -> & H1 & H2 & H3)]; [done|].
    intros [<-|(d & d' & [= <-] & -> & H4 & H5 & H6)]; right; [by exists c, c'|exists c, d'].
    split_and!; done || congruence.
Qed.

Definition was_var (i : Z) (o : option Z) : Prop := exists c, o = Some c /\ self_ref i c.

#[export] Instance was_var_proper i : Proper (watch_eq ==> iff) (was_var i).
Proof.
  assert (H : forall o o', watch_eq o o' -> was_var i o -> was_var i o').
  { intros o o' [->|(c & c' & -> & -> & _ & H & Hp)]; [done|]. intros (d & [= <-] & _ & <-). by exists c'. }
  intros o o' Ho. split; apply H; [done|by symmetry].
Qed.

Lemma was_var_some i o : was_var i o -> is_Some o.
Proof. intros (c & -> & _). by eexists. Qed.

Lemma watch_eq_some o o' : watch_eq o o' -> is_Some o' -> is_Some o.
Proof. intros [->|(c & c' & -> & -> & _)]; [done|by eexists]. Qed.

Lemma was_var_watch i c c' : self_ref i c -> self_ref i c' -> watch_eq (Some c) (Some c').
Proof. intros [H1 <-] [H2 Hp]. right. by exists c, c'. Qed.

Lemma self_ref_cell i : is_index i -> self_ref i (ref_cell i).
Proof. intros. unfold self_ref, ref_cell. by rewrite cell_tag_mk, address_mk, wrap_id. Qed.

Lemma self_ref_watched i : is_index i -> self_ref i (ref_cell_watched i).
Proof. intros. unfold self_ref, ref_cell_watched. by rewrite cell_tag_mk, address_mk, wrap_id. Qed.

(** [m'] is [m] with variables of [P] bound. *)
Definition binds (P : Z -> Prop) (m m' : gmap Z Z) : Prop :=
  forall i, watch_eq (m !! i) (m' !! i) \/ was_var i (m !! i) /\ is_Some (m' !! i) /\ P i.

Lemma binds_refl P m : binds P m m.
Proof. intros i. left. reflexivity. Qed.

Lemma binds_trans P m1 m2 m3 : binds P m1 m2 -> binds P m2 m3 -> binds P m1 m3.
Proof.
  intros H1 H2 i. destruct (H2 i) as [E2|(V2 & S2 & P2)].
  - destruct (H1 i) as [E1|(V1 & S1 & P1)]; [left; by rewrite E1|right]. split; [done|]. split; [|done].
    symmetry in E2. by apply (watch_eq_some _ _ E2).
  - right. split; [|done]. destruct (H1 i) as [E1|(V1 & _)]; [by rewrite E1|done].
Qed.

Lemma binds_mono (P Q : Z -> Prop) m m' : (forall i, P i -> Q i) -> binds P m m' -> binds Q m m'.
Proof. intros HPQ H i. destruct (H i) as [?|(? & ? & ?)]; auto. Qed.

Lemma binds_insert (P : Z -> Prop) m i v : was_var i (m !! i) -> P i -> binds P m (<[i := v]> m).
Proof.
  intros Hv HP j. rewrite lookup_insert. destruct (decide (i = j)) as [<-|Hne]; [|left; reflexivity].
  right. split; [done|]. split; [by eexists|done].
Qed.

Lemma binds_watch P m i c : watch_eq (m !! i) (Some c) -> binds P m (<[i := c]> m).
Proof. intros H j. left. rewrite lookup_insert. by destruct (decide (i = j)) as [<-|Hne]. Qed.

Lemma binds_dom P m m' i : binds P m m' -> is_Some (m' !! i) -> is_Some (m !! i).
Proof. intros H Hs. destruct (H i) as [E|(V & _)]; [by apply (watch_eq_some _ _ E)|by eapply was_var_some]. Qed.

(** Addresses are indices that fit a cell. *)
Record plain_heap (h : heap) : Prop := PlainHeap {
  ph_size : h_size h <= 2 ^ 61;
  ph_dom : forall i, is_Some (h_cells h !! i) -> 0 <= i
}.

Lemma plain_binds P h h' :
  plain_heap h -> h_size h' = h_size h -> binds P (h_cells h) (h_cells h') -> plain_heap h'.
Proof. intros [S D] Hs Hb. split; [by rewrite Hs|]. intros i Hi. apply D. by eapply binds_dom. Qed.

Lemma heap_get_cell h i c : heap_get h i = Ok c -> h_cells h !! i = Some c /\ i < h_size h.
Proof.
  unfold heap_get, check_index. intros (u & Hr & Hc)%bind_Ok.
  apply require_Ok, Z.ltb_lt in Hr. by apply of_option_Ok in Hc.
Qed.

Lemma heap_get_index h i c : plain_heap h -> heap_get h i = Ok c -> is_index i.
Proof. intros [S D] [Hc Hi]%heap_get_cell. split; [apply D; by eexists|lia]. Qed.

Lemma heap_set_cells h i c h' : heap_set h i c = Ok h' -> h' = with_cells h (<[i := c]> (h_cells h)).
Proof. unfold heap_set. intros (u & _ & H)%bind_Ok. by injection H. Qed.

(** Dereferencing ends in a value or in an unbound variable. *)
Lemma deref_loop_end fuel h c cost d cost' :
  deref_loop fuel h c cost = Ok (d, cost') -> is_ref (cell_tag d) = true ->
  heap_get h (ptr_index d) = Ok d.
Proof.
  revert c cost. induction fuel as [|fuel IH]; intros c cost H Hd; [done|]. cbn [deref_loop] in H.
  destruct (is_ref (cell_tag c)) eqn:Hr; [|congruence].
  apply bind_Ok in H as (r & Hg & H). destruct (Z.eqb_spec r c) as [->|Hne]; [|by eapply IH].
  congruence.
Qed.

Lemma deref_end h c d cost : deref_with_cost h c = Ok (d, cost) -> is_ref (cell_tag d) = true ->
  heap_get h (ptr_index d) = Ok d.
Proof. apply deref_loop_end. Qed.

Definition var_at (h : heap) (i : Z) : Prop :=
  is_index i /\ i < h_size h /\ was_var i (h_cells h !! i).

Lemma deref_var h c d cost : plain_heap h -> deref_with_cost h c = Ok (d, cost) -> is_ref (cell_tag d) = true ->
  var_at h (ptr_index d).
Proof.
  intros Hp H Hr. apply deref_end in H; [|done]. pose proof (heap_get_index _ _ _ Hp H) as Hi.
  destruct (heap_get_cell _ _ _ H) as [Hc Hs]. split; [done|]. split; [done|]. exists d.
  split; [done|]. split; [done|by apply address_index].
Qed.

(** Setting or clearing the watch bit. *)
Lemma heap_watch_cells h i b h' :
  heap_watch h i b = Ok h' ->
  exists c, h' = with_cells h (<[i := c]> (h_cells h)) /\ watch_eq (h_cells h !! i) (Some c).
Proof.
  unfold heap_watch. intros (u & _ & (c & Hc%of_option_Ok & H)%bind_Ok)%bind_Ok. injection H as <-.
  eexists. split; [done|]. rewrite Hc.
  destruct (bool_decide (cell_tag c = REF) && b) eqn:E1.
  { apply andb_true_iff in E1 as [E1%bool_decide_eq_true _]. right. eexists c, _. split_and!; [done..| | |].
    - by rewrite E1.
    - unfold ref_cell_watched. by rewrite cell_tag_mk.
    - unfold ref_cell_watched. rewrite address_mk. done. }
  destruct (bool_decide (cell_tag c = RFW) && negb b) eqn:E2; [|by left].
  apply andb_true_iff in E2 as [E2%bool_decide_eq_true _]. right. eexists c, _. split_and!; [done..| | |].
  - by rewrite E2.
  - unfold ref_cell. by rewrite cell_tag_mk.
  - unfold ref_cell. rewrite address_mk. done.
Qed.

(** ** Functor cells behind forwarding pointers *)

(** Undoing the links [tt], last one first, turns [m] into [m']. *)
Inductive restores (m : gmap Z Z) : list Z -> gmap Z Z -> Prop :=
  | restores_nil : restores m [] m
  | restores_cons i fwd c tt m' :
      m !! i = Some fwd -> cell_tag fwd = FWD -> m !! ptr_index fwd = Some c -> cell_tag c = CON ->
      restores (<[i := c]> m) tt m' -> restores m (i :: tt) m'.

(** The links leave references alone. *)
Lemma restores_ref m tt m' i : restores m tt m' -> (exists c, m !! i = Some c /\ is_ref (cell_tag c) = true) ->
  m' !! i = m !! i.
Proof.
  induction 1 as [m|m j fwd c tt m' Hj Ht Hc Htc H IH]; intros (d & Hd & Hr); [done|].
  assert (j <> i) by (intros ->; rewrite Hj in Hd; injection Hd as ->; by rewrite Ht in Hr).
  rewrite IH; [by rewrite lookup_insert_ne|]. exists d. by rewrite lookup_insert_ne.
Qed.

Lemma restores_bind m tt m' i v :
  restores m tt m' -> (exists c, m !! i = Some c /\ is_ref (cell_tag c) = true) ->
  restores (<[i := v]> m) tt (<[i := v]> m').
Proof.
  induction 1 as [m|m j fwd c tt m' Hj Ht Hc Htc H IH]; intros (d & Hd & Hr); [constructor|].
  assert (j <> i) by (intros ->; rewrite Hj in Hd; injection Hd as ->; by rewrite Ht in Hr).
  assert (ptr_index fwd <> i) by (intros E; rewrite E, Hd in Hc; injection Hc as ->; by rewrite Htc in Hr).
  econstructor; [by rewrite lookup_insert_ne|done|by rewrite lookup_insert_ne|done|].
  rewrite insert_insert_ne by done. apply IH. exists d. by rewrite lookup_insert_ne.
Qed.

Lemma restores_link m tt m' i j c :
  restores m tt m' -> m !! i = Some c -> m !! j = Some c -> i <> j -> cell_tag c = CON -> is_index j ->
  restores (<[i := fwd_cell j]> m) (i :: tt) m'.
Proof.
  intros H Hi Hj Hne Ht Hx. assert (ptr_index (fwd_cell j) = j) as Hp by by apply cell_value_mk.
  econstructor; [by rewrite lookup_insert_eq|apply cell_tag_mk|rewrite Hp, lookup_insert_ne by done; exact Hj|done|].
  rewrite insert_insert_eq, insert_id by done. exact H.
Qed.

Lemma restores_loop h tt h' m' :
  restores (h_cells h) tt m' -> restore_loop h tt = Ok h' ->
  h_cells h' = m' /\ h_size h' = h_size h /\ h_blocks h' = h_blocks h.
Proof.
  revert h. induction tt as [|i tt IH]; intros h H; inversion H; subst; cbn [restore_loop].
  { intros E. by injection E as <-. }
  intros (f & [Hf _]%heap_get_cell & (d & [Hd _]%heap_get_cell & (h1 & ->%heap_set_cells & E)%bind_Ok)%bind_Ok)%bind_Ok.
  simplify_eq. by apply (IH (with_cells h (<[i := c]> (h_cells h)))).
Qed.

(** ** One run of the loop *)

Section frame.
Context (import_bits : list Z -> Z).
Context (e0 : term_env).

(** The state of the loop against its start: taking the links back now would leave
    [e0] with variables bound; those below [hb] are in the trail. *)
Record framed (e : term_env) (T : list Z) (m : gmap Z Z) : Prop := Framed {
  fr_restores : restores (h_cells (e_heap e)) (e_temp_trail e) m;
  fr_binds : binds (fun i => i < h_size (e_heap e0) /\ (i ∈ T \/ e_hb e0 <= i)) (h_cells (e_heap e0)) m;
  fr_size : h_size (e_heap e) = h_size (e_heap e0);
  fr_blocks : h_blocks (e_heap e) = h_blocks (e_heap e0);
  fr_trail : e_trail e = e_trail e0 ++ T;
  fr_vars : forall i, i ∈ T -> i < e_hb e0 /\ var_at (e_heap e0) i;
  fr_hb : e_hb e = e_hb e0
}.

Definition frame (e : term_env) : Prop := exists T m, framed e T m.

Hypothesis Hplain : plain_heap (e_heap e0).

Lemma restores_dom m tt m' i : restores m tt m' -> is_Some (m !! i) -> is_Some (m' !! i).
Proof.
  induction 1 as [|m j fwd c tt m' Hj Ht Hc Htc H IH]; [done|]. intros Hi. apply IH.
  rewrite lookup_insert. by destruct (decide (j = i)).
Qed.

Lemma framed_plain e T m : framed e T m -> plain_heap (e_heap e).
Proof.
  intros [R B S _ _ _ _]. destruct Hplain as [S0 D0]. split; [by rewrite S|].
  intros i Hi. apply D0. eapply binds_dom; [exact B|]. by eapply restores_dom.
Qed.

(** The stack does not matter. *)
Lemma frame_stack e s : frame (with_stack e s) <-> frame e.
Proof. split; intros (T & m & [R B S Bl Tr V H]); exists T, m; by split. Qed.

Lemma framed_var e T m i :
  framed e T m -> var_at (e_heap e) i -> m !! i = h_cells (e_heap e) !! i /\ var_at (e_heap e0) i.
Proof.
  intros F (Hi & Hs & Hv). pose proof Hv as (c & Hc & Hr & _).
  assert (Hm : m !! i = h_cells (e_heap e) !! i) by (eapply restores_ref; [apply F|by exists c]).
  split; [done|]. split; [done|]. split; [by rewrite <-(fr_size _ _ _ F)|].
  destruct (fr_binds _ _ _ F i) as [E|(V & _)]; [|done]. by rewrite E, Hm.
Qed.

Lemma frame_bind e a b e' :
  frame e -> var_at (e_heap e) (ptr_index a) -> bind e a b = Ok e' -> frame e'.
Proof.
  intros (T & m & F) Hv H. unfold bind in H. apply bind_Ok in H as (h & ->%heap_set_cells & H).
  injection H as <-. destruct (framed_var e T m _ F Hv) as [Hm Hv0]. destruct F as [R B S Bl Tr V H].
  set (i := ptr_index a) in *. destruct Hv as (_ & Hs & Hv). pose proof Hv as (c & Hc & Hr & _).
  set (h := if bool_decide (cell_tag a = RFW) then add_watched (e_heap e) i else e_heap e).
  assert (h_cells h = h_cells (e_heap e) /\ h_size h = h_size (e_heap e) /\ h_blocks h = h_blocks (e_heap e)) as (Eh & Es & Eb).
  { unfold h, add_watched. destruct (bool_decide (cell_tag a = RFW)); [|done]. by destruct (bool_decide _). }
  exists (if i <? e_hb e then T ++ [i] else T), (<[i := b]> m).
  assert (Hb : forall T' : list Z, (forall j, j ∈ T -> j ∈ T') -> i ∈ T' \/ e_hb e0 <= i ->
    binds (fun j => j < h_size (e_heap e0) /\ (j ∈ T' \/ e_hb e0 <= j)) (h_cells (e_heap e0)) (<[i := b]> m)).
  { intros T' HT Hi. eapply binds_trans; [eapply binds_mono; [|exact B]|apply binds_insert].
    - intros j [Hj [?|?]]; (split; [done|]); [left; auto|by right].
    - by rewrite Hm.
    - split; [by rewrite <-S|done]. }
  unfold trail. cbn. rewrite H. destruct (Z.ltb_spec i (e_hb e0)) as [Hlt|Hge].
  - split; cbn; rewrite ?Es, ?Eb, ?Eh; try done.
    + apply restores_bind; [done|]. by exists c.
    + apply Hb; [intros j Hj; apply elem_of_app; by left|left; apply elem_of_app; right; by apply list_elem_of_singleton].
    + by rewrite Tr, app_assoc.
    + intros j [Hj|Hj%list_elem_of_singleton]%elem_of_app; [by apply V|by subst j].
  - split; cbn; rewrite ?Es, ?Eb, ?Eh; try done.
    + apply restores_bind; [done|]. by exists c.
    + apply Hb; [done|by right].
Qed.

Lemma frame_watch e i b h : frame e -> var_at (e_heap e) i ->
  heap_watch (e_heap e) i b = Ok h -> frame (with_heap e h) /\ forall j, var_at (e_heap e) j -> var_at h j.
Proof.
  intros (T & m & F) Hv H. destruct (framed_var e T m _ F Hv) as [Hm Hv0]. destruct F as [R B S Bl Tr V Hh].
  destruct (heap_watch_cells _ _ _ _ H) as (c' & -> & Hw). destruct Hv as (_ & _ & c & Hcell & Hr & _). split.
  - exists T, (<[i := c']> m). split; cbn; try done.
    + apply restores_bind; [done|]. by exists c.
    + eapply binds_trans; [exact B|]. apply binds_watch. by rewrite Hm.
  - intros j (Hj & Hs & Hvj). split; [done|]. split; [done|]. cbn. rewrite lookup_insert.
    destruct (decide (i = j)) as [<-|]; [|done]. by rewrite <-Hw.
Qed.

Lemma frame_refs e a b e' :
  frame e -> unify_refs e a b = Ok e' -> var_at (e_heap e) (ptr_index a) -> var_at (e_heap e) (ptr_index b) ->
  frame e'.
Proof.
  intros F H Ha Hb. unfold unify_refs in H.
  assert (Hk : forall x y (w : bool) h, var_at (e_heap e) (ptr_index x) -> var_at (e_heap e) (ptr_index y) ->
    (if w then heap_watch (e_heap e) (ptr_index x) true else Ok (e_heap e)) = Ok h ->
    bind (with_heap e h) y x = Ok e' -> frame e').
  { intros x y w h Hx Hy Hw Hbind. destruct w.
    - destruct (frame_watch e _ true h F Hx Hw) as [F' Hk]. apply (frame_bind (with_heap e h) y x e' F'); [|exact Hbind].
      by apply Hk.
    - injection Hw as <-. apply (frame_bind e y x); [done..|]. by destruct e. }
  destruct (ptr_index a <? ptr_index b); apply bind_Ok in H as (h & Hw & H).
  - exact (Hk a b _ h Ha Hb Hw H).
  - exact (Hk b a _ h Hb Ha Hw H).
Qed.

Lemma fwd_loop_end fuel h i j c :
  fwd_loop fuel h i = Ok (j, c) -> heap_get h j = Ok c /\ cell_tag c <> FWD.
Proof.
  revert i. induction fuel as [|fuel IH]; intros i H; [done|]. cbn [fwd_loop] in H.
  apply bind_Ok in H as (d & Hd & H). destruct (bool_decide (cell_tag d = FWD)) eqn:E; [by eapply IH|].
  injection H as <- <-. split; [done|]. by apply bool_decide_eq_false in E.
Qed.

Lemma frame_push_args n e a b e' : frame e -> push_args n e a b = Ok e' -> frame e'.
Proof.
  revert e. induction n as [|n IH]; intros e F H; cbn [push_args] in H; [by injection H as <-|].
  apply bind_Ok in H as (x & _ & (y & _ & H)%bind_Ok). eapply IH; [|exact H]. by apply frame_stack, frame_stack.
Qed.

Lemma frame_structures e a b e' r : frame e -> unify_structures e a b = Ok (e', r) -> frame e'.
Proof.
  intros F H. unfold unify_structures in H.
  apply bind_Ok in H as ([i x] & Hx%fwd_loop_end & ([j y] & Hy%fwd_loop_end & H)%bind_Ok).
  destruct Hx as [Hx Hxt], Hy as [Hy Hyt].
  apply bind_Ok in H as (u & Ht%require_Ok%bool_decide_eq_true & (u' & _ & H)%bind_Ok).
  destruct (Z.eqb_spec i j) as [->|Hne]; [by injection H as <- _|].
  destruct (Z.eqb_spec x y) as [->|]; cbn [negb] in H; [|by injection H as <- _].
  apply bind_Ok in H as (h & ->%heap_set_cells & (e1 & Hp & H)%bind_Ok). injection H as <- _.
  eapply frame_push_args; [|exact Hp]. destruct F as (T & m & F).
  pose proof (heap_get_index _ _ _ (framed_plain e T m F) Hy) as Hj.
  apply heap_get_cell in Hx as [Hx _], Hy as [Hy _]. destruct F as [R B S Bl Tr V Hh].
  exists T, m. split; cbn; try done. by apply (restores_link _ _ _ i j y).
Qed.

Lemma frame_cells e a b e' r :
  frame e -> unify_cells import_bits e a b = Ok (e', r) ->
  (is_ref (cell_tag a) = true -> var_at (e_heap e) (ptr_index a)) ->
  (is_ref (cell_tag b) = true -> var_at (e_heap e) (ptr_index b)) -> frame e'.
Proof.
  intros F H Ha Hb. unfold unify_cells in H. destruct (a =? b); [by injection H as <- _|].
  destruct (is_ref (cell_tag a)) eqn:Hra; [destruct (is_ref (cell_tag b)) eqn:Hrb|destruct (is_ref (cell_tag b)) eqn:Hrb].
  - apply bind_Ok in H as (e1 & H1 & H). injection H as <- _. eapply frame_refs; eauto.
  - apply bind_Ok in H as (e1 & H1 & H). injection H as <- _. eapply frame_bind; eauto.
  - apply bind_Ok in H as (e1 & H1 & H). injection H as <- _. eapply frame_bind; eauto.
  - destruct (negb _); [by injection H as <- _|].
    destruct (cell_tag a); try by injection H as <- _.
    + apply bind_Ok in H as (x & _ & H). by injection H as <- _.
    + by eapply frame_structures.
Qed.

Lemma frame_step e cost e' cost' r :
  frame e -> unify_step import_bits e cost = Ok (e', cost', r) -> frame e'.
Proof.
  intros F H. unfold unify_step in H.
  apply bind_Ok in H as ([a e1] & Hp1 & ([a' c1] & Ha & ([b e2] & Hp2 & ([b' c2] & Hb & ([e3 ok] & Hc & H)%bind_Ok)%bind_Ok)%bind_Ok)%bind_Ok).
  injection H as <- _ _. unfold pop in Hp1, Hp2.
  destruct (e_stack e) as [|a0 s] eqn:Es; [done|]. injection Hp1 as <- <-. cbn [e_stack with_stack] in Hp2.
  destruct s as [|b0 s]; [done|]. injection Hp2 as <- <-. cbn [e_heap with_stack] in Ha, Hb.
  assert (Hp : plain_heap (e_heap e)) by (destruct F as (T & m & F); by eapply framed_plain).
  eapply frame_cells; [|exact Hc|..]; [by apply frame_stack, frame_stack| |];
    cbn; intros Hr; by eapply deref_var.
Qed.

(** The state after the links have been taken back. *)
Record rebound (e : term_env) (T : list Z) : Prop := Rebound {
  rb_binds : binds (fun i => i < h_size (e_heap e0) /\ (i ∈ T \/ e_hb e0 <= i)) (h_cells (e_heap e0)) (h_cells (e_heap e));
  rb_size : h_size (e_heap e) = h_size (e_heap e0);
  rb_blocks : h_blocks (e_heap e) = h_blocks (e_heap e0);
  rb_trail : e_trail e = e_trail e0 ++ T;
  rb_temp : e_temp_trail e = [];
  rb_vars : forall i, i ∈ T -> i < e_hb e0 /\ var_at (e_heap e0) i;
  rb_hb : e_hb e = e_hb e0
}.

Lemma restored e e' : frame e -> restore_cells_after_unify e = Ok e' -> exists T, rebound e' T.
Proof.
  intros (T & m & [R B S Bl Tr V Hh]) H. unfold restore_cells_after_unify in H.
  apply bind_Ok in H as (h & Hr & H). injection H as <-.
  destruct (restores_loop _ _ _ _ R Hr) as (Hc & Hs & Hb).
  exists T. split; cbn; try done; [by rewrite Hc|congruence..].
Qed.

Lemma frame_loop fuel d e cost e' r cost' :
  frame e -> unify_loop import_bits fuel d e cost = Ok (e', r, cost') -> exists T, rebound e' T.
Proof.
  revert e cost. induction fuel as [|fuel IH]; intros e cost F H; cbn [unify_loop] in H.
  all: destruct (d <? stack_size e)%nat; [|apply bind_Ok in H as (e1 & Hr & H); injection H as <- <- <-; by eapply restored].
  - done.
  - apply bind_Ok in H as ([[e1 c1] ok] & Hs & H). pose proof (frame_step _ _ _ _ _ F Hs) as F1.
    destruct ok; [by eapply IH|]. apply bind_Ok in H as (e2 & Hr & H). injection H as <- <- <-. by eapply restored.
Qed.

End frame.

(** ** A whole call *)

Lemma unwind_loop_cells h l h' :
  unwind_loop h l = Ok h' -> h_size h' = h_size h /\ h_blocks h' = h_blocks h /\
    forall i, h_cells h' !! i = if decide (i ∈ l) then Some (ref_cell i) else h_cells h !! i.
Proof.
  revert h. induction l as [|k l IH]; intros h H; cbn [unwind_loop] in H.
  { injection H as <-. split_and!; [done..|]. intros i. rewrite decide_False; [done|]. apply not_elem_of_nil. }
  apply bind_Ok in H as (h1 & ->%heap_set_cells & H). destruct (IH _ H) as (Hs & Hb & Hc).
  split_and!; [done..|]. intros i. rewrite Hc. cbn. destruct (decide (i ∈ l)) as [Hi|Hi].
  - by rewrite decide_True by (by right).
  - rewrite lookup_insert. destruct (decide (k = i)) as [<-|Hne]; [by rewrite decide_True by (by left)|].
    rewrite decide_False; [done|]. rewrite elem_of_cons. intuition.
Qed.

Section unify.
Context (import_bits : list Z -> Z).

(** [e'] is [e] with some variables bound: those older than [hb] are the trail entries
    [T]. *)
Record unified_env (e e' : term_env) (T : list Z) : Prop := UnifiedEnv {
  ue_binds : binds (fun i => i ∈ T \/ e_hb e <= i) (h_cells (e_heap e)) (h_cells (e_heap e'));
  ue_size : h_size (e_heap e') = h_size (e_heap e);
  ue_blocks : h_blocks (e_heap e') = h_blocks (e_heap e);
  ue_trail : e_trail e' = e_trail e ++ T;
  ue_temp : e_temp_trail e' = [];
  ue_vars : forall i, i ∈ T -> i < e_hb e /\ var_at (e_heap e) i;
  ue_hb : e_hb e' = e_hb e
}.

(** Unwinding the entries [T] takes back the bindings they record. *)
Lemma unwind_binds (P : Z -> Prop) h h1 h2 T :
  binds (fun i => i ∈ T \/ P i) (h_cells h) (h_cells h1) -> (forall i, i ∈ T -> var_at h i) ->
  unwind_loop h1 T = Ok h2 -> binds P (h_cells h) (h_cells h2) /\ h_size h2 = h_size h1 /\ h_blocks h2 = h_blocks h1.
Proof.
  intros B V H. destruct (unwind_loop_cells _ _ _ H) as (Hs & Hb & Hc). split; [|done].
  intros i. rewrite Hc. destruct (decide (i ∈ T)) as [Hi|Hi].
  - left. destruct (V i Hi) as (Hx & _ & c & -> & Hself). eapply was_var_watch; [done|by apply self_ref_cell].
  - destruct (B i) as [?|(? & ? & [?|?])]; [by left|done|by right].
Qed.

Lemma unify_frame fuel e a b e' r cost :
  plain_heap (e_heap e) -> e_temp_trail e = [] ->
  unify import_bits fuel e a b = Ok (e', r, cost) -> exists T, unified_env e e' T /\
    (r = false -> T = [] /\ forall i, watch_eq (h_cells (e_heap e) !! i) (h_cells (e_heap e') !! i)).
Proof.
  intros Hp Ht H. set (es := set_register_hb e (h_size (e_heap e))).
  change (('(e1, r1, c1) ← unify_helper import_bits fuel es a b;
    if (r1 : bool) then
      e2 ← tidy_trail (set_register_hb e1 (e_hb e)) (trail_size e) (trail_size e1); Ok (e2, true, c1)
    else
      e2 ← unwind_trail e1 (trail_size e) (trail_size e1);
      Ok (set_register_hb (trim_stack (trim_trail e2 (trail_size e)) (stack_size e)) (e_hb e), false, c1))
    = Ok (e', r, cost)) in H.
  apply bind_Ok in H as ([[e1 r1] c1] & Hu & H). unfold unify_helper in Hu.
  assert (F : frame es (push (push es b) a)).
  { exists [], (h_cells (e_heap e)). split; cbn; rewrite ?Ht, ?app_nil_r; try done; [constructor|apply binds_refl|].
    by intros i ?%elem_of_nil. }
  destruct (frame_loop import_bits es Hp _ _ _ _ _ _ _ F Hu) as (T & [B Hsz Bl Tr Te V Hh]).
  cbn in B, Hsz, Bl, Tr, V, Hh.
  assert (B' : forall P, binds (fun i => i ∈ T \/ P i) (h_cells (e_heap e)) (h_cells (e_heap e1))).
  { intros P. eapply binds_mono; [|exact B]. intros i [? [?|?]]; [by left|lia]. }
  assert (Hlen : trail_size e1 = (trail_size e + length T)%nat) by (unfold trail_size; by rewrite Tr, length_app).
  destruct r1.
  - apply bind_Ok in H as (e2 & Hti & H). injection H as <- <- <-. unfold tidy_trail in Hti.
    cbn [set_register_hb e_hb e_trail] in Hti. unfold trail_size in Hti.
    destruct (tidy_loop_ok (e_hb e) (S (length (e_trail e1) - length (e_trail e))) (e_trail e1)
      (length (e_trail e)) (length (e_trail e1))) as (T' & HT & Hperm); [rewrite Tr, length_app; lia|lia|lia|].
    rewrite HT, Ok_bind in Hti. injection Hti as <-.
    rewrite Tr, drop_app_length, length_app, Nat.add_comm, Nat.add_sub, firstn_all in Hperm.
    assert (HT' : forall i, i ∈ T' <-> i < e_hb e /\ i ∈ T) by (intros i; by rewrite Hperm, list_elem_of_filter).
    exists T'. split; [|done]. split; cbn; try done.
    + eapply binds_mono; [|apply (B' (fun _ => False))]. intros i [Hi|[]].
      destruct (decide (i < e_hb e)); [left; by apply HT'|right; lia].
    + by rewrite Tr, take_app_length.
    + intros i [Hi Hin]%HT'. split; [done|]. by apply V.
  - apply bind_Ok in H as (e2 & Hun & H). injection H as <- <- <-. unfold unwind_trail in Hun.
    rewrite Hlen in Hun. unfold trail_size in Hun. rewrite Tr, drop_app_length in Hun.
    replace (length (e_trail e) + length T - length (e_trail e))%nat with (length T) in Hun by lia.
    rewrite firstn_all in Hun. apply bind_Ok in Hun as (h2 & Hun & Hh2). injection Hh2 as <-.
    destruct (unwind_binds (fun _ => False) (e_heap e) (e_heap e1) h2 T (B' _) ltac:(intros i Hi; by apply V) Hun)
      as (B2 & S2 & Bl2).
    exists []. split.
    2:{ intros _. split; [done|]. intros i. by destruct (B2 i) as [?|(_ & _ & [])]. }
    split; cbn; rewrite ?app_nil_r; try done.
    + eapply binds_mono; [|exact B2]. done.
    + congruence.
    + congruence.
    + unfold trail_size. rewrite Tr, take_app_length.
      replace (length (e_trail e) - length (e_trail e ++ T))%nat with 0%nat by (rewrite length_app; lia).
      cbn [replicate]. by rewrite app_nil_r.
    + by intros i ?%elem_of_nil.
Qed.

End unify.
