(* ===== verification/TermCopy.v ===== *)
(** * Copying terms ([src/src/common/term_env.cpp], [src/src/common/term_env.hpp])

    [term_utils::copy] walks a term with a stack of work items and a stack of
    results.  A work item is a cell and a status, 1 for a structure whose arguments
    have been copied; a result is a cell and a status, 1 for a structure of the
    source that is still being copied: a reference back into a cyclic term, which
    the end of [copy] replaces by its copy.

    Names of variables are not modelled. *)

From S2P Require Import Prelude Cells Heap Bigs TermEnv.

Record copier := Copier {
  co_env : term_env;           (* the destination; its stack holds the work items *)
  co_temp : list Z;            (* the results, the last one first *)
  co_terms : gmap Z Z;         (* [term_map] *)
  co_functors : gmap Z Z;      (* [con_map] *)
  co_cyclic : list (Z * Z);    (* [cyclic_args] *)
  co_path : gset Z             (* [current_path] *)
}.

Definition co_heap (k : copier) : heap := e_heap (co_env k).

Definition co_with_env (k : copier) e :=
  Copier e (co_temp k) (co_terms k) (co_functors k) (co_cyclic k) (co_path k).
Definition co_with_heap (k : copier) h := co_with_env k (with_heap (co_env k) h).
Definition co_with_temp (k : copier) t :=
  Copier (co_env k) t (co_terms k) (co_functors k) (co_cyclic k) (co_path k).
Definition co_with_terms (k : copier) m :=
  Copier (co_env k) (co_temp k) m (co_functors k) (co_cyclic k) (co_path k).
Definition co_with_functors (k : copier) m :=
  Copier (co_env k) (co_temp k) (co_terms k) m (co_cyclic k) (co_path k).
Definition co_with_cyclic (k : copier) l :=
  Copier (co_env k) (co_temp k) (co_terms k) (co_functors k) l (co_path k).
Definition co_with_path (k : copier) p :=
  Copier (co_env k) (co_temp k) (co_terms k) (co_functors k) (co_cyclic k) p.

Definition co_push (k : copier) (c status : Z) : copier :=
  co_with_env k (push (push (co_env k) c) (int_cell status)).
(** The status and the cell on the top of the stack. *)
Definition co_pop (k : copier) : res (Z * Z * copier) :=
  '(status, e) ← pop (co_env k);
  '(c, e) ← pop e;
  Ok (status, c, co_with_env k e).
Definition temp_push (k : copier) (c status : Z) : copier :=
  co_with_temp k (int_cell status :: c :: co_temp k).
Definition temp_pop (k : copier) : res (Z * Z * copier) :=
  match co_temp k with
  | status :: c :: t => Ok (status, c, co_with_temp k t)
  | _ => Throw UndefinedBehaviour
  end.
(** [temp_push(v); current_path.erase(c)] *)
Definition copied (k : copier) (c v : Z) : copier :=
  let k := temp_push k v 0 in co_with_path k (co_path k ∖ {[c]}).

Section copy.

(** The heap of the term, [None] when it is the destination itself; whether big
    integers are shared. *)
Context (src : option heap) (dont_copy_big : bool).

Definition source (k : copier) : heap := default (co_heap k) src.

(** The constant of the same name and arity in the destination. *)
Definition copy_functor (k : copier) (f : Z) : res (copier * Z) :=
  match co_functors k !! f with
  | Some f' => Ok (k, f')
  | None =>
      name ← atom_name (source k) f;
      '(h, f') ← make_functor (co_heap k) name (con_arity f);
      Ok (co_with_functors (co_with_heap k h) (<[f := f']> (co_functors k)), f')
  end.

Definition copy_ref (k : copier) (c : Z) : res copier :=
  '(h, v) ← new_ref (co_heap k);
  let k := co_with_terms (co_with_heap k h) (<[c := v]> (co_terms k)) in
  Ok (copied k c v).

Definition copy_con (k : copier) (c : Z) : res copier :=
  if is_direct c then Ok (copied k c c)
  else '(k, c') ← copy_functor k c; Ok (copied k c c').

(** The arguments are pushed from the last one to the first. *)
Fixpoint push_copy_args (n : nat) (k : copier) (c : Z) : res copier :=
  match n with
  | O => Ok k
  | S n => a ← arg (source k) c (Z.of_nat n); push_copy_args n (co_push k a 0) c
  end.

(** The results are popped from the last argument to the first. *)
Fixpoint pop_copied_args (n : nat) (k : copier) (str : Z) : res copier :=
  match n with
  | O => Ok k
  | S n =>
      '(status, a, k) ← temp_pop k;
      h ← set_arg (co_heap k) str (Z.of_nat n) a;
      let k := co_with_heap k h in
      let k := if status =? int_cell 1
               then co_with_cyclic k (co_cyclic k ++ [(str, Z.of_nat n)]) else k in
      pop_copied_args n k str
  end.

Definition copy_str (k : copier) (c : Z) (processed : bool) : res copier :=
  f ← functor (source k) c;
  '(k, f') ← copy_functor k f;
  let n := Z.to_nat (con_arity f) in
  if processed then
    '(h, str) ← new_str (co_heap k) f';
    let k := co_with_terms (co_with_heap k h) (<[c := str]> (co_terms k)) in
    k ← pop_copied_args n k str;
    Ok (copied k c str)
  else push_copy_args n (co_push k c 1) c.

(** [heap_set(newindex + i, src[index + i])] for the [n] cells from [i] on. *)
Fixpoint copy_cells (n : nat) (k : copier) (from to i : Z) : res copier :=
  match n with
  | O => Ok k
  | S n =>
      x ← heap_get (source k) (from + i);
      h ← heap_set (co_heap k) (to + i) x;
      copy_cells n (co_with_heap k h) from to (i + 1)
  end.

(** The cell stays on the path. *)
Definition copy_big (k : copier) (c : Z) : res copier :=
  if dont_copy_big then Ok (temp_push k c 0)
  else
    dat ← heap_get (source k) (ptr_index c);
    '(h, big) ← new_big (co_heap k) (dat_num_bits dat);
    k ← copy_cells (Z.to_nat (dat_num_cells dat)) (co_with_heap k h) (ptr_index c) (ptr_index big) 0;
    Ok (temp_push k big 0).

(** The body of the loop for the item [c]. *)
Definition copy_item (k : copier) (c : Z) (processed : bool) : res copier :=
  match co_terms k !! c with
  | Some v => Ok (temp_push k v 0)
  | None =>
      if bool_decide (cell_tag c = STR) && negb processed && bool_decide (c ∈ co_path k)
      then Ok (temp_push k c 1)
      else
        let k := co_with_path k (co_path k ∪ {[c]}) in
        match cell_tag c with
        | REF | RFW => copy_ref k c
        | CON => copy_con k c
        | INT => Ok (copied k c c)
        | STR => copy_str k c processed
        | BIG => copy_big k c
        | DAT | FWD => Ok k
        end
  end.
Definition copy_step (k : copier) : res copier :=
  '(status, c, k) ← co_pop k; copy_item k c (status =? int_cell 1).

(** [while (stack_size() > current_stack)] *)
Fixpoint copy_loop (fuel : nat) (d : nat) (k : copier) (cost : Z) : res (copier * Z) :=
  if (d <? stack_size (co_env k))%nat then
    match fuel with
    | O => Throw OutOfFuel
    | S fuel => k ← copy_step k; copy_loop fuel d k (w64 (cost + 1))
    end
  else Ok (k, cost).

(** [term_map[old_arg]] is a null cell for a term without a copy. *)
Fixpoint patch_cyclic (terms : gmap Z Z) (h : heap) (l : list (Z * Z)) : res heap :=
  match l with
  | [] => Ok h
  | (str, i) :: l =>
      old ← arg h str i;
      h ← set_arg h str i (default 0 (terms !! old));
      patch_cyclic terms h l
  end.

(** [copy(c, names, src, src_names, cost)]: the destination, the copy and the cost. *)
Definition copy_term (fuel : nat) (e : term_env) (c : Z) : res (term_env * Z * Z) :=
  let d := stack_size e in
  let k := Copier (with_temp_trail e []) [] ∅ ∅ [] ∅ in
  c ← deref (source k) c;
  '(k, cost) ← copy_loop fuel d (co_push k c 0) 0;
  h ← patch_cyclic (co_terms k) (co_heap k) (co_cyclic k);
  match co_temp k with
  | _ :: v :: _ => Ok (with_heap (co_env k) h, v, cost)
  | _ => Throw UndefinedBehaviour
  end.

End copy.

(** [copy_without_names(t, cost)], [copy(t, cost)]; [copy(t, src, cost)];
    [copy_except_big(t, cost)] *)
Definition copy (fuel : nat) (e : term_env) (t : Z) : res (term_env * Z * Z) :=
  copy_term None false fuel e t.
Definition copy_from (fuel : nat) (e : term_env) (t : Z) (src : term_env) : res (term_env * Z * Z) :=
  copy_term (Some (e_heap src)) false fuel e t.
Definition copy_except_big (fuel : nat) (e : term_env) (t : Z) : res (term_env * Z * Z) :=
  copy_term None true fuel e t.
