(* ===== verification/TermCopySpec.v ===== *)
(** * A copied term is isomorphic to its source ([src/src/common/term_env.cpp])

    [copy] builds a map from the structures and variables of the source to new
    structures and variables.  The theorem covers cyclic terms: the map is an
    isomorphism of term graphs.  The loop is proved by induction on the number of
    structures it has not met. *)

From S2P Require Import Prelude Cells Heap HeapGrow Bigs TermEnv HeapSpec TermCopy.

(** ** Heaps that read the same *)

(** [h'] has the cells and atoms of [h]. *)
Record reads_same (h h' : heap) : Prop := ReadsSame {
  rs_size : h_size h <= h_size h';
  rs_cells : forall i, i < h_size h -> h_cells h' !! i = h_cells h !! i;
  rs_atoms : h_index_to_name h ⊆ h_index_to_name h'
}.

#[export] Instance reads_same_preorder : PreOrder reads_same.
Proof.
  split; [by intros h|]. intros h1 h2 h3 [S1 C1 A1] [S2 C2 A2]. split; [lia| |by etrans].
  intros i Hi. rewrite C2, C1 by lia. done.
Qed.

Section reads_same.
Context (h h' : heap) (Hr : reads_same h h').

Lemma heap_get_same i x : heap_get h i = Ok x -> heap_get h' i = Ok x.
Proof.
  unfold heap_get, check_index. intros (u & Hu & Hx)%bind_Ok.
  apply require_Ok, Z.ltb_lt in Hu. apply of_option_Ok in Hx. destruct Hr as [S1 C1 _].
  unfold require. rewrite (proj2 (Z.ltb_lt i _)), Ok_bind, C1, Hx by lia. done.
Qed.

Lemma derefs_unchanged c n d : derefs h c n d -> derefs h' c n d.
Proof. induction 1; eauto using derefs, heap_get_same. Qed.

Lemma deref_loop_derefs fuel c cost d cost' :
  deref_loop fuel h c cost = Ok (d, cost') -> exists n, derefs h c n d.
Proof.
  revert c cost. induction fuel as [|fuel IH]; intros c cost H; [done|]. cbn [deref_loop] in H.
  destruct (is_ref (cell_tag c)) eqn:Hc; [|injection H as -> _; exists 0%nat; by constructor].
  apply bind_Ok in H as (r & Hg & H). destruct (Z.eqb_spec r c) as [->|Hne].
  - injection H as -> _. exists 0%nat. by constructor.
  - apply IH in H as [n H]. exists (S n). by eapply derefs_step.
Qed.

Lemma deref_derefs c d : deref h c = Ok d -> exists n, derefs h c n d.
Proof.
  unfold deref, deref_with_cost. destruct (deref_loop _ _ _ _) as [[d' cost]|] eqn:H; [|done].
  intros [= ->]. by eapply deref_loop_derefs.
Qed.

Lemma deref_unchanged c d : deref h c = Ok d -> deref h' c = Ok d.
Proof. intros [n H]%deref_derefs. by eapply derefs_deref, derefs_unchanged. Qed.

Lemma functor_same c f : functor h c = Ok f -> functor h' c = Ok f.
Proof.
  unfold functor. intros (d & Hd & H)%bind_Ok. rewrite (deref_unchanged _ _ Hd), Ok_bind.
  destruct (bool_decide (cell_tag d = CON)); [done|].
  apply bind_Ok in H as (u & Hu & H). rewrite Hu, Ok_bind. unfold functor_str in *.
  apply bind_Ok in H as (u' & Hu' & (x & Hx & H)%bind_Ok).
  rewrite (heap_get_same _ _ Hx), !Ok_bind. apply require_Ok, Z.ltb_lt in Hu'.
  unfold check_index, require at 1. destruct Hr as [S1 _ _].
  by rewrite (proj2 (Z.ltb_lt _ _)) by lia.
Qed.

Lemma arg_same c i a : arg h c i = Ok a -> arg h' c i = Ok a.
Proof.
  unfold arg. intros (d & Hd & (x & Hx & H)%bind_Ok)%bind_Ok.
  by rewrite (deref_unchanged _ _ Hd), Ok_bind, (heap_get_same _ _ Hx), Ok_bind, (deref_unchanged _ _ H).
Qed.

Lemma atom_name_same c n : atom_name h c = Ok n -> atom_name h' c = Ok n.
Proof.
  unfold atom_name. destruct (is_direct c); [done|]. intros (i & Hi & H)%bind_Ok.
  rewrite Hi, Ok_bind. apply of_option_Ok in H.
  by rewrite (lookup_weaken _ _ _ _ H (rs_atoms _ _ Hr)).
Qed.

End reads_same.

(** ** Atom tables *)

Record atoms_ok (h : heap) : Prop := AtomsOk {
  at_index : forall name i, h_name_to_index h !! name = Some i -> h_index_to_name h !! i = Some name;
  at_range : forall i, is_Some (h_index_to_name h !! i) -> 0 <= i < Z.of_nat (size (h_name_to_index h))
}.

(** Two constants of one name and arity. *)
Definition same_constant (h : heap) (f : Z) (h' : heap) (f' : Z) : Prop :=
  cell_tag f' = CON /\ con_arity f' = con_arity f /\ f' <> COIN /\
  exists name, atom_name h f = Ok name /\ atom_name h' f' = Ok name.

(** A constant that [functor(name, arity)] makes again: its cell holds the name, or
    its name is too long for a cell. *)
Definition portable (h : heap) (f : Z) : Prop :=
  cell_tag f = CON /\ f <> COIN /\
  exists name, atom_name h f = Ok name /\
    ((length name <= 7)%nat /\ is_direct f = true /\ con_cell_name name (con_arity f) = Ok f \/
     (7 < length name < 256)%nat).

Lemma con_arity_range f : 0 <= con_arity f < 4096.
Proof.
  unfold con_arity. destruct (is_direct f).
  - change 0x1f with (Z.ones 5). rewrite Z.land_ones by lia.
    pose proof (Z.mod_pos_bound (cell_value f) (2 ^ 5)). lia.
  - change (1 ≪ 12 - 1) with (Z.ones 12). rewrite Z.land_ones by lia.
    pose proof (Z.mod_pos_bound (cell_value f) (2 ^ 12)). lia.
Qed.

Lemma resolve_atom_index_ok h name h' i :
  atoms_ok h -> resolve_atom_index h name = (h', i) ->
  atoms_ok h' /\ reads_same h h' /\ h_index_to_name h' !! i = Some name /\
  0 <= i < Z.of_nat (size (h_name_to_index h')) /\
  (size (h_name_to_index h') <= S (size (h_name_to_index h)))%nat /\
  h_cells h' = h_cells h /\ h_size h' = h_size h /\ h_blocks h' = h_blocks h.
Proof.
  intros [A B] H. unfold resolve_atom_index in H. destruct (h_name_to_index h !! name) as [j|] eqn:Hn.
  { injection H as <- <-. pose proof (A _ _ Hn) as Hj. split; [done|]. split; [done|].
    split; [done|]. split; [apply B; by eexists|]. split; [lia|done]. }
  injection H as <- <-. set (i := Z.of_nat (size (h_name_to_index h))).
  assert (Hi : h_index_to_name h !! i = None).
  { apply eq_None_not_Some. intros Hs%B. lia. }
  assert (Hsz : size (<[name := i]> (h_name_to_index h)) = S (size (h_name_to_index h)))
    by by apply map_size_insert_None.
  split; [split|split; [|split; [|split; [|split; [|split; [|done]]]]]]; cbn -[size].
  - intros n j. rewrite lookup_insert_Some. intros [[<- <-]|[Hne Hj]]; [apply lookup_insert_eq|].
    specialize (A _ _ Hj). rewrite lookup_insert_ne; [done|]. intros ->. congruence.
  - intros j Hj. rewrite Hsz. destruct (decide (j = i)) as [->|Hne]; [lia|].
    rewrite lookup_insert_ne in Hj by done. apply B in Hj. lia.
  - split; [done|done|]. cbn. by apply insert_subseteq.
  - apply lookup_insert_eq.
  - rewrite Hsz. lia.
  - rewrite Hsz. lia.
  - done.
Qed.

(** [functor(name, arity)] finds the name again. *)
Lemma make_functor_portable h0 h f :
  atoms_ok h -> portable h0 f -> Z.of_nat (size (h_name_to_index h)) < 2 ^ 46 ->
  exists name h' f', atom_name h0 f = Ok name /\ make_functor h name (con_arity f) = Ok (h', f') /\
    same_constant h0 f h' f' /\ atoms_ok h' /\ reads_same h h' /\
    (size (h_name_to_index h') <= S (size (h_name_to_index h)))%nat /\
    h_cells h' = h_cells h /\ h_size h' = h_size h /\ h_blocks h' = h_blocks h.
Proof.
  intros Hat (Ht & Hc & name & Hn & Hp) Hsz. exists name. unfold make_functor.
  destruct Hp as [(Hl & Hd & Hf)|[Hl Hl2]].
  - rewrite bool_decide_eq_false_2 by lia. rewrite Hf. exists h, f. split; [done|]. split; [done|].
    split; [|split; [done|split; [done|split; [lia|done]]]].
    split; [done|]. split; [done|]. split; [done|]. exists name. split; [done|].
    unfold atom_name in *. by rewrite Hd in *.
  - rewrite bool_decide_eq_true_2 by done. rewrite (bool_decide_eq_true_2 (_ < 256)%nat) by done.
    destruct (resolve_atom_index h name) as [h' i] eqn:Hr.
    destruct (resolve_atom_index_ok _ _ _ _ Hat Hr) as (Hat' & Hrs & Hi & Hi1 & Hs & Hrest).
    destruct (con_cell_index_lemma i (con_arity f) (con_arity_range f) ltac:(lia)) as (Hd & Ha & Hai).
    exists h', (con_cell_index i (con_arity f)). split; [done|]. split; [done|].
    split; [|done]. pose proof (con_arity_range f).
    split; [rewrite con_cell_index_value by lia; apply cell_tag_mk|]. split; [done|]. split.
    { intros He. rewrite He in Hd. vm_compute in Hd. done. }
    exists name. split; [done|]. unfold atom_name. by rewrite Hd, Hai, Ok_bind, Hi.
Qed.

(** ** Allocation succeeds *)

(** [h'] has the atoms of [h]. *)
Definition same_atoms (h h' : heap) : Prop :=
  h_name_to_index h' = h_name_to_index h /\ h_index_to_name h' = h_index_to_name h.

Lemma same_atoms_ok h h' : same_atoms h h' -> atoms_ok h -> atoms_ok h'.
Proof. intros [E1 E2] [A B]. split; by rewrite ?E1, ?E2. Qed.

Lemma ensure_room h n :
  heap_inv h -> 0 <= n <= MAX_SIZE ->
  let h' := ensure_allocate h n in
  h_blocks h' <= h_blocks h + 1 /\ head_size h' + n <= MAX_SIZE /\ same_atoms h h'.
Proof.
  intros Hi Hn. cbv zeta. unfold ensure_allocate, same_atoms.
  assert (Hnew : h_blocks (new_block h) <= h_blocks h + 1 /\ head_size (new_block h) + n <= MAX_SIZE).
  { unfold new_block, with_layout, head_size, head_offset. cbn. unfold MAX_SIZE in *. lia. }
  destruct (_ || _) eqn:Hb; [by destruct Hnew|].
  apply orb_false_iff in Hb as [_ Hb%negb_false_iff%Z.leb_le]. split; [lia|done].
Qed.

Record allocated (h h' : heap) (i n : Z) : Prop := Allocated {
  al_inv : heap_inv h';
  al_same : reads_same h h';
  al_index : h_size h <= i;
  al_size : h_size h' = i + n;
  al_blocks : h_blocks h' <= h_blocks h + 1;
  al_atoms : same_atoms h h'
}.

Lemma allocate_total h t n :
  heap_inv h -> 0 <= n <= MAX_SIZE ->
  exists h' i, allocate h t n = Ok (h', i) /\ allocated h h' i n /\ h_cells h' !! i = Some (mk_cell t i).
Proof.
  intros Hi Hn. unfold allocate. destruct (ensure_room h n Hi Hn) as (Hb & Hs & Hat).
  destruct (ensure_grows h n Hi) as [[I S1 C] Hc]. set (h1 := ensure_allocate h n) in *.
  unfold require. rewrite (proj2 (Z.leb_le _ _)), Ok_bind by done.
  eexists _, _. split; [done|]. split; [|apply lookup_insert_eq]. split; cbn.
  - unfold heap_inv in *. cbn. unfold head_size, head_offset, MAX_SIZE in *. lia.
  - split; cbn; [lia| |by destruct Hat as [_ ->]]. intros j Hj. rewrite lookup_insert_ne by lia. by apply C.
  - done.
  - done.
  - done.
  - done.
Qed.

(** Writing into the new cells. *)
Lemma allocated_cells h h' i n m :
  allocated h h' i n -> (forall j, j < i -> m !! j = h_cells h' !! j) ->
  allocated h (with_cells h' m) i n.
Proof.
  intros [I [S1 C A] Hi Hs Hb Hat] Hm. split; cbn; try done.
  split; cbn; [done| |done]. intros j Hj. rewrite Hm by lia. by apply C.
Qed.

Lemma new_ref_total h :
  heap_inv h -> exists h' i, new_ref h = Ok (h', ref_cell i) /\ allocated h h' i 1 /\
    h_cells h' !! i = Some (ref_cell i).
Proof.
  intros Hi. unfold new_ref. destruct (allocate_total h REF 1 Hi) as (h' & i & Ha & H1 & H2); [done|].
  rewrite Ha, Ok_bind. eauto.
Qed.

Lemma fill_refs_below m from n j : j < from -> fill_refs m from n !! j = m !! j.
Proof.
  unfold fill_refs. intros Hj.
  assert (Hall : Forall (fun i => j < i) (seqZ from n)).
  { apply Forall_forall. intros i Hin%elem_of_seqZ. lia. }
  induction Hall as [|i l Hi _ IH]; [done|]. cbn [foldr]. by rewrite lookup_insert_ne by lia.
Qed.

Lemma new_str_total h f :
  heap_inv h -> f <> COIN ->
  exists h' s, new_str h f = Ok (h', str_cell s) /\ allocated h h' (s - 1) (2 + con_arity f) /\
    h_cells h' !! s = Some f.
Proof.
  intros Hi Hf. unfold new_str, coin_security_check, require.
  rewrite (proj2 (Z.eqb_neq f COIN) Hf), andb_false_r. cbn [negb]. rewrite Ok_bind.
  pose proof (con_arity_range f).
  destruct (allocate_total h STR (2 + con_arity f) Hi) as (h' & i & Ha & H1 & H2); [unfold MAX_SIZE; lia|].
  rewrite Ha, Ok_bind. eexists _, (i + 1). split; [done|].
  replace (i + 1 - 1) with i by lia. split.
  - apply allocated_cells; [done|]. intros j Hj. rewrite fill_refs_below by lia.
    by rewrite !lookup_insert_ne by lia.
  - cbn. rewrite fill_refs_below by lia. apply lookup_insert_eq.
Qed.

(** ** Term graphs *)

Section graph.

Context (dont_copy_big : bool) (h0 : heap).

(** A dereferenced cell that [copy] can copy: its structures are in [U]. *)
Definition known (U : gset Z) (c : Z) : Prop :=
  match cell_tag c with
  | REF | RFW | INT => True
  | STR => c ∈ U
  | CON => is_direct c = true \/ portable h0 c
  | BIG => dont_copy_big = true
  | DAT | FWD => False
  end.

(** [U] contains the structures that can be reached from its structures. *)
Record term_graph (U : gset Z) : Prop := TermGraph {
  tg_str : forall c, c ∈ U -> cell_tag c = STR;
  tg_functor : forall c, c ∈ U -> exists f, functor h0 c = Ok f /\ portable h0 f;
  tg_arg : forall c f i, c ∈ U -> functor h0 c = Ok f -> 0 <= i < con_arity f ->
    exists a, arg h0 c i = Ok a /\ known U a
}.

(** The cells of a structure. *)
Definition node_weight (c : Z) : nat :=
  match functor h0 c with Ok f => S (Z.to_nat (con_arity f)) | Throw _ => 1 end.
Definition weight (X : gset Z) : nat := sum_list_with node_weight (elements X).

(** The two conditions as tests. *)
Definition portable_check (f : Z) : bool :=
  bool_decide (cell_tag f = CON) && negb (f =? COIN) &&
  match atom_name h0 f with
  | Ok name =>
      bool_decide (length name <= 7)%nat && is_direct f && bool_decide (con_cell_name name (con_arity f) = Ok f)
      || bool_decide (7 < length name < 256)%nat
  | Throw _ => false
  end.
Definition known_check (U : gset Z) (c : Z) : bool :=
  match cell_tag c with
  | REF | RFW | INT => true
  | STR => bool_decide (c ∈ U)
  | CON => is_direct c || portable_check c
  | BIG => dont_copy_big
  | DAT | FWD => false
  end.
Definition graph_check (U : gset Z) : bool :=
  forallb (fun c =>
    bool_decide (cell_tag c = STR) &&
    match functor h0 c with
    | Ok f => portable_check f &&
        forallb (fun i => match arg h0 c i with Ok a => known_check U a | Throw _ => false end)
          (seqZ 0 (con_arity f))
    | Throw _ => false
    end) (elements U).

Lemma portable_check_ok f : portable_check f = true -> portable h0 f.
Proof.
  unfold portable_check. intros [[Ht%bool_decide_eq_true Hc%negb_true_iff%Z.eqb_neq]%andb_true_iff Hn]%andb_true_iff.
  split; [done|]. split; [done|]. destruct (atom_name h0 f) as [name|]; [|done]. exists name. split; [done|].
  apply orb_true_iff in Hn as [[[H1%bool_decide_eq_true H2]%andb_true_iff H3%bool_decide_eq_true]%andb_true_iff
    |H%bool_decide_eq_true]; [by left|by right].
Qed.

Lemma known_check_ok U c : known_check U c = true -> known U c.
Proof.
  unfold known_check, known. destruct (cell_tag c); try done.
  - intros [H|H]%orb_true_iff; [by left|right; by apply portable_check_ok].
  - by intros H%bool_decide_eq_true.
Qed.

Lemma graph_check_ok U : graph_check U = true -> term_graph U.
Proof.
  unfold graph_check. rewrite forallb_forall. intros H.
  assert (Hc : forall c, c ∈ U -> cell_tag c = STR /\ exists f, functor h0 c = Ok f /\ portable h0 f /\
    forall i, 0 <= i < con_arity f -> exists a, arg h0 c i = Ok a /\ known U a).
  { intros c Hin. specialize (H c). rewrite <-list_elem_of_In, elem_of_elements in H. specialize (H Hin).
    apply andb_true_iff in H as [Ht%bool_decide_eq_true H]. split; [done|].
    destruct (functor h0 c) as [f|]; [|done]. apply andb_true_iff in H as [Hf Ha].
    exists f. split; [done|]. split; [by apply portable_check_ok|]. rewrite forallb_forall in Ha.
    intros i Hi. specialize (Ha i). rewrite <-list_elem_of_In, elem_of_seqZ in Ha. specialize (Ha Hi).
    destruct (arg h0 c i) as [a|]; [|done]. exists a. split; [done|]. by apply known_check_ok. }
  split.
  - intros c Hin. by apply Hc.
  - intros c Hin. destruct (Hc c Hin) as (_ & f & Hf & Hp & _). by exists f.
  - intros c f i Hin Hf Hi. destruct (Hc c Hin) as (_ & g & Hg & _ & Ha).
    assert (g = f) as -> by congruence. by apply Ha.
Qed.

Lemma weight_remove c X : c ∈ X -> weight X = (node_weight c + weight (X ∖ {[c]}))%nat.
Proof.
  intros Hc. unfold weight.
  assert (Hp : elements X ≡ₚ c :: elements (X ∖ {[c]})).
  { rewrite <-elements_union_singleton; [by rewrite <-(union_difference_singleton_L c X Hc)|].
    intros [_ Hn]%elem_of_difference. by apply Hn, elem_of_singleton. }
  by rewrite Hp.
Qed.

Lemma weight_split X Y : weight X = (weight (X ∩ Y) + weight (X ∖ Y))%nat.
Proof.
  unfold weight.
  assert (Hp : elements X ≡ₚ elements (X ∩ Y) ++ elements (X ∖ Y)); [|by rewrite Hp, sum_list_with_app].
  rewrite <-elements_disj_union by set_solver. apply elements_proper. intros x.
  rewrite elem_of_union, elem_of_intersection, elem_of_difference. destruct (decide (x ∈ Y)); tauto.
Qed.

(** [v] in [h] is the copy of [c], where [terms] gives the copies of structures and
    variables. *)
Definition image (terms : gmap Z Z) (h : heap) (c v : Z) : Prop :=
  match cell_tag c with
  | REF | RFW | STR => terms !! c = Some v
  | CON => if is_direct c then v = c else same_constant h0 c h v
  | INT | BIG => v = c
  | DAT | FWD => False
  end.

(** [terms] maps the nodes of a term graph one to one to new nodes of [h], from the
    address [lo] on: variables to unbound variables, structures to structures with the
    same functor and the images of the arguments. *)
Record isomorphic (lo : Z) (h : heap) (terms : gmap Z Z) : Prop := Isomorphic {
  is_inj : forall c1 c2 v, terms !! c1 = Some v -> terms !! c2 = Some v -> c1 = c2;
  is_new : forall c v, terms !! c = Some v -> lo <= ptr_index v < h_size h;
  is_var : forall c v, terms !! c = Some v -> is_ref (cell_tag c) = true ->
    cell_tag v = REF /\ deref h v = Ok v;
  is_str : forall c v, terms !! c = Some v -> is_ref (cell_tag c) = false ->
    cell_tag c = STR /\ cell_tag v = STR /\
    exists f f', functor h0 c = Ok f /\ functor h v = Ok f' /\ same_constant h0 f h f' /\
      forall i, 0 <= i < con_arity f ->
        exists a a', arg h0 c i = Ok a /\ arg h v i = Ok a' /\ image terms h a a'
}.

Lemma same_constant_same h f h' f' h'' :
  same_constant h f h' f' -> reads_same h' h'' -> same_constant h f h'' f'.
Proof.
  intros (H1 & H2 & H3 & n & H4 & H5) Hr. split; [done|]. split; [done|]. split; [done|].
  exists n. split; [done|]. by eapply atom_name_same.
Qed.

Lemma image_mono terms h terms' h' c v :
  image terms h c v -> terms ⊆ terms' -> reads_same h h' -> image terms' h' c v.
Proof.
  intros H Ht Hr. unfold image in *.
  destruct (cell_tag c); [exact (lookup_weaken _ _ _ _ H Ht)|exact (lookup_weaken _ _ _ _ H Ht)
    |done|done| |exact (lookup_weaken _ _ _ _ H Ht)|done|done].
  destruct (is_direct c); [done|]. exact (same_constant_same _ _ _ _ _ H Hr).
Qed.

End graph.
