(* ===== verification/TermCopyLoop.v ===== *)
(** * The loop of [copy] ([src/src/common/term_env.cpp])

    The invariant of the loop of [copy], what one work item does, and the theorem
    that a copy is isomorphic to its source. *)

From S2P Require Import Prelude Cells Heap HeapGrow Bigs TermEnv HeapSpec TermCopy TermCopySpec.

Section loop.

(** [h0] is the heap of the source and [hd] the destination at the start. *)
Context (src : option heap) (dcb : bool) (h0 hd : heap) (U : gset Z).
Hypothesis Hsrc : h0 = default hd src.
Hypothesis HU : term_graph dcb h0 U.
Hypothesis Hlo : 0 <= h_size hd.

Implicit Types (k : copier) (c v : Z).

(** ** The invariant *)

(** The cells that hold a structure of the source. *)
Definition patch_address (p : Z * Z) : Z := ptr_index p.1 + p.2 + 1.
Definition pending k : list Z := patch_address <$> co_cyclic k.

(** The address behind the copy [v] of [c]. *)
Definition node_end c v : Z :=
  ptr_index v + (if is_ref (cell_tag c) then 1 else Z.of_nat (node_weight h0 c)).

(** A structure whose copy exists or is under way. *)
Definition met k c : Prop := cell_tag c = STR /\ (c ∈ co_path k \/ is_Some (co_terms k !! c)).

(** The cell for the argument [a] of a structure: its image, or [a] itself if it is
    to be patched. *)
Definition filled k (x a : Z) : Prop :=
  (x ∈ pending k /\ h_cells (co_heap k) !! x = Some a /\ met k a) \/
  (x ∉ pending k /\ exists w, h_cells (co_heap k) !! x = Some w /\
    image h0 (co_terms k) (co_heap k) a w).

(** [v] is the copy of [c]. *)
Definition node_ok k c v : Prop :=
  if is_ref (cell_tag c) then
    cell_tag v = REF /\ h_cells (co_heap k) !! ptr_index v = Some v
  else
    c ∈ U /\ cell_tag v = STR /\
    exists f f', functor h0 c = Ok f /\ h_cells (co_heap k) !! ptr_index v = Some f' /\
      same_constant h0 f (co_heap k) f' /\
      forall i, 0 <= i < con_arity f ->
        exists a, arg h0 c i = Ok a /\ filled k (ptr_index v + i + 1) a.

Record copying k : Prop := Copying {
  cg_inv : heap_inv (co_heap k);
  cg_same : reads_same hd (co_heap k);
  cg_atoms : atoms_ok (co_heap k);
  cg_functors : forall f f', co_functors k !! f = Some f' -> same_constant h0 f (co_heap k) f';
  cg_gray : forall c, c ∈ co_path k -> co_terms k !! c = None;
  cg_new : forall c v, co_terms k !! c = Some v ->
    h_size hd <= ptr_index v /\ node_end c v <= h_size (co_heap k);
  cg_apart : forall c1 c2 v1 v2, co_terms k !! c1 = Some v1 -> co_terms k !! c2 = Some v2 ->
    c1 <> c2 -> node_end c1 v1 <= ptr_index v2 \/ node_end c2 v2 <= ptr_index v1;
  cg_node : forall c v, co_terms k !! c = Some v -> node_ok k c v;
  cg_pending : NoDup (pending k);
  cg_patches : forall v i, (v, i) ∈ co_cyclic k ->
    exists c f, co_terms k !! c = Some v /\ is_ref (cell_tag c) = false /\
      functor h0 c = Ok f /\ 0 <= i < con_arity f
}.

(** [k'] has the copies of [k]. *)
Record later k k' : Prop := Later {
  lt_same : reads_same (co_heap k) (co_heap k');
  lt_terms : co_terms k ⊆ co_terms k';
  lt_met : forall c, met k c -> met k' c;
  lt_pending : forall x, x < h_size (co_heap k) -> (x ∈ pending k' <-> x ∈ pending k);
  lt_trail : e_trail (co_env k') = e_trail (co_env k) /\ e_hb (co_env k') = e_hb (co_env k) /\
    e_temp_trail (co_env k') = e_temp_trail (co_env k)
}.

#[local] Instance later_preorder : PreOrder later.
Proof.
  split; [by intros k|]. intros k1 k2 k3 [S1 T1 M1 G1 (A1 & B1 & C1)] [S2 T2 M2 G2 (A2 & B2 & C2)].
  pose proof (rs_size _ _ S1). split; [by etrans|by etrans|by auto| |split_and!; congruence].
  intros x Hx. rewrite G2, G1 by lia. done.
Qed.

Lemma node_weight_eq c f : functor h0 c = Ok f -> Z.of_nat (node_weight h0 c) = con_arity f + 1.
Proof. intros Hf. unfold node_weight. rewrite Hf. pose proof (con_arity_range f). lia. Qed.

Lemma source_same k : copying k -> reads_same h0 (source src k).
Proof. intros Hk. unfold source. rewrite Hsrc. destruct src as [hs|]; cbn; [done|by apply cg_same]. Qed.

(** The cells of a node lie below the end of the heap. *)
Lemma filled_later k k' x a :
  filled k x a -> later k k' -> x < h_size (co_heap k) -> filled k' x a.
Proof.
  intros Hf [S1 T1 M1 G1 _] Hx. unfold filled. rewrite G1 by done.
  rewrite (rs_cells _ _ S1) by done. destruct Hf as [(H1 & H2 & H3)|(Hn & w & Hw & Hi)]; [by left; auto|].
  right. split; [done|]. exists w. split; [done|]. by eapply image_mono.
Qed.

Lemma node_later k k' c v :
  node_ok k c v -> later k k' -> node_end c v <= h_size (co_heap k) -> node_ok k' c v.
Proof.
  unfold node_ok, node_end. intros Hn Hl He. pose proof (lt_same _ _ Hl) as Hs.
  destruct (is_ref (cell_tag c)).
  - by rewrite (rs_cells _ _ Hs) by lia.
  - destruct Hn as (Hc & Ht & f & f' & Hf & Hf' & Hsc & Ha). split; [done|]. split; [done|].
    rewrite (node_weight_eq _ _ Hf) in He. pose proof (con_arity_range f).
    exists f, f'. split; [done|]. split; [by rewrite (rs_cells _ _ Hs) by lia|].
    split; [by eapply same_constant_same|].
    intros i Hi. destruct (Ha i Hi) as (a & Ha1 & Ha2). exists a. split; [done|].
    eapply filled_later; [done..|lia].
Qed.

(** A step that maps nothing new. *)
Lemma copying_same k k' :
  copying k -> later k k' -> co_terms k' = co_terms k -> co_cyclic k' = co_cyclic k ->
  heap_inv (co_heap k') -> atoms_ok (co_heap k') ->
  (forall f f', co_functors k' !! f = Some f' -> same_constant h0 f (co_heap k') f') ->
  (forall c, c ∈ co_path k' -> co_terms k' !! c = None) ->
  copying k'.
Proof.
  intros Hk Hl Ht Hc Hi Hat Hfn Hg. pose proof (lt_same _ _ Hl) as Hs. pose proof (rs_size _ _ Hs).
  split; try done.
  - etrans; [by apply cg_same|done].
  - rewrite Ht. intros c v Hv. destruct (cg_new _ Hk c v Hv). split; [done|lia].
  - rewrite Ht. apply cg_apart, Hk.
  - rewrite Ht. intros c v Hv. eapply node_later; [by apply cg_node|done|]. by apply (cg_new _ Hk).
  - unfold pending. rewrite Hc. apply cg_pending, Hk.
  - rewrite Hc, Ht. apply cg_patches, Hk.
Qed.

(** Patches lie in the copies. *)
Lemma pending_below k x : copying k -> x ∈ pending k -> x < h_size (co_heap k).
Proof.
  intros Hk ([v i] & -> & Hin)%list_elem_of_fmap.
  destruct (cg_patches _ Hk v i Hin) as (c & f & Hc & Hr & Hf & Hi).
  destruct (cg_new _ Hk c v Hc) as [_ He]. unfold node_end in He. rewrite Hr, (node_weight_eq _ _ Hf) in He.
  unfold patch_address. cbn. lia.
Qed.

(** A step that maps [c] to [v], whose cells are new. *)
Record adds k k' c v (l : list (Z * Z)) : Prop := Adds {
  ad_same : reads_same (co_heap k) (co_heap k');
  ad_inv : heap_inv (co_heap k');
  ad_atoms : same_atoms (co_heap k) (co_heap k');
  ad_terms : co_terms k' = <[c := v]> (co_terms k);
  ad_functors : co_functors k' = co_functors k;
  ad_cyclic : co_cyclic k' = co_cyclic k ++ l;
  ad_patches : forall v' i, (v', i) ∈ l -> v' = v /\ is_ref (cell_tag c) = false /\
     exists f, functor h0 c = Ok f /\ 0 <= i < con_arity f;
  ad_nodup : NoDup (patch_address <$> l);
  ad_new : h_size (co_heap k) <= ptr_index v /\ node_end c v <= h_size (co_heap k');
  ad_path : co_path k' = co_path k ∖ {[c]};
  ad_trail : e_trail (co_env k') = e_trail (co_env k) /\ e_hb (co_env k') = e_hb (co_env k) /\
    e_temp_trail (co_env k') = e_temp_trail (co_env k)
}.

Lemma adds_later k k' c v l : co_terms k !! c = None -> adds k k' c v l -> later k k'.
Proof.
  intros Hc [S1 I1 A1 T1 F1 C1 P1 N1 [W1 W2] E1 R1].
  split; [done|rewrite T1; by apply insert_subseteq| | |done].
  { intros c' [Ht Hm]. split; [done|]. rewrite T1, E1. destruct (decide (c' = c)) as [->|Hne].
    - right. rewrite lookup_insert_eq. by eexists.
    - rewrite lookup_insert_ne by done. destruct Hm; [left; set_solver|by right]. }
  intros x Hx. unfold pending. rewrite C1, fmap_app, elem_of_app. split; [|by left].
  intros [H|H]; [done|]. apply list_elem_of_fmap in H as ([v' i] & -> & Hin).
  destruct (P1 v' i Hin) as (-> & _ & f & _ & Hi). unfold patch_address in Hx. cbn in Hx. lia.
Qed.

Lemma node_end_ge c v : ptr_index v <= node_end c v.
Proof. unfold node_end. destruct (is_ref _); lia. Qed.

Lemma copying_add k k' c v l :
  copying k -> co_terms k !! c = None -> adds k k' c v l -> node_ok k' c v -> copying k'.
Proof.
  intros Hk Hc Hadd Hn. pose proof (adds_later _ _ _ _ _ Hc Hadd) as Hl.
  destruct Hadd as [S1 I1 A1 T1 F1 C1 P1 N1 [W1 W2] E1 R1].
  pose proof (rs_size _ _ S1). pose proof (rs_size _ _ (cg_same _ Hk)).
  assert (Hold : forall c' v', co_terms k !! c' = Some v' -> node_end c' v' <= h_size (co_heap k)).
  { intros c' v' Hv'. by apply (cg_new _ Hk). }
  split.
  - done.
  - etrans; [by apply cg_same|done].
  - eapply same_atoms_ok; [done|apply Hk].
  - rewrite F1. intros f f' Hf. eapply same_constant_same; [by apply (cg_functors _ Hk)|done].
  - rewrite E1. intros c' [Hc1 Hc2%not_elem_of_singleton]%elem_of_difference.
    rewrite T1, lookup_insert_ne by done. by apply (cg_gray _ Hk).
  - rewrite T1. intros c' v' [[<- <-]|[Hne Hv']]%lookup_insert_Some; [lia|].
    specialize (Hold c' v' Hv'). destruct (cg_new _ Hk c' v' Hv'). lia.
  - rewrite T1. intros c1 c2 v1 v2 [[<- <-]|[Hne1 Hv1]]%lookup_insert_Some
      [[<- <-]|[Hne2 Hv2]]%lookup_insert_Some Hne; [done| | |by apply (cg_apart _ Hk)].
    + right. specialize (Hold _ _ Hv2). lia.
    + left. specialize (Hold _ _ Hv1). lia.
  - rewrite T1. intros c' v' [[<- <-]|[Hne Hv']]%lookup_insert_Some; [done|].
    eapply node_later; [by apply (cg_node _ Hk)|done|by apply Hold].
  - unfold pending. rewrite C1, fmap_app. apply NoDup_app. split; [apply Hk|]. split; [|done].
    intros x Hx%(pending_below _ _ Hk) ([v' i] & -> & Hin)%list_elem_of_fmap.
    destruct (P1 v' i Hin) as (-> & _ & f & _ & Hi). unfold patch_address in Hx. cbn in Hx. lia.
  - rewrite C1, T1. intros v' i [Hin|Hin]%elem_of_app.
    + destruct (cg_patches _ Hk v' i Hin) as (c' & f & Hc' & Hrest). exists c', f.
      rewrite lookup_insert_ne by (intros ->; congruence). done.
    + destruct (P1 v' i Hin) as (-> & Hr & f & Hf & Hi). exists c, f. by rewrite lookup_insert_eq.
Qed.

(** ** What one item does *)

(** Only the heap, its atoms and [con_map] change. *)
Record same_work k k' : Prop := SameWork {
  sw_terms : co_terms k' = co_terms k;
  sw_cyclic : co_cyclic k' = co_cyclic k;
  sw_path : co_path k' = co_path k;
  sw_temp : co_temp k' = co_temp k;
  sw_env : e_stack (co_env k') = e_stack (co_env k) /\ e_trail (co_env k') = e_trail (co_env k) /\
    e_hb (co_env k') = e_hb (co_env k) /\ e_temp_trail (co_env k') = e_temp_trail (co_env k)
}.

Definition names k : nat := size (h_name_to_index (co_heap k)).

Lemma same_work_later k k' : reads_same (co_heap k) (co_heap k') -> same_work k k' -> later k k'.
Proof.
  intros Hr [T C P _ (_ & E)]. split; [done|by rewrite T| | |done].
  - intros c. unfold met. by rewrite T, P.
  - intros x _. unfold pending. by rewrite C.
Qed.

Lemma copy_functor_spec k f :
  copying k -> portable h0 f -> Z.of_nat (names k) < 2 ^ 46 ->
  exists k' f', copy_functor src k f = Ok (k', f') /\ same_work k k' /\ copying k' /\ later k k' /\
    same_constant h0 f (co_heap k') f' /\ co_functors k' !! f = Some f' /\
    (names k' <= S (names k))%nat /\ h_blocks (co_heap k') = h_blocks (co_heap k).
Proof.
  intros Hk Hp Hn. unfold copy_functor. destruct (co_functors k !! f) as [f'|] eqn:Hf.
  { exists k, f'. split; [done|]. split; [done|]. split; [done|]. split; [done|].
    split; [by apply (cg_functors _ Hk)|]. split; [done|]. lia. }
  destruct (make_functor_portable h0 (co_heap k) f (cg_atoms _ Hk) Hp Hn)
    as (name & h' & f' & Hname & Hm & Hsc & Hat & Hr & Hs & Hc & Hsz & Hb).
  rewrite (atom_name_same _ _ (source_same _ Hk) _ _ Hname), Ok_bind, Hm, Ok_bind.
  set (k' := co_with_functors _ _). exists k', f'. assert (Hw : same_work k k') by done.
  assert (Hl : later k k') by by apply same_work_later.
  split; [done|]. split; [done|]. split.
  { apply (copying_same k k'); try done.
    - unfold heap_inv. change (co_heap k') with h'. rewrite Hsz, Hb. apply (cg_inv _ Hk).
    - intros g g'. change (co_functors k') with (<[f:=f']> (co_functors k)).
      intros [[<- <-]|[_ Hg]]%lookup_insert_Some; [done|].
      eapply same_constant_same; [by apply (cg_functors _ Hk)|done].
    - apply (cg_gray _ Hk). }
  split; [done|]. split; [done|]. split; [apply lookup_insert_eq|]. done.
Qed.

(** ** Iterations *)

Section runs.
Context (d : nat).

Inductive runs : nat -> copier -> copier -> Prop :=
  | runs_refl k : runs 0 k k
  | runs_step m k k1 k2 : (d < stack_size (co_env k))%nat -> copy_step src dcb k = Ok k1 ->
      runs m k1 k2 -> runs (S m) k k2.

Lemma runs_trans m1 m2 k1 k2 k3 : runs m1 k1 k2 -> runs m2 k2 k3 -> runs (m1 + m2) k1 k3.
Proof. induction 1; [done|]. intros. eapply runs_step; eauto. Qed.

Lemma runs_loop m k k' fuel cost :
  runs m k k' -> is_word 64 cost ->
  copy_loop src dcb (m + fuel) d k cost = copy_loop src dcb fuel d k' (w64 (cost + Z.of_nat m)).
Proof.
  intros H. revert cost. induction H as [k|m k k1 k2 Hd Hs H IH]; intros cost Hc.
  - cbn [Nat.add Z.of_nat]. by rewrite Z.add_0_r, wrap_id.
  - cbn [Nat.add copy_loop]. rewrite (proj2 (Nat.ltb_lt _ _) Hd), Hs, Ok_bind, IH by auto with words.
    f_equal. rewrite !wrap_mod, Zplus_mod_idemp_l by lia. f_equal. lia.
Qed.
End runs.

(** A result: the copy of [c], or [c] itself where its copy is under way. *)
Definition result_cells (r : Z * bool) : list Z := [int_cell (Z.b2z r.2); r.1].
Definition yields k c (r : Z * bool) : Prop :=
  if r.2 then r.1 = c /\ cell_tag c = STR /\ c ∈ co_path k
  else image h0 (co_terms k) (co_heap k) c r.1.

Lemma yields_later k k' c r :
  yields k c r -> later k k' -> (forall x, cell_tag x = STR -> x ∈ co_path k -> x ∈ co_path k') ->
  yields k' c r.
Proof.
  intros Hy Hl Hp. unfold yields in *. destruct r as [v []]; cbn in *.
  - destruct Hy as (H1 & H2 & H3). split; [done|]. split; [done|]. by apply Hp.
  - eapply image_mono; [done|apply Hl..].
Qed.

(** The structures [copy] has not met. *)
Definition white k : gset Z := U ∖ (dom (co_terms k) ∪ co_path k).

(** [m] iterations turn the work items for [cs] into results. *)
Record visited (m : nat) k k' (cs rest : list Z) : Prop := Visited {
  vs_copying : copying k';
  vs_later : later k k';
  vs_path : forall c, cell_tag c = STR -> (c ∈ co_path k' <-> c ∈ co_path k);
  vs_stack : e_stack (co_env k') = rest;
  vs_temp : exists rs, Forall2 (yields k') cs rs /\
    co_temp k' = (reverse rs ≫= result_cells) ++ co_temp k;
  vs_count : (m + weight h0 (white k') = length cs + weight h0 (white k))%nat;
  vs_blocks : h_blocks (co_heap k') <= h_blocks (co_heap k) + Z.of_nat m;
  vs_names : (names k' <= names k + m)%nat
}.

Lemma visited_app m1 m2 k1 k2 k3 cs1 cs2 rest1 rest2 :
  visited m1 k1 k2 cs1 rest1 -> visited m2 k2 k3 cs2 rest2 -> visited (m1 + m2) k1 k3 (cs1 ++ cs2) rest2.
Proof.
  intros [C1 L1 P1 S1 (rs1 & Y1 & T1) N1 B1 A1] [C2 L2 P2 S2 (rs2 & Y2 & T2) N2 B2 A2].
  split; [done|by etrans| |done| |rewrite length_app; lia|lia|lia].
  - intros c Hc. by rewrite P2, P1.
  - exists (rs1 ++ rs2). split.
    + apply Forall2_app; [|done]. eapply Forall2_impl; [done|]. intros c r Hy.
      eapply yields_later; [done..|]. intros x Hx. by apply P2.
    + by rewrite T2, T1, reverse_app, bind_app, app_assoc.
Qed.

Lemma white_same k k' :
  (forall c, cell_tag c = STR -> co_terms k' !! c = co_terms k !! c /\ (c ∈ co_path k' <-> c ∈ co_path k)) ->
  white k' = white k.
Proof.
  intros H. apply set_eq. intros c. unfold white. rewrite !elem_of_difference, !elem_of_union, !elem_of_dom.
  split; intros [Hc Hn]; (split; [done|]); destruct (H c (tg_str _ _ _ HU c Hc)) as [Ht Hp];
    by rewrite Ht, Hp in *.
Qed.

Lemma visited_one k k' c r rest :
  copying k' -> later k k' ->
  (forall c, cell_tag c = STR -> co_terms k' !! c = co_terms k !! c /\ (c ∈ co_path k' <-> c ∈ co_path k)) ->
  e_stack (co_env k') = rest -> co_temp k' = result_cells r ++ co_temp k -> yields k' c r ->
  h_blocks (co_heap k') <= h_blocks (co_heap k) + 1 -> (names k' <= S (names k))%nat ->
  visited 1 k k' [c] rest.
Proof.
  intros Hk Hl Hw Hs Ht Hy Hb Hn. split; [done|done| |done| | |lia|lia].
  - intros x Hx. by apply Hw.
  - exists [r]. split; [by repeat constructor|]. by rewrite Ht.
  - by rewrite (white_same k k' Hw).
Qed.

(** The machine without its top item. *)
Definition popped k rest : copier := co_with_env k (with_stack (co_env k) rest).

Lemma co_pop_eq k st c rest :
  e_stack (co_env k) = st :: c :: rest -> co_pop k = Ok (st, c, popped k rest).
Proof. intros H. unfold co_pop, pop. rewrite H, Ok_bind. cbn [with_stack e_stack]. by rewrite Ok_bind. Qed.

Lemma copying_popped k rest : copying k -> copying (popped k rest).
Proof. by intros []. Qed.

(** There is room for [n] more items. *)
Definition room k (n : nat) : Prop :=
  h_blocks (co_heap k) + Z.of_nat (n + weight h0 (white k)) <= 2 ^ 40 /\
  Z.of_nat (names k + (n + weight h0 (white k))) <= 2 ^ 40.

Lemma small_index h i : heap_inv h -> h_blocks h <= 2 ^ 40 -> 0 <= i <= h_size h -> is_index i.
Proof. unfold heap_inv, is_index, is_word, MAX_SIZE. lia. Qed.

Lemma image_node k c v : copying k -> co_terms k !! c = Some v -> image h0 (co_terms k) (co_heap k) c v.
Proof.
  intros Hk Hv. pose proof (cg_node _ Hk c v Hv) as Hn. unfold node_ok in Hn. unfold image.
  destruct (is_ref (cell_tag c)) eqn:Hr; [by apply is_ref_true in Hr as [-> | ->]|].
  by rewrite (tg_str _ _ _ HU c) by apply Hn.
Qed.

(** An item that adds a result but no node. *)
Lemma visit_value k k' c r p rest :
  copying k' -> later k k' -> same_work k k' -> e_stack (co_env k') = rest -> yields k' c r ->
  (forall x, cell_tag x = STR -> (x ∈ p <-> x ∈ co_path k)) ->
  (forall x, x ∈ p -> co_terms k !! x = None) ->
  h_blocks (co_heap k') <= h_blocks (co_heap k) + 1 -> (names k' <= S (names k))%nat ->
  visited 1 k (co_with_path (co_with_temp k' (result_cells r ++ co_temp k)) p) [c] rest.
Proof.
  intros Hk Hl [T C P E _] Hst Hy Hp Hg Hb Hn. set (k'' := co_with_path _ _).
  assert (Hw : forall x, cell_tag x = STR -> co_terms k'' !! x = co_terms k !! x /\ (x ∈ co_path k'' <-> x ∈ co_path k)).
  { intros x Hx. cbn. rewrite T. split; [done|by apply Hp]. }
  assert (Hl' : later k' k'').
  { split; try done. intros x [Hx Hm]. split; [done|]. destruct (Hw x Hx) as [H1 H2].
    rewrite H1, H2, <-T, <-P. done. }
  apply (visited_one k k'' c r rest); try done; [|by etrans|].
  2:{ eapply yields_later; [done..|]. intros x Hx. rewrite P. by apply Hp. }
  apply (copying_same k' k''); try done; [apply Hk|apply Hk|apply (cg_functors _ Hk)|].
  intros x Hx. cbn in *. rewrite T. by apply Hg.
Qed.

Lemma later_popped k rest : later k (popped k rest).
Proof. by split. Qed.

(** A variable gets a new one. *)
Lemma visit_var k c rest :
  copying k -> is_ref (cell_tag c) = true -> co_terms k !! c = None ->
  e_stack (co_env k) = rest -> h_blocks (co_heap k) < 2 ^ 40 ->
  exists k', copy_ref (co_with_path k (co_path k ∪ {[c]})) c = Ok k' /\ visited 1 k k' [c] rest.
Proof.
  intros Hk Hr Hc Hst Hb. unfold copy_ref. change (co_heap (co_with_path _ _)) with (co_heap k).
  destruct (new_ref_total (co_heap k) (cg_inv _ Hk)) as (h & i & Hn & Hal & Hcell). rewrite Hn, Ok_bind.
  eexists. split; [done|]. set (k' := copied _ _ _).

  assert (Hi : ptr_index (ref_cell i) = i).
  { apply cell_value_mk. apply (small_index h); [apply Hal| |].
    - pose proof (al_blocks _ _ _ _ Hal). lia.
    - pose proof (al_size _ _ _ _ Hal). pose proof (al_index _ _ _ _ Hal).
      pose proof (cg_inv _ Hk) as [? _]. lia. }
  assert (Hadd : adds k k' c (ref_cell i) []).
  { destruct Hal as [I1 S1 X1 Z1 B1 A1]. split; try done.
    - symmetry. apply app_nil_r.
    - by intros v' i' ?%elem_of_nil.
    - constructor.
    - unfold node_end. rewrite Hr, Hi. change (co_heap k') with h. lia.
    - change (co_path k') with ((co_path k ∪ {[c]}) ∖ {[c]}). apply set_eq. set_solver. }
  assert (Hk' : copying k').
  { apply (copying_add k k' c (ref_cell i) []); [done..|]. unfold node_ok. rewrite Hr, Hi.
    split; [apply cell_tag_mk|done]. }
  apply (visited_one k k' c (ref_cell i, false)); try done.
  - by eapply adds_later.
  - intros x Hx. assert (x <> c) by (intros ->; by rewrite Hx in Hr).
    cbn. rewrite lookup_insert_ne by done. split; [done|]. set_solver.
  - unfold yields. cbn [fst snd]. eapply image_node; [done|]. apply lookup_insert_eq.
  - apply Hal.
  - unfold names. change (co_heap k') with h. destruct (al_atoms _ _ _ _ Hal) as [-> _]. lia.
Qed.

Lemma visited_popped m k rest k' cs rest' : visited m (popped k rest) k' cs rest' -> visited m k k' cs rest'.
Proof.
  intros [C L P S T N B A]. split; [done| |exact P|exact S|exact T|exact N|exact B|exact A].
  etrans; [apply (later_popped k rest)|done].
Qed.

Lemma yields_value k c v :
  is_ref (cell_tag c) = false -> cell_tag c <> STR -> image h0 ∅ (co_heap k) c v -> yields k c (v, false).
Proof.
  unfold yields, image. cbn [fst snd]. intros Hr Hs H.
  destruct (cell_tag c); first [exact H|discriminate Hr|by destruct Hs].
Qed.

Section leaf.
Context k c rest (Hk : copying k) (Hst : e_stack (co_env k) = rest) (Hr : room k 1).

(** A cell that is no node. *)
Lemma visit_no_node r k' p :
  co_terms k !! c = None -> is_ref (cell_tag c) = false -> cell_tag c <> STR ->
  copying k' -> later k k' -> same_work k k' -> yields k' c r ->
  h_blocks (co_heap k') <= h_blocks (co_heap k) + 1 -> (names k' <= S (names k))%nat ->
  p = co_path k ∪ {[c]} \/ p = (co_path k ∪ {[c]}) ∖ {[c]} ->
  visited 1 k (co_with_path (co_with_temp k' (result_cells r ++ co_temp k)) p) [c] rest.
Proof.
  intros Hc Hnr Hns Hk' Hl Hw Hy Hb Hn Hp.
  assert (Hpp : forall x, x ∈ p -> x ∈ co_path k \/ x = c) by set_solver.
  apply (visit_value k k' c r p); try done.
  - destruct Hw as [_ _ _ _ (-> & _)]. done.
  - intros x Hx. assert (x <> c) by congruence. set_solver.
  - intros x [Hx| ->]%Hpp; [by apply (cg_gray _ Hk)|done].
Qed.

Lemma visit_con :
  cell_tag c = CON -> is_direct c = true \/ portable h0 c -> co_terms k !! c = None ->
  exists k', copy_con src (co_with_path k (co_path k ∪ {[c]})) c = Ok k' /\ visited 1 k k' [c] rest.
Proof.
  intros Ht Hc Hn. unfold copy_con. assert (Hnr : is_ref (cell_tag c) = false) by by rewrite Ht.
  assert (Hns : cell_tag c <> STR) by by rewrite Ht.
  destruct (is_direct c) eqn:Hd.
  - eexists. split; [done|]. apply (visit_no_node (c, false) k); try done; [|lia|lia|by right].
    apply yields_value; [done..|]. unfold image. by rewrite Ht, Hd.
  - destruct Hc as [?|Hp]; [done|].
    set (k1 := co_with_path k _).
    destruct (copy_functor_spec k c Hk Hp) as (k' & f' & E & Hw & Hk' & Hl & Hsc & _ & Hnm & Hb).
    { destruct Hr. lia. }
    assert (E1 : copy_functor src k1 c = Ok (co_with_path k' (co_path k1), f')).
    { unfold copy_functor in *. change (co_functors k1) with (co_functors k).
      change (source src k1) with (source src k). change (co_heap k1) with (co_heap k).
      destruct (co_functors k !! c); [by injection E as <- <-|].
      apply bind_Ok in E as (nm & -> & ([h' g] & Hm & E)%bind_Ok). rewrite Ok_bind, Hm, Ok_bind.
      by injection E as <- <-. }
    rewrite E1, Ok_bind. eexists. split; [done|].
    pose proof (visit_no_node (f', false) k' ((co_path k ∪ {[c]}) ∖ {[c]}) Hn Hnr Hns Hk' Hl Hw) as H.
    unfold copied, temp_push. cbn [co_with_path co_temp co_env co_terms co_functors co_cyclic co_path co_with_temp].
    rewrite (sw_temp _ _ Hw). apply H; [|lia|done|by right].
    apply yields_value; [done..|]. unfold image. by rewrite Ht, Hd.
Qed.

(** A cell with a copy, or whose copy is under way. *)
Lemma visit_met r :
  yields k c r -> visited 1 k (co_with_temp k (result_cells r ++ co_temp k)) [c] rest.
Proof.
  intros Hy. pose proof (visit_value k k c r (co_path k) rest Hk) as H.
  destruct k as [e t m f l p]. apply H; try done; [apply (cg_gray _ Hk)|lia|unfold names; lia].
Qed.

Lemma visit_leaf :
  known dcb h0 U c -> c ∉ white k ->
  exists k', copy_item src dcb k c false = Ok k' /\ visited 1 k k' [c] rest.
Proof.
  intros Hc Hw. unfold copy_item. destruct (co_terms k !! c) as [v|] eqn:Hv.
  { eexists. split; [done|]. apply (visit_met (v, false)). by apply (image_node k). }
  assert (Hvar : is_ref (cell_tag c) = true ->
    exists k', copy_ref (co_with_path k (co_path k ∪ {[c]})) c = Ok k' /\ visited 1 k k' [c] rest).
  { intros Href. apply visit_var; try done. destruct Hr. lia. }
  assert (Hself : forall p, is_ref (cell_tag c) = false -> cell_tag c <> STR -> image h0 ∅ (co_heap k) c c ->
    p = co_path k ∪ {[c]} \/ p = (co_path k ∪ {[c]}) ∖ {[c]} ->
    visited 1 k (co_with_path (temp_push k c 0) p) [c] rest).
  { intros p H1 H2 H3 Hp. apply (visit_no_node (c, false) k p); try done; [by apply yields_value|lia|lia]. }
  unfold known in Hc. unfold image in Hself. destruct (cell_tag c) eqn:Ht; try done.
  - by apply Hvar.
  - by apply Hvar.
  - eexists. split; [done|]. apply Hself; auto.
  - unfold copy_big. rewrite Hc. eexists. split; [done|]. apply Hself; auto.
  - by apply visit_con.
  - assert (Hp : c ∈ co_path k).
    { apply dec_stable. intros Hp. apply Hw. apply elem_of_difference. split; [done|].
      rewrite elem_of_union, elem_of_dom, Hv. by intros [[? ?]|?]. }
    rewrite (bool_decide_eq_true_2 _ Hp). eexists. split; [done|].
    by apply (visit_met (c, true)).
Qed.

End leaf.

(** ** Structures *)

Definition work (cs rest : list Z) : list Z := (cs ≫= fun c => [int_cell 0; c]) ++ rest.

(** [args] are the first arguments of [c]. *)
Lemma push_copy_args_spec n k c args :
  length args = n -> (forall i a, args !! i = Some a -> arg (source src k) c (Z.of_nat i) = Ok a) ->
  push_copy_args src n k c = Ok (co_with_env k (with_stack (co_env k) (work args (e_stack (co_env k))))).
Proof.
  revert k args. induction n as [|n IH]; intros k args Hlen Ha.
  { apply nil_length_inv in Hlen as ->. cbn. by destruct k as [[]]. }
  destruct (last args) as [a|] eqn:Hlast; [|by apply last_None in Hlast as ->].
  apply last_Some in Hlast as [args' ->]. rewrite length_app in Hlen. cbn in Hlen.
  cbn [push_copy_args]. rewrite (Ha n a), Ok_bind by by apply list_lookup_middle; lia.
  rewrite (IH (co_push k a 0) args').
  - unfold work. rewrite bind_app, <-app_assoc. done.
  - lia.
  - intros i b Hb. change (source src (co_push k a 0)) with (source src k).
    apply Ha. by apply lookup_app_l_Some.
Qed.

(** The results [rs] go to the arguments of [v]; [l] are the arguments to patch. *)
Record arguments_set v (rs : list (Z * bool)) (m m' : gmap Z Z) (l : list (Z * Z)) : Prop := ArgumentsSet {
  as_cell : forall i r, rs !! i = Some r -> m' !! (ptr_index v + Z.of_nat i + 1) = Some r.1;
  as_other : forall x, x <= ptr_index v \/ ptr_index v + Z.of_nat (length rs) < x -> m' !! x = m !! x;
  as_patches : forall v' i, (v', i) ∈ l <->
    v' = v /\ exists j r, i = Z.of_nat j /\ rs !! j = Some r /\ r.2 = true;
  as_nodup : NoDup (patch_address <$> l)
}.

Lemma arguments_set_snoc v rs r m m' l :
  arguments_set v rs (<[ptr_index v + Z.of_nat (length rs) + 1 := r.1]> m) m' l ->
  arguments_set v (rs ++ [r]) m m'
    ((if r.2 then [(v, Z.of_nat (length rs))] else []) ++ l).
Proof.
  intros [C O P N].
  assert (Hin : forall v' i, (v', i) ∈ (if r.2 then [(v, Z.of_nat (length rs))] else []) <->
    v' = v /\ i = Z.of_nat (length rs) /\ r.2 = true).
  { intros v' i. destruct (r.2); rewrite ?list_elem_of_singleton, ?elem_of_nil; naive_solver. }
  split.
  - intros i r' [[_ Hi]|[-> <-]]%lookup_snoc_Some; [by apply C|].
    rewrite O by lia. apply lookup_insert_eq.
  - rewrite length_app. cbn. intros x Hx. rewrite O by lia. apply lookup_insert_ne. lia.
  - intros v' i. rewrite elem_of_app, P, Hin. split.
    + intros [(-> & -> & Hr)|(-> & j & r' & -> & Hj & Hr)]; (split; [done|]).
      * exists (length rs), r. split; [done|]. split; [|done]. by apply list_lookup_middle.
      * exists j, r'. split; [done|]. split; [|done]. by apply lookup_app_l_Some.
    + intros (-> & j & r' & -> & [[_ Hj]|[-> <-]]%lookup_snoc_Some & Hr); [right|by left].
      split; [done|]. by exists j, r'.
  - rewrite fmap_app. apply NoDup_app. split; [destruct (r.2); repeat constructor; set_solver|].
    split; [|done]. intros x ([v1 i1] & -> & (-> & -> & _)%Hin)%list_elem_of_fmap
      ([v' i] & Heq & (-> & j & r' & -> & Hj & _)%P)%list_elem_of_fmap.
    apply lookup_lt_Some in Hj. unfold patch_address in Heq. cbn in Heq. lia.
Qed.

Lemma pop_copied_args_spec n k v rs T :
  length rs = n -> co_temp k = (reverse rs ≫= result_cells) ++ T -> cell_tag v = STR ->
  0 <= ptr_index v -> ptr_index v + Z.of_nat n < h_blocks (co_heap k) * MAX_SIZE ->
  exists m l, arguments_set v rs (h_cells (co_heap k)) m l /\
    pop_copied_args n k v = Ok (co_with_cyclic
      (co_with_temp (co_with_heap k (with_cells (co_heap k) m)) T) (co_cyclic k ++ l)).
Proof.
  intros Hlen Ht Hv H0. revert k rs Hlen Ht. induction n as [|n IH]; intros k rs Hlen Ht Hb.
  { apply nil_length_inv in Hlen as ->. exists (h_cells (co_heap k)), []. split.
    - split; [done|done| |constructor]. intros v' i. rewrite elem_of_nil. split; [done|].
      by intros (_ & j & r & _ & [=] & _).
    - cbn in *. rewrite app_nil_r, <-Ht. by destruct k as [[[]]]. }
  destruct (last rs) as [r|] eqn:Hlast; [|by apply last_None in Hlast as ->].
  apply last_Some in Hlast as [rs' ->]. rewrite length_app in Hlen. cbn in Hlen.
  assert (n = length rs') as -> by lia.
  rewrite reverse_snoc in Ht. cbn in Ht. cbn [pop_copied_args]. unfold temp_pop. rewrite Ht, Ok_bind.
  unfold set_arg. rewrite deref_not_ref, Ok_bind by by rewrite Hv.
  unfold heap_set at 1. change (co_heap (co_with_temp k _)) with (co_heap k).
  unfold require, block_exists, find_block_index. rewrite (proj2 (Z.ltb_lt _ _)), !Ok_bind.
  2:{ unfold MAX_SIZE in *. apply Z.div_lt_upper_bound; lia. }
  set (m1 := <[_ := r.1]> (h_cells (co_heap k))).
  set (k1 := co_with_heap _ _).
  set (l1 := if r.2 then [(v, Z.of_nat (length rs'))] else []).
  set (k2 := if _ =? _ then _ else _).
  assert (Hk2 : k2 = co_with_cyclic k1 (co_cyclic k ++ l1)).
  { unfold k2, l1. destruct (r.2); [done|]. by rewrite app_nil_r. }
  clearbody k2. subst k2.
  destruct (IH (co_with_cyclic k1 (co_cyclic k ++ l1)) rs') as (m & l & Hm & E); [done|done|cbn in *; lia|].
  exists m, (l1 ++ l). split; [by apply arguments_set_snoc|].
  rewrite E. rewrite app_assoc. done.
Qed.

Lemma copying_path k c p :
  copying k -> co_terms k !! c = None -> p = co_path k ∪ {[c]} ->
  copying (co_with_path k p) /\ later k (co_with_path k p).
Proof.
  intros Hk Hc ->. assert (Hl : later k (co_with_path k (co_path k ∪ {[c]}))).
  { split; try done. intros x [Hx Hm]. split; [done|]. cbn. destruct Hm; [left; set_solver|by right]. }
  split; [|done]. apply (copying_same k); try done; [apply Hk|apply Hk|apply (cg_functors _ Hk)|].
  cbn. intros x [Hx| ->%elem_of_singleton]%elem_of_union; [by apply (cg_gray _ Hk)|done].
Qed.

(** The new structure [v] of [h] with the results as arguments. *)
Section finish.
Context k c (f f' : Z) (h : heap) (s : Z) (args : list Z) (rs : list (Z * bool)) (T : list Z)
  (m : gmap Z Z) (l : list (Z * Z)).
Hypothesis Hk : copying k.
Hypothesis Hc : c ∈ U.
Hypothesis Hn : co_terms k !! c = None.
Hypothesis Hf : functor h0 c = Ok f.
Hypothesis Hf' : same_constant h0 f (co_heap k) f'.
Hypothesis Hal : allocated (co_heap k) h (s - 1) (2 + con_arity f').
Hypothesis Hs : h_cells h !! s = Some f'.
Hypothesis Hidx : ptr_index (str_cell s) = s.
Hypothesis Hargs : length args = Z.to_nat (con_arity f).
Hypothesis Harg : forall i a, args !! i = Some a -> arg h0 c (Z.of_nat i) = Ok a.
Hypothesis Hrs : Forall2 (yields k) args rs.
Hypothesis Hm : arguments_set (str_cell s) rs (h_cells h) m l.
Let k' := copied (co_with_cyclic (co_with_temp (co_with_heap
  (co_with_terms (co_with_heap k h) (<[c := str_cell s]> (co_terms k))) (with_cells h m)) T)
  (co_cyclic k ++ l)) c (str_cell s).

Lemma finish_length : length rs = length args /\ con_arity f' = con_arity f.
Proof. split; [symmetry; by eapply Forall2_length|apply Hf']. Qed.

Lemma finish_not_ref : is_ref (cell_tag c) = false.
Proof. by rewrite (tg_str _ _ _ HU c Hc). Qed.

Lemma finish_adds : adds k k' c (str_cell s) l.
Proof.
  destruct finish_length as [Hlen Har]. destruct Hm as [C O P N]. destruct Hal as [I1 [S1 C1 A1] X1 Z1 B1 At].
  pose proof (con_arity_range f). rewrite Har in *. rewrite Hidx in *.
  split; try done.
  - split; [done| |done]. intros x Hx. change (h_cells (co_heap k')) with m.
    rewrite O by lia. by apply C1.
  - intros v' i Hin. apply P in Hin as (-> & j & r & -> & Hj & _). split; [done|].
    split; [by apply finish_not_ref|]. exists f. split; [done|]. apply lookup_lt_Some in Hj. lia.
  - unfold node_end. rewrite finish_not_ref, (node_weight_eq _ _ Hf), Hidx.
    change (h_size (co_heap k')) with (h_size h). lia.
Qed.

Lemma finish_node : node_ok k' c (str_cell s).
Proof.
  pose proof (adds_later _ _ _ _ _ Hn finish_adds) as Hl. pose proof (lt_same _ _ Hl) as Hrd.
  destruct finish_length as [Hlen Har]. unfold node_ok. rewrite finish_not_ref.
  split; [done|]. split; [apply cell_tag_mk|]. exists f, f'. split; [done|]. split.
  { change (h_cells (co_heap k')) with m. rewrite (as_other _ _ _ _ _ Hm) by lia. by rewrite Hidx. }
  split; [by eapply same_constant_same|]. intros i Hi.
  destruct (lookup_lt_is_Some_2 args (Z.to_nat i)) as [a Ha]; [lia|].
  destruct (Forall2_lookup_l _ _ _ _ _ Hrs Ha) as (r & Hr & Hy).
  exists a. split; [rewrite <-(Harg _ _ Ha); f_equal; lia|].
  pose proof (as_cell _ _ _ _ _ Hm _ _ Hr) as Hcell. rewrite Z2Nat.id in Hcell by lia.
  replace (ptr_index (str_cell s) + i + 1) with (patch_address (str_cell s, i)) by (unfold patch_address; cbn; lia).
  assert (Hpend : patch_address (str_cell s, i) ∈ pending k' <-> r.2 = true).
  { unfold pending. change (co_cyclic k') with (co_cyclic k ++ l). rewrite fmap_app, elem_of_app. split.
    - intros [Hin|([v' j] & Heq & Hin)%list_elem_of_fmap].
      + apply (pending_below _ _ Hk) in Hin. unfold patch_address in Hin. cbn [fst snd] in Hin.
        rewrite Hidx in Hin. pose proof (al_index _ _ _ _ Hal). lia.
      + apply (as_patches _ _ _ _ _ Hm) in Hin as (-> & j' & r' & -> & Hj & Hr2).
        unfold patch_address in Heq. cbn [fst snd] in Heq.
        assert (Z.to_nat i = j') by lia. congruence.
    - intros Hr2. right. apply list_elem_of_fmap_2, (as_patches _ _ _ _ _ Hm). split; [done|].
      exists (Z.to_nat i), r. split; [lia|done]. }
  assert (Hy' : if r.2 then r.1 = a /\ met k' a else image h0 (co_terms k') (co_heap k') a r.1).
  { unfold yields in Hy. destruct (r.2); [|by eapply image_mono; [|apply Hl..]].
    destruct Hy as (H1 & H2 & H3). split; [done|]. apply (lt_met _ _ Hl). split; [done|by left]. }
  unfold filled. rewrite Hpend. change (h_cells (co_heap k')) with m.
  unfold patch_address. cbn [fst snd]. rewrite Hcell. destruct (r.2); [left; destruct Hy' as [-> ?]; done|].
  right. split; [done|]. by exists r.1.
Qed.

Lemma finish_copying : copying k'.
Proof. eapply copying_add; [done..|apply finish_adds|apply finish_node]. Qed.

End finish.

(** The second visit of a structure, whose arguments are the results on top. *)
Lemma visit_finish k c f args rs T :
  copying k -> c ∈ U -> co_terms k !! c = None -> functor h0 c = Ok f ->
  length args = Z.to_nat (con_arity f) ->
  (forall i a, args !! i = Some a -> arg h0 c (Z.of_nat i) = Ok a) ->
  Forall2 (yields k) args rs -> co_temp k = (reverse rs ≫= result_cells) ++ T ->
  h_blocks (co_heap k) < 2 ^ 40 -> Z.of_nat (names k) < 2 ^ 46 ->
  exists k' v, copy_item src dcb k c true = Ok k' /\ copying k' /\ later k k' /\
    co_terms k' = <[c := v]> (co_terms k) /\ co_path k' = (co_path k ∪ {[c]}) ∖ {[c]} /\
    e_stack (co_env k') = e_stack (co_env k) /\ co_temp k' = result_cells (v, false) ++ T /\
    h_blocks (co_heap k') <= h_blocks (co_heap k) + 1 /\ (names k' <= S (names k))%nat.
Proof.
  intros Hk Hc Hn Hf Hlen Harg Hrs Ht Hb Hnm. unfold copy_item.
  pose proof (tg_str _ _ _ HU c Hc) as Hstr. rewrite Hn, Hstr. cbn [negb]. rewrite andb_false_r. cbn [andb].
  destruct (copying_path k c _ Hk Hn eq_refl) as [Hk1 Hl1]. set (k1 := co_with_path k _) in *. cbv zeta.
  unfold copy_str. rewrite (functor_same _ _ (source_same _ Hk1) _ _ Hf), Ok_bind.
  destruct (tg_functor _ _ _ HU c Hc) as (g & Hg & Hp). assert (g = f) as -> by congruence.
  destruct (copy_functor_spec k1 f Hk1 Hp Hnm) as (k2 & f' & E & Hw & Hk2 & Hl2 & Hsc & _ & Hnm2 & Hb2).
  rewrite E, Ok_bind. cbv zeta.
  destruct (new_str_total (co_heap k2) f' (cg_inv _ Hk2)) as (h & s & Es & Hal & Hs); [apply Hsc|].
  rewrite Es, Ok_bind. pose proof (con_arity_range f). assert (Har : con_arity f' = con_arity f) by apply Hsc.
  pose proof (al_size _ _ _ _ Hal) as Hsz. pose proof (al_index _ _ _ _ Hal) as Hix.
  pose proof (cg_inv _ Hk2) as [H0 _]. pose proof (al_inv _ _ _ _ Hal) as Hih.
  pose proof (al_blocks _ _ _ _ Hal) as Hbl. change (h_blocks (co_heap k1)) with (h_blocks (co_heap k)) in Hb2.
  assert (Hidx : ptr_index (str_cell s) = s) by (apply cell_value_mk, (small_index h); lia || done).
  set (k3 := co_with_terms (co_with_heap k2 h) _).
  assert (Hlr : length rs = Z.to_nat (con_arity f)) by (by rewrite <-Hlen; symmetry; eapply Forall2_length).
  destruct (pop_copied_args_spec (Z.to_nat (con_arity f)) k3 (str_cell s) rs T) as (m & l & Hm & Ep).
  { done. }
  { change (co_temp k3) with (co_temp k2). by rewrite (sw_temp _ _ Hw). }
  { apply cell_tag_mk. }
  { lia. }
  { rewrite Hidx. change (co_heap k3) with h. unfold heap_inv in Hih. lia. }
  rewrite Ep, Ok_bind. eexists _, (str_cell s). split; [done|].
  assert (Hn2 : co_terms k2 !! c = None) by by rewrite (sw_terms _ _ Hw).
  assert (Hrs2 : Forall2 (yields k2) args rs).
  { eapply Forall2_impl; [done|]. intros a r Hy. eapply yields_later; [done|by etrans|].
    intros x _ Hx. rewrite (sw_path _ _ Hw). by apply elem_of_union_l. }
  split; [|split; [|split; [|split; [|split; [|split; [|split]]]]]].
  - by apply (finish_copying k2 c f f' h s args rs T m l).
  - etrans; [exact Hl1|]. etrans; [exact Hl2|].
    eapply adds_later; [exact Hn2|]. by apply (finish_adds k2 c f f' h s args rs T m l).
  - change (<[c:=str_cell s]> (co_terms k2) = <[c:=str_cell s]> (co_terms k)). by rewrite (sw_terms _ _ Hw).
  - change (co_path k2 ∖ {[c]} = (co_path k ∪ {[c]}) ∖ {[c]}). by rewrite (sw_path _ _ Hw).
  - change (e_stack (co_env k2) = e_stack (co_env k)). by destruct (sw_env _ _ Hw) as [-> _].
  - done.
  - change (h_blocks h <= h_blocks (co_heap k) + 1). lia.
  - change (size (h_name_to_index h) <= S (names k))%nat. destruct (al_atoms _ _ _ _ Hal) as [-> _].
    exact Hnm2.
Qed.

Lemma white_elem k c : c ∈ white k <-> c ∈ U /\ co_terms k !! c = None /\ c ∉ co_path k.
Proof.
  unfold white. rewrite elem_of_difference, elem_of_union, elem_of_dom, eq_None_not_Some. tauto.
Qed.

Lemma arguments_exist c f n :
  c ∈ U -> functor h0 c = Ok f -> Z.of_nat n <= con_arity f ->
  exists args, length args = n /\ Forall (known dcb h0 U) args /\
    forall i a, args !! i = Some a -> arg h0 c (Z.of_nat i) = Ok a.
Proof.
  intros Hc Hf. induction n as [|n IH]; intros Hn; [exists []; split_and!; done|].
  destruct IH as (args & Hlen & Hk & Ha); [lia|].
  destruct (tg_arg _ _ _ HU c f (Z.of_nat n) Hc Hf) as (a & Ha1 & Ha2); [lia|].
  exists (args ++ [a]). rewrite length_app. cbn. split; [lia|]. split; [by apply Forall_app; auto|].
  intros i b [[_ Hi]|[-> <-]]%lookup_snoc_Some; [by apply Ha|]. by rewrite Hlen.
Qed.

(** The first visit of a structure pushes it again and its arguments on top. *)
Lemma visit_start k c f args :
  copying k -> c ∈ white k -> functor h0 c = Ok f -> length args = Z.to_nat (con_arity f) ->
  (forall i a, args !! i = Some a -> arg h0 c (Z.of_nat i) = Ok a) -> Z.of_nat (names k) < 2 ^ 46 ->
  exists k', copy_item src dcb k c false = Ok k' /\ copying k' /\ later k k' /\
    co_terms k' = co_terms k /\ co_path k' = co_path k ∪ {[c]} /\ co_temp k' = co_temp k /\
    e_stack (co_env k') = work args (int_cell 1 :: c :: e_stack (co_env k)) /\
    h_blocks (co_heap k') = h_blocks (co_heap k) /\ (names k' <= S (names k))%nat.
Proof.
  intros Hk (Hc & Hn & Hp)%white_elem Hf Hlen Harg Hnm. unfold copy_item.
  rewrite Hn, (tg_str _ _ _ HU c Hc), (bool_decide_eq_false_2 _ Hp), andb_false_r.
  destruct (copying_path k c _ Hk Hn eq_refl) as [Hk1 Hl1]. set (k1 := co_with_path k _) in *. cbv zeta.
  unfold copy_str. rewrite (functor_same _ _ (source_same _ Hk1) _ _ Hf), Ok_bind.
  destruct (tg_functor _ _ _ HU c Hc) as (g & Hg & Hpo). assert (g = f) as -> by congruence.
  destruct (copy_functor_spec k1 f Hk1 Hpo Hnm) as (k2 & f' & E & Hw & Hk2 & Hl2 & Hsc & _ & Hnm2 & Hb2).
  rewrite E, Ok_bind. cbv zeta.
  rewrite (push_copy_args_spec _ _ c args Hlen).
  2:{ intros i a Hi. apply (arg_same h0); [exact (source_same k2 Hk2)|by apply Harg]. }
  eexists. split; [done|]. destruct Hw as [T C P E1 (S1 & _)].
  split; [by destruct Hk2|]. split; [etrans; [exact Hl1|]; etrans; [exact Hl2|by split]|].
  split; [exact T|]. split; [exact P|]. split; [exact E1|]. split; [|by split].
  change (work args (int_cell 1 :: c :: e_stack (co_env k2)) = work args (int_cell 1 :: c :: e_stack (co_env k))).
  by rewrite S1.
Qed.

Section visit.
Context (d : nat).

(** The work items for [cs] become results. *)
Definition visits (N : nat) : Prop :=
  forall cs k rest, (size (white k) <= N)%nat -> Forall (known dcb h0 U) cs -> copying k ->
    e_stack (co_env k) = work cs rest -> (d <= length rest)%nat -> room k (length cs) ->
    exists m k', runs d m k k' /\ visited m k k' cs rest.

Lemma visited_white m k k' cs rest : visited m k k' cs rest -> white k' ⊆ white k.
Proof.
  intros Hv c (Hc & Hn & Hp)%white_elem. apply white_elem. split; [done|]. split.
  - destruct (co_terms k !! c) as [v|] eqn:Hv'; [|done].
    pose proof (lookup_weaken _ _ _ _ Hv' (lt_terms _ _ (vs_later _ _ _ _ _ Hv))). congruence.
  - by rewrite <-(vs_path _ _ _ _ _ Hv) by by apply (tg_str _ _ _ HU).
Qed.

Lemma visit_cons N :
  (forall k c rest, (size (white k) <= N)%nat -> known dcb h0 U c -> copying k ->
    e_stack (co_env k) = int_cell 0 :: c :: rest -> (d <= length rest)%nat -> room k 1 ->
    exists m k', runs d m k k' /\ visited m k k' [c] rest) -> visits N.
Proof.
  intros H cs. induction cs as [|c cs IH]; intros k rest HN Hc Hk Hst Hd Hr.
  { exists 0%nat, k. split; [constructor|]. split; try done; [by exists []|lia|lia]. }
  apply Forall_cons in Hc as [Hc Hcs]. destruct Hr as [Hr1 Hr2]. cbn [length] in Hr1, Hr2.
  destruct (H k c (work cs rest)) as (m1 & k1 & R1 & V1); try done.
  { unfold work. rewrite length_app. lia. }
  { split; lia. }
  pose proof (vs_count _ _ _ _ _ V1). pose proof (vs_blocks _ _ _ _ _ V1). pose proof (vs_names _ _ _ _ _ V1).
  cbn [length] in *. destruct (IH k1 rest) as (m2 & k2 & R2 & V2); try done.
  { etrans; [by apply subseteq_size, (visited_white _ _ _ _ _ V1)|done]. }
  { apply V1. }
  { apply V1. }
  { split; lia. }
  exists (m1 + m2)%nat, k2. split; [by eapply runs_trans|]. by eapply (visited_app _ _ _ _ _ [c]).
Qed.

Lemma visit_structure N k c rest :
  visits N -> (size (white k) <= S N)%nat -> c ∈ white k -> copying k ->
  e_stack (co_env k) = int_cell 0 :: c :: rest -> (d <= length rest)%nat -> room k 1 ->
  exists m k', runs d m k k' /\ visited m k k' [c] rest.
Proof.
  intros HN Hsz Hcw Hk Hst Hd [Hr1 Hr2]. pose proof Hcw as (Hc & Hn & Hp)%white_elem.
  destruct (tg_functor _ _ _ HU c Hc) as (f & Hf & _). pose proof (con_arity_range f).
  destruct (arguments_exist c f (Z.to_nat (con_arity f)) Hc Hf) as (args & Hlen & Hka & Harg); [lia|].
  assert (Hstr : cell_tag c = STR) by by apply (tg_str _ _ _ HU).
  destruct (visit_start (popped k rest) c f args (copying_popped _ rest Hk) Hcw Hf Hlen Harg)
    as (k1 & E1 & Hk1 & Hl1 & T1 & P1 & M1 & S1 & B1 & N1); [change (names (popped k rest)) with (names k); lia|].
  change (co_terms (popped k rest)) with (co_terms k) in T1. change (co_path (popped k rest)) with (co_path k) in P1.
  change (co_temp (popped k rest)) with (co_temp k) in M1. change (e_stack (co_env (popped k rest))) with rest in S1.
  change (h_blocks (co_heap (popped k rest))) with (h_blocks (co_heap k)) in B1.
  change (names (popped k rest)) with (names k) in N1.
  assert (Hw1 : white k1 = white k ∖ {[c]}).
  { apply set_eq. intros x. rewrite elem_of_difference, !white_elem, T1, P1. set_solver. }
  assert (Hweight : weight h0 (white k) = (S (Z.to_nat (con_arity f)) + weight h0 (white k1))%nat).
  { rewrite (weight_remove h0 c _ Hcw), Hw1. unfold node_weight. by rewrite Hf. }
  assert (Hsz1 : (size (white k1) <= N)%nat).
  { rewrite Hw1, size_difference, size_singleton by by apply singleton_subseteq_l. lia. }
  destruct (HN args k1 (int_cell 1 :: c :: rest)) as (m & k2 & R2 & V2); try done.
  { cbn [length]. lia. }
  { rewrite Hlen. split; lia. }
  destruct V2 as [Hk2 Hl2 Hp2 S2 (rs & Hrs & M2) C2 B2 N2].
  assert (Hn2 : co_terms k2 !! c = None).
  { apply (cg_gray _ Hk2), Hp2; [done|]. rewrite P1. by apply elem_of_union_r, elem_of_singleton. }
  destruct (visit_finish (popped k2 rest) c f args rs (co_temp k1) (copying_popped _ rest Hk2) Hc Hn2 Hf Hlen Harg)
    as (k3 & v & E3 & Hk3 & Hl3 & T3 & P3 & S3 & M3 & B3 & N3); try done.
  { change (h_blocks (co_heap k2) < 2 ^ 40). lia. }
  { change (Z.of_nat (names k2) < 2 ^ 46). lia. }
  change (co_terms (popped k2 rest)) with (co_terms k2) in T3. change (co_path (popped k2 rest)) with (co_path k2) in P3.
  change (h_blocks (co_heap (popped k2 rest))) with (h_blocks (co_heap k2)) in B3.
  change (names (popped k2 rest)) with (names k2) in N3.
  assert (Hpath : forall x, cell_tag x = STR -> (x ∈ co_path k3 <-> x ∈ co_path k)).
  { intros x Hx. rewrite P3, elem_of_difference, elem_of_union, (Hp2 x Hx), P1, elem_of_union, elem_of_singleton.
    split; [tauto|]. intros Hxp. split; [tauto|]. by intros ->. }
  assert (Hw3 : white k3 = white k2).
  { apply set_eq. intros x. rewrite !white_elem, T3, P3. destruct (decide (x = c)) as [->|Hne].
    - rewrite lookup_insert_eq, Hn2. split; [by intros (_ & ? & _)|]. intros (_ & _ & H'). destruct H'.
      apply Hp2; [done|]. rewrite P1. by apply elem_of_union_r, elem_of_singleton.
    - rewrite lookup_insert_ne by done.
      rewrite elem_of_difference, elem_of_union, elem_of_singleton. tauto. }
  exists (S (m + 1)), k3. split.
  { eapply runs_step; [|unfold copy_step; rewrite (co_pop_eq _ _ _ _ Hst), Ok_bind; exact E1|].
    - unfold stack_size. rewrite Hst. cbn [length]. lia.
    - eapply runs_trans; [exact R2|].
      eapply runs_step; [|unfold copy_step; rewrite (co_pop_eq _ _ _ _ S2), Ok_bind; exact E3|constructor].
      unfold stack_size. rewrite S2. cbn [length]. lia. }
  split; [done| |done|done| |rewrite Hw3; cbn [length]; lia|lia|lia].
  - etrans; [apply (later_popped k rest)|]. etrans; [exact Hl1|]. etrans; [exact Hl2|].
    etrans; [apply (later_popped k2 rest)|exact Hl3].
  - exists [(v, false)]. split; [|by rewrite M3, M1].
    repeat constructor. unfold yields. cbn [fst snd]. apply (image_node k3); [done|]. by rewrite T3, lookup_insert_eq.
Qed.

Lemma visits_all N : visits N.
Proof.
  induction N as [|N IH]; apply visit_cons; intros k c rest Hsz Hc Hk Hst Hd Hr;
    (destruct (decide (c ∈ white k)) as [Hw|Hw];
      [|destruct (visit_leaf (popped k rest) c rest (copying_popped k rest Hk) eq_refl Hr Hc Hw) as (k' & E & V);
        exists 1%nat, k'; split; [|by eapply visited_popped];
        eapply runs_step; [|unfold copy_step; rewrite (co_pop_eq _ _ _ _ Hst), Ok_bind; exact E|constructor];
        unfold stack_size; rewrite Hst; cbn [length]; lia]).
  - assert (Hemp : white k = ∅) by (apply leibniz_equiv, size_empty_inv; lia). rewrite Hemp in Hw. by apply not_elem_of_empty in Hw.
  - by eapply visit_structure.
Qed.

End visit.

(** ** The references back *)

Lemma patch_cyclic_spec terms l : forall h,
  heap_inv h -> NoDup (patch_address <$> l) ->
  (forall v i, (v, i) ∈ l -> cell_tag v = STR /\ 0 <= patch_address (v, i) < h_size h /\
     exists a w, h_cells h !! patch_address (v, i) = Some a /\ cell_tag a = STR /\ terms !! a = Some w) ->
  exists m, patch_cyclic terms h l = Ok (with_cells h m) /\
    (forall x, x ∉ patch_address <$> l -> m !! x = h_cells h !! x) /\
    (forall p a, p ∈ l -> h_cells h !! patch_address p = Some a -> m !! patch_address p = terms !! a).
Proof.
  induction l as [|[v i] l IH]; intros h Hi Hnd Hl.
  { exists (h_cells h). split; [by destruct h|]. split; [done|]. by intros p a ?%elem_of_nil. }
  apply NoDup_cons in Hnd as [Hnin Hnd].
  destruct (Hl v i) as (Hv & Hx & a & w & Ha & Hta & Hw); [by left|].
  assert (Hder : forall h, deref h v = Ok v) by (intros h'; apply deref_not_ref; by rewrite Hv).
  assert (Haddr : ptr_index v + i + 1 = patch_address (v, i)) by done.
  assert (Hset : heap_set h (patch_address (v, i)) w = Ok (with_cells h (<[patch_address (v, i) := w]> (h_cells h)))).
  { unfold heap_set, require, block_exists, find_block_index. unfold heap_inv, MAX_SIZE in *.
    by rewrite (proj2 (Z.ltb_lt _ _)), Ok_bind by (apply Z.div_lt_upper_bound; lia). }
  cbn [patch_cyclic]. unfold arg, set_arg. rewrite !Hder, !Ok_bind, Haddr.
  unfold heap_get, check_index, require. rewrite (proj2 (Z.ltb_lt _ _)), Ok_bind by lia.
  rewrite Ha. cbn [of_option]. rewrite Ok_bind, deref_not_ref, Ok_bind by by rewrite Hta.
  rewrite Hw, ?Hder, ?Ok_bind, ?Haddr. change (default 0 (Some w)) with w. rewrite Hset, Ok_bind.
  destruct (IH (with_cells h (<[patch_address (v, i) := w]> (h_cells h)))) as (m & E & Hm1 & Hm2); [done|done| |].
  { intros v' i' Hin. destruct (Hl v' i') as (H1 & H2 & a' & w' & H3 & H4 & H5); [by right|].
    split; [done|]. split; [done|]. exists a', w'. split; [|done]. cbn [h_cells with_cells].
    rewrite lookup_insert_ne; [done|]. intros He. apply Hnin. rewrite He. by apply list_elem_of_fmap_2. }
  exists m. split; [done|]. split.
  - intros x Hx'. rewrite fmap_cons in Hx'. apply not_elem_of_cons in Hx' as [Hne Hx'].
    rewrite Hm1 by done. by apply lookup_insert_ne.
  - intros p b [->|Hp]%elem_of_cons Hb.
    + rewrite Ha in Hb. injection Hb as <-. rewrite Hm1, Hw by done. apply lookup_insert_eq.
    + apply Hm2; [done|]. cbn [h_cells with_cells]. rewrite lookup_insert_ne; [done|].
      intros He. apply Hnin. rewrite He. by apply list_elem_of_fmap_2.
Qed.

Lemma functor_str_eq h v f :
  cell_tag v = STR -> cell_tag f = CON -> heap_get h (ptr_index v) = Ok f -> functor h v = Ok f.
Proof.
  intros Ht Hf Hg. unfold functor. rewrite deref_not_ref, Ok_bind, Ht by by rewrite Ht.
  unfold functor_str. rewrite Hg. unfold heap_get in Hg. apply bind_Ok in Hg as ([] & -> & _).
  change (bool_decide (STR = CON)) with false. change (bool_decide (STR = STR)) with true.
  cbv iota. unfold require. rewrite !Ok_bind. by rewrite (bool_decide_eq_true_2 _ Hf).
Qed.

Section patched.
Context k (m : gmap Z Z) (Hk : copying k) (Hpath : forall c, cell_tag c = STR -> c ∉ co_path k).
Hypothesis Hm1 : forall x, x ∉ pending k -> m !! x = h_cells (co_heap k) !! x.
Hypothesis Hm2 : forall p a, p ∈ co_cyclic k -> h_cells (co_heap k) !! patch_address p = Some a ->
  m !! patch_address p = co_terms k !! a.
Let h := with_cells (co_heap k) m.

(** Patches are arguments of copied structures. *)
Lemma pending_inside x : x ∈ pending k ->
  exists c v, co_terms k !! c = Some v /\ is_ref (cell_tag c) = false /\ ptr_index v < x < node_end c v.
Proof.
  intros ([v i] & -> & Hin)%list_elem_of_fmap. destruct (cg_patches _ Hk v i Hin) as (c & f & Hc & Hr & Hf & Hi).
  exists c, v. split; [done|]. split; [done|]. unfold node_end. rewrite Hr, (node_weight_eq _ _ Hf).
  unfold patch_address. cbn. lia.
Qed.

Lemma first_cell_kept c v : co_terms k !! c = Some v -> m !! ptr_index v = h_cells (co_heap k) !! ptr_index v.
Proof.
  intros Hv. apply Hm1. intros (c2 & v2 & Hv2 & Hr2 & H1 & H2)%pending_inside.
  destruct (decide (c = c2)) as [->|Hne]; [assert (v = v2) as -> by congruence; lia|].
  assert (ptr_index v < node_end c v).
  { unfold node_end. destruct (is_ref (cell_tag c)); [lia|].
    unfold node_weight. destruct (functor h0 c); lia. }
  destruct (cg_apart _ Hk c c2 v v2 Hv Hv2 Hne); lia.
Qed.

Lemma old_cell_kept x : x < h_size hd -> m !! x = h_cells hd !! x.
Proof.
  intros Hx. rewrite Hm1; [by apply (rs_cells _ _ (cg_same _ Hk))|].
  intros (c & v & Hv & _ & H1 & _)%pending_inside. destruct (cg_new _ Hk c v Hv). lia.
Qed.

Lemma node_in c v : co_terms k !! c = Some v -> h_size hd <= ptr_index v < h_size (co_heap k).
Proof.
  intros Hv. destruct (cg_new _ Hk c v Hv) as [H1 H2]. split; [done|].
  unfold node_end, node_weight in H2. destruct (is_ref _); [lia|]. destruct (functor h0 c); lia.
Qed.

Lemma patched_get x a : x < h_size (co_heap k) -> m !! x = Some a -> heap_get h x = Ok a.
Proof.
  intros Hx Ha. unfold heap_get, check_index, require. change (h_size h) with (h_size (co_heap k)).
  rewrite (proj2 (Z.ltb_lt _ _)), Ok_bind by done. change (h_cells h) with m. by rewrite Ha.
Qed.

Lemma patched_image c v : image h0 (co_terms k) (co_heap k) c v ->
  image h0 (co_terms k) h c v /\ deref h v = Ok v.
Proof.
  intros Hi. split; [exact Hi|]. destruct (is_ref (cell_tag v)) eqn:Hr; [|by apply deref_not_ref].
  unfold image in Hi. assert (Hv : co_terms k !! c = Some v).
  { destruct (cell_tag c) eqn:Ht; [exact Hi|exact Hi| | | |exact Hi|destruct Hi|destruct Hi].
    - subst v. rewrite Ht in Hr. discriminate Hr.
    - subst v. rewrite Ht in Hr. discriminate Hr.
    - destruct (is_direct c); [subst v; rewrite Ht in Hr; discriminate Hr|].
      destruct Hi as [Hc _]. rewrite Hc in Hr. discriminate Hr. }
  pose proof (cg_node _ Hk c v Hv) as Hn. unfold node_ok in Hn. destruct (is_ref (cell_tag c)).
  - destruct Hn as [_ Hn]. eapply derefs_deref. apply derefs_self; [done|]. apply patched_get; [by apply (node_in c)|].
    by rewrite (first_cell_kept c v).
  - destruct Hn as (_ & Ht & _). by rewrite Ht in Hr.
Qed.

Lemma patched_isomorphic : isomorphic h0 (h_size hd) h (co_terms k).
Proof.
  split.
  - intros c1 c2 v H1 H2. destruct (decide (c1 = c2)) as [|Hne]; [done|].
    assert (forall c, co_terms k !! c = Some v -> ptr_index v < node_end c v).
    { intros c Hc. unfold node_end, node_weight. destruct (is_ref _); [lia|]. destruct (functor h0 c); lia. }
    pose proof (H c1 H1). pose proof (H c2 H2). destruct (cg_apart _ Hk c1 c2 v v H1 H2 Hne); lia.
  - intros c v Hv. by apply (node_in c).
  - intros c v Hv Hr. destruct (patched_image c v (image_node k c v Hk Hv)) as [_ Hd]. split; [|done].
    pose proof (cg_node _ Hk c v Hv) as Hn. unfold node_ok in Hn. rewrite Hr in Hn. apply Hn.
  - intros c v Hv Hr. pose proof (cg_node _ Hk c v Hv) as Hn. unfold node_ok in Hn. rewrite Hr in Hn.
    destruct Hn as (Hc & Ht & f & f' & Hf & Hf' & Hsc & Ha). split; [by apply (tg_str _ _ _ HU)|]. split; [done|].
    assert (Hdv : deref h v = Ok v) by (apply deref_not_ref; by rewrite Ht).
    exists f, f'. split; [done|]. split; [|split; [exact Hsc|]].
    + destruct (node_in c v Hv) as [_ Hin]. apply functor_str_eq; [done|by destruct Hsc|].
      apply patched_get; [exact Hin|]. by rewrite (first_cell_kept c v).
    + intros i Hi. destruct (Ha i Hi) as (a & Ha1 & Ha2). exists a.
      assert (Hx : ptr_index v + i + 1 < h_size (co_heap k)).
      { destruct (cg_new _ Hk c v Hv) as [_ He]. unfold node_end in He. rewrite Hr, (node_weight_eq _ _ Hf) in He. lia. }
      assert (Hw : exists w, m !! (ptr_index v + i + 1) = Some w /\ image h0 (co_terms k) (co_heap k) a w).
      { destruct Ha2 as [(Hp & Hcell & Hta & Hmet)|(Hp & w & Hcell & Hi2)].
        - destruct Hmet as [Hgray|[w Hw]]; [by apply Hpath in Hgray|]. exists w.
          apply list_elem_of_fmap in Hp as (p & Hpe & Hin). rewrite Hpe in *.
          rewrite (Hm2 p a) by done. split; [done|]. unfold image. by rewrite Hta.
        - exists w. by rewrite Hm1. }
      destruct Hw as (w & Hw & Him). exists w. split; [done|]. destruct (patched_image a w Him) as [Him' Hdw].
      unfold arg. rewrite Hdv, Ok_bind, (patched_get _ w), Ok_bind by done. done.
Qed.

End patched.

Lemma loop_reads_same k m :
  copying k -> (forall x, x < h_size hd -> m !! x = h_cells hd !! x) ->
  reads_same hd (with_cells (co_heap k) m).
Proof. intros Hk Hm. destruct (cg_same _ Hk) as [H1 _ H2]. by split. Qed.

(** A cell to patch holds a structure with a copy. *)
Lemma loop_patch k v i :
  copying k -> (forall x, met k x -> is_Some (co_terms k !! x)) -> (v, i) ∈ co_cyclic k ->
  cell_tag v = STR /\ 0 <= patch_address (v, i) < h_size (co_heap k) /\
  exists a w, h_cells (co_heap k) !! patch_address (v, i) = Some a /\ cell_tag a = STR /\ co_terms k !! a = Some w.
Proof.
  intros Hk Hmap Hin. destruct (cg_patches _ Hk v i Hin) as (c & f & Hc & Hr & Hf & Hi).
  pose proof (cg_node _ Hk c v Hc) as Hn. unfold node_ok in Hn. rewrite Hr in Hn.
  destruct Hn as (_ & Ht & g & f' & Hg & _ & _ & Ha). assert (g = f) as -> by congruence.
  assert (Hp : patch_address (v, i) ∈ pending k) by by apply list_elem_of_fmap_2.
  pose proof (pending_below _ _ Hk Hp). destruct (cg_new _ Hk c v Hc) as [Hv _].
  pose proof (rs_size _ _ (cg_same _ Hk)). split; [done|]. split.
  { split; [|done]. unfold patch_address. cbn. pose proof Hlo. lia. }
  destruct (Ha i Hi) as (a & _ & [(_ & Hcell & Hm)|[Hnp _]]); [|by destruct Hnp].
  destruct (Hmap a Hm) as [w Hw]. exists a, w. split; [done|]. split; [by destruct Hm|done].
Qed.

(** [copy] from a state without copies. *)
Lemma copy_loop_result k c fuel :
  copying k -> co_terms k = ∅ -> co_path k = ∅ -> co_temp k = [] -> known dcb h0 U c -> room k 1 ->
  (S (weight h0 U) <= fuel)%nat ->
  exists k' v h cost,
    copy_loop src dcb fuel (stack_size (co_env k)) (co_push k c 0) 0 = Ok (k', cost) /\
    patch_cyclic (co_terms k') (co_heap k') (co_cyclic k') = Ok h /\
    co_temp k' = [int_cell 0; v] /\ e_stack (co_env k') = e_stack (co_env k) /\ later k k' /\
    isomorphic h0 (h_size hd) h (co_terms k') /\ image h0 (co_terms k') h c v /\ reads_same hd h /\
    cost = Z.of_nat (S (weight h0 (U ∩ dom (co_terms k')))).
Proof.
  intros Hk Ht Hp Htm Hc [Hr1 Hr2] Hfuel. set (d := stack_size (co_env k)). set (k0 := co_push k c 0).
  assert (Hw0 : white k0 = U) by (apply set_eq; intros x; rewrite white_elem; cbn; rewrite Ht, Hp; set_solver).
  assert (Hwk : white k = U) by (rewrite <-Hw0; done). rewrite Hwk in Hr1, Hr2.
  destruct (visits_all d (size U) [c] k0 (e_stack (co_env k))) as (m & k' & R & V).
  { by rewrite Hw0. }
  { by constructor. }
  { by destruct Hk. }
  { done. }
  { done. }
  { split; rewrite Hw0; done. }
  destruct V as [Hk' Hl' Hpa St (rs & Hrs & Tm) Cn Bn Nn].
  apply Forall2_cons_inv_l in Hrs as ([v b] & rs' & Hy & ->%Forall2_nil_inv_l & ->).
  assert (Hnp : forall x, cell_tag x = STR -> x ∉ co_path k').
  { intros x Hx. rewrite Hpa by done. change (co_path k0) with (co_path k). rewrite Hp. apply not_elem_of_empty. }
  assert (Hmap : forall x, met k' x -> is_Some (co_terms k' !! x)) by (intros x [Hx [Hg|Hs]]; [by apply Hnp in Hg|done]).
  assert (Hb : b = false).
  { destruct b; [|done]. destruct Hy as (_ & Hx & Hg). by apply Hnp in Hg. }
  subst b. unfold yields in Hy. cbn [fst snd] in Hy.
  destruct (patch_cyclic_spec (co_terms k') (co_cyclic k') (co_heap k')) as (mm & Ep & Hm1 & Hm2).
  { apply Hk'. }
  { apply Hk'. }
  { intros v' i Hin. by apply (loop_patch k'). }
  assert (Hwhite : white k' = U ∖ dom (co_terms k')).
  { apply set_eq. intros x. rewrite white_elem, elem_of_difference, elem_of_dom, <-eq_None_not_Some.
    split; [tauto|]. intros [Hx Hn]. split; [done|]. split; [done|]. by apply Hnp, (tg_str _ _ _ HU). }
  exists k', v, (with_cells (co_heap k') mm), (Z.of_nat m). cbn [length] in Cn. rewrite Hw0, Hwhite in Cn.
  assert (Hm : m = S (weight h0 (U ∩ dom (co_terms k')))).
  { rewrite (weight_split h0 U (dom (co_terms k'))) in Cn. lia. }
  split.
  { replace fuel with (m + (fuel - m))%nat by lia.
    rewrite (runs_loop d m k0 k' (fuel - m) 0 R) by done.
    assert (Hend : stack_size (co_env k') = d) by (unfold stack_size; rewrite St; done).
    assert (Hwm : w64 (0 + Z.of_nat m) = Z.of_nat m) by (apply wrap_id; unfold is_word; lia).
    rewrite Hwm. destruct (fuel - m)%nat; cbn [copy_loop]; by rewrite Hend, Nat.ltb_irrefl. }
  split; [done|]. split; [by rewrite Tm; cbn; change (co_temp k0) with (co_temp k); rewrite Htm|].
  split; [done|]. split; [by etrans; [|exact Hl']; split|].
  split; [by apply (patched_isomorphic k' mm)|]. split; [exact Hy|]. split; [|by rewrite Hm].
  apply loop_reads_same; [done|]. by apply (old_cell_kept k' mm).
Qed.

End loop.

(** ** The theorem *)

(** C15: [copy] terminates on every term, cyclic ones included, and builds an
    isomorphic term out of new cells: variables are mapped one to one to new unbound
    variables, structures one to one to new structures with the same functor and the
    copies of the arguments, and shared and cyclic references are kept.  Terms have big
    integers only when these are not to be copied ([dont_copy_big]).  The cost is one
    iteration and one for each copied structure and each of its arguments.  The cells of
    the destination, its atoms, stack and trail stay as they were. *)
Theorem copy_isomorphic src dont_copy_big fuel e t c U :
  let hs := default (e_heap e) src in
  heap_inv (e_heap e) -> atoms_ok (e_heap e) ->
  term_graph dont_copy_big hs U -> deref hs t = Ok c -> known dont_copy_big hs U c ->
  (S (weight hs U) <= fuel)%nat ->
  h_blocks (e_heap e) + Z.of_nat (S (weight hs U)) <= 2 ^ 40 ->
  Z.of_nat (size (h_name_to_index (e_heap e)) + S (weight hs U)) <= 2 ^ 40 ->
  exists e' v terms,
    copy_term src dont_copy_big fuel e t = Ok (e', v, Z.of_nat (S (weight hs (U ∩ dom terms)))) /\
    isomorphic hs (h_size (e_heap e)) (e_heap e') terms /\ image hs terms (e_heap e') c v /\
    reads_same (e_heap e) (e_heap e') /\ e_stack e' = e_stack e /\ e_trail e' = e_trail e.
Proof.
  intros hs Hi Hat HU Hd Hc Hfuel Hb Hn. set (k := Copier (with_temp_trail e []) [] ∅ ∅ [] ∅).
  assert (Hk : copying hs (e_heap e) U k) by (split; try done; by intros ? ? ?%elem_of_nil || constructor).
  assert (Hw : white U k = U) by (unfold white; cbn; rewrite dom_empty_L; set_solver).
  destruct (copy_loop_result src dont_copy_big hs (e_heap e) U eq_refl HU (proj1 Hi) k c fuel)
    as (k' & v & h & cost & E & Ep & Tm & St & Hl & Iso & Im & Rd & Hcost); try done.
  { by split; rewrite Hw. }
  exists (with_heap (co_env k') h), v, (co_terms k'). split.
  { unfold copy_term. fold k. cbv zeta. change (source src k) with hs. rewrite Hd, Ok_bind.
    change (stack_size (co_env k)) with (stack_size e) in E. rewrite E, Ok_bind, Ep, Ok_bind, Tm.
    by rewrite Hcost. }
  split; [done|]. split; [done|]. split; [done|]. split; [exact St|]. exact (proj1 (lt_trail _ _ Hl)).
Qed.

(** ** An example: [X = f(X, longer_name, Y, g(Y))] *)

Module CopyExample.

(** Address 0 is the tag cell of the structure of [f], 6 that of [g]. *)
Definition long : list Z := [108; 111; 110; 103; 101; 114; 95; 110; 97; 109; 101].
Definition f4 : Z := con_constant [102] 4.
Definition g1 : Z := con_constant [103] 1.
Definition cells : gmap Z Z :=
  list_to_map [(0, str_cell 1); (1, f4); (2, str_cell 1); (3, con_cell_index 0 0); (4, ref_cell 4);
    (5, str_cell 7); (6, str_cell 7); (7, g1); (8, ref_cell 4)].
Definition h : heap := Heap cells 9 1 [] true {[long := 0]} {[0 := long]}.
Definition e : term_env := TermEnv h [7] [] [] 0.
Definition U : gset Z := {[str_cell 1; str_cell 7]}.

Lemma h_atoms : atoms_ok h.
Proof.
  split; cbn -[size].
  - intros name i [<- <-]%lookup_singleton_Some. apply lookup_singleton_eq.
  - intros i [x [<- _]%lookup_singleton_Some]. split; [done|]. vm_compute. reflexivity.
Qed.

(** The copy refers to itself and shares its variable. *)
Example copy_cyclic :
  exists e', copy 20 e (str_cell 1) = Ok (e', str_cell 14, 8) /\
    arg (e_heap e') (str_cell 14) 0 = Ok (str_cell 14) /\
    arg (e_heap e') (str_cell 14) 2 = Ok (ref_cell 9) /\
    (arg (e_heap e') (str_cell 14) 3 ≫= fun g => arg (e_heap e') g 0) = Ok (ref_cell 9).
Proof. eexists. split; [vm_compute; reflexivity|]. vm_compute. done. Qed.

Lemma copy_isomorphic_witness :
  exists e' v terms,
    copy_term None false 20 e (str_cell 1) = Ok (e', v, Z.of_nat (S (weight h (U ∩ dom terms)))) /\
    isomorphic h 9 (e_heap e') terms /\ image h terms (e_heap e') (str_cell 1) v /\
    reads_same h (e_heap e') /\ e_stack e' = [7] /\ e_trail e' = [].
Proof.
  refine (copy_isomorphic None false 20 e (str_cell 1) (str_cell 1) U _ h_atoms _ _ _ _ _ _).
  - unfold heap_inv. vm_compute. split; discriminate.
  - apply graph_check_ok. vm_compute. reflexivity.
  - vm_compute. reflexivity.
  - apply (known_check_ok false h). vm_compute. reflexivity.
  - apply Nat.leb_le. vm_compute. reflexivity.
  - vm_compute. discriminate.
  - vm_compute. discriminate.
Defined.

End CopyExample.
