(* ===== verification/Machine.v ===== *)
(** * The state of the abstract machine ([src/src/interp/interpreter_base.hpp])

    The registers, the stack of environments and choice points, and the operations of
    [interpreter_base] on them.  The stack is an array of words behind [STACK_BASE] in the
    address space of cells.  Here a frame header is one entry of a map from addresses to
    frames, the permanent variables behind an environment are entries of a map from
    addresses to words.  Writing a word destroys the frame it lies in, and allocating a
    frame leaves the stack from its address on unspecified: what is read there before it
    is written again is [UndefinedBehaviour].

    Meta contexts (recursive invocations of the interpreter), delayed goals and debugging
    output are left out: [m()] is null and no delayed goal is pending. *)

From S2P Require Import Prelude Cells Heap Bigs TermEnv.

(** ** Code points

    A code point is the union of an instruction pointer, here the offset of an
    instruction, with a module and a term. *)

Record code_point := CodePoint {
  cp_code : option Z;
  cp_module : Z;
  cp_term : Z
}.

(** [con_cell("$WAM", 0)] *)
Definition WAM_MODULE : Z := con_constant [36; 87; 65; 77] 0.
Definition fail_term : Z := ref_cell 0.

(** [code_point()], [code_point(term)], and from an instruction *)
Definition code_fail : code_point := CodePoint None (mk_cell CON 0) fail_term.
Definition code_of_term (t : Z) : code_point := CodePoint None EMPTY_LIST t.
Definition code_of_offset (o : Z) : code_point := CodePoint (Some o) WAM_MODULE fail_term.
(** [reset()] *)
Definition code_reset : code_point := CodePoint None EMPTY_LIST fail_term.

Definition is_fail (p : code_point) : bool := cp_term p =? fail_term.
Definition has_wam_code (p : code_point) : bool := cp_module p =? WAM_MODULE.
Definition set_wam_code (p : code_point) (o : option Z) : code_point :=
  match o with
  | None => CodePoint None EMPTY_LIST fail_term
  | Some o => CodePoint (Some o) WAM_MODULE (cp_term p)
  end.

(** ** Frames *)

Definition qname : Type := Z * Z.

Inductive env_kind := ENV_NAIVE | ENV_WAM | ENV_FROZEN.

#[export] Instance env_kind_eq_dec : EqDecision env_kind.
Proof. solve_decision. Defined.

(** [environment_base_t] with what [environment_t], [environment_naive_t] and
    [environment_frozen_t] add. *)
Inductive env_rest :=
  | WamRest
  | NaiveRest (b0 qr : Z) (pr : qname)
  | FrozenRest (b0 qr : Z) (pr : qname) (p : code_point) (extra : list Z).
Record environment := Environment {
  env_ce : Z;
  env_ce_kind : env_kind;
  env_cp : code_point;
  env_more : env_rest
}.

(** [choice_point_t]; the extra words are the clauses to choose from, which only the
    interpreter over clauses uses, and the argument registers. *)
Record choice_point := ChoicePoint {
  ch_ce : Z;
  ch_ce_kind : env_kind;
  ch_cp : code_point;
  ch_b : Z;
  ch_bp : code_point;
  ch_tr : nat;
  ch_h : Z;
  ch_b0 : Z;
  ch_qr : Z;
  ch_pr : qname;
  ch_args : list Z;
  ch_choices : list Z
}.

Inductive frame :=
  | FEnv (f : environment)
  | FChoice (ch : choice_point).

(** Sizes in words ([sizeof] divided by 8). *)
Definition env_size (r : env_rest) : Z :=
  match r with
  | WamRest => 4
  | NaiveRest _ _ _ => 8
  | FrozenRest _ _ _ _ extra => 12 + Z.of_nat (length extra)
  end.
Definition choice_size (ch : choice_point) : Z :=
  17 + Z.of_nat (length (ch_args ch)) + Z.of_nat (length (ch_choices ch)).
Definition frame_size (f : frame) : Z :=
  match f with FEnv f => env_size (env_more f) | FChoice ch => choice_size ch end.
Definition frame_ce (f : frame) : Z :=
  match f with FEnv f => env_ce f | FChoice ch => ch_ce ch end.

Definition STACK_BASE : Z := 0x80000000000000.
Definition MAX_STACK_SIZE_WORDS : Z := 1024 * 1024 / 8.
Definition MAX_STACK_FRAME_WORDS : Z := 4096 / 8.
Definition MAX_ARGS : nat := 256.

(** ** The state

    Pointers into the stack are stack addresses, the null pointer is 0.  [w_top] holds
    what execution leaves alone: the registers [top_*], the limits and
    [in_critical_section]. *)

Inductive mode := READ | WRITE.

Record top_level := TopLevel {
  top_e : Z;
  top_b : Z;
  top_hb : Z;
  top_tr : nat;
  maximum_cost : Z;
  heap_limiter : Z;
  critical_section : bool
}.

Record wam := Wam {
  w_env : term_env;
  w_p : code_point;
  w_cp : code_point;
  w_e : Z;
  w_e_kind : env_kind;
  w_b : Z;
  w_b0 : Z;
  w_a : gmap nat Z;
  w_num_args : nat;
  w_x : gmap nat Z;
  w_s : Z;
  w_mode : mode;
  w_qr : Z;
  w_pr : qname;
  w_frames : gmap Z frame;
  w_words : gmap Z Z;
  w_closures : gmap Z Z;
  w_fail : bool;
  w_top_fail : bool;
  w_complete : bool;
  w_cost : Z;
  w_top : top_level
}.

Definition set_env (w : wam) (v : term_env) : wam :=
  Wam v (w_p w) (w_cp w) (w_e w) (w_e_kind w) (w_b w) (w_b0 w) (w_a w) (w_num_args w) (w_x w)
    (w_s w) (w_mode w) (w_qr w) (w_pr w) (w_frames w) (w_words w) (w_closures w) (w_fail w)
    (w_top_fail w) (w_complete w) (w_cost w) (w_top w).
Definition set_p (w : wam) (v : code_point) : wam :=
  Wam (w_env w) v (w_cp w) (w_e w) (w_e_kind w) (w_b w) (w_b0 w) (w_a w) (w_num_args w) (w_x w)
    (w_s w) (w_mode w) (w_qr w) (w_pr w) (w_frames w) (w_words w) (w_closures w) (w_fail w)
    (w_top_fail w) (w_complete w) (w_cost w) (w_top w).
Definition set_cp (w : wam) (v : code_point) : wam :=
  Wam (w_env w) (w_p w) v (w_e w) (w_e_kind w) (w_b w) (w_b0 w) (w_a w) (w_num_args w) (w_x w)
    (w_s w) (w_mode w) (w_qr w) (w_pr w) (w_frames w) (w_words w) (w_closures w) (w_fail w)
    (w_top_fail w) (w_complete w) (w_cost w) (w_top w).
Definition set_b (w : wam) (v : Z) : wam :=
  Wam (w_env w) (w_p w) (w_cp w) (w_e w) (w_e_kind w) v (w_b0 w) (w_a w) (w_num_args w) (w_x w)
    (w_s w) (w_mode w) (w_qr w) (w_pr w) (w_frames w) (w_words w) (w_closures w) (w_fail w)
    (w_top_fail w) (w_complete w) (w_cost w) (w_top w).
Definition set_b0 (w : wam) (v : Z) : wam :=
  Wam (w_env w) (w_p w) (w_cp w) (w_e w) (w_e_kind w) (w_b w) v (w_a w) (w_num_args w) (w_x w)
    (w_s w) (w_mode w) (w_qr w) (w_pr w) (w_frames w) (w_words w) (w_closures w) (w_fail w)
    (w_top_fail w) (w_complete w) (w_cost w) (w_top w).
Definition set_a_regs (w : wam) (v : gmap nat Z) : wam :=
  Wam (w_env w) (w_p w) (w_cp w) (w_e w) (w_e_kind w) (w_b w) (w_b0 w) v (w_num_args w) (w_x w)
    (w_s w) (w_mode w) (w_qr w) (w_pr w) (w_frames w) (w_words w) (w_closures w) (w_fail w)
    (w_top_fail w) (w_complete w) (w_cost w) (w_top w).
Definition set_num_of_args (w : wam) (v : nat) : wam :=
  Wam (w_env w) (w_p w) (w_cp w) (w_e w) (w_e_kind w) (w_b w) (w_b0 w) (w_a w) v (w_x w) (w_s w)
    (w_mode w) (w_qr w) (w_pr w) (w_frames w) (w_words w) (w_closures w) (w_fail w) (w_top_fail w)
    (w_complete w) (w_cost w) (w_top w).
Definition set_x_regs (w : wam) (v : gmap nat Z) : wam :=
  Wam (w_env w) (w_p w) (w_cp w) (w_e w) (w_e_kind w) (w_b w) (w_b0 w) (w_a w) (w_num_args w) v
    (w_s w) (w_mode w) (w_qr w) (w_pr w) (w_frames w) (w_words w) (w_closures w) (w_fail w)
    (w_top_fail w) (w_complete w) (w_cost w) (w_top w).
Definition set_s (w : wam) (v : Z) : wam :=
  Wam (w_env w) (w_p w) (w_cp w) (w_e w) (w_e_kind w) (w_b w) (w_b0 w) (w_a w) (w_num_args w)
    (w_x w) v (w_mode w) (w_qr w) (w_pr w) (w_frames w) (w_words w) (w_closures w) (w_fail w)
    (w_top_fail w) (w_complete w) (w_cost w) (w_top w).
Definition set_mode (w : wam) (v : mode) : wam :=
  Wam (w_env w) (w_p w) (w_cp w) (w_e w) (w_e_kind w) (w_b w) (w_b0 w) (w_a w) (w_num_args w)
    (w_x w) (w_s w) v (w_qr w) (w_pr w) (w_frames w) (w_words w) (w_closures w) (w_fail w)
    (w_top_fail w) (w_complete w) (w_cost w) (w_top w).
Definition set_qr (w : wam) (v : Z) : wam :=
  Wam (w_env w) (w_p w) (w_cp w) (w_e w) (w_e_kind w) (w_b w) (w_b0 w) (w_a w) (w_num_args w)
    (w_x w) (w_s w) (w_mode w) v (w_pr w) (w_frames w) (w_words w) (w_closures w) (w_fail w)
    (w_top_fail w) (w_complete w) (w_cost w) (w_top w).
Definition set_pr (w : wam) (v : qname) : wam :=
  Wam (w_env w) (w_p w) (w_cp w) (w_e w) (w_e_kind w) (w_b w) (w_b0 w) (w_a w) (w_num_args w)
    (w_x w) (w_s w) (w_mode w) (w_qr w) v (w_frames w) (w_words w) (w_closures w) (w_fail w)
    (w_top_fail w) (w_complete w) (w_cost w) (w_top w).
Definition set_closures (w : wam) (v : gmap Z Z) : wam :=
  Wam (w_env w) (w_p w) (w_cp w) (w_e w) (w_e_kind w) (w_b w) (w_b0 w) (w_a w) (w_num_args w)
    (w_x w) (w_s w) (w_mode w) (w_qr w) (w_pr w) (w_frames w) (w_words w) v (w_fail w)
    (w_top_fail w) (w_complete w) (w_cost w) (w_top w).
Definition set_fail (w : wam) (v : bool) : wam :=
  Wam (w_env w) (w_p w) (w_cp w) (w_e w) (w_e_kind w) (w_b w) (w_b0 w) (w_a w) (w_num_args w)
    (w_x w) (w_s w) (w_mode w) (w_qr w) (w_pr w) (w_frames w) (w_words w) (w_closures w) v
    (w_top_fail w) (w_complete w) (w_cost w) (w_top w).
Definition set_cost (w : wam) (v : Z) : wam :=
  Wam (w_env w) (w_p w) (w_cp w) (w_e w) (w_e_kind w) (w_b w) (w_b0 w) (w_a w) (w_num_args w)
    (w_x w) (w_s w) (w_mode w) (w_qr w) (w_pr w) (w_frames w) (w_words w) (w_closures w) (w_fail w)
    (w_top_fail w) (w_complete w) v (w_top w).
Definition set_top (w : wam) (v : top_level) : wam :=
  Wam (w_env w) (w_p w) (w_cp w) (w_e w) (w_e_kind w) (w_b w) (w_b0 w) (w_a w) (w_num_args w)
    (w_x w) (w_s w) (w_mode w) (w_qr w) (w_pr w) (w_frames w) (w_words w) (w_closures w) (w_fail w)
    (w_top_fail w) (w_complete w) (w_cost w) v.
Definition clear_fail (w : wam) : wam :=
  Wam (w_env w) (w_p w) (w_cp w) (w_e w) (w_e_kind w) (w_b w) (w_b0 w) (w_a w) (w_num_args w) (w_x w)
    (w_s w) (w_mode w) (w_qr w) (w_pr w) (w_frames w) (w_words w) (w_closures w) (w_fail w)
    false false (w_cost w) (w_top w).
Definition set_e (w : wam) (e : Z) (k : env_kind) : wam :=
  Wam (w_env w) (w_p w) (w_cp w) e k (w_b w) (w_b0 w) (w_a w) (w_num_args w) (w_x w) (w_s w)
    (w_mode w) (w_qr w) (w_pr w) (w_frames w) (w_words w) (w_closures w) (w_fail w) (w_top_fail w)
    (w_complete w) (w_cost w) (w_top w).
Definition set_stack (w : wam) (f : gmap Z frame) (m : gmap Z Z) : wam :=
  Wam (w_env w) (w_p w) (w_cp w) (w_e w) (w_e_kind w) (w_b w) (w_b0 w) (w_a w) (w_num_args w)
    (w_x w) (w_s w) (w_mode w) (w_qr w) (w_pr w) f m (w_closures w) (w_fail w) (w_top_fail w)
    (w_complete w) (w_cost w) (w_top w).
Definition set_top_fail (w : wam) (b : bool) : wam :=
  Wam (w_env w) (w_p w) (w_cp w) (w_e w) (w_e_kind w) (w_b w) (w_b0 w) (w_a w) (w_num_args w)
    (w_x w) (w_s w) (w_mode w) (w_qr w) (w_pr w) (w_frames w) (w_words w) (w_closures w) (w_fail w)
    b true (w_cost w) (w_top w).

Definition w_heap (w : wam) : heap := e_heap (w_env w).
Definition set_heap (w : wam) (h : heap) : wam := set_env w (with_heap (w_env w) h).

(** ** Costs *)

Definition add_accumulated_cost (w : wam) (cost : Z) : res wam :=
  let cost := w64 (w_cost w + cost) in
  _ ← require (negb (maximum_cost (w_top w) <=? cost)) OutOfFunds;
  Ok (set_cost w cost).

(** [interpreter_base::deref] *)
Definition base_deref (w : wam) (t : Z) : res (wam * Z) :=
  '(t, cost) ← deref_with_cost (w_heap w) t;
  w ← add_accumulated_cost w cost;
  Ok (w, t).

(** ** Argument registers *)

(** The arrays start zeroed. *)
Definition get_a (w : wam) (i : nat) : res Z :=
  _ ← require (bool_decide (i < MAX_ARGS)%nat) UndefinedBehaviour;
  Ok (default 0 (w_a w !! i)).
Definition set_a (w : wam) (i : nat) (t : Z) : res wam :=
  _ ← require (bool_decide (i < MAX_ARGS)%nat) UndefinedBehaviour;
  Ok (set_a_regs w (<[i := t]> (w_a w))).
(** [for (i = 0; i < n; i++) a(i) = ts[i]], from register [i] on. *)
Fixpoint set_args (w : wam) (i : nat) (ts : list Z) : res wam :=
  match ts with
  | [] => Ok w
  | t :: ts => w ← set_a w i t; set_args w (S i) ts
  end.
Fixpoint get_args (w : wam) (i n : nat) : res (list Z) :=
  match n with
  | O => Ok []
  | S n => t ← get_a w i; ts ← get_args w (S i) n; Ok (t :: ts)
  end.

(** ** The stack *)

Definition is_stack (i : Z) : bool := STACK_BASE <=? i.

Definition get_env (w : wam) (a : Z) : res environment :=
  match w_frames w !! a with Some (FEnv f) => Ok f | _ => Throw UndefinedBehaviour end.
Definition get_choice (w : wam) (a : Z) : res choice_point :=
  match w_frames w !! a with Some (FChoice ch) => Ok ch | _ => Throw UndefinedBehaviour end.

(** A new frame at the top of the stack. *)
Definition put_frame (w : wam) (a : Z) (f : frame) : wam :=
  set_stack w
    (<[a := f]> (filter (fun p => p.1 + frame_size p.2 <= a) (w_frames w)))
    (filter (fun p => p.1 < a) (w_words w)).
(** An assignment to a field of a frame. *)
Definition update_frame (w : wam) (a : Z) (f : frame) : wam :=
  set_stack w (<[a := f]> (w_frames w)) (w_words w).

Definition covers (a : Z) (p : Z * frame) : bool := (p.1 <=? a) && (a <? p.1 + frame_size p.2).
Definition get_word (w : wam) (a : Z) : res Z := of_option (w_words w !! a) UndefinedBehaviour.
Definition put_word (w : wam) (a t : Z) : wam :=
  set_stack w (filter (fun p => covers a p = false) (w_frames w)) (<[a := t]> (w_words w)).

(** [y(i)] *)
Definition y_addr (w : wam) (i : nat) : Z := w_e w + 4 + Z.of_nat i.
Definition get_y (w : wam) (i : nat) : res Z := get_word w (y_addr w i).
Definition set_y (w : wam) (i : nat) (t : Z) : wam := put_word w (y_addr w i) t.

(** [num_y] of the naive interpreter: the words behind [environment_base_t] *)
Definition base_num_y (w : wam) : res Z :=
  match w_e_kind w with
  | ENV_FROZEN =>
      f ← get_env w (w_e w);
      match env_more f with
      | FrozenRest _ _ _ _ extra => Ok (8 + Z.of_nat (length extra))
      | _ => Throw UndefinedBehaviour
      end
  | _ => Ok 4
  end.

(** [allocate_stack], given the number of permanent variables of the environment. *)
Definition allocate_stack (w : wam) (num_y : res Z) : res Z :=
  new_s ←
    (if w_b w <? w_e w then n ← num_y; Ok (w_e w + (n + 4))
     else if w_b w =? 0 then Ok STACK_BASE
     else ch ← get_choice w (w_b w); Ok (w_b w + choice_size ch));
  _ ← require (negb (MAX_STACK_SIZE_WORDS <=? new_s - STACK_BASE + MAX_STACK_FRAME_WORDS)) StackOverflow;
  Ok new_s.

Definition allocate_naive (w : wam) (num_y : res Z) : res wam :=
  a ← allocate_stack w num_y;
  let f := Environment (w_e w) (w_e_kind w) (w_cp w) (NaiveRest (w_b0 w) (w_qr w) (w_pr w)) in
  Ok (set_e (put_frame w a (FEnv f)) a ENV_NAIVE).
Definition allocate_wam (w : wam) (num_y : res Z) : res wam :=
  a ← allocate_stack w num_y;
  let f := Environment (w_e w) (w_e_kind w) (w_cp w) WamRest in
  Ok (set_e (put_frame w a (FEnv f)) a ENV_WAM).

(** [allocate_choice_point(cont, num_choices)] with the words of the clauses *)
Definition allocate_choices (w : wam) (num_y : res Z) (cont : code_point) (choices : list Z) : res wam :=
  a ← allocate_stack w num_y;
  args ← get_args w 0 (w_num_args w);
  let ch := ChoicePoint (w_e w) (w_e_kind w) (w_cp w) (w_b w) cont (trail_size (w_env w))
    (h_size (w_heap w)) (w_b0 w) (w_qr w) (w_pr w) args choices in
  let w := set_b (put_frame w a (FChoice ch)) a in
  Ok (set_env w (set_register_hb (w_env w) (h_size (w_heap w)))).
Definition allocate_choice_point (w : wam) (num_y : res Z) (cont : code_point) : res wam :=
  allocate_choices w num_y cont [].

(** [set_register_hb] of a choice point *)
Definition set_hb (w : wam) (hb : Z) : wam := set_env w (set_register_hb (w_env w) hb).
Definition set_hb_of (w : wam) (b : Z) : res wam :=
  if b =? 0 then Ok (set_hb w (top_hb (w_top w)))
  else ch ← get_choice w b; Ok (set_hb w (ch_h ch)).

(** ** Frozen closures *)

Definition heap_watched (h : heap) (addr : Z) : res bool :=
  _ ← require (block_exists h addr) UndefinedBehaviour;
  c ← of_option (h_cells h !! addr) UndefinedBehaviour;
  Ok (bool_decide (cell_tag c = RFW)).

Definition get_frozen_closure (w : wam) (addr : Z) : Z := default EMPTY_LIST (w_closures w !! addr).
Definition set_frozen_closure (w : wam) (addr closure : Z) : res wam :=
  h ← heap_watch (w_heap w) addr true;
  let w := set_env w (trail (with_heap (w_env w) h) addr) in
  Ok (match w_closures w !! addr with
      | Some _ => w                                   (* [insert] keeps an old entry *)
      | None => set_closures w (<[addr := closure]> (w_closures w))
      end).
Definition clear_frozen_closure (w : wam) (addr : Z) : res wam :=
  h ← heap_watch (w_heap w) addr false;
  Ok (set_closures (set_heap w h) (delete addr (w_closures w))).
Fixpoint clear_frozen_closures (w : wam) (addrs : list Z) : res wam :=
  match addrs with
  | [] => Ok w
  | addr :: addrs => w ← clear_frozen_closure w addr; clear_frozen_closures w addrs
  end.

Fixpoint unwind_frozen_closures (w : wam) (entries : list Z) : res wam :=
  match entries with
  | [] => Ok w
  | addr :: entries =>
      watched ← heap_watched (w_heap w) addr;
      w ← (if (watched : bool) then clear_frozen_closure w addr else Ok w);
      unwind_frozen_closures w entries
  end.

(** ** The trail and the heap *)

(** [trim_heap_safe]: never below the limiter; closures of the cells that go are
    cleared.  ([get_frozen_closures] with [from_addr] at the end of the heap counts from
    the last closure.) *)
Definition closures_between (w : wam) (from to : Z) : list Z :=
  let low := if from =? h_size (w_heap w) then to else from in
  (filter (fun kv : Z * Z => low <= kv.1 /\ (from =? h_size (w_heap w) = true \/ kv.1 < to))
     (map_to_list (w_closures w))).*1.
Definition trim_heap_safe (w : wam) (new_size : Z) : res wam :=
  let new_size := Z.max new_size (heap_limiter (w_top w)) in
  w ← clear_frozen_closures w (closures_between w new_size (h_size (w_heap w)));
  h ← trim_heap (w_heap w) new_size;
  Ok (set_heap w h).

(** [unwind]: [term_env::unwind_trail] from an entry to the end. *)
Definition unwind (w : wam) (from : nat) : res wam :=
  w ← unwind_frozen_closures w (drop from (e_trail (w_env w)));
  e ← unwind_trail (w_env w) from (trail_size (w_env w));
  Ok (set_env w (trim_trail e from)).

(** [interpreter_base::tidy_trail] *)
Definition tidy_from (w : wam) : res nat :=
  if w_b w =? 0 then Ok (top_tr (w_top w)) else ch ← get_choice w (w_b w); Ok (ch_tr ch).
Definition base_tidy_trail (w : wam) : res wam :=
  from ← tidy_from w;
  e ← tidy_trail (w_env w) from (trail_size (w_env w));
  Ok (set_env w e).

(** ** Control of the naive interpreter *)

Definition cut_direct (w : wam) : res wam :=
  let w := set_b w (w_b0 w) in
  w ← set_hb_of w (w_b w);
  base_tidy_trail w.
Definition base_cut (w : wam) : res wam :=
  if w_b0 w <? w_b w then cut_direct w else Ok w.

(** [prepare_execution] *)
Definition prepare_execution (w : wam) : wam :=
  let w := set_a_regs (set_num_of_args w 0) ∅ in
  let w := set_b0 w (w_b w) in
  let top := TopLevel (w_e w) (w_b w) (h_size (w_heap w)) (trail_size (w_env w))
    (maximum_cost (w_top w)) (heap_limiter (w_top w)) (critical_section (w_top w)) in
  let w := set_hb (set_top w top) (h_size (w_heap w)) in
  set_p (clear_fail w) code_reset.

(** [reset_to_choice_point] *)
Definition reset_to_choice_point (w : wam) (b : Z) : res wam :=
  ch ← get_choice w b;
  let w := set_cp (set_e w (ch_ce ch) (ch_ce_kind ch)) (ch_cp ch) in
  w ← unwind w (ch_tr ch);
  w ← trim_heap_safe w (ch_h ch);
  let w := set_hb (set_b0 w (ch_b0 ch)) (h_size (w_heap w)) in
  let w := set_pr (set_qr w (ch_qr ch)) (ch_pr ch) in
  w ← set_args (set_num_of_args w (length (ch_args ch))) 0 (ch_args ch);
  Ok (set_b w b).
Definition unwind_to_top_choice_point (w : wam) : res wam :=
  if top_b (w_top w) =? 0 then Ok w
  else w ← reset_to_choice_point w (top_b (w_top w)); Ok (set_b w (top_b (w_top w))).

Section terms.

(** [import_bits] as in [TermEnv]; [fuel] bounds the loops over terms. *)
Context (import_bits : list Z -> Z) (fuel : nat).

Definition base_unify (w : wam) (a b : Z) : res (wam * bool) :=
  '(e, ok, cost) ← unify import_bits fuel (w_env w) a b;
  w ← add_accumulated_cost (set_env w e) cost;
  Ok (w, ok).
Definition base_equal (w : wam) (a b : Z) : res (wam * bool) :=
  '(e, r, cost) ← equal fuel (w_env w) a b;
  w ← add_accumulated_cost (set_env w e) cost;
  Ok (w, r).

(** [can_unify] *)
Definition can_unify (w : wam) (a b : Z) : res (wam * bool) :=
  let old_hb := e_hb (w_env w) in
  let w := set_hb w (h_size (w_heap w)) in
  let current_tr := trail_size (w_env w) in
  '(w, r) ← base_unify w a b;
  w ← (if (r : bool) then unwind w current_tr else Ok w);
  Ok (set_hb w old_hb, r).

End terms.
