(* ===== verification/Wam.v ===== *)
(** * The abstract machine ([src/src/interp/wam_interpreter.hpp], [wam_interpreter.cpp])

    One definition for each instruction, the table of instructions with their sizes, one
    step and the loop [cont_wam].  The code is a map from offsets to instructions; the
    compiler and the linking of labels are not modelled.  A built-in predicate is the
    function an instruction points to. *)

From S2P Require Import Prelude Cells Heap Bigs TermEnv Machine.

(** ** Code *)

(** [builtin_fn]: the arity and the dereferenced arguments. *)
Definition builtin_fn : Type := wam -> nat -> list Z -> res (wam * bool).

Inductive instr :=
  | PUT_VARIABLE_X (xn ai : nat) | PUT_VARIABLE_Y (yn ai : nat)
  | PUT_VALUE_X (xn ai : nat) | PUT_VALUE_Y (yn ai : nat) | PUT_UNSAFE_VALUE_Y (yn ai : nat)
  | PUT_STRUCTURE_A (f : Z) (ai : nat) | PUT_STRUCTURE_X (f : Z) (xn : nat) | PUT_STRUCTURE_Y (f : Z) (yn : nat)
  | PUT_LIST_A (ai : nat) | PUT_LIST_X (xn : nat) | PUT_LIST_Y (yn : nat)
  | PUT_CONSTANT (c : Z) (ai : nat)
  | GET_VARIABLE_X (xn ai : nat) | GET_VARIABLE_Y (yn ai : nat)
  | GET_VALUE_X (xn ai : nat) | GET_VALUE_Y (yn ai : nat)
  | GET_STRUCTURE_A (f : Z) (ai : nat) | GET_STRUCTURE_X (f : Z) (xn : nat) | GET_STRUCTURE_Y (f : Z) (yn : nat)
  | GET_LIST_A (ai : nat) | GET_LIST_X (xn : nat) | GET_LIST_Y (yn : nat)
  | GET_CONSTANT (c : Z) (ai : nat)
  | SET_VARIABLE_A (ai : nat) | SET_VARIABLE_X (xn : nat) | SET_VARIABLE_Y (yn : nat)
  | SET_VALUE_A (ai : nat) | SET_VALUE_X (xn : nat) | SET_VALUE_Y (yn : nat)
  | SET_LOCAL_VALUE_X (xn : nat) | SET_LOCAL_VALUE_Y (yn : nat)
  | SET_CONSTANT (c : Z) | SET_VOID (n : nat)
  | UNIFY_VARIABLE_A (ai : nat) | UNIFY_VARIABLE_X (xn : nat) | UNIFY_VARIABLE_Y (yn : nat)
  | UNIFY_VALUE_A (ai : nat) | UNIFY_VALUE_X (xn : nat) | UNIFY_VALUE_Y (yn : nat)
  | UNIFY_LOCAL_VALUE_X (xn : nat) | UNIFY_LOCAL_VALUE_Y (yn : nat)
  | UNIFY_CONSTANT (c : Z) | UNIFY_VOID (n : nat)
  | ALLOCATE | DEALLOCATE
  | CALL (p : code_point) (num_y : nat) | EXECUTE (p : code_point) | PROCEED
  | BUILTIN (f : Z) (bn : builtin_fn) | BUILTIN_R (f : Z) (bn : builtin_fn) (num_y : nat)
  | TRY_ME_ELSE (L : code_point) | RETRY_ME_ELSE (L : code_point) | TRUST_ME
  | TRY (L : code_point) | RETRY (L : code_point) | TRUST (L : code_point)
  | SWITCH_ON_TERM (pv pc pl ps : code_point)
  | SWITCH_ON_CONSTANT (map : gmap Z code_point) | SWITCH_ON_STRUCTURE (map : gmap Z code_point)
  | NECK_CUT | GET_LEVEL (yn : nat) | CUT (yn : nat)
  | GOTO (L : code_point) | RESET_LEVEL (num_y : nat) | COST (c : Z).

(** [size()]: [sizeof] of the instruction's class in words. *)
Definition instr_size (i : instr) : Z :=
  match i with
  | ALLOCATE | DEALLOCATE | PROCEED | TRUST_ME | NECK_CUT => 2
  | PUT_STRUCTURE_A _ _ | PUT_STRUCTURE_X _ _ | PUT_STRUCTURE_Y _ _
  | GET_STRUCTURE_A _ _ | GET_STRUCTURE_X _ _ | GET_STRUCTURE_Y _ _
  | PUT_CONSTANT _ _ | GET_CONSTANT _ _ => 4
  | EXECUTE _ | BUILTIN _ _ | TRY_ME_ELSE _ | RETRY_ME_ELSE _ | TRY _ | RETRY _ | TRUST _ | GOTO _ => 5
  | CALL _ _ | BUILTIN_R _ _ _ | RESET_LEVEL _ => 6
  | SWITCH_ON_TERM _ _ _ _ => 14
  | _ => 3
  end.

(** [predicate_meta_data]; [predicate_rev_map_] in increasing order of offsets. *)
Record meta_data := MetaData { num_x_registers : nat; num_y_registers : nat }.
Record code := Code {
  c_instrs : gmap Z instr;
  c_rev_map : list (Z * qname);
  c_meta : gmap qname meta_data
}.

Definition NUM_X : nat := 1024.

(** [to_code]: the instruction a code point points to *)
Definition wam_offset (p : code_point) : res Z := of_option (cp_code p) UndefinedBehaviour.
Definition to_code (c : code) (o : Z) : res instr := of_option (c_instrs c !! o) UndefinedBehaviour.
Definition next_instruction (c : code) (p : code_point) : res code_point :=
  o ← wam_offset p;
  i ← to_code c o;
  Ok (set_wam_code p (Some (o + instr_size i))).
Definition goto_next_instruction (c : code) (w : wam) : res wam :=
  p ← next_instruction c (w_p w); Ok (set_p w p).

(** [get_wam_predicate]: the last predicate that starts at or before the address. *)
Definition get_wam_predicate (c : code) (addr : Z) : res qname :=
  of_option (snd <$> last (filter (fun p => p.1 <= addr) (c_rev_map c))) UndefinedBehaviour.
(** [predicate_map_[qn]] makes an entry of zeros where there is none. *)
Definition get_meta_data (c : code) (qn : qname) : meta_data := default (MetaData 0 0) (c_meta c !! qn).

(** The register of the instruction six words before the continuation. *)
Definition num_y_at_call (c : code) (o : Z) : res Z :=
  i ← to_code c (o - 6);
  match i with
  | CALL _ n | BUILTIN_R _ _ n | RESET_LEVEL n => Ok (Z.of_nat n)
  | _ => Throw UndefinedBehaviour
  end.
Definition num_y (c : code) (w : wam) (use_previous : bool) : res Z :=
  if negb use_previous && has_wam_code (w_p w) then
    o ← wam_offset (w_p w);
    qn ← get_wam_predicate c o;
    Ok (Z.of_nat (num_y_registers (get_meta_data c qn)))
  else if negb (has_wam_code (w_cp w)) then base_num_y w
  else o ← wam_offset (w_cp w); num_y_at_call c o.

(** ** Registers *)

Definition get_x (w : wam) (i : nat) : res Z :=
  _ ← require (bool_decide (i < NUM_X)%nat) UndefinedBehaviour;
  Ok (default 0 (w_x w !! i)).
Definition set_x (w : wam) (i : nat) (t : Z) : res wam :=
  _ ← require (bool_decide (i < NUM_X)%nat) UndefinedBehaviour;
  Ok (set_x_regs w (<[i := t]> (w_x w))).

Fixpoint get_xs (w : wam) (i n : nat) : res (list Z) :=
  match n with
  | O => Ok []
  | S n => t ← get_x w i; ts ← get_xs w (S i) n; Ok (t :: ts)
  end.
Fixpoint set_xs (w : wam) (i : nat) (ts : list Z) : res wam :=
  match ts with
  | [] => Ok w
  | t :: ts => w ← set_x w i t; set_xs w (S i) ts
  end.

(** ** Frozen environments *)

(** [allocate_environment<ENV_FROZEN>] with [save_state] *)
Definition allocate_frozen (c : code) (w : wam) : res wam :=
  a ← allocate_stack w (num_y c w false);
  extra ←
    (if negb (has_wam_code (w_p w)) then Ok []
     else
       o ← wam_offset (w_p w);
       qn ← get_wam_predicate c o;
       let num_x := num_x_registers (get_meta_data c qn) in
       let num_a := con_arity (snd qn) in
       xs ← get_xs w 0 num_x;
       args ← get_args w 0 (Z.to_nat num_a);
       Ok (int_cell (Z.of_nat num_x) :: xs ++ int_cell num_a :: args));
  let f := Environment (w_e w) (w_e_kind w) (w_cp w)
    (FrozenRest (w_b0 w) (w_qr w) (w_pr w) (w_p w) extra) in
  let w := set_e (put_frame w a (FEnv f)) a ENV_FROZEN in
  Ok (set_p (set_cp w (code_of_term EMPTY_LIST)) (code_of_term EMPTY_LIST)).

(** [restore_state]: counts that do not fit the saved words read past them. *)
Definition restore_state (w : wam) (extra : list Z) : res wam :=
  match extra with
  | [] => Ok w
  | nx :: rest =>
      let num_x := Z.to_nat (int_value nx) in
      match drop num_x rest with
      | [] => Throw UndefinedBehaviour
      | na :: args =>
          let num_a := Z.to_nat (int_value na) in
          _ ← require (bool_decide (num_a <= length args)%nat) UndefinedBehaviour;
          w ← set_xs w 0 (take num_x rest);
          w ← set_args w 0 (take num_a args);
          Ok (set_num_of_args w num_a)
      end
  end.

(** [deallocate_environment] *)
Definition deallocate_environment (w : wam) : res wam :=
  f ← get_env w (w_e w);
  let leave (w : wam) := set_e (set_cp w (env_cp f)) (env_ce f) (env_ce_kind f) in
  match w_e_kind w, env_more f with
  | ENV_FROZEN, FrozenRest b0 qr pr p extra =>
      w ← restore_state w extra;
      Ok (set_p (set_pr (set_qr (set_b0 (leave w) b0) qr) pr) p)
  | ENV_NAIVE, (NaiveRest b0 qr pr | FrozenRest b0 qr pr _ _) =>
      Ok (set_pr (set_qr (set_b0 (leave w) b0) qr) pr)
  | ENV_WAM, _ => Ok (leave w)
  | _, _ => Throw UndefinedBehaviour
  end.

(** [deallocate_and_proceed], [proceed_and_deallocate] *)
Definition deallocate_and_proceed (w : wam) : res wam :=
  if w_e w =? top_e (w_top w) then
    let w := set_cp w (code_of_term EMPTY_LIST) in
    Ok (set_cp (set_p w (w_cp w)) (code_of_term EMPTY_LIST))
  else
    let is_frozen_env := bool_decide (w_e_kind w = ENV_FROZEN) in
    w ← deallocate_environment w;
    Ok (if is_frozen_env then w else set_cp (set_p w (w_cp w)) (code_of_term EMPTY_LIST)).
Definition proceed_and_deallocate (w : wam) : res wam :=
  let w := set_p w (w_cp w) in
  if w_e w =? top_e (w_top w) then Ok (set_cp w (code_of_term EMPTY_LIST))
  else deallocate_environment w.

(** [is_functor] *)
Definition is_functor (h : heap) (t : Z) : res bool :=
  d ← deref h t; Ok (bool_decide (cell_tag d = CON) || bool_decide (cell_tag d = STR)).

(** [check_frozen], one watched address: a closure whose variable is bound is called, one
    whose variable was bound to an older variable moves there. *)
Definition check_watched (c : code) (w : wam) (addr : Z) : res wam :=
  h ← heap_get (w_heap w) addr;
  let cl := get_frozen_closure w addr in
  if negb (is_ref (cell_tag h)) then
    w ← clear_frozen_closure w addr;
    w ← (if cl =? EMPTY_LIST then Ok w
         else
           w ← allocate_frozen c w;
           m ← arg (w_heap w) cl 0;
           name ← arg (w_heap w) cl 1;
           fm ← is_functor (w_heap w) m;
           fn ← is_functor (w_heap w) name;
           w ← (if (fm : bool) && (fn : bool) then
                  qm ← functor (w_heap w) m;
                  qn ← functor (w_heap w) name;
                  Ok (set_pr w (qm, qn))
                else Ok w);
           w ← allocate_naive w (num_y c w true);
           Ok (set_qr (set_p (set_cp w (code_of_term EMPTY_LIST)) (code_of_term cl)) cl));
    h ← heap_watch (w_heap w) addr false;
    Ok (set_heap w h)
  else
    '(w, h2) ← base_deref w h;
    if negb (is_ref (cell_tag h2)) || (ptr_index h2 =? addr) then Ok w
    else
      w ← set_frozen_closure w (ptr_index h2) cl;
      w ← clear_frozen_closure w addr;
      h ← heap_watch (w_heap w) addr false;
      Ok (set_heap w h).
Fixpoint check_watched_all (c : code) (w : wam) (addrs : list Z) : res wam :=
  match addrs with
  | [] => Ok w
  | addr :: addrs => w ← check_watched c w addr; check_watched_all c w addrs
  end.
(** The watched addresses, last one first. *)
Definition check_frozen (c : code) (w : wam) : res wam :=
  if critical_section (w_top w) then Ok w
  else
    match h_watched (w_heap w) with
    | [] => Ok w
    | watched =>
        w ← check_watched_all c w (rev watched);
        Ok (set_heap w (with_watched (w_heap w) []))
    end.

(** ** Failure, trail and bindings *)

(** [backtrack] *)
Definition backtrack (w : wam) : res wam :=
  if w_b w =? top_b (w_top w) then
    w ← (if w_b w =? 0 then Ok w else ch ← get_choice w (w_b w); Ok (set_b0 w (ch_b0 ch)));
    Ok (set_top_fail (set_fail w true) true)
  else
    ch ← get_choice w (w_b w);
    let w := set_p (set_b0 w (ch_b0 ch)) (ch_bp ch) in
    Ok (if has_wam_code (w_p w) then w else set_fail w true).
Definition backtrack_wam (w : wam) : res (wam * bool) :=
  w ← backtrack (set_fail w false); Ok (w, negb (w_fail w)).

(** [tidy_trail]: entries at or above [hb] go unless they lie in the stack below the
    choice point. *)
Definition keep_entry (hb size bb x : Z) : bool := (x <? hb) || ((size <? x) && (x <? bb)).
Definition tidy_trail (w : wam) : res wam :=
  i ← tidy_from w;
  let tr := trail_size (w_env w) in
  let keep := keep_entry (e_hb (w_env w)) (h_size (w_heap w)) (w_b w) in
  l ← tidy_trail_loop (S (tr - i)) keep (e_trail (w_env w)) i tr;
  Ok (set_env w (with_trail (w_env w) l)).

(** [unwind_trail] from an entry to the end. *)
Fixpoint unwind_entries (w : wam) (entries : list Z) : res wam :=
  match entries with
  | [] => Ok w
  | index :: entries =>
      w ← (if is_stack index then Ok (put_word w index (ref_cell index))
           else h ← heap_set (w_heap w) index (ref_cell index); Ok (set_heap w h));
      unwind_entries w entries
  end.
Definition unwind_trail (w : wam) (a1 : nat) : res wam :=
  let entries := drop a1 (e_trail (w_env w)) in
  w ← unwind_frozen_closures w entries;
  unwind_entries w entries.

Definition push_trail (w : wam) (a : Z) : wam :=
  set_env w (with_trail (w_env w) (e_trail (w_env w) ++ [a])).
Definition trail (w : wam) (a : Z) : wam :=
  if (a <? e_hb (w_env w)) || (is_stack a && (a <? w_b w)) then push_trail w a else w.

Definition bind (w : wam) (ref t : Z) : res wam :=
  if is_stack (ptr_index ref) then
    Ok (trail (put_word w (ptr_index ref) t) (ptr_index ref))
  else e ← TermEnv.bind (w_env w) ref t; Ok (set_env w e).

(** [deref_stack]: the test looks at the first reference, which lies in the stack, so the
    loop only ends at an unbound variable of the heap or at a value. *)
Fixpoint deref_stack_loop (fuel : nat) (w : wam) (t1 : Z) : res Z :=
  match fuel with
  | O => Throw OutOfFuel
  | S fuel =>
      if bool_decide (cell_tag t1 = REF) then
        t2 ← heap_get (w_heap w) (ptr_index t1);
        if t1 =? t2 then Ok t1 else deref_stack_loop fuel w t1
      else Ok t1
  end.
Definition deref_stack (fuel : nat) (w : wam) (ref : Z) : res Z :=
  t1 ← get_word w (ptr_index ref); deref_stack_loop fuel w t1.

(** [deref] follows plain references only, not the watched ones ([RFW]). *)
Definition deref (fuel : nat) (w : wam) (t : Z) : res (wam * Z) :=
  if bool_decide (cell_tag t = REF) then
    if is_stack (ptr_index t) then t ← deref_stack fuel w t; Ok (w, t)
    else base_deref w t
  else Ok (w, t).

(** ** Terms *)

Definition new_ref (w : wam) : res (wam * Z) :=
  '(h, t) ← Heap.new_ref (w_heap w); Ok (set_heap w h, t).
Fixpoint new_refs (w : wam) (n : nat) : res wam :=
  match n with O => Ok w | S n => '(w, _) ← new_ref w; new_refs w n end.
Definition new_term_con (w : wam) (f : Z) : res (wam * Z) :=
  '(h, t) ← new_con0 (w_heap w) f; Ok (set_heap w h, t).
Definition new_term_str (w : wam) (f : Z) : res (wam * Z) :=
  '(h, t) ← new_str0 (w_heap w) f; Ok (set_heap w h, t).
Definition new_term_copy_cell (w : wam) (t : Z) : res wam :=
  '(h, _) ← new_cell0 (w_heap w) t true; Ok (set_heap w h).

(** ** Instructions *)

Section instructions.

Context (import_bits : list Z -> Z) (fuel : nat) (c : code).

Let next := goto_next_instruction c.
Let deref := Wam.deref fuel.
Let unify := base_unify import_bits fuel.

(** A unification or test followed by the next instruction or by backtracking. *)
Definition next_or_backtrack (w : wam) (ok : bool) : res wam :=
  if ok then next w else backtrack w.

Definition put_variable_x (w : wam) (xn ai : nat) : res wam :=
  '(w, ref) ← new_ref w; w ← set_x w xn ref; w ← set_a w ai ref; next w.

Definition put_variable_y (w : wam) (yn ai : nat) : res wam :=
  '(w, ref) ← new_ref w; w ← set_a (set_y w yn ref) ai ref; next w.

Definition put_value_x (w : wam) (xn ai : nat) : res wam :=
  t ← get_x w xn; w ← set_a w ai t; next w.

Definition put_value_y (w : wam) (yn ai : nat) : res wam :=
  t ← get_y w yn; w ← set_a w ai t; next w.

(** A variable of the current environment moves to the heap. *)
Definition put_unsafe_value_y (w : wam) (yn ai : nat) : res wam :=
  t ← get_y w yn;
  '(w, t) ← deref w t;
  if negb (is_ref (cell_tag t)) then w ← set_a w ai t; next w
  else if negb (is_stack (ptr_index t)) || (ptr_index t <? w_e w) then w ← set_a w ai t; next w
  else
    '(w, r) ← new_ref w;
    w ← set_a w ai r;
    w ← bind w t r;
    next w.

Definition put_structure_a (w : wam) (f : Z) (ai : nat) : res wam :=
  '(w, t) ← new_term_con w f; w ← set_a w ai t; next w.

Definition put_structure_x (w : wam) (f : Z) (xn : nat) : res wam :=
  '(w, t) ← new_term_con w f; w ← set_x w xn t; next w.

Definition put_structure_y (w : wam) (f : Z) (yn : nat) : res wam :=
  '(w, t) ← new_term_con w f; next (set_y w yn t).

(** [new_dotted_pair()] *)
Definition new_dotted_pair (w : wam) : res (wam * Z) := new_term_str w DOTTED_PAIR.

Definition put_list_a (w : wam) (ai : nat) : res wam :=
  '(w, t) ← new_dotted_pair w; w ← set_a w ai t; next w.

Definition put_list_x (w : wam) (xn : nat) : res wam :=
  '(w, t) ← new_dotted_pair w; w ← set_x w xn t; next w.

Definition put_list_y (w : wam) (yn : nat) : res wam :=
  '(w, t) ← new_dotted_pair w; next (set_y w yn t).

Definition put_constant (w : wam) (k : Z) (ai : nat) : res wam :=
  w ← set_a w ai k; next w.

Definition get_variable_x (w : wam) (xn ai : nat) : res wam :=
  t ← get_a w ai; w ← set_x w xn t; next w.

Definition get_variable_y (w : wam) (yn ai : nat) : res wam :=
  t ← get_a w ai; next (set_y w yn t).

Definition get_value_x (w : wam) (xn ai : nat) : res wam :=
  s ← get_x w xn; t ← get_a w ai; '(w, ok) ← unify w s t; next_or_backtrack w ok.

Definition get_value_y (w : wam) (yn ai : nat) : res wam :=
  s ← get_y w yn; t ← get_a w ai; '(w, ok) ← unify w s t; next_or_backtrack w ok.

Definition get_structure (w : wam) (f t : Z) : res wam :=
  match cell_tag t with
  | REF | RFW =>
      '(w, s) ← new_term_str w f;
      w ← bind w t s;
      next (set_mode w WRITE)
  | STR =>
      k ← functor (w_heap w) t;
      if k =? f then next (set_mode (set_s w (ptr_index t + 1)) READ)
      else backtrack w
  | _ => backtrack w
  end.

Definition get_structure_a (w : wam) (f : Z) (ai : nat) : res wam :=
  t ← get_a w ai; '(w, t) ← deref w t; get_structure w f t.

Definition get_structure_x (w : wam) (f : Z) (xn : nat) : res wam :=
  t ← get_x w xn; '(w, t) ← deref w t; get_structure w f t.

Definition get_structure_y (w : wam) (f : Z) (yn : nat) : res wam :=
  t ← get_y w yn; '(w, t) ← deref w t; get_structure w f t.

Definition get_list_a (w : wam) (ai : nat) : res wam :=
  get_structure_a w DOTTED_PAIR ai.

Definition get_list_x (w : wam) (xn : nat) : res wam :=
  get_structure_x w DOTTED_PAIR xn.

Definition get_list_y (w : wam) (yn : nat) : res wam :=
  get_structure_y w DOTTED_PAIR yn.

(** The test of a dereferenced term against a constant, which [get_constant] and
    [unify_constant] share: an unbound variable is bound to it. *)
Definition match_constant (w : wam) (k t : Z) : res (wam * bool) :=
  match cell_tag t with
  | REF | RFW => w ← bind w t k; Ok (w, true)
  | CON | INT => Ok (w, k =? t)
  | BIG => base_equal fuel w k t
  | _ => Ok (w, false)
  end.

Definition get_constant (w : wam) (k : Z) (ai : nat) : res wam :=
  t ← get_a w ai; '(w, t) ← deref w t; '(w, ok) ← match_constant w k t; next_or_backtrack w ok.

Definition set_variable_a (w : wam) (ai : nat) : res wam :=
  '(w, t) ← new_ref w; w ← set_a w ai t; next w.

Definition set_variable_x (w : wam) (xn : nat) : res wam :=
  '(w, t) ← new_ref w; w ← set_x w xn t; next w.

Definition set_variable_y (w : wam) (yn : nat) : res wam :=
  '(w, t) ← new_ref w; next (set_y w yn t).

Definition set_value_a (w : wam) (ai : nat) : res wam :=
  t ← get_a w ai; w ← new_term_copy_cell w t; next w.

Definition set_value_x (w : wam) (xn : nat) : res wam :=
  t ← get_x w xn; w ← new_term_copy_cell w t; next w.

Definition set_value_y (w : wam) (yn : nat) : res wam :=
  t ← get_y w yn; w ← new_term_copy_cell w t; next w.

(** The body of the [local_value] instructions: a variable of the stack moves to the
    heap. *)
Definition push_local_value (w : wam) (t : Z) : res wam :=
  '(w, t) ← deref w t;
  if is_ref (cell_tag t) && is_stack (ptr_index t) then
    '(w, h) ← new_ref w; bind w t h
  else new_term_copy_cell w t.

Definition set_local_value_x (w : wam) (xn : nat) : res wam :=
  t ← get_x w xn; w ← push_local_value w t; next w.

Definition set_local_value_y (w : wam) (yn : nat) : res wam :=
  t ← get_y w yn; w ← push_local_value w t; next w.

Definition set_constant (w : wam) (k : Z) : res wam :=
  w ← new_term_copy_cell w k; next w.

Definition set_void (w : wam) (n : nat) : res wam :=
  w ← new_refs w n; next w.

(** The argument in READ mode, a new variable in WRITE mode. *)
Definition next_argument (w : wam) : res (wam * Z) :=
  match w_mode w with
  | READ => t ← heap_get (w_heap w) (w_s w); Ok (w, t)
  | WRITE => new_ref w
  end.
Definition inc_s (w : wam) : wam := set_s w (w64 (w_s w + 1)).

Definition unify_variable_a (w : wam) (ai : nat) : res wam :=
  '(w, t) ← next_argument w; w ← set_a w ai t; next (inc_s w).

Definition unify_variable_x (w : wam) (xn : nat) : res wam :=
  '(w, t) ← next_argument w; w ← set_x w xn t; next (inc_s w).

Definition unify_variable_y (w : wam) (yn : nat) : res wam :=
  '(w, t) ← next_argument w; next (inc_s (set_y w yn t)).

(** The body of the [unify_value] instructions. *)
Definition unify_argument (w : wam) (t : Z) (local : bool) : res wam :=
  '(w, ok) ←
    match w_mode w with
    | READ => s ← heap_get (w_heap w) (w_s w); unify w t s
    | WRITE => w ← (if local then push_local_value w t else new_term_copy_cell w t); Ok (w, true)
    end;
  next_or_backtrack (inc_s w) ok.

Definition unify_value_a (w : wam) (ai : nat) : res wam :=
  t ← get_a w ai; unify_argument w t false.

Definition unify_value_x (w : wam) (xn : nat) : res wam :=
  t ← get_x w xn; unify_argument w t false.

Definition unify_value_y (w : wam) (yn : nat) : res wam :=
  t ← get_y w yn; unify_argument w t false.

Definition unify_local_value_x (w : wam) (xn : nat) : res wam :=
  t ← get_x w xn; unify_argument w t true.

Definition unify_local_value_y (w : wam) (yn : nat) : res wam :=
  t ← get_y w yn; unify_argument w t true.

(** The READ case has no [break]: it goes on into the WRITE case. *)
Definition unify_constant (w : wam) (k : Z) : res wam :=
  '(w, ok) ←
    match w_mode w with
    | READ =>
        t ← heap_get (w_heap w) (w_s w);
        '(w, t) ← deref w t;
        match_constant w k t
    | WRITE => Ok (w, true)
    end;
  w ← new_term_copy_cell w k;
  if (ok : bool) then next (inc_s w) else backtrack w.

Definition unify_void (w : wam) (n : nat) : res wam :=
  w ← match w_mode w with
      | READ => Ok (set_s w (w64 (w_s w + Z.of_nat n)))
      | WRITE => new_refs w n
      end;
  next w.

(** *** Environments and calls *)

Definition allocate (w : wam) : res wam :=
  w ← allocate_wam w (num_y c w true); next w.

Definition deallocate (w : wam) : res wam :=
  w ← (if w_e w =? top_e (w_top w) then Ok (set_cp w (code_of_term EMPTY_LIST))
       else deallocate_environment w);
  w ← next w;
  check_frozen c w.

(** [for (i = 0; i < arity; i++) a(i) = deref(a(i))], from register [i] on. *)
Fixpoint deref_args (w : wam) (i n : nat) : res wam :=
  match n with
  | O => Ok w
  | S n =>
      t ← get_a w i;
      '(w, t) ← deref w t;
      w ← set_a w i t;
      deref_args w (S i) n
  end.
Definition cp_arity (p : code_point) : nat := Z.to_nat (con_arity (cp_term p)).
(** A predicate without code is left to the naive interpreter.  (Automatic compilation,
    off by default, is not modelled.) *)
Definition call (w : wam) (p1 : code_point) (arity : nat) : res wam :=
  cp ← next_instruction c (w_p w);
  let w := set_p (set_cp w cp) p1 in
  let w := set_b0 (set_num_of_args w arity) (w_b w) in
  if negb (has_wam_code p1) then
    w ← deref_args w 0 arity;
    w ← allocate_naive w (num_y c w true);
    Ok (set_cp w (code_of_term EMPTY_LIST))
  else Ok w.

Definition execute (w : wam) (p1 : code_point) (arity : nat) : res wam :=
  Ok (set_p (set_num_of_args (set_b0 w (w_b w)) arity) p1).

Definition proceed (w : wam) : res wam :=
  check_frozen c (set_p w (w_cp w)).

Fixpoint derefed_args (w : wam) (i n : nat) : res (wam * list Z) :=
  match n with
  | O => Ok (w, [])
  | S n =>
      t ← get_a w i;
      '(w, t) ← deref w t;
      '(w, ts) ← derefed_args w (S i) n;
      Ok (w, t :: ts)
  end.
(** [builtins::MAX_ARGS] *)
Definition BUILTIN_MAX_ARGS : nat := 32.

Definition builtin (w : wam) (f : Z) (bn : builtin_fn) : res wam :=
  let n := Z.to_nat (con_arity f) in
  w ← next (set_num_of_args w n);
  _ ← require (bool_decide (n <= BUILTIN_MAX_ARGS)%nat) UndefinedBehaviour;
  '(w, args) ← derefed_args w 0 n;
  '(w, r) ← bn w n args;
  if (r : bool) then check_frozen c w else backtrack w.

(** A recursive built-in returns to the next instruction. *)
Definition builtin_r (w : wam) (f : Z) (bn : builtin_fn) : res wam :=
  let n := Z.to_nat (con_arity f) in
  w ← next (set_num_of_args w n);
  _ ← require (bool_decide (n <= BUILTIN_MAX_ARGS)%nat) UndefinedBehaviour;
  '(w, args) ← derefed_args w 0 n;
  let w := set_cp w (w_p w) in
  w ← allocate_naive w (num_y c w true);
  '(w, r) ← bn (set_cp w (code_of_term EMPTY_LIST)) n args;
  if (r : bool) then check_frozen c w else backtrack w.

(** *** Choice points *)

(** What retrying and trusting share: registers, trail and heap as saved. *)
Definition restore_choice_point (w : wam) (ch : choice_point) : res wam :=
  w ← set_args w 0 (ch_args ch);
  Ok (set_cp (set_e w (ch_ce ch) (ch_ce_kind ch)) (ch_cp ch)).
Definition undo_to (w : wam) (ch : choice_point) : res wam :=
  w ← unwind_trail w (ch_tr ch);
  trim_heap_safe (set_env w (trim_trail (w_env w) (ch_tr ch))) (ch_h ch).
Definition with_bp (ch : choice_point) (bp : code_point) : choice_point :=
  ChoicePoint (ch_ce ch) (ch_ce_kind ch) (ch_cp ch) (ch_b ch) bp (ch_tr ch) (ch_h ch) (ch_b0 ch)
    (ch_qr ch) (ch_pr ch) (ch_args ch) (ch_choices ch).

Definition retry_choice_point (w : wam) (p_else : code_point) : res wam :=
  ch ← get_choice w (w_b w);
  w ← restore_choice_point w ch;
  let w := update_frame w (w_b w) (FChoice (with_bp ch p_else)) in
  w ← undo_to w ch;
  Ok (set_hb w (h_size (w_heap w))).

Definition trust_choice_point (w : wam) : res wam :=
  ch ← get_choice w (w_b w);
  w ← restore_choice_point w ch;
  w ← undo_to w ch;
  let w := set_b w (ch_b ch) in
  set_hb_of w (w_b w).

Definition try_me_else (w : wam) (L : code_point) : res wam :=
  w ← allocate_choice_point w (num_y c w true) L; next w.

Definition retry_me_else (w : wam) (L : code_point) : res wam :=
  w ← retry_choice_point w L; next w.

Definition trust_me (w : wam) : res wam :=
  w ← trust_choice_point w; next w.

Definition try_ (w : wam) (L : code_point) : res wam :=
  p1 ← next_instruction c (w_p w);
  w ← allocate_choice_point w (num_y c w true) p1;
  Ok (set_p w L).

Definition retry (w : wam) (L : code_point) : res wam :=
  p1 ← next_instruction c (w_p w);
  w ← retry_choice_point w p1;
  Ok (set_p w L).

Definition trust (w : wam) (L : code_point) : res wam :=
  w ← trust_choice_point w; Ok (set_p w L).

(** *** Indexing *)

Definition goto_unless_fail (w : wam) (p : code_point) : res wam :=
  if is_fail p then backtrack w else Ok (set_p w p).

Definition switch_on_term (w : wam) (pv pc pl ps : code_point) : res wam :=
  t ← get_a w 0;
  '(w, t) ← deref w t;
  match cell_tag t with
  | CON | INT => goto_unless_fail w pc
  | STR => d ← is_dotted_pair (w_heap w) t; goto_unless_fail w (if (d : bool) then pl else ps)
  | _ => goto_unless_fail w pv
  end.

Definition goto_found (w : wam) (map : gmap Z code_point) (t : Z) : res wam :=
  match map !! t with None => backtrack w | Some p => Ok (set_p w p) end.

Definition switch_on_constant (w : wam) (map : gmap Z code_point) : res wam :=
  t ← get_a w 0; '(w, t) ← deref w t; goto_found w map t.

Definition switch_on_structure (w : wam) (map : gmap Z code_point) : res wam :=
  t ← get_a w 0; '(w, t) ← deref w t; f ← functor (w_heap w) t; goto_found w map f.

(** *** Cut and control *)

Definition neck_cut (w : wam) : res wam :=
  w ← (if w_b0 w <? w_b w then
         let w := set_b w (w_b0 w) in
         w ← set_hb_of w (w_b w);
         tidy_trail w
       else Ok w);
  next w.

Definition get_level (w : wam) (yn : nat) : res wam :=
  next (set_y w yn (int_cell (w_b0 w))).

(** The level is an address of the stack again. *)
Definition cut (w : wam) (yn : nat) : res wam :=
  yval ← get_y w yn;
  let b0 := int_value yval in
  let w := set_b0 w b0 in
  w ← (if b0 <? w_b w then
         let w := set_b w b0 in
         w ← set_hb_of w b0;
         tidy_trail w
       else Ok w);
  next w.

Definition goto_ (w : wam) (L : code_point) : res wam :=
  Ok (set_p w L).

Definition reset_level (w : wam) : res wam :=
  w ← next (set_b0 w (w_b w));
  Ok (set_cp w (w_p w)).

Definition cost (w : wam) (k : Z) : res wam :=
  w ← add_accumulated_cost w (w64 (int_value k)); next w.

(** ** One instruction *)

(** [invoke] *)
Definition invoke (w : wam) (i : instr) : res wam :=
  match i with
  | PUT_VARIABLE_X xn ai => put_variable_x w xn ai
  | PUT_VARIABLE_Y yn ai => put_variable_y w yn ai
  | PUT_VALUE_X xn ai => put_value_x w xn ai
  | PUT_VALUE_Y yn ai => put_value_y w yn ai
  | PUT_UNSAFE_VALUE_Y yn ai => put_unsafe_value_y w yn ai
  | PUT_STRUCTURE_A f ai => put_structure_a w f ai
  | PUT_STRUCTURE_X f xn => put_structure_x w f xn
  | PUT_STRUCTURE_Y f yn => put_structure_y w f yn
  | PUT_LIST_A ai => put_list_a w ai
  | PUT_LIST_X xn => put_list_x w xn
  | PUT_LIST_Y yn => put_list_y w yn
  | PUT_CONSTANT c ai => put_constant w c ai
  | GET_VARIABLE_X xn ai => get_variable_x w xn ai
  | GET_VARIABLE_Y yn ai => get_variable_y w yn ai
  | GET_VALUE_X xn ai => get_value_x w xn ai
  | GET_VALUE_Y yn ai => get_value_y w yn ai
  | GET_STRUCTURE_A f ai => get_structure_a w f ai
  | GET_STRUCTURE_X f xn => get_structure_x w f xn
  | GET_STRUCTURE_Y f yn => get_structure_y w f yn
  | GET_LIST_A ai => get_list_a w ai
  | GET_LIST_X xn => get_list_x w xn
  | GET_LIST_Y yn => get_list_y w yn
  | GET_CONSTANT c ai => get_constant w c ai
  | SET_VARIABLE_A ai => set_variable_a w ai
  | SET_VARIABLE_X xn => set_variable_x w xn
  | SET_VARIABLE_Y yn => set_variable_y w yn
  | SET_VALUE_A ai => set_value_a w ai
  | SET_VALUE_X xn => set_value_x w xn
  | SET_VALUE_Y yn => set_value_y w yn
  | SET_LOCAL_VALUE_X xn => set_local_value_x w xn
  | SET_LOCAL_VALUE_Y yn => set_local_value_y w yn
  | SET_CONSTANT c => set_constant w c
  | SET_VOID n => set_void w n
  | UNIFY_VARIABLE_A ai => unify_variable_a w ai
  | UNIFY_VARIABLE_X xn => unify_variable_x w xn
  | UNIFY_VARIABLE_Y yn => unify_variable_y w yn
  | UNIFY_VALUE_A ai => unify_value_a w ai
  | UNIFY_VALUE_X xn => unify_value_x w xn
  | UNIFY_VALUE_Y yn => unify_value_y w yn
  | UNIFY_LOCAL_VALUE_X xn => unify_local_value_x w xn
  | UNIFY_LOCAL_VALUE_Y yn => unify_local_value_y w yn
  | UNIFY_CONSTANT c => unify_constant w c
  | UNIFY_VOID n => unify_void w n
  | ALLOCATE => allocate w
  | DEALLOCATE => deallocate w
  | CALL p _ => call w p (cp_arity p)
  | EXECUTE p => execute w p (cp_arity p)
  | PROCEED => proceed w
  | BUILTIN f bn => builtin w f bn
  | BUILTIN_R f bn _ => builtin_r w f bn
  | TRY_ME_ELSE L => try_me_else w L
  | RETRY_ME_ELSE L => retry_me_else w L
  | TRUST_ME => trust_me w
  | TRY L => try_ w L
  | RETRY L => retry w L
  | TRUST L => trust w L
  | SWITCH_ON_TERM pv pc pl ps => switch_on_term w pv pc pl ps
  | SWITCH_ON_CONSTANT map => switch_on_constant w map
  | SWITCH_ON_STRUCTURE map => switch_on_structure w map
  | NECK_CUT => neck_cut w
  | GET_LEVEL yn => get_level w yn
  | CUT yn => cut w yn
  | GOTO L => goto_ w L
  | RESET_LEVEL _ => reset_level w
  | COST c => cost w c
  end.

Definition step (w : wam) : res wam :=
  o ← wam_offset (w_p w);
  i ← to_code c o;
  invoke w i.

(** [cont_wam]: until there is no code or nothing to backtrack to; [n] bounds the number
    of instructions. *)
Definition running (w : wam) : bool := has_wam_code (w_p w) && negb (w_top_fail w).
Fixpoint wam_loop (n : nat) (w : wam) : res wam :=
  if running w then
    match n with O => Throw OutOfFuel | S n => w ← step w; wam_loop n w end
  else Ok w.
Definition cont_wam (n : nat) (w : wam) : res (wam * bool) :=
  w ← wam_loop n (set_fail w false); Ok (w, negb (w_fail w)).

End instructions.
