(* ===== verification/WamSafe.v ===== *)
(** * Choice points protect the state

    While a choice point is neither cut nor popped, everything the machine does can be
    undone: [protected] is the invariant of such a run, relative to the cells and the trail
    at the creation of the choice point.  Every instruction preserves it; at the end,
    backtracking to the choice point brings back the argument registers, the environment,
    the continuation, the trail and the cells of that time. *)

From S2P Require Import Prelude Cells Heap HeapGrow Bigs TermEnv HeapSpec UnifyFrame Machine Wam.

(** ** Well-formed states *)

Record env_ok (e : term_env) : Prop := EnvOk {
  eo_layout : heap_inv (e_heap e);
  eo_dom : forall i, is_Some (h_cells (e_heap e) !! i) -> 0 <= i;
  eo_temp : e_temp_trail e = [];
  eo_trail : forall i, i ∈ e_trail e -> 0 <= i
}.

(** The frames a frame points to. *)
Definition frame_top (f : frame) : Z :=
  match f with FEnv f => env_ce f | FChoice ch => Z.max (ch_ce ch) (ch_b ch) end.

(** Frames point to older frames; the limiter lies in the heap; pointers into the stack
    are addresses. *)
Record wam_ok (w : wam) : Prop := WamOk {
  wo_env : env_ok (w_env w);
  wo_limit : heap_limiter (w_top w) <= h_size (w_heap w);
  wo_e : 0 <= w_e w;
  wo_b : 0 <= w_b w;
  wo_frames : forall a f, w_frames w !! a = Some f -> frame_top f < a
}.

(** The same, as a check of a given state. *)
Definition env_check (e : term_env) : bool :=
  bool_decide (heap_inv (e_heap e)) && forallb (fun p : Z * Z => 0 <=? p.1) (map_to_list (h_cells (e_heap e))) &&
  bool_decide (e_temp_trail e = []) && forallb (Z.leb 0) (e_trail e).
Definition wam_check (w : wam) : bool :=
  env_check (w_env w) && (heap_limiter (w_top w) <=? h_size (w_heap w)) && (0 <=? w_e w) && (0 <=? w_b w) &&
  forallb (fun p : Z * frame => frame_top p.2 <? p.1) (map_to_list (w_frames w)).

Lemma env_check_ok e : env_check e = true -> env_ok e.
Proof.
  unfold env_check. rewrite !andb_true_iff, !forallb_forall, !bool_decide_eq_true.
  intros [[[H1 H2] H3] H4]. split; [done| |done|].
  - intros i [x Hx]. apply elem_of_map_to_list, list_elem_of_In, H2 in Hx. by apply Z.leb_le.
  - intros i Hi. by apply Z.leb_le, H4, list_elem_of_In.
Qed.

Lemma wam_check_ok w : wam_check w = true -> wam_ok w.
Proof.
  unfold wam_check. rewrite !andb_true_iff, !Z.leb_le, forallb_forall.
  intros [[[[H1%env_check_ok H2] H3] H4] H5]. split; try done.
  intros a f Hf. apply elem_of_map_to_list, list_elem_of_In, H5 in Hf. by apply Z.ltb_lt.
Qed.

(** The heap lies below the addresses of the stack. *)
Definition small (w : wam) : Prop := h_size (w_heap w) <= STACK_BASE.

(** Watched references in registers, in the stack and in the heap are unbound variables.
    [deref] does not follow them, so it relies on this. *)
Definition value_in (w : wam) (t : Z) : Prop :=
  (exists i, w_a w !! i = Some t) \/ (exists i, w_x w !! i = Some t) \/ (exists i, w_words w !! i = Some t) \/
  (exists i, h_cells (w_heap w) !! i = Some t).
Definition watches_fresh (w : wam) : Prop :=
  forall t, value_in w t -> cell_tag t = RFW -> heap_get (w_heap w) (ptr_index t) = Ok t.

Lemma small_plain w : env_ok (w_env w) -> small w -> plain_heap (w_heap w).
Proof. intros W S. split; [unfold small, STACK_BASE in S; lia|apply W]. Qed.

(** ** Steps that leave heap, trail and frames alone *)

Record same_core (w w' : wam) : Prop := SameCore {
  sc_env : w_env w' = w_env w;
  sc_frames : w_frames w' = w_frames w;
  sc_e : w_e w' = w_e w;
  sc_b : w_b w' = w_b w;
  sc_top : w_top w' = w_top w
}.

#[export] Instance same_core_equiv : PreOrder same_core.
Proof.
  split; [by split|]. intros w1 w2 w3 [H1 H2 H3 H4 H5] [? ? ? ? ?]. split; congruence.
Qed.

(** ** The invariant *)

(** A choice point with its address, and the cells and the trail when it was made. *)
Record saved := Saved {
  sv_b : Z;
  sv_choice : choice_point;
  sv_cells : gmap Z Z;
  sv_entries : list Z;
  sv_tr : ch_tr sv_choice = length sv_entries;
  sv_height : 0 <= ch_h sv_choice <= STACK_BASE;
  sv_dom : forall i, is_Some (sv_cells !! i) -> 0 <= i;
  sv_pos : 0 < sv_b
}.

(** The choice point is on the stack and has not been popped.  Retrying it changes where it
    continues. *)
Record intact (b : Z) (ch : choice_point) (w : wam) : Prop := Intact {
  in_b : b <= w_b w;
  in_frame : exists bp, w_frames w !! b = Some (FChoice (with_bp ch bp))
}.

Section protected.
Context (import_bits : list Z -> Z) (fuel : nat) (c : code) (SV : saved).

Abbreviation b := (sv_b SV).
Abbreviation ch := (sv_choice SV).
Abbreviation H0 := (sv_cells SV).
Abbreviation T0 := (sv_entries SV).
Abbreviation intact := (intact b ch).

(** An environment that does not overlap the choice point. *)
Definition away (e : Z) : Prop := e < b \/ b + choice_size ch <= e.

(** The cells below the choice point are those of [H0], but for variables in the trail. *)
Record undoable (m : gmap Z Z) (T : list Z) : Prop := Undoable {
  ud_vars : forall i, i ∈ T -> i < ch_h ch -> was_var i (H0 !! i);
  ud_cells : forall i, i < ch_h ch -> watch_eq (H0 !! i) (m !! i) \/ was_var i (H0 !! i) /\ i ∈ T
}.

Record env_safe (e : term_env) : Prop := EnvSafe {
  es_ok : env_ok e;
  es_size : ch_h ch <= h_size (e_heap e);
  es_hb : ch_h ch <= e_hb e;
  es_trail : exists T, e_trail e = T0 ++ T /\ undoable (h_cells (e_heap e)) T
}.

Record protected (w : wam) : Prop := Protected {
  pr_env : env_safe (w_env w);
  pr_limit : heap_limiter (w_top w) <= h_size (w_heap w);
  pr_e : away (w_e w);
  pr_frames : forall a f, w_frames w !! a = Some f -> frame_top f < a /\ away (frame_ce f) /\
    (b < a -> b + choice_size ch <= a /\
      forall d, f = FChoice d -> ch_h ch <= ch_h d /\ (ch_tr ch <= ch_tr d)%nat)
}.

Record live (w : wam) : Prop := Live {
  lv_protected : protected w;
  lv_intact : intact w
}.

Lemma same_protected w w' : same_core w w' -> protected w -> protected w'.
Proof. intros [Ce Cf Cee Cb Ct] [E L P F]. split; unfold w_heap in *; rewrite ?Ce, ?Cf, ?Cee, ?Ct; done. Qed.
Lemma same_intact w w' : same_core w w' -> intact w -> intact w'.
Proof. intros [Ce Cf Cee Cb Ct] [B F]. split; rewrite ?Cb, ?Cf; done. Qed.
Lemma same_live w w' : same_core w w' -> live w -> live w'.
Proof. intros C [P I]. split; [by eapply same_protected|by eapply same_intact]. Qed.
Lemma same_small w w' : same_core w w' -> small w -> small w'.
Proof. intros [Ce _ _ _ _] S. unfold small, w_heap. by rewrite Ce. Qed.

Lemma add_cost_same w k w' : add_accumulated_cost w k = Ok w' -> same_core w w'.
Proof. unfold add_accumulated_cost. intros (u & _ & H)%bind_Ok. by injection H as <-. Qed.
Lemma set_a_same w i t w' : set_a w i t = Ok w' -> same_core w w'.
Proof. unfold set_a. intros (u & _ & H)%bind_Ok. by injection H as <-. Qed.
Lemma set_x_same w i t w' : set_x w i t = Ok w' -> same_core w w'.
Proof. unfold set_x. intros (u & _ & H)%bind_Ok. by injection H as <-. Qed.
Lemma set_args_same ts w i w' : set_args w i ts = Ok w' -> same_core w w'.
Proof.
  revert w i. induction ts as [|t ts IH]; intros w i H; cbn [set_args] in H; [by injection H as <-|].
  apply bind_Ok in H as (w1 & H1%set_a_same & H). etransitivity; [done|by eapply IH].
Qed.
Lemma set_xs_same ts w i w' : set_xs w i ts = Ok w' -> same_core w w'.
Proof.
  revert w i. induction ts as [|t ts IH]; intros w i H; cbn [set_xs] in H; [by injection H as <-|].
  apply bind_Ok in H as (w1 & H1%set_x_same & H). etransitivity; [done|by eapply IH].
Qed.
Lemma next_same w w' : goto_next_instruction c w = Ok w' -> same_core w w'.
Proof. unfold goto_next_instruction. intros (p & _ & H)%bind_Ok. by injection H as <-. Qed.

Lemma backtrack_same w w' : backtrack w = Ok w' -> same_core w w'.
Proof.
  unfold backtrack. destruct (_ =? _).
  - intros (w1 & H1 & H)%bind_Ok. injection H as <-.
    destruct (w_b w =? 0); [by injection H1 as <-|].
    apply bind_Ok in H1 as (d & _ & H1). by injection H1 as <-.
  - intros (d & _ & H)%bind_Ok. injection H as <-. cbn. by destruct (has_wam_code _).
Qed.

Lemma next_or_backtrack_same w ok w' : next_or_backtrack c w ok = Ok w' -> same_core w w'.
Proof. unfold next_or_backtrack. destruct ok; [apply next_same|apply backtrack_same]. Qed.
Lemma goto_unless_same w p w' : goto_unless_fail w p = Ok w' -> same_core w w'.
Proof. unfold goto_unless_fail. destruct (is_fail p); [apply backtrack_same|]. intros H. by injection H as <-. Qed.
Lemma goto_found_same w m t w' : goto_found w m t = Ok w' -> same_core w w'.
Proof. unfold goto_found. destruct (m !! t); [|apply backtrack_same]. intros H. by injection H as <-. Qed.

Lemma base_deref_same w t w' d : base_deref w t = Ok (w', d) -> same_core w w'.
Proof.
  unfold base_deref. intros ([d' k] & _ & (w1 & H1%add_cost_same & H)%bind_Ok)%bind_Ok. by injection H as <- <-.
Qed.
Lemma deref_same w t w' d : deref fuel w t = Ok (w', d) -> same_core w w'.
Proof.
  unfold deref. destruct (bool_decide _); [|intros H; by injection H as <- <-].
  destruct (is_stack _); [|apply base_deref_same]. intros (d' & _ & H)%bind_Ok. by injection H as <- <-.
Qed.
Lemma deref_args_same n w i w' : deref_args fuel w i n = Ok w' -> same_core w w'.
Proof.
  revert w i. induction n as [|n IH]; intros w i H; cbn [deref_args] in H; [by injection H as <-|].
  apply bind_Ok in H as (t & _ & ([w1 d] & H1%deref_same & (w2 & H2%set_a_same & H)%bind_Ok)%bind_Ok).
  etransitivity; [done|]. etransitivity; [done|by eapply IH].
Qed.
Lemma derefed_args_same n w i w' ts : derefed_args fuel w i n = Ok (w', ts) -> same_core w w'.
Proof.
  revert w i ts. induction n as [|n IH]; intros w i ts H; cbn [derefed_args] in H; [by injection H as <- <-|].
  apply bind_Ok in H as (t & _ & ([w1 d] & H1%deref_same & ([w2 ds] & H2 & H)%bind_Ok)%bind_Ok).
  injection H as <- <-. etransitivity; [done|by eapply IH].
Qed.

(** *** Bindings *)

(** A variable that may be bound: unbound when the choice point was made, or younger. *)
Definition bindable (t : Z) : Prop :=
  0 <= ptr_index t /\ (ptr_index t < ch_h ch -> was_var (ptr_index t) (H0 !! ptr_index t)).

Lemma undoable_var m T i : undoable m T -> i < ch_h ch -> was_var i (m !! i) -> was_var i (H0 !! i).
Proof. intros [V C] Hi Hv. destruct (C i Hi) as [E|[? _]]; [by rewrite E|done]. Qed.

Lemma var_bindable w t : protected w -> var_at (w_heap w) (ptr_index t) -> bindable t.
Proof.
  intros [[O S B (T & _ & U)] L E F] ([Hi _] & _ & V). split; [done|]. intros Hlt. by eapply undoable_var.
Qed.

Lemma get_bindable w t :
  protected w -> small w -> heap_get (w_heap w) (ptr_index t) = Ok t -> is_ref (cell_tag t) = true -> bindable t.
Proof.
  intros P Sm H Hr. apply (var_bindable w); [done|]. pose proof (small_plain w (es_ok _ (pr_env _ P)) Sm) as Hp.
  pose proof (heap_get_index _ _ _ Hp H) as Hi. destruct (heap_get_cell _ _ _ H) as [Hc Hs].
  split; [done|]. split; [done|]. exists t. split; [done|]. split; [done|by apply address_index].
Qed.

Lemma deref_bindable w t w' d :
  protected w -> small w -> watches_fresh w -> (value_in w t \/ cell_tag t <> RFW) -> deref fuel w t = Ok (w', d) ->
  is_ref (cell_tag d) = true -> bindable d.
Proof.
  intros P Sm Fr Ht H Hr. unfold deref in H.
  destruct (bool_decide (cell_tag t = REF)) eqn:Etag.
  - apply bool_decide_eq_true in Etag. destruct (is_stack (ptr_index t)).
    + apply bind_Ok in H as (d' & Hd & H). injection H as <- <-. unfold deref_stack in Hd.
      apply bind_Ok in Hd as (t1 & Hw & Hd). apply of_option_Ok in Hw.
      apply (get_bindable w); [done|done| |done].
      revert Hd. clear - Fr Hw Hr. induction fuel as [|n IH]; [done|]. cbn [deref_stack_loop].
      destruct (bool_decide (cell_tag t1 = REF)) eqn:E1.
      * intros (t2 & H2 & H)%bind_Ok. destruct (Z.eqb_spec t1 t2) as [->|]; [|by apply IH].
        injection H as <-. done.
      * intros H. injection H as ->. apply bool_decide_eq_false in E1. apply is_ref_true in Hr as [?|Hr]; [done|].
        apply Fr; [|done]. right; right; left. by eexists.
    + unfold base_deref in H. apply bind_Ok in H as ([d' k] & Hd & (w1 & _ & H)%bind_Ok). injection H as <- <-.
      apply (get_bindable w); [done|done| |done]. by eapply deref_end.
  - apply bool_decide_eq_false in Etag. injection H as <- <-. apply is_ref_true in Hr as [?|Hr]; [done|].
    destruct Ht as [Hv|?]; [|done]. apply (get_bindable w); [done|done| |by rewrite Hr]. by apply Fr.
Qed.

Lemma undoable_bind m T i v :
  undoable m T -> (i < ch_h ch -> was_var i (H0 !! i)) -> undoable (<[i := v]> m) (T ++ [i]).
Proof.
  intros [V C] Hv. split.
  - intros j [Hj|Hj%list_elem_of_singleton]%elem_of_app; [by apply V|]. subst j. done.
  - intros j Hj. rewrite lookup_insert. destruct (decide (i = j)) as [<-|Hne].
    + right. split; [by apply Hv|]. apply elem_of_app. right. by apply list_elem_of_singleton.
    + destruct (C j Hj) as [?|[? ?]]; [by left|right]. split; [done|]. apply elem_of_app. by left.
Qed.
Lemma undoable_above m T i v : undoable m T -> ch_h ch <= i -> undoable (<[i := v]> m) T.
Proof.
  intros [V C] Hi. split; [done|]. intros j Hj. rewrite lookup_insert_ne by lia. by apply C.
Qed.
Lemma undoable_watch m T i x : undoable m T -> watch_eq (m !! i) (Some x) -> undoable (<[i := x]> m) T.
Proof.
  intros [V C] Hw. split; [done|]. intros j Hj. rewrite lookup_insert. destruct (decide (i = j)) as [<-|]; [|by apply C].
  destruct (C i Hj) as [E|?]; [left; by rewrite E|by right].
Qed.

Lemma env_safe_push e i : env_safe e -> 0 <= i -> (i < ch_h ch -> was_var i (H0 !! i)) ->
  env_safe (with_trail e (e_trail e ++ [i])).
Proof.
  intros [[L D Te N] S B (T & HT & U)] Hi Hv. split; cbn; [|done|done|].
  - split; cbn; try done. intros j [Hj|Hj%list_elem_of_singleton]%elem_of_app; [by apply N|by subst j].
  - exists (T ++ [i]). rewrite HT, app_assoc. split; [done|]. destruct U as [V C]. split.
    + intros j [Hj|Hj%list_elem_of_singleton]%elem_of_app; [by apply V|by subst j].
    + intros j Hj. destruct (C j Hj) as [?|[? ?]]; [by left|right]. split; [done|]. apply elem_of_app. by left.
Qed.

Lemma env_safe_bind e r t e' :
  env_safe e -> bindable r -> TermEnv.bind e r t = Ok e' -> env_safe e' /\ h_size (e_heap e') = h_size (e_heap e).
Proof.
  intros [[L D Te N] S B (T & HT & U)] [Hr Hv] H. unfold TermEnv.bind in H.
  apply bind_Ok in H as (h & ->%heap_set_cells & H). injection H as <-.
  set (i := ptr_index r) in *.
  set (h := if bool_decide (cell_tag r = RFW) then add_watched (e_heap e) i else e_heap e).
  assert (h_cells h = h_cells (e_heap e) /\ h_size h = h_size (e_heap e) /\ h_blocks h = h_blocks (e_heap e)) as (Eh & Es & Eb).
  { unfold h, add_watched. destruct (bool_decide (cell_tag r = RFW)); [|done]. by destruct (bool_decide _). }
  assert (Hl : heap_inv (with_cells h (<[i := t]> (h_cells h)))) by (unfold heap_inv in *; cbn; by rewrite Es, Eb).
  assert (Hd : forall j, is_Some ((<[i := t]> (h_cells h) : gmap Z Z) !! j) -> 0 <= j).
  { intros j. rewrite lookup_insert, Eh. destruct (decide (i = j)) as [<-|]; [by intros _|apply D]. }
  unfold TermEnv.trail. cbn. destruct (Z.ltb_spec i (e_hb e)) as [Hlt|Hge]; cbn; (split; [|done]); split;
    cbn; rewrite ?Es; try done.
  - split; cbn; try done. intros j [Hj|Hj%list_elem_of_singleton]%elem_of_app; [by apply N|by subst j].
  - exists (T ++ [i]). rewrite HT, app_assoc, Eh. split; [done|]. by apply undoable_bind.
  - exists T. rewrite Eh. split; [done|]. apply undoable_above; [done|lia].
Qed.

Lemma env_safe_unify e x y e' r k :
  env_safe e -> plain_heap (e_heap e) -> unify import_bits fuel e x y = Ok (e', r, k) ->
  env_safe e' /\ h_size (e_heap e') = h_size (e_heap e).
Proof.
  intros [[L D Te N] S B (T & HT & U)] Hp H.
  destruct (unify_frame _ _ _ _ _ _ _ _ Hp Te H) as (T' & [Bi Hs Hbl Htl Tm V Hh] & _).
  split; [|done]. split; rewrite ?Hs, ?Hh; try done.
  - split; [unfold heap_inv; by rewrite Hs, Hbl| |done|].
    + intros i Hi. apply D. by eapply binds_dom.
    + intros i. rewrite Htl. intros [Hi|Hi]%elem_of_app; [by apply N|]. by destruct (V i Hi) as [_ ([? _] & _)].
  - exists (T ++ T'). rewrite Htl, HT, app_assoc. split; [done|]. destruct U as [U1 U2]. split.
    + intros i [Hi|Hi]%elem_of_app Hlt; [by apply U1|]. destruct (V i Hi) as [_ (_ & _ & Hv)].
      by eapply undoable_var.
    + intros i Hi. destruct (Bi i) as [E|(Hv & _ & [Hin|Hge])]; [|right|lia].
      * destruct (U2 i Hi) as [?|[? ?]]; [left; by rewrite <-E|right]. split; [done|]. apply elem_of_app. by left.
      * split; [by eapply undoable_var|]. apply elem_of_app. by right.
Qed.

Lemma env_safe_extend e h : env_safe e -> extended (e_heap e) h ->
  env_safe (with_heap e h) /\ h_size (e_heap e) <= h_size h.
Proof.
  intros [[L D Te N] S B (T & HT & [V C])] [[I Sz Ce] Dm]. split; [|done]. split; cbn; [|lia|done|].
  - split; cbn; try done. intros i Hi. destruct (Dm i Hi) as [?|?]; [by apply D|]. unfold heap_inv in L. lia.
  - exists T. split; [done|]. split; [done|]. intros i Hi. rewrite Ce by lia. by apply C.
Qed.

Lemma env_safe_watch e i v h : env_safe e -> heap_watch (e_heap e) i v = Ok h ->
  env_safe (with_heap e h) /\ h_size h = h_size (e_heap e).
Proof.
  intros [[L D Te N] S B (T & HT & U)] H. destruct (heap_watch_cells _ _ _ _ H) as (x & -> & Hw). split; [|done].
  split; cbn; try done.
  - split; cbn; try done. intros j. rewrite lookup_insert. destruct (decide (i = j)) as [<-|]; [|apply D].
    intros _. apply D. eapply watch_eq_some; [done|by eexists].
  - exists T. split; [done|]. by apply undoable_watch.
Qed.

(** *** The same for the machine *)

Lemma protected_set_env w e :
  protected w -> env_safe e -> heap_limiter (w_top w) <= h_size (e_heap e) -> protected (set_env w e).
Proof. intros [E L P F] He Hl. by split. Qed.

Lemma intact_set_env w e : intact w -> intact (set_env w e).
Proof. intros [B F]. by split. Qed.

Lemma protected_extend w h : protected w -> extended (w_heap w) h -> protected (set_heap w h).
Proof.
  intros P X. destruct (env_safe_extend (w_env w) h (pr_env _ P) X) as [He Hs].
  apply protected_set_env; [done|done|]. pose proof (pr_limit _ P). unfold w_heap in *. cbn. lia.
Qed.

Lemma new_ref_protected w w' t : Wam.new_ref w = Ok (w', t) -> protected w -> protected w'.
Proof.
  unfold Wam.new_ref. intros ([h x] & Hn & H)%bind_Ok P. injection H as <- <-. apply protected_extend; [done|].
  eapply new_ref_extended; [apply (pr_env _ P)|done].
Qed.
Lemma new_refs_protected n w w' : new_refs w n = Ok w' -> protected w -> protected w'.
Proof.
  revert w. induction n as [|n IH]; intros w H P; cbn [new_refs] in H; [by injection H as <-|].
  apply bind_Ok in H as ([w1 t] & H1 & H). eapply IH; [done|]. by eapply new_ref_protected.
Qed.
Lemma new_con_protected w f w' t : new_term_con w f = Ok (w', t) -> protected w -> protected w'.
Proof.
  unfold new_term_con. intros ([h x] & Hn & H)%bind_Ok P. injection H as <- <-. apply protected_extend; [done|].
  eapply new_con0_extended; [apply (pr_env _ P)|done].
Qed.
Lemma new_str_protected w f w' t : new_term_str w f = Ok (w', t) -> protected w -> protected w'.
Proof.
  unfold new_term_str. intros ([h x] & Hn & H)%bind_Ok P. injection H as <- <-. apply protected_extend; [done|].
  eapply new_str0_extended; [apply (pr_env _ P)|done].
Qed.
Lemma copy_cell_protected w t w' : new_term_copy_cell w t = Ok w' -> protected w -> protected w'.
Proof.
  unfold new_term_copy_cell. intros ([h x] & Hn & H)%bind_Ok P. injection H as <-. apply protected_extend; [done|].
  eapply new_cell0_extended; [apply (pr_env _ P)|done].
Qed.

Lemma put_word_protected w a t : protected w -> protected (put_word w a t).
Proof.
  intros [E L P F]. split; cbn; [done|done|done|]. intros x f Hf. apply F.
  by apply map_lookup_filter_Some in Hf as [? _].
Qed.
Lemma set_y_protected w i t : protected w -> protected (set_y w i t).
Proof. apply put_word_protected. Qed.

Lemma bind_protected w r t w' : protected w -> bindable r -> Wam.bind w r t = Ok w' -> protected w'.
Proof.
  intros P Hr H. unfold Wam.bind in H. destruct (is_stack (ptr_index r)) eqn:Es.
  - injection H as <-. pose proof (put_word_protected w (ptr_index r) t P) as P'. unfold Wam.trail.
    destruct (_ || _); [|done]. unfold push_trail. apply protected_set_env; [done| |apply P'].
    apply env_safe_push; [apply P'|apply Hr|apply Hr].
  - apply bind_Ok in H as (e & He & H). injection H as <-.
    destruct (env_safe_bind (w_env w) r t e (pr_env _ P) Hr He) as [? Hs].
    apply protected_set_env; [done|done|]. rewrite Hs. apply P.
Qed.

Lemma base_unify_protected w x y w' ok :
  protected w -> small w -> base_unify import_bits fuel w x y = Ok (w', ok) -> protected w'.
Proof.
  intros P Sm H. unfold base_unify in H.
  apply bind_Ok in H as ([[e r] k] & Hu & (w1 & H1%add_cost_same & H)%bind_Ok). injection H as <- <-.
  apply (same_protected _ _ H1).
  destruct (env_safe_unify _ _ _ _ _ _ (pr_env _ P) (small_plain w (es_ok _ (pr_env _ P)) Sm) Hu) as [? Hs].
  apply protected_set_env; [done|done|]. rewrite Hs. apply P.
Qed.

(** [equal] only uses the stack of the environment. *)
Record same_env (e e' : term_env) : Prop := SameEnv {
  se_heap : e_heap e' = e_heap e;
  se_trail : e_trail e' = e_trail e;
  se_temp : e_temp_trail e' = e_temp_trail e;
  se_hb : e_hb e' = e_hb e
}.

Lemma same_env_trans e1 e2 e3 : same_env e1 e2 -> same_env e2 e3 -> same_env e1 e3.
Proof. intros [? ? ? ?] [? ? ? ?]. split; congruence. Qed.
Lemma same_env_stack e s : same_env e (with_stack e s).
Proof. by split. Qed.

Lemma push_args_same n e x y e' : push_args n e x y = Ok e' -> same_env e e'.
Proof.
  revert e. induction n as [|n IH]; intros e H; cbn [push_args] in H; [by injection H as <-|].
  apply bind_Ok in H as (u & _ & (v & _ & H)%bind_Ok). eapply same_env_trans; [|by eapply IH].
  eapply same_env_trans; apply same_env_stack.
Qed.

Lemma pop_same e t e' : pop e = Ok (t, e') -> same_env e e'.
Proof. unfold pop. destruct (e_stack e); [done|]. intros H. injection H as <- <-. apply same_env_stack. Qed.

Lemma equal_step_same e k e' k' r : equal_step e k = Ok (e', k', r) -> same_env e e'.
Proof.
  unfold equal_step.
  intros ([x e1] & H1%pop_same & ([x' c1] & _ & ([y e2] & H2%pop_same & ([y' c2] & _ & H)%bind_Ok)%bind_Ok)%bind_Ok)%bind_Ok.
  eapply same_env_trans; [exact H1|]. eapply same_env_trans; [exact H2|].
  destruct (_ =? _); [injection H as <- _ _; by split|].
  destruct (negb _); [injection H as <- _ _; by split|].
  destruct (bool_decide _); [apply bind_Ok in H as ([q k2] & _ & H); injection H as <- _ _; by split|].
  destruct (negb _); [injection H as <- _ _; by split|].
  apply bind_Ok in H as (f & _ & (g & _ & H)%bind_Ok). destruct (negb _); [injection H as <- _ _; by split|].
  apply bind_Ok in H as (e3 & H3%push_args_same & H). by injection H as <- _ _.
Qed.

Lemma equal_loop_same n d e k e' r k' : equal_loop n d e k = Ok (e', r, k') -> same_env e e'.
Proof.
  revert e k. induction n as [|n IH]; intros e k H; cbn [equal_loop] in H; destruct (d <? stack_size e)%nat;
    try done; try (injection H as <- _ _; by split).
  apply bind_Ok in H as ([[e1 k1] ok] & H1%equal_step_same & H). eapply same_env_trans; [exact H1|].
  destruct ok; [by eapply IH|]. injection H as <- _ _. apply same_env_stack.
Qed.

Lemma env_safe_same e e' : same_env e e' -> env_safe e -> env_safe e'.
Proof. intros [E1 E2 E3 E4] [[L D Te N] S B T]. split; rewrite ?E1, ?E2, ?E4; try done. split; rewrite ?E1, ?E2, ?E3; done. Qed.

Lemma base_equal_protected w x y w' ok : protected w -> base_equal fuel w x y = Ok (w', ok) -> protected w'.
Proof.
  intros P H. unfold base_equal, equal in H.
  apply bind_Ok in H as ([[e r] k] & He%equal_loop_same & (w1 & H1%add_cost_same & H)%bind_Ok). injection H as <- <-.
  apply (same_protected _ _ H1). apply protected_set_env; [done| |].
  - eapply env_safe_same; [exact He|]. eapply env_safe_same; [|apply P]. by split.
  - destruct He as [E _ _ _]. rewrite E. apply P.
Qed.

(** *** Allocation on the stack *)

Lemma size_pos f : 0 < frame_size f.
Proof. destruct f as [[? ? ? []]|]; cbn; unfold choice_size; lia. Qed.

(** The new frame lies above the choice point and above the current environment. *)
Lemma allocate_stack_above w n a :
  live w -> (forall k, n = Ok k -> 0 <= k) -> allocate_stack w n = Ok a ->
  b + choice_size ch <= a /\ w_e w < a /\ w_b w < a.
Proof.
  intros [[E L P F] [B [bp Hbp]]] Hn H. unfold allocate_stack in H. apply bind_Ok in H as (a' & Ha & (u & _ & H)%bind_Ok).
  injection H as <-. assert (Hc : 0 < choice_size ch) by (unfold choice_size; lia).
  destruct (Z.ltb_spec (w_b w) (w_e w)) as [Hlt|Hge].
  - apply bind_Ok in Ha as (k & Hk & Ha). injection Ha as <-. specialize (Hn k Hk).
    destruct P as [?|?]; [lia|]. lia.
  - pose proof (sv_pos SV). destruct (Z.eqb_spec (w_b w) 0) as [E0|Hne]; [lia|]. unfold get_choice in Ha.
    destruct (w_frames w !! w_b w) as [[f|d]|] eqn:Hd; try done. cbn in Ha. injection Ha as <-.
    assert (0 < choice_size d) by (unfold choice_size; lia).
    destruct (decide (w_b w = b)) as [Eb|Hneb].
    + rewrite Eb, Hbp in Hd. injection Hd as <-. unfold choice_size in *. cbn in *. lia.
    + destruct (F _ _ Hd) as (_ & _ & Hk). destruct Hk as [Hk _]; [lia|]. lia.
Qed.

Lemma put_frame_live w a f :
  live w -> b + choice_size ch <= a -> frame_top f < a -> frame_ce f = w_e w ->
  (forall d, f = FChoice d -> ch_h ch <= ch_h d /\ (ch_tr ch <= ch_tr d)%nat) -> live (put_frame w a f).
Proof.
  intros [[E L P F] [B [bp Hbp]]] Ha He Hce Hd. assert (Hc : 0 < choice_size ch) by (unfold choice_size; lia).
  split; [split|split]; cbn; try done.
  - intros x g. rewrite lookup_insert. destruct (decide (a = x)) as [<-|Hne].
    + intros [= <-]. rewrite Hce. split_and!; [done..|]. intros _. split; [done|done].
    + intros [Hg _]%map_lookup_filter_Some. by apply F.
  - exists bp. rewrite lookup_insert_ne by lia. apply map_lookup_filter_Some. split; [done|]. cbn.
    unfold choice_size in *. cbn. done.
Qed.

Lemma set_e_protected w e k : protected w -> away e -> protected (set_e w e k).
Proof. intros [E L P F] H. by split. Qed.
Lemma set_e_live w e k : live w -> away e -> live (set_e w e k).
Proof. intros [P I] H. split; [by apply set_e_protected|]. destruct I. by split. Qed.

Lemma allocate_env_live w n a f k :
  live w -> (forall k, n = Ok k -> 0 <= k) -> allocate_stack w n = Ok a -> env_ce f = w_e w ->
  live (set_e (put_frame w a (FEnv f)) a k).
Proof.
  intros Lw Hn Ha Hf. destruct (allocate_stack_above w n a Lw Hn Ha) as (H1 & H2 & _).
  apply set_e_live; [|right; done]. apply put_frame_live; try done. cbn. by rewrite Hf.
Qed.

Lemma allocate_naive_live w n w' : (forall k, n = Ok k -> 0 <= k) -> allocate_naive w n = Ok w' -> live w -> live w'.
Proof.
  intros Hn H Lw. unfold allocate_naive in H. apply bind_Ok in H as (a & Ha & H). injection H as <-.
  by eapply allocate_env_live.
Qed.
Lemma allocate_wam_live w n w' : (forall k, n = Ok k -> 0 <= k) -> allocate_wam w n = Ok w' -> live w -> live w'.
Proof.
  intros Hn H Lw. unfold allocate_wam in H. apply bind_Ok in H as (a & Ha & H). injection H as <-.
  by eapply allocate_env_live.
Qed.

Lemma allocate_choices_live w n L choices w' :
  (forall k, n = Ok k -> 0 <= k) -> allocate_choices w n L choices = Ok w' -> live w -> live w' /\ b < w_b w'.
Proof.
  intros Hn H Lw. unfold allocate_choices in H. apply bind_Ok in H as (a & Ha & (args & _ & H)%bind_Ok).
  injection H as <-. destruct (allocate_stack_above w n a Lw Hn Ha) as (H1 & H2 & H3).
  match goal with |- context [put_frame w a ?f] => assert (Lp : live (put_frame w a f)) end.
  { apply put_frame_live; try done; [cbn; lia|]. intros d [= <-]. cbn. pose proof (lv_protected _ Lw) as [[_ S _ (T & HT & _)] _ _ _].
    split; [done|]. unfold trail_size. rewrite HT, (sv_tr SV), length_app. lia. }
  pose proof (in_b _ _ _ (lv_intact _ Lw)). split; [|cbn; lia]. destruct Lp as [[E L0 P F] [B I]]. split.
  - split; cbn in *; try done. destruct E as [[Ly D Te N] S Bh T]. by split.
  - split; cbn in *; [|done]. lia.
Qed.
Lemma allocate_choice_live w n L w' :
  (forall k, n = Ok k -> 0 <= k) -> allocate_choice_point w n L = Ok w' -> live w -> live w'.
Proof. intros Hn H Lw. by destruct (allocate_choices_live w n L [] w' Hn H Lw). Qed.

Lemma num_y_nonneg w u k : num_y c w u = Ok k -> 0 <= k.
Proof.
  unfold num_y. destruct (negb u && _).
  - intros (o & _ & (qn & _ & H)%bind_Ok)%bind_Ok. injection H as <-. lia.
  - destruct (negb _).
    + unfold base_num_y. destruct (w_e_kind w); [intros H; injection H as <-; lia..|].
      intros (f & _ & H)%bind_Ok. destruct (env_more f); try done. injection H as <-. lia.
    + intros (o & _ & H)%bind_Ok. unfold num_y_at_call in H. apply bind_Ok in H as (i & _ & H).
      destruct i; try done; injection H as <-; lia.
Qed.

Lemma allocate_frozen_live w w' : allocate_frozen c w = Ok w' -> live w -> live w'.
Proof.
  unfold allocate_frozen. intros (a & Ha & (ex & _ & H)%bind_Ok)%bind_Ok Lw. injection H as <-.
  eapply same_live; [|eapply (allocate_env_live w _ a); [done|apply num_y_nonneg|exact Ha|]]; [by split|done].
Qed.

End protected.
