(* ===== verification/WamUndo.v ===== *)
(** * Frozen goals, cuts and backtracking preserve the invariant

    The operations of the machine that move environments and choice points, against the
    invariant of [WamSafe]. *)

From S2P Require Import Prelude Cells Heap HeapGrow Bigs TermEnv HeapSpec Unify UnifyFrame Machine Wam WamSafe.

Section undo.
Context (c : code) (SV : saved).

Abbreviation b := (sv_b SV).
Abbreviation ch := (sv_choice SV).
Abbreviation H0 := (sv_cells SV).
Abbreviation T0 := (sv_entries SV).
Abbreviation protected := (protected SV).
Abbreviation live := (live SV).
Abbreviation intact := (intact b ch).

(** ** Frozen goals *)

(** The heap keeps its size. *)
Definition same_size (w w' : wam) : Prop := h_size (w_heap w') = h_size (w_heap w).

Lemma same_core_size w w' : same_core w w' -> same_size w w'.
Proof. intros [E _ _ _ _]. unfold same_size, w_heap. by rewrite E. Qed.
Lemma same_size_trans w1 w2 w3 : same_size w1 w2 -> same_size w2 w3 -> same_size w1 w3.
Proof. unfold same_size. congruence. Qed.

Lemma live_refl w : live w -> live w /\ same_size w w.
Proof. by split. Qed.
#[local] Hint Resolve live_refl : core.

Lemma set_env_live w e : live w -> env_safe SV e -> h_size (e_heap e) = h_size (w_heap w) ->
  live (set_env w e) /\ same_size w (set_env w e).
Proof.
  intros [P I] He Hs. split; [|done]. split; [|by apply intact_set_env].
  apply protected_set_env; [done|done|]. rewrite Hs. apply P.
Qed.

Lemma watch_live w i v h : live w -> heap_watch (w_heap w) i v = Ok h ->
  live (set_heap w h) /\ same_size w (set_heap w h).
Proof.
  intros Lw H. destruct (env_safe_watch SV (w_env w) i v h (pr_env _ _ (lv_protected _ _ Lw)) H) as [He Hs].
  by apply set_env_live.
Qed.

Lemma clear_closure_live w i w' : clear_frozen_closure w i = Ok w' -> live w -> live w' /\ same_size w w'.
Proof.
  unfold clear_frozen_closure. intros (h & Hh & H)%bind_Ok Lw. injection H as <-.
  destruct (watch_live w i false h Lw Hh) as [L1 S1]. split; [|done]. eapply same_live; [|exact L1]. by split.
Qed.

Lemma clear_closures_live l w w' : clear_frozen_closures w l = Ok w' -> live w -> live w' /\ same_size w w'.
Proof.
  revert w. induction l as [|i l IH]; intros w H Lw; cbn [clear_frozen_closures] in H; [injection H as <-; auto|].
  apply bind_Ok in H as (w1 & H1 & H). destruct (clear_closure_live w i w1 H1 Lw) as [L1 S1].
  destruct (IH w1 H L1) as [L2 S2]. split; [done|]. by eapply same_size_trans.
Qed.

Lemma unwind_closures_live l w w' : unwind_frozen_closures w l = Ok w' -> live w -> live w' /\ same_size w w'.
Proof.
  revert w. induction l as [|i l IH]; intros w H Lw; cbn [unwind_frozen_closures] in H; [injection H as <-; auto|].
  apply bind_Ok in H as (x & _ & (w1 & H1 & H)%bind_Ok).
  assert (live w1 /\ same_size w w1) as [L1 S1].
  { destruct x; [by eapply clear_closure_live|]. injection H1 as <-; auto. }
  destruct (IH w1 H L1) as [L2 S2]. split; [done|]. by eapply same_size_trans.
Qed.

Lemma set_closure_live w i cl w' :
  set_frozen_closure w i cl = Ok w' -> live w -> 0 <= i -> (i < ch_h ch -> was_var i (H0 !! i)) ->
  live w' /\ same_size w w'.
Proof.
  unfold set_frozen_closure. intros (h & Hh & H)%bind_Ok Lw Hi Hv.
  destruct (env_safe_watch SV (w_env w) i true h (pr_env _ _ (lv_protected _ _ Lw)) Hh) as [He Hs].
  assert (He' : env_safe SV (TermEnv.trail (with_heap (w_env w) h) i)).
  { unfold TermEnv.trail. destruct (_ <? _); [|done]. by apply env_safe_push. }
  destruct (set_env_live w _ Lw He') as [L1 S1].
  { unfold TermEnv.trail. by destruct (_ <? _). }
  cbn [w_closures set_env] in H. destruct (w_closures w !! i); injection H as <-; [done|]. split; [|done]. eapply same_live; [|exact L1]. by split.
Qed.

Lemma restore_state_same w ex w' : restore_state w ex = Ok w' -> same_core w w'.
Proof.
  unfold restore_state. destruct ex as [|nx rest]; [intros H; by injection H as <-|].
  destruct (drop _ rest) as [|na args]; [done|]. intros (u & _ & (w1 & H1%set_xs_same & (w2 & H2%set_args_same & H)%bind_Ok)%bind_Ok)%bind_Ok.
  injection H as <-. etransitivity; [done|]. etransitivity; [done|]. by split.
Qed.

Lemma deallocate_env_live w w' : deallocate_environment w = Ok w' -> live w -> live w' /\ same_size w w'.
Proof.
  unfold deallocate_environment. intros (f & Hf & H)%bind_Ok Lw.
  assert (Ha : away SV (env_ce f)).
  { unfold get_env in Hf. destruct (w_frames w !! w_e w) as [[g|]|] eqn:E; try done. injection Hf as ->.
    by apply (pr_frames _ _ (lv_protected _ _ Lw) (w_e w) (FEnv f)). }
  assert (Hk : forall w1, same_core w w1 -> live (set_e (set_cp w1 (env_cp f)) (env_ce f) (env_ce_kind f)) /\
    same_size w (set_e (set_cp w1 (env_cp f)) (env_ce f) (env_ce_kind f))).
  { intros w1 S1. split; [|by apply (same_core_size w w1)]. apply set_e_live; [|done].
    eapply same_live; [|exact Lw]. etransitivity; [exact S1|]. by split. }
  assert (Hd : forall w1 w2, live w1 /\ same_size w w1 -> same_core w1 w2 -> live w2 /\ same_size w w2).
  { intros w1 w2 [L1 S1] Hs. split; [by eapply same_live|]. eapply same_size_trans; [exact S1|by apply same_core_size]. }
  destruct (w_e_kind w), (env_more f); try done.
  - injection H as <-. eapply Hd; [apply (Hk w); reflexivity|by split].
  - injection H as <-. eapply Hd; [apply (Hk w); reflexivity|by split].
  - injection H as <-. apply (Hk w). reflexivity.
  - injection H as <-. apply (Hk w). reflexivity.
  - injection H as <-. apply (Hk w). reflexivity.
  - apply bind_Ok in H as (w1 & H1%restore_state_same & H). injection H as <-.
    eapply Hd; [apply (Hk w1); exact H1|by split].
Qed.

(** What [check_frozen] does to the size needs no invariant. *)
Lemma watch_size h i v h' : heap_watch h i v = Ok h' -> h_size h' = h_size h.
Proof. intros H. by destruct (heap_watch_cells _ _ _ _ H) as (x & -> & _). Qed.

Lemma check_watched_live w i w' :
  check_watched c w i = Ok w' -> live w -> small w -> live w' /\ same_size w w'.
Proof.
  unfold check_watched. intros (h & Hh & H)%bind_Ok Lw Sm. destruct (is_ref (cell_tag h)) eqn:Hr; cbn [negb] in H.
  - apply bind_Ok in H as ([w1 h2] & H1 & H). pose proof (base_deref_same _ _ _ _ H1) as S1.
    pose proof (same_live SV _ _ S1 Lw) as L1. pose proof (same_core_size _ _ S1) as Z1.
    destruct (is_ref (cell_tag h2)) eqn:Hr2; cbn [negb orb] in H; [|injection H as <-; done].
    destruct (ptr_index h2 =? i); [injection H as <-; auto|].
    apply bind_Ok in H as (w2 & H2 & (w3 & H3 & (g & H4 & H)%bind_Ok)%bind_Ok). injection H as <-.
    assert (Hbd : bindable SV h2).
    { unfold base_deref in H1. apply bind_Ok in H1 as ([d k] & Hd & (w4 & _ & H1)%bind_Ok). injection H1 as <- <-.
      apply (get_bindable SV w); [apply Lw|done| |done]. by eapply deref_end. }
    destruct (set_closure_live w1 (ptr_index h2) _ w2 H2 L1 (proj1 Hbd) (proj2 Hbd)) as [L2 Z2].
    destruct (clear_closure_live w2 i w3 H3 L2) as [L3 Z3]. destruct (watch_live w3 i false g L3 H4) as [L4 Z4].
    split; [done|]. repeat (eapply same_size_trans; [eassumption|]). done.
  - apply bind_Ok in H as (w1 & H1 & (w2 & H2 & (g & H3 & H)%bind_Ok)%bind_Ok). injection H as <-.
    destruct (clear_closure_live w i w1 H1 Lw) as [L1 Z1].
    assert (live w2 /\ same_size w1 w2) as [L2 Z2].
    { destruct (_ =? EMPTY_LIST); [injection H2 as <-; auto|].
      apply bind_Ok in H2 as (w3 & H4 & (m & _ & (nm & _ & (fm & _ & (fn & _ & (w4 & H5 & (w5 & H6 & H2)%bind_Ok)%bind_Ok)%bind_Ok)%bind_Ok)%bind_Ok)%bind_Ok).
      injection H2 as <-. pose proof (allocate_frozen_live c SV _ _ H4 L1) as L3.
      assert (S4 : same_core w3 w4).
      { destruct (fm && fn); [|by injection H5 as <-]. apply bind_Ok in H5 as (q & _ & (q' & _ & H5)%bind_Ok).
        injection H5 as <-. by split. }
      pose proof (same_live SV _ _ S4 L3) as L4.
      pose proof (allocate_naive_live SV _ _ _ (num_y_nonneg c w4 true) H6 L4) as L5.
      split; [eapply same_live; [|exact L5]; by split|].
      unfold allocate_frozen in H4. apply bind_Ok in H4 as (a & _ & (ex & _ & H4)%bind_Ok). injection H4 as <-.
      unfold allocate_naive in H6. apply bind_Ok in H6 as (a2 & _ & H6). injection H6 as <-.
      apply (same_core_size _ _ S4). }
    destruct (watch_live w2 i false g L2 H3) as [L3 Z3].
    split; [done|]. repeat (eapply same_size_trans; [eassumption|]). done.
Qed.

Lemma check_watched_all_live l w w' :
  check_watched_all c w l = Ok w' -> live w -> small w -> live w' /\ same_size w w'.
Proof.
  revert w. induction l as [|i l IH]; intros w H Lw Sm; cbn [check_watched_all] in H; [injection H as <-; auto|].
  apply bind_Ok in H as (w1 & H1 & H). destruct (check_watched_live w i w1 H1 Lw Sm) as [L1 Z1].
  destruct (IH w1 H L1) as [L2 Z2]; [unfold small; by rewrite Z1|]. split; [done|]. by eapply same_size_trans.
Qed.

Lemma with_watched_live w l : live w -> live (set_heap w (with_watched (w_heap w) l)).
Proof.
  intros Lw. apply set_env_live; [done| |done]. destruct (pr_env _ _ (lv_protected _ _ Lw)) as [[L D Te N] S B T].
  by split; [split|..].
Qed.

Lemma check_frozen_live w w' : check_frozen c w = Ok w' -> live w -> small w -> live w'.
Proof.
  unfold check_frozen. destruct (critical_section _); [intros H; by injection H as <-|].
  destruct (h_watched (w_heap w)) as [|i l]; [intros H; by injection H as <-|].
  intros (w1 & H1 & H)%bind_Ok Lw Sm. injection H as <-. apply with_watched_live.
  by destruct (check_watched_all_live _ _ _ H1 Lw Sm).
Qed.

(** ** Cutting *)

(** The saved heap and trail of the choice points above the protected one. *)
Lemma choice_heights w a d :
  protected w -> intact w -> b <= a -> get_choice w a = Ok d ->
  ch_h ch <= ch_h d /\ (ch_tr ch <= ch_tr d)%nat /\ away SV (ch_ce d).
Proof.
  intros P [_ [bp Hbp]] Ha Hd. unfold get_choice in Hd.
  destruct (w_frames w !! a) as [[f|d']|] eqn:E; try done. injection Hd as ->.
  destruct (pr_frames _ _ P a _ E) as (_ & Hw & Hk). destruct (decide (a = b)) as [->|Hne].
  - rewrite Hbp in E. injection E as <-. cbn. split_and!; [lia|lia|done].
  - destruct Hk as [_ Hk]; [lia|]. destruct (Hk d eq_refl). done.
Qed.

Lemma set_hb_protected w hb : protected w -> ch_h ch <= hb -> protected (set_hb w hb).
Proof.
  intros P Hh. destruct (pr_env _ _ P) as [[L D Te N] S B T]. apply protected_set_env; [done| |apply P].
  by split; [split|..].
Qed.

Lemma set_hb_of_protected w a w' :
  protected w -> intact w -> b <= a -> set_hb_of w a = Ok w' -> protected w' /\ intact w' /\ w_b w' = w_b w.
Proof.
  intros P I Ha H. unfold set_hb_of in H. pose proof (sv_pos SV). destruct (Z.eqb_spec a 0); [lia|].
  apply bind_Ok in H as (d & Hd & H). injection H as <-.
  destruct (choice_heights w a d P I Ha Hd) as (Hh & _). split; [by apply set_hb_protected|].
  split; [by apply intact_set_env|done].
Qed.

(** Dropping entries of the trail that are not below [hb]. *)
Lemma tidied_from w keep i l :
  protected w -> (forall x, x < e_hb (w_env w) -> keep x = true) -> (length T0 <= i)%nat ->
  tidy_trail_loop (Datatypes.S (trail_size (w_env w) - i)) keep (e_trail (w_env w)) i (trail_size (w_env w)) = Ok l ->
  protected (set_env w (with_trail (w_env w) l)).
Proof.
  intros P Hkeep Hlow Hl.
  destruct (pr_env _ _ P) as [[L D Te N] S B (T & HT & [Uv Uc])].
  unfold trail_size in Hl.
  destruct (decide (i <= length (e_trail (w_env w)))%nat) as [Hle|Hgt].
  2:{ cbn [tidy_trail_loop] in Hl. rewrite (proj2 (Nat.ltb_ge _ _)) in Hl by lia. injection Hl as <-.
      rewrite firstn_all. apply protected_set_env; [done| |apply P].
      split; cbn; [by split|done|done|]. exists T. by split. }
  destruct (tidy_loop_keep keep (Datatypes.S (length (e_trail (w_env w)) - i)) (e_trail (w_env w)) i
    (length (e_trail (w_env w)))) as (T' & HT' & Hp); [lia..|].
  rewrite HT' in Hl. injection Hl as <-.
  rewrite (take_ge (drop i (e_trail (w_env w)))) in Hp by (rewrite length_drop; lia).
  assert (Hin : forall x, x ∈ T' <-> keep x = true /\ x ∈ drop i (e_trail (w_env w))).
  { intros x. by rewrite Hp, list_elem_of_filter. }
  rewrite HT in Hin. rewrite drop_app_ge in Hin by done.
  assert (Htk : take i (e_trail (w_env w)) = T0 ++ take (i - length T0) T).
  { rewrite HT, take_app, take_ge by done. done. }
  apply protected_set_env; [done| |apply P]. split; cbn; [split; cbn; try done|done|done|].
  - intros x [Hx|Hx]%elem_of_app.
    + apply N. rewrite HT, elem_of_app. rewrite Htk, elem_of_app in Hx. destruct Hx as [?|Hx]; [by left|right].
      by eapply elem_of_take_in.
    + apply N. rewrite HT, elem_of_app. right. apply Hin in Hx as [_ Hx].
      by eapply elem_of_drop_in.
  - exists (take (i - length T0) T ++ T'). rewrite Htk, <-app_assoc. split; [done|].
    assert (Hsub : forall x, x ∈ take (i - length T0) T ++ T' -> x ∈ T).
    { intros x [Hx|[_ Hx]%Hin]%elem_of_app.
      - by eapply elem_of_take_in.
      - by eapply elem_of_drop_in. }
    split; [intros x Hx; apply Uv; by apply Hsub|].
    intros x Hx. destruct (Uc x Hx) as [?|[Hv HxT]]; [by left|right]. split; [done|].
    rewrite <-(take_drop (i - length T0) T) in HxT. apply elem_of_app in HxT as [?|Hd]; apply elem_of_app; [by left|right].
    apply Hin. split; [|done]. apply Hkeep. lia.
Qed.

Lemma tidied_protected w keep i l :
  protected w -> intact w -> (forall x, x < e_hb (w_env w) -> keep x = true) -> tidy_from w = Ok i ->
  tidy_trail_loop (Datatypes.S (trail_size (w_env w) - i)) keep (e_trail (w_env w)) i (trail_size (w_env w)) = Ok l ->
  protected (set_env w (with_trail (w_env w) l)).
Proof.
  intros P I Hkeep Hi. apply tidied_from; [done|done|].
  unfold tidy_from in Hi. pose proof (sv_pos SV). pose proof (in_b _ _ _ I).
  destruct (Z.eqb_spec (w_b w) 0); [lia|]. apply bind_Ok in Hi as (d & Hd & Hi). injection Hi as <-.
  rewrite <-(sv_tr SV). by apply (choice_heights w (w_b w) d P I).
Qed.

Lemma tidy_trail_protected w w' : protected w -> intact w -> tidy_trail w = Ok w' -> protected w' /\ intact w'.
Proof.
  intros P I H. unfold tidy_trail in H. apply bind_Ok in H as (i & Hi & (l & Hl & H)%bind_Ok). injection H as <-.
  split; [|by apply intact_set_env]. eapply tidied_protected; [done|done| |exact Hi|exact Hl].
  intros x Hx. unfold keep_entry. apply orb_true_iff. left. by apply Z.ltb_lt.
Qed.

Lemma base_tidy_protected w w' : protected w -> intact w -> base_tidy_trail w = Ok w' -> protected w' /\ intact w'.
Proof.
  intros P I H. unfold base_tidy_trail in H. apply bind_Ok in H as (i & Hi & (e & He & H)%bind_Ok). injection H as <-.
  unfold TermEnv.tidy_trail in He. apply bind_Ok in He as (l & Hl & He). injection He as <-.
  split; [|by apply intact_set_env]. eapply tidied_protected; [done|done| |exact Hi|exact Hl].
  intros x Hx. by apply Z.ltb_lt.
Qed.

(** Cutting to a choice point that is not below the protected one. *)
Lemma cut_to_protected w n w1 w2 :
  live w -> b <= n -> set_hb_of (set_b w n) n = Ok w1 -> tidy_trail w1 = Ok w2 -> protected w2 /\ intact w2.
Proof.
  intros [P [Hb F]] Hn H1 H2.
  assert (P0 : protected (set_b w n)) by (destruct P; by split).
  assert (I0 : intact (set_b w n)) by by split.
  destruct (set_hb_of_protected _ _ _ P0 I0 Hn H1) as (P1 & I1 & _). by eapply tidy_trail_protected.
Qed.

(** ** Undoing *)

(** The registers a choice point saves, and the frames: some may be gone. *)
Record same_regs (w w' : wam) : Prop := SameRegs {
  sr_a : w_a w' = w_a w;
  sr_e : w_e w' = w_e w;
  sr_e_kind : w_e_kind w' = w_e_kind w;
  sr_cp : w_cp w' = w_cp w;
  sr_p : w_p w' = w_p w;
  sr_b : w_b w' = w_b w;
  sr_b0 : w_b0 w' = w_b0 w;
  sr_top : w_top w' = w_top w;
  sr_frames : forall a f, w_frames w' !! a = Some f -> w_frames w !! a = Some f
}.
#[local] Instance same_regs_preorder : PreOrder same_regs.
Proof.
  split; [by split|]. intros w1 w2 w3 [? ? ? ? ? ? ? ? F1] [? ? ? ? ? ? ? ? F2].
  split; [congruence..|]. intros a f Hf. auto.
Qed.

(** Clearing closures changes watch bits only. *)
Lemma clear_closure_protected w i w' : clear_frozen_closure w i = Ok w' -> protected w ->
  protected w' /\ same_regs w w' /\ same_size w w' /\ e_trail (w_env w') = e_trail (w_env w).
Proof.
  unfold clear_frozen_closure. intros (h & Hh & H)%bind_Ok P. injection H as <-.
  destruct (env_safe_watch SV (w_env w) i false h (pr_env _ _ P) Hh) as [He Hs].
  split; [|by split_and!]. apply (same_protected SV (set_heap w h)); [by split|].
  apply protected_set_env; [done|done|]. cbn. rewrite Hs. apply P.
Qed.

Lemma clear_closures_protected l w w' : clear_frozen_closures w l = Ok w' -> protected w ->
  protected w' /\ same_regs w w' /\ same_size w w' /\ e_trail (w_env w') = e_trail (w_env w).
Proof.
  revert w. induction l as [|i l IH]; intros w H P; cbn [clear_frozen_closures] in H.
  { injection H as <-. by split_and!. }
  apply bind_Ok in H as (w1 & H1 & H). destruct (clear_closure_protected w i w1 H1 P) as (P1 & R1 & S1 & E1).
  destruct (IH w1 H P1) as (P2 & R2 & S2 & E2).
  split_and!; [done|by etransitivity|by eapply same_size_trans|congruence].
Qed.

Lemma unwind_closures_protected l w w' : unwind_frozen_closures w l = Ok w' -> protected w ->
  protected w' /\ same_regs w w' /\ same_size w w' /\ e_trail (w_env w') = e_trail (w_env w).
Proof.
  revert w. induction l as [|i l IH]; intros w H P; cbn [unwind_frozen_closures] in H.
  { injection H as <-. by split_and!. }
  apply bind_Ok in H as (x & _ & (w1 & H1 & H)%bind_Ok).
  assert (protected w1 /\ same_regs w w1 /\ same_size w w1 /\ e_trail (w_env w1) = e_trail (w_env w)) as (P1 & R1 & S1 & E1).
  { destruct x; [by eapply clear_closure_protected|]. injection H1 as <-. by split_and!. }
  destruct (IH w1 H P1) as (P2 & R2 & S2 & E2).
  split_and!; [done|by etransitivity|by eapply same_size_trans|congruence].
Qed.

(** Entries of the trail are reset, in the heap and in the stack. *)
Lemma unwind_entries_effect l w w' : unwind_entries w l = Ok w' ->
  same_regs w w' /\ exists h, w_env w' = with_heap (w_env w) h /\
    h_size h = h_size (w_heap w) /\ h_blocks h = h_blocks (w_heap w) /\
    forall i, h_cells h !! i =
      if decide (i ∈ l /\ is_stack i = false) then Some (ref_cell i) else h_cells (w_heap w) !! i.
Proof.
  revert w. induction l as [|k l IH]; intros w H; cbn [unwind_entries] in H.
  { injection H as <-. split; [reflexivity|]. exists (w_heap w). split_and!; [by destruct w as [[]]|done..|].
    intros i. rewrite decide_False; [done|]. by intros [?%elem_of_nil _]. }
  apply bind_Ok in H as (w1 & H1 & H). destruct (IH w1 H) as (R & h & He & Hs & Hbl & Hc).
  assert (Hl : forall i, i ∈ k :: l /\ is_stack i = false <-> (i = k /\ is_stack k = false) \/ (i ∈ l /\ is_stack i = false)).
  { intros i. rewrite elem_of_cons. naive_solver. }
  destruct (is_stack k) eqn:Hk.
  - injection H1 as <-. split.
    { etransitivity; [|exact R]. split; try done. intros a f Hf. by apply map_lookup_filter_Some in Hf as [? _]. }
    exists h. split_and!; [exact He|exact Hs|exact Hbl|]. intros i. rewrite Hc.
    apply decide_ext. rewrite Hl. naive_solver.
  - apply bind_Ok in H1 as (g & ->%heap_set_cells & H1). injection H1 as <-. split; [etransitivity; [|exact R]; by split|].
    exists h. split_and!; [by rewrite He|by rewrite Hs|by rewrite Hbl|]. intros i. rewrite Hc. cbn.
    destruct (decide (i ∈ l /\ is_stack i = false)) as [Hi|Hi].
    + rewrite decide_True; [done|]. apply Hl. by right.
    + rewrite lookup_insert. destruct (decide (k = i)) as [<-|Hne].
      * rewrite decide_True; [done|]. apply Hl. by left.
      * rewrite decide_False; [done|]. rewrite Hl. intros [[-> _]|?]; done.
Qed.

(** Resetting the entries from [n] on and forgetting them. *)
Lemma env_safe_reset e n h :
  env_safe SV e -> (length T0 <= n)%nat -> (n <= trail_size e)%nat ->
  h_size h = h_size (e_heap e) -> h_blocks h = h_blocks (e_heap e) ->
  (forall i, i ∈ drop n (e_trail e) -> is_stack i = false -> h_cells h !! i = Some (ref_cell i)) ->
  (forall i, i ∉ drop n (e_trail e) -> h_cells h !! i = h_cells (e_heap e) !! i) ->
  env_safe SV (trim_trail (with_heap e h) n) /\ e_trail (trim_trail (with_heap e h) n) = take n (e_trail e).
Proof.
  intros [[Ly D Te N] S B (T & HT & [Uv Uc])] Hlow Hn Hs Hbl Hr Hc.
  assert (Htr : take n (e_trail e) = T0 ++ take (n - length T0) T) by (rewrite HT, take_app, take_ge by done; done).
  assert (Hdr : drop n (e_trail e) = drop (n - length T0) T) by (rewrite HT, drop_app_ge by done; done).
  assert (Htl : e_trail (trim_trail (with_heap e h) n) = take n (e_trail e)).
  { unfold trim_trail, trail_size in *. cbn. replace (n - length (e_trail e))%nat with 0%nat by lia. cbn. by rewrite app_nil_r. }
  split; [|exact Htl]. split; [split|cbn; lia|exact B|].
  - unfold heap_inv. cbn. rewrite Hs, Hbl. exact Ly.
  - intros i. cbn. destruct (decide (i ∈ drop n (e_trail e))) as [Hi|Hi]; [intros _; apply N; by eapply elem_of_drop_in|].
    rewrite Hc by done. apply D.
  - done.
  - intros i. rewrite Htl. intros Hi. apply N. by eapply elem_of_take_in.
  - exists (take (n - length T0) T). rewrite Htl, Htr. split; [done|]. split.
    + intros i Hi. apply Uv. by eapply elem_of_take_in.
    + intros i Hi. cbn. pose proof (sv_height SV). destruct (decide (i ∈ drop n (e_trail e))) as [Hin|Hin].
      * left. rewrite Hr; [|done|unfold is_stack; apply Z.leb_gt; lia]. rewrite Hdr in Hin.
        destruct (Uv i (elem_of_drop_in _ _ _ Hin) Hi) as (x & Hx & Hself).
        rewrite Hx. eapply was_var_watch; [exact Hself|]. apply self_ref_cell.
        pose proof (sv_dom SV i ltac:(rewrite Hx; by eexists)). unfold STACK_BASE in *. split; lia.
      * rewrite Hc by done. destruct (Uc i Hi) as [?|[Hv HiT]]; [by left|right]. split; [done|].
        rewrite <-(take_drop (n - length T0) T) in HiT. apply elem_of_app in HiT as [?|Hd]; [done|].
        by rewrite Hdr in Hin.
Qed.

Lemma reset_protected w n w1 :
  protected w -> (length T0 <= n)%nat -> (n <= trail_size (w_env w))%nat ->
  unwind_entries w (drop n (e_trail (w_env w))) = Ok w1 ->
  let w2 := set_env w1 (trim_trail (w_env w1) n) in
  protected w2 /\ same_regs w w2 /\ same_size w w2 /\ e_trail (w_env w2) = take n (e_trail (w_env w)).
Proof.
  intros P Hlow Hn H. destruct (unwind_entries_effect _ _ _ H) as (R & h & He & Hs & Hbl & Hc).
  destruct (env_safe_reset (w_env w) n h (pr_env _ _ P) Hlow Hn Hs Hbl) as [E Htl].
  { intros i Hi Hst. by rewrite Hc, decide_True. }
  { intros i Hi. rewrite Hc, decide_False; [done|]. by intros [? _]. }
  cbn. rewrite He. split.
  2:{ split; [|split; [|exact Htl]]; [etransitivity; [exact R|by split]|]. unfold same_size, w_heap. cbn. done. }
  destruct R as [_ Re _ _ _ _ _ Rt Rf]. pose proof P as [_ L Pe F].
  split; cbn [w_env set_env w_e w_frames w_heap w_top] in *; [exact E| | |].
  - unfold w_heap in *. cbn. rewrite Rt. cbn. rewrite Hs. exact L.
  - by rewrite Re.
  - intros a f Hf. apply F. by apply Rf.
Qed.

(** [interpreter_base::unwind] *)
Lemma base_unwind_protected w n w' :
  protected w -> (length T0 <= n)%nat -> (n <= trail_size (w_env w))%nat -> unwind w n = Ok w' -> protected w'.
Proof.
  intros P Hlow Hn H. unfold unwind in H. apply bind_Ok in H as (w1 & H1 & (e & He & H)%bind_Ok). injection H as <-.
  destruct (unwind_closures_protected _ _ _ H1 P) as (P1 & _ & _ & E1).
  unfold TermEnv.unwind_trail in He. apply bind_Ok in He as (h & Hh & He). injection He as <-.
  rewrite take_ge in Hh by (rewrite length_drop; unfold trail_size; lia).
  destruct (unwind_loop_cells _ _ _ Hh) as (Hs & Hbl & Hc).
  destruct (env_safe_reset (w_env w1) n h (pr_env _ _ P1) Hlow) as [E _]; [|done|done|..].
  - unfold trail_size in *. by rewrite E1.
  - intros i Hi _. by rewrite Hc, decide_True.
  - intros i Hi. by rewrite Hc, decide_False.
  - apply protected_set_env; [done|exact E|]. cbn. rewrite Hs. apply P1.
Qed.

Lemma trim_protected w n w' :
  protected w -> ch_h ch <= n -> trim_heap_safe w n = Ok w' ->
  protected w' /\ same_regs w w' /\ e_trail (w_env w') = e_trail (w_env w) /\
  (h_size (w_heap w') = Z.max n (heap_limiter (w_top w)) \/ h_size (w_heap w) = 0 /\ h_size (w_heap w') = 0).
Proof.
  intros P Hn H. unfold trim_heap_safe in H. apply bind_Ok in H as (w1 & H1 & (h & Hh & H)%bind_Ok).
  injection H as <-. destruct (clear_closures_protected _ _ _ H1 P) as (P1 & R1 & S1 & E1).
  set (m := Z.max n (heap_limiter (w_top w))) in *. pose proof (sv_height SV).
  assert (Hd : forall i, is_Some (h_cells h !! i) -> is_Some (h_cells (w_heap w1) !! i)) by (intros i; by apply (trim_heap_dom _ _ _ i Hh)).
  pose proof P1 as [[[Ly D Te N] S B (T & HT & [Uv Uc])] L Pe F].
  assert (Hcase : heap_inv h /\ (forall i, i < m -> i < ch_h ch -> h_cells h !! i = h_cells (w_heap w1) !! i) /\
    (h_size h = m \/ h_size (w_heap w1) = 0 /\ h_size h = 0)).
  { pose proof Hh as Hh'. unfold trim_heap in Hh. destruct (Z.eqb_spec (h_size (w_heap w1)) 0) as [E0|E0].
    - injection Hh as <-. split_and!; [done|done|by right].
    - apply bind_Ok in Hh as (u & _ & Hh). injection Hh as <-. unfold heap_inv, find_block_index, MAX_SIZE. cbn.
      split_and!; [lia| |..|by left].
      + destruct (Z.ltb_spec 0 m).
        * pose proof (Z.div_mod (m - 1) 8192). pose proof (Z.mod_pos_bound (m - 1) 8192). lia.
        * change (0 / 8192) with 0. lia.
      + intros i Hi _. apply option_eq. intros x. rewrite map_lookup_filter_Some. cbn. naive_solver. }
  destruct Hcase as (Ly' & Hc & Hsz).
  assert (Hlow : ch_h ch <= h_size h) by (unfold w_heap in *; destruct Hsz as [?|[? ?]]; lia).
  split.
  { apply protected_set_env; [done| |].
    - split; cbn; [split; cbn; try done|done|done|].
      + intros i Hi. apply D. by apply Hd.
      + exists T. split; [done|]. split; [done|]. intros i Hi. rewrite Hc by lia. by apply Uc.
    - cbn. rewrite (sr_top _ _ R1). unfold w_heap in *. destruct Hsz as [->|[E0 ->]]; [lia|].
      rewrite <-(sr_top _ _ R1). rewrite <-E0. exact L. }
  split; [etransitivity; [exact R1|by split]|]. split; [done|]. unfold same_size in S1. rewrite <-S1. exact Hsz.
Qed.

(** [undo_to]: the trail and the heap go back to those of the choice point [d]. *)
Lemma undo_protected w d w' :
  protected w -> ch_h ch <= ch_h d -> (ch_tr ch <= ch_tr d)%nat -> (ch_tr d <= trail_size (w_env w))%nat ->
  undo_to w d = Ok w' ->
  protected w' /\ same_regs w w' /\ e_trail (w_env w') = take (ch_tr d) (e_trail (w_env w)) /\
  (h_size (w_heap w') = Z.max (ch_h d) (heap_limiter (w_top w)) \/ h_size (w_heap w) = 0 /\ h_size (w_heap w') = 0).
Proof.
  intros P Hh Ht Hlen H. unfold undo_to, unwind_trail in H.
  apply bind_Ok in H as (w2 & (w1 & H1 & H2)%bind_Ok & H).
  destruct (unwind_closures_protected _ _ _ H1 P) as (P1 & R1 & S1 & E1). rewrite <-E1 in H2.
  assert (Hlen1 : (ch_tr d <= trail_size (w_env w1))%nat) by (unfold trail_size in *; by rewrite E1).
  rewrite (sv_tr SV) in Ht. destruct (reset_protected w1 (ch_tr d) w2 P1 Ht Hlen1 H2) as (P2 & R2 & S2 & E2).
  destruct (trim_protected _ _ _ P2 Hh H) as (P3 & R3 & E3 & Hsz). split; [done|].
  split; [etransitivity; [exact R1|]; etransitivity; [exact R2|exact R3]|].
  split; [by rewrite E3, E2, E1|]. rewrite (sr_top _ _ R2), (sr_top _ _ R1), S2, S1 in Hsz. exact Hsz.
Qed.

End undo.
