(* ===== verification/WamRun.v ===== *)
(** * Running the machine over a choice point

    Every instruction preserves the invariant of [WamSafe], so whatever the machine does
    while a choice point stays on the stack is undone by backtracking to it. *)

From S2P Require Import Prelude Cells Heap HeapGrow Bigs TermEnv HeapSpec Unify UnifyFrame Machine Wam WamSafe WamUndo.

Create HintDb wam.

(** ** Runs *)

(** What holds of every state of a run over the choice point: the heap is below the stack,
    the choice point is on the stack, watched references are unbound, and the trail is not
    shorter than the current choice point says. *)
Record steady (b : Z) (ch : choice_point) (w : wam) : Prop := Steady {
  st_small : small w;
  st_intact : intact b ch w;
  st_watches : watches_fresh w;
  st_trail : forall d, get_choice w (w_b w) = Ok d -> (ch_tr d <= trail_size (w_env w))%nat
}.

(** Any number of instructions, every state of which is [steady]. *)
Inductive run (import_bits : list Z -> Z) (fuel : nat) (c : code) (b : Z) (ch : choice_point) (w : wam) : wam -> Prop :=
  | run_start : run import_bits fuel c b ch w w
  | run_step w1 w2 : run import_bits fuel c b ch w w1 -> steady b ch w1 -> step import_bits fuel c w1 = Ok w2 ->
      steady b ch w2 -> run import_bits fuel c b ch w w2.

Section run.
Context (import_bits : list Z -> Z) (fuel : nat) (c : code) (SV : saved).

Abbreviation b := (sv_b SV).
Abbreviation ch := (sv_choice SV).
Abbreviation protected := (protected SV).
Abbreviation live := (live SV).
Abbreviation intact := (intact b ch).
Abbreviation steady := (steady b ch).
Abbreviation run := (run import_bits fuel c b ch).

(** ** Values *)

Definition known (w : wam) (t : Z) : Prop := value_in w t \/ cell_tag t <> RFW.

Lemma get_a_known w i t : get_a w i = Ok t -> known w t.
Proof.
  unfold get_a. intros (u & _ & H)%bind_Ok. injection H as <-.
  destruct (w_a w !! i) as [t|] eqn:E; [left; left; by eexists|by right].
Qed.
Lemma get_x_known w i t : get_x w i = Ok t -> known w t.
Proof.
  unfold get_x. intros (u & _ & H)%bind_Ok. injection H as <-.
  destruct (w_x w !! i) as [t|] eqn:E; [left; right; left; by eexists|by right].
Qed.
Lemma get_y_known w i t : get_y w i = Ok t -> known w t.
Proof. unfold get_y, get_word. intros H%of_option_Ok. left. right; right; left. by eexists. Qed.
Lemma heap_get_known w i t : heap_get (w_heap w) i = Ok t -> known w t.
Proof. intros [H _]%heap_get_cell. left. right; right; right. by eexists. Qed.

(** ** Instructions that leave the stack of frames alone *)

Lemma set_core_protected w w' : same_core w w' -> protected w -> protected w'.
Proof. apply same_protected. Qed.
Lemma next_protected w w' : goto_next_instruction c w = Ok w' -> protected w -> protected w'.
Proof. intros H%next_same. by apply same_protected. Qed.
Lemma set_a_protected w i t w' : set_a w i t = Ok w' -> protected w -> protected w'.
Proof. intros H%set_a_same. by apply same_protected. Qed.
Lemma set_x_protected w i t w' : set_x w i t = Ok w' -> protected w -> protected w'.
Proof. intros H%set_x_same. by apply same_protected. Qed.
Lemma deref_protected w t w' d : deref fuel w t = Ok (w', d) -> protected w -> protected w'.
Proof. intros H%deref_same. by apply same_protected. Qed.
Lemma add_cost_protected w k w' : add_accumulated_cost w k = Ok w' -> protected w -> protected w'.
Proof. intros H%add_cost_same. by apply same_protected. Qed.
Lemma backtrack_protected w w' : backtrack w = Ok w' -> protected w -> protected w'.
Proof. intros H%backtrack_same. by apply same_protected. Qed.
Lemma next_or_backtrack_protected w ok w' : next_or_backtrack c w ok = Ok w' -> protected w -> protected w'.
Proof. intros H%next_or_backtrack_same. by apply same_protected. Qed.
Lemma goto_unless_protected w p w' : goto_unless_fail w p = Ok w' -> protected w -> protected w'.
Proof. intros H%goto_unless_same. by apply same_protected. Qed.
Lemma goto_found_protected w m t w' : goto_found w m t = Ok w' -> protected w -> protected w'.
Proof. intros H%goto_found_same. by apply same_protected. Qed.

(** Trace a protected state back through the operations that led to it. *)
Ltac by_setter w := apply (set_core_protected w); [by split|].
Ltac wam_back :=
  repeat lazymatch goal with
  | P : WamSafe.protected _ ?w |- WamSafe.protected _ ?w => exact P
  | |- WamSafe.protected _ (set_p ?w _) => by_setter w
  | |- WamSafe.protected _ (set_cp ?w _) => by_setter w
  | |- WamSafe.protected _ (set_b0 ?w _) => by_setter w
  | |- WamSafe.protected _ (set_num_of_args ?w _) => by_setter w
  | |- WamSafe.protected _ (set_s ?w _) => by_setter w
  | |- WamSafe.protected _ (inc_s ?w) => by_setter w
  | |- WamSafe.protected _ (set_mode ?w _) => by_setter w
  | |- WamSafe.protected _ (set_y ?w _ _) => apply set_y_protected
  | H : goto_next_instruction _ _ = Ok ?w |- WamSafe.protected _ ?w => apply (next_protected _ _ H)
  | H : set_a _ _ _ = Ok ?w |- WamSafe.protected _ ?w => apply (set_a_protected _ _ _ _ H)
  | H : set_x _ _ _ = Ok ?w |- WamSafe.protected _ ?w => apply (set_x_protected _ _ _ _ H)
  | H : Wam.deref _ _ _ = Ok (?w, _) |- WamSafe.protected _ ?w => apply (deref_protected _ _ _ _ H)
  | H : add_accumulated_cost _ _ = Ok ?w |- WamSafe.protected _ ?w => apply (add_cost_protected _ _ _ H)
  | H : backtrack _ = Ok ?w |- WamSafe.protected _ ?w => apply (backtrack_protected _ _ H)
  | H : next_or_backtrack _ _ _ = Ok ?w |- WamSafe.protected _ ?w => apply (next_or_backtrack_protected _ _ _ H)
  | H : goto_unless_fail _ _ = Ok ?w |- WamSafe.protected _ ?w => apply (goto_unless_protected _ _ _ H)
  | H : goto_found _ _ _ = Ok ?w |- WamSafe.protected _ ?w => apply (goto_found_protected _ _ _ _ H)
  | H : Wam.new_ref _ = Ok (?w, _) |- WamSafe.protected _ ?w => apply (new_ref_protected SV _ _ _ H)
  | H : new_refs _ _ = Ok ?w |- WamSafe.protected _ ?w => apply (new_refs_protected SV _ _ _ H)
  | H : new_term_con _ _ = Ok (?w, _) |- WamSafe.protected _ ?w => apply (new_con_protected SV _ _ _ _ H)
  | H : new_term_str _ _ = Ok (?w, _) |- WamSafe.protected _ ?w => apply (new_str_protected SV _ _ _ _ H)
  | H : new_term_copy_cell _ _ = Ok ?w |- WamSafe.protected _ ?w => apply (copy_cell_protected SV _ _ _ H)
  | H : base_equal _ _ _ _ = Ok (?w, _) |- WamSafe.protected _ ?w => refine (base_equal_protected _ _ _ _ _ _ _ _ H)
  end.

(** Split a run into its operations. *)
Ltac wam_split H :=
  lazymatch type of H with
  | mbind _ _ = Ok _ =>
      let v := fresh "v" in let Hv := fresh "Hv" in
      apply bind_Ok in H; destruct H as (v & Hv & H);
      lazymatch type of v with prod _ _ => destruct v as [? ?] | _ => idtac end;
      wam_split Hv; wam_split H
  | Ok _ = Ok _ => injection H as <-
  | _ => idtac
  end.

Section from.
Context (w : wam).
Hypothesis P : protected w.
Hypothesis Sm : small w.
Hypothesis Fr : watches_fresh w.

(** Dereferencing at the start of an instruction. *)
Lemma deref_start t w1 d : known w t -> deref fuel w t = Ok (w1, d) ->
  protected w1 /\ (is_ref (cell_tag d) = true -> bindable SV d).
Proof. intros Hk H. split; [by eapply deref_protected|]. intros Hr. by eapply deref_bindable. Qed.

Lemma get_structure_protected w1 f t w' :
  protected w1 -> (is_ref (cell_tag t) = true -> bindable SV t) -> get_structure c w1 f t = Ok w' -> protected w'.
Proof.
  intros P1 Ht H. unfold get_structure in H.
  destruct (cell_tag t) eqn:E; try by wam_back.
  1, 2: wam_split H; wam_back; eapply bind_protected; [|by apply Ht|eassumption]; by wam_back.
  wam_split H. destruct (_ =? _); by wam_back.
Qed.

Lemma match_constant_protected w1 k t w' ok :
  protected w1 -> (is_ref (cell_tag t) = true -> bindable SV t) -> match_constant fuel w1 k t = Ok (w', ok) ->
  protected w'.
Proof.
  intros P1 Ht H. unfold match_constant in H.
  destruct (cell_tag t) eqn:E; try (injection H as <- _; done); try by wam_back.
  all: wam_split H; eapply bind_protected; [exact P1|by apply Ht|eassumption].
Qed.

Lemma push_local_protected t w' : known w t -> push_local_value fuel w t = Ok w' -> protected w'.
Proof.
  intros Hk H. unfold push_local_value in H. wam_split H. destruct (deref_start _ _ _ Hk Hv) as [P1 Hb].
  destruct (is_ref (cell_tag z) && is_stack (ptr_index z)) eqn:E; [|by wam_back].
  wam_split H. apply andb_true_iff in E as [E _]. eapply bind_protected; [|by apply Hb|exact H]. by wam_back.
Qed.

Lemma next_argument_protected w' t : next_argument w = Ok (w', t) -> protected w'.
Proof. unfold next_argument. destruct (w_mode w); intros H; wam_split H; by wam_back. Qed.

Lemma unify_argument_protected t l w' : known w t -> unify_argument import_bits fuel c w t l = Ok w' -> protected w'.
Proof.
  intros Hk H. unfold unify_argument in H. apply bind_Ok in H as ([w1 ok] & H1 & H).
  wam_back. destruct (w_mode w).
  - wam_split H1. by eapply base_unify_protected.
  - apply bind_Ok in H1 as (w2 & H2 & H1). injection H1 as <- _. destruct l; [by eapply push_local_protected|].
    by wam_back.
Qed.

Lemma unify_constant_protected k w' : unify_constant fuel c w k = Ok w' -> protected w'.
Proof.
  intros H. unfold unify_constant in H. apply bind_Ok in H as ([w1 ok] & H1 & (w2 & H2 & H)%bind_Ok).
  assert (P1 : protected w1).
  { destruct (w_mode w); [|injection H1 as <- _; done].
    wam_split H1. destruct (deref_start _ _ _ (heap_get_known _ _ _ Hv) Hv0) as [P1 Hb].
    by eapply match_constant_protected. }
  destruct ok; by wam_back.
Qed.

Lemma put_unsafe_protected yn ai w' : put_unsafe_value_y fuel c w yn ai = Ok w' -> protected w'.
Proof.
  intros H. unfold put_unsafe_value_y in H. apply bind_Ok in H as (t & Ht & ([w1 d] & Hd & H)%bind_Ok).
  destruct (deref_start _ _ _ (get_y_known _ _ _ Ht) Hd) as [P1 Hb].
  destruct (is_ref (cell_tag d)) eqn:Hr; cbn [negb] in H; [|wam_split H; by wam_back].
  destruct (negb _ || _); wam_split H; wam_back. eapply bind_protected; [|by apply Hb|eassumption]. by wam_back.
Qed.

(** The instructions that change neither environments nor choice points. *)
Definition plain (i : instr) : bool :=
  match i with
  | ALLOCATE | DEALLOCATE | CALL _ _ | PROCEED | BUILTIN _ _ | BUILTIN_R _ _ _
  | TRY_ME_ELSE _ | RETRY_ME_ELSE _ | TRUST_ME | TRY _ | RETRY _ | TRUST _ | NECK_CUT | CUT _ => false
  | _ => true
  end.

#[local] Hint Resolve get_a_known get_x_known get_y_known heap_get_known : wam.

Lemma plain_protected i w' : plain i = true -> invoke import_bits fuel c w i = Ok w' -> protected w'.
Proof.
  intros Hi H. destruct i; try done; clear Hi; cbn [invoke] in H.
  all: unfold put_variable_x, put_variable_y, put_value_x, put_value_y, put_structure_a, put_structure_x,
    put_structure_y, put_list_a, put_list_x, put_list_y, Wam.new_dotted_pair, put_constant, get_variable_x,
    get_variable_y, set_variable_a, set_variable_x, set_variable_y, set_value_a, set_value_x, set_value_y,
    set_local_value_x, set_local_value_y, set_constant, set_void, unify_variable_a, unify_variable_x,
    unify_variable_y, unify_value_a, unify_value_x, unify_value_y, unify_local_value_x, unify_local_value_y,
    execute, goto_, reset_level, get_level, cost, get_list_a, get_list_x, get_list_y, get_value_x, get_value_y,
    get_structure_a, get_structure_x, get_structure_y, get_constant, switch_on_constant, switch_on_structure in H.
  all: try by eapply put_unsafe_protected.
  all: try by eapply unify_constant_protected.
  all: try (wam_split H; wam_back; done).
  all: try (wam_split H; wam_back;
    first [by eapply push_local_protected; [|eassumption]; eauto with wam|by eapply next_argument_protected]).
  all: try (wam_split H; by eapply unify_argument_protected; [|eassumption]; eauto with wam).
  all: try (wam_split H; wam_back; by eapply base_unify_protected).
  all: try (wam_split H; edestruct deref_start as [P1 Hb]; [|eassumption|]; [by eauto with wam|];
    first [by eapply get_structure_protected; eassumption|
      wam_back; by eapply match_constant_protected; eassumption]).
  - unfold unify_void in H. destruct (w_mode w); wam_split H; by wam_back.
  - unfold switch_on_term in H. wam_split H. destruct (cell_tag z); try wam_split H; by wam_back.
Qed.

End from.

(** ** Environments and calls *)

Lemma steady_live w : protected w -> steady w -> live w.
Proof. intros P S. split; [done|apply S]. Qed.

Lemma intact_same w w' : w_b w' = w_b w -> w_frames w' = w_frames w -> intact w' -> intact w.
Proof. intros Eb Ef [B F]. split; [by rewrite <-Eb|by rewrite <-Ef]. Qed.

Lemma set_hb_of_regs w a w' : set_hb_of w a = Ok w' -> w_b w' = w_b w /\ w_frames w' = w_frames w.
Proof.
  unfold set_hb_of. destruct (_ =? _); [intros H; by injection H as <-|]. intros (d & _ & H)%bind_Ok. by injection H as <-.
Qed.

Lemma next_live w w' : goto_next_instruction c w = Ok w' -> live w -> live w' /\ same_size w w'.
Proof. intros H%next_same L. split; [by eapply same_live|by apply same_core_size]. Qed.

Lemma allocate_keeps w w' : allocate c w = Ok w' -> live w -> protected w'.
Proof.
  unfold allocate. intros (w1 & H1 & H)%bind_Ok L.
  apply (next_live w1 w' H), (allocate_wam_live SV w _ w1 (num_y_nonneg c w true) H1 L).
Qed.

Lemma deallocate_keeps w w' : deallocate c w = Ok w' -> live w -> small w -> protected w'.
Proof.
  unfold deallocate. intros (w1 & H1 & (w2 & H2 & H)%bind_Ok)%bind_Ok L S.
  assert (live w1 /\ same_size w w1) as [L1 Z1].
  { destruct (_ =? _); [|by eapply deallocate_env_live]. injection H1 as <-. split; [|done].
    eapply same_live; [|exact L]. by split. }
  destruct (next_live _ _ H2 L1) as [L2 Z2].
  apply (check_frozen_live c SV w2 w' H L2). unfold small in *. by rewrite Z2, Z1.
Qed.

Lemma proceed_keeps w w' : proceed c w = Ok w' -> live w -> small w -> protected w'.
Proof.
  intros H L S. refine (lv_protected _ _ (check_frozen_live c SV _ w' H _ S)). eapply same_live; [|exact L]. by split.
Qed.

Lemma call_keeps w p n w' : call fuel c w p n = Ok w' -> live w -> protected w'.
Proof.
  unfold call. intros (q & _ & H)%bind_Ok L.
  set (w0 := set_b0 _ _) in H. assert (L0 : live w0) by (eapply same_live; [|exact L]; by split).
  destruct (negb _); [|injection H as <-; apply L0].
  apply bind_Ok in H as (w1 & H1%deref_args_same & (w2 & H2 & H)%bind_Ok). injection H as <-.
  pose proof (same_live SV _ _ H1 L0) as L1.
  apply (set_core_protected w2); [by split|]. apply (allocate_naive_live SV w1 _ w2 (num_y_nonneg c w1 true) H2 L1).
Qed.

(** ** Built-in predicates *)

(** Calling frozen goals allocates no cells and makes no choice points. *)
Record only_frames (w w' : wam) : Prop := OnlyFrames {
  of_size : same_size w w';
  of_b : w_b w' = w_b w;
  of_choices : forall a d, w_frames w' !! a = Some (FChoice d) -> w_frames w !! a = Some (FChoice d)
}.

#[local] Instance only_frames_preorder : PreOrder only_frames.
Proof.
  split; [by split|]. intros w1 w2 w3 [S1 B1 F1] [S2 B2 F2].
  split; [by eapply same_size_trans|congruence|]. intros a d Hd. auto.
Qed.

Lemma core_only w w' : same_core w w' -> only_frames w w'.
Proof. intros C. pose proof C as [_ Ef _ Eb _]. split; [by apply same_core_size|done|by rewrite Ef]. Qed.

Lemma frames_only w w' : h_size (w_heap w') = h_size (w_heap w) -> w_b w' = w_b w -> w_frames w' = w_frames w ->
  only_frames w w'.
Proof. intros Es Eb Ef. split; [done|done|by rewrite Ef]. Qed.

Lemma put_env_only w a f : only_frames w (put_frame w a (FEnv f)).
Proof.
  split; try done. intros x d. cbn. rewrite lookup_insert. destruct (decide (a = x)); [done|].
  intros [H _]%map_lookup_filter_Some. done.
Qed.

Lemma clear_closure_only w i w' : clear_frozen_closure w i = Ok w' -> only_frames w w'.
Proof. unfold clear_frozen_closure. intros (h & Hh%watch_size & H)%bind_Ok. injection H as <-. by apply frames_only. Qed.

Lemma set_closure_only w i cl w' : set_frozen_closure w i cl = Ok w' -> only_frames w w'.
Proof.
  unfold set_frozen_closure. intros (h & Hh%watch_size & H)%bind_Ok.
  assert (only_frames w (set_env w (TermEnv.trail (with_heap (w_env w) h) i))) as E.
  { split; try done. unfold same_size, w_heap, TermEnv.trail. cbn. by destruct (_ <? _). }
  destruct (w_closures _ !! i); injection H as <-; [exact E|]. etransitivity; [exact E|by apply frames_only].
Qed.

Lemma allocate_frozen_only w w' : allocate_frozen c w = Ok w' -> only_frames w w'.
Proof.
  unfold allocate_frozen. intros (a & _ & (ex & _ & H)%bind_Ok)%bind_Ok. injection H as <-.
  etransitivity; [apply put_env_only|by apply frames_only].
Qed.
Lemma allocate_naive_only w n w' : allocate_naive w n = Ok w' -> only_frames w w'.
Proof.
  unfold allocate_naive. intros (a & _ & H)%bind_Ok. injection H as <-. etransitivity; [apply put_env_only|by apply frames_only].
Qed.

Lemma watch_only w i v h : heap_watch (w_heap w) i v = Ok h -> only_frames w (set_heap w h).
Proof. intros H%watch_size. by apply frames_only. Qed.

Lemma check_watched_only w i w' : check_watched c w i = Ok w' -> only_frames w w'.
Proof.
  unfold check_watched. intros (h & _ & H)%bind_Ok. destruct (negb _).
  - apply bind_Ok in H as (w1 & H1%clear_closure_only & (w2 & H2 & (g & H3%watch_only & H)%bind_Ok)%bind_Ok).
    injection H as <-. etransitivity; [exact H1|]. etransitivity; [|exact H3].
    destruct (_ =? EMPTY_LIST); [by injection H2 as <-|].
    apply bind_Ok in H2 as (w3 & H4%allocate_frozen_only & (m & _ & (nm & _ & (fm & _ & (fn & _ & (w4 & H5 & (w5 & H6%allocate_naive_only & H2)%bind_Ok)%bind_Ok)%bind_Ok)%bind_Ok)%bind_Ok)%bind_Ok).
    injection H2 as <-. etransitivity; [exact H4|]. transitivity w4; [|etransitivity; [exact H6|by apply frames_only]].
    destruct (fm && fn); [|by injection H5 as <-]. apply bind_Ok in H5 as (q & _ & (q' & _ & H5)%bind_Ok).
    injection H5 as <-. by apply frames_only.
  - apply bind_Ok in H as ([w1 h2] & H1%base_deref_same%core_only & H).
    destruct (_ || _); [by injection H as <-|].
    apply bind_Ok in H as (w2 & H2%set_closure_only & (w3 & H3%clear_closure_only & (g & H4%watch_only & H)%bind_Ok)%bind_Ok).
    injection H as <-. etransitivity; [exact H1|]. etransitivity; [exact H2|]. by etransitivity; [exact H3|].
Qed.

Lemma check_frozen_only w w' : check_frozen c w = Ok w' -> only_frames w w'.
Proof.
  unfold check_frozen. destruct (critical_section _); [intros H; by injection H as <-|].
  destruct (h_watched (w_heap w)) as [|i l]; [intros H; by injection H as <-|].
  intros (w1 & H1 & H)%bind_Ok. injection H as <-.
  assert (only_frames w w1) as E; [|etransitivity; [exact E|by apply frames_only]].
  revert w H1. induction (rev (i :: l)) as [|j k IH]; intros w H.
  - by injection H as <-.
  - apply bind_Ok in H as (w2 & H2%check_watched_only & H). etransitivity; [exact H2|by apply IH].
Qed.

Lemma only_frames_intact w w' : only_frames w w' -> intact w' -> intact w.
Proof. intros [_ Eb F] [B [bp Hb]]. split; [by rewrite <-Eb|]. exists bp. by apply F. Qed.

(** A built-in succeeded, or the machine backtracks. *)
Lemma builtin_end w (r : bool) w' :
  (if r then check_frozen c w else backtrack w) = Ok w' -> (small w -> intact w -> protected w) -> small w' -> intact w' ->
  protected w'.
Proof.
  intros H P S I. assert (O : only_frames w w').
  { destruct r; [by apply check_frozen_only|by apply core_only, backtrack_same]. }
  pose proof (only_frames_intact _ _ O I) as I0.
  assert (S0 : small w) by (unfold small; by rewrite <-(of_size _ _ O)).
  destruct r; [|by apply (backtrack_protected w w' H), P].
  apply (check_frozen_live c SV w w' H); [split; auto|done].
Qed.

(** What the machine expects of a built-in: unless it pops the choice point or fills the
    heap, it changes the state only in ways that can be undone. *)
Definition builtin_keeps (bn : builtin_fn) : Prop :=
  forall w n args w' r, live w -> small w -> bn w n args = Ok (w', r) -> small w' -> intact w' -> protected w'.

Lemma builtin_instr_keeps w f bn w' :
  builtin_keeps bn -> builtin fuel c w f bn = Ok w' -> live w -> small w -> small w' -> intact w' -> protected w'.
Proof.
  unfold builtin. intros Hb (w1 & H1 & (u & _ & ([w2 ts] & H2 & ([w3 r] & H3 & H)%bind_Ok)%bind_Ok)%bind_Ok)%bind_Ok L S S' I.
  assert (L0 : live (set_num_of_args w (Z.to_nat (con_arity f)))) by (eapply same_live; [|exact L]; by split).
  destruct (next_live _ _ H1 L0) as [L1 Z1]. pose proof (derefed_args_same _ _ _ _ _ _ H2) as S2.
  assert (small w1) by (unfold small in *; by rewrite Z1).
  eapply builtin_end; [exact H| |exact S'|exact I].
  exact (Hb w2 _ ts w3 r (same_live SV _ _ S2 L1) (same_small _ _ S2 ltac:(done)) H3).
Qed.

Lemma builtin_r_instr_keeps w f bn w' :
  builtin_keeps bn -> builtin_r fuel c w f bn = Ok w' -> live w -> small w -> small w' -> intact w' -> protected w'.
Proof.
  unfold builtin_r. intros Hb (w1 & H1 & (u & _ & ([w2 ts] & H2 & (w3 & H3 & ([w4 r] & H4 & H)%bind_Ok)%bind_Ok)%bind_Ok)%bind_Ok)%bind_Ok L S S' I.
  assert (L0 : live (set_num_of_args w (Z.to_nat (con_arity f)))) by (eapply same_live; [|exact L]; by split).
  destruct (next_live _ _ H1 L0) as [L1 Z1]. pose proof (derefed_args_same _ _ _ _ _ _ H2) as S2.
  assert (S1 : small w2) by (eapply same_small; [exact S2|]; unfold small in *; by rewrite Z1).
  assert (L2 : live (set_cp w2 (w_p w2))) by (eapply same_live; [|exact (same_live SV _ _ S2 L1)]; by split).
  pose proof (allocate_naive_live SV _ _ _ (num_y_nonneg c _ true) H3 L2) as L3.
  assert (S3 : small w3) by (unfold small; by rewrite (of_size _ _ (allocate_naive_only _ _ _ H3))).
  eapply builtin_end; [exact H| |exact S'|exact I].
  refine (Hb _ _ ts w4 r _ _ H4); [|exact S3]. eapply same_live; [|exact L3]. by split.
Qed.

(** ** Choice points *)

Lemma try_keeps w n L w1 w' :
  allocate_choice_point w (num_y c w n) L = Ok w1 -> same_core w1 w' -> live w -> protected w'.
Proof.
  intros H1 Hs Lw. apply (same_protected SV _ _ Hs), (allocate_choice_live SV w _ L w1 (num_y_nonneg c w n) H1 Lw).
Qed.

Lemma restore_protected w d w1 : protected w -> away SV (ch_ce d) -> restore_choice_point w d = Ok w1 ->
  protected w1 /\ w_env w1 = w_env w /\ w_frames w1 = w_frames w /\ w_b w1 = w_b w.
Proof.
  unfold restore_choice_point. intros P Ha (w2 & H2 & H)%bind_Ok. injection H as <-.
  pose proof (set_args_same _ _ _ _ H2) as S2. destruct (S2) as [Ee Ef Ece Eb Et]. split; [|done].
  apply (set_core_protected (set_e w2 (ch_ce d) (ch_ce_kind d))); [by split|].
  apply set_e_protected; [|done]. by apply (same_protected SV w).
Qed.

(** The current choice point is the protected one or lies above it. *)
Lemma current_choice w d : protected w -> steady w -> get_choice w (w_b w) = Ok d ->
  ch_h ch <= ch_h d /\ (ch_tr ch <= ch_tr d)%nat /\ away SV (ch_ce d) /\ (ch_tr d <= trail_size (w_env w))%nat.
Proof.
  intros P S Hd. destruct (choice_heights SV w (w_b w) d P (st_intact _ _ _ S)) as (? & ? & ?); [apply S|done|].
  pose proof (st_trail _ _ _ S d Hd). by split_and!.
Qed.

(** Retrying changes where the choice point continues. *)
Lemma update_choice_protected w d L : protected w -> get_choice w (w_b w) = Ok d ->
  protected (update_frame w (w_b w) (FChoice (with_bp d L))).
Proof.
  intros [E L0 A F] Hd. split; cbn; try done. intros a g. rewrite lookup_insert. destruct (decide (w_b w = a)) as [<-|]; [|apply F].
  intros [= <-]. unfold get_choice in Hd. destruct (w_frames w !! w_b w) as [[f|d']|] eqn:E1; try done. injection Hd as ->.
  destruct (F _ _ E1) as (F1 & F2 & F3). cbn in *. split_and!; [done..|]. intros Hlt. split; [by apply F3|].
  intros d2 [= <-]. exact (proj2 (F3 Hlt) d eq_refl).
Qed.

Lemma retry_keeps w L w' : retry_choice_point w L = Ok w' -> protected w -> steady w -> protected w'.
Proof.
  unfold retry_choice_point. intros (d & Hd & (w1 & H1 & (w2 & H2 & H)%bind_Ok)%bind_Ok)%bind_Ok P S. injection H as <-.
  destruct (current_choice w d P S Hd) as (Hh & Ht & Ha & Hl).
  destruct (restore_protected w d w1 P Ha H1) as (P1 & Ee & Ef & Eb).
  assert (P1' : protected (update_frame w1 (w_b w1) (FChoice (with_bp d L)))).
  { apply update_choice_protected; [done|]. unfold get_choice in *. by rewrite Ef, Eb. }
  destruct (undo_protected SV _ d w2 P1' Hh Ht) as (P2 & _); [by cbn; rewrite Ee|done|].
  apply set_hb_protected; [done|apply P2].
Qed.

Lemma trust_keeps w w' : trust_choice_point w = Ok w' -> protected w -> steady w -> intact w' -> protected w'.
Proof.
  unfold trust_choice_point. intros (d & Hd & (w1 & H1 & (w2 & H2 & H)%bind_Ok)%bind_Ok)%bind_Ok P S I.
  destruct (current_choice w d P S Hd) as (Hh & Ht & Ha & Hl).
  destruct (restore_protected w d w1 P Ha H1) as (P1 & Ee & Ef & Eb).
  destruct (undo_protected SV _ d w2 P1 Hh Ht) as (P2 & _); [by rewrite Ee|done|].
  destruct (set_hb_of_regs _ _ _ H) as [Rb Rf]. cbn [w_b set_b] in *.
  eapply (set_hb_of_protected SV (set_b w2 (ch_b d))); [..|exact H].
  - destruct P2. by split.
  - by apply (intact_same _ w').
  - rewrite <-Rb. apply I.
Qed.

(** ** Cuts *)

Lemma hb_tidy_regs w a w1 w2 : set_hb_of w a = Ok w1 -> tidy_trail w1 = Ok w2 -> w_b w2 = w_b w.
Proof.
  intros [<- _]%set_hb_of_regs H. unfold tidy_trail in H. apply bind_Ok in H as (i & _ & (l & _ & H)%bind_Ok).
  by injection H as <-.
Qed.

Lemma cut_keeps w n w1 w2 w' :
  set_hb_of (set_b w n) n = Ok w1 -> tidy_trail w1 = Ok w2 -> goto_next_instruction c w2 = Ok w' ->
  live w -> intact w' -> protected w'.
Proof.
  intros H1 H2 H L I. assert (Hn : b <= n).
  { pose proof (in_b _ _ _ I) as Hb. destruct (next_same c _ _ H) as [_ _ _ Eb _]. rewrite Eb in Hb.
    by rewrite (hb_tidy_regs _ _ _ _ H1 H2) in Hb. }
  destruct (cut_to_protected SV w n w1 w2 L Hn H1 H2) as [P2 _]. by apply (next_protected w2 w' H).
Qed.

Lemma neck_cut_keeps w w' : neck_cut c w = Ok w' -> live w -> intact w' -> protected w'.
Proof.
  unfold neck_cut. intros (w2 & H2 & H)%bind_Ok L I. destruct (_ <? _).
  - apply bind_Ok in H2 as (w1 & H1 & H2). by eapply cut_keeps.
  - injection H2 as <-. by apply (next_protected w w' H), L.
Qed.

Lemma cut_instr_keeps w yn w' : cut c w yn = Ok w' -> live w -> intact w' -> protected w'.
Proof.
  unfold cut. intros (t & _ & (w2 & H2 & H)%bind_Ok)%bind_Ok L I.
  assert (L0 : live (set_b0 w (int_value t))) by (eapply same_live; [|exact L]; by split).
  destruct (_ <? _).
  - apply bind_Ok in H2 as (w1 & H1 & H2). by eapply (cut_keeps (set_b0 w (int_value t))).
  - injection H2 as <-. by apply (next_protected _ w' H), L0.
Qed.

(** ** One instruction *)

(** The built-ins the code calls. *)
Definition code_keeps : Prop := forall o i, c_instrs c !! o = Some i ->
  match i with BUILTIN _ bn | BUILTIN_R _ bn _ => builtin_keeps bn | _ => True end.

Lemma step_protected w w' :
  code_keeps -> protected w -> steady w -> step import_bits fuel c w = Ok w' -> small w' -> intact w' ->
  protected w'.
Proof.
  intros Hc P S H S' I. pose proof (steady_live w P S) as L. pose proof (st_small _ _ _ S) as Sm.
  unfold step in H. apply bind_Ok in H as (o & _ & (i & Hi%of_option_Ok & H)%bind_Ok). specialize (Hc o i Hi).
  destruct (plain i) eqn:Hp; [by eapply plain_protected; [..|exact Hp|exact H]; [|apply S|apply S]|].
  destruct i; try done; cbn [invoke] in H.
  - by eapply allocate_keeps.
  - by eapply deallocate_keeps.
  - by eapply call_keeps.
  - by eapply proceed_keeps.
  - by eapply builtin_instr_keeps.
  - by eapply builtin_r_instr_keeps.
  - apply bind_Ok in H as (w1 & H1 & H). eapply try_keeps; [exact H1|by apply (next_same c)|exact L].
  - apply bind_Ok in H as (w1 & H1 & H). apply (next_protected w1 w' H). by eapply retry_keeps.
  - apply bind_Ok in H as (w1 & H1 & H). apply (next_protected w1 w' H). eapply trust_keeps; try done.
    destruct (next_same c _ _ H). by apply (intact_same _ w').
  - apply bind_Ok in H as (p & _ & (w1 & H1 & H)%bind_Ok). injection H as <-. eapply try_keeps; [exact H1|by split|exact L].
  - apply bind_Ok in H as (p & _ & (w1 & H1 & H)%bind_Ok). injection H as <-.
    apply (set_core_protected w1); [by split|]. by eapply retry_keeps.
  - apply bind_Ok in H as (w1 & H1 & H). injection H as <-.
    apply (set_core_protected w1); [by split|]. eapply trust_keeps; [exact H1|done..|]. by apply (intact_same _ (set_p w1 L0)).
  - by eapply neck_cut_keeps.
  - by eapply cut_instr_keeps.
Qed.

(** ** Runs *)

Lemma run_protected w w' : code_keeps -> protected w -> run w w' -> protected w'.
Proof.
  intros Hc P R. induction R as [|w1 w2 R IH S1 H S2]; [done|]. eapply step_protected; [done|exact IH|done|exact H|apply S2|apply S2].
Qed.

End run.
