(* ===== verification/Backtrack.v ===== *)
(** * Backtracking restores the machine

    The theorems about choice points: whatever instructions ran since a choice point was
    made, retrying or trusting it brings back the argument registers, the environment, the
    continuation, the trail and the cells of that time.

    An unbound variable may come back with its watch bit changed ([watch_eq]): the code
    resets variables to plain references. *)

From S2P Require Import Prelude Cells Heap HeapGrow Bigs TermEnv HeapSpec Unify UnifyFrame Machine Wam WamSafe WamUndo WamRun.

(** ** A new choice point *)

Section fresh.
Context (c : code).

(** The frame of a choice point made in state [w]. *)
Definition choices_of (w : wam) (args : list Z) (L : code_point) (choices : list Z) : choice_point :=
  ChoicePoint (w_e w) (w_e_kind w) (w_cp w) (w_b w) L (trail_size (w_env w)) (h_size (w_heap w)) (w_b0 w)
    (w_qr w) (w_pr w) args choices.
Definition choice_of (w : wam) (args : list Z) (L : code_point) : choice_point := choices_of w args L [].

Lemma fresh_above w n a : wam_ok w -> (forall k, n = Ok k -> 0 <= k) -> allocate_stack w n = Ok a -> 0 < a /\ w_e w < a /\ w_b w < a.
Proof.
  intros [_ _ He Hb _] Hn H. unfold allocate_stack in H. apply bind_Ok in H as (a' & Ha & (u & _ & H)%bind_Ok).
  injection H as <-. destruct (Z.ltb_spec (w_b w) (w_e w)).
  - apply bind_Ok in Ha as (k & Hk & Ha). injection Ha as <-. specialize (Hn k Hk). lia.
  - destruct (Z.eqb_spec (w_b w) 0); [injection Ha as <-; unfold STACK_BASE; lia|].
    apply bind_Ok in Ha as (d & _ & Ha). injection Ha as <-. unfold choice_size. lia.
Qed.

Lemma fresh_choices w u L choices w1 ch :
  wam_ok w -> small w -> allocate_choices w (num_y c w u) L choices = Ok w1 -> get_choice w1 (w_b w1) = Ok ch ->
  exists SV : saved, live SV w1 /\ w_b w1 = sv_b SV /\ ch = sv_choice SV /\ sv_cells SV = h_cells (w_heap w) /\
    sv_entries SV = e_trail (w_env w) /\
    exists args, get_args w 0 (w_num_args w) = Ok args /\ sv_choice SV = choices_of w args L choices.
Proof.
  intros W Sm H Hch. unfold allocate_choices in H. apply bind_Ok in H as (a & Ha & (args & Hargs & H)%bind_Ok).
  injection H as <-. unfold get_choice in Hch. cbn in Hch. rewrite lookup_insert, decide_True in Hch by done.
  injection Hch as <-. destruct (fresh_above w _ a W (num_y_nonneg c w u) Ha) as (Ha0 & He & Hba).
  destruct W as [[L0 D Te N] Hl _ _ F]. unfold small in Sm. unfold heap_inv in L0.
  assert (Hh : 0 <= ch_h (choices_of w args L choices) <= STACK_BASE) by (cbn; unfold w_heap in *; lia).
  exists (Saved a (choices_of w args L choices) (h_cells (w_heap w)) (e_trail (w_env w)) eq_refl Hh D Ha0).
  split; [|split_and!; try done; by exists args].
  split; split; cbn; try done; try lia.
  - split; cbn; try done. exists []. rewrite app_nil_r. split; [done|].
    split; [by intros i ?%elem_of_nil|intros i _; by left].
  - left. done.
  - intros x f. rewrite lookup_insert. destruct (decide (a = x)) as [<-|Hne].
    + intros [= <-]. cbn. split_and!; [lia|by left|lia].
    + intros [Hf Hx]%map_lookup_filter_Some. cbn in Hx. pose proof (size_pos f).
      specialize (F x f Hf). split_and!; [done|left; destruct f; cbn in *; lia|lia].
  - exists L. rewrite lookup_insert, decide_True by done. done.
Qed.

Lemma fresh_choice w u L w1 ch :
  wam_ok w -> small w -> allocate_choice_point w (num_y c w u) L = Ok w1 -> get_choice w1 (w_b w1) = Ok ch ->
  exists SV : saved, live SV w1 /\ w_b w1 = sv_b SV /\ ch = sv_choice SV /\ sv_cells SV = h_cells (w_heap w) /\
    sv_entries SV = e_trail (w_env w) /\
    exists args, get_args w 0 (w_num_args w) = Ok args /\ sv_choice SV = choice_of w args L.
Proof. apply fresh_choices. Qed.

End fresh.

(** ** Argument registers *)

Lemma set_args_lookup ts w i w' j :
  set_args w i ts = Ok w' -> w_a w' !! j = if decide (i <= j < i + length ts)%nat then ts !! (j - i)%nat else w_a w !! j.
Proof.
  revert w i. induction ts as [|t ts IH]; intros w i H; cbn [set_args] in H.
  { injection H as <-. rewrite decide_False by (cbn; lia). done. }
  apply bind_Ok in H as (w1 & H1 & H). rewrite (IH _ _ H). unfold set_a in H1. apply bind_Ok in H1 as (u & _ & H1).
  injection H1 as <-. cbn. rewrite lookup_insert. destruct (decide (i = j)) as [->|Hne].
  - rewrite decide_False by lia. rewrite decide_True by lia. by rewrite Nat.sub_diag.
  - repeat case_decide; try lia; [|done]. replace (j - i)%nat with (S (j - S i)) by lia. done.
Qed.

Lemma get_args_lookup n w i ts : get_args w i n = Ok ts ->
  length ts = n /\ forall j, (j < n)%nat -> ts !! j = Some (default 0 (w_a w !! (i + j)%nat)).
Proof.
  revert i ts. induction n as [|n IH]; intros i ts H; cbn [get_args] in H.
  { injection H as <-. split; [done|lia]. }
  apply bind_Ok in H as (t & Ht & (us & Hus & H)%bind_Ok). injection H as <-. destruct (IH _ _ Hus) as [Hl Hj].
  split; [cbn; lia|]. intros [|j] Hlt.
  - unfold get_a in Ht. apply bind_Ok in Ht as (u & _ & Ht). injection Ht as <-. by rewrite Nat.add_0_r.
  - cbn. rewrite Hj by lia. do 3 f_equal. lia.
Qed.

(** ** What backtracking restores *)

Record restored (w w' : wam) : Prop := Restored {
  re_args : forall i, (i < w_num_args w)%nat -> default 0 (w_a w' !! i) = default 0 (w_a w !! i);
  re_e : w_e w' = w_e w;
  re_kind : w_e_kind w' = w_e_kind w;
  re_cp : w_cp w' = w_cp w;
  re_trail : e_trail (w_env w') = e_trail (w_env w);
  re_size : h_size (w_heap w') = Z.max (h_size (w_heap w)) (heap_limiter (w_top w'));
  re_cells : forall i, i < h_size (w_heap w) -> watch_eq (h_cells (w_heap w) !! i) (h_cells (w_heap w') !! i)
}.

(** The registers that [undo_to] does not look at may differ, and the frames. *)
Record but_frames (w w' : wam) : Prop := ButFrames {
  bf_env : w_env w' = w_env w;
  bf_a : w_a w' = w_a w;
  bf_e : w_e w' = w_e w;
  bf_kind : w_e_kind w' = w_e_kind w;
  bf_cp : w_cp w' = w_cp w;
  bf_b : w_b w' = w_b w
}.

Section restore.
Context (SV : saved) (w : wam) (args : list Z) (L : code_point).
Hypothesis Hargs : get_args w 0 (w_num_args w) = Ok args.
Hypothesis Hchoice : sv_choice SV = choice_of w args L.
Hypothesis Hcells : sv_cells SV = h_cells (w_heap w).
Hypothesis Hentries : sv_entries SV = e_trail (w_env w).

(** Registers, then the trail and the heap. *)
Lemma undo_restored w1 bp w2 w3 w' :
  protected SV w1 -> (ch_tr (sv_choice SV) <= trail_size (w_env w1))%nat ->
  restore_choice_point w1 (with_bp (sv_choice SV) bp) = Ok w2 -> protected SV w3 -> but_frames w2 w3 ->
  undo_to w3 (with_bp (sv_choice SV) bp) = Ok w' ->
  restored w w' /\ w_b w' = w_b w3.
Proof.
  intros P1 Hl H2 P3 [E3 Qa Qe Qk Qc Qb] H. pose proof H2 as H2'. unfold restore_choice_point in H2.
  apply bind_Ok in H2 as (w4 & H4 & H2). injection H2 as <-. pose proof (set_args_same _ _ _ _ H4) as S4.
  destruct (undo_protected SV w3 (with_bp (sv_choice SV) bp) w' P3) as (P & R & Htr & Hsz); [cbn; lia|cbn; lia| |done|].
  { rewrite E3. cbn [w_env set_cp set_e]. by rewrite (sc_env _ _ S4). }
  destruct (get_args_lookup _ _ _ _ Hargs) as [Hlen Hlook]. destruct R as [Ra Re Rk Rc Rp Rb _ Rt Rf].
  cbn in *. rewrite Hchoice in *. cbn in *.
  pose proof P as [[[Ly D Te N] S B (T & HT & [Uv Uc])] Lm _ _]. rewrite Hchoice in *. cbn in *.
  assert (HT' : e_trail (w_env w3) = e_trail (w_env w1)) by (rewrite E3; cbn; by rewrite (sc_env _ _ S4)).
  destruct (es_trail _ _ (pr_env _ _ P1)) as (T1 & HT1 & _). rewrite Hentries in *.
  assert (Htl : e_trail (w_env w') = e_trail (w_env w)) by (rewrite Htr, HT', HT1; apply take_app_length).
  split; [|done].
  split; try congruence.
  - intros i Hi. rewrite Ra, Qa, (set_args_lookup _ _ _ _ i H4), decide_True by (rewrite Hlen; lia).
    rewrite Nat.sub_0_r. by rewrite (Hlook i Hi).
  - rewrite Rt. destruct Hsz as [->|[Hz Hz']]; [done|]. rewrite Hz'. rewrite <-Rt.
    unfold w_heap in *. destruct (pr_env _ _ P3) as [[L3 _ _ _] S3 _ _]. rewrite Hchoice in S3. cbn in S3. unfold heap_inv in *.
    pose proof (sv_height SV) as Hh. rewrite Hchoice in Hh. cbn in Hh. unfold w_heap in *. lia.
  - intros i Hi. rewrite <-Hcells. destruct (Uc i Hi) as [?|[_ HiT]]; [done|].
    rewrite Htl in HT. apply (f_equal length) in HT. rewrite length_app in HT. destruct T; [by apply elem_of_nil in HiT|cbn in HT; lia].
Qed.

Lemma frame_at w1 d : intact (sv_b SV) (sv_choice SV) w1 -> w_b w1 = sv_b SV -> get_choice w1 (w_b w1) = Ok d ->
  exists bp, d = with_bp (sv_choice SV) bp.
Proof.
  intros [_ [bp F]] Eb H. rewrite Eb in H. unfold get_choice in H. rewrite F in H. injection H as <-. by exists bp.
Qed.

Lemma retry_restored w1 p w' :
  protected SV w1 -> steady (sv_b SV) (sv_choice SV) w1 -> w_b w1 = sv_b SV -> retry_choice_point w1 p = Ok w' ->
  restored w w' /\ w_b w' = sv_b SV /\ e_hb (w_env w') = h_size (w_heap w').
Proof.
  intros P S Eb H. unfold retry_choice_point in H.
  apply bind_Ok in H as (d & Hd & (w2 & H2 & (w3 & H3 & H)%bind_Ok)%bind_Ok). injection H as <-.
  destruct (current_choice SV w1 d P S Hd) as (Hh & Ht & Ha & Hl).
  destruct (frame_at w1 d (st_intact _ _ _ S) Eb Hd) as [bp ->].
  destruct (restore_protected SV w1 _ w2 P Ha H2) as (P2 & Ee & Ef & Eb2).
  assert (Hd2 : get_choice w2 (w_b w2) = Ok (with_bp (sv_choice SV) bp)) by (unfold get_choice in *; by rewrite Ef, Eb2).
  destruct (undo_restored w1 bp w2 _ w3 P Hl H2 (update_choice_protected SV w2 _ p P2 Hd2) ltac:(by split) H3) as [R Rb].
  split; [by destruct R|]. split; [|done]. cbn in *. congruence.
Qed.

Lemma trust_restored w1 w' :
  protected SV w1 -> steady (sv_b SV) (sv_choice SV) w1 -> w_b w1 = sv_b SV -> trust_choice_point w1 = Ok w' ->
  restored w w' /\ w_b w' = w_b w.
Proof.
  intros P S Eb H. unfold trust_choice_point in H.
  apply bind_Ok in H as (d & Hd & (w2 & H2 & (w3 & H3 & H)%bind_Ok)%bind_Ok).
  destruct (current_choice SV w1 d P S Hd) as (Hh & Ht & Ha & Hl).
  destruct (frame_at w1 d (st_intact _ _ _ S) Eb Hd) as [bp ->].
  destruct (restore_protected SV w1 _ w2 P Ha H2) as (P2 & Ee & Ef & Eb2).
  destruct (undo_restored w1 bp w2 w2 w3 P Hl H2 P2 ltac:(by split) H3) as [R Rb].
  destruct (set_hb_of_regs _ _ _ H) as [E1 _]. split; [|by rewrite E1; cbn; rewrite Hchoice].
  unfold set_hb_of in H. destruct (_ =? _); [injection H as <-; by destruct R|].
  apply bind_Ok in H as (d & _ & H). injection H as <-. by destruct R.
Qed.

End restore.

(** A state without watched references. *)
Definition unwatched (t : Z) : bool := negb (bool_decide (cell_tag t = RFW)).
Definition all_unwatched (w : wam) : bool :=
  forallb unwatched ((map_to_list (w_a w)).*2 ++ (map_to_list (w_x w)).*2 ++ (map_to_list (w_words w)).*2 ++
    (map_to_list (h_cells (w_heap w))).*2).

Lemma in_values `{Countable K} (m : gmap K Z) i t : m !! i = Some t -> In t (map_to_list m).*2.
Proof. intros E. apply list_elem_of_In, list_elem_of_fmap. exists (i, t). split; [done|by apply elem_of_map_to_list]. Qed.

Lemma unwatched_fresh w : all_unwatched w = true -> watches_fresh w.
Proof.
  intros H t Ht Hr. unfold all_unwatched in H. rewrite !forallb_app, !andb_true_iff, !forallb_forall in H.
  destruct H as (Ha & Hx & Hw & Hc).
  assert (unwatched t = true) as Hu; [|unfold unwatched in Hu; rewrite Hr in Hu; done].
  destruct Ht as [[i E]|[[i E]|[[i E]|[i E]]]].
  - by apply Ha, (in_values _ i).
  - by apply Hx, (in_values _ i).
  - by apply Hw, (in_values _ i).
  - by apply Hc, (in_values _ i).
Qed.

Definition trail_reaches (w : wam) : bool :=
  match get_choice w (w_b w) with Ok d => (ch_tr d <=? trail_size (w_env w))%nat | Throw _ => true end.

Lemma steady_check b ch bp w :
  (h_size (w_heap w) <=? STACK_BASE) = true -> (b <=? w_b w) = true ->
  w_frames w !! b = Some (FChoice (with_bp ch bp)) -> all_unwatched w = true -> trail_reaches w = true ->
  steady b ch w.
Proof.
  intros H1%Z.leb_le H2%Z.leb_le H3 H4 H5. split; [done|split; [done|by exists bp]|by apply unwatched_fresh|].
  intros d Hd. unfold trail_reaches in H5. rewrite Hd in H5. by apply Nat.leb_le.
Qed.

(** ** The theorems *)

Section theorems.
Context (import_bits : list Z -> Z) (fuel : nat) (c : code).
Context (w w1 w2 : wam) (u : bool) (L : code_point) (ch : choice_point).

(** A choice point made in [w], with [w2] reached from there. *)
Record chosen : Prop := Chosen {
  cn_ok : wam_ok w;
  cn_small : small w;
  cn_builtins : forall SV, code_keeps c SV;
  cn_made : allocate_choice_point w (num_y c w u) L = Ok w1;
  cn_choice : get_choice w1 (w_b w1) = Ok ch;
  cn_steady : steady (w_b w1) ch w1;
  cn_run : run import_bits fuel c (w_b w1) ch w1 w2;
  cn_current : w_b w2 = w_b w1
}.

Lemma run_steady : chosen -> steady (w_b w1) ch w2.
Proof. intros H. destruct (cn_run H); [apply H|done]. Qed.

(** C11: retrying a choice point after a run over it restores the argument registers, the
    environment, the continuation, the trail, the size of the heap and every cell that was
    in the heap when it was made, a variable up to its watch bit; it stays the current
    choice point and new cells are not trailed.  The run is of any instructions and any
    built-ins that keep choice points ([code_keeps]), as long as all its states are
    [steady]: the heap is below the stack and the watched references in registers, stack
    and heap are still unbound. *)
Theorem retry_restores p w' :
  chosen -> retry_choice_point w2 p = Ok w' ->
  restored w w' /\ w_b w' = w_b w1 /\ e_hb (w_env w') = h_size (w_heap w').
Proof.
  intros Hn H. pose proof (run_steady Hn) as S. destruct Hn as [W Sm Hc H1 Hch S1 Hr Eb].
  destruct (fresh_choice c w u L w1 ch W Sm H1 Hch) as (SV & L1 & E1 & -> & Ec & Et & args & Ha & Ech).
  rewrite E1 in *. eapply (retry_restored SV); [exact Ha|exact Ech|exact Ec|exact Et| |exact S|exact Eb|exact H].
  eapply run_protected; [apply Hc|apply L1|exact Hr].
Qed.

(** C12: trusting a choice point after such a run over it restores the same (registers,
    environment, continuation, trail, heap size, cells up to the watch bit of variables), and
    the choice point before it becomes the current one. *)
Theorem trust_restores w' :
  chosen -> trust_choice_point w2 = Ok w' -> restored w w' /\ w_b w' = w_b w.
Proof.
  intros Hn H. pose proof (run_steady Hn) as S. destruct Hn as [W Sm Hc H1 Hch S1 Hr Eb].
  destruct (fresh_choice c w u L w1 ch W Sm H1 Hch) as (SV & L1 & E1 & -> & Ec & Et & args & Ha & Ech).
  rewrite E1 in *. eapply (trust_restored SV); [exact Ha|exact Ech|exact Ec|exact Et| |exact S|exact Eb|exact H].
  eapply run_protected; [apply Hc|apply L1|exact Hr].
Qed.

End theorems.

(** ** An example *)

Module Example.

Definition atom_a : Z := con_cell_index 1 0.
Definition atom_b : Z := con_cell_index 2 0.
Definition digits (bs : list Z) : Z := foldl (fun v b => 256 * v + b) 0 bs.

(** Binds [X], makes [Z], and leaves another choice point behind. *)
Definition prog : code := Code {[
  0 := GET_CONSTANT atom_a 0;
  4 := PUT_VARIABLE_X 0 1;
  7 := TRY_ME_ELSE code_fail;
  12 := GET_CONSTANT atom_b 1;
  16 := TRUST_ME ]} [] ∅.

(** [p(X, Y)] *)
Definition start : wam :=
  Wam (TermEnv (Heap {[0 := ref_cell 0; 1 := ref_cell 1]} 2 1 [] true ∅ ∅) [] [] [] 0)
    (code_of_offset 0) (code_of_term EMPTY_LIST) 0 ENV_NAIVE 0 0
    {[0%nat := ref_cell 0; 1%nat := ref_cell 1]} 2 ∅ 0 WRITE 0 (0, 0) ∅ ∅ ∅ false false false 0
    (TopLevel 0 0 0 0 1000 0 false).

Definition first : wam :=
  match allocate_choice_point start (num_y prog start true) code_fail with Ok w => w | Throw _ => start end.
Definition state (n : nat) : wam :=
  Nat.iter n (fun w => match step digits 10 prog w with Ok w => w | Throw _ => w end) first.
Definition chosen_point : choice_point :=
  ChoicePoint 0 ENV_NAIVE (code_of_term EMPTY_LIST) 0 code_fail 0 2 0 0 (0, 0) [ref_cell 0; ref_cell 1] [].

Lemma start_ok : wam_ok start.
Proof. apply wam_check_ok. vm_compute. reflexivity. Qed.

Lemma prog_keeps SV : code_keeps prog SV.
Proof.
  intros o i H. cbn in H. repeat (apply lookup_insert_Some in H as [[_ <-]|[_ H]]; [done|]).
  apply lookup_singleton_Some in H as [_ <-]. done.
Qed.

Lemma state_steady n : (n <= 5)%nat -> steady STACK_BASE chosen_point (state n).
Proof.
  intros Hn. assert (n = 0 \/ n = 1 \/ n = 2 \/ n = 3 \/ n = 4 \/ n = 5)%nat as Hk by lia.
  destruct Hk as [-> |[-> |[-> |[-> |[-> | ->]]]]].
  all: apply (steady_check _ _ code_fail); vm_compute; reflexivity.
Qed.

Lemma state_run : run digits 10 prog STACK_BASE chosen_point first (state 5).
Proof.
  assert (forall n, (n <= 5)%nat -> run digits 10 prog STACK_BASE chosen_point first (state n)) as H; [|by apply H].
  induction n as [|n IH]; intros Hn; [by apply run_start|].
  eapply run_step; [apply IH; lia|apply state_steady; lia| |apply state_steady; lia].
  assert (n = 0 \/ n = 1 \/ n = 2 \/ n = 3 \/ n = 4)%nat as Hk by lia.
  by destruct Hk as [-> |[-> |[-> |[-> | ->]]]]; vm_compute.
Qed.

Lemma state_chosen : chosen digits 10 prog start first (state 5) true code_fail chosen_point.
Proof.
  split; [apply start_ok|by vm_compute|apply prog_keeps|by vm_compute|by vm_compute| |apply state_run|by vm_compute].
  by apply (state_steady 0); lia.
Qed.

Definition retried : wam :=
  match retry_choice_point (state 5) code_fail with Ok w => w | Throw _ => start end.
Definition trusted : wam :=
  match trust_choice_point (state 5) with Ok w => w | Throw _ => start end.

End Example.

Lemma retry_restores_witness :
  h_cells (w_heap (Example.state 5)) !! 0 = Some Example.atom_a /\ e_trail (w_env (Example.state 5)) = [0] /\
  restored Example.start Example.retried /\ w_b Example.retried = w_b Example.first /\
  e_hb (w_env Example.retried) = h_size (w_heap Example.retried).
Proof.
  split; [by vm_compute|]. split; [by vm_compute|].
  refine (retry_restores Example.digits 10 Example.prog Example.start Example.first (Example.state 5) true code_fail
    Example.chosen_point code_fail Example.retried Example.state_chosen _).
  vm_compute. reflexivity.
Defined.

Lemma trust_restores_witness : restored Example.start Example.trusted /\ w_b Example.trusted = 0.
Proof.
  refine (trust_restores Example.digits 10 Example.prog Example.start Example.first (Example.state 5) true code_fail
    Example.chosen_point Example.trusted Example.state_chosen _).
  vm_compute. reflexivity.
Defined.
