(* ===== verification/WamBugs.v ===== *)
(** * What the model of the machine showed

    Closed runs of the instructions whose effect is not the intended one.  Each states what
    the code does. *)

From S2P Require Import Prelude Cells Heap Bigs TermEnv Machine Wam.

Definition digits (bs : list Z) : Z := foldl (fun v b => 256 * v + b) 0 bs.
Definition atom_a : Z := con_cell_index 1 0.
Definition atom_b : Z := con_cell_index 2 0.
Definition fn_1 : Z := con_cell_index 3 1.

(** A machine over the cells [m] with the arguments [args]. *)
Definition machine (m : gmap Z Z) (n : Z) (args : list Z) : wam :=
  Wam (TermEnv (Heap m n 1 [] true ∅ ∅) [] [] [] 0)
    (code_of_offset 0) (code_of_term EMPTY_LIST) 0 ENV_NAIVE 0 0
    (list_to_map (zip (seq 0 (length args)) args)) (length args) ∅ 0 WRITE 0 (0, 0) ∅ ∅ ∅ false false false 0
    (TopLevel 0 0 0 0 1000 0 false).

Fixpoint steps (c : code) (n : nat) (w : wam) : res wam :=
  match n with O => Ok w | S n => w ← step digits 20 c w; steps c n w end.

(** A predicate that fails. *)
Definition fail_0 : builtin_fn := fun w _ _ => Ok (w, false).

(** ** The READ case of [unify_constant] goes on into the WRITE case *)

(** [f(a)] against the head [f(a)] *)
Definition match_code : code := Code {[ 0 := GET_STRUCTURE_A fn_1 0; 4 := UNIFY_CONSTANT atom_a ]} [] ∅.

Theorem unify_constant_read_allocates :
  exists w, steps match_code 2 (machine {[0 := fn_1; 1 := atom_a]} 2 [mk_cell STR 0]) = Ok w /\
    w_mode w = READ /\ w_b w = 0 /\ w_top_fail w = false /\ h_size (w_heap w) = 3 /\
    h_cells (w_heap w) !! 2 = Some atom_a.
Proof. eexists. split; [vm_compute; reflexivity|]. by vm_compute. Qed.

(** ** [deref] does not follow watched references *)

(** [f(X)] with a frozen goal on [X]; the head reads [X] and matches it against [a], then
    against [b]. *)
Definition rebind_code : code := Code {[
  0 := GET_STRUCTURE_A fn_1 0;
  4 := UNIFY_VARIABLE_X 0;
  7 := PUT_VALUE_X 0 0;
  10 := GET_CONSTANT atom_a 0;
  14 := PUT_VALUE_X 0 1;
  17 := GET_CONSTANT atom_b 1 ]} [] ∅.

(** the head matches [a] and then [b] against the same variable and succeeds: the
    cell of the variable holds [a], then [b]. *)
Theorem watched_variable_rebound :
  exists w1 w2, steps rebind_code 4 (machine {[0 := fn_1; 1 := mk_cell RFW 1]} 2 [mk_cell STR 0]) = Ok w1 /\
    h_cells (w_heap w1) !! 1 = Some atom_a /\ steps rebind_code 2 w1 = Ok w2 /\ w_top_fail w2 = false /\
    h_cells (w_heap w2) !! 1 = Some atom_b.
Proof.
  eexists _, _. split; [vm_compute; reflexivity|]. split; [by vm_compute|]. split; [vm_compute; reflexivity|].
  by vm_compute.
Qed.

(** ** [deref_stack] does not end at a bound variable of the heap *)

(** A variable of the stack bound to a variable of the heap that is bound to [a]. *)
Definition stack_variable : wam :=
  put_word (machine {[0 := atom_a]} 1 []) STACK_BASE (ref_cell 0).

Theorem deref_stack_diverges fuel : deref fuel stack_variable (ref_cell STACK_BASE) = Throw OutOfFuel.
Proof.
  assert (deref_stack fuel stack_variable (ref_cell STACK_BASE) = Throw OutOfFuel) as H.
  { unfold deref_stack. change (get_word stack_variable (ptr_index (ref_cell STACK_BASE))) with (Ok (ref_cell 0)).
    rewrite Ok_bind. by induction fuel as [|n IH]. }
  unfold deref. change (bool_decide (cell_tag (ref_cell STACK_BASE) = REF)) with true.
  change (is_stack (ptr_index (ref_cell STACK_BASE))) with true. by rewrite H.
Qed.

(** ** Retrying does not restore the number of arguments *)

(** [p(X, Y) :- q, fail.] followed by clauses behind a second index: the inner choice point
    saves as many arguments as the last call had. *)
Definition index_code : code := Code {[
  0 := TRY_ME_ELSE (code_of_offset 10);
  5 := BUILTIN (con_cell_index 4 0) fail_0;
  10 := TRUST_ME;
  12 := TRY (code_of_offset 22);
  17 := TRUST (code_of_offset 40);
  22 := PUT_CONSTANT atom_b 1;
  26 := BUILTIN (con_cell_index 4 0) fail_0 ]} [] ∅.

(** the last clause starts with the second argument register as the clause before left
    it, not as it was when the predicate was called. *)
Theorem retry_loses_arguments :
  exists w, steps index_code 7 (machine ∅ 0 [atom_a; atom_a]) = Ok w /\
    cp_code (w_p w) = Some 40 /\ w_a w !! 1%nat = Some atom_b.
Proof. eexists. split; [vm_compute; reflexivity|]. by vm_compute. Qed.

(** ** A frozen goal is gone after backtracking *)

(** [X] has a frozen goal.  A clause binds it, which calls the goal; the next clause finds
    [X] unbound again and binds it. *)
Definition true_0 : builtin_fn := fun w _ _ => Ok (w, true).
Definition frozen_code : code := Code {[
  0 := TRY_ME_ELSE (code_of_offset 20);
  5 := GET_CONSTANT atom_a 0;
  9 := BUILTIN (con_cell_index 4 0) true_0;
  20 := TRUST_ME;
  22 := GET_CONSTANT atom_b 0;
  26 := BUILTIN (con_cell_index 4 0) true_0 ]} [(0, (0, 0))] ∅.
Definition goal : Z := mk_cell STR 1.
Definition frozen_start : wam :=
  let w := machine {[0 := mk_cell RFW 0; 1 := con_cell_index 5 2; 2 := atom_a; 3 := atom_a]} 4 [ref_cell 0] in
  set_num_of_args (set_closures w {[0 := goal]}) 1.

Theorem frozen_goal_lost :
  exists w1 w2 w3, steps frozen_code 3 frozen_start = Ok w1 /\ cp_term (w_p w1) = goal /\
    backtrack w1 = Ok w2 /\ steps frozen_code 3 w2 = Ok w3 /\
    h_cells (w_heap w3) !! 0 = Some atom_b /\ cp_code (w_p w3) = Some 31 /\ get_frozen_closure w3 0 = EMPTY_LIST.
Proof.
  eexists _, _, _. split; [vm_compute; reflexivity|]. split; [by vm_compute|]. split; [vm_compute; reflexivity|].
  split; [vm_compute; reflexivity|]. by vm_compute.
Qed.
