(* ===== verification/Arith.v ===== *)
(** * Arithmetic ([src/src/interp/arithmetics.cpp], and its callers in
    [src/src/interp/builtins.cpp])

    [eval] computes an expression on the heap with two stacks: the terms still to
    visit, each with a mark that tells a function to apply from a term to take
    apart, on the stack of the interpreter, and the values found on [args_].  It is
    proved equal to the recursive evaluation of the expression a term denotes. *)

From S2P Require Import Prelude Cells Heap Bigs TermEnv.

(** ** The functions *)

(** [int_cell::operator *] on 64-bit signed values, where an overflow is undefined. *)
Definition int_mul (a b : Z) : res Z :=
  let v := int_value a * int_value b in
  _ ← require ((- 2 ^ 63 <=? v) && (v <? 2 ^ 63)) UndefinedBehaviour;
  Ok (int_cell v).
Definition int_div (a b : Z) : Z := int_cell (int_value a ÷ int_value b).
Definition int_is_zero (c : Z) : bool := int_value c =? 0.
Definition int_is_negative (c : Z) : bool := int_value c <? 0.
Definition int_dec (c : Z) : Z := set_value c (int_value c - 1).

Definition plus_2 (a b : Z) : res Z := Ok (int_add a b).
Definition minus_2 (a b : Z) : res Z := Ok (int_sub a b).
Definition times_2 (a b : Z) : res Z := int_mul a b.
Definition div0_2 (a b : Z) : res Z :=
  _ ← require (negb (int_is_zero b)) DivisionByZero;
  s ← int_mul (int_sign a) (int_sign b);
  int_mul s (int_div (int_abs a) (int_abs b)).
Definition rem_2 (a b : Z) : res Z :=
  _ ← require (negb (int_is_zero b)) DivisionByZero;
  int_mul (int_cell (Z.rem (int_value (int_abs a)) (int_value (int_abs b)))) (int_sign a).
Definition div_2 (a b : Z) : res Z :=
  _ ← require (negb (int_is_zero b)) DivisionByZero;
  d ← div0_2 a b;
  r ← rem_2 a b;
  Ok (if int_is_negative r then int_dec d else d).
Definition mod_2 (a b : Z) : res Z :=
  _ ← require (negb (int_is_zero b)) DivisionByZero;
  if int_is_negative a then
    if int_is_negative b then rem_2 a b
    else r ← rem_2 a b; Ok (if int_is_zero r then r else int_add r b)
  else
    if int_is_negative b then r ← rem_2 a b; Ok (if int_is_zero r then r else int_add r b)
    else rem_2 a b.
Definition max_2 (a b : Z) : res Z := Ok (int_cell (Z.max (int_value a) (int_value b))).
Definition min_2 (a b : Z) : res Z := Ok (int_cell (Z.min (int_value a) (int_value b))).

(** [load_fns], [lookup] *)
Definition fn_map : list (Z * (Z -> Z -> res Z)) :=
  [(con_constant [43] 2, plus_2);                (* + *)
   (con_constant [45] 2, minus_2);               (* - *)
   (con_constant [42] 2, times_2);               (* * *)
   (con_constant [109; 111; 100] 2, mod_2);      (* mod *)
   (con_constant [114; 101; 109] 2, rem_2);      (* rem *)
   (con_constant [100; 105; 118] 2, div_2);      (* div *)
   (con_constant [47; 47] 2, div0_2);            (* // *)
   (con_constant [109; 97; 120] 2, max_2);       (* max *)
   (con_constant [109; 105; 110] 2, min_2)].     (* min *)
Definition lookup_fn (f : Z) : option (Z -> Z -> res Z) :=
  snd <$> List.find (fun p => p.1 =? f) fn_map.

(** ** Evaluation *)

(** A function is called with a pointer to its arguments, the last [arity] elements
    of [args_], whose back is the head of the list. *)
Definition apply_fn (f : Z) (args : list Z) : res (Z * list Z) :=
  fn ← of_option (lookup_fn f) (UndefinedFunction f);
  let arity := Z.to_nat (con_arity f) in
  match rev (take arity args) with
  | a :: b :: _ => r ← fn a b; Ok (r, drop arity args)
  | _ => Throw UndefinedBehaviour
  end.

(** [push(arg(t, n - i - 1)); push(int_cell(0))] for [i] from 0 on. *)
Fixpoint push_exprs (n : nat) (e : term_env) (t : Z) : res term_env :=
  match n with
  | O => Ok e
  | S n => a ← arg (e_heap e) t (Z.of_nat n); push_exprs n (push (push e a) (int_cell 0)) t
  end.

Definition eval_step (e : term_env) (args : list Z) (result : Z) : res (term_env * list Z * Z) :=
  '(visited, e) ← pop e;
  '(t, e) ← pop e;
  if bool_decide (cell_tag t = INT) || bool_decide (cell_tag t = BIG) then Ok (e, t :: args, result)
  else if negb (int_value visited =? 0) then
    '(result, args) ← apply_fn t args;
    Ok (push (push e result) (int_cell 1), args, result)
  else
    match cell_tag t with
    | CON | STR =>
        f ← functor (e_heap e) t;
        e ← push_exprs (Z.to_nat (con_arity f)) (push (push e f) (int_cell 1)) t;
        Ok (e, args, result)
    | REF | RFW => Throw NotInstantiated
    | _ => Ok (e, args, result)
    end.

Fixpoint eval_loop (fuel : nat) (d : nat) (e : term_env) (args : list Z) (result : Z)
    : res (term_env * Z) :=
  if (d <? stack_size e)%nat then
    match fuel with
    | O => Throw OutOfFuel
    | S fuel =>
        '(e, args, result) ← eval_step e args result;
        eval_loop fuel d e args result
    end
  else Ok (e, result).
(** [args] is what an earlier call left in [args_]. *)
Definition eval (fuel : nat) (e : term_env) (args : list Z) (expr : Z) : res (term_env * Z) :=
  eval_loop fuel (stack_size e) (push (push e expr) (int_cell 0)) args expr.

(** ** The predicates [is/2], [>=/2], [=</2], [>/2] and [</2] *)

Section builtins.
Context (import_bits : list Z -> Z).

Definition is_2 (fuel : nat) (e : term_env) (args : list Z) (lhs rhs : Z) : res (term_env * bool) :=
  '(e, result) ← eval fuel e args rhs;
  '(e, ok, _) ← unify import_bits fuel e lhs result;
  Ok (e, ok).

(** The order of the values of two expressions. *)
Definition compare_values (fuel : nat) (e : term_env) (args : list Z) (lhs rhs : Z) : res (term_env * Z) :=
  '(e, result_lhs) ← eval fuel e args lhs;
  '(e, result_rhs) ← eval fuel e [] rhs;
  '(e, v, _) ← standard_order fuel e result_lhs result_rhs;
  Ok (e, v).
Definition greater_than_equals_2 fuel e args lhs rhs : res (term_env * bool) :=
  '(e, v) ← compare_values fuel e args lhs rhs; Ok (e, 0 <=? v).
Definition less_than_equals_2 fuel e args lhs rhs : res (term_env * bool) :=
  '(e, v) ← compare_values fuel e args lhs rhs; Ok (e, v <=? 0).
Definition greater_than_2 fuel e args lhs rhs : res (term_env * bool) :=
  '(e, v) ← compare_values fuel e args lhs rhs; Ok (e, 0 <? v).
Definition less_than_2 fuel e args lhs rhs : res (term_env * bool) :=
  '(e, v) ← compare_values fuel e args lhs rhs; Ok (e, v <? 0).

End builtins.

(** ** What the functions compute *)

Lemma int_cell_tag v : cell_tag (int_cell v) = INT.
Proof. apply cell_tag_mk. Qed.

Lemma int_range_numbers c : - 2 ^ 60 <= int_value c <= 2 ^ 60 - 1.
Proof. apply int_value_range. Qed.

Lemma int_mul_small a b :
  int_min <= int_value a * int_value b <= int_max -> int_mul a b = Ok (int_cell (int_value a * int_value b)).
Proof.
  change int_min with (- 2 ^ 60). change int_max with (2 ^ 60 - 1). intros H. unfold int_mul.
  rewrite (proj2 (Z.leb_le _ _)), (proj2 (Z.ltb_lt _ _)) by lia. done.
Qed.

Lemma int_value_sign a : int_value (int_sign a) = if int_value a <? 0 then -1 else 1.
Proof. unfold int_sign. destruct (_ <? _); by vm_compute. Qed.

Lemma int_value_dec a : cell_tag a = INT -> is_word 64 a -> int_value (int_dec a) = sgn 61 (int_value a - 1).
Proof.
  intros Ht Ha. unfold int_dec. rewrite <-(cell_tag_value a) at 1 by done.
  rewrite Ht, set_value_mk. apply int_value_cell.
Qed.

Section functions.
Context (a b : Z).
Let x := int_value a.
Let y := int_value b.
Hypothesis Hx : int_min < x.
Hypothesis Hy : int_min < y.

Lemma abs_exact c : int_min < int_value c -> int_value (int_abs c) = Z.abs (int_value c).
Proof.
  intros Hc. pose proof (int_range_numbers c) as Hr. change int_min with (- 2 ^ 60) in Hc.
  unfold int_abs, int_negate. destruct (Z.ltb_spec (int_value c) 0); [|lia].
  rewrite int_value_cell_id; unfold saturate; change int_min with (- 2 ^ 60); change int_max with (2 ^ 60 - 1);
    destruct (Z.ltb_spec (- int_value c) (- 2 ^ 60)), (Z.ltb_spec (2 ^ 60 - 1) (- int_value c)); lia.
Qed.

Lemma zero_test : int_is_zero b = (y =? 0).
Proof. done. Qed.

Lemma quot_signs : y <> 0 -> (if x <? 0 then -1 else 1) * (if y <? 0 then -1 else 1) * (Z.abs x ÷ Z.abs y) = x ÷ y.
Proof.
  intros H. destruct (Z.ltb_spec x 0), (Z.ltb_spec y 0).
  - rewrite !Z.abs_neq, Z.quot_opp_opp by lia. lia.
  - rewrite Z.abs_neq, Z.abs_eq, Z.quot_opp_l by lia. lia.
  - rewrite Z.abs_eq, Z.abs_neq, Z.quot_opp_r by lia. lia.
  - rewrite !Z.abs_eq by lia. lia.
Qed.

Lemma rem_signs : y <> 0 -> Z.rem (Z.abs x) (Z.abs y) * (if x <? 0 then -1 else 1) = Z.rem x y.
Proof.
  intros H. destruct (Z.ltb_spec x 0), (Z.ltb_spec y 0).
  - rewrite !Z.abs_neq, Z.rem_opp_opp by lia. lia.
  - rewrite Z.abs_neq, Z.abs_eq, Z.rem_opp_l by lia. lia.
  - rewrite Z.abs_eq, Z.abs_neq, Z.rem_opp_r by lia. lia.
  - rewrite !Z.abs_eq by lia. lia.
Qed.

Lemma quot_range : y <> 0 -> - 2 ^ 60 < x ÷ y < 2 ^ 60 /\ 0 <= Z.abs x ÷ Z.abs y <= 2 ^ 60 - 1.
Proof.
  intros H. pose proof (int_range_numbers a) as Ha. fold x in Ha. change int_min with (- 2 ^ 60) in Hx.
  assert (Hb : 0 <= Z.abs x ÷ Z.abs y <= Z.abs x).
  { split; [apply Z.quot_pos; lia|]. apply Z.quot_le_upper_bound; nia. }
  rewrite <-quot_signs by done. destruct (x <? 0), (y <? 0); lia.
Qed.

Lemma rem_range : y <> 0 -> Z.abs (Z.rem x y) <= 2 ^ 60 - 1.
Proof.
  intros H. pose proof (int_range_numbers b) as Hb. fold y in Hb. change int_min with (- 2 ^ 60) in Hy.
  pose proof (Z.rem_bound_abs x y H). lia.
Qed.

Lemma div0_exact : y <> 0 -> div0_2 a b = Ok (int_cell (x ÷ y)).
Proof.
  intros H. unfold div0_2. rewrite zero_test, (proj2 (Z.eqb_neq y 0)) by done. cbn [negb require mbind res_bind].
  rewrite int_mul_small, Ok_bind by (rewrite !int_value_sign; by repeat destruct (_ <? _)).
  destruct (quot_range H) as [H1 H2].
  assert (Hs : int_value (int_cell (int_value (int_sign a) * int_value (int_sign b)))
             = int_value (int_sign a) * int_value (int_sign b)).
  { apply int_value_cell_id. rewrite !int_value_sign. by repeat destruct (_ <? _). }
  assert (Hd : int_value (int_div (int_abs a) (int_abs b)) = Z.abs x ÷ Z.abs y).
  { unfold int_div. rewrite !abs_exact by done. apply int_value_cell_id.
    change int_min with (- 2 ^ 60). change int_max with (2 ^ 60 - 1). lia. }
  assert (Hp : int_value (int_cell (int_value (int_sign a) * int_value (int_sign b)))
             * int_value (int_div (int_abs a) (int_abs b)) = x ÷ y).
  { rewrite Hs, Hd, !int_value_sign. apply quot_signs. done. }
  rewrite int_mul_small by (rewrite Hp; change int_min with (- 2 ^ 60); change int_max with (2 ^ 60 - 1); lia).
  by rewrite Hp.
Qed.

Lemma rem_exact : y <> 0 -> rem_2 a b = Ok (int_cell (Z.rem x y)).
Proof.
  intros H. unfold rem_2. rewrite zero_test, (proj2 (Z.eqb_neq y 0)) by done. cbn [negb require mbind res_bind].
  pose proof (rem_range H) as Hr. rewrite !abs_exact by done. fold x y.
  assert (Hv : int_value (int_cell (Z.rem (Z.abs x) (Z.abs y))) = Z.rem (Z.abs x) (Z.abs y)).
  { apply int_value_cell_id. change int_min with (- 2 ^ 60). change int_max with (2 ^ 60 - 1).
    pose proof (rem_signs H) as Hs. destruct (x <? 0); lia. }
  assert (Hp : int_value (int_cell (Z.rem (Z.abs x) (Z.abs y))) * int_value (int_sign a) = Z.rem x y).
  { rewrite Hv, int_value_sign. by apply rem_signs. }
  rewrite int_mul_small by (rewrite Hp; change int_min with (- 2 ^ 60); change int_max with (2 ^ 60 - 1); lia).
  by rewrite Hp.
Qed.

Lemma rem_value : y <> 0 -> int_value (int_cell (Z.rem x y)) = Z.rem x y.
Proof.
  intros H. pose proof (rem_range H). apply int_value_cell_id.
  change int_min with (- 2 ^ 60). change int_max with (2 ^ 60 - 1). lia.
Qed.

(** The remainder brought to the sign of the divisor. *)
Lemma mod_of_rem : y <> 0 ->
  x mod y = if Z.rem x y =? 0 then 0 else if eqb (x <? 0) (y <? 0) then Z.rem x y else Z.rem x y + y.
Proof.
  intros H. pose proof (Z.quot_rem x y H) as Hq.
  pose proof (Z.rem_bound_abs x y H) as Hb.
  pose proof (Z.rem_sign_mul x y H) as Hs.
  destruct (Z.eqb_spec (Z.rem x y) 0) as [He|He].
  - symmetry. apply (Z.mod_unique x y (x ÷ y)); lia.
  - destruct (Z.ltb_spec x 0) as [Hn|Hn].
    + assert (Z.rem x y < 0) by nia.
      destruct (Z.ltb_spec y 0); cbn [eqb]; symmetry;
        [apply (Z.mod_unique x y (x ÷ y)); lia|apply (Z.mod_unique x y (x ÷ y - 1)); lia].
    + assert (0 < Z.rem x y) by (assert (x <> 0) by (intros ->; by rewrite Z.rem_0_l in He by done); nia).
      destruct (Z.ltb_spec y 0); cbn [eqb]; symmetry;
        [apply (Z.mod_unique x y (x ÷ y - 1)); lia|apply (Z.mod_unique x y (x ÷ y)); lia].
Qed.

Lemma mod_exact : y <> 0 -> mod_2 a b = Ok (int_cell (x mod y)).
Proof.
  intros H. unfold mod_2. rewrite zero_test, (proj2 (Z.eqb_neq y 0)) by done. cbn [negb require mbind res_bind].
  unfold int_is_negative. fold x y. rewrite rem_exact, mod_of_rem by done. rewrite ?Ok_bind.
  unfold int_is_zero. rewrite rem_value by done. unfold int_add. rewrite rem_value by done. fold y.
  destruct (Z.eqb_spec (Z.rem x y) 0) as [->|]; by destruct (x <? 0), (y <? 0).
Qed.

Lemma div_exact : y <> 0 ->
  int_value <$> div_2 a b = Ok (if Z.rem x y <? 0 then x ÷ y - 1 else x ÷ y).
Proof.
  intros H. unfold div_2. rewrite zero_test, (proj2 (Z.eqb_neq y 0)) by done. cbn [negb require mbind res_bind].
  rewrite div0_exact, rem_exact by done. rewrite !Ok_bind. unfold int_is_negative. rewrite rem_value by done.
  destruct (quot_range H) as [Hq _].
  assert (Hv : int_value (int_cell (x ÷ y)) = x ÷ y).
  { apply int_value_cell_id. change int_min with (- 2 ^ 60). change int_max with (2 ^ 60 - 1). lia. }
  destruct (Z.rem x y <? 0); cbn [fmap res_fmap]; f_equal; [|done].
  rewrite int_value_dec by (apply int_cell_tag || apply mk_cell_word). rewrite Hv.
  apply sgn_id; [lia|]. change (61 - 1) with 60. lia.
Qed.

(** For positive divisors that is the floor of the quotient. *)
Lemma floor_of_quot : 0 < y -> (if Z.rem x y <? 0 then x ÷ y - 1 else x ÷ y) = x / y.
Proof.
  intros H. pose proof (Z.quot_rem x y ltac:(lia)) as Hq. pose proof (Z.rem_bound_abs x y ltac:(lia)) as Hb.
  destruct (Z.ltb_spec (Z.rem x y) 0).
  - apply (Z.div_unique x y (x ÷ y - 1) (Z.rem x y + y)); lia.
  - apply (Z.div_unique x y (x ÷ y) (Z.rem x y)); lia.
Qed.

End functions.

(** C26: The arithmetic functions on 61-bit integers.  Sum and difference wrap around; a
    product that overflows 64 bits is undefined, any other is cut to 61 bits.  Division
    by zero throws.  Apart from the least integer, whose absolute value saturates, [//]
    and [rem] truncate, [mod] is the floored modulus, and [div] subtracts one from the
    truncated quotient when the remainder is negative: the floored quotient for positive
    divisors, but not for negative ones. *)
Theorem arith_functions a b :
  let x := int_value a in
  let y := int_value b in
  int_value <$> plus_2 a b = Ok (sgn 61 (x + y)) /\ int_value <$> minus_2 a b = Ok (sgn 61 (x - y)) /\
  (- 2 ^ 63 <= x * y < 2 ^ 63 -> int_value <$> times_2 a b = Ok (sgn 61 (x * y))) /\
  int_value <$> max_2 a b = Ok (Z.max x y) /\ int_value <$> min_2 a b = Ok (Z.min x y) /\
  (y = 0 -> Forall (fun f : Z -> Z -> res Z => f a b = Throw DivisionByZero) [div0_2; rem_2; div_2; mod_2]) /\
  (y <> 0 -> int_min < x -> int_min < y ->
     int_value <$> div0_2 a b = Ok (x ÷ y) /\ int_value <$> rem_2 a b = Ok (Z.rem x y) /\
     int_value <$> mod_2 a b = Ok (x mod y) /\
     int_value <$> div_2 a b = Ok (if (y <? 0) && (Z.rem x y <? 0) then x ÷ y - 1 else
                                   if y <? 0 then x ÷ y else x / y)).
Proof.
  pose proof (int_range_numbers a) as Ha. pose proof (int_range_numbers b) as Hb. intros x y. fold x y in Ha, Hb.
  split; [cbn; f_equal; apply int_value_cell|]. split; [cbn; f_equal; apply int_value_cell|].
  split. { intros H. unfold times_2, int_mul. fold x y.
    rewrite (proj2 (Z.leb_le _ _)), (proj2 (Z.ltb_lt _ _)) by lia. cbn. f_equal. apply int_value_cell. }
  change int_min with (- 2 ^ 60).
  split; [cbn; f_equal; apply int_value_cell_id; change int_min with (- 2 ^ 60); change int_max with (2 ^ 60 - 1); lia|].
  split; [cbn; f_equal; apply int_value_cell_id; change int_min with (- 2 ^ 60); change int_max with (2 ^ 60 - 1); lia|].
  split.
  { intros Hy. assert (Hz : int_is_zero b = true) by (unfold int_is_zero; fold y; by rewrite Hy).
    repeat constructor; unfold div0_2, rem_2, div_2, mod_2; by rewrite Hz. }
  intros Hy Hx Hm. rewrite div0_exact, rem_exact, mod_exact, div_exact by done. fold x y.
  pose proof (quot_range a b Hx Hy) as [Hq _]. fold x y in Hq.
  split_and!; cbn [fmap res_fmap]; f_equal.
  - apply int_value_cell_id. change int_min with (- 2 ^ 60). change int_max with (2 ^ 60 - 1). lia.
  - by apply rem_value.
  - apply int_value_cell_id. change int_min with (- 2 ^ 60). change int_max with (2 ^ 60 - 1).
    destruct (Z.ltb_spec y 0); [pose proof (Z.mod_neg_bound x y)|pose proof (Z.mod_pos_bound x y)]; lia.
  - destruct (Z.ltb_spec y 0); cbn [andb]; [done|]. apply (floor_of_quot a b). change (0 < y). lia.
Qed.

Lemma arith_functions_witness :
  let v n := int_cell n in
  int_value <$> times_2 (v 3) (v (-4)) = Ok (-12) /\ div_2 (v 1) (v 0) = Throw DivisionByZero /\
  int_value <$> mod_2 (v (-7)) (v 2) = Ok 1 /\ int_value <$> div_2 (v (-7)) (v 2) = Ok (-4) /\
  int_value <$> div_2 (v 7) (v (-2)) = Ok (-3).
Proof.
  destruct (arith_functions (int_cell 3) (int_cell (-4))) as (_ & _ & H1 & _).
  destruct (arith_functions (int_cell 1) (int_cell 0)) as (_ & _ & _ & _ & _ & H2 & _).
  destruct (arith_functions (int_cell (-7)) (int_cell 2)) as (_ & _ & _ & _ & _ & _ & H3).
  destruct (arith_functions (int_cell 7) (int_cell (-2))) as (_ & _ & _ & _ & _ & _ & H4).
  cbv zeta. split; [apply H1; by vm_compute|]. split.
  { specialize (H2 eq_refl). by repeat match goal with H : Forall _ (_ :: _) |- _ => inversion H; clear H; subst end. }
  destruct H3 as (_ & _ & H3 & H3'); [by vm_compute..|].
  destruct H4 as (_ & _ & _ & H4'); [by vm_compute..|]. done.
Defined.

(** ** Expressions *)

#[warnings="-register-all"] Inductive expr : Type :=
  | Num (c : Z)                    (* an integer *)
  | Unbound                        (* a variable *)
  | App (f : Z) (args : list expr).

Section expr_induction.
Context (P : expr -> Prop).
Hypothesis HNum : forall c, P (Num c).
Hypothesis HUnbound : P Unbound.
Hypothesis HApp : forall f l, Forall P l -> P (App f l).

Fixpoint expr_ind' (x : expr) : P x :=
  match x with
  | Num c => HNum c
  | Unbound => HUnbound
  | App f l => HApp f l ((fix go l : Forall P l :=
      match l with [] => @List.Forall_nil _ P | x :: l => @List.Forall_cons _ P x l (expr_ind' x) (go l) end) l)
  end.

End expr_induction.

(** What an expression is worth: arguments from left to right, then the function. *)
Fixpoint eval_expr (x : expr) : res Z :=
  match x with
  | Num c => Ok c
  | Unbound => Throw NotInstantiated
  | App f l =>
      vs ← mapM eval_expr l;
      fn ← of_option (lookup_fn f) (UndefinedFunction f);
      match vs with a :: b :: _ => fn a b | _ => Throw UndefinedBehaviour end
  end.

(** The iterations it takes. *)
Fixpoint steps (x : expr) : nat :=
  match x with
  | App _ l => 3 + sum_list_with steps l
  | _ => 1
  end.

Section denotes.
Context (h : heap).

(** The expression a term stands for. *)
Fixpoint denotes (x : expr) (c : Z) : Prop :=
  match x with
  | Num n => n = c /\ (cell_tag c = INT \/ cell_tag c = BIG)
  | Unbound => is_ref (cell_tag c) = true
  | App f l =>
      (cell_tag c = CON \/ cell_tag c = STR) /\ functor h c = Ok f /\ length l = Z.to_nat (con_arity f) /\
      (fix go (i : nat) (l : list expr) : Prop :=
         match l with
         | [] => True
         | x :: l => (exists a, arg h c (Z.of_nat i) = Ok a /\ denotes x a) /\ go (S i) l
         end) 0%nat l
  end.

(** The arguments as a list of cells. *)
Lemma denotes_args c i l :
  (fix go (i : nat) (l : list expr) : Prop :=
     match l with
     | [] => True
     | x :: l => (exists a, arg h c (Z.of_nat i) = Ok a /\ denotes x a) /\ go (S i) l
     end) i l ->
  exists args, Forall2 denotes l args /\ forall k a, args !! k = Some a -> arg h c (Z.of_nat (i + k)) = Ok a.
Proof.
  revert i. induction l as [|x l IH]; intros i.
  - intros _. exists []. split; [constructor|]. intros k a Hk. by rewrite lookup_nil in Hk.
  - intros [(a & Ha & Hx) Hl]. destruct (IH _ Hl) as (args & Hargs & Hk).
    exists (a :: args). split; [by constructor|]. intros [|k] a' Hlk; cbn in Hlk.
    + injection Hlk as <-. by rewrite Nat.add_0_r.
    + replace (i + S k)%nat with (S i + k)%nat by lia. by apply Hk.
Qed.

End denotes.

Lemma fn_map_spec f fn :
  lookup_fn f = Some fn ->
  con_arity f = 2 /\ fn ∈ [plus_2; minus_2; times_2; mod_2; rem_2; div_2; div0_2; max_2; min_2].
Proof.
  unfold lookup_fn. destruct (List.find _ _) as [[f' fn']|] eqn:Hf; [|done]. cbn. intros [= ->].
  apply List.find_some in Hf as [Hin He]. cbn in He. apply Z.eqb_eq in He as <-.
  apply list_elem_of_In in Hin. unfold fn_map in Hin.
  repeat (apply elem_of_cons in Hin as [Hin|Hin];
    [injection Hin as -> ->; split; [by vm_compute|]; rewrite !elem_of_cons; tauto|]).
  by apply not_elem_of_nil in Hin.
Qed.

Lemma int_mul_tag a b v : int_mul a b = Ok v -> cell_tag v = INT /\ is_word 64 v.
Proof.
  intros (u & _ & H)%bind_Ok. injection H as <-. split; [apply int_cell_tag|apply mk_cell_word].
Qed.

Lemma rem_tag a b v : rem_2 a b = Ok v -> cell_tag v = INT /\ is_word 64 v.
Proof. unfold rem_2. intros (u & _ & H)%bind_Ok. by eapply int_mul_tag. Qed.

Lemma div0_tag a b v : div0_2 a b = Ok v -> cell_tag v = INT /\ is_word 64 v.
Proof. unfold div0_2. intros (u & _ & (s & _ & H)%bind_Ok)%bind_Ok. by eapply int_mul_tag. Qed.

(** Results are integers. *)
Lemma fn_tag f fn a b v : lookup_fn f = Some fn -> fn a b = Ok v -> cell_tag v = INT /\ is_word 64 v.
Proof.
  intros [_ Hin]%fn_map_spec.
  assert (Hic : forall v, cell_tag (int_cell v) = INT /\ is_word 64 (int_cell v)).
  { intros. split; [apply int_cell_tag|apply mk_cell_word]. }
  repeat (apply elem_of_cons in Hin as [->|Hin]).
  - intros [= <-]. apply Hic.
  - intros [= <-]. apply Hic.
  - apply int_mul_tag.
  - unfold mod_2. intros (u & _ & H)%bind_Ok.
    destruct (int_is_negative a), (int_is_negative b); eauto using rem_tag;
      apply bind_Ok in H as (r & Hr & H); injection H as <-; destruct (int_is_zero r); eauto using rem_tag; apply Hic.
  - apply rem_tag.
  - unfold div_2. intros (u & _ & (d & Hd & (r & Hr & H)%bind_Ok)%bind_Ok)%bind_Ok. injection H as <-.
    apply div0_tag in Hd as [Ht Hw]. destruct (int_is_negative r); [|done].
    unfold int_dec. rewrite <-(cell_tag_value d) at 1 3 by done. rewrite Ht, set_value_mk. apply Hic.
  - apply div0_tag.
  - intros [= <-]. apply Hic.
  - intros [= <-]. apply Hic.
  - by apply not_elem_of_nil in Hin.
Qed.

(** ** The loop computes the value of the expression *)

Section eval.
Context (h : heap).

Definition marked (args : list Z) : list Z := args ≫= fun a => [int_cell 0; a].

(** The environment with another stack. *)
Lemma push_exprs_ok e t args n :
  e_heap e = h -> (n <= length args)%nat ->
  (forall k a, args !! k = Some a -> arg h t (Z.of_nat k) = Ok a) ->
  push_exprs n e t = Ok (with_stack e (marked (take n args) ++ e_stack e)).
Proof.
  intros He Hn Ha. revert e He. induction n as [|n IH]; intros e He; cbn [push_exprs].
  - rewrite take_0. by destruct e.
  - destruct (lookup_lt_is_Some_2 args n ltac:(lia)) as [a Hl].
    rewrite He, (Ha _ _ Hl), Ok_bind, IH by (done || lia).
    rewrite (take_S_r _ _ a Hl). unfold marked. rewrite bind_app, <-app_assoc. done.
Qed.

Lemma is_ref_cases t : is_ref t = true -> t = REF \/ t = RFW.
Proof. apply is_ref_true. Qed.

Lemma functor_con c f : functor h c = Ok f -> cell_tag f = CON.
Proof.
  unfold functor. intros (ds & _ & H)%bind_Ok. case_bool_decide as Ht; [by injection H as <-|].
  apply bind_Ok in H as (u & _ & H). unfold functor_str in H.
  apply bind_Ok in H as (u' & _ & (c' & _ & (u2 & Hr & H)%bind_Ok)%bind_Ok). injection H as <-.
  apply require_Ok in Hr. by apply bool_decide_eq_true in Hr.
Qed.

Lemma mapM_length l vs : mapM eval_expr l = Ok vs -> length vs = length l.
Proof.
  revert vs. induction l as [|x l IH]; cbn; intros vs.
  - by intros [= <-].
  - intros (v & _ & (vs' & Hl & H)%bind_Ok)%bind_Ok. injection H as <-. cbn. by rewrite (IH vs').
Qed.

(** One run of the loop on a visited term and its value. *)
Definition computes (x : expr) : Prop := forall e c s args r d fuel,
  e_heap e = h -> denotes h x c -> (d <= length s)%nat -> (steps x <= fuel)%nat ->
  match eval_expr x with
  | Throw ex => eval_loop fuel d (with_stack e (int_cell 0 :: c :: s)) args r = Throw ex
  | Ok v => exists r', eval_loop fuel d (with_stack e (int_cell 0 :: c :: s)) args r =
              eval_loop (fuel - steps x) d (with_stack e s) (v :: args) r' /\
              match x with Num _ => r' = r | _ => r' = v end
  end.

Lemma computes_list l cs :
  Forall computes l -> Forall2 (denotes h) l cs ->
  forall e s args r d fuel,
  e_heap e = h -> (d <= length s)%nat -> (sum_list_with steps l <= fuel)%nat ->
  match mapM eval_expr l with
  | Throw ex => eval_loop fuel d (with_stack e (marked cs ++ s)) args r = Throw ex
  | Ok vs => exists r', eval_loop fuel d (with_stack e (marked cs ++ s)) args r =
              eval_loop (fuel - sum_list_with steps l) d (with_stack e s) (rev vs ++ args) r'
  end.
Proof.
  intros Hall. revert cs. induction Hall as [|x l Hx Hl IH]; intros cs Hd e s args r d fuel He Hs Hf.
  - inversion Hd; subst. cbn. exists r. by rewrite Nat.sub_0_r.
  - inversion Hd as [|? c ? cs' Hc Hcs]; subst. cbn [mapM sum_list_with] in *.
    change (marked (c :: cs') ++ s) with (int_cell 0 :: c :: (marked cs' ++ s)).
    specialize (Hx e c (marked cs' ++ s) args r d fuel He Hc).
    destruct (eval_expr x) as [v|ex]; [|apply Hx; [rewrite length_app|]; lia].
    destruct Hx as (r' & Hr & _); [rewrite length_app; lia|lia|]. rewrite Ok_bind.
    specialize (IH cs' Hcs e s (v :: args) r' d (fuel - steps x)%nat He Hs ltac:(lia)).
    destruct (mapM eval_expr l) as [vs|ex]; cbn [mbind res_bind]; [|by rewrite Hr].
    destruct IH as (r2 & IH). exists r2. rewrite Hr, IH. cbn [rev]. rewrite <-app_assoc.
    f_equal. lia.
Qed.

Lemma eval_loop_step fuel d e args r :
  (d < stack_size e)%nat ->
  eval_loop (S fuel) d e args r = ('(e, args, r) ← eval_step e args r; eval_loop fuel d e args r).
Proof. intros H. cbn [eval_loop]. by rewrite (proj2 (Nat.ltb_lt _ _) H). Qed.

Lemma step_value e v m s args r :
  cell_tag v = INT \/ cell_tag v = BIG ->
  eval_step (with_stack e (m :: v :: s)) args r = Ok (with_stack e s, v :: args, r).
Proof. intros Ht. unfold eval_step. cbn. by destruct Ht as [-> | ->]. Qed.

Lemma step_apply e f s args r :
  cell_tag f = CON ->
  eval_step (with_stack e (int_cell 1 :: f :: s)) args r =
    ('(v, args) ← apply_fn f args; Ok (with_stack e (int_cell 1 :: v :: s), args, v)).
Proof. intros Ht. unfold eval_step. cbn -[apply_fn int_cell int_value]. by rewrite Ht. Qed.

Lemma eval_computes x : computes x.
Proof.
  induction x as [n| |f l IH] using expr_ind'; intros e c s args r d fuel He Hd Hs Hf.
  - destruct Hd as [-> Ht]. cbn [steps eval_expr] in *. destruct fuel as [|fuel]; [lia|].
    exists r. split; [|done]. rewrite eval_loop_step by (cbn; lia). rewrite step_value, Ok_bind by done.
    by replace (S fuel - 1)%nat with fuel by lia.
  - cbn [steps eval_expr denotes] in *. destruct fuel as [|fuel]; [lia|].
    rewrite eval_loop_step by (cbn; lia). unfold eval_step. cbn [pop e_stack with_stack mbind res_bind].
    by destruct (is_ref_cases _ Hd) as [-> | ->].
  - destruct Hd as (Ht & Hfn & Hlen & Hargs). apply denotes_args in Hargs as (cs & Hcs & Harg).
    cbn [steps] in Hf. destruct fuel as [|fuel]; [lia|].
    pose proof (Forall2_length _ _ _ Hcs) as Hl2.
    assert (Hstep : eval_step (with_stack e (int_cell 0 :: c :: s)) args r =
      Ok (with_stack e (marked cs ++ int_cell 1 :: f :: s), args, r)).
    { unfold eval_step. cbn [pop e_stack with_stack mbind res_bind].
      assert (push_exprs (Z.to_nat (con_arity f)) (push (push (with_stack e s) f) (int_cell 1)) c
        = Ok (with_stack e (marked cs ++ int_cell 1 :: f :: s))) as Hp.
      { rewrite (push_exprs_ok _ c cs) by (done || lia). rewrite take_ge by lia. done. }
      assert (Hn : bool_decide (cell_tag c = INT) || bool_decide (cell_tag c = BIG) = false)
        by (by destruct Ht as [-> | ->]).
      rewrite Hn. change (negb (int_value (int_cell 0) =? 0)) with false. cbv iota.
      destruct Ht as [-> | ->];
        match goal with |- context [functor ?x c] => change x with (e_heap e) end;
        rewrite He, Hfn, Ok_bind;
        match goal with |- context [push_exprs _ ?x c] =>
          change x with (push (push (with_stack e s) f) (int_cell 1)) end; by rewrite Hp. }
    rewrite eval_loop_step by (cbn; lia). rewrite Hstep. cbn [mbind res_bind].
    pose proof (computes_list l cs IH Hcs e (int_cell 1 :: f :: s) args r d fuel He ltac:(cbn; lia) ltac:(lia)) as HL.
    cbn [eval_expr]. destruct (mapM eval_expr l) as [vs|ex] eqn:Hvs; cbn [mbind res_bind]; [|done].
    destruct HL as (r1 & HL). rewrite HL. clear HL.
    assert (Hv : length vs = Z.to_nat (con_arity f)) by (rewrite (mapM_length _ _ Hvs); lia).
    destruct (fuel - sum_list_with steps l)%nat as [|fuel1] eqn:Hfu; [lia|].
    rewrite eval_loop_step by (cbn; lia). rewrite step_apply by by apply (functor_con c).
    unfold apply_fn. destruct (lookup_fn f) as [fn|] eqn:Hfound; cbn [of_option mbind res_bind]; [|done].
    destruct (fn_map_spec f fn Hfound) as [Har _].
    rewrite Har in Hv |- *. change (Z.to_nat 2) with 2%nat in *.
    destruct vs as [|a [|b [|? ?]]]; try discriminate Hv. cbn [rev app take]. rewrite take_0. cbn [rev app].
    destruct (fn a b) as [v|ex] eqn:Hfv; cbn [mbind res_bind]; [|done].
    destruct (fn_tag f fn a b v Hfound Hfv) as [Hvt _].
    exists v. split; [|done]. destruct fuel1 as [|fuel2]; [lia|].
    rewrite eval_loop_step by (cbn; lia). rewrite step_value, Ok_bind by by left.
    cbn [steps drop]. by replace (S fuel - (3 + sum_list_with steps l))%nat with fuel2 by lia.
Qed.

End eval.

Lemma eval_denoted x e c args fuel :
  denotes (e_heap e) x c -> (steps x <= fuel)%nat ->
  eval fuel e args c = (v ← eval_expr x; Ok (e, v)).
Proof.
  intros Hd Hf. unfold eval.
  pose proof (eval_computes (e_heap e) x e c (e_stack e) args c (stack_size e) fuel eq_refl Hd (le_n _) Hf) as H.
  change (push (push e c) (int_cell 0)) with (with_stack e (int_cell 0 :: c :: e_stack e)).
  destruct (eval_expr x) as [v|ex] eqn:Hv; [|done]. destruct H as (r' & -> & Hr'). cbn [mbind res_bind].
  assert (r' = v) as -> by (destruct x; [destruct Hd as [<- _]|..]; cbn in *; congruence).
  assert (He : with_stack e (e_stack e) = e) by (by destruct e). rewrite He.
  by destruct (fuel - steps x)%nat; cbn [eval_loop]; rewrite Nat.ltb_irrefl.
Qed.

(** C25: Evaluating a term computes the expression it denotes, in [steps] iterations:
    the arguments from left to right, then the function, with the first exception on the
    way (an unbound variable, a functor without a function, a division by zero, ...).
    What an aborted evaluation left in [args_] does not matter, and heap, trail and stack
    are as before. *)
Theorem eval_is_eval_expr x e c args fuel :
  denotes (e_heap e) x c -> (steps x <= fuel)%nat ->
  eval fuel e args c = (v ← eval_expr x; Ok (e, v)).
Proof. apply eval_denoted. Qed.

Module Example.
Definition plus : Z := con_constant [43] 2.
Definition div : Z := con_constant [100; 105; 118] 2.
(** [1 + (7 div 2)] with the structure at 3; [7 div X] at 6. *)
Definition heap : heap :=
  Heap {[0 := plus; 1 := int_cell 1; 2 := str_cell 3; 3 := div; 4 := int_cell 7; 5 := int_cell 2;
         6 := div; 7 := int_cell 7; 8 := ref_cell 8]} 9 1 [] true ∅ ∅.
Definition env : term_env := TermEnv heap [int_cell 42] [] [] 0.
Definition sum : expr := App plus [Num (int_cell 1); App div [Num (int_cell 7); Num (int_cell 2)]].
Definition open : expr := App div [Num (int_cell 7); Unbound].
End Example.

Ltac solve_denotes :=
  repeat match goal with
  | |- _ /\ _ => split
  | |- exists a, arg ?h ?c ?i = Ok a /\ _ =>
      let r := eval vm_compute in (arg h c i) in
      match r with Ok ?a => exists a; split; [by vm_compute|] end
  | |- denotes _ _ _ => cbn [denotes Example.sum Example.open]
  | |- True => exact I
  | |- _ \/ _ => first [left; by vm_compute|right; by vm_compute]
  | |- _ = _ => by vm_compute
  end.

Lemma eval_is_eval_expr_witness :
  eval 10 Example.env [int_cell 5] (str_cell 0) = Ok (Example.env, int_cell 4) /\
  eval 10 Example.env [] (str_cell 6) = Throw NotInstantiated.
Proof.
  assert (H : denotes (e_heap Example.env) Example.sum (str_cell 0)) by solve_denotes.
  assert (H' : denotes (e_heap Example.env) Example.open (str_cell 6)) by solve_denotes.
  split.
  - rewrite (eval_is_eval_expr Example.sum Example.env _ _ 10 H) by (cbn; lia). by vm_compute.
  - rewrite (eval_is_eval_expr Example.open Example.env _ _ 10 H') by (cbn; lia). by vm_compute.
Defined.

(** A big integer takes part in arithmetic with its address. *)
Lemma big_address_added : eval_expr (App Example.plus [Num (big_cell 40); Num (int_cell 2)]) = Ok (int_cell 42).
Proof. by vm_compute. Qed.

(** ** Comparisons *)

Lemma int_cells_equal a b :
  cell_tag a = INT -> cell_tag b = INT -> is_word 64 a -> is_word 64 b ->
  int_value a = int_value b -> a = b.
Proof.
  intros Ha Hb Hwa Hwb He. apply cell_ext; [done..|congruence|].
  rewrite <-(cell_tag_value a), <-(cell_tag_value b), Ha, Hb in He by done.
  rewrite !int_value_cell in He.
  pose proof (cell_value_index a Hwa) as Hia. pose proof (cell_value_index b Hwb) as Hib.
  unfold sgn in He. unfold is_index in Hia, Hib. rewrite !wrap_id in He by done. unfold is_word in *.
  repeat case_match; lia.
Qed.

Lemma deref_int h a : cell_tag a = INT -> deref_with_cost h a = Ok (a, 1).
Proof. intros Ht. unfold deref_with_cost, deref_fuel. cbn [deref_loop]. by rewrite Ht. Qed.

Lemma trim_stack_id e : trim_stack e (stack_size e) = e.
Proof. unfold trim_stack. rewrite Nat.sub_diag, drop_0. by destruct e. Qed.

Lemma standard_order_ints fuel e a b :
  cell_tag a = INT -> cell_tag b = INT -> is_word 64 a -> is_word 64 b ->
  exists v cost, standard_order (S fuel) e a b = Ok (e, v, cost) /\
    ((v = -1 /\ int_value a < int_value b) \/ (v = 0 /\ int_value a = int_value b) \/ (v = 1 /\ int_value b < int_value a)).
Proof.
  intros Ha Hb Hwa Hwb. unfold standard_order. cbn [standard_order_loop].
  rewrite (proj2 (Nat.ltb_lt _ _)) by (unfold stack_size; cbn; lia).
  assert (He : with_stack e (e_stack e) = e) by (by destruct e).
  assert (Hs : forall cost, standard_order_step (stack_size e) (push (push e b) a) cost =
    Ok (e, w64 (w64 (cost + 1) + 1), if a =? b then None else Some (if int_value a <? int_value b then -1 else 1))).
  { intros cost. unfold standard_order_step. cbn [pop push e_stack with_stack mbind res_bind e_heap].
    rewrite !deref_int by done. cbn [mbind res_bind]. 
    match goal with |- context [Ok (?x, _, None)] => change x with (with_stack e (e_stack e)) end.
    rewrite He. destruct (a =? b); [done|]. rewrite Hb, Ha. cbn [bool_decide decide]. cbn [negb].
    rewrite trim_stack_id. done. }
  rewrite Hs, Ok_bind. destruct (Z.eqb_spec a b) as [->|Hne].
  - exists 0, (w64 (w64 (0 + 1) + 1)). split; [|lia].
    destruct fuel; cbn [standard_order_loop]; by rewrite Nat.ltb_irrefl.
  - exists (if int_value a <? int_value b then -1 else 1), (w64 (w64 (0 + 1) + 1)). split; [done|].
    destruct (Z.ltb_spec (int_value a) (int_value b)); [lia|].
    assert (int_value a <> int_value b); [|lia]. intros Hv. by apply Hne, int_cells_equal.
Qed.

(** [>=/2], [=</2], [>/2] and [</2] on expressions with integer values compare the
    values and leave the environment as it was. *)
Theorem comparisons_compare_values x y fuel e args lhs rhs a b :
  denotes (e_heap e) x lhs -> denotes (e_heap e) y rhs ->
  eval_expr x = Ok a -> eval_expr y = Ok b ->
  cell_tag a = INT /\ is_word 64 a -> cell_tag b = INT /\ is_word 64 b ->
  (steps x <= fuel)%nat -> (steps y <= fuel)%nat ->
  greater_than_equals_2 fuel e args lhs rhs = Ok (e, int_value b <=? int_value a) /\
  less_than_equals_2 fuel e args lhs rhs = Ok (e, int_value a <=? int_value b) /\
  greater_than_2 fuel e args lhs rhs = Ok (e, int_value b <? int_value a) /\
  less_than_2 fuel e args lhs rhs = Ok (e, int_value a <? int_value b).
Proof.
  intros Hx Hy Ha Hb [Hta Hwa] [Htb Hwb] Hfx Hfy.
  destruct fuel as [|fuel]; [destruct x; cbn in Hfx; lia|].
  destruct (standard_order_ints fuel e a b Hta Htb Hwa Hwb) as (v & cost & Hs & Hv).
  assert (Hc : compare_values (S fuel) e args lhs rhs = Ok (e, v)).
  { unfold compare_values. rewrite (eval_denoted x), Ha by done. cbn [mbind res_bind].
    rewrite (eval_denoted y), Hb by done. cbn [mbind res_bind]. by rewrite Hs. }
  unfold greater_than_equals_2, less_than_equals_2, greater_than_2, less_than_2. rewrite Hc. cbn [mbind res_bind].
  split_and!; do 2 f_equal;
    repeat match goal with |- context [?m <=? ?n] => destruct (Z.leb_spec m n)
                         | |- context [?m <? ?n] => destruct (Z.ltb_spec m n) end; lia || done.
Qed.

Lemma comparisons_compare_values_witness :
  greater_than_2 10 Example.env [] (str_cell 0) (int_cell 3) = Ok (Example.env, true).
Proof.
  assert (H : denotes (e_heap Example.env) Example.sum (str_cell 0)) by solve_denotes.
  assert (H' : denotes (e_heap Example.env) (Num (int_cell 3)) (int_cell 3)) by solve_denotes.
  apply (comparisons_compare_values _ _ 10 _ [] _ _ (int_cell 4) (int_cell 3) H H');
    [by vm_compute|done|split; by vm_compute..|cbn; lia|cbn; lia].
Defined.
