(* ===== verification/Builtins.v ===== *)
(** * Built-in predicates ([src/src/interp/builtins.cpp])

    Control constructs, the standard order, unification, tests of types, arithmetic, and
    the predicates that take terms apart and make them.  A built-in takes the machine, the
    arity and the dereferenced arguments, and succeeds or fails. *)

From S2P Require Import Prelude Cells Heap Bigs TermEnv Machine Wam Arith.

Definition builtin_arg (args : list Z) (i : nat) : res Z := of_option (args !! i) UndefinedBehaviour.

(** ** Functors and atoms ([common/term.hpp]) *)

Definition to_atom (h : heap) (c : Z) : res (heap * Z) :=
  if is_direct c then Ok (h, set_value c (Z.ldiff (cell_value c) 0x1f))
  else name ← atom_name h c; make_functor h name 0.
Definition to_functor (h : heap) (a arity : Z) : res (heap * Z) :=
  if 32 <=? arity then name ← atom_name h a; make_functor h name arity
  else if is_direct a then Ok (h, set_value a (cell_value a ||| arity))
  else name ← atom_name h a; make_functor h name arity.

(** ** Operations of the machine with costs *)

Definition new_term (w : wam) (f : Z) : res (wam * Z) :=
  '(h, t) ← new_str (w_heap w) f; Ok (set_heap w h, t).
Definition dotted_pair (w : wam) (a b : Z) : res (wam * Z) :=
  '(h, t) ← Heap.new_dotted_pair (w_heap w) a b; Ok (set_heap w h, t).
Definition set_argument (w : wam) (t i a : Z) : res wam :=
  h ← set_arg (w_heap w) t i a; Ok (set_heap w h).

Section builtins.
Context (import_bits : list Z -> Z) (fuel : nat) (c : code).

Let unify := base_unify import_bits fuel.

Definition compare_terms (w : wam) (a b : Z) : res (wam * Z) :=
  '(e, v, cost) ← standard_order fuel (w_env w) a b;
  w ← add_accumulated_cost (set_env w e) cost;
  Ok (w, v).
Definition eval_term (w : wam) (t : Z) : res (wam * Z) :=
  '(e, v) ← eval fuel (w_env w) [] t; Ok (set_env w e, v).

(** ** Control *)

Definition true_0 (w : wam) (arity : nat) (args : list Z) : res (wam * bool) := Ok (w, true).
Definition fail_0 (w : wam) (arity : nat) (args : list Z) : res (wam * bool) := Ok (w, false).

Definition push_goal (w : wam) : res wam := allocate_naive w (num_y c w true).

Definition operator_comma (w : wam) (arity : nat) (args : list Z) : res (wam * bool) :=
  arg0 ← builtin_arg args 0; arg1 ← builtin_arg args 1;
  w ← push_goal w;
  w ← push_goal (set_cp w (code_of_term arg1));
  Ok (set_cp (set_p w (code_of_term arg0)) (code_of_term EMPTY_LIST), true).

Definition operator_cut (w : wam) (arity : nat) (args : list Z) : res (wam * bool) :=
  w ← base_cut w; Ok (w, true).

(** The cut of a condition: the choice point of the if-then-else goes as well. *)
Definition operator_cut_if (w : wam) (arity : nat) (args : list Z) : res (wam * bool) :=
  w ← deallocate_environment w;
  f ← get_env w (w_e w);
  w ← cut_direct (set_cp (set_p w (w_cp w)) (env_cp f));
  ch ← get_choice w (w_b w);
  Ok (set_b w (ch_b ch), true).

Definition ARROW : Z := con_constant [45; 62] 2.
Definition CUT_IF : Z := con_constant [95; 33] 0.

(** The environments of a condition: first the condition, then the cut, then the branch. *)
Definition push_condition (w : wam) (cond if_true : Z) : res wam :=
  let w := set_b0 w (w_b w) in
  w ← push_goal w;
  w ← push_goal (set_cp w (code_of_term if_true));
  w ← push_goal (set_cp w (code_of_term CUT_IF));
  Ok (set_p w (code_of_term cond)).

Definition operator_if_then (w : wam) (arity : nat) (args : list Z) : res (wam * bool) :=
  arg0 ← builtin_arg args 0; arg1 ← builtin_arg args 1;
  w ← allocate_choice_point w (num_y c w true) code_fail;
  w ← push_condition w arg0 arg1;
  Ok (w, true).

Definition operator_if_then_else (w : wam) (arity : nat) (args : list Z) : res (wam * bool) :=
  lhs ← builtin_arg args 0;
  cond ← arg (w_heap w) lhs 0;
  if_true ← arg (w_heap w) lhs 1;
  if_false ← builtin_arg args 1;
  w ← allocate_choice_point w (num_y c w true) (code_of_term if_false);
  w ← push_condition w cond if_true;
  Ok (w, true).

Definition operator_disjunction (w : wam) (arity : nat) (args : list Z) : res (wam * bool) :=
  arg0 ← builtin_arg args 0;
  f ← functor (w_heap w) arg0;
  if f =? ARROW then operator_if_then_else w arity args
  else
    arg1 ← builtin_arg args 1;
    w ← allocate_choice_point w (num_y c w true) (code_of_term arg1);
    w ← push_goal w;
    Ok (set_p w (code_of_term arg0), true).

(** ** Standard order and unification *)

Definition compare_with (test : Z -> bool) (w : wam) (arity : nat) (args : list Z) : res (wam * bool) :=
  a ← builtin_arg args 0; b ← builtin_arg args 1;
  '(w, v) ← compare_terms w a b; Ok (w, test v).
Definition operator_at_less_than := compare_with (fun v => v <? 0).
Definition operator_at_equals_less_than := compare_with (fun v => v <=? 0).
Definition operator_at_greater_than := compare_with (fun v => 0 <? v).
Definition operator_at_greater_than_equals := compare_with (fun v => 0 <=? v).
Definition operator_equals := compare_with (fun v => v =? 0).
Definition operator_not_equals := compare_with (fun v => negb (v =? 0)).

Definition order_name (v : Z) : Z :=
  con_constant [if v <? 0 then 60 else if 0 <? v then 62 else 61] 0.
Definition compare_3 (w : wam) (arity : nat) (args : list Z) : res (wam * bool) :=
  order ← builtin_arg args 0; a ← builtin_arg args 1; b ← builtin_arg args 2;
  '(w, v) ← compare_terms w a b;
  unify w order (order_name v).

Definition operator_unification (w : wam) (arity : nat) (args : list Z) : res (wam * bool) :=
  a ← builtin_arg args 0; b ← builtin_arg args 1; unify w a b.
Definition operator_cannot_unify (w : wam) (arity : nat) (args : list Z) : res (wam * bool) :=
  lhs ← builtin_arg args 0; rhs ← builtin_arg args 1;
  let current_tr := trail_size (w_env w) in
  '(w, r) ← unify w lhs rhs;
  w ← (if (r : bool) then unwind w current_tr else Ok w);
  Ok (w, negb r).

(** ** Type tests *)

Definition tag_test (test : tag -> bool) (w : wam) (arity : nat) (args : list Z) : res (wam * bool) :=
  t ← builtin_arg args 0; Ok (w, test (cell_tag t)).
Definition var_1 := tag_test is_ref.
Definition nonvar_1 := tag_test (fun t => negb (is_ref t)).
Definition integer_1 := tag_test (fun t => bool_decide (t = INT)).
Definition number_1 := integer_1.

Definition is_atom (h : heap) (t : Z) : res bool :=
  match cell_tag t with
  | CON => Ok true
  | STR => f ← functor h t; Ok (con_arity f =? 0)
  | _ => Ok false
  end.
Definition is_compound (h : heap) (t : Z) : res bool :=
  if negb (bool_decide (cell_tag t = STR)) then Ok false
  else f ← functor h t; Ok (0 <? con_arity f).
Definition atom_1 (w : wam) (arity : nat) (args : list Z) : res (wam * bool) :=
  t ← builtin_arg args 0; r ← is_atom (w_heap w) t; Ok (w, r).
Definition compound_1 (w : wam) (arity : nat) (args : list Z) : res (wam * bool) :=
  t ← builtin_arg args 0; r ← is_compound (w_heap w) t; Ok (w, r).
Definition callable_1 (w : wam) (arity : nat) (args : list Z) : res (wam * bool) :=
  '(w, r) ← atom_1 w arity args; if (r : bool) then Ok (w, true) else compound_1 w arity args.
Definition atomic_1 := atom_1.

(** [is_list] of the predicate: it follows the tails and looks at the last one. *)
Fixpoint last_tail (n : nat) (h : heap) (t : Z) : res Z :=
  match n with
  | O => Throw OutOfFuel
  | S n => d ← is_dotted_pair h t; if (d : bool) then tl ← arg h t 1; last_tail n h tl else Ok t
  end.
Definition is_list_1 (w : wam) (arity : nat) (args : list Z) : res (wam * bool) :=
  t ← builtin_arg args 0; t ← last_tail fuel (w_heap w) t;
  r ← is_empty_list (w_heap w) t; Ok (w, r).

Definition same_term_2 (w : wam) (arity : nat) (args : list Z) : res (wam * bool) :=
  t1 ← builtin_arg args 0; t2 ← builtin_arg args 1; Ok (w, t1 =? t2).

(** [cyclic_term]: terms to visit with the next argument, and those on the path; it gives
    up after 20 steps. *)
Fixpoint cyclic_loop (n : nat) (w : wam) (work : list (Z * Z)) (path : gset Z) : res (wam * bool) :=
  match work with
  | [] => Ok (w, false)
  | (t, i) :: work =>
      match n with
      | O => Ok (w, false)
      | S n =>
          if bool_decide (t ∈ path) && (i =? 0) then Ok (w, true)
          else
            let path := {[t]} ∪ path in
            match cell_tag t with
            | STR | CON =>
                f ← functor (w_heap w) t;
                if i <? con_arity f then
                  a ← arg (w_heap w) t i;
                  cyclic_loop n w ((a, 0) :: (t, i + 1) :: work) path
                else cyclic_loop n w work (path ∖ {[t]})
            | REF | RFW =>
                '(w, d) ← base_deref w t;
                if d =? t then Ok (w, false) else cyclic_loop n w ((d, 0) :: work) path
            | _ => cyclic_loop n w work (path ∖ {[t]})
            end
      end
  end.
Definition cyclic_term_1 (w : wam) (arity : nat) (args : list Z) : res (wam * bool) :=
  t ← builtin_arg args 0; cyclic_loop 20 w [(t, 0)] ∅.
Definition acyclic_term_1 (w : wam) (arity : nat) (args : list Z) : res (wam * bool) :=
  '(w, r) ← cyclic_term_1 w arity args; Ok (w, negb r).

(** ** Arithmetic *)

Definition is_2 (w : wam) (arity : nat) (args : list Z) : res (wam * bool) :=
  lhs ← builtin_arg args 0; rhs ← builtin_arg args 1;
  '(w, v) ← eval_term w rhs;
  unify w lhs v.
Definition compare_numbers (test : Z -> bool) (w : wam) (arity : nat) (args : list Z) : res (wam * bool) :=
  lhs ← builtin_arg args 0; rhs ← builtin_arg args 1;
  '(w, a) ← eval_term w lhs;
  '(w, b) ← eval_term w rhs;
  '(w, v) ← compare_terms w a b;
  Ok (w, test v).
Definition greater_than_equals_2 := compare_numbers (fun v => 0 <=? v).
Definition less_than_equals_2 := compare_numbers (fun v => v <=? 0).
Definition greater_than_2 := compare_numbers (fun v => 0 <? v).
Definition less_than_2 := compare_numbers (fun v => v <? 0).

(** ** Taking terms apart and making them *)

(** [functor/3] *)
Definition functor_3 (w : wam) (arity : nat) (args : list Z) : res (wam * bool) :=
  t ← builtin_arg args 0; f ← builtin_arg args 1; a ← builtin_arg args 2;
  if is_ref (cell_tag t) then
    _ ← require (negb (is_ref (cell_tag f))) NotInstantiated;
    _ ← require (negb (is_ref (cell_tag a))) NotInstantiated;
    _ ← require (bool_decide (cell_tag a = INT)) (WrongArgType a);
    let n := w64 (int_value a) in
    _ ← require (n <=? MAX_ARITY) (WrongArgType a);
    match cell_tag f with
    | INT | BIG =>
        '(w, ok) ← unify w t f;
        if (ok : bool) then unify w a (int_cell 0) else Ok (w, false)
    | STR => Ok (w, false)
    | _ =>
        '(h, newfun) ← to_functor (w_heap w) f n;
        '(w, s) ← new_term (set_heap w h) newfun;
        unify w t s
    end
  else if bool_decide (cell_tag t = INT) || bool_decide (cell_tag t = BIG) then
    '(w, ok) ← unify w f t;
    if (ok : bool) then unify w a (int_cell 0) else Ok (w, false)
  else
    _ ← require (bool_decide (cell_tag t = STR) || bool_decide (cell_tag t = CON)) (WrongArgType t);
    fn ← functor (w_heap w) t;
    '(h, name) ← to_atom (w_heap w) fn;
    '(w, ok) ← unify (set_heap w h) f name;
    if (ok : bool) then unify w a (int_cell (con_arity fn)) else Ok (w, false).

(** [arg/3] with an unbound index leaves a choice point that goes on with the next
    argument; the index and the program pointer are the last two cells of the heap. *)
Definition store_p_on_heap_if_wam (w : wam) : res wam :=
  if has_wam_code (w_p w) then o ← wam_offset (w_p w); new_term_copy_cell w (int_cell o)
  else new_term_copy_cell w EMPTY_LIST.
Definition restore_p_from_heap_if_wam (w : wam) : res wam :=
  t ← heap_get (w_heap w) (h_size (w_heap w) - 1);
  Ok (if bool_decide (cell_tag t = INT) then set_p w (set_wam_code (w_p w) (Some (int_value t))) else w).

Definition arg_3_cp (w : wam) (arity : nat) (args : list Z) : res (wam * bool) :=
  index_term ← heap_get (w_heap w) (h_size (w_heap w) - 2);
  t ← builtin_arg args 1;
  f ← functor (w_heap w) t;
  let arg_index := int_value index_term + 1 in
  if w64 arg_index =? con_arity f then
    ch ← get_choice w (w_b w);
    Ok (update_frame w (w_b w) (FChoice (with_bp ch code_fail)), false)
  else
    h ← heap_set (w_heap w) (h_size (w_heap w) - 2) (int_cell arg_index);
    w ← restore_p_from_heap_if_wam (set_heap w h);
    a0 ← builtin_arg args 0;
    '(w, _) ← unify w a0 (int_cell (arg_index + 1));
    val ← arg (w_heap w) t arg_index;
    a2 ← builtin_arg args 2;
    unify w a2 val.

(** [next_arg] is the code point of [arg_3_cp]. *)
Definition arg_3 (next_arg : code_point) (w : wam) (arity : nat) (args : list Z) : res (wam * bool) :=
  index ← builtin_arg args 0; t ← builtin_arg args 1;
  _ ← require (bool_decide (cell_tag t = STR)) (WrongArgType t);
  '(w, index) ←
    (if is_ref (cell_tag index) then
       w ← new_term_copy_cell w (int_cell 0);
       w ← store_p_on_heap_if_wam w;
       w ← allocate_choice_point w (num_y c w true) next_arg;
       '(w, _) ← unify w index (int_cell 1);
       Ok (w, int_cell 1)
     else Ok (w, index));
  _ ← require (bool_decide (cell_tag index = INT)) (WrongArgType index);
  f ← functor (w_heap w) t;
  _ ← require (negb ((int_value index <? 1) || (con_arity f <? int_value index))) (WrongArgType index);
  val ← arg (w_heap w) t (int_value index - 1);
  a2 ← builtin_arg args 2;
  unify w a2 val.

(** [=..]: the list of the arguments from [i] on. *)
Fixpoint write_list_loop (n : nat) (w : wam) (t i lst tail : Z) : res (wam * Z) :=
  match n with
  | O => Ok (w, lst)
  | S n =>
      a ← arg (w_heap w) t i;
      '(w, elem) ← dotted_pair w a EMPTY_LIST;
      e ← is_empty_list (w_heap w) tail;
      if (e : bool) then write_list_loop n w t (i + 1) elem elem
      else w ← set_argument w tail 1 elem; write_list_loop n w t (i + 1) lst elem
  end.
Definition deconstruct_write_list (w : wam) (t i : Z) : res (wam * Z) :=
  f ← functor (w_heap w) t;
  write_list_loop (Z.to_nat (con_arity f - i)) w t i EMPTY_LIST EMPTY_LIST.

(** The elements of a list become the arguments of a new term. *)
Fixpoint fill_arguments (n : nat) (w : wam) (lhs t i lst : Z) : res (wam * bool) :=
  match n with
  | O => unify w lhs t
  | S n =>
      if is_ref (cell_tag lst) then
        '(w, tail) ← deconstruct_write_list w lhs i; unify w lst tail
      else
        a ← arg (w_heap w) lst 0;
        w ← set_argument w t i a;
        tl ← arg (w_heap w) lst 1;
        fill_arguments n w lhs t (i + 1) tl
  end.

Definition operator_deconstruct (w : wam) (arity : nat) (args : list Z) : res (wam * bool) :=
  lhs ← builtin_arg args 0; rhs ← builtin_arg args 1;
  _ ← require (negb (is_ref (cell_tag lhs) && is_ref (cell_tag rhs))) NotInstantiated;
  if is_ref (cell_tag lhs) then
    l ← is_list fuel (w_heap w) rhs;
    _ ← require l (NotList rhs);
    len ← list_length fuel (w_heap w) rhs;
    _ ← require (negb (len =? 0)) (NotList rhs);
    first ← arg (w_heap w) rhs 0;
    _ ← require (negb (is_ref (cell_tag first))) NotInstantiated;
    if bool_decide (cell_tag first = INT) && (len =? 1) then unify w lhs first
    else
      fn ← is_functor (w_heap w) first;
      if negb fn then Ok (w, false)
      else
        f ← functor (w_heap w) first;
        '(h, f) ← to_functor (w_heap w) f (len - 1);
        '(w, t) ← new_term (set_heap w h) f;
        lst ← arg (w_heap w) rhs 1;
        fill_arguments (Z.to_nat (len - 1)) w lhs t 0 lst
  else if bool_decide (cell_tag lhs = INT) then
    '(w, lst) ← dotted_pair w lhs EMPTY_LIST; unify w rhs lst
  else if negb (bool_decide (cell_tag lhs = STR) || bool_decide (cell_tag lhs = CON)) then Ok (w, false)
  else
    f ← functor (w_heap w) lhs;
    '(h, elem) ← to_atom (w_heap w) f;
    '(w, lst) ← deconstruct_write_list (set_heap w h) lhs 0;
    '(w, lst) ← dotted_pair w elem lst;
    unify w rhs lst.

End builtins.
