(* ===== verification/BuiltinsSafe.v ===== *)
(** * Built-in predicates keep choice points

    Every modelled built-in changes the machine only in ways that backtracking to a choice
    point undoes, unless it pops the choice point ([builtin_keeps]): what the theorems of
    [Backtrack] ask of the built-ins of a program.  ([arg_3_cp], which goes on with
    [arg/3] after backtracking, is not called by instructions.) *)

From S2P Require Import Prelude Cells Heap HeapGrow Bigs TermEnv HeapSpec UnifySpec Unify UnifyFrame Machine Wam WamSafe WamUndo WamRun Arith Builtins.

(** ** Size of the heap *)

Definition same_layout (h h' : heap) : Prop := h_size h' = h_size h /\ h_blocks h' = h_blocks h.

#[export] Instance same_layout_preorder : PreOrder same_layout.
Proof. split; [by split|]. intros h1 h2 h3 [? ?] [? ?]. split; congruence. Qed.

Lemma set_layout h i c h' : heap_set h i c = Ok h' -> same_layout h h'.
Proof. intros H%heap_set_cells. by subst h'. Qed.
Lemma watch_layout h i v h' : heap_watch h i v = Ok h' -> same_layout h h'.
Proof. intros H. by destruct (heap_watch_cells _ _ _ _ H) as (x & -> & _). Qed.
Lemma add_watched_layout h i : same_layout h (add_watched h i).
Proof. unfold add_watched. by destruct (bool_decide _). Qed.

Lemma bind_layout e a b e' : TermEnv.bind e a b = Ok e' -> same_layout (e_heap e) (e_heap e').
Proof.
  unfold TermEnv.bind. intros (h & H%set_layout & He)%bind_Ok. injection He as <-.
  transitivity h; [|unfold TermEnv.trail; by destruct (_ <? _)].
  etransitivity; [|exact H]. by destruct (bool_decide _); [apply add_watched_layout|].
Qed.

Lemma unify_refs_layout e a b e' : unify_refs e a b = Ok e' -> same_layout (e_heap e) (e_heap e').
Proof.
  unfold unify_refs. destruct (_ <? _); intros (h & Hh & H%bind_layout)%bind_Ok; (etransitivity; [|exact H]);
    destruct (watched_cell _); [by eapply watch_layout|by injection Hh as <-|by eapply watch_layout|by injection Hh as <-].
Qed.

Section layout.
Context (import_bits : list Z -> Z).

Lemma unify_structures_layout e a b e' r : unify_structures e a b = Ok (e', r) -> same_layout (e_heap e) (e_heap e').
Proof.
  unfold unify_structures.
  intros ([x y] & _ & ([x' y'] & _ & (u & _ & (v & _ & H)%bind_Ok)%bind_Ok)%bind_Ok)%bind_Ok.
  destruct (_ =? _); [by injection H as <- _|]. destruct (negb _); [by injection H as <- _|].
  apply bind_Ok in H as (h & Hh%set_layout & (e1 & H1%push_args_same & H)%bind_Ok). injection H as <- _.
  rewrite (se_heap _ _ H1). exact Hh.
Qed.

Lemma unify_step_layout e k e' k' r : unify_step import_bits e k = Ok (e', k', r) -> same_layout (e_heap e) (e_heap e').
Proof.
  unfold unify_step.
  intros ([a e1] & H1%pop_same & ([a' c1] & _ & ([b e2] & H2%pop_same & ([b' c2] & _ & ([e3 ok] & H & H3)%bind_Ok)%bind_Ok)%bind_Ok)%bind_Ok)%bind_Ok.
  injection H3 as <- _ _. assert (E : e_heap e2 = e_heap e) by (by rewrite (se_heap _ _ H2), (se_heap _ _ H1)).
  rewrite <-E. unfold unify_cells in H. destruct (_ =? _); [by injection H as <- _|].
  destruct (is_ref (cell_tag a')).
  { destruct (is_ref (cell_tag b')); apply bind_Ok in H as (e4 & H4 & H); injection H as <- _;
      [by eapply unify_refs_layout|by eapply bind_layout]. }
  destruct (is_ref (cell_tag b')).
  { apply bind_Ok in H as (e4 & H4 & H). injection H as <- _. by eapply bind_layout. }
  destruct (negb _); [by injection H as <- _|].
  destruct (cell_tag a'); try by injection H as <- _.
  all: first [by eapply unify_structures_layout|apply bind_Ok in H as (q & _ & H); by injection H as <- _].
Qed.

Lemma restore_layout e e' : restore_cells_after_unify e = Ok e' -> same_layout (e_heap e) (e_heap e').
Proof.
  unfold restore_cells_after_unify. intros (h & Hh & H)%bind_Ok. injection H as <-. cbn. revert Hh.
  generalize (e_heap e). induction (e_temp_trail e) as [|i l IH]; intros h0; cbn [restore_loop]; [intros Hh; by injection Hh as <-|].
  intros (f & _ & (x & _ & (h1 & H1%set_layout & H)%bind_Ok)%bind_Ok)%bind_Ok. etransitivity; [exact H1|by apply IH].
Qed.

Lemma unify_loop_layout n d e k e' r k' :
  unify_loop import_bits n d e k = Ok (e', r, k') -> same_layout (e_heap e) (e_heap e').
Proof.
  revert e k. induction n as [|n IH]; intros e k H; cbn [unify_loop] in H; destruct (d <? stack_size e)%nat; try done.
  - apply bind_Ok in H as (e1 & H1%restore_layout & H). by injection H as <- _ _.
  - apply bind_Ok in H as ([[e1 k1] ok] & H1%unify_step_layout & H). etransitivity; [exact H1|].
    destruct ok; [by eapply IH|]. apply bind_Ok in H as (e2 & H2%restore_layout & H). by injection H as <- _ _.
  - apply bind_Ok in H as (e1 & H1%restore_layout & H). by injection H as <- _ _.
Qed.

Lemma unwind_loop_layout l h h' : unwind_loop h l = Ok h' -> same_layout h h'.
Proof.
  revert h. induction l as [|i l IH]; intros h H; cbn [unwind_loop] in H; [by injection H as <-|].
  apply bind_Ok in H as (h1 & H1%set_layout & H). etransitivity; [exact H1|by apply IH].
Qed.

Lemma unify_layout n e a b e' r k : unify import_bits n e a b = Ok (e', r, k) -> same_layout (e_heap e) (e_heap e').
Proof.
  unfold unify, unify_helper. intros ([[e1 r1] k1] & H1%unify_loop_layout & H)%bind_Ok.
  transitivity (e_heap e1); [exact H1|]. destruct r1.
  - unfold TermEnv.tidy_trail in H. apply bind_Ok in H as (e2 & (l & _ & H2)%bind_Ok & H). injection H2 as <-.
    by injection H as <- _ _.
  - unfold TermEnv.unwind_trail in H. apply bind_Ok in H as (e2 & (h & Hh%unwind_loop_layout & H2)%bind_Ok & H).
    injection H2 as <-. by injection H as <- _ _.
Qed.

End layout.

(** ** New structures *)

Lemma con_arity_pos f : 0 <= con_arity f.
Proof. unfold con_arity. destruct (is_direct f); apply Z.land_nonneg; by right. Qed.

Lemma fill_refs_lookup m from n j :
  (j < from -> fill_refs m from n !! j = m !! j) /\
  (is_Some (fill_refs m from n !! j) -> is_Some (m !! j) \/ from <= j).
Proof.
  unfold fill_refs. assert (Hin : forall i, i ∈ seqZ from n -> from <= i) by (intros i [? _]%elem_of_seqZ; lia).
  revert Hin. induction (seqZ from n) as [|i l IH]; intros Hin; cbn; [auto|].
  destruct IH as [I1 I2]; [intros k Hk; apply Hin; by apply list_elem_of_further|].
  pose proof (Hin i (list_elem_of_here _ _)). split.
  - intros Hj. rewrite lookup_insert_ne by lia. by apply I1.
  - rewrite lookup_insert. destruct (decide (i = j)) as [<-|]; [by right|done].
Qed.

Lemma new_str_extended h f h' t : heap_inv h -> new_str h f = Ok (h', t) ->
  extended h h' /\ exists i, h_size h <= i /\ i + 2 + con_arity f = h_size h' /\ t = str_cell (i + 1).
Proof.
  intros Hi H. unfold new_str in H. apply bind_Ok in H as (u & _ & ([h1 i] & Ha & H)%bind_Ok). injection H as <- <-.
  pose proof (con_arity_pos f). destruct (allocate_grows _ STR (2 + con_arity f) h1 i Hi ltac:(lia) Ha) as ([I S C] & Hi1 & Hs).
  split; [|exists i; cbn; split_and!; [done|lia|done]]. split; [split; cbn; [done|done|]|].
  - intros j Hj. rewrite (proj1 (fill_refs_lookup _ _ _ j)) by lia. rewrite !lookup_insert_ne by lia. by apply C.
  - intros j. cbn. intros Hj%fill_refs_lookup. destruct (decide (h_size h <= j)) as [|Hlt]; [by right|left].
    destruct Hj as [Hj|Hj]; [|lia]. rewrite !lookup_insert_ne in Hj by lia. by rewrite C in Hj by lia.
Qed.

(** Interning a name adds no cells. *)
Definition same_cells (h h' : heap) : Prop := same_layout h h' /\ h_cells h' = h_cells h.

Lemma make_functor_cells h nm a h' f : make_functor h nm a = Ok (h', f) -> same_cells h h'.
Proof.
  unfold make_functor. destruct (bool_decide _).
  - intros (u & _ & H)%bind_Ok. unfold resolve_atom_index in H.
    destruct (h_name_to_index h !! nm); injection H as <- _; done.
  - intros (x & _ & H)%bind_Ok. by injection H as <- _.
Qed.
Lemma to_atom_cells h x h' f : to_atom h x = Ok (h', f) -> same_cells h h'.
Proof.
  unfold to_atom. destruct (is_direct x); [intros H; by injection H as <- _|].
  intros (nm & _ & H)%bind_Ok. by eapply make_functor_cells.
Qed.
Lemma to_functor_cells h x a h' f : to_functor h x a = Ok (h', f) -> same_cells h h'.
Proof.
  unfold to_functor. destruct (_ <=? _); [intros (nm & _ & H)%bind_Ok; by eapply make_functor_cells|].
  destruct (is_direct x); [intros H; by injection H as <- _|].
  intros (nm & _ & H)%bind_Ok. by eapply make_functor_cells.
Qed.

Section keeps.
Context (import_bits : list Z -> Z) (fuel : nat) (c : code) (SV : saved).

Abbreviation b := (sv_b SV).
Abbreviation ch := (sv_choice SV).
Abbreviation protected := (protected SV).
Abbreviation live := (live SV).
Abbreviation intact := (intact b ch).

(** ** Steps that work on terms *)

(** The heap may grow; what is protected stays so unless the heap reaches the stack. *)
Record keeps (w w' : wam) : Prop := Keeps {
  kp_heap : heap_inv (w_heap w) -> heap_inv (w_heap w') /\ h_size (w_heap w) <= h_size (w_heap w');
  kp_protected : small w' -> protected w -> protected w'
}.

Lemma protected_heap w : protected w -> heap_inv (w_heap w).
Proof. intros P. apply (eo_layout _ (es_ok _ _ (pr_env _ _ P))). Qed.

Lemma kp_small w w' : keeps w w' -> heap_inv (w_heap w) -> small w' -> small w.
Proof. intros K H S. destruct (kp_heap _ _ K H) as [_ Hs]. unfold small in *. lia. Qed.

#[export] Instance keeps_preorder : PreOrder keeps.
Proof.
  split.
  - intros w. split; [|done]. intros H. split; [done|lia].
  - intros w1 w2 w3 K1 K2. split.
    + intros H. destruct (kp_heap _ _ K1 H) as [H2 ?]. destruct (kp_heap _ _ K2 H2) as [? ?]. split; [done|lia].
    + intros S P. pose proof (kp_heap _ _ K1 (protected_heap _ P)) as [H2 _].
      apply (kp_protected _ _ K2 S), (kp_protected _ _ K1); [by apply (kp_small w2 w3)|done].
Qed.

Lemma core_keeps w w' : same_core w w' -> keeps w w'.
Proof.
  intros C. split; [|intros _; by apply same_protected]. unfold w_heap. rewrite (sc_env _ _ C). intros H. split; [done|lia].
Qed.

Lemma env_keeps w e : same_env (w_env w) e -> keeps w (set_env w e).
Proof.
  intros E. unfold w_heap. split; unfold w_heap; cbn.
  - rewrite (se_heap _ _ E). intros H. split; [done|lia].
  - intros _ P. apply protected_set_env; [done|eapply env_safe_same; [exact E|apply P]|]. rewrite (se_heap _ _ E). apply P.
Qed.

Lemma extend_keeps w h : (heap_inv (w_heap w) -> extended (w_heap w) h) -> keeps w (set_heap w h).
Proof.
  intros X. split.
  - intros H. destruct (X H) as [[I S _] _]. by split.
  - intros _ P. apply protected_extend; [done|]. by apply X, protected_heap.
Qed.

Lemma cells_keeps w h : same_cells (w_heap w) h -> keeps w (set_heap w h).
Proof.
  intros [[Es Eb] Ec]. apply extend_keeps. intros H. split; [split|].
  - unfold heap_inv in *. by rewrite Es, Eb.
  - rewrite Es. lia.
  - intros i _. by rewrite Ec.
  - intros i. rewrite Ec. by left.
Qed.

Lemma base_unify_keeps w x y w' ok : base_unify import_bits fuel w x y = Ok (w', ok) -> keeps w w'.
Proof.
  intros H. pose proof H as H0. unfold base_unify in H.
  apply bind_Ok in H as ([[e r] k] & Hu%unify_layout & (w1 & H1%add_cost_same & H)%bind_Ok). injection H as <- _.
  assert (E : same_layout (w_heap w) (w_heap w1)) by (unfold w_heap; rewrite (sc_env _ _ H1); exact Hu).
  destruct E as [Es Eb]. split.
  - unfold heap_inv. rewrite Es, Eb. intros H. split; [done|lia].
  - intros S P. eapply base_unify_protected; [exact P| |exact H0]. unfold small in *. by rewrite <-Es.
Qed.

Lemma unify2_keeps w x y x' y' w' ok :
  ('(w, ok) ← base_unify import_bits fuel w x y;
   if (ok : bool) then base_unify import_bits fuel w x' y' else Ok (w, false)) = Ok (w', ok) -> keeps w w'.
Proof.
  intros ([w1 r] & H1%base_unify_keeps & H)%bind_Ok. etransitivity; [exact H1|].
  destruct r; [by eapply base_unify_keeps|]. by injection H as <- _.
Qed.

Lemma order_step_same d e k e' k' r : standard_order_step d e k = Ok (e', k', r) -> same_env e e'.
Proof.
  unfold standard_order_step.
  intros ([x e1] & H1%pop_same & ([x' c1] & _ & ([y e2] & H2%pop_same & ([y' c2] & _ & H)%bind_Ok)%bind_Ok)%bind_Ok)%bind_Ok.
  eapply same_env_trans; [exact H1|]. eapply same_env_trans; [exact H2|].
  destruct (_ =? _); [injection H as <- _ _; by split|].
  destruct (negb _); [injection H as <- _ _; by split|].
  assert (HS : (fa ← functor (e_heap e2) x'; fb ← functor (e_heap e2) y';
     if negb (fa =? fb) then r ← functor_standard_order (e_heap e2) fa fb; Ok (trim_stack e2 d, w64 (w64 (k + c1) + c2), Some r)
     else e ← push_args (Z.to_nat (con_arity fa)) e2 x' y'; Ok (e, w64 (w64 (k + c1) + c2), None)) = Ok (e', k', r) ->
     same_env e2 e').
  { intros (fa & _ & (fb & _ & HS)%bind_Ok)%bind_Ok. destruct (negb _).
    - apply bind_Ok in HS as (v & _ & HS). injection HS as <- _ _. apply same_env_stack.
    - apply bind_Ok in HS as (e3 & H3%push_args_same & HS). by injection HS as <- _ _. }
  destruct (cell_tag x'); try (injection H as <- _ _; apply same_env_stack); try by apply HS.
  all: apply bind_Ok in H as (v & _ & H); try destruct v as [v k2]; injection H as <- _ _; apply same_env_stack.
Qed.

Lemma order_loop_same n d e k e' v k' : standard_order_loop n d e k = Ok (e', v, k') -> same_env e e'.
Proof.
  revert e k. induction n as [|n IH]; intros e k H; cbn [standard_order_loop] in H; destruct (d <? stack_size e)%nat;
    try done; try (injection H as <- _ _; by split).
  apply bind_Ok in H as ([[e1 k1] r] & H1%order_step_same & H). eapply same_env_trans; [exact H1|].
  destruct r; [injection H as <- _ _; by split|by eapply IH].
Qed.

Lemma compare_keeps w x y w' v : compare_terms fuel w x y = Ok (w', v) -> keeps w w'.
Proof.
  unfold compare_terms, standard_order.
  intros ([[e r] k] & He%order_loop_same & (w1 & H1%add_cost_same & H)%bind_Ok)%bind_Ok. injection H as <- _.
  etransitivity; [|by apply core_keeps]. apply env_keeps. eapply same_env_trans; [|exact He]. by split.
Qed.

Lemma push_exprs_same n e t e' : push_exprs n e t = Ok e' -> same_env e e'.
Proof.
  revert e. induction n as [|n IH]; intros e H; cbn [push_exprs] in H; [by injection H as <-|].
  apply bind_Ok in H as (a & _ & H). eapply same_env_trans; [|by eapply IH]. by split.
Qed.

Lemma eval_loop_same n d e args r e' v : eval_loop n d e args r = Ok (e', v) -> same_env e e'.
Proof.
  revert e args r. induction n as [|n IH]; intros e args r H; cbn [eval_loop] in H; destruct (d <? stack_size e)%nat;
    try done; try (injection H as <- _; by split).
  apply bind_Ok in H as ([[e1 args1] r1] & H1 & H). eapply same_env_trans; [|by eapply IH].
  unfold eval_step in H1. apply bind_Ok in H1 as ([x e2] & H2%pop_same & ([y e3] & H3%pop_same & H1)%bind_Ok).
  eapply same_env_trans; [exact H2|]. eapply same_env_trans; [exact H3|].
  destruct (_ || _); [by injection H1 as <- _ _|]. destruct (negb _).
  - apply bind_Ok in H1 as ([q args2] & _ & H1). injection H1 as <- _ _. by split.
  - destruct (cell_tag y); try done; try by injection H1 as <- _ _.
    all: apply bind_Ok in H1 as (f & _ & (e4 & H4%push_exprs_same & H1)%bind_Ok); injection H1 as <- _ _;
      eapply same_env_trans; [|exact H4]; by split.
Qed.

Lemma eval_keeps w t w' v : eval_term fuel w t = Ok (w', v) -> keeps w w'.
Proof.
  unfold eval_term, eval. intros ([e r] & He%eval_loop_same & H)%bind_Ok. injection H as <- _.
  apply env_keeps. eapply same_env_trans; [|exact He]. by split.
Qed.

Lemma base_deref_keeps w t w' d : base_deref w t = Ok (w', d) -> keeps w w'.
Proof. intros H%base_deref_same. by apply core_keeps. Qed.

Lemma copy_cell_keeps w t w' : new_term_copy_cell w t = Ok w' -> keeps w w'.
Proof.
  unfold new_term_copy_cell. intros ([h i] & Hn & H)%bind_Ok. injection H as <-. apply extend_keeps. intros Hi.
  by eapply new_cell0_extended.
Qed.

Lemma new_term_keeps w f w' t : new_term w f = Ok (w', t) -> keeps w w'.
Proof.
  unfold new_term. intros ([h x] & Hn & H)%bind_Ok. injection H as <- _. apply extend_keeps. intros Hi.
  by destruct (new_str_extended _ _ _ _ Hi Hn).
Qed.

(** ** Writing to young structures *)

(** A structure above the protected cells. *)
Definition above (t : Z) : Prop := cell_tag t = STR /\ ch_h ch <= ptr_index t.

Lemma above_deref h t d : above t -> Heap.deref h t = Ok d -> d = t.
Proof.
  intros [Ht _] H. unfold Heap.deref in H. destruct (deref_with_cost h t) as [[d' k]|] eqn:E; [|done]. injection H as <-.
  unfold deref_with_cost, deref_loop in E. cbn in E. rewrite Ht in E. by injection E as <- _.
Qed.

Lemma set_argument_heap w t i a w' : set_argument w t i a = Ok w' -> same_layout (w_heap w) (w_heap w').
Proof.
  unfold set_argument, set_arg. intros (h & (d & _ & Hh%set_layout)%bind_Ok & H)%bind_Ok. by injection H as <-.
Qed.

Lemma set_argument_protected w t i a w' : above t -> 0 <= i -> set_argument w t i a = Ok w' -> protected w -> protected w'.
Proof.
  intros Ht Hi H P. unfold set_argument, set_arg in H.
  apply bind_Ok in H as (h & (d & Hd & Hh)%bind_Ok & H). injection H as <-. rewrite (above_deref _ _ _ Ht Hd) in Hh.
  apply heap_set_cells in Hh as ->. pose proof (pr_env _ _ P) as [[L D Te N] S B (T & HT & U)].
  pose proof (sv_height SV). destruct Ht as [_ Hab].
  apply protected_set_env; [done| |apply P]. split; cbn; try done.
  - split; cbn; try done. intros j. rewrite lookup_insert. destruct (decide _) as [<-|]; [intros _; lia|apply D].
  - exists T. split; [done|]. apply undoable_above; [done|lia].
Qed.

Lemma str_above i : ch_h ch <= i -> 0 <= i < 2 ^ 61 -> above (str_cell i).
Proof.
  intros Hc Hi. destruct (str_cell_spec i Hi) as [Ht Hp]. split; [done|]. by rewrite Hp.
Qed.

(** The cells of a pair. *)
Lemma pair_keeps w x y w' t : dotted_pair w x y = Ok (w', t) -> keeps w w' /\ (protected w -> small w' -> above t).
Proof.
  unfold dotted_pair, Heap.new_dotted_pair.
  intros ([h t'] & ([h1 t1] & H1 & (h2 & H2 & (h3 & H3 & H)%bind_Ok)%bind_Ok)%bind_Ok & H4)%bind_Ok.
  injection H as <- <-. injection H4 as <- <-.
  assert (S1 : set_argument (set_heap w h1) t1 0 x = Ok (set_heap w h2)).
  { unfold set_argument. change (w_heap (set_heap w h1)) with h1. by rewrite H2. }
  assert (S2 : set_argument (set_heap w h2) t1 1 y = Ok (set_heap w h3)).
  { unfold set_argument. change (w_heap (set_heap w h2)) with h2. by rewrite H3. }
  pose proof (set_argument_heap _ _ _ _ _ S1) as [Z1 B1]. pose proof (set_argument_heap _ _ _ _ _ S2) as [Z2 B2].
  cbn in Z1, B1, Z2, B2.
  assert (N : new_term w DOTTED_PAIR = Ok (set_heap w h1, t1)) by (unfold new_term; by rewrite H1).
  pose proof (new_term_keeps _ _ _ _ N) as K1.
  assert (A : protected w -> small (set_heap w h3) -> above t1).
  { intros P Sm. destruct (new_str_extended _ _ _ _ (protected_heap _ P) H1) as (_ & i & Hi & Hs & ->).
    pose proof (es_size _ _ (pr_env _ _ P)). pose proof (sv_height SV). pose proof (con_arity_pos DOTTED_PAIR).
    unfold small, w_heap, STACK_BASE in *. cbn in *. apply str_above; lia. }
  split; [|exact A]. split.
  - intros Hi. destruct (kp_heap _ _ K1 Hi) as [Hh1 Hs1]. unfold heap_inv, w_heap in *. cbn in *. rewrite Z2, Z1, B2, B1. done.
  - intros Sm P. pose proof (A P Sm) as At.
    assert (Sm1 : small (set_heap w h1)) by (unfold small in *; change (h_size h1 <= STACK_BASE); rewrite <-Z1, <-Z2; exact Sm).
    apply (set_argument_protected _ _ 1 _ _ At ltac:(lia) S2), (set_argument_protected _ _ 0 _ _ At ltac:(lia) S1).
    by apply (kp_protected _ _ K1).
Qed.

Lemma set_argument_grows w t i a w' : set_argument w t i a = Ok w' -> heap_inv (w_heap w) ->
  heap_inv (w_heap w') /\ h_size (w_heap w) <= h_size (w_heap w').
Proof. intros [Es Eb]%set_argument_heap. unfold heap_inv. rewrite Es, Eb. intros H. split; [done|lia]. Qed.

Lemma write_list_grows n w t i l tl w' r : write_list_loop n w t i l tl = Ok (w', r) -> heap_inv (w_heap w) ->
  heap_inv (w_heap w') /\ h_size (w_heap w) <= h_size (w_heap w').
Proof.
  revert w i l tl. induction n as [|n IH]; intros w i l tl H Hi; cbn [write_list_loop] in H.
  { injection H as <- _. split; [done|lia]. }
  apply bind_Ok in H as (a & _ & ([w1 e] & [K _]%pair_keeps & (em & _ & H)%bind_Ok)%bind_Ok).
  destruct (kp_heap _ _ K Hi) as [Hi1 ?]. destruct em.
  - destruct (IH _ _ _ _ H Hi1) as [? ?]. split; [done|lia].
  - apply bind_Ok in H as (w2 & H2 & H). destruct (set_argument_grows _ _ _ _ _ H2 Hi1) as [Hi2 ?].
    destruct (IH _ _ _ _ H Hi2) as [? ?]. split; [done|lia].
Qed.

Lemma write_list_protected n w t i l tl w' r : write_list_loop n w t i l tl = Ok (w', r) ->
  tl = EMPTY_LIST \/ above tl -> small w' -> protected w -> protected w'.
Proof.
  revert w i l tl. induction n as [|n IH]; intros w i l tl H Ht Sm P; cbn [write_list_loop] in H; [by injection H as <- _|].
  apply bind_Ok in H as (a & _ & ([w1 e] & [K A]%pair_keeps & (em & Hem & H)%bind_Ok)%bind_Ok).
  destruct (kp_heap _ _ K (protected_heap _ P)) as [Hi1 _].
  assert (Sm1 : small w1).
  { destruct em; [|apply bind_Ok in H as (w2 & H2 & H); destruct (set_argument_grows _ _ _ _ _ H2 Hi1) as [Hi2 Hs2]];
      pose proof (write_list_grows _ _ _ _ _ _ _ _ H ltac:(done)) as [_ ?]; unfold small in *; lia. }
  pose proof (A P Sm1) as At. pose proof (kp_protected _ _ K Sm1 P) as P1.
  destruct em; [by eapply IH; [exact H|right| |]|]. apply bind_Ok in H as (w2 & H2 & H).
  destruct Ht as [->|Ht]; [by vm_compute in Hem|].
  eapply IH; [exact H|by right|done|]. by apply (set_argument_protected _ _ 1 _ _ Ht ltac:(lia) H2).
Qed.

Lemma deconstruct_keeps w t i w' l : deconstruct_write_list w t i = Ok (w', l) -> keeps w w'.
Proof.
  unfold deconstruct_write_list. intros (f & _ & H)%bind_Ok. split; [by eapply write_list_grows|].
  intros Sm P. eapply write_list_protected; [exact H|by left|done|done].
Qed.

Lemma fill_grows n w lhs t i l w' r : fill_arguments import_bits fuel n w lhs t i l = Ok (w', r) -> heap_inv (w_heap w) ->
  heap_inv (w_heap w') /\ h_size (w_heap w) <= h_size (w_heap w').
Proof.
  revert w i l. induction n as [|n IH]; intros w i l H Hi; cbn [fill_arguments] in H.
  { by apply (kp_heap _ _ (base_unify_keeps _ _ _ _ _ H)). }
  destruct (is_ref (cell_tag l)).
  - apply bind_Ok in H as ([w1 tl] & K1%deconstruct_keeps & K2%base_unify_keeps).
    by apply (kp_heap w w'); [etransitivity|].
  - apply bind_Ok in H as (a & _ & (w1 & H1 & (q & _ & H)%bind_Ok)%bind_Ok).
    destruct (set_argument_grows _ _ _ _ _ H1 Hi) as [Hi1 ?]. destruct (IH _ _ _ H Hi1). split; [done|lia].
Qed.

Lemma fill_protected n w lhs t i l w' r : fill_arguments import_bits fuel n w lhs t i l = Ok (w', r) ->
  above t -> 0 <= i -> small w' -> protected w -> protected w'.
Proof.
  revert w i l. induction n as [|n IH]; intros w i l H Ht Hi Sm P; cbn [fill_arguments] in H.
  { by apply (kp_protected _ _ (base_unify_keeps _ _ _ _ _ H)). }
  destruct (is_ref (cell_tag l)).
  - apply bind_Ok in H as ([w1 tl] & K1%deconstruct_keeps & K2%base_unify_keeps).
    by apply (kp_protected w w'); [etransitivity| |].
  - apply bind_Ok in H as (a & _ & (w1 & H1 & (q & _ & H)%bind_Ok)%bind_Ok).
    eapply IH; [exact H|done|lia|done|]. by apply (set_argument_protected _ _ i _ _ Ht Hi H1).
Qed.

(** A new term whose arguments are filled in. *)
Lemma new_filled_keeps w f w1 t n lhs l w' r :
  new_term w f = Ok (w1, t) -> fill_arguments import_bits fuel n w1 lhs t 0 l = Ok (w', r) -> keeps w w'.
Proof.
  intros H1 H. pose proof (new_term_keeps _ _ _ _ H1) as K1. split.
  - intros Hi. destruct (kp_heap _ _ K1 Hi) as [Hi1 ?]. destruct (fill_grows _ _ _ _ _ _ _ _ H Hi1). split; [done|lia].
  - intros Sm P. destruct (kp_heap _ _ K1 (protected_heap _ P)) as [Hi1 _].
    destruct (fill_grows _ _ _ _ _ _ _ _ H Hi1) as [_ Hs].
    assert (Sm1 : small w1) by (unfold small in *; lia).
    eapply fill_protected; [exact H| |lia|done|by apply (kp_protected _ _ K1)].
    unfold new_term in H1. apply bind_Ok in H1 as ([h x] & Hn & H1). injection H1 as <- <-.
    destruct (new_str_extended _ _ _ _ (protected_heap _ P) Hn) as (_ & i & Hlo & Hs1 & ->).
    pose proof (es_size _ _ (pr_env _ _ P)). pose proof (sv_height SV). pose proof (con_arity_pos f).
    change (h_size h <= STACK_BASE) in Sm1. unfold w_heap, STACK_BASE in *. apply str_above; lia.
Qed.

(** ** The built-ins *)

(** A built-in that works on terms. *)
Class works_on_terms (bn : builtin_fn) : Prop := terms_only :
  forall w n args w' r, bn w n args = Ok (w', r) -> keeps w w'.

Lemma terms_keep bn : works_on_terms bn -> builtin_keeps SV bn.
Proof. intros H w n args w' r L _ Hb S _. apply (kp_protected _ _ (H _ _ _ _ _ Hb) S), L. Qed.

Ltac keeps_split H := lazymatch type of H with
  | mbind _ _ = Ok _ =>
      let v := fresh "v" in let Hv := fresh "Hv" in
      apply bind_Ok in H; destruct H as (v & Hv & H);
      lazymatch type of v with prod _ _ => destruct v as [? ?] | _ => idtac end;
      keeps_split Hv; keeps_split H
  | Ok _ = Ok _ => injection H as <- _
  | _ => idtac
  end.
Ltac keeps_back := repeat lazymatch goal with
  | |- keeps ?w ?w => reflexivity
  | H : base_unify _ _ _ _ _ = Ok (?w, _) |- keeps _ ?w => etransitivity; [|exact (base_unify_keeps _ _ _ _ _ H)]
  | H : compare_terms _ _ _ _ = Ok (?w, _) |- keeps _ ?w => etransitivity; [|exact (compare_keeps _ _ _ _ _ H)]
  | H : eval_term _ _ _ = Ok (?w, _) |- keeps _ ?w => etransitivity; [|exact (eval_keeps _ _ _ _ H)]
  | H : new_term _ _ = Ok (?w, _) |- keeps _ ?w => etransitivity; [|exact (new_term_keeps _ _ _ _ H)]
  | H : dotted_pair _ _ _ = Ok (?w, _) |- keeps _ ?w => etransitivity; [|exact (proj1 (pair_keeps _ _ _ _ _ H))]
  | H : deconstruct_write_list _ _ _ = Ok (?w, _) |- keeps _ ?w => etransitivity; [|exact (deconstruct_keeps _ _ _ _ _ H)]
  | H : to_atom (w_heap ?w) _ = Ok (?h, _) |- keeps _ (set_heap ?w ?h) =>
      etransitivity; [|exact (cells_keeps w h (to_atom_cells _ _ _ _ H))]
  | H : to_functor (w_heap ?w) _ _ = Ok (?h, _) |- keeps _ (set_heap ?w ?h) =>
      etransitivity; [|exact (cells_keeps w h (to_functor_cells _ _ _ _ _ H))]
  end.
Ltac keeps_done H := keeps_split H; keeps_back; try done.

#[export] Instance compare_with_terms test : works_on_terms (compare_with fuel test).
Proof. intros w n args w' r H. unfold compare_with in H. keeps_done H. Qed.
#[export] Instance compare_3_terms : works_on_terms (compare_3 import_bits fuel).
Proof. intros w n args w' r H. unfold compare_3 in H. keeps_done H. Qed.
#[export] Instance unification_terms : works_on_terms (operator_unification import_bits fuel).
Proof. intros w n args w' r H. unfold operator_unification in H. keeps_done H. Qed.
#[export] Instance tag_test_terms test : works_on_terms (tag_test test).
Proof. intros w n args w' r H. unfold tag_test in H. keeps_done H. Qed.
#[export] Instance atom_1_terms : works_on_terms atom_1.
Proof. intros w n args w' r H. unfold atom_1 in H. keeps_done H. Qed.
#[export] Instance compound_1_terms : works_on_terms compound_1.
Proof. intros w n args w' r H. unfold compound_1 in H. keeps_done H. Qed.
#[export] Instance callable_1_terms : works_on_terms callable_1.
Proof.
  intros w n args w' r H. unfold callable_1 in H. apply bind_Ok in H as ([w1 ok] & H1%atom_1_terms & H).
  etransitivity; [exact H1|]. destruct ok; [by injection H as <- _|by eapply compound_1_terms].
Qed.
#[export] Instance is_list_1_terms : works_on_terms (is_list_1 fuel).
Proof. intros w n args w' r H. unfold is_list_1 in H. keeps_done H. Qed.
#[export] Instance same_term_2_terms : works_on_terms same_term_2.
Proof. intros w n args w' r H. unfold same_term_2 in H. keeps_done H. Qed.
#[export] Instance is_2_terms : works_on_terms (is_2 import_bits fuel).
Proof. intros w n args w' r H. unfold is_2 in H. keeps_done H. Qed.
#[export] Instance compare_numbers_terms test : works_on_terms (compare_numbers fuel test).
Proof. intros w n args w' r H. unfold compare_numbers in H. keeps_done H. Qed.

Lemma cyclic_loop_keeps n w l p w' r : cyclic_loop n w l p = Ok (w', r) -> keeps w w'.
Proof.
  revert w l p. induction n as [|n IH]; intros w l p H; cbn [cyclic_loop] in H; destruct l as [|[t i] l];
    try (injection H as <- _; reflexivity).
  destruct (_ && _); [injection H as <- _; reflexivity|].
  destruct (cell_tag t); try (by eapply IH).
  all: first [apply bind_Ok in H as ([w1 d] & H1%base_deref_keeps & H); etransitivity; [exact H1|];
      destruct (_ =? _); [injection H as <- _; reflexivity|by eapply IH]
    |apply bind_Ok in H as (f & _ & H); destruct (_ <? _); [apply bind_Ok in H as (a & _ & H)|]; by eapply IH].
Qed.
#[export] Instance cyclic_1_terms : works_on_terms cyclic_term_1.
Proof. intros w n args w' r H. unfold cyclic_term_1 in H. apply bind_Ok in H as (t & _ & H). by eapply cyclic_loop_keeps. Qed.
#[export] Instance acyclic_1_terms : works_on_terms acyclic_term_1.
Proof.
  intros w n args w' r H. unfold acyclic_term_1 in H. apply bind_Ok in H as ([w1 q] & H1%cyclic_1_terms & H).
  by injection H as <- _.
Qed.

#[export] Instance functor_3_terms : works_on_terms (functor_3 import_bits fuel).
Proof.
  intros w n args w' r H. unfold functor_3 in H.
  apply bind_Ok in H as (t & _ & (f & _ & (a & _ & H)%bind_Ok)%bind_Ok). destruct (is_ref (cell_tag t)).
  - apply bind_Ok in H as (u1 & _ & (u2 & _ & (u3 & _ & (u4 & _ & H)%bind_Ok)%bind_Ok)%bind_Ok).
    destruct (cell_tag f); try (by eapply unify2_keeps); try keeps_done H.
  - destruct (_ || _); [by eapply unify2_keeps|].
    apply bind_Ok in H as (u1 & _ & (fn & _ & ([h nm] & Hh & H)%bind_Ok)%bind_Ok).
    etransitivity; [|by eapply unify2_keeps]. keeps_back.
Qed.

#[export] Instance deconstruct_terms : works_on_terms (operator_deconstruct import_bits fuel).
Proof.
  intros w n args w' r H. unfold operator_deconstruct in H.
  apply bind_Ok in H as (lhs & _ & (rhs & _ & (u1 & _ & H)%bind_Ok)%bind_Ok). destruct (is_ref (cell_tag lhs)).
  - apply bind_Ok in H as (l & _ & (u2 & _ & (len & _ & (u3 & _ & (fst & _ & (u4 & _ & H)%bind_Ok)%bind_Ok)%bind_Ok)%bind_Ok)%bind_Ok).
    destruct (_ && _); [by eapply base_unify_keeps|]. apply bind_Ok in H as (fn & _ & H).
    destruct (negb fn); [by injection H as <- _|].
    apply bind_Ok in H as (f & _ & ([h f'] & Hf & ([w1 t] & H1 & (tl & _ & H)%bind_Ok)%bind_Ok)%bind_Ok).
    etransitivity; [exact (cells_keeps w h (to_functor_cells _ _ _ _ _ Hf))|by eapply new_filled_keeps].
  - destruct (bool_decide _); [keeps_done H|]. destruct (negb _); [by injection H as <- _|]. keeps_done H.
Qed.

End keeps.
