(* ===== verification/BuiltinsKeep.v ===== *)
(** * Control built-ins and the table of built-ins

    The control constructs, negated unification and [arg/3] keep choice points too, so
    every modelled built-in of [load_builtins] does: a program that calls no other built-ins
    satisfies the assumption of the theorems about backtracking. *)

From S2P Require Import Prelude Cells Heap HeapGrow Bigs TermEnv HeapSpec UnifySpec Unify UnifyFrame Machine Wam WamSafe WamUndo WamRun Arith Builtins BuiltinsSafe.

(** ** The table ([load_builtins])

    Name, arity, function, and whether the built-in calls goals. *)
Record builtin_entry := BuiltinEntry {
  be_name : list Z;
  be_arity : nat;
  be_fn : builtin_fn;
  be_recursive : bool
}.

Section table.
Context (import_bits : list Z -> Z) (fuel : nat) (c : code) (next_arg : code_point).

Definition load_builtins_control : list builtin_entry := [
  BuiltinEntry [116; 114; 117; 101] 0 true_0 false;
  BuiltinEntry [102; 97; 105; 108] 0 fail_0 false;
  BuiltinEntry [44] 2 (operator_comma c) true;
  BuiltinEntry [33] 0 operator_cut false;
  BuiltinEntry [95; 33] 0 operator_cut_if false;
  BuiltinEntry [59] 2 (operator_disjunction c) true;
  BuiltinEntry [45; 62] 2 (operator_if_then c) true ].
Definition load_builtins_order : list builtin_entry := [
  BuiltinEntry [64; 60] 2 (operator_at_less_than fuel) false;
  BuiltinEntry [64; 61; 60] 2 (operator_at_equals_less_than fuel) false;
  BuiltinEntry [64; 62] 2 (operator_at_greater_than fuel) false;
  BuiltinEntry [64; 62; 61] 2 (operator_at_greater_than_equals fuel) false;
  BuiltinEntry [61; 61] 2 (operator_equals fuel) false;
  BuiltinEntry [92; 61; 61] 2 (operator_not_equals fuel) false;
  BuiltinEntry [99; 111; 109; 112; 97; 114; 101] 3 (compare_3 import_bits fuel) false;
  BuiltinEntry [61] 2 (operator_unification import_bits fuel) false;
  BuiltinEntry [92; 61] 2 (operator_cannot_unify import_bits fuel) false ].
Definition load_builtins_types : list builtin_entry := [
  BuiltinEntry [118; 97; 114] 1 var_1 false;
  BuiltinEntry [110; 111; 110; 118; 97; 114] 1 nonvar_1 false;
  BuiltinEntry [105; 110; 116; 101; 103; 101; 114] 1 integer_1 false;
  BuiltinEntry [110; 117; 109; 98; 101; 114] 1 number_1 false;
  BuiltinEntry [97; 116; 111; 109] 1 atom_1 false;
  BuiltinEntry [97; 116; 111; 109; 105; 99] 1 atomic_1 false;
  BuiltinEntry [99; 111; 109; 112; 111; 117; 110; 100] 1 compound_1 false;
  BuiltinEntry [99; 97; 108; 108; 97; 98; 108; 101] 1 callable_1 false;
  BuiltinEntry [99; 121; 99; 108; 105; 99; 95; 116; 101; 114; 109] 1 cyclic_term_1 false;
  BuiltinEntry [97; 99; 121; 99; 108; 105; 99; 95; 116; 101; 114; 109] 1 acyclic_term_1 false;
  BuiltinEntry [105; 115; 95; 108; 105; 115; 116] 1 (is_list_1 fuel) false ].
Definition load_builtins_arithmetic : list builtin_entry := [
  BuiltinEntry [105; 115] 2 (is_2 import_bits fuel) false;
  BuiltinEntry [62; 61] 2 (greater_than_equals_2 fuel) false;
  BuiltinEntry [61; 60] 2 (less_than_equals_2 fuel) false;
  BuiltinEntry [62] 2 (greater_than_2 fuel) false;
  BuiltinEntry [60] 2 (less_than_2 fuel) false ].
Definition load_builtins_terms : list builtin_entry := [
  BuiltinEntry [97; 114; 103] 3 (arg_3 import_bits fuel c next_arg) false;
  BuiltinEntry [102; 117; 110; 99; 116; 111; 114] 3 (functor_3 import_bits fuel) false;
  BuiltinEntry [115; 97; 109; 101; 95; 116; 101; 114; 109] 2 same_term_2 false;
  BuiltinEntry [61; 46; 46] 2 (operator_deconstruct import_bits fuel) false ].
Definition load_builtins : list builtin_entry :=
  load_builtins_control ++ load_builtins_order ++ load_builtins_types ++ load_builtins_arithmetic ++
  load_builtins_terms.

End table.

(** The built-ins look at the code for the size of the calling environment only. *)
Definition same_calls (c c' : code) : Prop := forall w, num_y c w true = num_y c' w true.

(** The instructions call built-ins of the table, by a plain call or, when they call goals,
    by a recursive one.  (The built-ins in a value of type [code] cannot be built from that
    value itself, but from code with the same calls.) *)
Definition calls_table (import_bits : list Z -> Z) (fuel : nat) (next_arg : code_point) (c : code) : Prop :=
  exists c', same_calls c c' /\ forall o i, c_instrs c !! o = Some i ->
  match i with
  | BUILTIN _ bn => exists e, e ∈ load_builtins import_bits fuel c' next_arg /\ be_fn e = bn /\ be_recursive e = false
  | BUILTIN_R _ bn _ => exists e, e ∈ load_builtins import_bits fuel c' next_arg /\ be_fn e = bn /\ be_recursive e = true
  | _ => True
  end.

(** ** Built-ins as instances *)

Section keep.
Context (import_bits : list Z -> Z) (fuel : nat) (c : code) (SV : saved).

Abbreviation b := (sv_b SV).
Abbreviation ch := (sv_choice SV).
Abbreviation protected := (protected SV).
Abbreviation live := (live SV).
Abbreviation intact := (intact b ch).

Class KeepsChoice (bn : builtin_fn) : Prop := keeps_choice : builtin_keeps SV bn.

#[local] Instance true_keeps : KeepsChoice true_0.
Proof. intros w n args w' r L _ H _ _. injection H as <- _. apply L. Qed.
#[local] Instance fail_keeps : KeepsChoice fail_0.
Proof. intros w n args w' r L _ H _ _. injection H as <- _. apply L. Qed.

(** *** Goals on the stack *)

Lemma push_goal_live w w' : push_goal c w = Ok w' -> live w -> live w'.
Proof. apply (allocate_naive_live SV), num_y_nonneg. Qed.

Lemma core_live w w' : same_core w w' -> live w -> live w'.
Proof. apply same_live. Qed.

#[local] Instance comma_keeps : KeepsChoice (operator_comma c).
Proof.
  intros w n args w' r L _ H _ _. unfold operator_comma in H.
  apply bind_Ok in H as (x & _ & (y & _ & (w1 & H1 & (w2 & H2 & H)%bind_Ok)%bind_Ok)%bind_Ok). injection H as <- _.
  apply (lv_protected SV), (core_live w2); [by split|]. apply (push_goal_live _ _ H2), (core_live w1); [by split|].
  by apply (push_goal_live _ _ H1).
Qed.

Lemma push_condition_live w x y w' : push_condition c w x y = Ok w' -> live w -> live w'.
Proof.
  unfold push_condition. intros (w1 & H1 & (w2 & H2 & (w3 & H3 & H)%bind_Ok)%bind_Ok)%bind_Ok L. injection H as <-.
  apply (core_live w3); [by split|]. apply (push_goal_live _ _ H3), (core_live w2); [by split|].
  apply (push_goal_live _ _ H2), (core_live w1); [by split|]. apply (push_goal_live _ _ H1), (core_live w); [by split|done].
Qed.

Lemma new_choice_live w p w' : allocate_choice_point w (num_y c w true) p = Ok w' -> live w -> live w'.
Proof. apply (allocate_choice_live SV), num_y_nonneg. Qed.

#[local] Instance if_then_keeps : KeepsChoice (operator_if_then c).
Proof.
  intros w n args w' r L _ H _ _. unfold operator_if_then in H.
  apply bind_Ok in H as (x & _ & (y & _ & (w1 & H1 & (w2 & H2 & H)%bind_Ok)%bind_Ok)%bind_Ok). injection H as <- _.
  by apply (lv_protected SV), (push_condition_live _ _ _ _ H2), (new_choice_live _ _ _ H1).
Qed.
#[local] Instance if_then_else_keeps : KeepsChoice (operator_if_then_else c).
Proof.
  intros w n args w' r L _ H _ _. unfold operator_if_then_else in H.
  apply bind_Ok in H as (x & _ & (y & _ & (z & _ & (v & _ & (w1 & H1 & (w2 & H2 & H)%bind_Ok)%bind_Ok)%bind_Ok)%bind_Ok)%bind_Ok).
  injection H as <- _. by apply (lv_protected SV), (push_condition_live _ _ _ _ H2), (new_choice_live _ _ _ H1).
Qed.
#[local] Instance disjunction_keeps : KeepsChoice (operator_disjunction c).
Proof.
  intros w n args w' r L S H S' I. unfold operator_disjunction in H.
  apply bind_Ok in H as (x & _ & (f & _ & H)%bind_Ok). destruct (f =? ARROW); [by eapply if_then_else_keeps|].
  apply bind_Ok in H as (y & _ & (w1 & H1 & (w2 & H2 & H)%bind_Ok)%bind_Ok). injection H as <- _.
  apply (lv_protected SV), (core_live w2); [by split|]. by apply (push_goal_live _ _ H2), (new_choice_live _ _ _ H1).
Qed.

(** *** Cuts *)

Lemma tidy_regs w w' : base_tidy_trail w = Ok w' -> w_b w' = w_b w /\ w_frames w' = w_frames w.
Proof. unfold base_tidy_trail. intros (i & _ & (e & _ & H)%bind_Ok)%bind_Ok. by injection H as <-. Qed.

Lemma cut_direct_regs w w' : cut_direct w = Ok w' -> w_b w' = w_b0 w /\ w_frames w' = w_frames w.
Proof.
  unfold cut_direct. intros (w1 & [E1 F1]%set_hb_of_regs & [E2 F2]%tidy_regs)%bind_Ok.
  cbn in *. by rewrite E2, E1, F2, F1.
Qed.

Lemma cut_direct_protected w w' : cut_direct w = Ok w' -> live w -> b <= w_b0 w -> protected w'.
Proof.
  intros H L Hn. unfold cut_direct in H. apply bind_Ok in H as (w1 & H1 & H). destruct L as [P [_ F]].
  assert (P0 : protected (set_b w (w_b0 w))) by (destruct P; by split).
  destruct (set_hb_of_protected SV (set_b w (w_b0 w)) (w_b0 w) w1 P0 ltac:(by split) Hn H1) as (P1 & I1 & _).
  by destruct (base_tidy_protected SV w1 w' P1 I1 H).
Qed.

#[local] Instance cut_keeps_choice : KeepsChoice operator_cut.
Proof.
  intros w n args w' r L _ H _ I. unfold operator_cut, base_cut in H. apply bind_Ok in H as (w1 & H1 & H).
  injection H as <- _. destruct (_ <? _); [|injection H1 as <-; apply L]. apply (cut_direct_protected _ _ H1 L).
  destruct (cut_direct_regs _ _ H1) as [<- _]. apply I.
Qed.

(** Choice points point to older ones. *)
Lemma choice_older w a d : protected w -> get_choice w a = Ok d -> ch_b d < a.
Proof.
  intros P H. unfold get_choice in H. destruct (w_frames w !! a) as [[f|d']|] eqn:E; try done. injection H as ->.
  destruct (pr_frames _ _ P _ _ E) as [Ht _]. cbn in Ht. lia.
Qed.

#[local] Instance cut_if_keeps : KeepsChoice operator_cut_if.
Proof.
  intros w n args w' r L _ H _ I. unfold operator_cut_if in H.
  apply bind_Ok in H as (w1 & H1 & (f & _ & (w2 & H2 & (d & Hd & H)%bind_Ok)%bind_Ok)%bind_Ok). injection H as <- _.
  destruct (deallocate_env_live SV w w1 H1 L) as [L1 _].
  set (w1' := set_cp (set_p w1 (w_cp w1)) (env_cp f)) in *.
  assert (L1' : live w1') by (apply (core_live w1); [by split|done]).
  destruct (cut_direct_regs _ _ H2) as [Eb Ef]. pose proof (in_b _ _ _ I) as Hb. cbn in Hb.
  assert (Hd' : get_choice w1' (w_b0 w1') = Ok d) by (unfold get_choice in *; by rewrite <-Ef, <-Eb).
  pose proof (choice_older _ _ _ (lv_protected _ _ L1') Hd').
  destruct (cut_direct_protected _ _ H2 L1' ltac:(lia)). by split.
Qed.

(** *** Negated unification *)

Lemma base_unify_trail w x y w' ok :
  protected w -> small w -> base_unify import_bits fuel w x y = Ok (w', ok) ->
  exists T, e_trail (w_env w') = e_trail (w_env w) ++ T.
Proof.
  intros P Sm H. unfold base_unify in H.
  apply bind_Ok in H as ([[e v] k] & Hu & (w1 & H1%add_cost_same & H)%bind_Ok). injection H as <- _.
  pose proof (es_ok _ _ (pr_env _ _ P)) as Eo.
  destruct (unify_frame _ _ _ _ _ _ _ _ (small_plain w Eo Sm) (eo_temp _ Eo) Hu) as (T & [_ _ _ Ht _ _ _] & _).
  exists T. by rewrite (sc_env _ _ H1).
Qed.

#[local] Instance cannot_unify_keeps : KeepsChoice (operator_cannot_unify import_bits fuel).
Proof.
  intros w n args w' r L S H _ _. unfold operator_cannot_unify in H.
  apply bind_Ok in H as (x & _ & (y & _ & ([w1 ok] & H1 & (w2 & H2 & H)%bind_Ok)%bind_Ok)%bind_Ok). injection H as <- _.
  pose proof (lv_protected _ _ L) as P. pose proof (base_unify_protected _ _ _ _ _ _ _ _ P S H1) as P1.
  destruct ok; [|by injection H2 as <-].
  destruct (base_unify_trail _ _ _ _ _ P S H1) as (T1 & HT1). destruct (es_trail _ _ (pr_env _ _ P)) as (T & HT & _).
  refine (base_unwind_protected SV w1 _ w2 P1 _ _ H2); unfold trail_size; rewrite ?HT1, HT, ?length_app; lia.
Qed.

(** *** [arg/3] *)

Lemma copy_regs w t w' : new_term_copy_cell w t = Ok w' -> w_b w' = w_b w /\ w_frames w' = w_frames w.
Proof. unfold new_term_copy_cell. intros ([h i] & _ & H)%bind_Ok. by injection H as <-. Qed.

Lemma store_p_keeps w w' : store_p_on_heap_if_wam w = Ok w' ->
  keeps SV w w' /\ w_b w' = w_b w /\ w_frames w' = w_frames w.
Proof.
  unfold store_p_on_heap_if_wam. intros H. destruct (has_wam_code _); [apply bind_Ok in H as (o & _ & H)|].
  all: split; [by eapply copy_cell_keeps|by eapply copy_regs].
Qed.

(** Cells on the heap, then a choice point, then work on terms. *)
Lemma choice_in_between w w1 p w2 w' :
  keeps SV w w1 -> w_b w1 = w_b w -> w_frames w1 = w_frames w -> allocate_choice_point w1 (num_y c w1 true) p = Ok w2 ->
  keeps SV w2 w' -> live w -> small w' -> protected w'.
Proof.
  intros K1 Eb Ef H2 K2 L S'. destruct (kp_heap _ _ _ K1 (protected_heap _ _ (lv_protected _ _ L))) as [Hi _].
  assert (E : w_heap w2 = w_heap w1).
  { unfold allocate_choice_point, allocate_choices in H2. apply bind_Ok in H2 as (a & _ & (args & _ & H2)%bind_Ok). by injection H2 as <-. }
  assert (S2 : small w2) by (apply (kp_small SV _ w' K2); [by rewrite E|done]).
  assert (S1 : small w1) by (unfold small in *; by rewrite <-E).
  apply (kp_protected _ _ _ K2 S'), (lv_protected SV), (new_choice_live _ _ _ H2).
  split; [by apply (kp_protected _ _ _ K1 S1), L|]. apply (intact_same SV w1 w); [done|done|apply L].
Qed.

#[local] Instance arg_3_keeps next_arg : KeepsChoice (arg_3 import_bits fuel c next_arg).
Proof.
  intros w n args w' r L S H S' _. unfold arg_3 in H.
  apply bind_Ok in H as (i & _ & (t & _ & (u1 & _ & ([w4 i'] & H4 & H)%bind_Ok)%bind_Ok)%bind_Ok).
  apply bind_Ok in H as (u2 & _ & (f & _ & (u3 & _ & (v & _ & (a2 & _ & H%(base_unify_keeps _ _ SV))%bind_Ok)%bind_Ok)%bind_Ok)%bind_Ok).
  destruct (is_ref (cell_tag i)).
  - apply bind_Ok in H4 as (w1 & H1 & (w2 & H2%store_p_keeps & (w3 & H3 & ([w5 ok] & H5%(base_unify_keeps _ _ SV) & H4)%bind_Ok)%bind_Ok)%bind_Ok).
    injection H4 as -> _. destruct H2 as (K2 & Eb & Ef). destruct (copy_regs _ _ _ H1) as [Eb1 Ef1].
    eapply (choice_in_between w w2); [|congruence..|exact H3| |exact L|exact S'].
    + etransitivity; [by eapply copy_cell_keeps|exact K2].
    + by etransitivity.
  - injection H4 as <- _. by apply (kp_protected _ _ _ H S'), L.
Qed.

(** *** Every built-in of the table *)

#[local] Instance terms_keep_choice bn : works_on_terms SV bn -> KeepsChoice bn.
Proof. intros H. by eapply terms_keep. Qed.

Lemma table_keeps next_arg e : e ∈ load_builtins import_bits fuel c next_arg -> KeepsChoice (be_fn e).
Proof.
  intros H%list_elem_of_In. cbn in H. repeat (destruct H as [<-|H]; [apply _|]). done.
Qed.

End keep.

(** C20: whatever built-ins of the table a program calls, they keep every choice point: they
    change the machine only in ways that backtracking to it undoes, unless they pop it.
    This is what the theorems about choice points ask of the built-ins of a program. *)
Theorem table_builtins_keep import_bits fuel next_arg c :
  calls_table import_bits fuel next_arg c -> forall SV, code_keeps c SV.
Proof.
  intros (c' & _ & H) SV o i Hi. specialize (H o i Hi).
  destruct i; try done; destruct H as (e & He & <- & _); by apply (table_keeps import_bits fuel c' SV next_arg).
Qed.

(** *** An example *)

(** Code without its built-ins. *)
Definition erase_builtin (i : instr) : instr :=
  match i with BUILTIN f _ => BUILTIN f fail_0 | BUILTIN_R f _ n => BUILTIN_R f fail_0 n | i => i end.
Definition erase_builtins (c : code) : code := Code (erase_builtin <$> c_instrs c) (c_rev_map c) (c_meta c).

Lemma erased_calls c w : num_y (erase_builtins c) w true = num_y c w true.
Proof.
  unfold num_y. cbn [negb andb]. destruct (negb (has_wam_code (w_cp w))); [done|].
  destruct (wam_offset (w_cp w)) as [o|]; [|done]. cbn. unfold num_y_at_call, to_code. cbn.
  rewrite lookup_fmap. by destruct (c_instrs c !! (o - 6)) as [[]|].
Qed.

Lemma erased_same_calls c c' : erase_builtins c = erase_builtins c' -> same_calls c c'.
Proof. intros E w. by rewrite <-(erased_calls c), E, erased_calls. Qed.

(** [p(X, Y) :- X = Y, (true ; fail).], with [;] called after [=]. *)
Module KeepExample.

Definition prog_with (unify disjunction : builtin_fn) : code := Code {[
  0 := ALLOCATE;
  2 := BUILTIN (con_constant [61] 2) unify;
  7 := PUT_CONSTANT (con_constant [116; 114; 117; 101] 0) 0;
  11 := PUT_CONSTANT (con_constant [102; 97; 105; 108] 0) 1;
  15 := BUILTIN_R (con_constant [59] 2) disjunction 0;
  21 := DEALLOCATE;
  23 := PROCEED ]} [] ∅.
Definition digits (bs : list Z) : Z := foldl (fun v b => 256 * v + b) 0 bs.
Definition prog : code :=
  prog_with (operator_unification digits 10) (operator_disjunction (prog_with fail_0 fail_0)).

Lemma prog_table next_arg : calls_table digits 10 next_arg prog.
Proof.
  exists (prog_with fail_0 fail_0). split; [by apply erased_same_calls; vm_compute|].
  intros o i H. unfold prog, prog_with in H. cbn [c_instrs] in H.
  repeat (apply lookup_insert_Some in H as [[_ <-]|[_ H]]; [try done|]); [..|by apply lookup_singleton_Some in H as [_ <-]].
  - eexists (BuiltinEntry [61] 2 _ false). split; [|done]. apply list_elem_of_In. cbn. do 14 right. by left.
  - eexists (BuiltinEntry [59] 2 _ true). split; [|done]. apply list_elem_of_In. cbn. do 5 right. by left.
Qed.

End KeepExample.

Lemma table_builtins_keep_witness :
  calls_table KeepExample.digits 10 code_fail KeepExample.prog /\ forall SV, code_keeps KeepExample.prog SV.
Proof.
  split; [exact (KeepExample.prog_table code_fail)|].
  exact (table_builtins_keep KeepExample.digits 10 code_fail KeepExample.prog (KeepExample.prog_table code_fail)).
Defined.
