(* ===== verification/BuiltinsSpec.v ===== *)
(** * What the built-ins do

    Type tests, pure tests of unification, and the control constructs. *)

From S2P Require Import Prelude Cells Heap HeapGrow Bigs TermEnv HeapSpec UnifySpec Unify UnifyFrame Machine Wam WamSafe WamUndo WamRun Backtrack Arith Builtins BuiltinsSafe BuiltinsKeep.

(** ** Type tests *)

(** The classes a dereferenced term can be in. *)
Inductive term_class := VAR | INTEGER | ATOM | COMPOUND | OTHER.
#[export] Instance term_class_eq_dec : EqDecision term_class.
Proof. solve_decision. Defined.

(** The class of a term whose functor is [f], if it has one. *)
Definition class_of (t : Z) (f : option Z) : term_class :=
  match cell_tag t, f with
  | (REF | RFW), _ => VAR
  | INT, _ => INTEGER
  | CON, _ => ATOM
  | STR, Some f => if con_arity f =? 0 then ATOM else COMPOUND
  | _, _ => OTHER
  end.

(** C28: the type tests tell the class of a dereferenced term: each test answers for its
    classes and no other, so a term passes exactly one of [var], [integer], [atom] and
    [compound], or, as big integers do, none of them; [atomic] is [atom]. *)
Theorem type_tests_classify (w : wam) (n : nat) (t f : Z) :
  (cell_tag t = STR -> functor (w_heap w) t = Ok f) ->
  let k := class_of t (Some f) in
  var_1 w n [t] = Ok (w, bool_decide (k = VAR)) /\
  nonvar_1 w n [t] = Ok (w, bool_decide (k <> VAR)) /\
  integer_1 w n [t] = Ok (w, bool_decide (k = INTEGER)) /\
  number_1 w n [t] = Ok (w, bool_decide (k = INTEGER)) /\
  atom_1 w n [t] = Ok (w, bool_decide (k = ATOM)) /\
  atomic_1 w n [t] = Ok (w, bool_decide (k = ATOM)) /\
  compound_1 w n [t] = Ok (w, bool_decide (k = COMPOUND)) /\
  callable_1 w n [t] = Ok (w, bool_decide (k = ATOM \/ k = COMPOUND)) /\
  (k = OTHER <-> cell_tag t = BIG \/ cell_tag t = DAT \/ cell_tag t = FWD).
Proof.
  intros Hf. unfold var_1, nonvar_1, integer_1, number_1, integer_1, atom_1, atomic_1, atom_1, compound_1, callable_1,
    atom_1, compound_1, tag_test, is_atom, is_compound, class_of, builtin_arg. cbn [lookup list_lookup of_option]. rewrite !Ok_bind.
  destruct (cell_tag t) eqn:E; rewrite ?Ok_bind, ?E; cbn - [functor].
  all: try (split_and!; first [done|intuition congruence]).
  rewrite (Hf eq_refl), !Ok_bind. pose proof (con_arity_pos f).
  destruct (Z.eqb_spec (con_arity f) 0) as [->|Hne]; rewrite ?Ok_bind, ?E; cbn - [functor];
    rewrite ?(Hf eq_refl), ?Ok_bind; [split_and!; first [done|intuition congruence]|].
  replace (0 <? con_arity f) with true by (symmetry; apply Z.ltb_lt; lia).
  split_and!; first [done|intuition congruence].
Qed.

(** ** Tests of unification *)

(** The cells and the trail are as before, variables up to their watch bit. *)
Record same_store (w w' : wam) : Prop := SameStore {
  ss_size : h_size (w_heap w') = h_size (w_heap w);
  ss_trail : e_trail (w_env w') = e_trail (w_env w);
  ss_hb : e_hb (w_env w') = e_hb (w_env w);
  ss_cells : forall i, i < h_size (w_heap w) -> watch_eq (h_cells (w_heap w) !! i) (h_cells (w_heap w') !! i)
}.

Lemma unwind_closures_cells l w w' : unwind_frozen_closures w l = Ok w' ->
  exists h, w_env w' = with_heap (w_env w) h /\ same_layout (w_heap w) h /\
    forall i, watch_eq (h_cells (w_heap w) !! i) (h_cells h !! i).
Proof.
  revert w. induction l as [|a l IH]; intros w H; cbn [unwind_frozen_closures] in H.
  { injection H as <-. exists (w_heap w). split_and!; [by destruct w as [[]]|done|reflexivity]. }
  apply bind_Ok in H as (x & _ & (w1 & H1 & H)%bind_Ok). destruct (IH _ H) as (h & E & Ly & C).
  destruct x; [|injection H1 as <-; by exists h]. unfold clear_frozen_closure in H1.
  apply bind_Ok in H1 as (g & Hg & H1). injection H1 as <-. destruct (heap_watch_cells _ _ _ _ Hg) as (x & -> & Hx).
  exists h. cbn in *. split_and!; [by rewrite E|by etransitivity; [|exact Ly]|].
  intros i. rewrite <-C. unfold w_heap. cbn. rewrite lookup_insert. by destruct (decide (a = i)) as [<-|].
Qed.

(** Unwinding from the old end of the trail takes a unification back that recorded every
    binding in the trail. *)
Lemma unwind_unified e e1 T w1 w' :
  unified_env e e1 T -> h_size (e_heap e) <= e_hb e -> w_env w1 = e1 -> unwind w1 (trail_size e) = Ok w' ->
  h_size (w_heap w') = h_size (e_heap e) /\ e_trail (w_env w') = e_trail e /\ e_hb (w_env w') = e_hb e /\
  forall i, i < h_size (e_heap e) -> watch_eq (h_cells (e_heap e) !! i) (h_cells (w_heap w') !! i).
Proof.
  intros [B Hs Hb Ht Tm V Hh] Hhb E1 H. unfold unwind in H. rewrite E1, Ht in H.
  assert (Hdrop : drop (trail_size e) (e_trail e ++ T) = T) by (unfold trail_size; by rewrite drop_app_length).
  rewrite Hdrop in H. apply bind_Ok in H as (w2 & H2 & (e2 & He & H)%bind_Ok). injection H as <-.
  destruct (unwind_closures_cells _ _ _ H2) as (h & E2 & [Ls Lb] & C). unfold w_heap in *. rewrite E1 in *.
  unfold TermEnv.unwind_trail in He. rewrite E2 in He. cbn in He. unfold trail_size in He. cbn in He.
  rewrite Ht in He. unfold trail_size in Hdrop. rewrite Hdrop in He.
  rewrite take_ge in He by (rewrite length_app; lia).
  apply bind_Ok in He as (h2 & Hu & He). injection He as <-. destruct (unwind_loop_cells _ _ _ Hu) as (Us & Ub & Uc).
  split_and!; cbn; rewrite ?E2; cbn; [congruence| |done|].
  - unfold trail_size. cbn. rewrite Ht, take_app_length. replace (_ - _)%nat with 0%nat; [by rewrite app_nil_r|].
    rewrite length_app. lia.
  - intros i Hi. rewrite Uc. destruct (decide (i ∈ T)) as [HiT|HiT].
    + destruct (V i HiT) as (_ & Hx & _ & d & -> & Hself). eapply was_var_watch; [done|by apply self_ref_cell].
    + rewrite <-C. destruct (B i) as [?|(_ & _ & [?|?])]; [done|done|lia].
Qed.

Section unifying.
Context (import_bits : list Z -> Z) (fuel : nat).

(** A failed unification of the machine. *)
Lemma failed_unify w x y w' : env_ok (w_env w) -> small w -> base_unify import_bits fuel w x y = Ok (w', false) ->
  same_store w w'.
Proof.
  intros Eo Sm H. unfold base_unify in H. apply bind_Ok in H as ([[e v] k] & Hu & (w1 & H1%add_cost_same & H)%bind_Ok).
  injection H as <- ->. destruct (unify_frame _ _ _ _ _ _ _ _ (small_plain w Eo Sm) (eo_temp _ Eo) Hu) as (T & [B Hs Hb Ht Tm V Hh] & HT).
  destruct (HT eq_refl) as [-> C]. rewrite app_nil_r in Ht. cbn in H1. destruct H1 as [E1 _ _ _ _].
  unfold w_heap in *. split; unfold w_heap; rewrite ?E1; done.
Qed.

(** [can_unify], which clause selection uses to look at a head, changes nothing whether
    the terms unify or not: every cell, the trail, the size of the heap and [hb] are as
    before (variables up to their watch bit). *)
Theorem can_unify_pure w x y w' r :
  env_ok (w_env w) -> small w -> can_unify import_bits fuel w x y = Ok (w', r) -> same_store w w'.
Proof.
  intros Eo Sm H. unfold can_unify in H. apply bind_Ok in H as ([w1 ok] & H1 & (w2 & H2 & H)%bind_Ok). injection H as <- <-.
  set (w0 := set_hb w (h_size (w_heap w))) in *.
  assert (Eo0 : env_ok (w_env w0)) by (destruct Eo; by split). assert (Sm0 : small w0) by exact Sm.
  destruct ok.
  - unfold base_unify in H1. apply bind_Ok in H1 as ([[e v] k] & Hu & (w3 & H3%add_cost_same & H1)%bind_Ok).
    injection H1 as -> ->. destruct (unify_frame _ _ _ _ _ _ _ _ (small_plain w0 Eo0 Sm0) (eo_temp _ Eo0) Hu) as (T & U & _).
    destruct (unwind_unified _ _ _ w1 w2 U (Z.le_refl _) (sc_env _ _ H3) H2) as (Us & Ut & _ & Uc).
    split; [exact Us|exact Ut|done|exact Uc].
  - injection H2 as <-. destruct (failed_unify _ _ _ _ Eo0 Sm0 H1) as [Us Ut _ Uc].
    split; [exact Us|exact Ut|done|exact Uc].
Qed.

(** When [\=] succeeds it has changed nothing, and it succeeds exactly when [=] fails. *)
Lemma cannot_unify_pure w n x y w' :
  env_ok (w_env w) -> small w -> operator_cannot_unify import_bits fuel w n [x; y] = Ok (w', true) ->
  same_store w w' /\ operator_unification import_bits fuel w n [x; y] = Ok (w', false).
Proof.
  intros Eo Sm H. unfold operator_cannot_unify, operator_unification, builtin_arg in *. cbn [lookup list_lookup of_option] in *.
  rewrite !Ok_bind in *. apply bind_Ok in H as ([w1 ok] & H1 & (w2 & H2 & H)%bind_Ok). injection H as <- Hr.
  destruct ok; [done|]. injection H2 as <-. split; [by eapply failed_unify|done].
Qed.

End unifying.

(** ** Examples *)

Module SpecExample.

Definition start : wam := Backtrack.Example.start.
Definition digits : list Z -> Z := Backtrack.Example.digits.
Definition atom_a : Z := con_constant [97] 0.
Definition f_1 : Z := con_constant [102] 1.
(** [f(_)] at address 2 of the heap of [start] *)
Definition with_f : wam :=
  match new_str (w_heap start) f_1 with Ok (h, _) => set_heap start h | Throw _ => start end.
(** [X = a] for the variable at address 0. *)
Definition looked : wam :=
  match can_unify digits 10 start (ref_cell 0) atom_a with Ok (w, _) => w | Throw _ => start end.

End SpecExample.

Lemma type_tests_classify_witness :
  class_of (str_cell 3) (Some SpecExample.f_1) = COMPOUND /\
  callable_1 SpecExample.with_f 1 [str_cell 3] = Ok (SpecExample.with_f, bool_decide (COMPOUND = ATOM \/ COMPOUND = COMPOUND)).
Proof.
  split; [vm_compute; reflexivity|].
  destruct (type_tests_classify SpecExample.with_f 1 (str_cell 3) SpecExample.f_1) as (_ & _ & _ & _ & _ & _ & _ & H & _).
  - intros _. vm_compute. reflexivity.
  - exact H.
Defined.

Lemma can_unify_pure_witness :
  can_unify SpecExample.digits 10 SpecExample.start (ref_cell 0) SpecExample.atom_a = Ok (SpecExample.looked, true) /\
  same_store SpecExample.start SpecExample.looked.
Proof.
  split; [vm_compute; reflexivity|].
  refine (can_unify_pure SpecExample.digits 10 SpecExample.start (ref_cell 0) SpecExample.atom_a SpecExample.looked true
    (wo_env _ Backtrack.Example.start_ok) _ _); [vm_compute; by intros [=]|vm_compute; reflexivity].
Defined.
