(* ===== verification/Control.v ===== *)
(** * Control constructs ([src/src/interp/builtins.cpp])

    Conjunction runs its goals in order and then the continuation; if-then-else commits to
    the first solution of its condition.  And a cut in a branch of if-then-else brings the
    other branch back. *)

From S2P Require Import Prelude Cells Heap TermEnv Unify Machine Wam WamSafe Backtrack Builtins.

Section control.
Context (c : code).

(** ** Environments of goals *)

Definition goal_env (w : wam) : environment :=
  Environment (w_e w) (w_e_kind w) (w_cp w) (NaiveRest (w_b0 w) (w_qr w) (w_pr w)).

(** A pushed goal saves the registers in a new environment. *)
Definition pushed (w : wam) (a : Z) : wam := set_e (put_frame w a (FEnv (goal_env w))) a ENV_NAIVE.

Lemma push_goal_pushed w w' : wam_ok w -> push_goal c w = Ok w' ->
  exists a, w' = pushed w a /\ 0 < a /\ w_e w < a /\ w_b w < a.
Proof.
  intros W H. unfold push_goal, allocate_naive in H. apply bind_Ok in H as (a & Ha & H). injection H as <-.
  destruct (fresh_above w _ a W (num_y_nonneg c w true) Ha) as (? & ? & ?). by exists a.
Qed.

(** On top of the environment of another goal, it lies right behind it. *)
Lemma push_again w w' : w_e_kind w = ENV_NAIVE -> has_wam_code (w_cp w) = false -> w_b w < w_e w ->
  push_goal c w = Ok w' -> w' = pushed w (w_e w + 8).
Proof.
  intros Hk Hcp Hb H. unfold push_goal, allocate_naive in H. apply bind_Ok in H as (a & Ha & H). injection H as <-.
  unfold allocate_stack, num_y, base_num_y in Ha. rewrite Hcp, Hk in Ha. cbn in Ha.
  rewrite (proj2 (Z.ltb_lt _ _) Hb) in Ha. cbn in Ha. apply bind_Ok in Ha as (u & _ & Ha). by injection Ha as <-.
Qed.

(** On top of a choice point, it lies behind the saved arguments. *)
Lemma push_on_choice w w' ch : 0 < w_b w -> w_e w <= w_b w -> w_frames w !! w_b w = Some (FChoice ch) ->
  push_goal c w = Ok w' -> w' = pushed w (w_b w + choice_size ch).
Proof.
  intros Hb He Hch H. unfold push_goal, allocate_naive in H. apply bind_Ok in H as (a & Ha & H). injection H as <-.
  unfold allocate_stack in Ha. rewrite (proj2 (Z.ltb_ge _ _) He), (proj2 (Z.eqb_neq _ 0)) in Ha by lia.
  unfold get_choice in Ha. rewrite Hch in Ha. cbn in Ha. apply bind_Ok in Ha as (u & _ & Ha). by injection Ha as <-.
Qed.

Lemma pushed_frame w a : w_frames (pushed w a) !! a = Some (FEnv (goal_env w)).
Proof. cbn. by rewrite lookup_insert_eq. Qed.

Lemma pushed_older w a x f : w_frames w !! x = Some f -> x + frame_size f <= a -> x < a ->
  w_frames (pushed w a) !! x = Some f.
Proof. intros H Hx Hlt. cbn. rewrite lookup_insert_ne by lia. by apply map_lookup_filter_Some. Qed.

(** A goal left the environments as they were when it was called. *)
Record returned (w w' : wam) : Prop := Returned {
  rt_e : w_e w' = w_e w;
  rt_kind : w_e_kind w' = w_e_kind w;
  rt_top : w_top w' = w_top w;
  rt_envs : forall a f, a <= w_e w -> w_frames w !! a = Some (FEnv f) -> w_frames w' !! a = Some (FEnv f)
}.

#[export] Instance returned_preorder : PreOrder returned.
Proof.
  split; [by split|]. intros w1 w2 w3 [E1 K1 T1 F1] [E2 K2 T2 F2]. split; [congruence..|].
  intros a f Ha H. apply F2; [lia|]. by apply F1.
Qed.

(** The registers of an environment come back. *)
Definition resumed (w : wam) (f : environment) (b0 qr : Z) (pr : qname) : wam :=
  set_pr (set_qr (set_b0 (set_e (set_cp w (env_cp f)) (env_ce f) (env_ce_kind f)) b0) qr) pr.

Lemma pop_goal w f b0 qr pr :
  w_e_kind w = ENV_NAIVE -> w_frames w !! w_e w = Some (FEnv f) -> env_more f = NaiveRest b0 qr pr ->
  deallocate_environment w = Ok (resumed w f b0 qr pr).
Proof. intros Hk Hf Hm. unfold deallocate_environment, get_env. rewrite Hf, Ok_bind, Hk, Hm. done. Qed.

Lemma proceed_goal w f b0 qr pr :
  w_e_kind w = ENV_NAIVE -> w_frames w !! w_e w = Some (FEnv f) -> env_more f = NaiveRest b0 qr pr ->
  w_e w <> top_e (w_top w) ->
  deallocate_and_proceed w =
    Ok (set_cp (set_p (resumed w f b0 qr pr) (env_cp f)) (code_of_term EMPTY_LIST)).
Proof.
  intros Hk Hf Hm Ht. unfold deallocate_and_proceed. rewrite (proj2 (Z.eqb_neq _ _) Ht).
  rewrite (pop_goal _ _ _ _ _ Hk Hf Hm), Ok_bind. by rewrite Hk, bool_decide_false.
Qed.

(** ** Conjunction *)

(** The machine is about to run [p] in the environment of [w]. *)
Record continues (w w' : wam) (p : code_point) : Prop := Continues {
  ct_p : w_p w' = p;
  ct_e : w_e w' = w_e w;
  ct_kind : w_e_kind w' = w_e_kind w;
  ct_b0 : w_b0 w' = w_b0 w;
  ct_qr : w_qr w' = w_qr w;
  ct_pr : w_pr w' = w_pr w
}.

(** C19: [(G1, G2)] runs [G1]; when it returns, whatever it did to the rest of the machine,
    the machine runs [G2]; and when that returns, the continuation of the conjunction, with
    the environment and the cut barrier of the call. *)
Theorem comma_in_order w n g1 g2 w1 :
  wam_ok w -> top_e (w_top w) <= w_e w -> operator_comma c w n [g1; g2] = Ok (w1, true) ->
  w_p w1 = code_of_term g1 /\
  forall w2, returned w1 w2 -> exists w3, deallocate_and_proceed w2 = Ok w3 /\
    w_p w3 = code_of_term g2 /\ w_b0 w3 = w_b0 w /\
  forall w4, returned w3 w4 -> exists w5, deallocate_and_proceed w4 = Ok w5 /\ continues w w5 (w_cp w).
Proof.
  intros W Ht H. unfold operator_comma, builtin_arg in H. cbn [lookup list_lookup of_option] in H.
  rewrite !Ok_bind in H. apply bind_Ok in H as (v1 & H1 & (v2 & H2 & H)%bind_Ok). injection H as <-.
  destruct (push_goal_pushed _ _ W H1) as (a & -> & Ha & He & Hb).
  apply push_again in H2 as ->; [|done|done|exact Hb]. split; [done|]. intros w2 [E2 K2 T2 F2].
  cbn [w_e set_cp set_p pushed set_e w_e_kind w_top put_frame set_stack] in *.
  eexists. split; [|split; [|split]].
  - eapply (proceed_goal w2 (goal_env (set_cp (pushed w a) (code_of_term g2)))); [exact K2| |reflexivity|].
    + rewrite E2. apply F2; [lia|]. apply (pushed_frame (set_cp (pushed w a) (code_of_term g2)) (a + 8)).
    + rewrite E2, T2. cbn. lia.
  - done.
  - done.
  - intros w4 [E4 K4 T4 F4]. eexists. split.
    + eapply (proceed_goal w4 (goal_env w)); [exact K4| |reflexivity|].
      * rewrite E4. apply F4; [cbn; lia|]. cbn. apply F2; [lia|]. cbn.
        apply (pushed_older (set_cp (pushed w a) (code_of_term g2)) (a + 8)); [apply pushed_frame|cbn; lia|lia].
      * rewrite E4, T4. cbn. rewrite T2. cbn. lia.
    + done.
Qed.

(** ** If-then-else *)

(** The condition has been solved: the environments and the choice point of the
    if-then-else are in place, and the trail has grown.  The condition may have left choice
    points. *)
Record solved (w w' : wam) : Prop := Solved {
  sl_returned : returned w w';
  sl_choice : w_frames w' !! w_b w = w_frames w !! w_b w;
  sl_trail : (trail_size (w_env w) <= trail_size (w_env w'))%nat
}.

(** Cutting back to an older choice point only touches [b], [hb] and the trail. *)
Lemma cut_direct_ok w ch :
  0 < w_b0 w -> w_frames w !! w_b0 w = Some (FChoice ch) -> (ch_tr ch <= trail_size (w_env w))%nat ->
  exists e, cut_direct w = Ok (set_env (set_b w (w_b0 w)) e) /\ e_heap e = w_heap w /\ (ch_tr ch <= trail_size e)%nat.
Proof.
  intros Hb Hch Htr. unfold cut_direct, set_hb_of. cbn [w_b set_b]. rewrite (proj2 (Z.eqb_neq (w_b0 w) 0)) by lia.
  unfold get_choice. cbn [w_frames set_b]. rewrite Hch, !Ok_bind.
  unfold base_tidy_trail, tidy_from. cbn [w_b set_b set_hb set_env w_env]. rewrite (proj2 (Z.eqb_neq (w_b0 w) 0)) by lia.
  unfold get_choice. cbn [w_frames set_b set_hb set_env]. rewrite Hch, !Ok_bind.
  unfold TermEnv.tidy_trail, trail_size in *. cbn [set_register_hb e_hb e_trail].
  destruct (tidy_loop_ok (ch_h ch) (S (length (e_trail (w_env w)) - ch_tr ch)) (e_trail (w_env w)) (ch_tr ch)
    (length (e_trail (w_env w)))) as (T & HT & _); [lia..|].
  rewrite HT, !Ok_bind. eexists. split; [reflexivity|]. split; [done|]. cbn. rewrite length_app, length_take. lia.
Qed.

(** [operator_cut_if] pops an environment and the choice points up to that of the
    if-then-else. *)
Lemma cut_if_pops w n args f b0 qr pr f' ch :
  w_e_kind w = ENV_NAIVE -> w_frames w !! w_e w = Some (FEnv f) -> env_more f = NaiveRest b0 qr pr ->
  w_frames w !! env_ce f = Some (FEnv f') -> 0 < b0 -> w_frames w !! b0 = Some (FChoice ch) ->
  (ch_tr ch <= trail_size (w_env w))%nat ->
  exists e, operator_cut_if w n args =
      Ok (set_b (set_env (set_cp (set_p (resumed w f b0 qr pr) (env_cp f)) (env_cp f')) e) (ch_b ch), true) /\
    e_heap e = w_heap w /\ (ch_tr ch <= trail_size e)%nat.
Proof.
  intros Hk Hf Hm Hf' Hb0 Hch Htr. unfold operator_cut_if. rewrite (pop_goal _ _ _ _ _ Hk Hf Hm), Ok_bind.
  unfold get_env. cbn [w_frames resumed set_pr set_qr set_b0 set_e set_cp w_e]. rewrite Hf', Ok_bind.
  destruct (cut_direct_ok (set_cp (set_p (resumed w f b0 qr pr) (env_cp f)) (env_cp f')) ch Hb0 Hch Htr) as (e & He & Hh & Hl).
  change (w_cp (resumed w f b0 qr pr)) with (env_cp f).
  fold (resumed w f b0 qr pr). rewrite He, Ok_bind. unfold get_choice.
  cbn [w_frames w_b w_b0 set_b set_env set_cp set_p resumed set_pr set_qr set_b0 set_e]. rewrite Hch, Ok_bind. by exists e.
Qed.

(** The environments of a condition, on top of the choice point. *)
Record condition_pushed (v w : wam) (ch : choice_point) (cond if_true : Z) : Prop := ConditionPushed {
  cp_p : w_p w = code_of_term cond;
  cp_b : w_b w = w_b v;
  cp_kind : w_e_kind w = ENV_NAIVE;
  cp_top : w_top w = w_top v;
  cp_env : w_env w = w_env v;
  cp_low : w_b v < w_e w - 16;
  cp_choice : w_frames w !! w_b v = Some (FChoice ch);
  cp_if_true : w_frames w !! (w_e w - 16) =
    Some (FEnv (Environment (w_e v) (w_e_kind v) (w_cp v) (NaiveRest (w_b v) (w_qr v) (w_pr v))));
  cp_cut : w_frames w !! (w_e w - 8) =
    Some (FEnv (Environment (w_e w - 16) ENV_NAIVE (code_of_term if_true) (NaiveRest (w_b v) (w_qr v) (w_pr v))));
  cp_cond : w_frames w !! w_e w =
    Some (FEnv (Environment (w_e w - 8) ENV_NAIVE (code_of_term CUT_IF) (NaiveRest (w_b v) (w_qr v) (w_pr v))))
}.

Lemma push_condition_pushed v ch cond if_true w : 0 < w_b v -> w_e v < w_b v -> w_frames v !! w_b v = Some (FChoice ch) ->
  push_condition c v cond if_true = Ok w -> condition_pushed v w ch cond if_true.
Proof.
  intros Hb He Hch H. unfold push_condition in H. apply bind_Ok in H as (v1 & H1 & (v2 & H2 & (v3 & H3 & H)%bind_Ok)%bind_Ok).
  injection H as <-. assert (Hs : 0 < choice_size ch) by (unfold choice_size; lia).
  apply (push_on_choice _ _ ch) in H1 as ->; [|done|cbn; lia|done]. cbn [w_b set_b0] in *.
  set (a := w_b v + choice_size ch) in *.
  apply push_again in H2 as ->; [|done|done|cbn; lia]. apply push_again in H3 as ->; [|done|done|cbn; lia].
  cbn [w_e set_cp pushed set_e] in *. set (v0 := set_b0 v (w_b v)). set (v1 := set_cp (pushed v0 a) (code_of_term if_true)).
  set (v2 := set_cp (pushed v1 (a + 8)) (code_of_term CUT_IF)).
  assert (E : w_e (pushed v2 (a + 8 + 8)) = a + 16) by (cbn; lia).
  split; cbn [w_p w_b w_e_kind w_top w_env w_frames set_p]; try done; change (w_e (set_p (pushed v2 (a + 8 + 8)) _)) with (a + 8 + 8).
  - cbn. lia.
  - change (w_frames (pushed v2 (a + 8 + 8)) !! w_b v = Some (FChoice ch)).
    apply pushed_older; [apply pushed_older; [apply pushed_older; [done|cbn; lia..]|cbn; lia..]|cbn; lia..].
  - replace (a + 8 + 8 - 16) with a by lia.
    apply (pushed_older v2); [apply (pushed_older v1); [apply pushed_frame|cbn; lia..]|cbn; lia..].
  - replace (a + 8 + 8 - 8) with (a + 8) by lia. replace (a + 8 + 8 - 16) with a by lia.
    apply (pushed_older v2); [apply pushed_frame|cbn; lia..].
  - replace (a + 8 + 8 - 8) with (a + 8) by lia. apply pushed_frame.
Qed.

(** The dispatch of a built-in that calls no goals. *)
Definition enter_builtin (w : wam) : wam := set_cp (set_p w (w_cp w)) (code_of_term EMPTY_LIST).

(** C18: [(C -> T ; E)] runs [C] first.  When [C] is solved, whatever choice points it left,
    the cut of the condition (which runs twice, since [C] returns into it with its own
    environment still there) drops them together with the choice point of the
    if-then-else, so that [E] will not be tried, and [T] runs next, followed by the
    continuation of the call.  The cut barrier of [T] is the choice point that is gone. *)
Theorem if_then_else_commits w n lhs cond if_true if_false w1 :
  wam_ok w -> arg (w_heap w) lhs 0 = Ok cond -> arg (w_heap w) lhs 1 = Ok if_true ->
  operator_if_then_else c w n [lhs; if_false] = Ok (w1, true) ->
  w_p w1 = code_of_term cond /\ w_b w < w_b w1 /\
  (exists ch, get_choice w1 (w_b w1) = Ok ch /\ ch_bp ch = code_of_term if_false /\ ch_b ch = w_b w) /\
  forall w2, solved w1 w2 -> exists w3 w4,
    operator_cut_if w2 0 [] = Ok (w3, true) /\ w_p w3 = code_of_term CUT_IF /\
    operator_cut_if (enter_builtin w3) 0 [] = Ok (w4, true) /\
    w_p w4 = code_of_term if_true /\ w_b w4 = w_b w /\ w_cp w4 = w_cp w /\ w_b0 w4 = w_b w1 /\
  forall w5, returned w4 w5 -> top_e (w_top w) <= w_e w -> exists w6, deallocate_and_proceed w5 = Ok w6 /\
    w_p w6 = w_cp w /\ w_e w6 = w_e w /\ w_e_kind w6 = w_e_kind w.
Proof.
  intros W Hc Ht H. unfold operator_if_then_else, builtin_arg in H. cbn [lookup list_lookup of_option] in H.
  rewrite Ok_bind, Hc, Ok_bind, Ht, !Ok_bind in H. apply bind_Ok in H as (v & H1 & (w1' & H2 & H)%bind_Ok). injection H as ->.
  unfold allocate_choice_point, allocate_choices in H1. apply bind_Ok in H1 as (a & Ha & (args & _ & H1)%bind_Ok).
  destruct (fresh_above w _ a W (num_y_nonneg c w true) Ha) as (Ha0 & He & Hb).
  set (ch := ChoicePoint _ _ _ _ _ _ _ _ _ _ _ _) in H1. injection H1 as <-.
  set (v := set_env _ _) in H2. assert (Hv : w_frames v !! w_b v = Some (FChoice ch)) by apply lookup_insert_eq.
  destruct (push_condition_pushed v ch cond if_true w1 Ha0 He Hv H2) as [Gp Gb Gk Gt Ge Gl Gch G1 G2 G3].
  cbn [w_b v set_env set_b w_e set_e put_frame set_stack w_e_kind w_cp w_qr w_pr w_top w_env] in *.
  rewrite Gb. split; [done|]. split; [done|]. split.
  { exists ch. unfold get_choice. by rewrite Gch. }
  intros w2 [[E2 K2 T2 F2] C2 L2]. rewrite Gb, Gch in C2. rewrite Gk in K2. rewrite Ge in L2. cbn in L2.
  apply F2 in G1, G2, G3; [|lia..]. rewrite <-E2 in G1, G2, G3.
  destruct (cut_if_pops w2 0 [] _ _ _ _ _ ch K2 G3 eq_refl G2 Ha0 C2) as (e3 & H3 & Hh3 & L3); [exact L2|].
  eexists. match type of H3 with _ = Ok (?x, _) => set (w3 := x) in * end.
  destruct (cut_if_pops (enter_builtin w3) 0 [] _ _ _ _ _ ch eq_refl G2 eq_refl G1 Ha0 C2) as (e4 & H4 & Hh4 & L4); [done|].
  eexists. split; [exact H3|]. split; [done|]. split; [exact H4|]. split_and!; try done.
  intros w5 [E5 K5 T5 F5] Htop. cbn in E5, K5, T5.
  eexists. split.
  - eapply (proceed_goal w5 (Environment (w_e w) (w_e_kind w) (w_cp w) (NaiveRest a (w_qr w) (w_pr w))));
      [by rewrite K5| |reflexivity|].
    + rewrite E5. apply F5; [cbn; lia|exact G1].
    + rewrite E5, T5, T2, Gt. cbn. lia.
  - done.
Qed.

End control.

(** ** Examples *)

Module ControlExample.

Definition start : wam := Backtrack.Example.start.
Definition no_code : code := Code ∅ [] ∅.
Definition goal_a : Z := con_constant [97] 0.
Definition goal_b : Z := con_constant [98] 0.
Definition conj : wam :=
  match operator_comma no_code start 2 [goal_a; goal_b] with Ok (w, _) => w | Throw _ => start end.

(** [(X -> Y)] on the heap of [start]. *)
Definition with_arrow : wam :=
  match new_str (w_heap start) ARROW with Ok (h, _) => set_heap start h | Throw _ => start end.
Definition arrow : Z := str_cell 3.
Definition filled : wam :=
  match h ← set_arg (w_heap with_arrow) arrow 0 goal_a; set_arg h arrow 1 goal_b with
  | Ok h => set_heap with_arrow h | Throw _ => start end.
Definition ite : wam :=
  match operator_if_then_else no_code filled 2 [arrow; EMPTY_LIST] with Ok (w, _) => w | Throw _ => start end.

Lemma filled_ok : wam_ok filled.
Proof. apply wam_check_ok. vm_compute. reflexivity. Qed.

End ControlExample.

Lemma comma_in_order_witness :
  operator_comma ControlExample.no_code ControlExample.start 2 [ControlExample.goal_a; ControlExample.goal_b] =
    Ok (ControlExample.conj, true) /\
  w_p ControlExample.conj = code_of_term ControlExample.goal_a /\
  forall w2, returned ControlExample.conj w2 -> exists w3, deallocate_and_proceed w2 = Ok w3 /\
    w_p w3 = code_of_term ControlExample.goal_b /\ w_b0 w3 = w_b0 ControlExample.start /\
  forall w4, returned w3 w4 -> exists w5, deallocate_and_proceed w4 = Ok w5 /\
    continues ControlExample.start w5 (w_cp ControlExample.start).
Proof.
  split; [vm_compute; reflexivity|].
  refine (comma_in_order ControlExample.no_code ControlExample.start 2 ControlExample.goal_a ControlExample.goal_b
    ControlExample.conj Backtrack.Example.start_ok _ _); [vm_compute; by intros [=]|vm_compute; reflexivity].
Defined.

Lemma if_then_else_commits_witness :
  operator_if_then_else ControlExample.no_code ControlExample.filled 2 [ControlExample.arrow; EMPTY_LIST] =
    Ok (ControlExample.ite, true) /\
  w_p ControlExample.ite = code_of_term ControlExample.goal_a /\
  w_b ControlExample.filled < w_b ControlExample.ite.
Proof.
  split; [vm_compute; reflexivity|].
  destruct (if_then_else_commits ControlExample.no_code ControlExample.filled 2 ControlExample.arrow ControlExample.goal_a
    ControlExample.goal_b EMPTY_LIST ControlExample.ite ControlExample.filled_ok) as (H1 & H2 & _);
    [vm_compute; reflexivity..|by split].
Defined.
