(* ===== verification/Clauses.v ===== *)
(** * Clauses of a predicate with their index ([src/src/interp/interpreter_base.hpp], [.cpp])

    [managed_clauses]: the clauses in order, and an index from the tag and a hash of the
    first argument to positions.  Erased clauses keep their position; a position that left
    the index is the largest [size_t], here [None].  The performance counter is left out. *)

From S2P Require Import Prelude Cells Heap Bigs TermEnv Wam.

(** ** Parts of a clause *)

Definition IMPLIED_BY : Z := con_constant [58; 45] 2.
Definition COLON : Z := con_constant [58] 2.
(** [term()] *)
Definition no_term : Z := 0.

Definition clause_head (h : heap) (clause : Z) : res Z :=
  f ← functor h clause; if f =? IMPLIED_BY then arg h clause 0 else Ok clause.
Definition clause_body (h : heap) (clause : Z) : res Z :=
  f ← functor h clause; if f =? IMPLIED_BY then arg h clause 1 else Ok EMPTY_LIST.

(** The first argument of a goal without its module. *)
Definition head_first_arg (h : heap) (head f : Z) : res Z :=
  if con_arity f <=? 0 then Ok no_term else arg h head 0.
Definition first_arg_of (h : heap) (head : Z) : res Z :=
  is_f ← is_functor h head;
  if negb is_f then Ok no_term
  else
    f ← functor h head;
    if f =? COLON then
      head ← arg h head 1;
      is_f ← is_functor h head;
      if negb is_f then Ok no_term else f ← functor h head; head_first_arg h head f
    else head_first_arg h head f.
Definition clause_first_arg (h : heap) (clause : Z) : res Z :=
  head ← clause_head h clause; first_arg_of h head.

(** [term_utils::simple_hash] *)
Definition simple_hash (h : heap) (t : Z) : res Z :=
  match cell_tag t with
  | CON | INT | REF | RFW => Ok t
  | BIG =>
      n ← num_bits h t;
      bs ← first_bytes h t;
      Ok (foldl (fun v b => w64 (w64 (v ≪ 8) + b)) n bs)
  | STR => functor h t
  | _ => Throw AssertFailed
  end.

(** ** State *)

Record managed_clause := ManagedClause { mc_clause : Z; mc_cost : Z }.
Definition is_erased (c : managed_clause) : bool := mc_clause c =? no_term.
Definition erase (c : managed_clause) : managed_clause := ManagedClause no_term (mc_cost c).

Record managed_clauses := ManagedClauses {
  mc_clauses : list managed_clause;
  mc_num_clauses : Z;
  mc_has_vars : bool;
  mc_is_indexed : bool;
  mc_index : gmap (Z * Z) (list nat);
  mc_all : list (option nat)
}.

Inductive clause_position := FIRST_CLAUSE | LAST_CLAUSE.

(** [managed_clauses()], [clear()] *)
Definition mc_empty : managed_clauses := ManagedClauses [] 0 false true ∅ [].

Definition with_clauses (m : managed_clauses) (l : list managed_clause) (n : Z) : managed_clauses :=
  ManagedClauses l n (mc_has_vars m) (mc_is_indexed m) (mc_index m) (mc_all m).
Definition with_index (m : managed_clauses) (i : gmap (Z * Z) (list nat)) : managed_clauses :=
  ManagedClauses (mc_clauses m) (mc_num_clauses m) (mc_has_vars m) (mc_is_indexed m) i (mc_all m).
Definition with_all (m : managed_clauses) (l : list (option nat)) : managed_clauses :=
  ManagedClauses (mc_clauses m) (mc_num_clauses m) (mc_has_vars m) (mc_is_indexed m) (mc_index m) l.
Definition set_has_vars (m : managed_clauses) : managed_clauses :=
  ManagedClauses (mc_clauses m) (mc_num_clauses m) true (mc_is_indexed m) (mc_index m) (mc_all m).
Definition clear_index (m : managed_clauses) : managed_clauses :=
  ManagedClauses (mc_clauses m) (mc_num_clauses m) (mc_has_vars m) false ∅ (mc_all m).

Definition get_clause (m : managed_clauses) (i : nat) : res managed_clause :=
  of_option (mc_clauses m !! i) UndefinedBehaviour.

Section clauses.
Context (h : heap).

(** The key of a first argument: its tag and its hash. *)
Definition index_key (first : Z) : res (Z * Z) :=
  v ← simple_hash h first; Ok (tag_kind (cell_tag first), v).

(** ** The index *)

Definition add_index (m : managed_clauses) (i : nat) : res managed_clauses :=
  c ← get_clause m i;
  first ← clause_first_arg h (mc_clause c);
  let m := with_all m (mc_all m ++ [Some i]) in
  if first =? no_term then Ok m
  else if is_ref (cell_tag first) then Ok (set_has_vars m)
  else
    k ← index_key first;
    Ok (with_index m (<[k := default [] (mc_index m !! k) ++ [i]]> (mc_index m))).

Fixpoint remove_first (i : nat) (l : list nat) : list nat :=
  match l with
  | [] => []
  | j :: l => if decide (i = j) then l else j :: remove_first i l
  end.
(** [indexed.erase(std::find(..., i))] in every entry: erasing at the end is undefined. *)
Definition erase_everywhere (i : nat) (index : gmap (Z * Z) (list nat)) : res (gmap (Z * Z) (list nat)) :=
  _ ← require (bool_decide (map_Forall (fun _ l => i ∈ l) index)) UndefinedBehaviour;
  Ok (remove_first i <$> index).
Definition erase_entry (k : Z * Z) (i : nat) (index : gmap (Z * Z) (list nat)) : gmap (Z * Z) (list nat) :=
  <[k := remove_first i (default [] (index !! k))]> index.

Definition remove_index (m : managed_clauses) (i : nat) : res managed_clauses :=
  c ← get_clause m i;
  first ← clause_first_arg h (mc_clause c);
  if first =? no_term then Ok m
  else
    _ ← require (bool_decide (i < length (mc_all m))%nat) UndefinedBehaviour;
    let m := with_all m (<[i := None]> (mc_all m)) in
    if is_ref (cell_tag first) then index ← erase_everywhere i (mc_index m); Ok (with_index m index)
    else k ← index_key first; Ok (with_index m (erase_entry k i (mc_index m))).

Fixpoint var_based_from (i : nat) (cs : list managed_clause) : res (list nat) :=
  match cs with
  | [] => Ok []
  | c :: cs =>
      first ← clause_first_arg h (mc_clause c);
      l ← var_based_from (S i) cs;
      Ok (if negb (first =? no_term) && is_ref (cell_tag first) then i :: l else l)
  end.
Definition all_var_based_clauses (m : managed_clauses) : res (list nat) := var_based_from 0 (mc_clauses m).

(** What the loop over the clauses with a variable adds for clause [i]. *)
Definition with_var_based (i : nat) (var_based : list nat) : list nat :=
  flat_map (fun j => if (j <? i)%nat then [i; j] else [j]) var_based.
Fixpoint do_index_loop (m : managed_clauses) (var_based : list nat) (i : nat) (cs : list managed_clause) : res managed_clauses :=
  match cs with
  | [] => Ok m
  | c :: cs =>
      let m := with_all m (mc_all m ++ [Some i]) in
      m ← (if is_erased c then Ok m
           else
             first ← clause_first_arg h (mc_clause c);
             if first =? no_term then Ok m
             else if is_ref (cell_tag first) then Ok (set_has_vars m)
             else
               k ← index_key first;
               Ok (with_index m (<[k := default [] (mc_index m !! k) ++ with_var_based i var_based]> (mc_index m))));
      do_index_loop m var_based (S i) cs
  end.
Definition do_index (m : managed_clauses) : res managed_clauses :=
  if mc_is_indexed m then Ok m
  else
    let m := ManagedClauses (mc_clauses m) (mc_num_clauses m) false false ∅ [] in
    var_based ← all_var_based_clauses m;
    m ← do_index_loop m var_based 0 (mc_clauses m);
    Ok (ManagedClauses (mc_clauses m) (mc_num_clauses m) (mc_has_vars m) true (mc_index m) (mc_all m)).

(** [get_indexed_first_arg]: looking a key up makes an entry for it. *)
Definition get_indexed_first_arg (m : managed_clauses) (first : Z) : res (managed_clauses * list (option nat)) :=
  if first =? no_term then Ok (m, mc_all m)
  else
    m ← do_index m;
    if is_ref (cell_tag first) || mc_has_vars m then Ok (m, mc_all m)
    else
      k ← index_key first;
      let l := default [] (mc_index m !! k) in
      Ok (with_index m (<[k := l]> (mc_index m)), Some <$> l).

(** ** Adding and removing *)

Definition add_clause (m : managed_clauses) (c : managed_clause) (pos : clause_position) : res managed_clauses :=
  m ← match pos with
      | FIRST_CLAUSE => Ok (clear_index (with_clauses m (c :: mc_clauses m) (mc_num_clauses m)))
      | LAST_CLAUSE => add_index (with_clauses m (mc_clauses m ++ [c]) (mc_num_clauses m)) (length (mc_clauses m))
      end;
  Ok (with_clauses m (mc_clauses m) (mc_num_clauses m + 1)).

Definition erase_at (m : managed_clauses) (i : nat) : managed_clauses :=
  with_clauses m (alter erase i (mc_clauses m)) (mc_num_clauses m - 1).

Fixpoint remove_clause_loop (m : managed_clauses) (clause : Z) (l : list (option nat)) : res (managed_clauses * bool) :=
  match l with
  | [] => Ok (m, false)
  | None :: l => remove_clause_loop m clause l
  | Some i :: l =>
      c ← get_clause m i;
      if is_erased c then remove_clause_loop m clause l
      else if clause =? mc_clause c then Ok (erase_at m i, true)
      else remove_clause_loop m clause l
  end.
(** [first] is [get_first_arg] of the head of the clause. *)
Definition remove_clause (m : managed_clauses) (clause first : Z) : res (managed_clauses * bool) :=
  '(m, l) ← get_indexed_first_arg m first;
  remove_clause_loop m clause l.

Fixpoint remove_clauses (m : managed_clauses) (indices : list nat) : res managed_clauses :=
  match indices with
  | [] => Ok m
  | i :: indices =>
      c ← get_clause m i;
      m ← (if is_erased c then Ok m else m ← remove_index m i; Ok (erase_at m i));
      remove_clauses m indices
  end.

(** ** What the index promises *)

(** The positions that callers look at: neither erased nor out of the index. *)
Definition is_live (m : managed_clauses) (i : nat) : bool :=
  match mc_clauses m !! i with Some c => negb (is_erased c) | None => false end.
Definition live_positions (m : managed_clauses) (l : list (option nat)) : list nat :=
  filter (fun i => is_live m i = true) (omap id l).

(** The clause has a variable as first argument. *)
Definition has_var (c : managed_clause) : bool :=
  match clause_first_arg h (mc_clause c) with
  | Ok f => negb (f =? no_term) && is_ref (cell_tag f)
  | Throw _ => false
  end.

(** Without an index: every clause, in order, that may match the first argument [first]
    of a goal, or every one if there ever was a clause with a variable ([any_var]). *)
Definition may_match (any_var : bool) (m : managed_clauses) (first : Z) (i : nat) : bool :=
  is_live m i &&
  ((first =? no_term) || is_ref (cell_tag first) || any_var ||
   match c ← get_clause m i; f ← clause_first_arg h (mc_clause c); k ← index_key f; Ok k, index_key first with
   | Ok k, Ok k' => bool_decide (k = k')
   | _, _ => false
   end).
Definition scan (any_var : bool) (m : managed_clauses) (first : Z) : list nat :=
  filter (fun i => may_match any_var m first i = true) (seq 0 (length (mc_clauses m))).

End clauses.
