(* ===== verification/ClausesSpec.v ===== *)
(** * The clause index loses no clause, unless [asserta] is used

    While clauses are only added at the end, looking up a first argument in the index gives
    what a scan of all clauses gives, in the same order.  Adding a clause at the front
    throws the index away, and building it again leaves it empty. *)

From Stdlib Require Import Sorted.
From S2P Require Import Prelude Cells Heap Bigs TermEnv Wam Clauses.

Section spec.
Context (h : heap).

Abbreviation key_of c := (f ← clause_first_arg h (mc_clause c); index_key h f).

Definition count_live (l : list managed_clause) : nat := length (filter (fun c => is_erased c = false) l).

(** ** The invariant *)

(** A clause that is not erased is where a lookup of its first argument finds it. *)
Definition placed (m : managed_clauses) (i : nat) (c : managed_clause) : Prop :=
  exists f, clause_first_arg h (mc_clause c) = Ok f /\
    (f <> no_term -> if is_ref (cell_tag f) then mc_has_vars m = true
                     else exists k, index_key h f = Ok k /\ i ∈ default [] (mc_index m !! k)).

(** An entry of the index: positions in order, of clauses with the key (or erased). *)
Definition entry_ok (m : managed_clauses) (k : Z * Z) (l : list nat) : Prop :=
  StronglySorted lt l /\ forall i, i ∈ l -> exists c, mc_clauses m !! i = Some c /\
    (is_erased c = false -> exists f, clause_first_arg h (mc_clause c) = Ok f /\ index_key h f = Ok k).

Record indexed_ok (m : managed_clauses) : Prop := IndexedOk {
  io_indexed : mc_is_indexed m = true;
  io_count : mc_num_clauses m = Z.of_nat (count_live (mc_clauses m));
  io_length : length (mc_all m) = length (mc_clauses m);
  io_all : forall i c, mc_clauses m !! i = Some c ->
    mc_all m !! i = Some (Some i) \/ mc_all m !! i = Some None /\ is_erased c = true;
  io_placed : forall i c, mc_clauses m !! i = Some c -> is_erased c = false -> placed m i c;
  io_entries : forall k l, mc_index m !! k = Some l -> entry_ok m k l
}.

Lemma empty_indexed : indexed_ok mc_empty.
Proof. split; try done. Qed.

(** ** Adding at the end *)

Lemma sorted_snoc l i : StronglySorted lt l -> (forall j, j ∈ l -> (j < i)%nat) -> StronglySorted lt (l ++ [i]).
Proof.
  intros Hs Hl. induction Hs as [|j l Hs IH Hj]; [repeat constructor|]. cbn. constructor.
  - apply IH. intros k Hk. apply Hl. by right.
  - apply Forall_app. split; [done|]. repeat constructor. apply Hl. by left.
Qed.

Lemma entry_default m k : indexed_ok m -> entry_ok m k (default [] (mc_index m !! k)).
Proof.
  intros I. destruct (mc_index m !! k) as [l|] eqn:E; [by apply I|]. split; [constructor|]. by intros i ?%elem_of_nil.
Qed.

Lemma entry_lt m k l i : entry_ok m k l -> i ∈ l -> (i < length (mc_clauses m))%nat.
Proof. intros [_ H] Hi. destruct (H i Hi) as (c & Hc & _). by eapply lookup_lt_Some. Qed.

(** The state with the new clause but its place in the index. *)
Lemma placed_more m m' i c : placed m i c -> (mc_has_vars m = true -> mc_has_vars m' = true) ->
  (forall k, default [] (mc_index m !! k) ⊆ default [] (mc_index m' !! k)) -> placed m' i c.
Proof.
  intros (f & Hf & H) Hv Hx. exists f. split; [done|]. intros Hn. specialize (H Hn).
  destruct (is_ref (cell_tag f)); [by apply Hv|]. destruct H as (k & Hk & Hin). exists k. split; [done|by apply Hx].
Qed.

Lemma entry_more m m' k l : entry_ok m k l ->
  (forall i c, mc_clauses m !! i = Some c -> mc_clauses m' !! i = Some c \/
     exists c', mc_clauses m' !! i = Some c' /\ is_erased c' = true) -> entry_ok m' k l.
Proof.
  intros [Hs H] Hc. split; [done|]. intros i Hi. destruct (H i Hi) as (c & Hi' & Hk).
  destruct (Hc i c Hi') as [E|(c' & E & He)]; [by exists c|]. exists c'. split; [done|]. by rewrite He.
Qed.

Lemma add_last_indexed m c m' :
  indexed_ok m -> is_erased c = false -> add_clause h m c LAST_CLAUSE = Ok m' ->
  indexed_ok m' /\ mc_clauses m' = mc_clauses m ++ [c].
Proof.
  intros I Hc H. unfold add_clause in H. apply bind_Ok in H as (m1 & H1 & H). injection H as <-.
  unfold add_index in H1. apply bind_Ok in H1 as (c' & Hget & (f & Hf & H1)%bind_Ok).
  unfold get_clause in Hget. cbn [mc_clauses with_clauses] in Hget. rewrite list_lookup_middle in Hget by done.
  injection Hget as <-. set (n := length (mc_clauses m)) in *.
  assert (Hcl : mc_clauses m1 = mc_clauses m ++ [c] /\ mc_all m1 = mc_all m ++ [Some n] /\ mc_is_indexed m1 = true /\
    mc_num_clauses m1 = mc_num_clauses m /\ (mc_has_vars m = true -> mc_has_vars m1 = true) /\
    (forall k, default [] (mc_index m !! k) ⊆ default [] (mc_index m1 !! k)) /\
    (f <> no_term -> if is_ref (cell_tag f) then mc_has_vars m1 = true
       else exists k, index_key h f = Ok k /\ n ∈ default [] (mc_index m1 !! k)) /\
    (forall k l, mc_index m1 !! k = Some l -> mc_index m !! k = Some l \/
       l = default [] (mc_index m !! k) ++ [n] /\ index_key h f = Ok k)).
  { destruct (Z.eqb_spec f no_term) as [->|Hne].
    { injection H1 as <-. cbn. pose proof (io_indexed _ I). split_and!; auto; done. }
    destruct (is_ref (cell_tag f)) eqn:Hr.
    { injection H1 as <-. cbn. pose proof (io_indexed _ I). split_and!; auto; done. }
    apply bind_Ok in H1 as (k & Hk & H1). injection H1 as <-. cbn. pose proof (io_indexed _ I). split_and!; auto.
    - intros k'. rewrite lookup_insert. destruct (decide (k = k')) as [<-|]; [cbn; set_solver|done].
    - intros _. exists k. split; [done|]. rewrite lookup_insert_eq. cbn. set_solver.
    - intros k' l. rewrite lookup_insert. destruct (decide (k = k')) as [<-|]; [|by left]. intros [= <-]. by right. }
  destruct Hcl as (Ec & Ea & Ei & En & Ev & Ex & Ep & El). split; [|exact Ec].
  split; cbn [mc_is_indexed mc_num_clauses mc_clauses mc_all mc_index with_clauses]; rewrite ?Ec, ?Ea, ?Ei, ?En.
  - done.
  - unfold count_live. rewrite filter_app, length_app, filter_cons_True, filter_nil by done. cbn.
    rewrite (io_count _ I). unfold count_live. lia.
  - rewrite !length_app, (io_length _ I). done.
  - intros i d [[Hlt Hd]|[Hi _]]%lookup_snoc_Some.
    + rewrite lookup_app_l; [by apply I|]. pose proof (io_length _ I). unfold n in *. lia.
    + left. subst i. rewrite list_lookup_middle; [done|]. pose proof (io_length _ I). unfold n in *. lia.
  - intros i d [[Hi Hd]|[Hi <-]]%lookup_snoc_Some Hl; [|subst i; by exists f].
    eapply placed_more; [by apply (io_placed _ I)|exact Ev|exact Ex].
  - intros k l Hl. destruct (El k l Hl) as [Hold|[-> Hk]].
    + eapply entry_more; [by apply (io_entries _ I)|]. cbn. intros i d Hd. left. rewrite ?Ec. by apply lookup_app_l_Some.
    + pose proof (entry_default m k I) as Hd. split.
      * apply sorted_snoc; [apply Hd|]. intros j Hj. by eapply entry_lt.
      * intros i [Hi|Hi%list_elem_of_singleton]%elem_of_app; cbn; rewrite ?Ec.
        -- destruct (proj2 Hd i Hi) as (d & Hd1 & Hd2). exists d. split; [by apply lookup_app_l_Some|done].
        -- subst i. exists c. rewrite list_lookup_middle by done. split; [done|]. intros _. by exists f.
Qed.

(** ** Erasing *)

Lemma erase_erased c : is_erased (erase c) = true.
Proof. done. Qed.

Lemma erase_at_lookup m i j : mc_clauses (erase_at m i) !! j =
  if decide (i = j) then erase <$> mc_clauses m !! j else mc_clauses m !! j.
Proof. cbn. destruct (decide (i = j)) as [<-|Hne]; [apply list_lookup_alter_eq|by apply list_lookup_alter_ne]. Qed.

Lemma count_erase l i c : l !! i = Some c -> is_erased c = false -> count_live l = S (count_live (alter erase i l)).
Proof.
  intros H Hc. unfold count_live. revert i H. induction l as [|d l IH]; intros [|i] H; cbn in H; try done.
  - injection H as ->. change (alter erase 0%nat (c :: l)) with (erase c :: l).
    by rewrite filter_cons_True, filter_cons_False.
  - change (alter erase (S i) (d :: l)) with (d :: alter erase i l). specialize (IH i H).
    destruct (is_erased d) eqn:Hd; [rewrite !filter_cons_False by (by rewrite Hd)|rewrite !filter_cons_True by done]; cbn; lia.
Qed.

Lemma erase_indexed m i c : indexed_ok m -> mc_clauses m !! i = Some c -> is_erased c = false -> indexed_ok (erase_at m i).
Proof.
  intros I Hi Hc. split.
  - apply I.
  - cbn [mc_num_clauses erase_at with_clauses mc_clauses]. rewrite (io_count _ I), (count_erase _ _ _ Hi Hc). lia.
  - cbn. rewrite length_alter. apply I.
  - intros j d. rewrite erase_at_lookup. destruct (decide (i = j)) as [<-|]; [|apply I].
    intros (d' & Hd' & ->)%fmap_Some. destruct (io_all _ I _ _ Hd') as [?|[? _]]; [by left|by right].
  - intros j d. rewrite erase_at_lookup. destruct (decide (i = j)) as [<-|].
    + by intros (d' & _ & ->)%fmap_Some.
    + intros Hj Hl. eapply placed_more; [by apply (io_placed _ I)|done|done].
  - intros k l Hl. eapply entry_more; [by apply (io_entries _ I)|]. intros j d Hj. rewrite erase_at_lookup.
    destruct (decide (i = j)) as [<-|]; [right|by left]. rewrite Hj. by eexists.
Qed.

Lemma remove_clause_loop_indexed m clause l m' r :
  indexed_ok m -> remove_clause_loop m clause l = Ok (m', r) ->
  indexed_ok m' /\ (r = false -> m' = m) /\
  (r = true -> exists i c, mc_clauses m !! i = Some c /\ is_erased c = false /\ mc_clause c = clause /\ m' = erase_at m i).
Proof.
  intros I. induction l as [|[i|] l IH]; intros H; cbn [remove_clause_loop] in H; [by injection H as <- <-| |by apply IH].
  apply bind_Ok in H as (c & Hc & H). unfold get_clause in Hc. apply of_option_Ok in Hc.
  destruct (is_erased c) eqn:He; [by apply IH|]. destruct (Z.eqb_spec clause (mc_clause c)) as [->|]; [|by apply IH].
  injection H as <- <-. split; [by eapply erase_indexed|]. split; [done|]. intros _. by exists i, c.
Qed.

(** *** The index of an erased clause *)

Lemma remove_first_in i l j : j ∈ remove_first i l -> j ∈ l.
Proof.
  induction l as [|k l IH]; cbn; [done|]. destruct (decide (i = k)) as [<-|]; [set_solver|].
  rewrite !elem_of_cons. intuition.
Qed.
Lemma remove_first_other i l j : j ∈ l -> j <> i -> j ∈ remove_first i l.
Proof.
  induction l as [|k l IH]; cbn; [done|]. intros Hj Hne. destruct (decide (i = k)) as [<-|]; set_solver.
Qed.
Lemma remove_first_sorted i l : StronglySorted lt l -> StronglySorted lt (remove_first i l).
Proof.
  induction 1 as [|k l Hs IH Hk]; cbn; [constructor|]. destruct (decide (i = k)); [done|]. constructor; [done|].
  rewrite Forall_forall in *. intros j Hj. apply Hk. by eapply remove_first_in.
Qed.

(** Taking a position out of the index and erasing its clause. *)
Lemma remove_one_indexed m i c m' :
  indexed_ok m -> mc_clauses m !! i = Some c -> is_erased c = false -> remove_index h m i = Ok m' ->
  indexed_ok (erase_at m' i) /\ mc_clauses m' = mc_clauses m.
Proof.
  intros I Hi Hc H. unfold remove_index in H. apply bind_Ok in H as (c' & Hc' & (f & Hf & H)%bind_Ok).
  destruct (Z.eqb_spec f no_term) as [->|Hne]; [injection H as <-; split; [by eapply erase_indexed|done]|].
  apply bind_Ok in H as (u & _ & H).
  assert (Hm : mc_clauses m' = mc_clauses m /\ mc_all m' = <[i := None]> (mc_all m) /\ mc_is_indexed m' = mc_is_indexed m /\
    mc_num_clauses m' = mc_num_clauses m /\ mc_has_vars m' = mc_has_vars m /\
    (forall k j, j <> i -> j ∈ default [] (mc_index m !! k) -> j ∈ default [] (mc_index m' !! k)) /\
    (forall k l, mc_index m' !! k = Some l -> entry_ok m k l)).
  { destruct (is_ref (cell_tag f)).
    - apply bind_Ok in H as (ix & Hix & H). injection H as <-. unfold erase_everywhere in Hix.
      apply bind_Ok in Hix as (v & _ & Hix). injection Hix as <-. cbn. split_and!; try done.
      + intros k j Hj. rewrite lookup_fmap. destruct (mc_index m !! k); cbn; [by intros ?; apply remove_first_other|done].
      + intros k l. rewrite lookup_fmap. intros (l' & Hl' & ->)%fmap_Some. destruct (io_entries _ I _ _ Hl') as [Hs Hin].
        split; [by apply remove_first_sorted|]. intros j Hj. apply Hin. by eapply remove_first_in.
    - apply bind_Ok in H as (k & Hk & H). injection H as <-. unfold erase_entry. cbn. split_and!; try done.
      + intros k' j Hj. rewrite lookup_insert. destruct (decide (k = k')) as [<-|]; [|done]. cbn.
        by intros ?; apply remove_first_other.
      + intros k' l. rewrite lookup_insert. destruct (decide (k = k')) as [<-|]; [|apply (io_entries _ I)].
        intros [= <-]. destruct (entry_default m k I) as [Hs Hin].
        split; [by apply remove_first_sorted|]. intros j Hj. apply Hin. by eapply remove_first_in. }
  destruct Hm as (Ec & Ea & Ei & En & Ev & Ex & El). split; [|exact Ec]. split.
  - cbn. rewrite Ei. apply I.
  - cbn [mc_num_clauses erase_at with_clauses mc_clauses]. rewrite En, Ec, (io_count _ I), (count_erase _ _ _ Hi Hc). lia.
  - cbn. rewrite length_alter, Ea, Ec, length_insert. apply I.
  - intros j d. rewrite erase_at_lookup, Ec. cbn. rewrite Ea. destruct (decide (i = j)) as [<-|Hij].
    + rewrite Hi. intros [= <-]. right. split; [|done]. apply list_lookup_insert_eq. rewrite (io_length _ I).
      by eapply lookup_lt_Some.
    + rewrite list_lookup_insert_ne by done. apply I.
  - intros j d. rewrite erase_at_lookup, Ec. destruct (decide (i = j)) as [<-|Hij]; [by rewrite Hi; intros [= <-]|].
    intros Hj Hl. destruct (io_placed _ I _ _ Hj Hl) as (g & Hg & Hp). exists g. split; [done|]. intros Hn.
    specialize (Hp Hn). cbn. rewrite Ev. destruct (is_ref (cell_tag g)); [done|]. destruct Hp as (k & Hk & Hin).
    exists k. split; [done|]. apply Ex; [congruence|done].
  - intros k l Hl. eapply (entry_more m); [by apply El|]. intros j d Hj. rewrite erase_at_lookup, Ec.
    destruct (decide (i = j)) as [<-|]; [right|by left]. rewrite Hj. by eexists.
Qed.

Lemma remove_clauses_indexed l m m' : indexed_ok m -> remove_clauses h m l = Ok m' -> indexed_ok m'.
Proof.
  revert m. induction l as [|i l IH]; intros m I H; cbn [remove_clauses] in H; [by injection H as <-|].
  apply bind_Ok in H as (c & Hc & (m1 & H1 & H)%bind_Ok). unfold get_clause in Hc. apply of_option_Ok in Hc.
  destruct (is_erased c) eqn:He; [injection H1 as <-; by eapply IH|].
  apply bind_Ok in H1 as (m2 & H2 & H1). injection H1 as <-.
  eapply IH; [|exact H]. by destruct (remove_one_indexed _ _ _ _ I Hc He H2).
Qed.

(** ** Looking up *)

Lemma sorted_same l1 l2 : StronglySorted lt l1 -> StronglySorted lt l2 -> (forall i : nat, i ∈ l1 <-> i ∈ l2) -> l1 = l2.
Proof.
  intros H1. revert l2. induction H1 as [|x l1 H1 IH Hx]; intros l2 H2 He.
  - destruct l2 as [|y l2]; [done|]. destruct (He y) as [_ Hy]. specialize (Hy (list_elem_of_here _ _)). by apply elem_of_nil in Hy.
  - destruct H2 as [|y l2 H2 Hy].
    { destruct (He x) as [Hx' _]. specialize (Hx' (list_elem_of_here _ _)). by apply elem_of_nil in Hx'. }
    rewrite Forall_forall in Hx, Hy.
    assert (x = y) as ->.
    { pose proof (proj1 (He x) (list_elem_of_here _ _)) as [?|Hxl]%elem_of_cons; [done|].
      pose proof (proj2 (He y) (list_elem_of_here _ _)) as [?|Hyl]%elem_of_cons; [done|].
      specialize (Hx _ Hyl). specialize (Hy _ Hxl). lia. }
    f_equal. apply IH; [done|]. intros i. specialize (He i). rewrite !elem_of_cons in He. split; intros Hi.
    + destruct (proj1 He (or_intror Hi)) as [->|?]; [|done]. specialize (Hx _ Hi). lia.
    + destruct (proj2 He (or_intror Hi)) as [->|?]; [|done]. specialize (Hy _ Hi). lia.
Qed.

Lemma seq_sorted n k : StronglySorted lt (seq k n).
Proof.
  revert k. induction n as [|n IH]; intros k; cbn; constructor; [apply IH|]. apply Forall_forall.
  intros i Hi%elem_of_seq. lia.
Qed.

Lemma filter_sorted (P : nat -> Prop) `{!forall i, Decision (P i)} l : StronglySorted lt l -> StronglySorted lt (filter P l).
Proof.
  induction 1 as [|x l Hs IH Hx]; [constructor|]. destruct (decide (P x)).
  - rewrite filter_cons_True by done. constructor; [done|]. rewrite Forall_forall in *. intros i [_ Hi]%list_elem_of_filter. auto.
  - by rewrite filter_cons_False.
Qed.

(** All positions, without those that left the index. *)
Lemma filter_positions (P : nat -> bool) (l : list (option nat)) k :
  (forall i o, l !! i = Some o -> o = Some (k + i)%nat \/ o = None /\ P (k + i)%nat = false) ->
  filter (fun i => P i = true) (omap id l) = filter (fun i => P i = true) (seq k (length l)).
Proof.
  revert k. induction l as [|o l IH]; intros k H; [done|]. cbn [omap list_omap seq length].
  assert (E : filter (fun i => P i = true) (omap id l) = filter (fun i => P i = true) (seq (S k) (length l))).
  { apply IH. intros i o' Hi. specialize (H (S i) o' Hi). by rewrite Nat.add_succ_r in H. }
  destruct (H 0%nat o eq_refl) as [->|[-> Hp]]; rewrite Nat.add_0_r in *; cbn [id].
  - destruct (P k) eqn:Hk; [rewrite !filter_cons_True by done; by rewrite E|by rewrite !filter_cons_False by (by rewrite Hk)].
  - by rewrite filter_cons_False by (by rewrite Hp).
Qed.

Lemma omap_somes (l : list nat) : omap id (Some <$> l) = l.
Proof. induction l as [|i l IH]; [done|]. cbn. by f_equal. Qed.

Lemma all_live m : indexed_ok m -> live_positions m (mc_all m) = filter (fun i => is_live m i = true) (seq 0 (length (mc_clauses m))).
Proof.
  intros I. unfold live_positions. rewrite (filter_positions _ _ 0), (io_length _ I); [done|].
  intros i o Hi. assert (Hlt : (i < length (mc_clauses m))%nat) by (rewrite <-(io_length _ I); by eapply lookup_lt_Some).
  apply lookup_lt_is_Some in Hlt as [c Hc]. destruct (io_all _ I _ _ Hc) as [E|[E He]]; rewrite E in Hi; injection Hi as <-.
  - by left.
  - right. split; [done|]. unfold is_live. cbn. by rewrite Hc, He.
Qed.

Lemma tag_kind_inj t t' : tag_kind t = tag_kind t' -> t = t'.
Proof. by destruct t, t'. Qed.

Lemma get_indexed_ok m first m' l :
  indexed_ok m -> get_indexed_first_arg h m first = Ok (m', l) ->
  live_positions m' l = scan h (mc_has_vars m) m first /\ indexed_ok m' /\
  mc_clauses m' = mc_clauses m /\ mc_has_vars m' = mc_has_vars m.
Proof.
  intros I H. unfold get_indexed_first_arg, scan, may_match in *.
  destruct (Z.eqb_spec first no_term) as [->|Hne].
  { injection H as <- <-. rewrite (all_live m I). split; [|done]. apply list_filter_iff. intros i. by rewrite andb_true_r. }
  unfold do_index in H. rewrite (io_indexed _ I), Ok_bind in H.
  destruct (is_ref (cell_tag first) || mc_has_vars m) eqn:Hr.
  { injection H as <- <-. rewrite (all_live m I). split; [|done]. apply list_filter_iff. intros i. cbn.
    by rewrite Hr, andb_true_r. }
  apply bind_Ok in H as (k & Hk & H). injection H as <- <-. apply orb_false_iff in Hr as [Hr Hv].
  pose proof (entry_default m k I) as [Hs Hin]. split; [|split; [|done]].
  - unfold live_positions. rewrite omap_somes.
    apply sorted_same; [by apply filter_sorted|apply filter_sorted, seq_sorted|]. intros i.
    rewrite !list_elem_of_filter, elem_of_seq, Hr, Hv, Hk. cbn [orb].
    unfold is_live, get_clause. cbn [mc_clauses with_index].
    destruct (mc_clauses m !! i) as [c|] eqn:Hc; cbn [of_option].
    2:{ split; [by intros [? _]|by intros [? _]]. }
    rewrite Ok_bind, andb_true_iff. pose proof (lookup_lt_Some _ _ _ Hc). split.
    + intros [Hl Hi]. split; [|lia]. split; [done|]. apply negb_true_iff in Hl. destruct (Hin i Hi) as (d & Hd & Hkey).
      rewrite Hc in Hd. injection Hd as <-. destruct (Hkey Hl) as (f & Hf & Hfk).
      rewrite Hf, Ok_bind, Hfk, Ok_bind. by apply bool_decide_eq_true.
    + intros [[Hl Hm] _]. split; [done|]. apply negb_true_iff in Hl.
      destruct (io_placed _ I _ _ Hc Hl) as (f & Hf & Hp). rewrite Hf, Ok_bind in Hm.
      destruct (index_key h f) as [k'|] eqn:Hfk; [|done]. cbn in Hm. apply bool_decide_eq_true in Hm as ->.
      assert (Ht : cell_tag f = cell_tag first).
      { unfold index_key in Hk, Hfk. apply bind_Ok in Hk as (v & _ & Hk). apply bind_Ok in Hfk as (v' & _ & Hfk).
        injection Hk as <-. injection Hfk as E _. by apply tag_kind_inj. }
      rewrite Ht, Hr in Hp. destruct Hp as (k' & Hk' & Hi); [|congruence].
      intros ->. rewrite <-Ht in Hr. by vm_compute in Hr.
  - split; [apply I..| |].
    + intros i c Hc Hl. eapply placed_more; [by apply (io_placed _ I)|done|].
      intros k'. cbn [mc_index with_index]. rewrite lookup_insert. by destruct (decide (k = k')) as [<-|].
    + intros k' l. cbn [mc_index with_index]. rewrite lookup_insert.
      destruct (decide (k = k')) as [<-|]; [|apply (io_entries _ I)]. intros [= <-]. by split.
Qed.

(** ** Every history of a predicate without [asserta] *)

Inductive clause_op :=
  | AddLast (c : managed_clause)
  | Lookup (first : Z)
  | Remove (clause first : Z)
  | RemoveAll (indices : list nat).

Definition clause_step (m : managed_clauses) (o : clause_op) : res managed_clauses :=
  match o with
  | AddLast c => add_clause h m c LAST_CLAUSE
  | Lookup first => '(m, _) ← get_indexed_first_arg h m first; Ok m
  | Remove clause first => '(m, _) ← remove_clause h m clause first; Ok m
  | RemoveAll l => remove_clauses h m l
  end.

(** Whether a clause with a variable as first argument was ever added. *)
Definition ever_var (ops : list clause_op) : bool :=
  existsb (fun o => match o with AddLast c => has_var h c | _ => false end) ops.

(** The states a predicate goes through; the operations are listed latest first. *)
Inductive history : list clause_op -> managed_clauses -> Prop :=
  | history_empty : history [] mc_empty
  | history_step ops m o m' : history ops m -> (forall c, o = AddLast c -> is_erased c = false) ->
      clause_step m o = Ok m' -> history (o :: ops) m'.

Lemma add_has_vars m c m' : add_clause h m c LAST_CLAUSE = Ok m' -> mc_has_vars m' = has_var h c || mc_has_vars m.
Proof.
  unfold add_clause, add_index. intros (m1 & (c' & Hget & (f & Hf & H1)%bind_Ok)%bind_Ok & [= <-])%bind_Ok.
  unfold get_clause in Hget. cbn [mc_clauses with_clauses] in Hget. rewrite list_lookup_middle in Hget by done.
  injection Hget as <-. unfold has_var. rewrite Hf. cbn.
  destruct (f =? no_term); [by injection H1 as <-|]. destruct (is_ref (cell_tag f)); [by injection H1 as <-|].
  apply bind_Ok in H1 as (k & _ & H1). by injection H1 as <-.
Qed.

Lemma remove_has_vars l m m' : remove_clauses h m l = Ok m' -> mc_has_vars m' = mc_has_vars m.
Proof.
  revert m. induction l as [|i l IH]; intros m H; cbn [remove_clauses] in H; [by injection H as <-|].
  apply bind_Ok in H as (c & _ & (m1 & H1 & ->%IH)%bind_Ok). destruct (is_erased c); [by injection H1 as <-|].
  apply bind_Ok in H1 as (m2 & H2 & H1). injection H1 as <-. unfold remove_index in H2.
  apply bind_Ok in H2 as (c' & _ & (f & _ & H2)%bind_Ok). destruct (f =? no_term); [by injection H2 as <-|].
  apply bind_Ok in H2 as (u & _ & H2). destruct (is_ref (cell_tag f));
    apply bind_Ok in H2 as (x & _ & H2); by injection H2 as <-.
Qed.

Lemma remove_loop_has_vars m clause l m' b : remove_clause_loop m clause l = Ok (m', b) -> mc_has_vars m' = mc_has_vars m.
Proof.
  induction l as [|[i|] l IH]; cbn [remove_clause_loop]; [by intros [= <- _]| |done].
  intros (c & _ & H)%bind_Ok. destruct (is_erased c); [auto|].
  destruct (clause =? mc_clause c); [by injection H as <- _|auto].
Qed.

Lemma history_indexed ops m : history ops m -> indexed_ok m /\ mc_has_vars m = ever_var ops.
Proof.
  induction 1 as [|ops m o m' _ [I V] Ho H]; [by split; [apply empty_indexed|]|].
  destruct o as [c|f|c f|l]; cbn [clause_step ever_var existsb] in *; fold (ever_var ops).
  - split; [by destruct (add_last_indexed _ _ _ I (Ho _ eq_refl) H)|]. by rewrite (add_has_vars _ _ _ H), V.
  - apply bind_Ok in H as ([m1 l] & H1 & H). injection H as <-.
    destruct (get_indexed_ok _ _ _ _ I H1) as (_ & ? & _ & ->). by split.
  - unfold remove_clause in H. apply bind_Ok in H as ([m1 b] & ([m2 l] & H1 & H2)%bind_Ok & H). injection H as <-.
    destruct (get_indexed_ok _ _ _ _ I H1) as (_ & I2 & _ & V2).
    split; [by destruct (remove_clause_loop_indexed _ _ _ _ _ I2 H2) as (? & _)|].
    by rewrite (remove_loop_has_vars _ _ _ _ _ H2), V2.
  - split; [by eapply remove_clauses_indexed|]. by rewrite (remove_has_vars _ _ _ H).
Qed.

(** A clause with a variable among the live ones was added once. *)
Lemma live_var_ever m i c : indexed_ok m -> mc_clauses m !! i = Some c -> is_live m i = true -> has_var h c = true ->
  mc_has_vars m = true.
Proof.
  intros I Hc Hl Hv. unfold is_live in Hl. rewrite Hc in Hl. apply negb_true_iff in Hl.
  destruct (io_placed _ I _ _ Hc Hl) as (f & Hf & Hp). unfold has_var in Hv. rewrite Hf in Hv.
  apply andb_true_iff in Hv as [Hn%negb_true_iff Hr]. apply Z.eqb_neq in Hn. specialize (Hp Hn). by rewrite Hr in Hp.
Qed.

Lemma live_lt m i : is_live m i = true -> (i < length (mc_clauses m))%nat.
Proof. unfold is_live. destruct (mc_clauses m !! i) eqn:E; [|done]. intros _. by eapply lookup_lt_Some. Qed.

(** C16: for a predicate whose clauses were added at the end and removed in any order,
    looking up the first argument of a goal finds, in the order of the clauses, exactly
    those that a scan of all clauses finds: if a clause with a variable as first argument
    was ever added, all clauses, otherwise those that may match.  In particular, a clause
    that has a variable or the key of the goal's argument is always found. *)
Theorem lookup_is_scan ops m first m' l :
  history ops m -> get_indexed_first_arg h m first = Ok (m', l) ->
  live_positions m' l = scan h (ever_var ops) m first /\
  forall i c, mc_clauses m !! i = Some c -> is_live m i = true ->
    has_var h c = true \/ may_match h false m first i = true -> i ∈ live_positions m' l.
Proof.
  intros [I V]%history_indexed H. destruct (get_indexed_ok _ _ _ _ I H) as [-> _]. rewrite V.
  split; [done|]. intros i c Hc Hl Hm. unfold scan. apply list_elem_of_filter.
  split; [|apply elem_of_seq; pose proof (live_lt _ _ Hl); lia]. unfold may_match in *. rewrite Hl in *. cbn [andb] in *.
  destruct Hm as [Hv|Hm].
  - rewrite <-V, (live_var_ever _ _ _ I Hc Hl Hv). by rewrite orb_true_r.
  - destruct (ever_var ops); [by rewrite orb_true_r|exact Hm].
Qed.

(** ** [asserta] *)

(** Building the index again adds a clause once for each clause with a variable before it:
    none when there are no such clauses. *)
Lemma rebuilt_empty cs m i m' : (forall k, default [] (mc_index m !! k) = []) ->
  do_index_loop h m [] i cs = Ok m' -> forall k, default [] (mc_index m' !! k) = [].
Proof.
  revert m i. induction cs as [|c cs IH]; intros m i Hm H; cbn [do_index_loop] in H; [by injection H as <-|].
  apply bind_Ok in H as (m1 & H1 & H). eapply IH; [|exact H]. clear H IH.
  destruct (is_erased c); [by injection H1 as <-|].
  apply bind_Ok in H1 as (f & _ & H1). destruct (f =? no_term); [by injection H1 as <-|].
  destruct (is_ref (cell_tag f)); [by injection H1 as <-|].
  apply bind_Ok in H1 as (k & _ & H1). injection H1 as <-. intros k'. cbn [mc_index with_index with_all].
  rewrite Hm, lookup_insert. by destruct (decide (k = k')).
Qed.

Lemma rebuilt_no_vars cs m i j m' : var_based_from h i cs = Ok [] ->
  do_index_loop h m [] j cs = Ok m' -> mc_has_vars m' = mc_has_vars m.
Proof.
  revert m i j. induction cs as [|c cs IH]; intros m i j Hv H; cbn [do_index_loop var_based_from] in *; [by injection H as <-|].
  apply bind_Ok in Hv as (f & Hf & (l & Hl & Hv)%bind_Ok). apply bind_Ok in H as (m1 & H1 & H).
  destruct (negb (f =? no_term) && is_ref (cell_tag f)) eqn:E; [done|]. injection Hv as ->.
  rewrite (IH _ _ _ Hl H). destruct (is_erased c); [by injection H1 as <-|]. rewrite Hf, Ok_bind in H1.
  destruct (f =? no_term); [by injection H1 as <-|]. cbn in E. rewrite E in H1.
  apply bind_Ok in H1 as (k & _ & H1). by injection H1 as <-.
Qed.

(** C17: after [asserta] a predicate none of whose clauses has a variable as first argument
    has an empty index: looking up any first argument that is not a variable finds no
    clause at all, not even the new one. *)
Theorem asserta_loses_clauses m c m1 first m2 l :
  add_clause h m c FIRST_CLAUSE = Ok m1 -> all_var_based_clauses h m1 = Ok [] ->
  first <> no_term -> is_ref (cell_tag first) = false -> get_indexed_first_arg h m1 first = Ok (m2, l) ->
  l = [].
Proof.
  intros H1 Hv Hne Hr H. unfold get_indexed_first_arg in H. rewrite (proj2 (Z.eqb_neq _ _) Hne) in H.
  apply bind_Ok in H as (m3 & H3 & H). rewrite Hr in H. cbn [orb] in H.
  assert (mc_has_vars m3 = false /\ forall k, default [] (mc_index m3 !! k) = []) as [Hv3 E].
  { unfold add_clause in H1. cbn in H1. injection H1 as <-. unfold do_index in H3. cbn [mc_is_indexed with_clauses clear_index] in H3.
    unfold all_var_based_clauses in *. cbn [mc_clauses with_clauses clear_index] in *. rewrite Hv, Ok_bind in H3.
    apply bind_Ok in H3 as (m4 & H4 & H3). injection H3 as <-.
    split; [by apply (rebuilt_no_vars _ _ _ _ _ Hv H4)|]. intros k. cbn. eapply rebuilt_empty; [|exact H4]. done. }
  rewrite Hv3 in H.
  apply bind_Ok in H as (k & _ & H). injection H as _ <-. by rewrite E.
Qed.

(** [asserta] of an atom: a goal without arguments sees the old positions only, so the
    last clause is never tried. *)
Lemma asserta_stale m c m1 : add_clause h m c FIRST_CLAUSE = Ok m1 ->
  get_indexed_first_arg h m1 no_term = Ok (m1, mc_all m) /\ length (mc_clauses m1) = S (length (mc_clauses m)).
Proof. unfold add_clause. cbn. intros H. by injection H as <-. Qed.

End spec.

(** ** Examples *)

Module ClausesExample.

Definition p_1 : Z := con_constant [112] 1.
Definition atom_a : Z := con_constant [97] 0.
Definition atom_b : Z := con_constant [98] 0.

Definition heap_or (r : res heap) : heap := match r with Ok h => h | Throw _ => heap_empty end.

(** [p(a)] at address 0 and [p(b)] at address 3, with its cells. *)
Definition facts : heap :=
  heap_or ('(h, s) ← new_str heap_empty p_1; h ← set_arg h s 0 atom_a; '(h, t) ← new_str h p_1; set_arg h t 0 atom_b).
Definition pa : managed_clause := ManagedClause (str_cell 1) 1.
Definition pb : managed_clause := ManagedClause (str_cell 4) 1.

Definition of_steps (ops : list clause_op) : managed_clauses :=
  foldl (fun m o => match clause_step facts m o with Ok m => m | Throw _ => m end) mc_empty ops.
Definition both : managed_clauses := of_steps [AddLast pa; AddLast pb].

Lemma both_history : history facts [AddLast pb; AddLast pa] both.
Proof.
  apply (history_step facts [AddLast pa] (of_steps [AddLast pa]) (AddLast pb)); [|by intros c [= <-]|by vm_compute].
  apply (history_step facts [] mc_empty (AddLast pa)); [constructor|by intros c [= <-]|by vm_compute].
Qed.

Definition looked_up : managed_clauses :=
  match get_indexed_first_arg facts both atom_b with Ok (m, _) => m | Throw _ => both end.

(** [p(b)] is there, then [asserta(p(a))]. *)
Definition asserted : managed_clauses :=
  match add_clause facts (of_steps [AddLast pb]) pa FIRST_CLAUSE with Ok m => m | Throw _ => both end.
Definition asked : managed_clauses :=
  match get_indexed_first_arg facts asserted atom_a with Ok (m, _) => m | Throw _ => both end.

(** [p(a)] and [p(X)]: [retractall] of the second erases at the end of a vector. *)
Definition with_var : heap :=
  heap_or ('(h, s) ← new_str heap_empty p_1; h ← set_arg h s 0 atom_a; '(h, t) ← new_str h p_1; Ok h).
Definition px : managed_clause := ManagedClause (str_cell 4) 1.
Definition a_and_var : managed_clauses :=
  match m ← add_clause with_var mc_empty pa LAST_CLAUSE; add_clause with_var m px LAST_CLAUSE with
  | Ok m => m | Throw _ => mc_empty end.
Lemma var_history : history with_var [AddLast px; AddLast pa] a_and_var.
Proof.
  destruct (add_clause with_var mc_empty pa LAST_CLAUSE) as [m|] eqn:E; [|by vm_compute in E].
  apply (history_step with_var [AddLast pa] m (AddLast px)); [|by intros c [= <-]|].
  - apply (history_step with_var [] mc_empty (AddLast pa)); [constructor|by intros c [= <-]|exact E].
  - vm_compute in E. injection E as <-. by vm_compute.
Qed.
Lemma retractall_var_undefined : remove_clauses with_var a_and_var [1%nat] = Throw UndefinedBehaviour.
Proof. vm_compute. reflexivity. Qed.

End ClausesExample.

(** [p(b)] finds the second clause of [p(a)], [p(b)], and [p(X)] is found by any goal. *)
Lemma lookup_is_scan_witness :
  live_positions ClausesExample.looked_up [Some 1%nat] = [1%nat] /\
  exists m l, get_indexed_first_arg ClausesExample.with_var ClausesExample.a_and_var ClausesExample.atom_b = Ok (m, l) /\
    1%nat ∈ live_positions m l.
Proof.
  split.
  - refine (proj1 (lookup_is_scan ClausesExample.facts _ ClausesExample.both ClausesExample.atom_b ClausesExample.looked_up
      [Some 1%nat] ClausesExample.both_history _)). vm_compute. reflexivity.
  - exists ClausesExample.a_and_var, [Some 0%nat; Some 1%nat].
    assert (Hl : get_indexed_first_arg ClausesExample.with_var ClausesExample.a_and_var ClausesExample.atom_b =
      Ok (ClausesExample.a_and_var, [Some 0%nat; Some 1%nat])) by (vm_compute; reflexivity).
    split; [exact Hl|]. refine (proj2 (lookup_is_scan ClausesExample.with_var _ ClausesExample.a_and_var
      ClausesExample.atom_b _ _ ClausesExample.var_history Hl) 1%nat ClausesExample.px _ _ _); [..|left]; vm_compute; reflexivity.
Defined.

(** Two clauses are there, and [p(a)] finds none. *)
Lemma asserta_loses_clauses_witness :
  map (is_live ClausesExample.asserted) [0; 1]%nat = [true; true] /\
  exists l, get_indexed_first_arg ClausesExample.facts ClausesExample.asserted ClausesExample.atom_a =
    Ok (ClausesExample.asked, l) /\ l = [].
Proof.
  split; [by vm_compute|]. exists []. split; [by vm_compute|].
  refine (asserta_loses_clauses ClausesExample.facts (ClausesExample.of_steps [AddLast ClausesExample.pb]) ClausesExample.pa
    ClausesExample.asserted ClausesExample.atom_a ClausesExample.asked [] _ _ _ _ _);
    first [vm_compute; reflexivity|vm_compute; by intros [=]].
Defined.
