(* ===== verification/TermCopyFrame.v ===== *)
(** * Copying a term touches new cells only

    Whatever term is copied and however the heap is linked, the cells that were there stay
    as they are: [copy] writes to the structures and big integers it has allocated itself.
    Trail and [hb] are as before. *)

From S2P Require Import Prelude Cells Heap HeapGrow Bigs TermEnv HeapSpec UnifySpec UnifyFrame TermCopy TermCopySpec Machine Wam WamSafe BuiltinsSafe.

Lemma extended_refl h : heap_inv h -> extended h h.
Proof. intros H. split; [by apply grows_refl|auto]. Qed.
Lemma extended_trans h1 h2 h3 : extended h1 h2 -> extended h2 h3 -> extended h1 h3.
Proof.
  intros [G1 D1] [G2 D2]. split; [by eapply grows_trans|]. intros i [Hi|Hi]%D2; [by apply D1|right].
  pose proof (gr_size _ _ G1). lia.
Qed.

(** ** Spans *)

Lemma zero_cells_lookup m n k j :
  (j < n -> zero_cells m n k !! j = m !! j) /\ (is_Some (zero_cells m n k !! j) -> is_Some (m !! j) \/ n <= j).
Proof.
  unfold zero_cells. assert (Hin : forall i, i ∈ seqZ n k -> n <= i) by (intros i [? _]%elem_of_seqZ; lia).
  revert Hin. induction (seqZ n k) as [|i l IH]; intros Hin; cbn; [auto|].
  destruct IH as [I1 I2]; [intros x Hx; apply Hin; by apply list_elem_of_further|].
  pose proof (Hin i (list_elem_of_here _ _)). split.
  - intros Hj. rewrite lookup_insert_ne by lia. by apply I1.
  - rewrite lookup_insert. destruct (decide (i = j)) as [<-|]; [by right|done].
Qed.

Lemma span_loop_size n : forall h k h', heap_inv h -> 0 <= k -> span_loop n h k = Ok h' ->
  heap_inv h' /\ h_size h' = h_size h + k.
Proof.
  induction n as [|n IH]; intros h k h' Hi Hk H; cbn [span_loop] in H; [done|].
  destruct (Z.leb_spec k 0); [injection H as <-; split; [done|lia]|].
  set (h1 := if _ || _ then new_block h else h) in H.
  assert (heap_inv h1 /\ h_size h1 = h_size h /\ head_size h1 <= MAX_SIZE) as (I1 & S1 & R1).
  { unfold h1. unfold heap_inv in *. unfold head_size, head_offset, MAX_SIZE in *.
    destruct (Z.eqb_spec (h_blocks h) 0) as [|]; cbn [orb]; [cbn; unfold MAX_SIZE; lia|].
    destruct (Z.eqb_spec (h_size h - (h_blocks h - 1) * 8192) 8192); [cbn; unfold MAX_SIZE; lia|].
    destruct (Z.eqb_spec (h_size h - (h_blocks h - 1) * 8192) 8192); cbn; lia. }
  clearbody h1. unfold heap_inv, head_size, head_offset in *. unfold MAX_SIZE in *.
  apply IH in H as [I2 S2]; cbn in *; [split; [done|lia]|unfold heap_inv; cbn; unfold MAX_SIZE in *; lia|lia].
Qed.

Lemma span_loop_extended n : forall h k h', heap_inv h -> span_loop n h k = Ok h' -> extended h h'.
Proof.
  induction n as [|n IH]; intros h k h' Hi H; cbn [span_loop] in H; [done|].
  destruct (Z.leb_spec k 0); [injection H as <-; by apply extended_refl|].
  set (h1 := if _ || _ then new_block h else h) in H.
  assert (extended h h1 /\ 0 <= MAX_SIZE - head_size h1) as (E1 & R1).
  { unfold h1. unfold heap_inv in Hi. unfold head_size, head_offset, MAX_SIZE in *. destruct (_ || _).
    - split; [|cbn; unfold MAX_SIZE; lia]. split; [|auto]. split; [unfold heap_inv; cbn; unfold MAX_SIZE; lia|cbn; unfold MAX_SIZE; lia|done].
    - split; [by apply extended_refl|lia]. }
  clearbody h1.
  refine (extended_trans _ _ _ (extended_trans _ _ _ E1 _) (IH _ _ _ _ H)).
  - destruct E1 as [[I1 _ _] _]. unfold head_size, head_offset in *. unfold heap_inv in *. split; [split|]; cbn.
    + unfold heap_inv. cbn. unfold MAX_SIZE in *. lia.
    + lia.
    + intros i Hlt. by apply zero_cells_lookup.
    + intros i Hx. by apply zero_cells_lookup in Hx.
  - destruct E1 as [[I1 _ _] _]. unfold head_size, head_offset, heap_inv in *. cbn. unfold MAX_SIZE in *. lia.
Qed.

Lemma extended_insert h0 h i v : extended h0 h -> h_size h0 <= i -> extended h0 (with_cells h (<[i := v]> (h_cells h))).
Proof.
  intros [[I S C] D] Hi. split; [split; [done|done|]|]; intros j; cbn.
  - intros Hj. rewrite lookup_insert_ne by lia. by apply C.
  - rewrite lookup_insert. destruct (decide (i = j)) as [<-|]; [by right|apply D].
Qed.

Lemma new_big_extended h n h' t : heap_inv h -> new_big h n = Ok (h', t) ->
  extended h h' /\ t = big_cell (h_size h).
Proof.
  unfold new_big, allocate_span. intros Hi ([h1 i] & (h2 & H2 & H1)%bind_Ok & H)%bind_Ok.
  apply span_loop_extended in H2; [|done]. injection H1 as <- <-. injection H as <- <-. split; [|done].
  apply (extended_insert h (with_cells h2 _)); [|lia]. apply extended_insert; [done|lia].
Qed.

Lemma same_cells_extended h0 h h' : extended h0 h -> same_cells h h' -> extended h0 h'.
Proof.
  intros [[I S C] D] [[Es Eb] Ec]. split; [split|]; unfold heap_inv in *; rewrite ?Es, ?Eb, ?Ec; done.
Qed.

(** ** How much one round allocates *)

Definition COPY_ROOM : Z := 2 ^ 24.

Lemma allocate_room h t n h' i : heap_inv h -> 0 <= n -> Heap.allocate h t n = Ok (h', i) -> h_size h' <= h_size h + 2 * n.
Proof.
  unfold Heap.allocate, ensure_allocate. intros Hi Hn (u & _ & H)%bind_Ok. injection H as <- _. cbn.
  unfold heap_inv, head_size, head_offset in *. unfold MAX_SIZE in *.
  destruct (Z.eqb_spec (h_blocks h) 0) as [|]; cbn [orb]; [cbn; unfold MAX_SIZE; lia|].
  destruct (Z.leb_spec (h_size h - (h_blocks h - 1) * 8192 + n) 8192); cbn; unfold MAX_SIZE; lia.
Qed.

Lemma new_str_room h f h' s : heap_inv h -> new_str h f = Ok (h', s) -> h_size h' <= h_size h + COPY_ROOM.
Proof.
  unfold new_str. intros Hi (u & _ & ([h1 i] & Ha & H)%bind_Ok)%bind_Ok. injection H as <- _. cbn.
  pose proof (con_arity_range f) as Hf. apply allocate_room in Ha; [|done|lia].
  unfold COPY_ROOM. lia.
Qed.

Lemma new_ref_room h h' t : heap_inv h -> Heap.new_ref h = Ok (h', t) -> h_size h' <= h_size h + COPY_ROOM.
Proof.
  unfold Heap.new_ref. intros Hi ([h1 i] & Ha & H)%bind_Ok. injection H as <- _. cbn.
  apply allocate_room in Ha; [|done|lia]. unfold COPY_ROOM. lia.
Qed.

Lemma new_big_room h d h' t : heap_inv h -> new_big h (dat_num_bits d) = Ok (h', t) -> h_size h' <= h_size h + COPY_ROOM.
Proof.
  unfold new_big, allocate_span. intros Hi ([h1 i] & (h2 & H2 & H1)%bind_Ok & H)%bind_Ok.
  assert (0 <= dat_num_bits d < 2 ^ 29) by (unfold dat_num_bits; rewrite Z.land_comm; by apply (land_word 29)).
  assert (0 <= big_alloc_cells (dat_num_bits d) <= 2 ^ 23 + 1).
  { unfold big_alloc_cells. destruct (Z.leb_spec ((dat_num_bits d + 7) / 8) 4); [lia|].
    zify; Z.to_euclidean_division_equations; lia. }
  apply span_loop_size in H2 as [_ H2]; [|done|lia]. injection H1 as <- <-. injection H as <- <-. cbn.
  unfold COPY_ROOM. lia.
Qed.

(** ** The loop *)

Section frame.
Context (src : option heap) (dont_copy_big : bool) (e0 : term_env).

Abbreviation h0 := (e_heap e0).

(** A structure that is not older than the copy. *)
Definition fresh (s : Z) : Prop := cell_tag s = STR /\ h_size h0 <= ptr_index s.

Record framed (k : copier) : Prop := Framed {
  fr_heap : extended h0 (co_heap k);
  fr_trail : e_trail (co_env k) = e_trail e0;
  fr_hb : e_hb (co_env k) = e_hb e0;
  fr_temp : e_temp_trail (co_env k) = [];
  fr_cyclic : forall p, p ∈ co_cyclic k -> fresh p.1 /\ 0 <= p.2
}.

Lemma fresh_set h s i a h' : fresh s -> 0 <= i -> set_arg h s i a = Ok h' -> extended h0 h -> extended h0 h'.
Proof.
  unfold set_arg. intros [Ht Hp] Hi (d & Hd & H%heap_set_cells)%bind_Ok E. subst h'. apply extended_insert; [done|].
  assert (d = s) as ->; [|lia]. revert Hd. unfold Heap.deref, deref_with_cost, deref_loop. cbn. rewrite Ht. by intros [= <-].
Qed.

Lemma set_arg_layout h s i a h' : set_arg h s i a = Ok h' -> same_layout h h'.
Proof. unfold set_arg. intros (d & _ & H%set_layout)%bind_Ok. done. Qed.

Lemma framed_heap k h : framed k -> extended h0 h -> framed (co_with_heap k h).
Proof. intros [H T B M C] E. by split. Qed.

(** The heap grows, by what [n] rounds allocate at most; what is framed stays so unless
    the heap gets too large. *)
Record copies (n : nat) (k k' : copier) : Prop := Copies {
  cs_grow : heap_inv (co_heap k) -> heap_inv (co_heap k') /\
    h_size (co_heap k) <= h_size (co_heap k') <= h_size (co_heap k) + Z.of_nat n * COPY_ROOM;
  cs_framed : h_size (co_heap k') <= STACK_BASE -> framed k -> framed k'
}.

Lemma framed_inv k : framed k -> heap_inv (co_heap k).
Proof. intros [[[I _ _] _] _ _ _ _]. done. Qed.

Lemma copies_trans n m k1 k2 k3 : copies n k1 k2 -> copies m k2 k3 -> copies (n + m) k1 k3.
Proof.
  intros [G1 F1] [G2 F2]. split.
  - intros [I2 ?]%G1. destruct (G2 I2). split; [done|lia].
  - intros S F. destruct (G1 (framed_inv _ F)) as [I2 _]. destruct (G2 I2). apply F2, F1; [done|lia|done].
Qed.
Lemma copies_then n k1 k2 k3 : copies n k1 k2 -> copies 0 k2 k3 -> copies n k1 k3.
Proof. intros H1 H2. rewrite <-(Nat.add_0_r n). by eapply copies_trans. Qed.
Lemma copies_one k1 k2 : copies 0 k1 k2 -> copies 1 k1 k2.
Proof.
  intros [G F]. split; [|done]. intros [I ?]%G. split; [done|]. unfold COPY_ROOM. lia.
Qed.
#[local] Instance copies_preorder : PreOrder (copies 0).
Proof.
  split; [split; [intros; split; [done|lia]|done]|]. intros k1 k2 k3. apply copies_then.
Qed.

(** The work items, the results and the tables do not matter. *)
Lemma copies_same k k' :
  co_heap k' = co_heap k -> e_trail (co_env k') = e_trail (co_env k) -> e_hb (co_env k') = e_hb (co_env k) ->
  e_temp_trail (co_env k') = e_temp_trail (co_env k) -> co_cyclic k' = co_cyclic k -> copies 0 k k'.
Proof.
  intros Eh Et Eb Em Ec. split; rewrite Eh; [intros; split; [done|lia]|].
  intros _ [H T B M C]. split; rewrite ?Eh, ?Et, ?Eb, ?Em, ?Ec; done.
Qed.

Lemma copies_heap n k h :
  (heap_inv (co_heap k) -> extended (co_heap k) h /\ h_size h <= h_size (co_heap k) + Z.of_nat n * COPY_ROOM) ->
  copies n k (co_with_heap k h).
Proof.
  intros E. split; cbn.
  - intros I. destruct (E I) as [[[? ? _] _] ?]. done.
  - intros _ F. apply framed_heap; [done|]. eapply extended_trans; [apply F|]. by apply E, framed_inv.
Qed.

#[local] Hint Extern 1 (copies 0 ?k (temp_push ?k _ _)) => by apply copies_same : copies.
#[local] Hint Extern 1 (copies 0 ?k (copied ?k _ _)) => by apply copies_same : copies.
#[local] Hint Extern 1 (copies 0 ?k (co_push ?k _ _)) => by apply copies_same : copies.
#[local] Hint Extern 1 (copies 0 ?k (co_with_terms ?k _)) => by apply copies_same : copies.
#[local] Hint Extern 1 (copies 0 ?k (co_with_path ?k _)) => by apply copies_same : copies.
#[local] Hint Extern 1 (copies 0 ?k (co_with_functors ?k _)) => by apply copies_same : copies.

Lemma copy_functor_copies k f k' f' : copy_functor src k f = Ok (k', f') -> copies 0 k k'.
Proof.
  unfold copy_functor. destruct (co_functors k !! f); [by intros [= <- _]|].
  intros (nm & _ & ([h g] & H1%make_functor_cells & H)%bind_Ok)%bind_Ok. injection H as <- _.
  etransitivity; [apply (copies_heap 0 k h)|by apply copies_same]. intros I.
  split; [eapply same_cells_extended; [by apply extended_refl|done]|]. destruct H1 as [[-> _] _]. lia.
Qed.

Lemma push_copy_args_copies n k c k' : push_copy_args src n k c = Ok k' -> copies 0 k k'.
Proof.
  revert k. induction n as [|n IH]; intros k H; cbn [push_copy_args] in H; [by injection H as <-|].
  apply bind_Ok in H as (a & _ & H%IH). etransitivity; [|exact H]. auto with copies.
Qed.

Lemma temp_pop_copies k s a k' : temp_pop k = Ok (s, a, k') -> copies 0 k k'.
Proof. unfold temp_pop. destruct (co_temp k) as [|? [|? t]]; try done. intros [= _ _ <-]. by apply copies_same. Qed.
Lemma co_pop_copies k s a k' : co_pop k = Ok (s, a, k') -> copies 0 k k'.
Proof.
  unfold co_pop. intros ([t e] & H1%pop_same & ([u e1] & H2%pop_same & H)%bind_Ok)%bind_Ok. injection H as _ _ <-.
  destruct (same_env_trans _ _ _ H1 H2) as [? ? ? ?]. by apply copies_same.
Qed.

Lemma pop_copied_layout n k s k' : pop_copied_args n k s = Ok k' -> same_layout (co_heap k) (co_heap k').
Proof.
  revert k. induction n as [|n IH]; intros k H; cbn [pop_copied_args] in H; [by injection H as <-|].
  apply bind_Ok in H as ([[st a] k1] & H1 & (h & H2%set_arg_layout & H%IH)%bind_Ok).
  assert (co_heap k1 = co_heap k) as E.
  { unfold temp_pop in H1. destruct (co_temp k) as [|? [|? t]]; try done. by injection H1 as _ _ <-. }
  rewrite E in H2. etransitivity; [exact H2|]. by destruct (_ =? _).
Qed.

Lemma pop_copied_framed n k s k' : pop_copied_args n k s = Ok k' -> fresh s -> framed k -> framed k'.
Proof.
  revert k. induction n as [|n IH]; intros k H Hs F; cbn [pop_copied_args] in H; [by injection H as <-|].
  apply bind_Ok in H as ([[st a] k1] & H1 & (h & H2 & H)%bind_Ok).
  assert (framed k1) as F1.
  { unfold temp_pop in H1. destruct (co_temp k) as [|? [|? t]]; try done. injection H1 as _ _ <-. destruct F. by split. }
  assert (framed (co_with_heap k1 h)) as F2.
  { apply framed_heap; [done|]. eapply fresh_set; [exact Hs| |exact H2|apply F1]. lia. }
  destruct (_ =? _); eapply (IH _ H Hs); [|done]. destruct F2 as [A1 A2 A3 A4 A5]. split; try done. cbn.
  intros p [Hp|Hp%list_elem_of_singleton]%elem_of_app; [by apply A5|]. subst p. split; [done|cbn; lia].
Qed.

Lemma new_str_copies k k' f h s n k2 :
  new_str (co_heap k) f = Ok (h, s) -> co_heap k' = h -> copies 0 (co_with_heap k h) k' ->
  pop_copied_args n k' s = Ok k2 -> copies 1 k k2.
Proof.
  intros Hn Eh K H. pose proof (pop_copied_layout _ _ _ _ H) as [Es Eb].
  assert (copies 1 k (co_with_heap k h)) as K0.
  { apply copies_heap. intros I. split; [by destruct (new_str_extended _ _ _ _ I Hn)|].
    pose proof (new_str_room _ _ _ _ I Hn). lia. }
  split.
  - intros I. destruct (cs_grow _ _ _ K0 I) as [I1 ?]. destruct (cs_grow _ _ _ K I1). unfold heap_inv in *. rewrite Es, Eb.
    split; [done|]. cbn in *. lia.
  - intros Sm F. rewrite Es in Sm. destruct (cs_grow _ _ _ K0 (framed_inv _ F)) as [I1 _]. destruct (cs_grow _ _ _ K I1) as [I2 S2].
    assert (F1 : framed (co_with_heap k h)) by (apply (cs_framed _ _ _ K0); [cbn in *; lia|done]).
    assert (F2 : framed k') by (by apply (cs_framed _ _ _ K)).
    eapply pop_copied_framed; [exact H| |done].
    destruct (new_str_extended _ _ _ _ (framed_inv _ F) Hn) as (_ & i & Hi & Hs & ->).
    pose proof (con_arity_pos f). pose proof (framed_inv _ F) as [Hpos _]. pose proof (gr_size _ _ (ex_grows _ _ (fr_heap _ F))).
    rewrite Eh in Sm. unfold STACK_BASE in Sm. destruct (str_cell_spec (i + 1)) as [Ht Hp]; [unfold is_index, is_word; lia|]. split; [done|]. rewrite Hp. lia.
Qed.

Lemma copy_str_copies k c p k' : copy_str src k c p = Ok k' -> copies 1 k k'.
Proof.
  unfold copy_str. intros (f & _ & ([k1 f'] & H1%copy_functor_copies & H)%bind_Ok)%bind_Ok.
  apply (copies_trans 0 1 _ k1); [exact H1|]. destruct p.
  - apply bind_Ok in H as ([h s] & H2 & (k2 & H3 & H)%bind_Ok). injection H as <-.
    apply (copies_then 1 _ k2); [|by apply copies_same]. eapply new_str_copies; [exact H2| | |exact H3]; [done|by apply copies_same].
  - apply push_copy_args_copies in H. apply copies_one. etransitivity; [|exact H]. by apply copies_same.
Qed.

Lemma copy_cells_layout n k from to i k' : copy_cells src n k from to i = Ok k' -> same_layout (co_heap k) (co_heap k').
Proof.
  revert k i. induction n as [|n IH]; intros k i H; cbn [copy_cells] in H; [by injection H as <-|].
  apply bind_Ok in H as (x & _ & (h & H2%set_layout & H%IH)%bind_Ok). by etransitivity; [exact H2|].
Qed.
Lemma copy_cells_framed n k from to i k' : copy_cells src n k from to i = Ok k' -> h_size h0 <= to -> 0 <= i -> framed k -> framed k'.
Proof.
  revert k i. induction n as [|n IH]; intros k i H Ht Hi F; cbn [copy_cells] in H; [by injection H as <-|].
  apply bind_Ok in H as (x & _ & (h & H2%heap_set_cells & H)%bind_Ok). eapply IH; [exact H|done|lia|].
  apply framed_heap; [done|]. rewrite H2. apply extended_insert; [apply F|lia].
Qed.

Lemma copy_big_copies k c k' : copy_big src dont_copy_big k c = Ok k' -> copies 1 k k'.
Proof.
  unfold copy_big. destruct dont_copy_big; [intros [= <-]; apply copies_one; auto with copies|].
  intros (d & _ & ([h big] & H1 & (k1 & H2 & H)%bind_Ok)%bind_Ok)%bind_Ok. injection H as <-.
  apply (copies_then 1 _ k1); [|by apply copies_same]. pose proof (copy_cells_layout _ _ _ _ _ _ H2) as [Es Eb]. cbn in Es, Eb. split.
  - intros I. destruct (new_big_extended _ _ _ _ I H1) as [[[I1 S1 _] _] _]. pose proof (new_big_room _ _ _ _ I H1).
    unfold heap_inv in *. rewrite Es, Eb. split; [done|lia].
  - intros Sm F. destruct (new_big_extended _ _ _ _ (framed_inv _ F) H1) as [E ->].
    eapply copy_cells_framed; [exact H2| |done|].
    + pose proof (gr_size _ _ (ex_grows _ _ (fr_heap _ F))). pose proof (gr_size _ _ (ex_grows _ _ E)).
      rewrite Es in Sm. pose proof (framed_inv _ F) as [? _]. unfold STACK_BASE in Sm. unfold big_cell.
      unfold ptr_index. rewrite cell_value_mk; [lia|]. unfold is_index, is_word. lia.
    + apply framed_heap; [done|]. eapply extended_trans; [apply F|done].
Qed.

Lemma copy_ref_copies k c k' : copy_ref k c = Ok k' -> copies 1 k k'.
Proof.
  unfold copy_ref. intros ([h v] & H1 & H)%bind_Ok. injection H as <-.
  apply (copies_then 1 _ (co_with_heap k h)); [|by apply copies_same]. apply copies_heap. intros I.
  split; [by eapply new_ref_extended|]. pose proof (new_ref_room _ _ _ I H1). lia.
Qed.
Lemma copy_con_copies k c k' : copy_con src k c = Ok k' -> copies 0 k k'.
Proof.
  unfold copy_con. destruct (is_direct c); [intros [= <-]; auto with copies|].
  intros ([k2 c'] & H1%copy_functor_copies & H)%bind_Ok. injection H as <-. etransitivity; [exact H1|auto with copies].
Qed.

Lemma copy_item_copies k c p k' : copy_item src dont_copy_big k c p = Ok k' -> copies 1 k k'.
Proof.
  unfold copy_item. destruct (co_terms k !! c); [intros [= <-]; apply copies_one; auto with copies|].
  destruct (_ && _); [intros [= <-]; apply copies_one; auto with copies|]. set (k1 := co_with_path k _). intros H.
  apply (copies_trans 0 1 _ k1); [by apply copies_same|]. clearbody k1.
  destruct (cell_tag c); try (injection H as <-; apply copies_one; auto with copies; reflexivity);
    eauto using copies_one, copy_ref_copies, copy_con_copies, copy_str_copies, copy_big_copies.
Qed.

Lemma copies_none n k : copies n k k.
Proof. split; [|done]. intros I. split; [done|]. unfold COPY_ROOM. lia. Qed.

Lemma copy_loop_copies n d k cost k' cost' :
  copy_loop src dont_copy_big n d k cost = Ok (k', cost') -> copies n k k'.
Proof.
  revert k cost. induction n as [|n IH]; intros k cost H; cbn [copy_loop] in H.
  { destruct (d <? _)%nat; [done|]. injection H as <- _. apply copies_none. }
  destruct (d <? _)%nat; [|injection H as <- _; apply copies_none]. apply bind_Ok in H as (k1 & H1 & H%IH).
  apply (copies_trans 1 n _ k1); [|exact H]. unfold copy_step in H1.
  apply bind_Ok in H1 as ([[st c] k2] & H2%co_pop_copies & H1%copy_item_copies).
  by apply (copies_trans 0 1 _ k2).
Qed.

Lemma patch_cyclic_framed terms l : forall h h', patch_cyclic terms h l = Ok h' ->
  (forall p, p ∈ l -> fresh p.1 /\ 0 <= p.2) -> extended h0 h -> extended h0 h' /\ same_layout h h'.
Proof.
  induction l as [|[s i] l IH]; intros h h' H Hl E; cbn [patch_cyclic] in H; [by injection H as <-|].
  apply bind_Ok in H as (old & _ & (h1 & H1 & H)%bind_Ok). destruct (Hl (s, i)) as [Hs Hi]; [by left|].
  pose proof (fresh_set _ _ _ _ _ Hs Hi H1 E) as E1.
  destruct (IH _ _ H) as [E2 L2]; [intros p Hp; apply Hl; by right|done|]. split; [done|].
  etransitivity; [by eapply set_arg_layout|done].
Qed.

End frame.

Lemma patch_cyclic_layout terms l : forall h h', patch_cyclic terms h l = Ok h' -> same_layout h h'.
Proof.
  induction l as [|[x i] l IH]; intros g h' H; cbn [patch_cyclic] in H; [by injection H as <-|].
  apply bind_Ok in H as (old & _ & (h1 & H1%set_arg_layout & H%IH)%bind_Ok). by etransitivity.
Qed.

(** Copying a term, whatever it is, only appends to the heap, and no more than each round
    may allocate. *)
Lemma copy_term_frame src dont_copy_big fuel e t e' v cost :
  heap_inv (e_heap e) -> e_temp_trail e = [] -> copy_term src dont_copy_big fuel e t = Ok (e', v, cost) ->
  h_size (e_heap e) + Z.of_nat fuel * COPY_ROOM <= STACK_BASE ->
  extended (e_heap e) (e_heap e') /\ e_trail e' = e_trail e /\ e_hb e' = e_hb e /\ e_temp_trail e' = [] /\
  h_size (e_heap e') <= STACK_BASE.
Proof.
  intros I Te H Sm. unfold copy_term in H. apply bind_Ok in H as (c & _ & ([k k1] & H1 & (h & H2 & H)%bind_Ok)%bind_Ok).
  set (s := co_push _ _ _) in H1. pose proof (copy_loop_copies src dont_copy_big e _ _ s _ _ _ H1) as K.
  assert (framed e s) as F0 by (split; cbn; try done; [by apply extended_refl|by intros p ?%elem_of_nil]).
  destruct (co_temp k) as [|? [|? ?]]; try done. injection H as <- <- <-. cbn in *.
  assert (Hk : h_size (co_heap k) <= STACK_BASE) by (destruct (cs_grow _ _ _ _ K I) as [_ [_ Hk]]; cbn in Hk; lia).
  pose proof (cs_framed _ _ _ _ K Hk F0) as [A1 A2 A3 A4 A5].
  destruct (patch_cyclic_framed e _ _ _ _ H2 A5 A1) as [E [Es _]]. rewrite Es. done.
Qed.
