(* ===== verification/Interpreter.v ===== *)
(** * The interpreter over clauses ([src/src/interp/interpreter.cpp], [interpreter_base.hpp])

    A goal is a term in [p()]; [dispatch] looks its functor up among the built-ins and the
    predicates and resolves it with a copy of a clause.  The clauses that may match are an
    array in the choice point.  [fail] goes back to the last choice point, whoever made
    it: the machine, a control construct or the choice of a clause.

    Modelled are runs without meta contexts and without compilation on call: [m()] is
    null, [is_auto_wam()] is false and no compiled predicate has been updated.  A pointer
    to a built-in shares its word with the instruction pointer of a code point, so it is
    an address, and a table says which built-in lies there. *)

From S2P Require Import Prelude Cells Heap Bigs TermEnv TermCopy Machine Wam Builtins Clauses.

(** ** State *)

(** [predicate] *)
Record predicate := Predicate { pd_id : Z; pd_clauses : managed_clauses }.

(** [program_db_], [program_predicates_], [code_db_], [current_module_],
    [updated_predicates_] *)
Record interp := Interp {
  i_wam : wam;
  i_program : gmap qname predicate;
  i_predicates : list qname;
  i_code : gmap qname code_point;
  i_module : Z;
  i_updated : gset qname
}.

Definition with_wam (i : interp) (w : wam) : interp :=
  Interp w (i_program i) (i_predicates i) (i_code i) (i_module i) (i_updated i).
Definition with_program (i : interp) (m : gmap qname predicate) (l : list qname) : interp :=
  Interp (i_wam i) m l (i_code i) (i_module i) (i_updated i).
Definition with_code (i : interp) (m : gmap qname code_point) : interp :=
  Interp (i_wam i) (i_program i) (i_predicates i) m (i_module i) (i_updated i).
Definition with_module (i : interp) (m : Z) : interp :=
  Interp (i_wam i) (i_program i) (i_predicates i) (i_code i) m (i_updated i).
Definition with_updated (i : interp) (s : gset qname) : interp :=
  Interp (i_wam i) (i_program i) (i_predicates i) (i_code i) (i_module i) s.

Definition i_heap (i : interp) : heap := w_heap (i_wam i).

(** A built-in that may change the program; one that does not. *)
Definition interp_fn : Type := interp -> nat -> list Z -> res (interp * bool).
Definition lift_fn (bn : builtin_fn) : interp_fn := fun i n args =>
  '(w, r) ← bn (i_wam i) n args; Ok (with_wam i w, r).

(** ** Code points of built-ins *)

Definition BUILTIN_MODULE : Z := con_constant [36; 66; 78] 0.
Definition BUILTIN_R_MODULE : Z := con_constant [36; 66; 78; 82] 0.
Definition FREEZE_MODULE : Z := con_constant [36; 102; 114; 101; 101; 122; 101] 0.

Definition code_of_builtin (name address : Z) (is_recursive : bool) : code_point :=
  CodePoint (Some address) (if is_recursive then BUILTIN_R_MODULE else BUILTIN_MODULE) name.
Definition is_builtin (p : code_point) : bool :=
  (cp_module p =? BUILTIN_MODULE) || (cp_module p =? BUILTIN_R_MODULE).
Definition is_builtin_recursive (p : code_point) : bool := cp_module p =? BUILTIN_R_MODULE.
Definition code_of_qname (qn : qname) : code_point := CodePoint None (fst qn) (snd qn).

(** ** Predicates *)

(** [get_predicate(qn)]: an unknown predicate gets an empty entry and the next number. *)
Definition get_predicate (i : interp) (qn : qname) : interp * predicate :=
  match i_program i !! qn with
  | Some pd => (i, pd)
  | None =>
      let pd := Predicate (Z.of_nat (length (i_predicates i)) + 1) mc_empty in
      (with_program i (<[qn := pd]> (i_program i)) (i_predicates i ++ [qn]), pd)
  end.
Definition set_clauses (i : interp) (qn : qname) (pd : predicate) (m : managed_clauses) : interp :=
  with_program i (<[qn := Predicate (pd_id pd) m]> (i_program i)) (i_predicates i).
Definition is_empty (pd : predicate) : bool := mc_num_clauses (pd_clauses pd) =? 0.

(** [get_code(qn)] makes an entry that fails. *)
Definition get_code (i : interp) (qn : qname) : interp * code_point :=
  match i_code i !! qn with
  | Some p => (i, p)
  | None => (with_code i (<[qn := code_fail]> (i_code i)), code_fail)
  end.
Definition set_code (i : interp) (qn : qname) (p : code_point) : interp :=
  with_code i (<[qn := p]> (i_code i)).

(** [load_builtin] *)
Definition load_builtin (i : interp) (qn : qname) (address : Z) (is_recursive : bool) : interp :=
  set_code i qn (code_of_builtin (snd qn) address is_recursive).

(** [internal_updated_predicate_post], with a hook that does nothing *)
Definition updated_predicate (i : interp) (qn : qname) : interp :=
  with_updated i (i_updated i ∪ {[qn]}).

(** The end of [load_clause]: the clause [t] becomes the last or first of its predicate.
    [cost(t)] is the cost of the term. *)
Definition add_to_program (i : interp) (qn : qname) (t cost : Z) (pos : clause_position) : res interp :=
  let '(i, pd) := get_predicate i qn in
  m ← add_clause (i_heap i) (pd_clauses pd) (ManagedClause t cost) pos;
  Ok (updated_predicate (set_code (set_clauses i qn pd m) qn (code_of_qname qn)) qn).

Section interpreter.

Context (import_bits : list Z -> Z) (fuel : nat) (c : code) (bn_at : Z -> option interp_fn).

Let unify := base_unify import_bits fuel.

(** [p().bn()] *)
Definition bn_of (p : code_point) : res interp_fn :=
  o ← of_option (cp_code p) UndefinedBehaviour; of_option (bn_at o) UndefinedBehaviour.

(** ** Matching *)

(** The goal without its module. *)
Definition strip_module (h : heap) (goal : Z) : res Z :=
  f ← functor h goal; if f =? COLON then arg h goal 1 else Ok goal.

Fixpoint can_unify_each (n : nat) (w : wam) (head : Z) (k : nat) : res (wam * bool) :=
  match n with
  | O => Ok (w, true)
  | S n =>
      arg_k ← arg (w_heap w) head (Z.of_nat k);
      ak ← get_a w k;
      '(w, r) ← can_unify import_bits fuel w arg_k ak;
      if (r : bool) then can_unify_each n w head (S k) else Ok (w, false)
  end.
(** [can_unify_args(head, p)], where [t] is the term of [p]. *)
Definition can_unify_args (w : wam) (head t : Z) : res (wam * bool) :=
  if bool_decide (cell_tag t = STR) then
    goal ← strip_module (w_heap w) t; can_unify import_bits fuel w head goal
  else
    head ← (if head =? COLON then arg (w_heap w) head 1 else Ok head);
    is_f ← is_functor (w_heap w) head;
    if negb is_f then Ok (w, false)
    else
      f ← functor (w_heap w) head;
      if con_arity f =? 0 then Ok (w, true) else can_unify_each (w_num_args w) w head 0.

(** [get_first_arg(goal)] *)
Definition get_first_arg (w : wam) (goal : Z) : res (wam * Z) :=
  if bool_decide (cell_tag goal = CON) && (0 <? con_arity goal) then
    if (w_num_args w =? 0)%nat then Ok (w, no_term)
    else a0 ← get_a w 0; base_deref w a0
  else t ← first_arg_of (w_heap w) goal; Ok (w, t).

(** The clause at a position that is in the index and not erased. *)
Definition live_clause (m : managed_clauses) (ii : option nat) : res (option Z) :=
  match ii with
  | None => Ok None
  | Some i => mc ← get_clause m i; Ok (if is_erased mc then None else Some (mc_clause mc))
  end.

(** Whether a clause matches the pattern: its head, and its body unless [on_head]. *)
Definition clause_matches (w : wam) (head body : Z) (on_head : bool) (clause : Z) : res (wam * bool) :=
  hd ← clause_head (w_heap w) clause;
  bd ← clause_body (w_heap w) clause;
  '(w, r) ← can_unify_args w hd head;
  if negb r then Ok (w, false)
  else if on_head then Ok (w, true) else can_unify import_bits fuel w bd body.

(** The loop of [num_matched] and [get_matched] over the index: the positions and clauses
    that match. *)
Fixpoint matching (l : list (option nat)) (m : managed_clauses) (w : wam) (head body : Z) (on_head : bool)
    : res (wam * list (nat * Z)) :=
  match l with
  | [] => Ok (w, [])
  | ii :: l =>
      live ← live_clause m ii;
      '(w, r) ← match live with
                | None => Ok (w, false)
                | Some clause => clause_matches w head body on_head clause
                end;
      '(w, found) ← matching l m w head body on_head;
      Ok (w, match ii, live with
             | Some i, Some clause => if (r : bool) then (i, clause) :: found else found
             | _, _ => found
             end)
  end.

(** [get_indexed(pattern_head)] and the loop. *)
Definition matched (i : interp) (qn : qname) (pattern : Z) (on_head : bool) : res (interp * list (nat * Z)) :=
  let '(i, pd) := get_predicate i qn in
  head ← clause_head (i_heap i) pattern;
  body ← clause_body (i_heap i) pattern;
  '(w, first) ← get_first_arg (i_wam i) head;
  '(m, l) ← get_indexed_first_arg (w_heap w) (pd_clauses pd) first;
  '(w, found) ← matching l m w head body on_head;
  Ok (set_clauses (with_wam i w) qn pd m, found).
Definition num_matched (i : interp) (qn : qname) (pattern : Z) (on_head : bool) : res (interp * nat) :=
  '(i, found) ← matched i qn pattern on_head; Ok (i, length found).
Definition get_matched (i : interp) (qn : qname) (pattern : Z) (on_head : bool) : res (interp * list Z) :=
  '(i, found) ← matched i qn pattern on_head; Ok (i, found.*2).

(** ** Resolution *)

Fixpoint unify_each (n : nat) (w : wam) (head : Z) (k : nat) : res (wam * bool) :=
  match n with
  | O => Ok (w, true)
  | S n =>
      arg_k ← arg (w_heap w) head (Z.of_nat k);
      ak ← get_a w k;
      '(w, r) ← unify w arg_k ak;
      if (r : bool) then unify_each n w head (S k) else Ok (w, false)
  end.
Definition unify_args (w : wam) (head t : Z) : res (wam * bool) :=
  if bool_decide (cell_tag t = STR) then
    goal ← strip_module (w_heap w) t; unify w head goal
  else
    let start_trail := trail_size (w_env w) in
    let start_stack := stack_size (w_env w) in
    let old_hb := e_hb (w_env w) in
    let w := set_hb w (h_size (w_heap w)) in
    head ← (if head =? COLON then arg (w_heap w) head 1 else Ok head);
    '(w, ok) ← unify_each (w_num_args w) w head 0;
    w ← (if (ok : bool) then Ok w
         else
           e ← TermEnv.unwind_trail (w_env w) start_trail (trail_size (w_env w));
           Ok (set_env w (trim_stack (trim_trail e start_trail) start_stack)));
    let w := set_hb w old_hb in
    e ← TermEnv.tidy_trail (w_env w) start_trail (trail_size (w_env w));
    Ok (set_env w e, ok).

(** [copy_without_names] *)
Definition copy_clause (w : wam) (clause : Z) : res (wam * Z) :=
  '(e, t, cost) ← copy fuel (w_env w) clause;
  w ← add_accumulated_cost (set_env w e) cost;
  Ok (w, t).

Definition set_bp (w : wam) (bp : code_point) : res wam :=
  ch ← get_choice w (w_b w); Ok (update_frame w (w_b w) (FChoice (with_bp ch bp))).

(** [code_point(int_cell((predicate_id << 32) + (i + 1)))] *)
Definition resume_at (pred_id : Z) (i : nat) : code_point :=
  code_of_term (int_cell ((pred_id ≪ 32) + (Z.of_nat i + 1))).

(** The head of clause [i] of [n] matched: the choice point moves on, or goes with the
    last clause, and the body is next. *)
Definition enter_clause (w : wam) (pred_id : Z) (n i : nat) (head body : Z) : res wam :=
  w ← (if (1 <? n)%nat then
         if (i =? n - 1)%nat then w ← set_bp w code_fail; base_cut w
         else set_bp w (resume_at pred_id i)
       else Ok w);
  w ← allocate_naive w (num_y c w true);
  check_frozen c (set_qr (set_p (set_cp w (code_of_term EMPTY_LIST)) (code_of_term body)) head).

(** The loop of [select_clause]; [rest] are the choices from number [i] on. *)
Fixpoint select_loop (rest : list Z) (w : wam) (goal pred_id : Z) (n i : nat) : res (wam * bool) :=
  match rest with
  | [] => Ok (set_p w (code_of_term EMPTY_LIST), false)
  | clause :: rest =>
      head ← clause_head (w_heap w) clause;
      '(w, may) ← can_unify_args w head goal;
      if negb may then select_loop rest w goal pred_id n (S i)
      else
        let current_heap := h_size (w_heap w) in
        '(w, instance) ← copy_clause w clause;
        copy_head ← clause_head (w_heap w) instance;
        copy_body ← clause_body (w_heap w) instance;
        '(w, ok) ← unify_args w copy_head goal;
        if (ok : bool) then w ← enter_clause w pred_id n i copy_head copy_body; Ok (w, true)
        else w ← trim_heap_safe w current_heap; select_loop rest w goal pred_id n (S i)
  end.
Definition select_clause (w : wam) (instruction : code_point) (pred_id : Z) (choices : list Z) (from : nat)
    : res (wam * bool) :=
  if pred_id =? 0 then
    ch ← get_choice w (w_b w);
    let w := set_b w (ch_b ch) in
    if (1 <? from)%nat then Ok (w, false) else Ok (set_p w instruction, true)
  else select_loop (drop from choices) w (cp_term instruction) pred_id (length choices) from.

(** ** Failure *)

Definition b_is_wam (w : wam) : res bool :=
  if w_b w =? 0 then Ok false else ch ← get_choice w (w_b w); Ok (has_wam_code (ch_bp ch)).

(** What the continuation [bp] of the choice point that was reset does. *)
Definition redo (i : interp) (ch : choice_point) : res (interp * bool) :=
  let w := i_wam i in
  let bp := ch_bp ch in
  if is_fail bp then Ok (i, false)
  else if is_builtin bp then
    bn ← bn_of bp; args ← get_args w 0 (length (ch_args ch)); bn i (length (ch_args ch)) args
  else if negb (bool_decide (cell_tag (cp_term bp) = INT)) then
    '(w, ok) ← select_clause w bp 0 [] 0; Ok (with_wam i w, ok)
  else
    let bpval := int_value (cp_term bp) in
    if bpval =? 0 then Ok (i, false)
    else
      '(w, _) ← get_first_arg w (w_qr w);
      '(w, ok) ← select_clause w (code_of_term (w_qr w)) (bpval ≫ 32) (ch_choices ch)
                   (Z.to_nat (bpval &&& 0xffffffff));
      Ok (with_wam i w, ok).

(** The state of the choice point comes back and it continues; the result tells whether
    that succeeded. *)
Definition retry_choice (i : interp) (b : Z) : res (interp * bool) :=
  w ← reset_to_choice_point (i_wam i) b;
  ch ← get_choice w b;
  redo (with_wam i w) ch.
(** The choice point goes. *)
Definition pop_choice (i : interp) (b : Z) : res interp :=
  ch ← get_choice (i_wam i) b;
  let w := set_b (i_wam i) (ch_b ch) in
  w ← set_hb_of w (w_b w);
  Ok (with_wam i w).

(** One iteration of [fail]. *)
Definition fail_step (i : interp) : res (interp * bool) :=
  let w := i_wam i in
  if w_b w =? top_b (w_top w) then Ok (with_wam i (set_top_fail w true), true)
  else
    is_wam ← b_is_wam w;
    if (is_wam : bool) then '(w, ok) ← backtrack_wam w; Ok (with_wam i w, ok)
    else
      let b := w_b w in
      '(i, ok) ← retry_choice i b;
      if (ok : bool) then Ok (i, true) else i ← pop_choice i b; Ok (i, false).
Fixpoint fail (n : nat) (i : interp) : res interp :=
  match n with
  | O => Throw OutOfFuel
  | S n => '(i, ok) ← fail_step i; if (ok : bool) then Ok i else fail n i
  end.

(** ** Goals *)

Definition set_complete (w : wam) (v : bool) : wam :=
  Wam (w_env w) (w_p w) (w_cp w) (w_e w) (w_e_kind w) (w_b w) (w_b0 w) (w_a w) (w_num_args w) (w_x w)
    (w_s w) (w_mode w) (w_qr w) (w_pr w) (w_frames w) (w_words w) (w_closures w) (w_fail w)
    (w_top_fail w) v (w_cost w) (w_top w).

(** A goal that is the empty list returns. *)
Definition return_goal (w : wam) : res wam :=
  w ← deallocate_and_proceed w;
  if w_e w =? top_e (w_top w) then
    Ok (if negb (has_wam_code (w_p w)) && (cp_term (w_p w) =? EMPTY_LIST) then set_complete w true else w)
  else Ok w.

(** The module and the functor of the goal [qr]. *)
Definition called (i : interp) (qr f : Z) : res (Z * Z) :=
  if f =? COLON then
    m ← arg (i_heap i) qr 0; m ← functor (i_heap i) m;
    g ← arg (i_heap i) qr 1; f ← functor (i_heap i) g;
    Ok (m, f)
  else
    let m := cp_module (w_p (i_wam i)) in
    Ok (if negb (m =? EMPTY_LIST) then m else i_module i, f).

Fixpoint load_args (n : nat) (w : wam) (goal : Z) (k : nat) : res wam :=
  match n with
  | O => Ok w
  | S n => t ← arg (w_heap w) goal (Z.of_nat k); w ← set_a w k t; load_args n w goal (S k)
  end.
Fixpoint deref_registers (n : nat) (w : wam) (k : nat) : res wam :=
  match n with
  | O => Ok w
  | S n => t ← get_a w k; '(w, t) ← base_deref w t; w ← set_a w k t; deref_registers n w (S k)
  end.
(** The arguments of the goal go to the registers; after a call by the machine they are
    there. *)
Definition goal_args (w : wam) (arity : nat) : res wam :=
  let t := cp_term (w_p w) in
  match cell_tag t with
  | STR =>
      goal ← strip_module (w_heap w) t;
      w ← load_args arity w goal 0; Ok (set_num_of_args w arity)
  | CON => w ← deref_registers arity w 0; Ok (set_num_of_args w arity)
  | _ => Ok w
  end.

(** A choice point with room for [n] clauses: writing them past the end of the stack is
    undefined. *)
Definition allocate_clauses (w : wam) (pred_id : Z) (n : nat) : res wam :=
  w ← allocate_choices w (num_y c w true) (code_of_term (int_cell (pred_id ≪ 32))) (replicate n no_term);
  ch ← get_choice w (w_b w);
  _ ← require (w_b w + choice_size ch <=? STACK_BASE + MAX_STACK_SIZE_WORDS) UndefinedBehaviour;
  Ok w.
(** [pred.get_matched(qr(), true, b()->choices())] *)
Definition store_choices (w : wam) (choices : list Z) : res wam :=
  ch ← get_choice w (w_b w);
  _ ← require (bool_decide (length choices <= length (ch_choices ch))%nat) UndefinedBehaviour;
  let l := choices ++ drop (length choices) (ch_choices ch) in
  Ok (update_frame w (w_b w) (FChoice
    (ChoicePoint (ch_ce ch) (ch_ce_kind ch) (ch_cp ch) (ch_b ch) (ch_bp ch) (ch_tr ch) (ch_h ch) (ch_b0 ch)
      (ch_qr ch) (ch_pr ch) (ch_args ch) l))).

(** The choice point of a call with several matching clauses. *)
Definition open_choices (i : interp) (qn : qname) (pred_id : Z) (n : nat) (qr : Z) : res (interp * list Z) :=
  w ← allocate_clauses (i_wam i) pred_id n;
  '(i, l) ← get_matched (with_wam i w) qn qr true;
  w ← store_choices (i_wam i) l;
  ch ← get_choice w (w_b w);
  Ok (with_wam i w, ch_choices ch).

(** The clauses of a predicate are tried; the result tells whether one was entered. *)
Definition call_clauses (i : interp) (qn : qname) : res (interp * bool) :=
  let '(i, pd) := get_predicate i qn in
  _ ← require (negb (is_empty pd)) (UndefinedPredicate (fst qn) (snd qn));
  let w := i_wam i in
  let w := if negb (fst qn =? FREEZE_MODULE) then set_pr w qn else w in
  let w := set_b0 w (w_b w) in
  let qr := w_qr w in
  '(i, num_choices) ← num_matched (with_wam i w) qn qr true;
  if (num_choices =? 0)%nat then Ok (i, false)
  else
    '(i, choices) ←
      (if (1 <? num_choices)%nat then open_choices i qn (pd_id pd) num_choices qr
       else
         '(i, l) ← get_matched i qn qr true;
         _ ← require (bool_decide (length l <= 1)%nat) UndefinedBehaviour;
         Ok (i, match l with [] => [no_term] | _ => l end));
    '(w, ok) ← select_clause (i_wam i) (code_of_term qr) (pd_id pd) choices 0;
    Ok (with_wam i w, ok).

Definition dispatch_wam (w : wam) (o : Z) : res wam :=
  w ← allocate_wam w (num_y c w true);
  Ok (set_cp (set_p w (code_of_offset o)) (code_of_term EMPTY_LIST)).

(** The goal is no built-in by itself.  The result tells whether it succeeded, and whether
    frozen goals are looked at in the end. *)
Definition dispatch_code (i : interp) (module f : Z) : res (interp * bool * bool) :=
  let arity := Z.to_nat (con_arity f) in
  let '(i, p) := get_code i (module, f) in
  if is_builtin p then
    let w := set_p (i_wam i) (w_cp (i_wam i)) in
    let w := if is_builtin_recursive p then w else set_cp w (code_of_term EMPTY_LIST) in
    args ← get_args w 0 arity;
    bn ← bn_of p;
    '(i, r) ← bn (with_wam i w) arity args;
    Ok (i, r, true)
  else
    let module := if is_fail p then module else cp_module p in
    if has_wam_code p then
      o ← wam_offset p; w ← dispatch_wam (i_wam i) o; Ok (with_wam i w, true, false)
    else '(i, ok) ← call_clauses i (module, f); Ok (i, ok, false).

(** [dispatch()] up to the call of [fail()] *)
Definition dispatch_goal (i : interp) : res (interp * bool * bool) :=
  let w := set_qr (i_wam i) (cp_term (w_p (i_wam i))) in
  let i := with_wam i w in
  f ← functor (w_heap w) (w_qr w);
  if f =? EMPTY_LIST then w ← return_goal w; Ok (with_wam i w, true, false)
  else
    '(module, f) ← called i (w_qr w) f;
    let arity := Z.to_nat (con_arity f) in
    w ← goal_args w arity;
    let i := with_wam i w in
    if is_builtin (w_p w) then
      args ← get_args w 0 arity;
      bn ← bn_of (w_p w);
      '(i, r) ← bn i arity args;
      Ok (if (r : bool) then with_wam i (Machine.set_p (i_wam i) (w_cp (i_wam i))) else i, r, false)
    else dispatch_code i module f.

Definition dispatch (n : nat) (i : interp) : res interp :=
  '(i, ok, frozen) ← dispatch_goal i;
  i ← (if (ok : bool) then Ok i else fail n i);
  if (frozen : bool) then w ← check_frozen c (i_wam i); Ok (with_wam i w) else Ok i.

(** ** Queries *)

(** [cont]: machine code and goals until a query is complete. *)
Fixpoint cont_loop (n : nat) (i : interp) : res interp :=
  if w_complete (i_wam i) then Ok i
  else
    match n with
    | O => Throw OutOfFuel
    | S m =>
        i ← (if has_wam_code (w_p (i_wam i)) then
               '(w, ok) ← cont_wam import_bits fuel c n (i_wam i);
               if (ok : bool) then Ok (with_wam i w) else fail n (with_wam i w)
             else dispatch n i);
        cont_loop m i
    end.
Definition cont (n : nat) (i : interp) : res (interp * bool) :=
  i ← cont_loop n (with_wam i (set_complete (i_wam i) false));
  w ← set_hb_of (i_wam i) (w_b (i_wam i));
  w ← Wam.tidy_trail w;
  Ok (with_wam i w, negb (w_top_fail w)).

Definition clear_all_frozen_closures (w : wam) : res wam :=
  clear_frozen_closures w (map_to_list (w_closures w)).*1.

(** [execute(query)] where no answer of an earlier query is pending; [retain] is
    [is_retain_state_between_queries()].  The table of the query's variables is left out. *)
Definition execute (n : nat) (retain : bool) (i : interp) (query : Z) : res (interp * bool) :=
  let w := i_wam i in
  w ← (if h_size (w_heap w) =? 0
       then '(h, _) ← new_cell0 (w_heap w) (con_constant [115; 116; 97; 114; 116] 0) true; Ok (set_heap w h)
       else Ok w);
  w ← (if retain then Ok w else clear_all_frozen_closures w);
  let w := prepare_execution (clear_fail (set_cost w 0)) in
  let w := set_qr (set_cp w (code_of_term EMPTY_LIST)) query in
  '(i, b) ← cont n (with_wam i (set_p w (code_of_term query)));
  Ok (with_wam i (set_qr (i_wam i) query), b).

(** [next()]: the next answer. *)
Definition next (n : nat) (i : interp) : res (interp * bool) :=
  let old_qr := w_qr (i_wam i) in
  i ← fail n (with_wam i (set_cost (i_wam i) 0));
  i ← (if w_top_fail (i_wam i) then Ok i else '(i, _) ← cont n i; Ok i);
  Ok (with_wam i (set_qr (i_wam i) old_qr), negb (w_top_fail (i_wam i))).

End interpreter.
