(* ===== verification/InterpSafe.v ===== *)
(** * Resolution preserves what choice points protect

    The invariant of [WamSafe] for the interpreter over clauses: matching, copying and
    unifying clauses, calling and failing change the machine only in ways that going back
    to a choice point undoes. *)

From S2P Require Import Prelude Cells Heap HeapGrow Bigs TermEnv HeapSpec UnifyFrame TermCopy Machine Wam WamSafe.
From S2P Require Import WamUndo WamRun Builtins BuiltinsSafe BuiltinsKeep BuiltinsSpec TermCopyFrame Clauses Interpreter.

(** ** Steps that leave the stack alone *)

Record same_stack (w w' : wam) : Prop := SameStack {
  sk_b : w_b w' = w_b w;
  sk_frames : w_frames w' = w_frames w;
  sk_e : w_e w' = w_e w;
  sk_top : w_top w' = w_top w
}.
#[export] Instance same_stack_equiv : PreOrder same_stack.
Proof. split; [by split|]. intros w1 w2 w3 [? ? ? ?] [? ? ? ?]. split; congruence. Qed.

Lemma core_stack w w' : same_core w w' -> same_stack w w'.
Proof. intros [? ? ? ? ?]. by split. Qed.

Lemma clear_closure_stack w i w' : clear_frozen_closure w i = Ok w' -> same_stack w w'.
Proof. unfold clear_frozen_closure. intros (h & _ & H)%bind_Ok. by injection H as <-. Qed.
Lemma clear_closures_stack l w w' : clear_frozen_closures w l = Ok w' -> same_stack w w'.
Proof.
  revert w. induction l as [|i l IH]; intros w H; cbn [clear_frozen_closures] in H; [by injection H as <-|].
  apply bind_Ok in H as (w1 & H1%clear_closure_stack & H%IH). by etransitivity.
Qed.
Lemma unwind_closures_stack l w w' : unwind_frozen_closures w l = Ok w' -> same_stack w w'.
Proof.
  revert w. induction l as [|i l IH]; intros w H; cbn [unwind_frozen_closures] in H; [by injection H as <-|].
  apply bind_Ok in H as (x & _ & (w1 & H1 & H%IH)%bind_Ok). etransitivity; [|exact H].
  destruct x; [by eapply clear_closure_stack|by injection H1 as <-].
Qed.
Lemma unwind_stack w n w' : unwind w n = Ok w' -> same_stack w w'.
Proof. unfold unwind. intros (w1 & H1%unwind_closures_stack & (e & _ & H)%bind_Ok)%bind_Ok. injection H as <-. etransitivity; [exact H1|by split]. Qed.
Lemma trim_stack_same w n w' : trim_heap_safe w n = Ok w' -> same_stack w w'.
Proof. unfold trim_heap_safe. intros (w1 & H1%clear_closures_stack & (e & _ & H)%bind_Ok)%bind_Ok. injection H as <-. etransitivity; [exact H1|by split]. Qed.
Lemma base_unify_stack import_bits fuel w x y w' r : base_unify import_bits fuel w x y = Ok (w', r) -> same_stack w w'.
Proof.
  unfold base_unify. intros ([[e v] k] & _ & (w1 & H1%add_cost_same%core_stack & H)%bind_Ok)%bind_Ok. injection H as <- _.
  etransitivity; [|exact H1]. by split.
Qed.

Section safe.
Context (import_bits : list Z -> Z) (fuel : nat) (c : code) (SV : saved).

Abbreviation b := (sv_b SV).
Abbreviation ch := (sv_choice SV).
Abbreviation protected := (protected SV).
Abbreviation live := (live SV).
Abbreviation intact := (intact b ch).

(** What is protected stays so, and the heap does not grow. *)
Definition no_larger (w w' : wam) : Prop := h_size (w_heap w') <= h_size (w_heap w).
#[local] Instance no_larger_preorder : PreOrder no_larger.
Proof. split; [by intros w; unfold no_larger|]. intros w1 w2 w3. unfold no_larger. lia. Qed.

Record calm (w w' : wam) : Prop := Calm {
  cm_stack : same_stack w w';
  cm_keeps : protected w -> small w -> protected w' /\ no_larger w w'
}.
Lemma no_larger_small w w' : no_larger w w' -> small w -> small w'.
Proof. unfold no_larger, small. lia. Qed.
Lemma cm_safe w w' : calm w w' -> protected w -> small w -> protected w' /\ small w'.
Proof. intros [_ K] P S. destruct (K P S) as [? N]. split; [done|by eapply no_larger_small]. Qed.
#[local] Instance calm_preorder : PreOrder calm.
Proof.
  split; [by split|]. intros w1 w2 w3 C1 C2. split; [etransitivity; [apply C1|apply C2]|]. intros P S.
  destruct (cm_safe _ _ C1 P S) as [P2 S2]. destruct (cm_keeps _ _ C1 P S) as [_ N1].
  destruct (cm_keeps _ _ C2 P2 S2) as [P3 N2]. split; [done|by etransitivity].
Qed.

(** There is room for as many rounds of copying a clause as the fuel allows. *)
Definition roomy (w : wam) : Prop := h_size (w_heap w) + Z.of_nat fuel * COPY_ROOM <= STACK_BASE.
Lemma roomy_small w : roomy w -> small w.
Proof. unfold roomy, small, COPY_ROOM. lia. Qed.
Lemma no_larger_roomy w w' : no_larger w w' -> roomy w -> roomy w'.
Proof. unfold no_larger, roomy. lia. Qed.

Lemma core_no_larger w w' : same_core w w' -> no_larger w w'.
Proof. intros [Ce _ _ _ _]. unfold no_larger, w_heap. by rewrite Ce. Qed.
Lemma core_roomy w w' : same_core w w' -> roomy w -> roomy w'.
Proof. intros C. by apply no_larger_roomy, core_no_larger. Qed.
Lemma core_calm w w' : same_core w w' -> calm w w'.
Proof. intros C. split; [by apply core_stack|]. intros P S. split; [by eapply same_protected|by apply core_no_larger]. Qed.

Lemma stack_intact w w' : same_stack w w' -> intact w -> intact w'.
Proof. intros [Eb Ef _ _] [B F]. split; [by rewrite Eb|by rewrite Ef]. Qed.
Lemma stack_intact_back w w' : same_stack w w' -> intact w' -> intact w.
Proof. intros [Eb Ef _ _] [B F]. split; [by rewrite <-Eb|by rewrite <-Ef]. Qed.

Lemma calm_live w w' : calm w w' -> live w -> small w -> live w' /\ small w'.
Proof.
  intros C [P I] Sm. destruct (cm_safe _ _ C P Sm) as [P' S'].
  split; [split; [done|eapply stack_intact; [apply C|done]]|done].
Qed.
Lemma calm_roomy w w' : calm w w' -> live w -> roomy w -> live w' /\ roomy w'.
Proof.
  intros C L R. pose proof (roomy_small _ R) as S. split; [by apply (calm_live w w')|].
  eapply no_larger_roomy; [|exact R]. by apply C; [apply L|].
Qed.

Lemma protected_limit w : protected w -> heap_limiter (w_top w) <= h_size (w_heap w) /\ ch_h ch <= h_size (w_heap w) /\ ch_h ch <= e_hb (w_env w) /\
  (length (sv_entries SV) <= trail_size (w_env w))%nat.
Proof.
  intros [[_ S B (T & HT & _)] L _ _]. split_and!; [done|done|done|]. unfold trail_size. rewrite HT, length_app. lia.
Qed.

Lemma base_unify_size w x y w' r : base_unify import_bits fuel w x y = Ok (w', r) -> protected w -> small w ->
  h_size (w_heap w') = h_size (w_heap w).
Proof.
  intros H P S. unfold base_unify in H.
  apply bind_Ok in H as ([[e v] k] & Hu & (w1 & H1%add_cost_same & H)%bind_Ok). injection H as <- _.
  destruct (env_safe_unify import_bits fuel SV _ _ _ _ _ _ (pr_env _ _ P) (small_plain w (es_ok _ _ (pr_env _ _ P)) S) Hu) as [_ Hs].
  unfold w_heap. rewrite (sc_env _ _ H1). cbn. by rewrite Hs.
Qed.

Lemma base_unify_calm w x y w' r : base_unify import_bits fuel w x y = Ok (w', r) -> calm w w'.
Proof.
  intros H. split; [by eapply base_unify_stack|]. intros P S. split; [by eapply base_unify_protected|].
  unfold no_larger. by rewrite (base_unify_size _ _ _ _ _ H P S).
Qed.

Lemma unwind_calm w n w' : unwind w n = Ok w' -> (length (sv_entries SV) <= n <= trail_size (w_env w))%nat -> calm w w'.
Proof.
  intros H Hn. split; [by eapply unwind_stack|]. intros P S. split; [eapply base_unwind_protected; [exact P| | |exact H]; lia|].
  unfold unwind in H. apply bind_Ok in H as (w1 & H1 & (e & He & H)%bind_Ok). injection H as <-.
  destruct (unwind_closures_protected SV _ _ _ H1 P) as (_ & _ & Z1 & _).
  unfold TermEnv.unwind_trail in He. apply bind_Ok in He as (h & Hh & He). injection He as <-.
  destruct (unwind_loop_cells _ _ _ Hh) as (Hs & _). unfold no_larger, same_size, w_heap in *. cbn. lia.
Qed.

Lemma set_hb_calm w hb : ch_h ch <= hb -> calm w (set_hb w hb).
Proof. intros Hh. split; [by split|]. intros P S. split; [by apply set_hb_protected|by unfold no_larger]. Qed.

Lemma can_unify_calm w x y w' r : can_unify import_bits fuel w x y = Ok (w', r) -> calm w w'.
Proof.
  unfold can_unify. intros ([w1 ok] & H1 & (w2 & H2 & H)%bind_Ok)%bind_Ok. injection H as <- _.
  assert (same_stack w w2) as S2.
  { etransitivity; [|destruct ok; [by eapply unwind_stack|by injection H2 as <-]].
    etransitivity; [|by eapply base_unify_stack]. by split. }
  split; [etransitivity; [exact S2|by split]|]. intros P S.
  pose proof (protected_limit w P) as (_ & Hs & Hb & Ht).
  destruct (cm_safe _ _ (set_hb_calm w _ Hs) P S) as [P0 S0].
  destruct (cm_safe _ _ (base_unify_calm _ _ _ _ _ H1) P0 S0) as [P1 S1].
  destruct (cm_keeps _ _ (base_unify_calm _ _ _ _ _ H1) P0 S0) as [_ N1].
  assert (protected w2 /\ no_larger w1 w2) as [P2 N2].
  { destruct ok; [|injection H2 as <-; split; [done|reflexivity]]. refine (cm_keeps _ _ (unwind_calm _ _ _ H2 _) P1 S1).
    destruct (base_unify_trail import_bits fuel SV _ _ _ _ _ P0 S0 H1) as (T & HT). unfold trail_size in *. rewrite HT, length_app.
    cbn. lia. }
  pose proof (no_larger_small _ _ N2 S1) as Sm2. destruct (cm_keeps _ _ (set_hb_calm w2 _ Hb) P2 Sm2) as [P3 N3].
  split; [done|]. etransitivity; [|exact N3]. etransitivity; [|exact N2]. exact N1.
Qed.

(** ** Matching *)

Lemma can_unify_each_calm n w head k w' r : can_unify_each import_bits fuel n w head k = Ok (w', r) -> calm w w'.
Proof.
  revert w k. induction n as [|n IH]; intros w k H; cbn [can_unify_each] in H; [by injection H as <- _|].
  apply bind_Ok in H as (x & _ & (y & _ & ([w1 ok] & H1%can_unify_calm & H)%bind_Ok)%bind_Ok). etransitivity; [exact H1|].
  destruct ok; [by eapply IH|by injection H as <- _].
Qed.
Lemma can_unify_args_calm w head t w' r : can_unify_args import_bits fuel w head t = Ok (w', r) -> calm w w'.
Proof.
  unfold can_unify_args. destruct (bool_decide _).
  - intros (g & _ & H)%bind_Ok. by eapply can_unify_calm.
  - intros (hd & _ & (is_f & _ & H)%bind_Ok)%bind_Ok. destruct (negb is_f); [by injection H as <- _|].
    apply bind_Ok in H as (f & _ & H). destruct (_ =? _); [by injection H as <- _|by eapply can_unify_each_calm].
Qed.
Lemma get_first_arg_calm w t w' r : get_first_arg w t = Ok (w', r) -> calm w w'.
Proof.
  unfold get_first_arg. destruct (_ && _).
  - destruct (_ =? _)%nat; [by intros [= <- _]|]. intros (a & _ & H%base_deref_same)%bind_Ok. by apply core_calm.
  - intros (a & _ & H)%bind_Ok. by injection H as <- _.
Qed.
Lemma clause_matches_calm w hd bd on x w' r : clause_matches import_bits fuel w hd bd on x = Ok (w', r) -> calm w w'.
Proof.
  unfold clause_matches. intros (a & _ & (a' & _ & ([w1 ok] & H1%can_unify_args_calm & H)%bind_Ok)%bind_Ok)%bind_Ok.
  etransitivity; [exact H1|]. destruct ok; cbn [negb] in H; [|by injection H as <- _].
  destruct on; [by injection H as <- _|by eapply can_unify_calm].
Qed.
Lemma matching_calm l m w hd bd on w' r : matching import_bits fuel l m w hd bd on = Ok (w', r) -> calm w w'.
Proof.
  revert w w' r. induction l as [|ii l IH]; intros w w' r H; cbn [matching] in H; [by injection H as <- _|].
  apply bind_Ok in H as (lv & _ & ([w1 ok] & H1 & ([w2 found] & H2%IH & H)%bind_Ok)%bind_Ok). injection H as <- _.
  etransitivity; [|exact H2]. destruct lv; [by eapply clause_matches_calm|by injection H1 as <- _].
Qed.

Lemma get_predicate_wam i qn : i_wam (get_predicate i qn).1 = i_wam i.
Proof. unfold get_predicate. by destruct (i_program i !! qn). Qed.

Lemma matched_calm i qn p on i' l : matched import_bits fuel i qn p on = Ok (i', l) -> calm (i_wam i) (i_wam i').
Proof.
  unfold matched. pose proof (get_predicate_wam i qn) as E. destruct (get_predicate i qn) as [j pd]. cbn in E. subst.
  intros (hd & _ & (bd & _ & ([w1 first] & H1%get_first_arg_calm & ([m k] & _ & ([w2 found] & H2%matching_calm & H)%bind_Ok)%bind_Ok)%bind_Ok)%bind_Ok)%bind_Ok.
  injection H as <- _. cbn. rewrite <-E. by etransitivity.
Qed.
Lemma num_matched_calm i qn p on i' n : num_matched import_bits fuel i qn p on = Ok (i', n) -> calm (i_wam i) (i_wam i').
Proof. unfold num_matched. intros ([j l] & H1%matched_calm & H)%bind_Ok. by injection H as <- _. Qed.
Lemma get_matched_calm i qn p on i' n : get_matched import_bits fuel i qn p on = Ok (i', n) -> calm (i_wam i) (i_wam i').
Proof. unfold get_matched. intros ([j l] & H1%matched_calm & H)%bind_Ok. by injection H as <- _. Qed.

(** ** Clauses *)

(** Copying a clause makes the heap grow, within the room there is. *)
Lemma copy_clause_stack w x w' t : copy_clause fuel w x = Ok (w', t) -> same_stack w w'.
Proof.
  unfold copy_clause. intros ([[e v] k] & H1 & (w1 & H2%add_cost_same & H)%bind_Ok)%bind_Ok.
  injection H as <- _. etransitivity; [|by apply core_stack]. by split.
Qed.
Lemma copy_clause_safe w x w' t : copy_clause fuel w x = Ok (w', t) -> protected w -> roomy w ->
  protected w' /\ small w' /\ no_larger w' w.
Proof.
  unfold copy_clause. intros ([[e v] k] & H1 & (w1 & H2%add_cost_same & H)%bind_Ok)%bind_Ok P R.
  injection H as <- _. pose proof (pr_env _ _ P) as [[L D Te N] Sz B T].
  destruct (copy_term_frame _ _ _ _ _ _ _ _ L Te H1 R) as (E & Et & Eb & Em & Hu).
  destruct (env_safe_extend SV (w_env w) (e_heap e) (pr_env _ _ P) E) as [O Hs].
  assert (P1 : protected (set_env w e)).
  { apply protected_set_env; [done| |].
    - eapply env_safe_same; [|exact O]. split; cbn; congruence.
    - pose proof (pr_limit _ _ P). unfold w_heap in *. lia. }
  split; [by eapply same_protected|]. split; [eapply same_small; [exact H2|done]|].
  unfold no_larger, w_heap. rewrite (sc_env _ _ H2). cbn. apply (gr_size _ _ (ex_grows _ _ E)).
Qed.
Lemma copy_clause_live w x w' t : copy_clause fuel w x = Ok (w', t) -> live w -> roomy w ->
  live w' /\ small w' /\ no_larger w' w.
Proof.
  intros H [P I] R. destruct (copy_clause_safe _ _ _ _ H P R) as (P' & S' & N).
  split; [|done]. split; [done|]. eapply stack_intact; [by eapply copy_clause_stack|done].
Qed.

Lemma unify_each_calm n w head k w' r : unify_each import_bits fuel n w head k = Ok (w', r) -> calm w w'.
Proof.
  revert w k. induction n as [|n IH]; intros w k H; cbn [unify_each] in H; [by injection H as <- _|].
  apply bind_Ok in H as (x & _ & (y & _ & ([w1 ok] & H1%base_unify_calm & H)%bind_Ok)%bind_Ok). etransitivity; [exact H1|].
  destruct ok; [by eapply IH|by injection H as <- _].
Qed.

Lemma unify_each_size n w head k w' r : unify_each import_bits fuel n w head k = Ok (w', r) -> protected w -> small w ->
  h_size (w_heap w') = h_size (w_heap w).
Proof.
  revert w k. induction n as [|n IH]; intros w k H P S; cbn [unify_each] in H; [by injection H as <- _|].
  apply bind_Ok in H as (x & _ & (y & _ & ([w1 ok] & H1 & H)%bind_Ok)%bind_Ok).
  destruct (cm_safe _ _ (base_unify_calm _ _ _ _ _ H1) P S) as [P1 S1]. rewrite <-(base_unify_size _ _ _ _ _ H1 P S).
  destruct ok; [by eapply IH|by injection H as <- _].
Qed.

Lemma unify_args_size w head t w' r : unify_args import_bits fuel w head t = Ok (w', r) -> protected w -> small w ->
  h_size (w_heap w') = h_size (w_heap w).
Proof.
  unfold unify_args. destruct (bool_decide _).
  { intros (g & _ & H)%bind_Ok. by eapply base_unify_size. }
  intros (hd & _ & ([w1 ok] & H1 & (w2 & H2 & (e & H3 & H)%bind_Ok)%bind_Ok)%bind_Ok)%bind_Ok P S. injection H as <- _.
  set (w0 := set_hb w (h_size (w_heap w))) in *. pose proof (protected_limit w P) as (_ & Hs & _).
  destruct (cm_safe _ _ (set_hb_calm w _ Hs) P S) as [P0 S0]. apply unify_each_size in H1; [|done|done].
  unfold TermEnv.tidy_trail in H3. apply bind_Ok in H3 as (l & _ & He). injection He as <-. cbn.
  unfold w_heap in *. cbn in *. rewrite <-H1. destruct ok; [by injection H2 as <-|].
  apply bind_Ok in H2 as (e & H2 & E). injection E as <-. unfold TermEnv.unwind_trail in H2.
  apply bind_Ok in H2 as (h & Hh & H2). injection H2 as <-. cbn. by destruct (unwind_loop_cells _ _ _ Hh) as (? & _).
Qed.

Lemma trim_calm w n w' : trim_heap_safe w n = Ok w' -> ch_h ch <= n <= h_size (w_heap w) -> calm w w'.
Proof.
  intros H Hn. split; [by eapply trim_stack_same|]. intros P S.
  destruct (trim_protected SV w n w' P ltac:(lia) H) as (P' & R & _ & Hs). split; [done|].
  pose proof (pr_limit _ _ P). unfold no_larger, w_heap in *. destruct Hs as [Hs|[Hz Hs]]; lia.
Qed.

Lemma unify_each_trail n w head k w' r : unify_each import_bits fuel n w head k = Ok (w', r) -> protected w -> small w ->
  exists T, e_trail (w_env w') = e_trail (w_env w) ++ T.
Proof.
  revert w k. induction n as [|n IH]; intros w k H P S; cbn [unify_each] in H.
  { injection H as <- _. exists []. by rewrite app_nil_r. }
  apply bind_Ok in H as (x & _ & (y & _ & ([w1 ok] & H1 & H)%bind_Ok)%bind_Ok).
  destruct (base_unify_trail import_bits fuel SV _ _ _ _ _ P S H1) as [T HT].
  destruct (cm_safe _ _ (base_unify_calm _ _ _ _ _ H1) P S) as [P1 S1].
  destruct ok; [|injection H as <- _; by exists T]. destruct (IH _ _ H P1 S1) as [T' HT']. exists (T ++ T').
  by rewrite HT', HT, app_assoc.
Qed.

(** Undoing the bindings of arguments that do not unify. *)
Lemma undo_bindings w n k e :
  protected w -> small w -> (length (sv_entries SV) <= n <= trail_size (w_env w))%nat ->
  TermEnv.unwind_trail (w_env w) n (trail_size (w_env w)) = Ok e ->
  protected (set_env w (trim_stack (trim_trail e n) k)) /\ no_larger w (set_env w (trim_stack (trim_trail e n) k)) /\
  e_trail (trim_stack (trim_trail e n) k) = take n (e_trail (w_env w)).
Proof.
  intros P S Hn H. unfold TermEnv.unwind_trail in H. apply bind_Ok in H as (h & Hh & H). injection H as <-.
  rewrite take_ge in Hh by (rewrite length_drop; unfold trail_size; lia).
  destruct (unwind_loop_cells _ _ _ Hh) as (Hs & Hb & Hc).
  destruct (env_safe_reset SV (w_env w) n h (pr_env _ _ P)) as [E Et]; [lia|lia|done|done|..].
  - intros i Hi _. by rewrite Hc, decide_True.
  - intros i Hi. by rewrite Hc, decide_False.
  - split_and!; [|unfold no_larger, w_heap in *; cbn; lia|done].
    apply protected_set_env; [done|eapply env_safe_same; [apply same_env_stack|exact E]|].
    cbn. rewrite Hs. apply P.
Qed.

Lemma unify_args_calm w head t w' r : unify_args import_bits fuel w head t = Ok (w', r) -> calm w w'.
Proof.
  unfold unify_args. destruct (bool_decide _).
  { intros (g & _ & H)%bind_Ok. by eapply base_unify_calm. }
  intros (hd & _ & ([w1 ok] & H1 & (w2 & H2 & (e & H3 & H)%bind_Ok)%bind_Ok)%bind_Ok)%bind_Ok. injection H as <- _.
  set (n := trail_size (w_env w)) in *. set (w0 := set_hb w (h_size (w_heap w))) in *.
  pose proof (unify_each_calm _ _ _ _ _ _ H1) as C1. unfold TermEnv.tidy_trail in H3. apply bind_Ok in H3 as (l & H3 & He).
  injection He as <-. assert (same_stack w1 w2) as K2.
  { destruct ok; [by injection H2 as <-|]. apply bind_Ok in H2 as (e & _ & H2). by injection H2 as <-. }
  split; [transitivity w2; [transitivity w1; [transitivity w0; [by split|apply C1]|exact K2]|by split]|].
  intros P S. pose proof (protected_limit w P) as (_ & Hs & Hb & Ht).
  destruct (cm_safe _ _ (set_hb_calm w _ Hs) P S) as [P0 S0]. destruct (cm_safe _ _ C1 P0 S0) as [P1 S1].
  destruct (cm_keeps _ _ C1 P0 S0) as [_ N1].
  destruct (unify_each_trail _ _ _ _ _ _ H1 P0 S0) as [T HT]. change (e_trail (w_env w0)) with (e_trail (w_env w)) in HT.
  assert (Hn : (length (sv_entries SV) <= n <= trail_size (w_env w1))%nat).
  { unfold trail_size in *. rewrite HT, length_app. lia. }
  assert (protected w2 /\ no_larger w1 w2) as [P2 N2].
  { destruct ok; [injection H2 as <-; split; [done|reflexivity]|]. apply bind_Ok in H2 as (e & H2 & E). injection E as <-.
    by destruct (undo_bindings w1 n (stack_size (w_env w)) e P1 S1 Hn H2) as (? & ? & _). }
  destruct (cm_safe _ _ (set_hb_calm w2 _ Hb) P2 (no_larger_small _ _ N2 S1)) as [P3 _].
  split; [|etransitivity; [exact N1|exact N2]].
  apply (tidied_from SV (set_hb w2 (e_hb (w_env w))) (fun x => x <? e_hb (w_env w)) n l P3); [|apply Hn|exact H3].
  intros x Hx. by apply Z.ltb_lt.
Qed.

(** ** The choice of a clause *)

#[local] Existing Instance only_frames_preorder.

Lemma set_b_protected w a : protected w -> protected (set_b w a).
Proof. intros []. by split. Qed.

(** Writing to the current choice point. *)
Lemma update_choice_safe w d d' :
  protected w -> get_choice w (w_b w) = Ok d -> ch_ce d' = ch_ce d -> ch_b d' = ch_b d -> ch_h d' = ch_h d -> ch_tr d' = ch_tr d ->
  protected (update_frame w (w_b w) (FChoice d')).
Proof.
  intros [E L A F] Hd E1 E2 E3 E4. unfold get_choice in Hd.
  destruct (w_frames w !! w_b w) as [[f|d0]|] eqn:Hf; try done. injection Hd as ->. split; cbn; try done.
  intros a g. rewrite lookup_insert. destruct (decide (w_b w = a)) as [<-|]; [|apply F].
  intros [= <-]. destruct (F _ _ Hf) as (F1 & F2 & F3). cbn in *. rewrite E1, E2. split_and!; [done..|].
  intros Hlt. split; [by apply F3|]. intros d2 [= <-]. rewrite E3, E4. exact (proj2 (F3 Hlt) d eq_refl).
Qed.
Lemma update_choice_live w d d' :
  live w -> get_choice w (w_b w) = Ok d -> ch_ce d' = ch_ce d -> ch_b d' = ch_b d -> ch_h d' = ch_h d -> ch_tr d' = ch_tr d ->
  (w_b w = b -> exists bp, d' = with_bp ch bp) -> live (update_frame w (w_b w) (FChoice d')).
Proof.
  intros [P [B [bp I]]] Hd E1 E2 E3 E4 Hb. split; [by eapply update_choice_safe|]. split; cbn; [done|].
  rewrite lookup_insert. destruct (decide (w_b w = b)) as [Eb|Hne]; [|by exists bp].
  destruct (Hb Eb) as [bp' ->]. by exists bp'.
Qed.

Lemma current_is_ch w d : live w -> w_b w = b -> get_choice w (w_b w) = Ok d -> exists bp, d = with_bp ch bp.
Proof.
  intros [_ [_ [bp I]]] Eb Hd. rewrite Eb in Hd. unfold get_choice in Hd. rewrite I in Hd. injection Hd as <-. by exists bp.
Qed.

Lemma set_bp_live w p w' : set_bp w p = Ok w' -> live w -> live w'.
Proof.
  unfold set_bp. intros (d & Hd & H)%bind_Ok L. injection H as <-. eapply update_choice_live; try done.
  intros Eb. destruct (current_is_ch w d L Eb Hd) as [bp ->]. by exists p.
Qed.

Lemma store_choices_live w l w' : store_choices w l = Ok w' -> live w -> b < w_b w -> live w'.
Proof.
  unfold store_choices. intros (d & Hd & (u & _ & H)%bind_Ok)%bind_Ok L Hb. injection H as <-.
  eapply update_choice_live; try done. lia.
Qed.

Lemma cut_direct_heap w w' : cut_direct w = Ok w' -> w_heap w' = w_heap w.
Proof.
  unfold cut_direct, set_hb_of, base_tidy_trail. intros (w1 & H1 & (i & _ & (e & He & H)%bind_Ok)%bind_Ok)%bind_Ok.
  injection H as <-. unfold TermEnv.tidy_trail in He. apply bind_Ok in He as (l & _ & He). injection He as <-.
  destruct (_ =? 0); [by injection H1 as <-|]. apply bind_Ok in H1 as (d & _ & H1). by injection H1 as <-.
Qed.

Lemma base_cut_live w w' : base_cut w = Ok w' -> live w -> intact w' -> live w' /\ w_heap w' = w_heap w.
Proof.
  unfold base_cut. destruct (_ <? _); [|by intros [= <-]]. intros H L I. destruct (cut_direct_regs _ _ H) as [Eb _].
  split; [|by apply cut_direct_heap]. split; [|done]. apply (cut_direct_protected SV _ _ H L). rewrite <-Eb. apply I.
Qed.

Lemma enter_clause_keeps w id n i hd bd w' :
  enter_clause c w id n i hd bd = Ok w' -> live w -> small w -> intact w' -> protected w'.
Proof.
  unfold enter_clause. intros (w1 & H1 & (w2 & H2 & H)%bind_Ok)%bind_Ok L S I.
  pose proof (allocate_naive_only _ _ _ H2) as O2. pose proof (check_frozen_only _ _ _ H) as O3.
  assert (I1 : intact w1).
  { apply (only_frames_intact SV _ _ O2). eapply (only_frames_intact SV w2); [|exact I]. etransitivity; [|exact O3]. by apply frames_only. }
  assert (live w1 /\ small w1) as [L1 S1].
  { destruct (1 <? n)%nat; [|by injection H1 as <-]. destruct (i =? n - 1)%nat.
    - apply bind_Ok in H1 as (w3 & H3 & H1). pose proof (set_bp_live _ _ _ H3 L) as L3.
      destruct (base_cut_live _ _ H1 L3 I1) as [L1 Eh]. split; [done|]. unfold small in *. rewrite Eh.
      unfold set_bp in H3. apply bind_Ok in H3 as (d & _ & H3). by injection H3 as <-.
    - split; [by eapply set_bp_live|]. unfold set_bp in H1. apply bind_Ok in H1 as (d & _ & H1). by injection H1 as <-. }
  pose proof (allocate_naive_live SV _ _ _ (num_y_nonneg c w1 true) H2 L1) as L2.
  eapply lv_protected, (check_frozen_live c SV _ w' H).
  - eapply same_live; [|exact L2]. by split.
  - unfold small, w_heap in *. cbn. pose proof (of_size _ _ O2) as Z. unfold same_size, w_heap in Z. by rewrite Z.
Qed.

Lemma select_loop_keeps rest w goal id n i w' ok :
  select_loop import_bits fuel c rest w goal id n i = Ok (w', ok) -> live w -> roomy w -> intact w' -> protected w'.
Proof.
  revert w i. induction rest as [|x rest IH]; intros w i H L R I; cbn [select_loop] in H.
  { injection H as <- _. eapply same_protected; [|apply L]. by split. }
  apply bind_Ok in H as (hd & _ & ([w1 may] & H1%can_unify_args_calm & H)%bind_Ok).
  destruct (calm_roomy _ _ H1 L R) as [L1 R1]. destruct may; cbn [negb] in H; [|by eapply IH].
  apply bind_Ok in H as ([w2 t] & H2 & (hd2 & _ & (bd2 & _ & ([w3 ok3] & H3 & H)%bind_Ok)%bind_Ok)%bind_Ok).
  destruct (copy_clause_live _ _ _ _ H2 L1 R1) as (L2 & S2 & N2). pose proof (unify_args_size _ _ _ _ _ H3 (lv_protected _ _ L2) S2) as Es.
  apply unify_args_calm in H3. destruct (calm_live _ _ H3 L2 S2) as [L3 S3]. destruct ok3.
  - apply bind_Ok in H as (w4 & H4 & H). injection H as <- _. by eapply enter_clause_keeps.
  - apply bind_Ok in H as (w4 & H4 & H). pose proof (protected_limit w1 (lv_protected _ _ L1)) as (Hl & Hs & _).
    assert (C4 : calm w3 w4) by (eapply trim_calm; [exact H4|]; unfold no_larger, w_heap in *; lia).
    destruct (calm_live w3 w4 C4 L3 S3) as [L4 S4]. eapply IH; [exact H|done| |done].
    destruct (trim_protected SV w3 (h_size (w_heap w1)) w4 (lv_protected _ _ L3) Hs H4) as (_ & _ & _ & Hs4).
    eapply no_larger_roomy; [|exact R1]. unfold no_larger.
    assert (heap_limiter (w_top w3) = heap_limiter (w_top w1)) as Et
      by (rewrite (sk_top _ _ (cm_stack _ _ H3)), (sk_top _ _ (copy_clause_stack _ _ _ _ H2)); done).
    pose proof (sv_height SV). unfold w_heap in *. destruct Hs4 as [Hs4|[Hz Hs4]]; lia.
Qed.

Lemma select_clause_keeps w p id l from w' ok :
  select_clause import_bits fuel c w p id l from = Ok (w', ok) -> live w -> roomy w -> intact w' -> protected w'.
Proof.
  unfold select_clause. destruct (_ =? 0); [|by apply select_loop_keeps].
  intros (d & _ & H)%bind_Ok L S I. destruct (_ <? _)%nat; injection H as <- _; [by apply set_b_protected, L|].
  eapply same_protected; [|apply set_b_protected, L]. by split.
Qed.

(** ** Goals *)

Lemma return_goal_keeps w w' : return_goal w = Ok w' -> live w -> protected w'.
Proof.
  unfold return_goal. intros (w1 & H1 & H)%bind_Ok L.
  assert (protected w1) as P1.
  { unfold deallocate_and_proceed in H1. destruct (_ =? _).
    - injection H1 as <-. eapply same_protected; [|apply L]. by split.
    - apply bind_Ok in H1 as (w2 & H2 & H1). destruct (deallocate_env_live SV _ _ H2 L) as [L2 _].
      eapply same_protected; [|apply L2]. destruct (bool_decide _); injection H1 as <-; by split. }
  eapply same_protected; [|exact P1]. destruct (_ =? _); [|by injection H as <-]. destruct (_ && _); injection H as <-; by split.
Qed.

Lemma load_args_same n w g k w' : load_args n w g k = Ok w' -> same_core w w'.
Proof.
  revert w k. induction n as [|n IH]; intros w k H; cbn [load_args] in H; [by injection H as <-|].
  apply bind_Ok in H as (t & _ & (w1 & H1%set_a_same & H%IH)%bind_Ok). by etransitivity.
Qed.
Lemma deref_registers_same n w k w' : deref_registers n w k = Ok w' -> same_core w w'.
Proof.
  revert w k. induction n as [|n IH]; intros w k H; cbn [deref_registers] in H; [by injection H as <-|].
  apply bind_Ok in H as (t & _ & ([w1 u] & H1%base_deref_same & (w2 & H2%set_a_same & H%IH)%bind_Ok)%bind_Ok).
  etransitivity; [exact H1|]. by etransitivity.
Qed.
Lemma goal_args_same w n w' : goal_args w n = Ok w' -> same_core w w'.
Proof.
  unfold goal_args. destruct (cell_tag _); try (intros H; injection H as <-; reflexivity).
  - intros (w1 & H1%deref_registers_same & H)%bind_Ok. injection H as <-. etransitivity; [exact H1|by split].
  - intros (g & _ & (w1 & H1%load_args_same & H)%bind_Ok)%bind_Ok. injection H as <-. etransitivity; [exact H1|by split].
Qed.

Lemma allocate_clauses_live w id n w' : allocate_clauses c w id n = Ok w' -> live w -> live w' /\ b < w_b w' /\ w_heap w' = w_heap w.
Proof.
  unfold allocate_clauses. intros (w1 & H1 & (d & _ & (u & _ & H)%bind_Ok)%bind_Ok)%bind_Ok L. injection H as <-.
  destruct (allocate_choices_live SV w _ _ _ w1 (num_y_nonneg c w true) H1 L) as [L1 Hb]. split_and!; [done|done|].
  unfold allocate_choices in H1. apply bind_Ok in H1 as (a & _ & (args & _ & H1)%bind_Ok). by injection H1 as <-.
Qed.

Lemma open_choices_live i qn id n qr i' l : open_choices import_bits fuel c i qn id n qr = Ok (i', l) ->
  live (i_wam i) -> roomy (i_wam i) -> live (i_wam i') /\ roomy (i_wam i').
Proof.
  unfold open_choices. intros (w & H1 & ([j k] & H2%get_matched_calm & (w2 & H3 & (d & _ & H)%bind_Ok)%bind_Ok)%bind_Ok)%bind_Ok L S.
  injection H as <- _. destruct (allocate_clauses_live _ _ _ _ H1 L) as (L1 & Hb & Eh).
  assert (roomy w) as S1 by (unfold roomy; by rewrite Eh). destruct (calm_roomy _ _ H2 L1 S1) as [L2 S2].
  split; [|unfold store_choices in H3; apply bind_Ok in H3 as (x & _ & (y & _ & H3)%bind_Ok); by injection H3 as <-].
  eapply (store_choices_live (i_wam j)); [exact H3|exact L2|]. by rewrite (sk_b _ _ (cm_stack _ _ H2)).
Qed.

Lemma call_clauses_keeps i qn i' ok : call_clauses import_bits fuel c i qn = Ok (i', ok) ->
  live (i_wam i) -> roomy (i_wam i) -> intact (i_wam i') -> protected (i_wam i').
Proof.
  unfold call_clauses. pose proof (get_predicate_wam i qn) as E. destruct (get_predicate i qn) as [j pd]. cbn in E. subst.
  intros (u & _ & H)%bind_Ok L S I. set (w0 := set_b0 _ _) in H.
  assert (same_core (i_wam i) w0) as C0 by (unfold w0; rewrite <-E; destruct (negb _); by split).
  apply bind_Ok in H as ([i1 n] & H1%num_matched_calm & H).
  destruct (calm_roomy _ _ H1 (same_live SV _ _ C0 L) (core_roomy _ _ C0 S)) as [L1 S1].
  destruct (n =? 0)%nat; [injection H as <- _; apply L1|].
  apply bind_Ok in H as ([i2 l] & H2 & ([w ok'] & H3 & H)%bind_Ok). injection H as <- _.
  assert (live (i_wam i2) /\ roomy (i_wam i2)) as [L2 S2].
  { destruct (1 <? n)%nat; [by eapply open_choices_live|].
    apply bind_Ok in H2 as ([i3 k] & H2%get_matched_calm & (v & _ & H4)%bind_Ok). injection H4 as <- _. by eapply calm_roomy. }
  by eapply select_clause_keeps.
Qed.

(** A built-in that may change the program, as [builtin_keeps]. *)
Definition fn_keeps (fn : interp_fn) : Prop :=
  forall i n args i' r, live (i_wam i) -> small (i_wam i) -> fn i n args = Ok (i', r) ->
    small (i_wam i') -> intact (i_wam i') -> protected (i_wam i').

Lemma lift_keeps bn : builtin_keeps SV bn -> fn_keeps (lift_fn bn).
Proof.
  intros K i n args i' r L S H S' I. unfold lift_fn in H. apply bind_Ok in H as ([w q] & H1 & H). injection H as <- <-.
  by eapply K.
Qed.

Context (bn_at : Z -> option interp_fn).
Hypothesis builtins_keep : forall o fn, bn_at o = Some fn -> fn_keeps fn.

Lemma bn_of_keeps p fn : bn_of bn_at p = Ok fn -> fn_keeps fn.
Proof. unfold bn_of. intros (o & _ & H%of_option_Ok)%bind_Ok. by eapply builtins_keep. Qed.

Lemma dispatch_code_keeps i m f i' ok fz : dispatch_code import_bits fuel c bn_at i m f = Ok (i', ok, fz) ->
  live (i_wam i) -> roomy (i_wam i) -> small (i_wam i') -> intact (i_wam i') -> protected (i_wam i').
Proof.
  unfold dispatch_code. assert (i_wam (get_code i (m, f)).1 = i_wam i) as E by (unfold get_code; by destruct (i_code i !! _)).
  destruct (get_code i (m, f)) as [j p]. cbn in E. rewrite <-E. destruct (is_builtin p); intros H L S S' I.
  - apply bind_Ok in H as (args & _ & (fn & Hf%bn_of_keeps & ([i1 r] & H1 & H)%bind_Ok)%bind_Ok). injection H as <- _ _.
    set (w0 := if is_builtin_recursive p then _ else _) in H1.
    assert (same_core (i_wam j) w0) as C0 by (unfold w0; destruct (is_builtin_recursive p); by split).
    eapply Hf; [| |exact H1|exact S'|exact I]; [by eapply same_live|eapply same_small; [exact C0|by apply roomy_small]].
  - destruct (has_wam_code p).
    + apply bind_Ok in H as (o & _ & (w & H1 & H)%bind_Ok). injection H as <- _ _. unfold dispatch_wam in H1.
      apply bind_Ok in H1 as (w1 & H2 & H1). injection H1 as <-.
      pose proof (allocate_wam_live SV _ _ _ (num_y_nonneg c _ true) H2 L) as [P1 _]. eapply same_protected; [|exact P1]. by split.
    + apply bind_Ok in H as ([i1 r] & H1 & H). injection H as <- _ _. by eapply call_clauses_keeps.
Qed.

Lemma dispatch_goal_keeps i i' ok fz : dispatch_goal import_bits fuel c bn_at i = Ok (i', ok, fz) ->
  live (i_wam i) -> roomy (i_wam i) -> small (i_wam i') -> intact (i_wam i') -> protected (i_wam i').
Proof.
  unfold dispatch_goal. set (w := set_qr _ _). assert (same_core (i_wam i) w) as C0 by by split.
  intros (f & _ & H)%bind_Ok L S S' I. destruct (_ =? EMPTY_LIST).
  { apply bind_Ok in H as (w1 & H1 & H). injection H as <- _ _. eapply return_goal_keeps; [exact H1|by eapply same_live]. }
  apply bind_Ok in H as ([m g] & _ & (w1 & H1%goal_args_same & H)%bind_Ok).
  assert (same_core (i_wam i) w1) as C1 by by etransitivity.
  pose proof (same_live SV _ _ C1 L) as L1. pose proof (core_roomy _ _ C1 S) as S1.
  destruct (is_builtin (w_p w1)); [|by eapply dispatch_code_keeps].
  apply bind_Ok in H as (args & _ & (fn & Hf%bn_of_keeps & ([i1 r] & H2 & H)%bind_Ok)%bind_Ok). injection H as <- _ _.
  assert (same_core (i_wam (if r then with_wam i1 (set_p (i_wam i1) (w_cp (i_wam i1))) else i1)) (i_wam i1)) as C2.
  { destruct r; by split. }
  eapply same_protected; [|eapply (Hf (with_wam (with_wam i w) w1)); [exact L1|by apply roomy_small|exact H2|by eapply same_small|by eapply same_intact]].
  destruct r; by split.
Qed.

(** ** Failure *)

Lemma unwind_height w n w' : unwind w n = Ok w' -> h_size (w_heap w') = h_size (w_heap w).
Proof.
  unfold unwind. intros (w1 & H1 & (e & He & H)%bind_Ok)%bind_Ok. injection H as <-.
  destruct (unwind_closures_cells _ _ _ H1) as (h & E & [Es _] & _). unfold TermEnv.unwind_trail in He.
  apply bind_Ok in He as (h2 & Hh & He). injection He as <-. destruct (unwind_loop_cells _ _ _ Hh) as (Hs & _).
  unfold w_heap in *. cbn. rewrite Hs, E. cbn. exact Es.
Qed.

Lemma reset_keeps w d w' : reset_to_choice_point w (w_b w) = Ok w' -> get_choice w (w_b w) = Ok d ->
  live w -> small w -> (ch_tr d <= trail_size (w_env w))%nat -> ch_h d <= h_size (w_heap w) ->
  live w' /\ no_larger w w' /\ w_frames w' = w_frames w /\ w_b w' = w_b w.
Proof.
  unfold reset_to_choice_point. intros (d' & Hd & H)%bind_Ok Hd2 L S Ht Hz. rewrite Hd in Hd2. injection Hd2 as ->.
  apply bind_Ok in H as (w1 & H1 & (w2 & H2 & (w3 & H3%set_args_same & H)%bind_Ok)%bind_Ok). injection H as <-.
  destruct (choice_heights SV w (w_b w) d (lv_protected _ _ L) (lv_intact _ _ L)) as (Hh & Htr & Ha); [apply L|done|].
  set (w0 := set_cp (set_e w (ch_ce d) (ch_ce_kind d)) (ch_cp d)) in *.
  assert (live w0) as L0 by (apply (same_live SV (set_e w (ch_ce d) (ch_ce_kind d))); [by split|by apply set_e_live]).
  assert (S0 : small w0) by exact S. rewrite (sv_tr SV) in Htr.
  pose proof (unwind_calm _ _ _ H1 (conj Htr Ht)) as C1. destruct (calm_live _ _ C1 L0 S0) as [L1 S1].
  assert (Hd1 : ch_h d <= h_size (w_heap w1)) by (rewrite (unwind_height _ _ _ H1); exact Hz).
  pose proof (trim_calm _ _ _ H2 (conj Hh Hd1)) as C2. destruct (calm_live _ _ C2 L1 S1) as [L2 S2].
  set (w4 := set_num_of_args _ _) in H3.
  assert (calm w2 w4) as C4.
  { transitivity (set_hb (set_b0 w2 (ch_b0 d)) (h_size (w_heap w2))); [|apply core_calm; by split].
    transitivity (set_b0 w2 (ch_b0 d)); [apply core_calm; by split|].
    apply set_hb_calm. by apply protected_limit, L2. }
  destruct (calm_live _ _ C4 L2 S2) as [L4 S4]. pose proof (same_live SV _ _ H3 L4) as L3.
  assert (no_larger w w3) as S3.
  { transitivity w0; [by unfold no_larger|]. etransitivity; [by apply C1; [apply L0|]|].
    etransitivity; [by apply C2; [apply L1|]|]. etransitivity; [by apply C4; [apply L2|]|]. by apply core_no_larger. }
  assert (same_stack w0 w3) as K.
  { etransitivity; [apply C1|]. etransitivity; [apply C2|]. etransitivity; [apply C4|]. by apply core_stack. }
  destruct K as [Kb Kf _ _]. cbn in Kb, Kf. split_and!; [|exact S3|exact Kf|done].
  split; [apply set_b_protected, L3|]. destruct (lv_intact _ _ L) as [B F]. split; cbn; [done|]. by rewrite Kf.
Qed.

Lemma redo_keeps i d i' ok : redo import_bits fuel c bn_at i d = Ok (i', ok) ->
  live (i_wam i) -> roomy (i_wam i) -> small (i_wam i') -> intact (i_wam i') -> protected (i_wam i').
Proof.
  unfold redo. intros H L S S' I. destruct (is_fail _); [injection H as <- _; apply L|].
  destruct (is_builtin _).
  { apply bind_Ok in H as (fn & Hf%bn_of_keeps & (args & _ & H)%bind_Ok). eapply Hf; [exact L|by apply roomy_small|exact H|done|done]. }
  destruct (negb _).
  { apply bind_Ok in H as ([w r] & H1 & H). injection H as <- _. by eapply select_clause_keeps. }
  destruct (_ =? 0); [injection H as <- _; apply L|].
  apply bind_Ok in H as ([w r] & H1%get_first_arg_calm & ([w2 r2] & H2 & H)%bind_Ok). injection H as <- _.
  destruct (calm_roomy _ _ H1 L S) as [L1 S1]. by eapply select_clause_keeps.
Qed.

Lemma retry_choice_keeps i d i' ok : retry_choice import_bits fuel c bn_at i (w_b (i_wam i)) = Ok (i', ok) ->
  get_choice (i_wam i) (w_b (i_wam i)) = Ok d -> (ch_tr d <= trail_size (w_env (i_wam i)))%nat -> ch_h d <= h_size (w_heap (i_wam i)) ->
  live (i_wam i) -> roomy (i_wam i) -> small (i_wam i') -> intact (i_wam i') -> protected (i_wam i').
Proof.
  unfold retry_choice. intros (w & H1 & (e & _ & H)%bind_Ok)%bind_Ok Hd Ht Hz L S S' I.
  destruct (reset_keeps _ _ _ H1 Hd L (roomy_small _ S) Ht Hz) as (L1 & S1 & _).
  eapply redo_keeps; [exact H|exact L1|by eapply no_larger_roomy|done|done].
Qed.

Lemma pop_choice_keeps i a i' : pop_choice i a = Ok i' -> protected (i_wam i) -> intact (i_wam i') -> protected (i_wam i').
Proof.
  unfold pop_choice. intros (d & _ & (w & H1 & H)%bind_Ok)%bind_Ok P I. injection H as <-. cbn in *.
  destruct (set_hb_of_regs _ _ _ H1) as [Eb Ef]. destruct I as [B F]. cbn in Eb, Ef.
  refine (proj1 (set_hb_of_protected SV _ _ _ (set_b_protected _ _ P) _ _ H1)); [|cbn; lia].
  split; cbn; [lia|]. by rewrite <-Ef.
Qed.

End safe.
