(* ===== verification/InterpExamples.v ===== *)
(** * Runs of the interpreter

    Small programs, run by computation: the answers of [append/3] in order, and a cut in
    the branch of an if-then-else that leaves a choice point behind. *)

From S2P Require Import Prelude Cells Heap Bigs TermEnv Machine Wam Builtins BuiltinsKeep Clauses Interpreter.

(** ** Terms as text *)

Inductive source_term := Var (n : nat) | Atom (name : list Z) | Int (v : Z) | Fun (name : list Z) (args : list source_term).

Section build.

Fixpoint put_args (h : heap) (t : Z) (i : Z) (args : list Z) : res heap :=
  match args with
  | [] => Ok h
  | a :: args => h ← set_arg h t i a; put_args h t (i + 1) args
  end.

(** The term on the heap; [vars] are the variables made so far. *)
Fixpoint build (s : source_term) (h : heap) (vars : gmap nat Z) : res (heap * gmap nat Z * Z) :=
  match s with
  | Var n =>
      match vars !! n with
      | Some t => Ok (h, vars, t)
      | None => '(h, t) ← Heap.new_ref h; Ok (h, <[n := t]> vars, t)
      end
  | Atom name => '(h, c) ← make_functor h name 0; Ok (h, vars, c)
  | Int v => Ok (h, vars, int_cell v)
  | Fun name args =>
      '(h, f) ← make_functor h name (Z.of_nat (length args));
      '(h, t) ← new_str h f;
      '(h, vars, l) ← (fix go (args : list source_term) (h : heap) (vars : gmap nat Z) : res (heap * gmap nat Z * list Z) :=
          match args with
          | [] => Ok (h, vars, [])
          | s :: args =>
              '(h, vars, a) ← build s h vars;
              '(h, vars, l) ← go args h vars;
              Ok (h, vars, a :: l)
          end) args h vars;
      h ← put_args h t 0 l;
      Ok (h, vars, t)
  end.

End build.

(** ** A machine with the built-ins *)

Section machine.
Context (import_bits : list Z -> Z) (fuel : nat).

Definition no_code : code := Code ∅ [] ∅.
Definition USER : Z := con_constant [117; 115; 101; 114] 0.

Definition table : list builtin_entry := load_builtins import_bits fuel no_code (code_of_term EMPTY_LIST).
Definition bn_at (o : Z) : option interp_fn := lift_fn ∘ be_fn <$> table !! Z.to_nat o.

Definition first_wam : wam :=
  Wam env_empty (code_of_term EMPTY_LIST) (code_of_term EMPTY_LIST) 0 ENV_NAIVE 0 0 ∅ 0 ∅ 0 WRITE 0 (0, 0) ∅ ∅ ∅
    false false false 0 (TopLevel 0 0 0 0 1000000 0 false).
Definition with_builtins : res interp :=
  foldl (fun r (p : nat * builtin_entry) =>
    i ← r;
    '(h, f) ← make_functor (i_heap i) (be_name p.2) (Z.of_nat (be_arity p.2));
    Ok (load_builtin (with_wam i (set_heap (i_wam i) h)) (USER, f) (Z.of_nat p.1) (be_recursive p.2)))
    (Ok (Interp first_wam ∅ [] ∅ USER ∅)) (imap (fun n e => (n, e)) table).

(** The clauses are added one after the other. *)
Fixpoint load (i : interp) (program : list source_term) : res interp :=
  match program with
  | [] => Ok i
  | s :: program =>
      '(h, _, t) ← build s (i_heap i) ∅;
      let i := with_wam i (set_heap (i_wam i) h) in
      head ← clause_head h t;
      f ← functor h head;
      i ← add_to_program i (USER, f) t 1 LAST_CLAUSE;
      load i program
  end.

Definition loaded (program : list source_term) : res interp := i ← with_builtins; load i program.

(** The query and its variables. *)
Definition ask (i : interp) (query : source_term) : res (interp * gmap nat Z * bool) :=
  '(h, vars, t) ← build query (i_heap i) ∅;
  '(i, b) ← execute import_bits fuel no_code bn_at fuel false (with_wam i (set_heap (i_wam i) h)) t;
  Ok (i, vars, b).
Definition ask_next (i : interp) : res (interp * bool) := next import_bits fuel no_code bn_at fuel i.

(** The elements of a list of integers. *)
Fixpoint int_list (n : nat) (h : heap) (t : Z) : res (list Z) :=
  match n with
  | O => Ok []
  | S n =>
      t ← Heap.deref h t;
      if t =? EMPTY_LIST then Ok [] else x ← arg h t 0; tl ← arg h t 1; l ← int_list n h tl; Ok (int_value x :: l)
  end.

(** All answers for a variable, read as lists of integers. *)
Fixpoint answers (n : nat) (i : interp) (b : bool) (v : Z) : res (list (list Z)) :=
  if negb b then Ok []
  else
    l ← int_list fuel (i_heap i) v;
    match n with
    | O => Ok [l]
    | S n => '(i, b) ← ask_next i; ls ← answers n i b v; Ok (l :: ls)
    end.

End machine.

Definition no_bits (bs : list Z) : Z := 0.
Definition empty_list : source_term := Atom [91; 93].
Definition list_cell (x l : source_term) : source_term := Fun [46] [x; l].
Definition IF (h b : source_term) : source_term := Fun [58; 45] [h; b].
Definition append_goal (x y z : source_term) : source_term := Fun [97; 112; 112] [x; y; z].

Definition append_program : list source_term :=
  [append_goal empty_list (Var 0) (Var 0);
   IF (append_goal (list_cell (Var 0) (Var 1)) (Var 2) (list_cell (Var 0) (Var 3))) (append_goal (Var 1) (Var 2) (Var 3))].

(** ** Runs *)

Definition enough : nat := 200.

(** The answers of [?- query] for its first variable. *)
Definition all_answers (program : list source_term) (query : source_term) : res (list (list Z)) :=
  i ← loaded no_bits enough program;
  '(i, vars, b) ← ask no_bits enough i query;
  answers no_bits enough 5 i b (default 0 (vars !! 0%nat)).

(** [append(X, Y, [1,2])] has its three answers, in the order of the clauses. *)
Example append_answers :
  all_answers append_program (append_goal (Var 0) (Var 1) (list_cell (Int 1) (list_cell (Int 2) empty_list))) = Ok [[]; [1]; [1; 2]].
Proof. vm_compute. reflexivity. Qed.

(** Whether there is an answer, and the integer the first variable is bound to. *)
Definition first_answer (program : list source_term) (query : source_term) : res (bool * option Z) :=
  i ← loaded no_bits enough program;
  '(i, vars, b) ← ask no_bits enough i query;
  t ← Heap.deref (i_heap i) (default 0 (vars !! 0%nat));
  Ok (b, if (b : bool) && bool_decide (cell_tag t = INT) then Some (int_value t) else None).

Definition conj_goal (a b : source_term) : source_term := Fun [44] [a; b].
Definition disj_goal (a b : source_term) : source_term := Fun [59] [a; b].
Definition ite_goal (a b d : source_term) : source_term := Fun [59] [Fun [45; 62] [a; b]; d].
Definition true_goal : source_term := Atom [116; 114; 117; 101].
Definition fail_goal : source_term := Atom [102; 97; 105; 108].
Definition cut_goal : source_term := Atom [33].
Definition unify_goal (x y : source_term) : source_term := Fun [61] [x; y].
Definition p_of (x : source_term) : source_term := Fun [112] [x].
Definition q_of (x : source_term) : source_term := Fun [113] [x].

(** [p(1). p(2). q(X) :- body.  q(7).] *)
Definition program_of (body : source_term) : list source_term :=
  [p_of (Int 1); p_of (Int 2); IF (q_of (Var 0)) body; q_of (Int 7)].

(** A cut commits to the clause: with the cut [q(X)] fails, without it the last clause is
    tried. *)
Example cut_commits :
  first_answer (program_of (conj_goal (p_of (Var 0)) (conj_goal cut_goal fail_goal))) (q_of (Var 0)) = Ok (false, None) /\
  first_answer (program_of (conj_goal (p_of (Var 0)) fail_goal)) (q_of (Var 0)) = Ok (true, Some 7).
Proof. split; vm_compute; reflexivity. Qed.

(** A cut goes through a disjunction to the clause. *)
Example cut_through_disjunction :
  first_answer (program_of (disj_goal (conj_goal (p_of (Var 0)) (conj_goal cut_goal fail_goal)) (unify_goal (Var 0) (Int 9))))
    (q_of (Var 0)) = Ok (false, None).
Proof. vm_compute. reflexivity. Qed.

(** Whether [query] succeeds when its first variable has a frozen goal, [user:goal]. *)
Definition frozen_answer (program : list source_term) (goal query : source_term) : res bool :=
  i ← loaded no_bits enough program;
  '(h, vars, t) ← build query (i_heap i) ∅;
  '(h, _, closure) ← build (Fun [58] [Atom [117; 115; 101; 114]; goal]) h ∅;
  w ← set_frozen_closure (set_heap (i_wam i) h) (ptr_index (default 0 (vars !! 0%nat))) closure;
  '(_, b) ← execute no_bits enough no_code (bn_at no_bits enough) enough true (with_wam i w) t;
  Ok b.

(** A goal frozen on [X], here [fail], is called when [X] is unified or bound by the head of
    a clause.  After backtracking into the next clause it is not: [p(X)] with two clauses
    succeeds although the goal frozen on [X] fails. *)
Theorem backtracking_forgets_frozen_goal :
  frozen_answer [p_of (Int 1)] fail_goal (unify_goal (Var 0) (Int 1)) = Ok false /\
  frozen_answer [p_of (Int 1)] fail_goal (p_of (Var 0)) = Ok false /\
  frozen_answer [p_of (Int 1); p_of (Int 2)] fail_goal (p_of (Var 0)) = Ok true.
Proof. split_and!; vm_compute; reflexivity. Qed.

(** [q(X) :- (true -> p(_), !, fail ; X = 5).]  The condition succeeded, so the else branch
    is gone.  But the cut in the then branch makes its choice point, which has been dropped,
    the current one again, and the failure runs the else branch: the answer is [X = 5]. *)
Theorem cut_resurrects_else_branch :
  first_answer
    (program_of (ite_goal true_goal (conj_goal (p_of (Var 1)) (conj_goal cut_goal fail_goal)) (unify_goal (Var 0) (Int 5))))
    (q_of (Var 0)) = Ok (true, Some 5).
Proof. vm_compute. reflexivity. Qed.

(** Without a choice point between them the cut does nothing: the last clause of [q] is
    tried, although the cut stands in the clause before it. *)
Theorem cut_in_then_branch_is_local :
  first_answer (program_of (ite_goal true_goal (conj_goal cut_goal fail_goal) (unify_goal (Var 0) (Int 5)))) (q_of (Var 0)) =
  Ok (true, Some 7).
Proof. vm_compute. reflexivity. Qed.
