(* ===== verification/InterpRun.v ===== *)
(** * Runs of the interpreter over a choice point

    Machine instructions, goals, the choice of clauses and failure as the steps of one
    relation.  Whatever happens while the choice point of a call is on the stack, going
    back to it brings back the state of the call. *)

From S2P Require Import Prelude Cells Heap HeapGrow Bigs TermEnv HeapSpec UnifyFrame TermCopy Machine Wam WamSafe.
From S2P Require Import WamUndo WamRun Backtrack Builtins BuiltinsSafe BuiltinsKeep BuiltinsSpec TermCopyFrame Clauses Interpreter InterpSafe InterpExamples.

Section steps.
Context (import_bits : list Z -> Z) (fuel : nat) (c : code) (bn_at : Z -> option interp_fn).

(** The steps [cont] and [fail] are made of. *)
Inductive i_step (i : interp) : interp -> Prop :=
  | an_instruction w : has_wam_code (w_p (i_wam i)) = true -> step import_bits fuel c (i_wam i) = Ok w ->
      i_step i (with_wam i w)
  | a_flag v : i_step i (with_wam i (set_fail (i_wam i) v))
  | a_goal i' ok frozen : has_wam_code (w_p (i_wam i)) = false ->
      dispatch_goal import_bits fuel c bn_at i = Ok (i', ok, frozen) -> i_step i i'
  | frozen_goals w : check_frozen c (i_wam i) = Ok w -> i_step i (with_wam i w)
  | a_selection p id l from w ok : select_clause import_bits fuel c (i_wam i) p id l from = Ok (w, ok) ->
      i_step i (with_wam i w)
  | a_top_failure : w_b (i_wam i) = top_b (w_top (i_wam i)) -> i_step i (with_wam i (set_top_fail (i_wam i) true))
  | a_machine_failure w ok : backtrack_wam (i_wam i) = Ok (w, ok) -> i_step i (with_wam i w)
  | a_retry i' ok : w_b (i_wam i) <> top_b (w_top (i_wam i)) -> b_is_wam (i_wam i) = Ok false ->
      retry_choice import_bits fuel c bn_at i (w_b (i_wam i)) = Ok (i', ok) -> i_step i i'
  | a_pop a i' : pop_choice i a = Ok i' -> i_step i i'.

(** *** [cont] is such a run *)

Lemma fail_steps n i i' : fail import_bits fuel c bn_at n i = Ok i' -> rtc i_step i i'.
Proof.
  revert i. induction n as [|n IH]; intros i H; cbn [fail] in H; [done|].
  apply bind_Ok in H as ([j ok] & H1 & H).
  assert (rtc i_step i j) as R; [|destruct ok; [by injection H as <-|etransitivity; [exact R|by apply IH]]].
  unfold fail_step in H1. destruct (Z.eqb_spec (w_b (i_wam i)) (top_b (w_top (i_wam i)))).
  { injection H1 as <- _. by apply rtc_once, a_top_failure. }
  apply bind_Ok in H1 as (m & Hm & H1). destruct m.
  { apply bind_Ok in H1 as ([w r] & H2 & H1). injection H1 as <- _. by eapply rtc_once, a_machine_failure. }
  apply bind_Ok in H1 as ([k r] & H2 & H1). apply (rtc_l _ _ k); [by eapply a_retry|].
  destruct r; [by injection H1 as <- _|]. apply bind_Ok in H1 as (k' & H3 & H1). injection H1 as <- _.
  by eapply rtc_once, a_pop.
Qed.

Lemma wam_steps n i w : wam_loop import_bits fuel c n (i_wam i) = Ok w -> rtc i_step i (with_wam i w).
Proof.
  revert i. induction n as [|n IH]; intros i H; cbn [wam_loop] in H.
  - destruct (running (i_wam i)); [done|]. injection H as <-. by destruct i.
  - destruct (running (i_wam i)) eqn:R; [|injection H as <-; by destruct i].
    apply andb_true_iff in R as [R _]. apply bind_Ok in H as (w1 & H1 & H).
    apply (rtc_l _ _ (with_wam i w1)); [by apply an_instruction|]. exact (IH (with_wam i w1) H).
Qed.

Lemma dispatch_steps n i i' : has_wam_code (w_p (i_wam i)) = false -> dispatch import_bits fuel c bn_at n i = Ok i' ->
  rtc i_step i i'.
Proof.
  unfold dispatch. intros Hp ([[j ok] fz] & H1 & (k & H2 & H)%bind_Ok)%bind_Ok.
  apply (rtc_l _ _ j); [by eapply a_goal|]. transitivity k.
  - destruct ok; [by injection H2 as <-|by eapply fail_steps].
  - destruct fz; [|by injection H as <-]. apply bind_Ok in H as (w & H3 & H). injection H as <-. by apply rtc_once, frozen_goals.
Qed.

(** Running until a query is complete is a run of steps: nothing but instructions, goals,
    frozen goals and failure changes the state. *)
Theorem cont_is_run n i i' : cont_loop import_bits fuel c bn_at n i = Ok i' -> rtc i_step i i' /\ w_complete (i_wam i') = true.
Proof.
  revert i. induction n as [|n IH]; intros i H; cbn [cont_loop] in H; destruct (w_complete (i_wam i)) eqn:Ec;
    try done; try (by injection H as <-).
  apply bind_Ok in H as (j & H1 & H). destruct (IH _ H) as [R Hc]. split; [|exact Hc]. etransitivity; [|exact R].
  destruct (has_wam_code _) eqn:Hp; [|by eapply dispatch_steps].
  apply bind_Ok in H1 as ([w ok] & H2 & H1). unfold cont_wam in H2. apply bind_Ok in H2 as (w1 & H2 & E). injection E as <- <-.
  apply (rtc_l _ _ (with_wam i (set_fail (i_wam i) false))); [apply a_flag|].
  transitivity (with_wam i w1); [exact (wam_steps _ (with_wam i (set_fail (i_wam i) false)) _ H2)|].
  destruct (negb _); [by injection H1 as <-|by eapply fail_steps].
Qed.

End steps.

(** ** Runs over a choice point *)

(** What holds of every state of such a run; the saved height is that of a part of the
    heap, and there is room to copy a clause. *)
Record settled (fuel : nat) (b : Z) (ch : choice_point) (w : wam) : Prop := Settled {
  se_steady : steady b ch w;
  se_room : roomy fuel w;
  se_height : forall d, get_choice w (w_b w) = Ok d -> ch_h d <= h_size (w_heap w)
}.

Definition height_reaches (w : wam) : bool :=
  match get_choice w (w_b w) with Ok d => ch_h d <=? h_size (w_heap w) | Throw _ => true end.
Lemma settled_check fuel b ch bp w :
  h_size (w_heap w) + Z.of_nat fuel * COPY_ROOM <= STACK_BASE ->
  (h_size (w_heap w) <=? STACK_BASE) && (b <=? w_b w) && all_unwatched w && trail_reaches w && height_reaches w = true ->
  w_frames w !! b = Some (FChoice (with_bp ch bp)) -> settled fuel b ch w.
Proof.
  intros Hr. rewrite !andb_true_iff. intros [[[[H1 H2] H3] H4] H5] Hf. split; [by eapply steady_check|exact Hr|].
  intros d Hd. unfold height_reaches in H5. rewrite Hd in H5. by apply Z.leb_le.
Qed.

Inductive run_over (import_bits : list Z -> Z) (fuel : nat) (c : code) (bn_at : Z -> option interp_fn)
    (b : Z) (ch : choice_point) (i : interp) : interp -> Prop :=
  | over_start : settled fuel b ch (i_wam i) -> run_over import_bits fuel c bn_at b ch i i
  | over_step j k : run_over import_bits fuel c bn_at b ch i j -> i_step import_bits fuel c bn_at j k ->
      settled fuel b ch (i_wam k) -> run_over import_bits fuel c bn_at b ch i k.

Section over.
Context (import_bits : list Z -> Z) (fuel : nat) (c : code) (SV : saved) (bn_at : Z -> option interp_fn).
Hypothesis code_ok : code_keeps c SV.
Hypothesis builtins_ok : forall o fn, bn_at o = Some fn -> fn_keeps SV fn.

Abbreviation b := (sv_b SV).
Abbreviation ch := (sv_choice SV).
Abbreviation protected := (protected SV).
Abbreviation settled := (settled fuel b ch).

Lemma i_step_protected i i' : i_step import_bits fuel c bn_at i i' -> settled (i_wam i) -> settled (i_wam i') ->
  protected (i_wam i) -> protected (i_wam i').
Proof.
  intros H [St R Hz] [St' _ _] P. pose proof (steady_live SV _ P St) as L.
  pose proof (st_small _ _ _ St) as S. pose proof (st_small _ _ _ St') as S'. pose proof (st_intact _ _ _ St') as I'.
  destruct H as [w _ H|v|i' ok fz _ H|w H|p id l from w ok H|_|w ok H|i' ok Hb Hm H|a i' H].
  - by eapply step_protected.
  - eapply same_protected; [|exact P]. by split.
  - by eapply dispatch_goal_keeps.
  - by apply (check_frozen_live c SV _ w H).
  - by eapply select_clause_keeps.
  - eapply same_protected; [|exact P]. by split.
  - unfold backtrack_wam in H. apply bind_Ok in H as (w1 & H1%backtrack_same & H). injection H as <- _.
    eapply same_protected; [|exact P]. etransitivity; [|exact H1]. by split.
  - pose proof H as H2. unfold retry_choice, reset_to_choice_point in H2.
    apply bind_Ok in H2 as (w & (d & Hd & _)%bind_Ok & _).
    eapply (retry_choice_keeps import_bits fuel c SV bn_at builtins_ok i d i' ok H Hd); try done; [by apply (st_trail _ _ _ St)|by apply Hz].
  - by eapply pop_choice_keeps.
Qed.

Lemma over_settled i i' : run_over import_bits fuel c bn_at b ch i i' -> settled (i_wam i').
Proof. by destruct 1. Qed.

Lemma over_protected i i' : run_over import_bits fuel c bn_at b ch i i' -> protected (i_wam i) -> protected (i_wam i').
Proof.
  intros H P. induction H as [|j k H IH Hs S]; [done|]. eapply i_step_protected; [exact Hs|by eapply over_settled|exact S|done].
Qed.

(** *** Going back *)

Lemma unwind_trail_take w n w' : unwind w n = Ok w' -> (n <= trail_size (w_env w))%nat ->
  e_trail (w_env w') = take n (e_trail (w_env w)).
Proof.
  unfold unwind. intros (w1 & H1 & (e & He & H)%bind_Ok)%bind_Ok Hn. injection H as <-.
  destruct (unwind_closures_cells _ _ _ H1) as (h & E & _). unfold TermEnv.unwind_trail in He.
  apply bind_Ok in He as (h2 & _ & He). injection He as <-. unfold trail_size in *. cbn. rewrite E. cbn.
  replace (_ - _)%nat with 0%nat by lia. cbn. by rewrite app_nil_r.
Qed.

(** The state of the choice point. *)
Record returned (w : wam) : Prop := Returned {
  rt_args : forall j, (j < length (ch_args ch))%nat -> w_a w !! j = ch_args ch !! j;
  rt_num_args : w_num_args w = length (ch_args ch);
  rt_e : w_e w = ch_ce ch /\ w_e_kind w = ch_ce_kind ch;
  rt_cp : w_cp w = ch_cp ch;
  rt_goal : w_qr w = ch_qr ch /\ w_pr w = ch_pr ch;
  rt_b0 : w_b0 w = ch_b0 ch;
  rt_trail : e_trail (w_env w) = sv_entries SV;
  rt_size : h_size (w_heap w) = Z.max (ch_h ch) (heap_limiter (w_top w));
  rt_cells : forall i, i < ch_h ch -> watch_eq (sv_cells SV !! i) (h_cells (w_heap w) !! i)
}.

Lemma set_args_regs ts w i w' : set_args w i ts = Ok w' ->
  w_env w' = w_env w /\ w_e_kind w' = w_e_kind w /\ w_cp w' = w_cp w /\ w_qr w' = w_qr w /\ w_pr w' = w_pr w /\
  w_b0 w' = w_b0 w /\ w_num_args w' = w_num_args w /\ w_e w' = w_e w /\ w_top w' = w_top w.
Proof.
  revert w i. induction ts as [|t ts IH]; intros w i H; cbn [set_args] in H; [by injection H as <-|].
  apply bind_Ok in H as (w1 & H1 & H). unfold set_a in H1. apply bind_Ok in H1 as (u & _ & H1). injection H1 as <-.
  by destruct (IH _ _ H) as (? & ? & ? & ? & ? & ? & ? & ? & ?).
Qed.

(** What a protected state looks like when the trail is that of the choice point. *)
Lemma protected_cells w i : protected w -> e_trail (w_env w) = sv_entries SV -> i < ch_h ch ->
  watch_eq (sv_cells SV !! i) (h_cells (w_heap w) !! i).
Proof.
  intros P Et Hi. destruct (pr_env _ _ P) as [_ _ _ (T & HT & [_ Uc])]. destruct (Uc i Hi) as [?|[_ HiT]]; [done|].
  rewrite Et in HT. apply (f_equal length) in HT. rewrite length_app in HT.
  destruct T; [by apply elem_of_nil in HiT|cbn in HT; lia].
Qed.

Lemma unwind_regs w n w' : unwind w n = Ok w' -> protected w -> same_regs w w'.
Proof.
  unfold unwind. intros (w1 & H1 & (e & _ & H)%bind_Ok)%bind_Ok P. injection H as <-.
  destruct (unwind_closures_protected SV _ _ _ H1 P) as (_ & [? ? ? ? ? ? ? ? F] & _). by split.
Qed.

(** The registers, then the trail and the heap. *)
Lemma undo_returned w w1 w2 :
  protected w -> small w -> unwind w (ch_tr ch) = Ok w1 -> trim_heap_safe w1 (ch_h ch) = Ok w2 ->
  (ch_tr ch <= trail_size (w_env w))%nat -> ch_h ch <= h_size (w_heap w) ->
  protected w2 /\ same_regs w w2 /\ e_trail (w_env w2) = sv_entries SV /\
  h_size (w_heap w2) = Z.max (ch_h ch) (heap_limiter (w_top w)).
Proof.
  intros P S H1 H2 Ht Hz. pose proof (sv_height SV) as Hh. unfold small in S.
  assert (Hr : (length (sv_entries SV) <= ch_tr ch <= trail_size (w_env w))%nat) by (rewrite (sv_tr SV) in *; lia).
  destruct (cm_safe _ _ _ (unwind_calm SV _ _ _ H1 Hr) P S) as [P1 _]. pose proof (unwind_regs _ _ _ H1 P) as R1.
  destruct (trim_protected SV w1 (ch_h ch) w2 P1 (Z.le_refl _) H2) as (P2 & R2 & E2 & Hs).
  destruct (es_trail _ _ (pr_env _ _ P)) as (T & HT & _).
  split_and!; [done| | |].
  - destruct R1 as [? ? ? ? ? ? ? ? F1], R2 as [? ? ? ? ? ? ? ? F2]. split; [congruence..|]. intros a f Hf. auto.
  - rewrite E2, (unwind_trail_take _ _ _ H1 Ht), HT, (sv_tr SV). by rewrite take_app_length.
  - rewrite (unwind_height _ _ _ H1), (sr_top _ _ R1) in Hs. destruct Hs as [?|[E0 ->]]; [done|].
    pose proof (pr_limit _ _ P). lia.
Qed.

Lemma reset_returned w w' : protected w -> settled w -> w_b w = b -> reset_to_choice_point w b = Ok w' ->
  returned w' /\ w_b w' = b /\ w_frames w' = w_frames w.
Proof.
  intros P [St _ Hz] Eb H. pose proof (steady_live SV _ P St) as L. pose proof (st_small _ _ _ St) as S.
  destruct (in_frame _ _ _ (lv_intact _ _ L)) as [bp Hf].
  assert (Hd : get_choice w (w_b w) = Ok (with_bp ch bp)) by (unfold get_choice; by rewrite Eb, Hf).
  pose proof (st_trail _ _ _ St _ Hd) as Ht. specialize (Hz _ Hd). cbn in Ht, Hz.
  destruct (choice_heights SV w (w_b w) (with_bp ch bp) P (lv_intact _ _ L)) as (_ & _ & Ha); [apply L|exact Hd|].
  pose proof H as H0. rewrite <-Eb in H0. destruct (reset_keeps SV w _ w' H0 Hd L S Ht Hz) as ([P' _] & _ & Ef & Eb').
  unfold reset_to_choice_point in H. rewrite <-Eb, Hd, Ok_bind in H.
  cbn [with_bp ch_ce ch_ce_kind ch_cp ch_tr ch_h ch_b0 ch_qr ch_pr ch_args] in H.
  set (w0 := set_cp _ _) in H. apply bind_Ok in H as (w1 & H1 & (w2 & H2 & (w3 & H3 & H)%bind_Ok)%bind_Ok). injection H as <-.
  assert (P0 : protected w0).
  { apply (same_protected SV (set_e w (ch_ce ch) (ch_ce_kind ch))); [by split|]. by apply set_e_protected. }
  destruct (undo_returned w0 w1 w2 P0 S H1 H2 Ht Hz) as (P2 & [Ra Re Rk Rc Rp Rb R0 Rt _] & Et & Es).
  pose proof (set_args_regs _ _ _ _ H3) as (Ae & Ak & Ac & Aq & Ap & A0 & An & Aee & At). cbn in *.
  split_and!; [|congruence|exact Ef]. split; cbn.
  - intros j Hj. rewrite (set_args_lookup _ _ _ _ j H3), decide_True by lia. by rewrite Nat.sub_0_r.
  - exact An.
  - split; congruence.
  - congruence.
  - split; congruence.
  - congruence.
  - by rewrite Ae.
  - unfold w_heap in *. cbn. rewrite Ae, At, Rt. exact Es.
  - intros i Hi. apply (protected_cells (set_b w3 (w_b w)) i P'); [|done]. cbn. by rewrite Ae.
Qed.

End over.

(** ** The call of a predicate *)

(** The clauses to choose from do not matter for what is protected. *)
Lemma protected_choices SV SV' w :
  sv_b SV' = sv_b SV -> sv_cells SV' = sv_cells SV -> sv_entries SV' = sv_entries SV ->
  ch_h (sv_choice SV') = ch_h (sv_choice SV) -> ch_tr (sv_choice SV') = ch_tr (sv_choice SV) ->
  choice_size (sv_choice SV') = choice_size (sv_choice SV) -> protected SV w -> protected SV' w.
Proof.
  intros E1 E2 E3 E4 E5 E6 [[O Sz Hb (T & HT & [U1 U2])] L A F]. split; [split|..]; unfold away in *.
  - done.
  - by rewrite E4.
  - by rewrite E4.
  - exists T. rewrite E3. split; [done|]. split; rewrite E2, E4; done.
  - done.
  - by rewrite E1, E6.
  - rewrite E1, E4, E5, E6. exact F.
Qed.

Section call.
Context (import_bits : list Z -> Z) (fuel : nat) (c : code) (bn_at : Z -> option interp_fn).
Context (i i1 i2 : interp) (qn : qname) (pred_id : Z) (n : nat) (qr : Z) (l : list Z) (d : choice_point).

(** The choice point of a call with several matching clauses [l], and a run over it. *)
Record resolving : Prop := Resolving {
  rv_ok : wam_ok (i_wam i);
  rv_small : small (i_wam i);
  rv_builtins : forall SV, code_keeps c SV /\ forall o fn, bn_at o = Some fn -> fn_keeps SV fn;
  rv_opened : open_choices import_bits fuel c i qn pred_id n qr = Ok (i1, l);
  rv_choice : get_choice (i_wam i1) (w_b (i_wam i1)) = Ok d;
  rv_run : run_over import_bits fuel c bn_at (w_b (i_wam i1)) d i1 i2;
  rv_current : w_b (i_wam i2) = w_b (i_wam i1)
}.

Lemma opened_saved : resolving ->
  exists (SV : saved) (args : list Z), protected SV (i_wam i1) /\ sv_b SV = w_b (i_wam i1) /\ sv_choice SV = d /\
    sv_cells SV = h_cells (i_heap i) /\ sv_entries SV = e_trail (w_env (i_wam i)) /\
    get_args (i_wam i) 0 (w_num_args (i_wam i)) = Ok args /\
    d = choices_of (i_wam i) args (code_of_term (int_cell (pred_id ≪ 32))) l.
Proof.
  intros [W S _ H Hd _ _]. unfold open_choices in H.
  apply bind_Ok in H as (w1 & H1 & ([j k] & H2 & (w3 & H3 & (d3 & Hd3 & H)%bind_Ok)%bind_Ok)%bind_Ok). injection H as <- <-.
  unfold allocate_clauses in H1. apply bind_Ok in H1 as (w1' & H1 & (d1 & Hd1 & (u & _ & E)%bind_Ok)%bind_Ok). injection E as <-.
  assert (Eh : w_heap w1' = i_heap i).
  { unfold allocate_choices in H1. apply bind_Ok in H1 as (a & _ & (args & _ & H1)%bind_Ok). by injection H1 as <-. }
  destruct (fresh_choices c (i_wam i) true _ _ w1' d1 W S H1 Hd1) as (SV & L & Eb & Ed & Ec & Et & args & Ha & Ech).
  apply (get_matched_calm import_bits fuel SV) in H2. cbn in H2.
  destruct (calm_live SV _ _ H2 L) as [[P2 I2] _]; [unfold small; by rewrite Eh|].
  pose proof (cm_stack _ _ _ H2) as [Kb Kf _ _].
  unfold store_choices in H3. apply bind_Ok in H3 as (d2 & Hd2 & (v & Hv%require_Ok & H3)%bind_Ok). injection H3 as <-.
  apply bool_decide_eq_true in Hv. unfold get_choice in Hd2, Hd1. rewrite Kb, Kf, Hd1 in Hd2. injection Hd2 as <-.
  cbn in Hd, Hd3. unfold get_choice in Hd, Hd3. cbn in Hd, Hd3. rewrite lookup_insert, decide_True in Hd, Hd3 by done.
  injection Hd3 as <-. injection Hd as <-. rewrite <-Ed in Ech. subst d1. cbn in *.
  set (d' := ChoicePoint _ _ _ _ _ _ _ _ _ _ _ _) in *.
  set (SV' := Saved (sv_b SV) d' (sv_cells SV) (sv_entries SV) (sv_tr SV) (sv_height SV) (sv_dom SV) (sv_pos SV)).
  assert (Hlen : length (k ++ drop (length k) (ch_choices (sv_choice SV))) = length (ch_choices (sv_choice SV))).
  { rewrite length_app, length_drop. lia. }
  exists SV', args. split_and!; try done; [|cbn; congruence|].
  - apply (update_choice_safe SV' (i_wam j) (sv_choice SV)); [| |done..].
    + apply (protected_choices SV); try done. cbn. unfold choice_size. cbn. by rewrite Hlen.
    + unfold get_choice. by rewrite Kb, Kf.
  - unfold d'. rewrite Ech. done.
Qed.

(** C13: whatever clauses, goals, built-ins, instructions and failures follow a call with
    several matching clauses, as long as all states are [settled], going back to the choice
    point of the call brings back its state.  The next clause is tried with the argument
    registers, environment, continuation, trail, heap size, cells (up to the watch bit of
    variables) and cut barrier of the call, and with the same list of clauses.  A state is
    settled when watched references are still unbound, the trail and the heap reach up to
    what the current choice point says and the heap is below the stack with room for copying
    clauses; built-ins must keep choice points.  ([watched_variable_rebound]: a run that
    binds a watched variable is not settled.) *)
Theorem resolution_restores w' : resolving -> reset_to_choice_point (i_wam i2) (w_b (i_wam i2)) = Ok w' ->
  restored (i_wam i) w' /\ w_num_args w' = w_num_args (i_wam i) /\
  w_qr w' = w_qr (i_wam i) /\ w_pr w' = w_pr (i_wam i) /\ w_b0 w' = w_b0 (i_wam i) /\
  exists d', get_choice w' (w_b w') = Ok d' /\ ch_choices d' = l /\ ch_b d' = w_b (i_wam i).
Proof.
  intros Hv H. destruct (opened_saved Hv) as (SV & args & P1 & Eb & Ed & Ec & Et & Ha & Ech).
  destruct Hv as [W S Hbn _ _ R Ecur]. destruct (Hbn SV) as [Hcode Hfn]. rewrite <-Eb, <-Ed in R.
  pose proof (over_protected import_bits fuel c SV bn_at Hcode Hfn _ _ R P1) as P2.
  pose proof (over_settled import_bits fuel c SV bn_at _ _ R) as S2. rewrite Ecur, <-Eb in H.
  destruct (reset_returned fuel SV (i_wam i2) w' P2 S2 ltac:(congruence) H) as ([A1 A2 [A3 A3'] A4 [A5 A5'] A6 A7 A8 A9] & B1 & B2).
  destruct (get_args_lookup _ _ _ _ Ha) as [Hlen Hlook].
  rewrite Ed, Ech in *. cbn in *. split; [|split_and!; try done; [by rewrite A2|]].
  - split; try done; [|by rewrite A7|by intros x Hx; rewrite <-(A9 x Hx), Ec].
    intros x Hx. rewrite A1 by lia. by rewrite (Hlook x Hx).
  - destruct (in_frame _ _ _ (st_intact _ _ _ (se_steady _ _ _ _ S2))) as [bp Hf].
    eexists. unfold get_choice. rewrite B1, B2, Hf. done.
Qed.

End call.

(** ** An example *)

Module ResolutionExample.

Abbreviation bits := no_bits.
Definition the_bn : Z -> option interp_fn := bn_at bits 200.
Definition nothing : interp := Interp first_wam ∅ [] ∅ USER ∅.

(** The goal [app(X, Y, [1])] with its arguments in the registers. *)
Definition goal_state : interp :=
  match (i ← loaded bits 200 append_program;
         '(h, _, t) ← build (append_goal (Var 0) (Var 1) (list_cell (Int 1) empty_list)) (i_heap i) ∅;
         w ← goal_args (set_p (set_qr (set_heap (i_wam i) h) t) (code_of_term t)) 3;
         Ok (with_wam i w)) with Ok i => i | Throw _ => nothing end.
Definition app_3 : qname := (USER, con_constant [97; 112; 112] 3).
Definition opened : interp * list Z :=
  match open_choices bits 200 no_code goal_state app_3 1 2 (w_qr (i_wam goal_state)) with
  | Ok r => r | Throw _ => (nothing, []) end.
Definition point : choice_point :=
  match get_choice (i_wam opened.1) (w_b (i_wam opened.1)) with
  | Ok d => d | Throw _ => ChoicePoint 0 ENV_NAIVE code_fail 0 code_fail 0 0 0 0 (0, 0) [] [] end.

(** The first clause is entered, its body returns, and the second clause comes next. *)
Definition entered : interp :=
  match select_clause bits 200 no_code (i_wam opened.1) (code_of_term (w_qr (i_wam goal_state))) 1 opened.2 0 with
  | Ok (w, _) => with_wam opened.1 w | Throw _ => nothing end.
Definition returned_from : interp :=
  match dispatch_goal bits 200 no_code the_bn entered with Ok (i, _, _) => i | Throw _ => nothing end.
Definition back : wam :=
  match reset_to_choice_point (i_wam returned_from) (w_b (i_wam returned_from)) with Ok w => w | Throw _ => first_wam end.

Lemma the_builtins SV : code_keeps no_code SV /\ forall o fn, the_bn o = Some fn -> fn_keeps SV fn.
Proof.
  split; [by intros o i H|]. intros o fn H. unfold the_bn, bn_at in H. apply fmap_Some in H as (e & He & ->).
  apply lift_keeps. eapply table_keeps, list_elem_of_lookup_2, He.
Qed.

Lemma selection_there : i_step bits 200 no_code the_bn opened.1 entered.
Proof.
  assert (E : entered = with_wam opened.1 (i_wam entered)) by (vm_compute; reflexivity). rewrite E.
  apply (a_selection bits 200 no_code the_bn opened.1 (code_of_term (w_qr (i_wam goal_state))) 1 opened.2 0 _ true).
  vm_compute. reflexivity.
Qed.
Lemma goal_there : i_step bits 200 no_code the_bn entered returned_from.
Proof. apply (a_goal bits 200 no_code the_bn entered returned_from true false); vm_compute; reflexivity. Qed.

Lemma run_there : run_over bits 200 no_code the_bn (w_b (i_wam opened.1)) point opened.1 returned_from.
Proof.
  assert (S1 : settled 200 (w_b (i_wam opened.1)) point (i_wam opened.1)).
  { apply (settled_check _ _ _ (ch_bp point)); [apply Z.leb_le|..]; vm_compute; reflexivity. }
  assert (S2 : settled 200 (w_b (i_wam opened.1)) point (i_wam entered)).
  { apply (settled_check _ _ _ (resume_at 1 0)); [apply Z.leb_le|..]; vm_compute; reflexivity. }
  assert (S3 : settled 200 (w_b (i_wam opened.1)) point (i_wam returned_from)).
  { apply (settled_check _ _ _ (resume_at 1 0)); [apply Z.leb_le|..]; vm_compute; reflexivity. }
  refine (over_step _ _ _ _ _ _ _ entered _ (over_step _ _ _ _ _ _ _ opened.1 _ (over_start _ _ _ _ _ _ _ S1) _ S2) _ S3).
  - exact selection_there.
  - exact goal_there.
Qed.

Lemma call_resolving : resolving bits 200 no_code the_bn goal_state opened.1 returned_from app_3 1 2 (w_qr (i_wam goal_state)) opened.2 point.
Proof.
  split.
  - apply wam_check_ok. vm_compute. reflexivity.
  - apply Z.leb_le. vm_compute. reflexivity.
  - exact the_builtins.
  - vm_compute. reflexivity.
  - vm_compute. reflexivity.
  - exact run_there.
  - vm_compute. reflexivity.
Qed.

(** Between the call and the second clause two variables were bound. *)
Lemma resolution_restores_witness :
  trail_size (w_env (i_wam goal_state)) <> trail_size (w_env (i_wam returned_from)) /\
  reset_to_choice_point (i_wam returned_from) (w_b (i_wam returned_from)) = Ok back /\
  restored (i_wam goal_state) back /\
  exists d', get_choice back (w_b back) = Ok d' /\ ch_choices d' = opened.2 /\ ch_b d' = w_b (i_wam goal_state).
Proof.
  assert (Hb : reset_to_choice_point (i_wam returned_from) (w_b (i_wam returned_from)) = Ok back) by (vm_compute; reflexivity).
  split; [vm_compute; discriminate|]. split; [exact Hb|].
  destruct (resolution_restores bits 200 no_code the_bn goal_state opened.1 returned_from app_3 1 2
    (w_qr (i_wam goal_state)) opened.2 point back call_resolving Hb) as (R & _ & _ & _ & _ & E). split; [exact R|exact E].
Defined.

End ResolutionExample.
