(* ===== verification/InterpFail.v ===== *)
(** * Failure comes to an end

    [fail] retries the choice points from the newest to the oldest.  It stops at the first
    that can continue, or at the top level. *)

From S2P Require Import Prelude Cells Heap HeapGrow TermEnv Machine Wam WamSafe WamUndo WamRun Builtins BuiltinsSafe BuiltinsKeep.
From S2P Require Import Clauses Interpreter InterpSafe InterpExamples.

(** The stack alone: any saved state will do. *)
Lemma no_entries : 0%nat = length (@nil Z).
Proof. done. Qed.
Definition no_choice : choice_point :=
  ChoicePoint 0 ENV_NAIVE code_fail 0 code_fail 0 0 0 0 (0, 0) [] [].
Lemma no_height : 0 <= ch_h no_choice <= STACK_BASE.
Proof. done. Qed.
Lemma no_cells i : is_Some ((∅ : gmap Z Z) !! i) -> 0 <= i.
Proof. rewrite lookup_empty. by intros [? ?]. Qed.
Definition no_saved : saved := Saved 1 no_choice ∅ [] no_entries no_height no_cells Z.lt_0_1.

Section fails.
Context (import_bits : list Z -> Z) (fuel : nat) (c : code) (bn_at : Z -> option interp_fn).

Lemma calm_frames w w' : calm no_saved w w' -> same_stack w w'.
Proof. by intros []. Qed.

Lemma select_loop_stack rest w goal id n i w' :
  select_loop import_bits fuel c rest w goal id n i = Ok (w', false) -> same_stack w w'.
Proof.
  revert w i. induction rest as [|x rest IH]; intros w i H; cbn [select_loop] in H.
  { injection H as <-. by split. }
  apply bind_Ok in H as (hd & _ & ([w1 may] & H1%(can_unify_args_calm _ _ no_saved)%calm_frames & H)%bind_Ok).
  etransitivity; [exact H1|]. destruct may; cbn [negb] in H; [|by eapply IH].
  apply bind_Ok in H as ([w2 t] & H2%copy_clause_stack & (hd2 & _ & (bd2 & _ & ([w3 ok3] & H3%(unify_args_calm _ _ no_saved)%calm_frames & H)%bind_Ok)%bind_Ok)%bind_Ok).
  etransitivity; [exact H2|]. etransitivity; [exact H3|]. destruct ok3.
  - apply bind_Ok in H as (w4 & _ & H). done.
  - apply bind_Ok in H as (w4 & H4%trim_stack_same & H). etransitivity; [exact H4|]. by eapply IH.
Qed.

Lemma select_clause_frames w p id l from w' :
  select_clause import_bits fuel c w p id l from = Ok (w', false) -> w_frames w' = w_frames w /\ w_top w' = w_top w.
Proof.
  unfold select_clause. destruct (_ =? 0).
  - intros (d & _ & H)%bind_Ok. destruct (_ <? _)%nat; [|done]. by injection H as <-.
  - intros [_ Ef _ Et]%select_loop_stack. done.
Qed.

Lemma set_args_stack ts w i w' : set_args w i ts = Ok w' -> same_stack w w'.
Proof. intros H. by eapply core_stack, set_args_same. Qed.

Lemma reset_frames w b w' : reset_to_choice_point w b = Ok w' -> w_frames w' = w_frames w /\ w_top w' = w_top w.
Proof.
  unfold reset_to_choice_point.
  intros (d & _ & (w1 & [_ F1 _ T1]%unwind_stack & (w2 & [_ F2 _ T2]%trim_stack_same & (w3 & [_ F3 _ T3]%set_args_stack & H)%bind_Ok)%bind_Ok)%bind_Ok)%bind_Ok.
  injection H as <-. cbn in *. split; congruence.
Qed.

(** *** The chain of choice points *)

(** Every choice point has the same predecessor as before, and continues with the same
    built-in, if with any. *)
Definition same_chain (w w' : wam) : Prop :=
  w_top w' = w_top w /\ forall a d, w_frames w !! a = Some (FChoice d) ->
    exists d', w_frames w' !! a = Some (FChoice d') /\ ch_b d' = ch_b d /\
      (is_builtin (ch_bp d') = true -> is_builtin (ch_bp d) = true /\ cp_code (ch_bp d') = cp_code (ch_bp d)).
#[local] Instance same_chain_preorder : PreOrder same_chain.
Proof.
  split; [intros w; split; [done|]; by eauto|]. intros w1 w2 w3 [T1 H1] [T2 H2]. split; [by etransitivity|].
  intros a d Hd. destruct (H1 a d Hd) as (d2 & Hd2 & E2 & C2), (H2 a d2 Hd2) as (d3 & Hd3 & E3 & C3).
  exists d3. split_and!; [done|by etransitivity|]. intros [? ->]%C3. by apply C2.
Qed.
Lemma frames_same_chain w w' : w_frames w' = w_frames w -> w_top w' = w_top w -> same_chain w w'.
Proof. intros Ef Et. split; [done|]. rewrite Ef. by eauto. Qed.

(** A built-in that can be retried: when it fails it leaves the chain as it is. *)
Definition keeps_chain (fn : interp_fn) : Prop :=
  forall i n args i', fn i n args = Ok (i', false) -> same_chain (i_wam i) (i_wam i').
Definition continues_on (bp : code_point) : Prop :=
  is_builtin bp = true -> forall fn, bn_of bn_at bp = Ok fn -> keeps_chain fn.

Lemma continues_at bp o fn : bn_at o = Some fn -> cp_code bp = Some o -> keeps_chain fn -> continues_on bp.
Proof. intros Ho Ec K _ fn' H. unfold bn_of in H. rewrite Ec in H. cbn in H. rewrite Ho in H. by injection H as <-. Qed.

(** [k] choice points down to the top level. *)
Inductive chain (w : wam) : Z -> nat -> Prop :=
  | chain_top : chain w (top_b (w_top w)) 0
  | chain_next b d k : b <> top_b (w_top w) -> w_frames w !! b = Some (FChoice d) -> continues_on (ch_bp d) ->
      chain w (ch_b d) k -> chain w b (S k).

Lemma chain_same w w' b k : same_chain w w' -> chain w b k -> chain w' b k.
Proof.
  intros [Et Ef] H. induction H as [|b d k Hb Hf Hp H IH]; [rewrite <-Et; constructor|].
  destruct (Ef b d Hf) as (d' & Hd' & El & Ec). apply (chain_next _ _ d'); rewrite ?Et, ?El; try done.
  intros [Hi E]%Ec fn Hfn. apply (Hp Hi). unfold bn_of in *. by rewrite <-E.
Qed.

(** [arg/3] with an unbound index continues with [arg_3_cp]. *)
Lemma arg_3_cp_keeps_chain : keeps_chain (lift_fn (arg_3_cp import_bits fuel)).
Proof.
  intros i n args i' H. unfold lift_fn in H. apply bind_Ok in H as ([w r] & H & E). injection E as <- ->. cbn.
  unfold arg_3_cp in H. apply bind_Ok in H as (x & _ & (t & _ & (f & _ & H)%bind_Ok)%bind_Ok). destruct (_ =? _).
  - apply bind_Ok in H as (d & Hd & H). injection H as <-. split; [done|]. intros a d0 Ha. cbn.
    unfold get_choice in Hd. destruct (w_frames (i_wam i) !! w_b (i_wam i)) as [[|d1]|] eqn:Hb; try done. injection Hd as ->.
    destruct (decide (a = w_b (i_wam i))) as [->|Hne]; [|exists d0; by rewrite lookup_insert_ne by done].
    rewrite Ha in Hb. injection Hb as ->. exists (with_bp d code_fail). by rewrite lookup_insert_eq.
  - apply bind_Ok in H as (h & _ & (w1 & H1 & (a0 & _ & ([w2 ok] & [_ F2 _ T2]%base_unify_stack & H)%bind_Ok)%bind_Ok)%bind_Ok).
    apply bind_Ok in H as (v & _ & (a2 & _ & [_ F3 _ T3]%base_unify_stack)%bind_Ok).
    unfold restore_p_from_heap_if_wam in H1. apply bind_Ok in H1 as (q & _ & H1). injection H1 as <-.
    apply frames_same_chain; rewrite ?F3, ?F2, ?T3, ?T2; by destruct (bool_decide _).
Qed.

(** *** Rounds *)

Definition failing (i j : interp) : Prop := fail_step import_bits fuel c bn_at i = Ok (j, false).

Lemma redo_same_chain i d j : continues_on (ch_bp d) -> redo import_bits fuel c bn_at i d = Ok (j, false) ->
  same_chain (i_wam i) (i_wam j).
Proof.
  unfold redo. intros Hp H. destruct (is_fail _); [by injection H as <-|]. destruct (is_builtin _) eqn:Hi.
  { apply bind_Ok in H as (fn & Hf & (args & _ & H)%bind_Ok). by eapply (Hp Hi fn Hf). }
  destruct (negb _).
  { apply bind_Ok in H as ([w2 r] & H3 & H). injection H as <- ->. apply select_clause_frames in H3 as [F T].
    by apply frames_same_chain. }
  destruct (_ =? 0); [by injection H as <-|].
  apply bind_Ok in H as ([w2 r2] & [_ F _ T]%(get_first_arg_calm no_saved)%calm_frames & ([w3 r] & H3 & H)%bind_Ok).
  injection H as <- ->. apply select_clause_frames in H3 as [F3 T3]. apply frames_same_chain; cbn in *; congruence.
Qed.

(** The machine's own choice points do not fail in a round: it goes on with their code. *)
Lemma wam_round_succeeds i w : b_is_wam (i_wam i) = Ok true -> w_b (i_wam i) <> top_b (w_top (i_wam i)) ->
  backtrack_wam (i_wam i) <> Ok (w, false).
Proof.
  intros Hm Hb H1. unfold backtrack_wam in H1. apply bind_Ok in H1 as (w1 & H1 & H2). injection H2 as _ Hr.
  apply negb_false_iff in Hr. unfold b_is_wam in Hm. destruct (_ =? 0); [done|].
  apply bind_Ok in Hm as (d & Hd & Hm). injection Hm as Hm.
  unfold backtrack in H1. cbn [w_b set_fail w_top] in H1. rewrite (proj2 (Z.eqb_neq _ _) Hb) in H1.
  change (get_choice (set_fail (i_wam i) false) (w_b (i_wam i))) with (get_choice (i_wam i) (w_b (i_wam i))) in H1.
  rewrite Hd, Ok_bind in H1. cbn [set_p w_p] in H1. rewrite Hm in H1. by injection H1 as <-.
Qed.

(** Popping the choice point [b]. *)
Lemma pop_choice_chain i b d j : w_frames (i_wam i) !! b = Some (FChoice d) -> pop_choice i b = Ok j ->
  w_b (i_wam j) = ch_b d /\ same_chain (i_wam i) (i_wam j).
Proof.
  intros Hb H. unfold pop_choice, get_choice in H. rewrite Hb, Ok_bind in H. apply bind_Ok in H as (w2 & H3 & H).
  injection H as <-. destruct (set_hb_of_regs _ _ _ H3) as [Eb Ef]. split; [exact Eb|]. apply frames_same_chain; [exact Ef|].
  unfold set_hb_of in H3. destruct (_ =? 0); [by injection H3 as <-|].
  apply bind_Ok in H3 as (d3 & _ & H3). by injection H3 as <-.
Qed.

Lemma failing_pops i j k : failing i j -> chain (i_wam i) (w_b (i_wam i)) k ->
  exists k', k = S k' /\ chain (i_wam j) (w_b (i_wam j)) k'.
Proof.
  unfold failing, fail_step. intros H C. destruct (Z.eqb_spec (w_b (i_wam i)) (top_b (w_top (i_wam i)))) as [|Hn]; [done|].
  inversion C as [E|b d k' Hb Hf Hp C']; [by rewrite <-E in *|]. subst. exists k'. split; [done|].
  apply bind_Ok in H as (m & Hm & H). destruct m.
  { apply bind_Ok in H as ([w r] & H1 & H). injection H as _ ->. by destruct (wam_round_succeeds _ w Hm Hn). }
  apply bind_Ok in H as ([k1 r] & H1 & H). destruct r; [done|]. apply bind_Ok in H as (j' & H2 & H). injection H as ->.
  unfold retry_choice in H1. apply bind_Ok in H1 as (w & [F1 T1]%reset_frames & (d1 & Hd1 & H1)%bind_Ok).
  assert (d1 = d) as -> by (unfold get_choice in *; rewrite F1, Hf in Hd1; by injection Hd1).
  apply (redo_same_chain (with_wam i w)) in H1; [|done].
  assert (S1 : same_chain (i_wam i) (i_wam k1)) by (etransitivity; [by apply (frames_same_chain (i_wam i) w)|exact H1]).
  destruct (proj2 S1 _ _ Hf) as (d2 & Hd2 & El & _). destruct (pop_choice_chain _ _ _ _ Hd2 H2) as [Eb S2].
  rewrite Eb, El. eapply chain_same; [|exact C']. by etransitivity.
Qed.

(** A run of [fail]: choice points that cannot continue, then one that can, or an exception
    of the code. *)
Inductive outcome (i : interp) : res interp -> Prop :=
  | continues j k : rtc failing i j -> fail_step import_bits fuel c bn_at j = Ok (k, true) -> outcome i (Ok k)
  | throws j e : rtc failing i j -> e <> OutOfFuel -> fail_step import_bits fuel c bn_at j = Throw e -> outcome i (Throw e).

Lemma outcome_failing i j r : failing i j -> outcome j r -> outcome i r.
Proof. intros F [k l R H|k e R N H]; [eapply continues|eapply throws]; try exact H; try done; by eapply rtc_l. Qed.

(** The loops inside the rounds, of unification and of copying clauses, end within the
    fuel. *)
Definition rounds_end (i : interp) : Prop :=
  forall j, rtc failing i j -> fail_step import_bits fuel c bn_at j <> Throw OutOfFuel.

(** The rounds, tried one after the other. *)
Fixpoint rounds_end_within (n : nat) (i : interp) : bool :=
  match n with
  | O => false
  | S n =>
      match fail_step import_bits fuel c bn_at i with
      | Ok (j, ok) => ok || rounds_end_within n j
      | Throw OutOfFuel => false
      | Throw _ => true
      end
  end.
Lemma rounds_end_check n i : rounds_end_within n i = true -> rounds_end i.
Proof.
  revert i. induction n as [|n IH]; intros i H j R; cbn [rounds_end_within] in H; [done|].
  inversion R as [|? k ? F R']; subst.
  - intros E. by rewrite E in H.
  - rewrite F in H. by apply (IH k).
Qed.

(** C14: failure ends: with [k] choice points on the chain, [k + 1] rounds are enough.  The
    result is that of the first round whose choice point continues (or that reaches the
    top level), or the exception such a round throws.  A choice point may continue with
    the machine, a clause, a goal, or a built-in that leaves the chain alone when it
    fails, as [arg_3_cp] does ([arg_3_cp_keeps_chain]).  That unification and copying end
    in each round is assumed here. *)
Theorem fail_terminates n i k :
  chain (i_wam i) (w_b (i_wam i)) k -> rounds_end i -> (k < n)%nat -> outcome i (fail import_bits fuel c bn_at n i).
Proof.
  revert i k. induction n as [|n IH]; intros i k C R Hn; [lia|]. cbn [fail].
  destruct (fail_step import_bits fuel c bn_at i) as [[j ok]|e] eqn:E.
  - rewrite Ok_bind. destruct ok; [by eapply continues|].
    destruct (failing_pops i j k E C) as (k' & -> & C'). eapply outcome_failing; [exact E|]. eapply IH; [exact C'| |lia].
    intros l Rl. apply R. by eapply rtc_l.
  - eapply throws; [done| |exact E]. intros ->. by apply (R i).
Qed.

End fails.

(** ** Too many clauses *)

Lemma get_args_total w i n : (i + n <= MAX_ARGS)%nat -> exists l, get_args w i n = Ok l /\ length l = n.
Proof.
  revert i. induction n as [|n IH]; intros i Hi; cbn [get_args]; [by exists []|].
  destruct (IH (S i)) as (l & Hl & Hn); [lia|]. unfold get_a, require. rewrite bool_decide_true by lia.
  rewrite !Ok_bind, Hl, Ok_bind. eexists. split; [done|]. cbn. by rewrite Hn.
Qed.

(** The check for a stack overflow reserves a fixed number of words, the choice point of a
    call has one for each clause that matches: with enough of them even an empty stack
    is overrun. *)
Lemma many_clauses_overrun c w pred_id n :
  w_b w = 0 -> w_e w = 0 -> (w_num_args w <= MAX_ARGS)%nat -> MAX_STACK_SIZE_WORDS <= Z.of_nat n ->
  allocate_clauses c w pred_id n = Throw UndefinedBehaviour.
Proof.
  intros Eb Ee Ha Hn. destruct (get_args_total w 0 _ Ha) as (l & Hl & _).
  assert (Hs : allocate_stack w (num_y c w true) = Ok STACK_BASE) by (unfold allocate_stack; by rewrite Eb, Ee).
  unfold allocate_clauses, allocate_choices. rewrite Hs, Ok_bind, Hl, !Ok_bind.
  unfold get_choice. cbn [w_b set_env set_b w_frames set_stack put_frame]. rewrite lookup_insert_eq, Ok_bind.
  unfold require. rewrite (proj2 (Z.leb_gt _ _)); [done|]. unfold choice_size. cbn [ch_args ch_choices].
  rewrite length_replicate. lia.
Qed.

(** ** An example *)

Module FailExample.

(** The table of built-ins, where [arg/3] continues with [arg_3_cp] at the address 1000. *)
Definition next_arg : code_point := code_of_builtin EMPTY_LIST 1000 false.
Definition arg_table : list builtin_entry := load_builtins no_bits 200 no_code next_arg.
Definition bn_at (o : Z) : option interp_fn :=
  if o =? 1000 then Some (lift_fn (arg_3_cp no_bits 200)) else lift_fn ∘ be_fn <$> arg_table !! Z.to_nat o.

(** [?- q(X)] for [q(X) :- arg(X, f(1,1), 1).  q(7).]  After the second answer two choice
    points are left, of [arg/3] and of [q]; that of [arg/3] has no more arguments. *)
Definition program : list source_term :=
  [IF (q_of (Var 0)) (Fun [97; 114; 103] [Var 0; Fun [102] [Int 1; Int 1]; Int 1]); q_of (Int 7)].
Definition answered : interp :=
  match
    i ← loaded no_bits 200 program;
    '(h, _, t) ← build (q_of (Var 0)) (i_heap i) ∅;
    '(i, _) ← execute no_bits 200 no_code bn_at 200 false (with_wam i (set_heap (i_wam i) h)) t;
    '(i, _) ← next no_bits 200 no_code bn_at 200 i;
    Ok i
  with Ok i => i | Throw _ => Interp first_wam ∅ [] ∅ USER ∅ end.

Definition choice_at (a : Z) : choice_point :=
  match w_frames (i_wam answered) !! a with Some (FChoice d) => d | _ => no_choice end.

Abbreviation newest := (w_b (i_wam answered)).
Abbreviation second := (ch_b (choice_at newest)).

Lemma arg_3_continues : continues_on bn_at (ch_bp (choice_at newest)).
Proof.
  apply (continues_at _ _ 1000 _ eq_refl); [vm_compute; reflexivity|apply arg_3_cp_keeps_chain].
Qed.
Lemma clause_continues : continues_on bn_at (ch_bp (choice_at second)).
Proof. intros H. assert (E : is_builtin (ch_bp (choice_at second)) = false) by (vm_compute; reflexivity). congruence. Qed.

Lemma two_left : chain bn_at (i_wam answered) (w_b (i_wam answered)) 2.
Proof.
  apply (chain_next _ _ newest (choice_at newest)); [vm_compute; discriminate|vm_compute; reflexivity|exact arg_3_continues|].
  apply (chain_next _ _ second (choice_at second)); [vm_compute; discriminate|vm_compute; reflexivity|exact clause_continues|].
  assert (E : ch_b (choice_at second) = top_b (w_top (i_wam answered))) by (vm_compute; reflexivity).
  rewrite E. constructor.
Qed.
Lemma answered_rounds : rounds_end no_bits 200 no_code bn_at answered.
Proof. apply (rounds_end_check _ _ _ _ 3). vm_compute. reflexivity. Qed.

Lemma fail_terminates_witness :
  chain bn_at (i_wam answered) (w_b (i_wam answered)) 2 /\
  outcome no_bits 200 no_code bn_at answered (fail no_bits 200 no_code bn_at 3 answered).
Proof.
  split; [exact two_left|].
  exact (fail_terminates no_bits 200 no_code bn_at 3 answered 2 two_left answered_rounds (Nat.lt_succ_diag_r 2)).
Defined.

End FailExample.
