(* ===== verification/Serializer.v ===== *)
(** * The term serializer ([src/src/common/term_serializer.hpp], [term_serializer.cpp])

    A term is written as a sequence of 64-bit cells: a header with the names of
    constants and variables that have one, and a body in which pointers are offsets
    counted in cells.  [read] rebuilds the cells on the heap, moves the pointers and
    checks the result.

    Offsets into the buffer are [nat]; [term_index_], a hash table from terms to
    indices, is a map from raw cells.  The messages of exceptions are left out. *)

From S2P Require Import Prelude Bits Cells Heap Bigs.

Abbreviation buffer := (list Z).

(** ** Cells in a buffer *)

(** [raw_value <<= 8; raw_value |= bytes[from_offset + 7 - i]], with [n] bytes to go. *)
Fixpoint read_bytes (n : nat) (bytes : buffer) (from_offset : nat) (raw_value : Z) : Z :=
  match n with
  | O => raw_value
  | S n => read_bytes n bytes from_offset (w64 (raw_value ≪ 8) ||| default 0 (bytes !! (from_offset + n)%nat))
  end.
Definition read_cell (bytes : buffer) (from_offset : nat) : res Z :=
  _ ← require (from_offset + 8 <=? length bytes)%nat (UnexpectedEnd (Z.of_nat from_offset));
  Ok (read_bytes 8 bytes from_offset 0).

(** [bytes[offset + i] = v & 0xff; v >>= 8], with [n] bytes to go. *)
Fixpoint cell_bytes (n : nat) (v : Z) : list Z :=
  match n with
  | O => []
  | S n => v &&& 0xff :: cell_bytes n (v ≫ 8)
  end.
(** A cell is written at the end, which grows the buffer, or over an earlier one. *)
Definition write_cell (bytes : buffer) (offset : nat) (c : Z) : res buffer :=
  let bytes := if (offset =? length bytes)%nat then bytes ++ replicate 8 0 else bytes in
  _ ← require (offset + 8 <=? length bytes)%nat UndefinedBehaviour;
  Ok (take offset bytes ++ cell_bytes 8 c ++ drop (offset + 8) bytes).

Definition cell_count (offset : nat) : Z := Z.of_nat (offset / 8).

(** ** The table of indices *)

Abbreviation indexor := (gmap Z Z).
Definition to_index (m : indexor) (t new_id : Z) : indexor * Z :=
  match m !! t with
  | None => (<[t := new_id]> m, new_id)
  | Some index => (m, index)
  end.
Definition is_indexed (m : indexor) (t : Z) : bool := bool_decide (is_Some (m !! t)).
Definition unwatch (c : Z) : Z := ref_cell (ptr_index c).

Definition remapped_term (m : indexor) (t cell_index : Z) : res (indexor * Z) :=
  match cell_tag t with
  | RFW => let '(m, i) := to_index m (unwatch t) cell_index in Ok (m, mk_cell REF i)
  | REF | BIG | STR => let '(m, i) := to_index m t cell_index in Ok (m, mk_cell (cell_tag t) i)
  | CON =>
      if is_direct t then Ok (m, t)
      else let '(m, i) := to_index m (con_to_atom t) cell_index in Ok (m, con_cell_index i (con_arity t))
  | INT => Ok (m, t)
  | DAT | FWD => Throw AssertFailed
  end.

(** ** Writing *)

(** What the writer changes: the buffer and the table. *)
Definition writer : Type := buffer * indexor.

(** [write_con_cell], [write_ref_cell] and [write_cell(bytes, offset, remapped_term(c, i))] *)
Definition write_remapped (w : writer) (offset : nat) (c cell_index : Z) : res writer :=
  '(m, c) ← remapped_term w.2 c cell_index;
  bytes ← write_cell w.1 offset c;
  Ok (bytes, m).
Definition write_con_cell (w : writer) (offset : nat) (c : Z) : res writer :=
  if is_direct c then bytes ← write_cell w.1 offset c; Ok (bytes, w.2)
  else write_remapped w offset c (cell_count offset).
Definition write_ref_cell (w : writer) (offset : nat) (c : Z) : res writer :=
  write_remapped w offset (unwatch c) (cell_count offset).

(** [for (i = 0; i < n; i += 7)], from [i] on. *)
Fixpoint write_chunks (fuel : nat) (bytes : buffer) (str : list Z) (i : nat) : res buffer :=
  if (i <? length str)%nat then
    match fuel with
    | O => Throw OutOfFuel
    | S fuel =>
        ic ← encode_str_range str (Z.of_nat i) (Z.of_nat i + 7) (i + 7 <? length str)%nat;
        bytes ← write_cell bytes (length bytes) ic;
        write_chunks fuel bytes str (i + 7)
    end
  else Ok bytes.
Definition write_encoded_string (bytes : buffer) (str : list Z) : res buffer :=
  write_chunks (length str) bytes str 0.

Definition VER1 : Z := con_constant [118; 101; 114; 49] 0.
Definition REMAP : Z := con_constant [114; 101; 109; 97; 112] 0.
Definition PAMER : Z := con_constant [112; 97; 109; 101; 114] 0.

Section write.
Context (h : heap) (names : gmap Z (list Z)).

(** [temp_stack_.push_back(deref(arg(t1, num_args - i - 1)))] for [i] from 0 on: the back
    of the vector is the head of the list. *)
Fixpoint push_derefs (n : nat) (stack : list Z) (t : Z) : res (list Z) :=
  match n with
  | O => Ok stack
  | S n => a ← arg h t (Z.of_nat n); a ← deref h a; push_derefs n (a :: stack) t
  end.

(** One iteration of [write_all_header]: a term with the stack below it. *)
Definition header_step (w : writer) (stack : list Z) (seen : gset Z) (t1 : Z)
    : res (writer * list Z * gset Z) :=
  t1 ← deref h t1;
  match cell_tag t1 with
  | CON | STR =>
      f ← functor h t1;
      w ← (if negb (is_direct f) && negb (is_indexed w.2 (con_to_atom f)) then
             name ← atom_name h f;
             w ← write_con_cell w (length w.1) f;
             bytes ← write_encoded_string w.1 name;
             Ok (bytes, w.2)
           else Ok w);
      if bool_decide (t1 ∈ seen) then Ok (w, stack, seen)
      else
        stack ← (if bool_decide (cell_tag t1 = STR) then push_derefs (Z.to_nat (con_arity f)) stack t1
                 else Ok stack);
        Ok (w, stack, {[t1]} ∪ seen)
  | REF | RFW =>
      w ← (match names !! ptr_index t1 with
           | Some name =>
               if negb (is_indexed w.2 t1) then
                 w ← write_ref_cell w (length w.1) t1;
                 bytes ← write_encoded_string w.1 name;
                 Ok (bytes, w.2)
               else Ok w
           | None => Ok w
           end);
      Ok (w, stack, seen)
  | _ => Ok (w, stack, seen)
  end.
Fixpoint header_loop (fuel : nat) (w : writer) (stack : list Z) (seen : gset Z) : res writer :=
  match stack with
  | [] => Ok w
  | t1 :: stack =>
      match fuel with
      | O => Throw OutOfFuel
      | S fuel =>
          '(w, stack, seen) ← header_step w stack seen t1;
          header_loop fuel w stack seen
      end
  end.
Definition write_all_header (fuel : nat) (w : writer) (t : Z) : res writer :=
  w ← write_con_cell w (length w.1) VER1;
  w ← write_con_cell w (length w.1) REMAP;
  w ← header_loop fuel w [t] ∅;
  write_con_cell w (length w.1) PAMER.

(** [stack_.push_back(arg_offset, arg(c, arity - i - 1))] for [i] from 0 on. *)
Fixpoint push_offsets (n : nat) (stack : list (nat * Z)) (c : Z) (new_offset : nat)
    : res (list (nat * Z)) :=
  match n with
  | O => Ok stack
  | S n => a ← arg h c (Z.of_nat n); push_offsets n ((new_offset + n * 8, a)%nat :: stack) c new_offset
  end.
Definition write_str_cell (w : writer) (stack : list (nat * Z)) (offset : nat) (c : Z)
    : res (writer * list (nat * Z)) :=
  if is_indexed w.2 c then w ← write_remapped w offset c 0; Ok (w, stack)
  else
    f ← functor h c;
    w ← write_remapped w offset c (cell_count (length w.1));
    w ← write_con_cell w (length w.1) f;
    let arity := Z.to_nat (con_arity f) in
    let new_offset := length w.1 in
    stack ← push_offsets arity stack c new_offset;
    Ok ((w.1 ++ replicate (8 * arity) 0, w.2), stack).

(** [write_cell(bytes, offset, heap_get_untagged(index + i))] for [i] from [num_dat - n] on. *)
Fixpoint write_dat (n : nat) (bytes : buffer) (offset : nat) (index : Z) : res buffer :=
  match n with
  | O => Ok bytes
  | S n =>
      dc ← heap_get h index;
      bytes ← write_cell bytes offset dc;
      write_dat n bytes (offset + 8) (index + 1)
  end.
Definition write_big_cell (w : writer) (offset : nat) (c : Z) : res writer :=
  if is_indexed w.2 c then write_remapped w offset c 0
  else
    w ← write_remapped w offset c (cell_count (length w.1));
    let offset := length w.1 in
    let index := ptr_index c in
    big_header ← heap_get h index;
    let num_dat := Z.to_nat (dat_num_cells big_header) in
    bytes ← write_dat num_dat (w.1 ++ replicate (8 * num_dat) 0) offset index;
    Ok (bytes, w.2).

Definition write_step (w : writer) (stack : list (nat * Z)) (offset : nat) (t1 : Z)
    : res (writer * list (nat * Z)) :=
  t1 ← deref h t1;
  match cell_tag t1 with
  | CON => w ← write_con_cell w offset t1; Ok (w, stack)
  | INT => bytes ← write_cell w.1 offset t1; Ok ((bytes, w.2), stack)
  | RFW | REF => w ← write_ref_cell w offset t1; Ok (w, stack)
  | STR => write_str_cell w stack offset t1
  | BIG => w ← write_big_cell w offset t1; Ok (w, stack)
  | DAT | FWD => Ok (w, stack)
  end.
Fixpoint write_loop (fuel : nat) (w : writer) (stack : list (nat * Z)) : res writer :=
  match stack with
  | [] => Ok w
  | (offset, t1) :: stack =>
      match fuel with
      | O => Throw OutOfFuel
      | S fuel => '(w, stack) ← write_step w stack offset t1; write_loop fuel w stack
      end
  end.
Definition write (fuel : nat) (bytes : buffer) (t : Z) : res buffer :=
  w ← write_all_header fuel (bytes, ∅) t;
  let offset := length w.1 in
  bytes ← write_cell w.1 offset t;
  w ← write_loop fuel (bytes, w.2) [(offset, t)];
  Ok w.1.

End write.

(** ** Reading *)

(** What the reader changes: heap, names of variables, the table of indices, and
    [new_to_old_], which serves the messages of the integrity check. *)
Record reader := Reader {
  rd_heap : heap;
  rd_names : gmap Z (list Z);
  rd_index : indexor;
  rd_old : gmap Z Z
}.
Definition with_rd_heap (r : reader) h := Reader h (rd_names r) (rd_index r) (rd_old r).

Fixpoint read_string_loop (fuel : nat) (bytes : buffer) (offset : nat) (str : list Z) : res (list Z * nat) :=
  match fuel with
  | O => Throw OutOfFuel
  | S fuel =>
      c ← read_cell bytes offset;
      _ ← require (bool_decide (cell_tag c = INT)) (UnexpectedData c (Z.of_nat offset));
      _ ← require (is_char_chunk c) (UnexpectedData c (Z.of_nat offset));
      let str := str ++ as_char_chunk c in
      if is_last_char_chunk c then Ok (str, (offset + 8)%nat)
      else read_string_loop fuel bytes (offset + 8) str
  end.
Definition read_encoded_string (bytes : buffer) (offset : nat) : res (list Z * nat) :=
  read_string_loop (S (length bytes)) bytes offset [].

Definition read_index (bytes : buffer) (offset : nat) (r : reader) (c : Z) : res (reader * nat) :=
  '(name, offset) ← read_encoded_string bytes offset;
  match cell_tag c with
  | CON =>
      let '(h, i) := resolve_atom_index (rd_heap r) name in
      Ok (Reader h (rd_names r) (to_index (rd_index r) (con_to_atom c) i).1 (rd_old r), offset)
  | REF =>
      '(h, t) ← new_ref (rd_heap r);
      Ok (Reader h (<[ptr_index t := name]> (rd_names r))
            (to_index (rd_index r) c (ptr_index t)).1 (rd_old r), offset)
  | _ => Ok (r, offset)
  end.

(** [while (cont)] *)
Fixpoint read_header_loop (fuel : nat) (bytes : buffer) (offset : nat) (r : reader) : res (reader * nat) :=
  match fuel with
  | O => Throw OutOfFuel
  | S fuel =>
      c ← read_cell bytes offset;
      let offset := (offset + 8)%nat in
      if c =? PAMER then Ok (r, offset)
      else
        match cell_tag c with
        | REF | CON => '(r, offset) ← read_index bytes offset r c; read_header_loop fuel bytes offset r
        | _ => Throw (UnexpectedData c (Z.of_nat offset))
        end
  end.
Definition read_all_header (bytes : buffer) (offset : nat) (r : reader) : res (reader * nat) :=
  ver_t ← read_cell bytes offset;
  _ ← require (bool_decide (cell_tag ver_t = CON)) (UnexpectedData ver_t (Z.of_nat offset));
  _ ← require (ver_t =? VER1) (UnsupportedVersion ver_t);
  let offset := (offset + 8)%nat in
  remap_c ← read_cell bytes offset;
  _ ← require (bool_decide (cell_tag remap_c = CON)) (UnexpectedData remap_c (Z.of_nat offset));
  _ ← require (remap_c =? REMAP) (UnexpectedData remap_c (Z.of_nat offset));
  read_header_loop (S (length bytes)) bytes (offset + 8) r.

(** The variables of the loop over the body: [ptr_terms] (latest first), [old_new_index],
    [num_dat], [result_index] once it is set, and [used]. *)
Record body := Body {
  bd_reader : reader;
  bd_ptrs : list Z;
  bd_map : gmap Z Z;
  bd_dat : Z;
  bd_result : option Z;
  bd_used : gset Z
}.

(** One cell [c] of the body becomes a heap cell; the result is its index and whether
    its pointer has to be moved. *)
Definition new_body_cell (n offset : nat) (old_hdr : Z) (r : reader) (c : Z) : res (reader * Z * bool * Z) :=
  match cell_tag c with
  | INT => '(h, i) ← new_cell0 (rd_heap r) c true; Ok (with_rd_heap r h, i, false, 0)
  | CON =>
      if is_direct c then '(h, i) ← new_cell0 (rd_heap r) c true; Ok (with_rd_heap r h, i, false, 0)
      else
        index ← of_option (rd_index r !! con_to_atom c) (MissingIndex (con_to_atom c));
        let newcon := con_cell_index index (con_arity c) in
        '(h, i) ← new_cell0 (rd_heap r) newcon true;
        Ok (Reader h (rd_names r) (rd_index r) (<[newcon := c]> (rd_old r)), i, false, 0)
  | RFW | BIG | REF | STR =>
      let c := if bool_decide (cell_tag c = RFW) then unwatch c else c in
      '(new_addr, needs_patching) ←
        (if ptr_index c <? old_hdr then
           i ← of_option (rd_index r !! c) (MissingIndex c); Ok (i, false)
         else Ok (ptr_index c - old_hdr, true));
      let new_cell := mk_cell (cell_tag c) new_addr in
      '(h, i) ← new_cell0 (rd_heap r) new_cell true;
      Ok (Reader h (rd_names r) (rd_index r) (<[new_cell := c]> (rd_old r)), i, needs_patching, 0)
  | DAT =>
      let nc := dat_num_cells c in
      _ ← require (negb ((dat_num_bits c <? 1) || (nc =? 0))) (DatTooSmall c (Z.of_nat offset));
      _ ← require (Z.of_nat offset + nc * 8 <=? Z.of_nat n) (DatTooBig c (Z.of_nat offset) (Z.of_nat n));
      '(h, i) ← new_cell0 (rd_heap r) c true;
      Ok (with_rd_heap r h, i, false, nc - 1)
  (* no case: [new_index] stays 0 *)
  | FWD => Ok (r, 0, false, 0)
  end.

(** [used.resize(rel + 1); used[rel] = true] with [rel = heap_index - heap_start].
    Below [heap_start] the difference wraps around: one below, the new size wraps
    around again, to zero, and the bit is set beyond the end of the vector; further
    below, the new size is more than [max_size()]. *)
Definition set_used (heap_start : Z) (used : gset Z) (heap_index : Z) : res (gset Z) :=
  if heap_start <=? heap_index then Ok ({[heap_index]} ∪ used)
  else if w64 (w64 (heap_index - heap_start) + 1) =? 0 then Throw UndefinedBehaviour
  else Throw LengthError.

Definition body_step (n offset : nat) (heap_start old_hdr old_index : Z) (b : body) (c : Z) : res body :=
  if 0 <? bd_dat b then
    h ← new_dat_cell (rd_heap (bd_reader b)) c;
    Ok (Body (with_rd_heap (bd_reader b) h) (bd_ptrs b) (bd_map b) (bd_dat b - 1) (bd_result b) (bd_used b))
  else
    '(r, new_index, needs_patching, num_dat) ← new_body_cell n offset old_hdr (bd_reader b) c;
    used ← set_used heap_start (bd_used b) new_index;
    Ok (Body r (if (needs_patching : bool) then new_index :: bd_ptrs b else bd_ptrs b)
          (<[old_index := new_index]> (bd_map b)) num_dat
          (match bd_result b with None => Some new_index | Some i => Some i end)
          used).

(** [while (offset < n)].  [inl] is the early return of a lone empty list. *)
Fixpoint body_loop (fuel n offset hdr_size : nat) (heap_start : Z) (single_cell : bool) (bytes : buffer) (b : body) : res (Z + body) :=
  if (offset <? n)%nat then
    match fuel with
    | O => Throw OutOfFuel
    | S fuel =>
        c ← read_cell bytes offset;
        if single_cell && (c =? EMPTY_LIST) && negb (0 <? bd_dat b) then Ok (inl c)
        else
          b ← body_step n offset heap_start (cell_count hdr_size) (cell_count (offset - hdr_size)) b c;
          body_loop fuel n (offset + 8) hdr_size heap_start single_cell bytes b
    end
  else Ok (inr b).

(** [for (auto &tindex : ptr_terms)] *)
Definition patch_cell (old_hdr : Z) (old_new_index : gmap Z Z) (h : heap) (tindex : Z) : res heap :=
  c ← heap_get h tindex;
  let old_index := ptr_index c in
  let new_index := match old_new_index !! old_index with None => old_index + old_hdr | Some i => i end in
  heap_set h tindex (set_value c new_index).
Fixpoint patch_loop (old_hdr : Z) (old_new_index : gmap Z Z) (h : heap) (ptr_terms : list Z) : res heap :=
  match ptr_terms with
  | [] => Ok h
  | tindex :: ptr_terms =>
      h ← patch_cell old_hdr old_new_index h tindex; patch_loop old_hdr old_new_index h ptr_terms
  end.

(** The private [read]: the term, the heap cells used, and the sizes of the header in
    the buffer and on the heap. *)
Definition read_term (bytes : buffer) (n : nat) (h : heap) (names : gmap Z (list Z))
    : res (reader * Z * gset Z * nat * Z) :=
  let new_addr_base := h_size h in
  '(r, offset) ← read_all_header bytes 0 (Reader h names ∅ ∅);
  let old_hdr_size := offset in
  let new_hdr_size := h_size (rd_heap r) - new_addr_base in
  let single_cell := (offset + 8 =? n)%nat in
  l ← body_loop n n offset old_hdr_size new_addr_base single_cell bytes (Body r [] ∅ 0 None ∅);
  match l with
  | inl c => Ok (r, c, ∅, old_hdr_size, new_hdr_size)
  | inr b =>
      h ← patch_loop (cell_count old_hdr_size) (bd_map b) (rd_heap (bd_reader b)) (rev (bd_ptrs b));
      result ← heap_get h (default 0 (bd_result b));
      Ok (with_rd_heap (bd_reader b) h, result, bd_used b, old_hdr_size, new_hdr_size)
  end.

(** ** The integrity check *)

Section check.
Context (h : heap) (new_to_old : gmap Z Z) (heap_start heap_end : Z) (old_hdr_size : nat) (new_hdr_size : Z).
Context (used : gset Z).

Definition compute_old_index (heap_index : Z) : Z :=
  w64 (heap_index - heap_start - new_hdr_size + cell_count old_hdr_size).
Definition compute_old_offset (heap_index : Z) : Z := w64 (compute_old_index heap_index * 8).
Definition compute_old_cell (new_cell : Z) : Z := default new_cell (new_to_old !! new_cell).

Definition check_pointer (ptrcell heap_index : Z) : res unit :=
  let index := ptr_index ptrcell in
  require (negb ((index <? heap_start) || (heap_end <=? index)))
    (DanglingPointer (compute_old_cell ptrcell) (compute_old_offset heap_index)).

Definition check_bignum (bigcell heap_index : Z) : res unit :=
  let index := ptr_index bigcell in
  c ← heap_get h index;
  require (bool_decide (cell_tag c = DAT))
    (IllegalDat (compute_old_cell c) (compute_old_offset index) (compute_old_cell bigcell) (compute_old_offset heap_index)).

Definition check_functor_cell (strcell heap_index : Z) : res unit :=
  let index := ptr_index strcell in
  c ← heap_get h index;
  require (bool_decide (cell_tag c = CON))
    (IllegalFunctor (compute_old_cell c) (compute_old_offset index) (compute_old_cell strcell)
       (compute_old_offset heap_index)).

(** What may stand in an argument. *)
Definition is_argument (c : Z) : bool :=
  match cell_tag c with
  | REF | RFW | INT | STR | BIG => true
  | CON => con_arity c =? 0
  | DAT | FWD => false
  end.
(** [for (i = 0; i < n; i++)], with [n] arguments to go, from [index] on. *)
Fixpoint check_args (n : nat) (strcell heap_index index : Z) : res unit :=
  match n with
  | O => Ok ()
  | S n =>
      c ← heap_get h index;
      _ ← require (is_argument c)
            (ErroneousArgument (compute_old_cell c) (compute_old_offset index) (compute_old_cell strcell)
               (compute_old_offset heap_index));
      check_args n strcell heap_index (index + 1)
  end.
Definition check_functor_args (strcell heap_index : Z) : res unit :=
  let index := ptr_index strcell in
  c ← heap_get h index;
  _ ← require (negb (heap_end <=? index + con_arity c))
        (MissingArgument (compute_old_cell c) (compute_old_offset index) (compute_old_cell strcell)
           (compute_old_offset heap_index));
  check_args (Z.to_nat (con_arity c)) strcell heap_index (index + 1).

(** [while (c.tag().is_ref())] *)
Fixpoint ref_chain_loop (fuel : nat) (checked visit : gset Z) (refcell heap_index index c : Z) : res (gset Z) :=
  if is_ref (cell_tag c) then
    match fuel with
    | O => Throw OutOfFuel
    | S fuel =>
        _ ← check_pointer c index;
        let visit := {[index]} ∪ visit in
        if bool_decide (index ∈ checked) || (ptr_index c =? index) then Ok (visit ∪ checked)
        else
          _ ← require (negb (bool_decide (ptr_index c ∈ visit)))
                (CyclicReference (compute_old_cell refcell) (compute_old_offset heap_index));
          let index := ptr_index c in
          c ← heap_get h index;
          ref_chain_loop fuel checked visit refcell heap_index index c
    end
  else Ok checked.
Definition check_ref_chain (checked : gset Z) (refcell heap_index : Z) : res (gset Z) :=
  c ← heap_get h heap_index;
  ref_chain_loop (S (Z.to_nat (heap_end - heap_start))) checked ∅ refcell heap_index heap_index c.

(** One heap cell; the result is what is checked now and where to go on. *)
Definition check_cell (checked : gset Z) (i : Z) : res (gset Z * Z) :=
  if bool_decide (i ∈ checked) || negb (bool_decide (i ∈ used)) then Ok (checked, i + 1)
  else
    c ← heap_get h i;
    match cell_tag c with
    | DAT => Ok (checked, i + (dat_num_cells c - 1) + 1)
    | BIG => _ ← check_pointer c i; _ ← check_bignum c i; Ok (checked, i + 1)
    | STR => _ ← check_pointer c i; _ ← check_functor_cell c i; _ ← check_functor_args c i; Ok (checked, i + 1)
    | REF | RFW => checked ← check_ref_chain checked c i; Ok (checked, i + 1)
    | _ => Ok (checked, i + 1)
    end.
Fixpoint check_loop (fuel : nat) (checked : gset Z) (i : Z) : res unit :=
  if i <? heap_end then
    match fuel with
    | O => Throw OutOfFuel
    | S fuel => '(checked, i) ← check_cell checked i; check_loop fuel checked i
    end
  else Ok ().
Definition integrity_check : res unit :=
  check_loop (S (Z.to_nat (heap_end - heap_start))) ∅ heap_start.

End check.

(** [read(bytes, n)] *)
Definition read (bytes : buffer) (n : nat) (h : heap) (names : gmap Z (list Z)) : res (heap * gmap Z (list Z) * Z) :=
  let heap_start := h_size h in
  '(r, t, used, old_hdr_size, new_hdr_size) ← read_term bytes n h names;
  let heap_end := h_size (rd_heap r) in
  _ ← integrity_check (rd_heap r) (rd_old r) heap_start heap_end old_hdr_size new_hdr_size used;
  Ok (rd_heap r, rd_names r, t).
