(* ===== verification/ReadSafe.v ===== *)
(** * Reading terms from untrusted bytes

    Whatever the buffer holds, [read] only appends to the heap, and when it returns, the
    cells it made have passed the integrity check: structures and big integers point to a
    functor with its arguments and to a header, chains of references end.  The words of
    big integers are not checked, and a pointer may lead into them. *)

From S2P Require Import Prelude Bits Cells Heap HeapGrow Bigs Serializer HeapSpec.

(** ** The header *)

(** No cells beyond the size. *)
Definition heap_tight (h : heap) : Prop := forall i, h_size h <= i -> h_cells h !! i = None.

Lemma tight_appended h h' i c : heap_tight h -> appended h h' i c -> heap_tight h'.
Proof. intros Ht [_ [A1 A2] _ O] j Hj. rewrite O by lia. apply Ht. lia. Qed.

Definition keeps_tight (h h' : heap) : Prop := grows h h' /\ (heap_tight h -> heap_tight h').

Lemma read_index_grows bytes offset r c r' offset' :
  heap_inv (rd_heap r) -> read_index bytes offset r c = Ok (r', offset') -> keeps_tight (rd_heap r) (rd_heap r').
Proof.
  intros Hi H. unfold read_index in H. apply bind_Ok in H as ([name off] & _ & H).
  destruct (cell_tag c); try (injection H as <- _; split; [by apply grows_refl|done]).
  - apply bind_Ok in H as ([h t] & Hn & H). injection H as <- _. cbn.
    apply new_ref_appended in Hn as (i & _ & Ha); [|done]. split; [apply Ha|]. intros. by eapply tight_appended.
  - unfold resolve_atom_index in H. destruct (_ !! name); injection H as <- _; cbn; by split.
Qed.

Lemma header_loop_grows fuel bytes offset r r' offset' :
  heap_inv (rd_heap r) -> read_header_loop fuel bytes offset r = Ok (r', offset') -> keeps_tight (rd_heap r) (rd_heap r').
Proof.
  revert offset r. induction fuel as [|fuel IH]; intros offset r Hi H; [done|]. cbn [read_header_loop] in H.
  apply bind_Ok in H as (c & _ & H). destruct (c =? PAMER).
  { injection H as <- _. split; [by apply grows_refl|done]. }
  assert (Hk : forall m, (m ≫= (fun p : reader * nat => let '(r, offset) := p in read_header_loop fuel bytes offset r)) = Ok (r', offset') ->
     (forall r1 o, m = Ok (r1, o) -> keeps_tight (rd_heap r) (rd_heap r1)) -> keeps_tight (rd_heap r) (rd_heap r')).
  { intros m ([r1 o] & Hm & Hl)%bind_Ok Hg. destruct (Hg _ _ Hm) as [Hg1 Ht1].
    destruct (IH o r1 ltac:(apply Hg1) Hl) as [Hg2 Ht2]. split; [by eapply grows_trans|auto]. }
  destruct (cell_tag c); try done; (eapply Hk; [done|]); intros r1 o Hr; by eapply read_index_grows.
Qed.

Lemma header_grows bytes offset r r' offset' :
  heap_inv (rd_heap r) -> read_all_header bytes offset r = Ok (r', offset') -> keeps_tight (rd_heap r) (rd_heap r').
Proof.
  intros Hi H. unfold read_all_header in H.
  apply bind_Ok in H as (v & _ & (? & _ & (? & _ & (m & _ & (? & _ & (? & _ & H)%bind_Ok)%bind_Ok)%bind_Ok)%bind_Ok)%bind_Ok).
  by eapply header_loop_grows.
Qed.

(** ** The body *)

(** The first cell from [a] on: a functor that does not fit at the end of a block goes
    to the next one. *)
Definition next_cell (h : heap) (a i : Z) : Prop :=
  a <= i /\ is_Some (h_cells h !! i) /\ forall j, a <= j < i -> h_cells h !! j = None.

Lemma next_cell_det h a i i' : next_cell h a i -> next_cell h a i' -> i = i'.
Proof.
  intros (H1 & [c Hc] & H3) (G1 & [c' Hc'] & G3). destruct (Z.lt_total i i') as [?|[?|?]]; [|done|].
  - by rewrite G3 in Hc by lia.
  - by rewrite H3 in Hc' by lia.
Qed.

Lemma next_cell_same h h' a i :
  (forall j, is_Some (h_cells h' !! j) <-> is_Some (h_cells h !! j)) -> next_cell h a i -> next_cell h' a i.
Proof.
  intros He (H1 & H2 & H3). split; [done|]. split; [by apply He|]. intros j Hj.
  apply eq_None_not_Some. rewrite He. apply eq_None_not_Some. by apply H3.
Qed.

Lemma next_cell_appended h h' a i j c :
  heap_tight h -> appended h h' j c -> next_cell h a i -> next_cell h' a i.
Proof.
  intros Ht [G [A1 A2] Hc O] (H1 & [d Hd] & H3).
  assert (i < h_size h) by (destruct (decide (i < h_size h)); [done|]; by rewrite Ht in Hd by lia).
  split; [done|]. split; [rewrite O by lia; by eexists|]. intros k Hk. rewrite O by lia. by apply H3.
Qed.

(** The cells of the body: the first one, and behind each the next, which is behind its
    words if the cell is the header of a big integer. *)
Definition cell_width (c : Z) : Z :=
  if bool_decide (cell_tag c = DAT) then dat_num_cells c else 1.
Inductive body_cell (h : heap) (first : Z) : Z -> Prop :=
  | body_first i : next_cell h first i -> body_cell h first i
  | body_next i c i' : body_cell h first i -> h_cells h !! i = Some c ->
      next_cell h (i + cell_width c) i' -> body_cell h first i'.

(** What the loop over the body keeps: only the cells from [lo] on are used, the
    pointers to move are pointer cells, and the words behind the header of a big integer
    are not used. *)
Record body_ok (lo first : Z) (b : body) : Prop := BodyOk {
  bo_inv : heap_inv (rd_heap (bd_reader b));
  bo_dat : 0 <= bd_dat b;
  bo_used : forall i, i ∈ bd_used b ->
    lo <= i < h_size (rd_heap (bd_reader b)) /\ is_Some (h_cells (rd_heap (bd_reader b)) !! i);
  bo_ptrs : forall i, i ∈ bd_ptrs b -> i ∈ bd_used b /\
    forall c, h_cells (rd_heap (bd_reader b)) !! i = Some c -> cell_tag c <> DAT;
  bo_words : forall i c, i ∈ bd_used b -> h_cells (rd_heap (bd_reader b)) !! i = Some c -> cell_tag c = DAT ->
    i + dat_num_cells c <= h_size (rd_heap (bd_reader b)) + bd_dat b /\
    forall j, i < j < i + dat_num_cells c -> j ∉ bd_used b;
  bo_result : match bd_result b with
    | Some i => i ∈ bd_used b /\ next_cell (rd_heap (bd_reader b)) first i
    | None => bd_used b = ∅ /\ first = h_size (rd_heap (bd_reader b)) + bd_dat b
    end;
  bo_tight : heap_tight (rd_heap (bd_reader b));
  bo_next : forall i c, i ∈ bd_used b -> h_cells (rd_heap (bd_reader b)) !! i = Some c ->
    (exists i', i' ∈ bd_used b /\ next_cell (rd_heap (bd_reader b)) (i + cell_width c) i') \/
    i + cell_width c = h_size (rd_heap (bd_reader b)) + bd_dat b
}.

(** Every cell of the body is in use. *)
Lemma body_cells_used lo first b h :
  body_ok lo first b -> h_size h = h_size (rd_heap (bd_reader b)) ->
  (forall i, is_Some (h_cells (rd_heap (bd_reader b)) !! i) <-> is_Some (h_cells h !! i)) ->
  (forall i c, i ∈ bd_used b -> h_cells h !! i = Some c ->
     exists c', h_cells (rd_heap (bd_reader b)) !! i = Some c' /\ cell_width c' = cell_width c) ->
  forall i, body_cell h first i -> i ∈ bd_used b.
Proof.
  intros Hb Hs Hdom Hw i. pose proof (bo_dat _ _ _ Hb) as Hd.
  assert (Hend : forall a i, h_size (rd_heap (bd_reader b)) + bd_dat b <= a -> next_cell h a i -> False).
  { intros a k Ha (H1 & H2 & _). apply Hdom in H2 as [d H2]. by rewrite (bo_tight _ _ _ Hb) in H2 by lia. }
  induction 1 as [i Hf|i c i' Hi IH Hc Hn].
  - pose proof (bo_result _ _ _ Hb) as R. destruct (bd_result b) as [i0|].
    + destruct R as [Hu Hn]. apply (next_cell_same h (rd_heap (bd_reader b))) in Hf; [|done].
      by rewrite (next_cell_det _ _ _ _ Hf Hn).
    + destruct R as [_ R]. destruct (Hend first i); [lia|done].
  - destruct (Hw i c IH Hc) as (c' & Hc' & He).
    destruct (bo_next _ _ _ Hb i c' IH Hc') as [(k & Hk & Hnk)|Hl]; rewrite He in *.
    + apply (next_cell_same h (rd_heap (bd_reader b))) in Hn; [|done]. by rewrite (next_cell_det _ _ _ _ Hn Hnk).
    + destruct (Hend (i + cell_width c) i'); [lia|done].
Qed.

(** A new cell in use at the end. *)
Lemma body_ok_used lo first b r i c k p ptr m :
  body_ok lo first b -> lo <= h_size (rd_heap (bd_reader b)) -> bd_dat b = 0 ->
  appended (rd_heap (bd_reader b)) (rd_heap r) i c ->
  k = cell_width c - 1 /\ 0 <= k ->
  (ptr = bd_ptrs b \/ ptr = i :: bd_ptrs b /\ cell_tag c <> DAT) -> p = {[i]} ∪ bd_used b ->
  body_ok lo first (Body r ptr m k (match bd_result b with None => Some i | Some i => Some i end) p).
Proof.
  intros [I D U P W R T N] Hlo Hd Ha [Hk Hk0] Hp ->. pose proof Ha as [G [A1 A2] Hc O].
  assert (Hold : forall j, j ∈ bd_used b -> j <> i) by (intros j Hj; destruct (U j Hj); lia).
  assert (Hnew : forall a, a = h_size (rd_heap (bd_reader b)) -> next_cell (rd_heap r) a i).
  { intros a ->. split; [done|]. split; [by rewrite Hc|]. intros j Hj. rewrite O by lia. apply T. lia. }
  split; cbn.
  - apply G.
  - done.
  - intros j [->%elem_of_singleton|Hj]%elem_of_union; [split; [lia|by rewrite Hc]|].
    destruct (U j Hj) as [? ?]. split; [lia|]. rewrite O by by apply Hold. done.
  - assert (Hb : forall j, j ∈ bd_ptrs b -> j ∈ {[i]} ∪ bd_used b /\
      forall c', h_cells (rd_heap r) !! j = Some c' -> cell_tag c' <> DAT).
    { intros j Hj. destruct (P j Hj) as [Hu Ht]. split; [set_solver|]. rewrite O by by apply Hold. done. }
    destruct Hp as [->|[-> Ht]]; [done|]. intros j [->|Hj]%elem_of_cons; [|by apply Hb].
    split; [set_solver|]. rewrite Hc. by intros c' [= <-].
  - intros j c' [->%elem_of_singleton|Hj]%elem_of_union Hc' Ht.
    + rewrite Hc in Hc'. injection Hc' as <-. unfold cell_width in Hk. rewrite bool_decide_eq_true_2 in Hk by done.
      split; [lia|]. intros j Hj [->%elem_of_singleton|Hu]%elem_of_union; [lia|]. destruct (U j Hu). lia.
    + rewrite O in Hc' by by apply Hold. destruct (W j c' Hj Hc' Ht) as [Hw Hn].
      split; [lia|]. intros j' Hj' [->%elem_of_singleton|Hu]%elem_of_union; [lia|]. by apply (Hn j').
  - destruct (bd_result b) as [i0|].
    + destruct R as [? ?]. split; [set_solver|by eapply next_cell_appended].
    + destruct R as [_ ->]. split; [set_solver|by apply Hnew; lia].
  - by eapply tight_appended.
  - intros j c' [->%elem_of_singleton|Hj]%elem_of_union Hc'; [rewrite Hc in Hc'; injection Hc' as <-; right; lia|].
    left. rewrite O in Hc' by by apply Hold. destruct (N j c' Hj Hc') as [(i2 & Hku & Hn)|E].
    + exists i2. split; [set_solver|by eapply next_cell_appended].
    + exists i. split; [set_solver|]. apply Hnew. lia.
Qed.

Lemma body_ok_word lo first b r c :
  body_ok lo first b -> 0 < bd_dat b ->
  appended (rd_heap (bd_reader b)) (rd_heap r) (h_size (rd_heap (bd_reader b))) c ->
  body_ok lo first (Body r (bd_ptrs b) (bd_map b) (bd_dat b - 1) (bd_result b) (bd_used b)).
Proof.
  intros [I D U P W R T N] Hd Ha. pose proof Ha as [G [A1 A2] Hc O].
  assert (Hold : forall j, j ∈ bd_used b -> j <> h_size (rd_heap (bd_reader b))) by (intros j Hj; destruct (U j Hj); lia).
  split; cbn.
  - apply G.
  - lia.
  - intros j Hj. destruct (U j Hj). split; [lia|]. by rewrite O by by apply Hold.
  - intros j Hj. destruct (P j Hj) as [Hu Ht]. split; [done|]. by rewrite O by by apply Hold.
  - intros j c' Hj. rewrite O by by apply Hold. intros Hc' Ht. destruct (W j c' Hj Hc' Ht). split; [lia|done].
  - destruct (bd_result b) as [i0|]; [destruct R; split; [done|by eapply next_cell_appended]|].
    destruct R. split; [done|lia].
  - by eapply tight_appended.
  - intros j c' Hj. rewrite O by by apply Hold. intros Hc'. destruct (N j c' Hj Hc') as [(i2 & Hku & Hn)|E]; [left|right; lia].
    exists i2. split; [done|by eapply next_cell_appended].
Qed.

Lemma pointer_tag t : t = RFW \/ t = BIG \/ t = REF \/ t = STR -> t <> DAT.
Proof. intros [-> |[-> |[-> | ->]]]; done. Qed.

Lemma plain_width c : cell_tag c <> DAT -> 0 = cell_width c - 1 /\ 0 <= 0.
Proof. intros. unfold cell_width. by rewrite bool_decide_eq_false_2. Qed.

Lemma new_body_cell_ok n offset old_hdr r c r' i ptr k :
  heap_inv (rd_heap r) -> new_body_cell n offset old_hdr r c = Ok (r', i, ptr, k) ->
  (cell_tag c = FWD /\ r' = r /\ i = 0 /\ ptr = false /\ k = 0) \/
  exists c', appended (rd_heap r) (rd_heap r') i c' /\ (ptr = true -> cell_tag c' <> DAT) /\
    k = cell_width c' - 1 /\ 0 <= k.
Proof.
  intros Hi H. unfold new_body_cell in H.
  assert (Hptr : forall c1 x, (cell_tag c1 = REF \/ cell_tag c1 = BIG \/ cell_tag c1 = STR) ->
    ('(new_addr, needs_patching) ← x;
     let new_cell := mk_cell (cell_tag c1) new_addr in
     '(h, i) ← new_cell0 (rd_heap r) new_cell true;
     Ok (Reader h (rd_names r) (rd_index r) (<[new_cell := c1]> (rd_old r)), i, needs_patching, 0)) = Ok (r', i, ptr, k) ->
    exists c', appended (rd_heap r) (rd_heap r') i c' /\ (ptr = true -> cell_tag c' <> DAT) /\
      k = cell_width c' - 1 /\ 0 <= k).
  { intros c1 x Ht ([new_addr pp] & _ & ([h j] & Hn & H1)%bind_Ok)%bind_Ok. injection H1 as <- <- <- <-.
    exists (mk_cell (cell_tag c1) new_addr). cbn. split; [by eapply new_cell0_appended|].
    assert (Hd : cell_tag (mk_cell (cell_tag c1) new_addr) <> DAT) by (rewrite cell_tag_mk; apply pointer_tag; tauto).
    split; [done|by apply plain_width]. }
  destruct (cell_tag c) eqn:Ht; cbn in H.
  - right. eapply (Hptr c); [by left|exact H].
  - right. apply (Hptr (unwatch c)) in H; [done|]. left. apply cell_tag_mk.
  - right. apply bind_Ok in H as ([h j] & Hn & H). injection H as <- <- <- <-. exists c.
    split; [by eapply new_cell0_appended|]. split; [done|]. apply plain_width. by rewrite Ht.
  - right. eapply (Hptr c); [by right; left|exact H].
  - right. destruct (is_direct c).
    + apply bind_Ok in H as ([h j] & Hn & H). injection H as <- <- <- <-. exists c.
      split; [by eapply new_cell0_appended|]. split; [done|]. apply plain_width. by rewrite Ht.
    + apply bind_Ok in H as (x & _ & ([h j] & Hn & H)%bind_Ok). injection H as <- <- <- <-.
      exists (con_cell_index x (con_arity c)). split; [by eapply new_cell0_appended|].
      split; [done|]. apply plain_width. unfold con_cell_index. rewrite set_value_mk, cell_tag_mk. done.
  - right. eapply (Hptr c); [by right; right|exact H].
  - right. apply bind_Ok in H as (u & Hr & (u2 & _ & ([h j] & Hn & H)%bind_Ok)%bind_Ok). injection H as <- <- <- <-.
    exists c. split; [by eapply new_cell0_appended|]. split; [done|].
    unfold cell_width. rewrite bool_decide_eq_true_2 by done. split; [done|].
    apply require_Ok, negb_true_iff, orb_false_iff in Hr as [Hr _]. apply Z.ltb_ge in Hr.
    unfold dat_num_cells, num_half_cells.
    assert (1 <= (dat_num_bits c + 32 - 1) / 32) by (apply Z.div_le_lower_bound; lia).
    assert (1 <= (1 + (dat_num_bits c + 32 - 1) / 32 + 1) / 2) by (apply Z.div_le_lower_bound; lia). lia.
  - left. injection H as <- <- <- <-. done.
Qed.

Lemma body_loop_ok lo first fuel n offset hdr single bytes b l :
  0 < lo -> lo <= h_size (rd_heap (bd_reader b)) -> body_ok lo first b ->
  body_loop fuel n offset hdr lo single bytes b = Ok l ->
  match l with
  | inl c => c = EMPTY_LIST
  | inr b' => body_ok lo first b' /\ grows (rd_heap (bd_reader b)) (rd_heap (bd_reader b'))
  end.
Proof.
  intros Hlo. revert offset b. induction fuel as [|fuel IH]; intros offset b Hs Hb H; cbn [body_loop] in H.
  { destruct (offset <? n)%nat; [done|]. injection H as <-. split; [done|]. apply grows_refl, Hb. }
  destruct (offset <? n)%nat; [|injection H as <-; split; [done|]; apply grows_refl, Hb].
  apply bind_Ok in H as (c & _ & H).
  destruct (single && (c =? EMPTY_LIST) && negb (0 <? bd_dat b)) eqn:Hsg.
  { injection H as <-. apply andb_true_iff in Hsg as [[_ Hc]%andb_true_iff _]. by apply Z.eqb_eq. }
  apply bind_Ok in H as (b1 & Hstep & H).
  assert (Hb1 : body_ok lo first b1 /\ grows (rd_heap (bd_reader b)) (rd_heap (bd_reader b1))).
  { unfold body_step in Hstep. destruct (Z.ltb_spec 0 (bd_dat b)).
    - apply bind_Ok in Hstep as (h & Hn & Hstep). injection Hstep as <-.
      apply new_dat_appended in Hn; [|apply Hb]. split; [by eapply body_ok_word|apply Hn].
    - apply bind_Ok in Hstep as ([[[r i] pp] k] & Hn & (used & Hu & Hstep)%bind_Ok). injection Hstep as <-.
      unfold set_used in Hu. destruct (Z.leb_spec lo i) as [Hr|_]; [injection Hu as <-|by destruct (w64 (w64 (i - lo) + 1) =? 0)].
      apply new_body_cell_ok in Hn as [(_ & _ & -> & _)|(c' & Ha & Hp & Hk)]; [lia| |apply Hb].
      split; [|apply Ha]. eapply body_ok_used; [done|done| |done|done| |done].
      + pose proof (bo_dat _ _ _ Hb). lia.
      + destruct pp; [right; split; [done|by apply Hp]|by left]. }
  destruct Hb1 as [Hb1 Hg]. pose proof (gr_size _ _ Hg).
  specialize (IH (offset + 8)%nat b1 ltac:(lia) Hb1 H). destruct l as [c'|b']; [done|].
  destruct IH as [? ?]. split; [done|by eapply grows_trans].
Qed.

(** ** Moving the pointers *)

Lemma set_value_tag c v : cell_tag (set_value c v) = cell_tag c.
Proof.
  unfold cell_tag, set_value. f_equal. apply Z.bits_inj'. intros j Hj. change 7 with (Z.ones 3).
  rewrite !Z.land_spec, Z.lor_spec, Z.land_spec, wrap_spec, Z.shiftl_spec, Z.testbit_ones by lia.
  rewrite (proj2 (Z.leb_le 0 j)) by lia. cbn. destruct (Z.ltb_spec j 3); [|by rewrite !andb_false_r].
  rewrite (Z.testbit_neg_r v) by lia. cbn. by rewrite !andb_true_r.
Qed.

Lemma patch_ok hdr m lo h ptrs h' :
  (forall i, i ∈ ptrs -> lo <= i) -> patch_loop hdr m h ptrs = Ok h' ->
  h_size h' = h_size h /\ h_blocks h' = h_blocks h /\
  (forall i, i ∉ ptrs -> h_cells h' !! i = h_cells h !! i) /\
  (forall i, cell_tag <$> h_cells h' !! i = cell_tag <$> h_cells h !! i).
Proof.
  revert h. induction ptrs as [|x ptrs IH]; intros h Hlo H; cbn [patch_loop] in H.
  { injection H as <-. done. }
  apply bind_Ok in H as (h1 & Hp & H). unfold patch_cell in Hp.
  apply bind_Ok in Hp as (c & Hc & Hp). unfold heap_set in Hp. apply bind_Ok in Hp as (u & _ & Hp).
  apply heap_get_inv in Hc.
  injection Hp as <-. apply IH in H as (Hs & Hb & Ho & Ht); [|intros i Hi; apply Hlo; by right].
  cbn in Hs, Hb, Ho, Ht. split_and!; [done|done| |].
  - intros i Hi. rewrite Ho by (intros Hin; apply Hi; by right). apply lookup_insert_ne. intros ->. apply Hi. by left.
  - intros i. rewrite Ht. destruct (decide (i = x)) as [->|Hne]; [|by rewrite lookup_insert_ne].
    rewrite lookup_insert_eq, Hc. cbn. by rewrite set_value_tag.
Qed.

(** Moving the pointers leaves the old cells and the headers alone. *)
Lemma patched_heap h r0 b hdr m h2 first :
  body_ok (h_size h) first b -> grows h (rd_heap r0) -> grows (rd_heap r0) (rd_heap (bd_reader b)) ->
  patch_loop hdr m (rd_heap (bd_reader b)) (rev (bd_ptrs b)) = Ok h2 ->
  grows h h2 /\ h_size h2 = h_size (rd_heap (bd_reader b)) /\
  (forall i c, i ∈ bd_used b -> h_cells h2 !! i = Some c ->
     exists c', h_cells (rd_heap (bd_reader b)) !! i = Some c' /\ cell_width c' = cell_width c) /\
  (forall i c, i ∈ bd_used b -> h_cells h2 !! i = Some c -> cell_tag c = DAT ->
     forall j, i < j < i + dat_num_cells c -> j ∉ bd_used b) /\
  (forall i, is_Some (h_cells (rd_heap (bd_reader b)) !! i) <-> is_Some (h_cells h2 !! i)).
Proof.
  intros [I D U P W R T N] Hh Hg Hp. apply (patch_ok _ _ (h_size h)) in Hp as (Hs & Hbl & Ho & Ht).
  2: { intros i Hin. rewrite elem_of_rev in Hin. apply P in Hin as [Hin _]. apply U in Hin. lia. }
  assert (Hold : forall i c, h_cells h2 !! i = Some c -> exists c',
    h_cells (rd_heap (bd_reader b)) !! i = Some c' /\ cell_tag c' = cell_tag c /\ (cell_tag c = DAT -> c' = c)).
  { intros i c Hc. pose proof (Ht i) as Hti. rewrite Hc in Hti. cbn in Hti. symmetry in Hti.
    apply fmap_Some in Hti as (c' & Hc' & Htt). exists c'. split; [done|]. split; [done|]. intros Hd.
    rewrite Ho in Hc; [congruence|]. intros Hin. rewrite elem_of_rev in Hin. apply P in Hin as [_ Hn].
    apply (Hn c' Hc'). congruence. }
  pose proof (grows_trans _ _ _ Hh Hg) as [I2 S2 C2]. split; [|split; [done|split; [|split]]].
  - split; [unfold heap_inv in *; by rewrite Hs, Hbl|lia|].
    intros i Hlt. rewrite Ho; [by apply C2|]. intros Hin. rewrite elem_of_rev in Hin. apply P in Hin as [Hin _].
    apply U in Hin. lia.
  - intros i c Hin Hc. destruct (Hold i c Hc) as (c' & Hc' & Htt & Hd). exists c'. split; [done|].
    unfold cell_width. rewrite Htt. case_bool_decide; [|done]. by rewrite Hd.
  - intros i c Hin Hc Hd. destruct (Hold i c Hc) as (c' & Hc' & Htt & He). rewrite (He Hd) in Hc'.
    by apply (W i c Hin Hc' Hd).
  - intros i. rewrite <-!(fmap_is_Some cell_tag). by rewrite Ht.
Qed.

(** ** What the integrity check establishes *)

(** A chain of references within the new cells that ends. *)
Inductive chain (h : heap) (lo : Z) : Z -> Prop :=
  | chain_value c : is_ref (cell_tag c) = false -> chain h lo c
  | chain_var c c' : is_ref (cell_tag c) = true -> lo <= ptr_index c < h_size h ->
      heap_get h (ptr_index c) = Ok c' -> is_ref (cell_tag c') = true -> ptr_index c' = ptr_index c -> chain h lo c
  | chain_ref c c' : is_ref (cell_tag c) = true -> lo <= ptr_index c < h_size h ->
      heap_get h (ptr_index c) = Ok c' -> chain h lo c' -> chain h lo c.

(** A cell that may be used: [deref], [functor] and [arg] find what they expect. *)
Definition sound (h : heap) (lo : Z) (c : Z) : Prop :=
  match cell_tag c with
  | REF | RFW => chain h lo c
  | STR => lo <= ptr_index c /\
      exists f, h_cells h !! ptr_index c = Some f /\ cell_tag f = CON /\ ptr_index c + con_arity f < h_size h /\
        forall k, 0 <= k < con_arity f -> exists a, h_cells h !! (ptr_index c + 1 + k) = Some a /\ is_argument a = true
  | BIG => lo <= ptr_index c < h_size h /\ exists d, h_cells h !! ptr_index c = Some d /\ cell_tag d = DAT
  | _ => True
  end.

Lemma chain_derefs h lo c : chain h lo c -> exists n d, derefs h c n d /\ (is_ref (cell_tag d) = true -> lo <= ptr_index d < h_size h).
Proof.
  induction 1 as [c Hr|c c' Hr Hi Hg Hr' Hp|c c' Hr Hi Hg Hc IH].
  - exists 0%nat, c. split; [by constructor|congruence].
  - destruct (decide (c' = c)) as [->|Hne].
    + exists 0%nat, c. split; [by constructor|done].
    + exists 1%nat, c'. split; [|by rewrite Hp]. eapply derefs_step; [done|done|done|]. constructor; [done|]. by rewrite Hp.
  - destruct IH as (n & d & Hd & Hin). destruct (decide (c' = c)) as [->|Hne]; [by exists n, d|].
    exists (S n), d. split; [|done]. by eapply derefs_step.
Qed.

Section check.
Context (h : heap) (old : gmap Z Z) (lo : Z) (hdr : nat) (hdr' : Z) (used : gset Z).
Let hi := h_size h.
Hypothesis Hused : forall i, i ∈ used -> lo <= i < hi.
Hypothesis Hwords : forall i c, i ∈ used -> h_cells h !! i = Some c -> cell_tag c = DAT ->
  forall j, i < j < i + dat_num_cells c -> j ∉ used.

Definition good_at (i : Z) : Prop := exists c, heap_get h i = Ok c /\ is_ref (cell_tag c) = true /\ chain h lo c.

Lemma check_pointer_ok c i u :
  check_pointer old lo hi hdr hdr' c i = Ok u -> lo <= ptr_index c < hi.
Proof.
  unfold check_pointer. intros H. apply require_Ok, negb_true_iff, orb_false_iff in H as [H1 H2].
  apply Z.ltb_ge in H1. apply Z.leb_gt in H2. lia.
Qed.

Lemma ref_chain_ok fuel checked visit r0 i0 i c res :
  (forall j, j ∈ checked -> good_at j) -> heap_get h i = Ok c ->
  (chain h lo c -> forall j, j ∈ visit -> good_at j) ->
  ref_chain_loop h old lo hi hdr hdr' fuel checked visit r0 i0 i c = Ok res ->
  chain h lo c /\ forall j, j ∈ res -> good_at j.
Proof.
  revert visit i c. induction fuel as [|fuel IH]; intros visit i c Hck Hget Hv H; cbn [ref_chain_loop] in H.
  { destruct (is_ref (cell_tag c)) eqn:Hr; [done|]. injection H as <-. split; [by constructor|done]. }
  destruct (is_ref (cell_tag c)) eqn:Hr; [|injection H as <-; split; [by constructor|done]].
  apply bind_Ok in H as (u & Hp%check_pointer_ok & H).
  assert (Hv' : chain h lo c -> forall j, j ∈ {[i]} ∪ visit -> good_at j).
  { intros Hch j [->%elem_of_singleton|Hj]%elem_of_union; [by exists c|by apply Hv]. }
  destruct (bool_decide (i ∈ checked) || (ptr_index c =? i)) eqn:Hend.
  - injection H as <-. assert (Hch : chain h lo c).
    { apply orb_true_iff in Hend as [Hin%bool_decide_eq_true|He%Z.eqb_eq]; [|].
      { destruct (Hck i Hin) as (c1 & Hc1 & _ & ?). congruence. }
      eapply chain_var; [done|done|by rewrite He|done|done]. }
    split; [done|]. intros j [Hj|Hj]%elem_of_union; [by apply Hv'|by apply Hck].
  - apply bind_Ok in H as (u2 & _ & (c' & Hc' & H)%bind_Ok).
    destruct (IH ({[i]} ∪ visit) (ptr_index c) c' Hck Hc') as [Hch Hres]; [|exact H|].
    + intros Hch. apply Hv'. by eapply chain_ref.
    + split; [by eapply chain_ref|done].
Qed.

Lemma check_args_ok n c i index u :
  check_args h old lo hdr hdr' n c i index = Ok u ->
  forall k, 0 <= k < Z.of_nat n -> exists a, h_cells h !! (index + k) = Some a /\ is_argument a = true.
Proof.
  revert index. induction n as [|n IH]; intros index H k Hk; [lia|]. cbn [check_args] in H.
  apply bind_Ok in H as (a & Ha%heap_get_inv & (u2 & Hr%require_Ok & H)%bind_Ok).
  destruct (decide (k = 0)) as [->|]; [exists a; by rewrite Z.add_0_r|].
  replace (index + k) with (index + 1 + (k - 1)) by lia. apply (IH _ H). lia.
Qed.

Definition sound_at (i : Z) : Prop := exists c, h_cells h !! i = Some c /\ sound h lo c.

Lemma check_cell_ok checked i checked' i' :
  (forall j, j ∈ checked -> good_at j) ->
  check_cell h old lo hi hdr hdr' used checked i = Ok (checked', i') ->
  (forall j, j ∈ checked' -> good_at j) /\ i < i' /\ (forall j, i <= j < i' -> j ∈ used -> sound_at j) \/
  (forall j, j ∈ checked' -> good_at j) /\ i' <= i /\ (i ∈ used -> sound_at i).
Proof.
  intros Hck H. unfold check_cell in H.
  assert (Hone : (i ∈ used -> sound_at i) -> forall j, i <= j < i + 1 -> j ∈ used -> sound_at j).
  { intros Hi j Hj Hu. assert (j = i) as -> by lia. by apply Hi. }
  destruct (bool_decide (i ∈ checked) || negb (bool_decide (i ∈ used))) eqn:Hskip.
  { injection H as <- <-. left. split; [done|]. split; [lia|]. apply Hone. intros Hu.
    rewrite (bool_decide_eq_true_2 _ Hu), orb_false_r in Hskip. apply bool_decide_eq_true in Hskip.
    destruct (Hck i Hskip) as (c & Hc%heap_get_inv & Hr & Hch). exists c. split; [done|].
    unfold sound. apply is_ref_true in Hr as [-> | ->]; done. }
  apply bind_Ok in H as (c & Hc & H). pose proof Hc as Hci%heap_get_inv.
  assert (Hplain : sound h lo c -> i ∈ used -> sound_at i) by (intros Hs _; by exists c).
  destruct (cell_tag c) eqn:Ht.
  - apply bind_Ok in H as (ck & Hch & H). injection H as <- <-. left.
    unfold check_ref_chain in Hch. rewrite Hc, Ok_bind in Hch.
    apply ref_chain_ok in Hch as [Hch Hck']; [|done|done|set_solver].
    split; [done|]. split; [lia|]. apply Hone, Hplain. unfold sound. by rewrite Ht.
  - apply bind_Ok in H as (ck & Hch & H). injection H as <- <-. left.
    unfold check_ref_chain in Hch. rewrite Hc, Ok_bind in Hch.
    apply ref_chain_ok in Hch as [Hch Hck']; [|done|done|set_solver].
    split; [done|]. split; [lia|]. apply Hone, Hplain. unfold sound. by rewrite Ht.
  - injection H as <- <-. left. split; [done|]. split; [lia|]. apply Hone, Hplain. unfold sound. by rewrite Ht.
  - apply bind_Ok in H as (u & Hp%check_pointer_ok & (u2 & Hb & H)%bind_Ok). injection H as <- <-. left.
    split; [done|]. split; [lia|]. apply Hone, Hplain. unfold sound. rewrite Ht. split; [done|].
    unfold check_bignum in Hb. apply bind_Ok in Hb as (d & Hd%heap_get_inv & Hr%require_Ok).
    exists d. split; [done|]. by apply bool_decide_eq_true in Hr.
  - injection H as <- <-. left. split; [done|]. split; [lia|]. apply Hone, Hplain. unfold sound. by rewrite Ht.
  - apply bind_Ok in H as (u & Hp%check_pointer_ok & (u2 & Hf & (u3 & Ha & H)%bind_Ok)%bind_Ok). injection H as <- <-. left.
    split; [done|]. split; [lia|]. apply Hone, Hplain. unfold sound. rewrite Ht. split; [lia|].
    unfold check_functor_cell in Hf. apply bind_Ok in Hf as (f & Hfc & Hr%require_Ok).
    apply bool_decide_eq_true in Hr. unfold check_functor_args in Ha. rewrite Hfc, Ok_bind in Ha.
    apply bind_Ok in Ha as (u4 & Hm & Ha). apply require_Ok, negb_true_iff, Z.leb_gt in Hm.
    exists f. split; [by apply heap_get_inv|]. split; [done|]. split; [done|].
    intros k Hk. apply (check_args_ok _ _ _ _ _ Ha). lia.
  - injection H as <- <-. assert (Hs : sound h lo c) by (unfold sound; by rewrite Ht).
    destruct (decide (0 < dat_num_cells c)); [left|right; split; [done|]; split; [lia|by apply Hplain]].
    split; [done|]. split; [lia|]. intros j Hj Hu. destruct (decide (j = i)) as [->|]; [by apply Hplain|].
    exfalso. revert Hu. apply bool_decide_eq_false in Hskip || idtac.
    apply orb_false_iff in Hskip as [_ Hiu]. apply negb_false_iff, bool_decide_eq_true in Hiu.
    apply (Hwords i c Hiu Hci Ht). lia.
  - injection H as <- <-. left. split; [done|]. split; [lia|]. apply Hone, Hplain. unfold sound. by rewrite Ht.
Qed.

Lemma check_loop_ok fuel checked i u :
  (forall j, j ∈ checked -> good_at j) ->
  check_loop h old lo hi hdr hdr' used fuel checked i = Ok u ->
  forall j, i <= j -> j ∈ used -> sound_at j.
Proof.
  revert checked i. induction fuel as [|fuel IH]; intros checked i Hck H j Hj Hu; cbn [check_loop] in H.
  all: destruct (Z.ltb_spec i hi) as [Hi|Hi]; [|destruct (Hused j Hu); lia].
  { done. }
  apply bind_Ok in H as ([ck i'] & Hc & H).
  destruct (check_cell_ok _ _ _ _ Hck Hc) as [(Hck' & Hlt & Hs)|(Hck' & Hlt & Hs)].
  - destruct (decide (j < i')); [apply Hs; [lia|done]|]. apply (IH _ _ Hck' H); [lia|done].
  - apply (IH _ _ Hck' H); [lia|done].
Qed.

End check.

(** ** The theorems *)

Lemma sound_derefs h lo c : sound h lo c -> exists d, deref h c = Ok d.
Proof.
  intros Hs. destruct (is_ref (cell_tag c)) eqn:Hr.
  - assert (chain h lo c) as (n & d & Hd & _)%chain_derefs.
    { unfold sound in Hs. by apply is_ref_true in Hr as [Hr|Hr]; rewrite Hr in Hs. }
    exists d. by eapply derefs_deref.
  - exists c. by apply (derefs_deref h c 0), derefs_value.
Qed.

(** C24: Reading appends to a non-empty heap: the cells there keep their values, whatever
    the buffer holds.  If [read] returns, every cell made from the body, other than the words
    of big integers, is sound: a chain of references ends within the new cells, a structure
    points to a constant with all its arguments, a big integer to its header.  The result is
    such a cell, the lone empty list, or, for an empty body, the cell at address 0. *)
Theorem read_is_checked bytes n h names h' names' t :
  heap_inv h -> heap_tight h -> 0 < h_size h -> read bytes n h names = Ok (h', names', t) ->
  grows h h' /\ exists r off,
    read_all_header bytes 0 (Reader h names ∅ ∅) = Ok (r, off) /\
    let first := h_size (rd_heap r) in
    h_size h <= first <= h_size h' /\
    (forall i, body_cell h' first i ->
       exists c, h_cells h' !! i = Some c /\ sound h' (h_size h) c /\ exists d, deref h' c = Ok d) /\
    (t = EMPTY_LIST \/ (exists i, body_cell h' first i /\ h_cells h' !! i = Some t) \/
     (first = h_size h' /\ h_cells h !! 0 = Some t)).
Proof.
  intros Hi Hti H0 H. unfold read in H.
  apply bind_Ok in H as ([[[[r t'] used] hdr] hdr'] & Hr & (u & Hc & H)%bind_Ok). injection H as <- <- <-.
  unfold read_term in Hr. apply bind_Ok in Hr as ([r0 off] & Hhdr & Hr).
  destruct (header_grows bytes 0 (Reader h names ∅ ∅) r0 off Hi Hhdr) as [Hh Htight]. cbn in Hh. specialize (Htight Hti).
  apply bind_Ok in Hr as (l & Hl & Hr).
  apply (body_loop_ok (h_size h) (h_size (rd_heap r0))) in Hl; [|done|by apply Hh|].
  2: { split; cbn; [apply Hh|done|set_solver..| |done|set_solver]. split; [done|lia]. }
  pose proof (gr_size _ _ Hh). destruct l as [c|b].
  { injection Hr as <- <- <- _ _. split; [done|]. exists r0, off. split; [done|]. cbv zeta. split; [lia|].
    split; [|by left]. intros i Hb. exfalso.
    induction Hb as [i (Hle & [d Hd] & _)|]; [|done]. by rewrite Htight in Hd by lia. }
  destruct Hl as [Hb Hg]. cbn in Hg. pose proof Hb as [I D U P W R T N].
  apply bind_Ok in Hr as (h2 & Hp & (res & Hres%heap_get_inv & Hr)%bind_Ok). injection Hr as <- <- <- <- <-.
  cbn [with_rd_heap rd_heap rd_names rd_old] in *.
  destruct (patched_heap _ _ _ _ _ _ _ Hb Hh Hg Hp) as (Hgr & Hs & Hw & Hdat & Hdom).
  assert (Hused : forall i, i ∈ bd_used b -> h_size h <= i < h_size h2)
    by (intros i Hin%U; rewrite Hs; lia).
  assert (Hcells : forall i, body_cell h2 (h_size (rd_heap r0)) i -> i ∈ bd_used b)
    by (by apply (body_cells_used (h_size h))).
  split; [done|]. exists r0, off. split; [done|]. cbv zeta. split; [pose proof (gr_size _ _ Hg); lia|].
  unfold integrity_check in Hc. split.
  - intros i Hbi. specialize (Hcells i Hbi) as Hin.
    destruct (check_loop_ok h2 (rd_old (bd_reader b)) (h_size h) off (h_size (rd_heap r0) - h_size h) (bd_used b)
      Hused Hdat (S (Z.to_nat (h_size h2 - h_size h))) ∅ (h_size h) u) with (j := i) as (c & Hci & Hsnd);
      [set_solver|exact Hc|apply Hused in Hin; lia|done|].
    exists c. split; [done|]. split; [done|]. by eapply sound_derefs.
  - right. destruct (bd_result b) as [i|]; cbn in Hres.
    + left. exists i. split; [|done]. constructor. eapply next_cell_same; [|apply R]. intros j. by rewrite Hdom.
    + right. split; [|rewrite <-(gr_cells _ _ Hgr 0) by lia; done].
      pose proof (gr_size _ _ Hg). destruct R as [_ R]. lia.
Qed.

Module Example.
(** Cells as bytes. *)
Definition buf (cs : list Z) : buffer := cs ≫= cell_bytes 8.
Definition env_heap : heap := Heap {[0 := int_cell 7]} 1 1 [] true ∅ ∅.
Definition f1 : Z := con_constant [102] 1.
(** [f(X)] *)
Definition good : buffer := buf [VER1; REMAP; PAMER; str_cell 4; f1; ref_cell 5].
(** A structure in the words of a big integer. *)
Definition bad : buffer := buf [VER1; REMAP; PAMER; str_cell 5; dat_cell 352; 0; 0; 0; f1; ref_cell (2 ^ 40)].
End Example.

(** The body of [f(X)] is a pointer, a functor and a variable. *)
Lemma read_is_checked_witness :
  exists h' names' t, read Example.good 48 Example.env_heap ∅ = Ok (h', names', t) /\
    h_cells h' !! 0 = Some (int_cell 7) /\
    (exists c, h_cells h' !! 1 = Some c /\ sound h' 1 c) /\ t = str_cell 2.
Proof.
  destruct (read Example.good 48 Example.env_heap ∅) as [[[h' names'] t]|] eqn:Hr; [|by vm_compute in Hr].
  destruct (read_is_checked Example.good 48 Example.env_heap ∅ h' names' t) as [[_ _ Hg] (r & off & Hhdr & _ & Hs & _)].
  - by split; vm_compute.
  - intros i Hi. apply lookup_singleton_ne. cbn in Hi. lia.
  - by vm_compute.
  - exact Hr.
  - exists h', names', t. split; [reflexivity|]. split; [rewrite Hg by (by vm_compute); reflexivity|].
    vm_compute in Hhdr. injection Hhdr as <- _. vm_compute in Hr. injection Hr as <- _ <-.
    split; [|reflexivity]. destruct (Hs 1) as (c & Hc & Hsound & _).
    + apply body_first. split; [done|]. split; [by eexists|]. intros j Hj. cbn in Hj. lia.
    + exists c. split; [exact Hc|exact Hsound].
Defined.

(** The check can be bypassed.  The words of a big integer are skipped, but a pointer
    may lead to them (one whose target is no cell of the body is moved to where it was in
    the buffer): [read] returns a structure whose functor and argument are such
    words, and looking at the argument leaves the heap. *)
Theorem integrity_check_bypassed :
  exists h' t, read Example.bad (length Example.bad) heap_empty ∅ = Ok (h', ∅, t) /\
    functor h' t = Ok Example.f1 /\ arg h' t 0 = Throw (HeapIndexOutOfRange (2 ^ 40) (h_size h')).
Proof.
  destruct (read Example.bad (length Example.bad) heap_empty ∅) as [[[h' names'] t]|] eqn:Hr; [|by vm_compute in Hr].
  exists h', t. vm_compute in Hr. injection Hr as <- <- <-. split; [done|]. split; by vm_compute.
Qed.

(** A cell with the tag of forwarding pointers has no case: its index 0 lies below the
    heap cells that are read.  On a heap of one cell the flag is set outside the vector
    of flags; on a larger one the vector cannot be that long. *)
Lemma forward_cell_below_heap :
  let bytes := Example.buf [VER1; REMAP; PAMER; fwd_cell 0] in
  read bytes 32 Example.env_heap ∅ = Throw UndefinedBehaviour /\
  read bytes 32 (with_layout Example.env_heap {[0 := int_cell 7; 1 := int_cell 8]} 2 1) ∅ = Throw LengthError.
Proof. split; by vm_compute. Qed.

(** An empty body reads as the first cell of the heap. *)
Lemma empty_body_is_cell_0 :
  read (Example.buf [VER1; REMAP; PAMER]) 24 Example.env_heap ∅ = Ok (Example.env_heap, ∅, int_cell 7).
Proof. by vm_compute. Qed.
