(* ===== verification/SerialText.v ===== *)
(** * Cells and strings in a buffer

    What [write_cell] puts into a buffer, [read_cell] gets out of it, and encoded strings
    are read back if they are plain ASCII. *)

From S2P Require Import Prelude Bits Cells Heap Bigs Serializer.

(** ** Cells *)

Lemma length_cell_bytes n v : length (cell_bytes n v) = n.
Proof. revert v. induction n as [|n IH]; intros v; cbn; [done|by rewrite IH]. Qed.

Lemma cell_bytes_lookup n v k :
  (k < n)%nat -> cell_bytes n v !! k = Some (v ≫ (8 * Z.of_nat k) &&& 0xff).
Proof.
  revert v k. induction n as [|n IH]; intros v k Hk; [lia|]. destruct k as [|k]; cbn [cell_bytes lookup list_lookup].
  - by rewrite Z.mul_0_r, Z.shiftr_0_r.
  - rewrite IH by lia. rewrite Z.shiftr_shiftr by lia. do 3 f_equal. lia.
Qed.

(** The loop of [read_cell] gathers the bytes it has not yet seen. *)
Lemma read_bytes_cell pre c tl n raw :
  is_word 64 c -> (n <= 8)%nat -> raw = c ≫ (8 * Z.of_nat n) ->
  read_bytes n (pre ++ cell_bytes 8 c ++ tl) (length pre) raw = c.
Proof.
  intros Hc. revert raw. induction n as [|n IH]; intros raw Hn Hr; cbn [read_bytes].
  - by rewrite Hr, Z.mul_0_r, Z.shiftr_0_r.
  - apply IH; [lia|]. rewrite lookup_app_r by lia.
    replace (length pre + n - length pre)%nat with n by lia.
    rewrite lookup_app_l by (rewrite length_cell_bytes; lia). rewrite cell_bytes_lookup by lia. cbn [from_option id].
    rewrite Hr. apply Z.bits_inj'. intros j Hj. change 0xff with (Z.ones 8).
    rewrite Z.lor_spec, wrap_spec, Z.shiftl_spec, Z.land_spec, Z.testbit_ones by lia.
    rewrite (Z.shiftr_spec c (8 * Z.of_nat n)) by lia. rewrite (proj2 (Z.leb_le 0 j)) by lia. cbn [andb].
    destruct (Z.ltb_spec j 8).
    + rewrite (Z.testbit_neg_r _ (j - 8)) by lia. cbn. by rewrite andb_true_r.
    + rewrite andb_false_r, orb_false_r, Z.shiftr_spec by lia.
      replace (j - 8 + 8 * Z.of_nat (S n)) with (j + 8 * Z.of_nat n) by lia.
      destruct (Z.ltb_spec j 64); [by rewrite andb_true_r|].
      apply is_word_testbit in Hc as [_ Hc]; [|done]. rewrite Hc by lia. done.
Qed.

Lemma read_cell_written pre c tl :
  is_word 64 c -> read_cell (pre ++ cell_bytes 8 c ++ tl) (length pre) = Ok c.
Proof.
  intros Hc. unfold read_cell. rewrite !length_app, length_cell_bytes.
  rewrite (proj2 (Nat.leb_le _ _)) by lia. cbn [require mbind res_bind]. f_equal.
  apply read_bytes_cell; [done|lia|]. symmetry. apply Z.shiftr_eq_0; [apply Hc|].
  destruct (decide (c = 0)) as [->|]; [done|]. change (8 * Z.of_nat 8) with 64.
  unfold is_word in Hc. apply Z.log2_lt_pow2; lia.
Qed.

Lemma write_cell_end bytes c : write_cell bytes (length bytes) c = Ok (bytes ++ cell_bytes 8 c).
Proof.
  unfold write_cell. rewrite Nat.eqb_refl, length_app. cbn [length replicate].
  rewrite (proj2 (Nat.leb_le _ _)) by lia. cbn [require mbind res_bind].
  rewrite take_app_length, drop_ge by (rewrite length_app; cbn; lia). by rewrite app_nil_r.
Qed.

(** ** Strings *)

(** What [is_char_chunk] admits. *)
Definition is_plain (s : list Z) : Prop := Forall (fun ch => ch <= 127) s.

#[export] Instance is_plain_dec s : Decision (is_plain s).
Proof. unfold is_plain. apply _. Defined.

Section text.
Context (str : list Z).
Hypothesis Htext : is_text str.

Lemma chunk_text i : is_text (take 7 (drop i str)).
Proof. unfold is_text. by apply Forall_take, Forall_drop. Qed.

Lemma chunk_written i more :
  encode_str_range str (Z.of_nat i) (Z.of_nat i + 7) more = Ok (int_cell (chunk_value (take 7 (drop i str)) more)).
Proof.
  clear Htext. unfold encode_str_range. replace (Z.of_nat i + 7 - Z.of_nat i) with 7 by lia.
  rewrite wrap_id by (unfold is_word; lia). cbn [require mbind res_bind Z.leb Z.compare]. cbv zeta. rewrite Nat2Z.id.
  assert (He : take (Z.to_nat (Z.min (Z.of_nat i + 7) (Z.of_nat (length str)) - Z.of_nat i)) (drop i str) = take 7 (drop i str)).
  { destruct (Z.min_spec (Z.of_nat i + 7) (Z.of_nat (length str))) as [[H ->]|[H ->]]; [f_equal; lia|].
    rewrite !take_ge by (rewrite length_drop; lia). done. }
  rewrite He. done.
Qed.

Lemma char_chunk_loop_eq s more n i :
  is_text s -> (length s <= 7)%nat -> Z.of_nat n = 7 - Z.of_nat i -> (i <= 7)%nat ->
  is_char_chunk_loop n (int_value (int_cell (chunk_value s more))) (Z.of_nat i) = bool_decide (is_plain (drop i s)).
Proof.
  intros Hs Hl. revert i. induction n as [|n IH]; intros i Hn Hi; cbn [is_char_chunk_loop].
  - rewrite drop_ge by lia. done.
  - rewrite chunk_byte_int, Nat2Z.id by (done || lia).
    destruct (s !! i) as [ch|] eqn:E; cbn [from_option id].
    + assert (1 <= ch <= 255) by (by apply (Forall_lookup_1 (fun ch => 1 <= ch <= 255) s i)).
      rewrite (proj2 (Z.eqb_neq ch 0)) by lia. rewrite (drop_S _ ch) by done.
      unfold is_valid_char. rewrite (proj2 (Z.leb_le 1 ch)) by lia. cbn [andb].
      apply lookup_lt_Some in E. destruct (Z.leb_spec ch 127); cbn [negb].
      * replace (Z.of_nat i + 1) with (Z.of_nat (S i)) by lia. rewrite IH by lia.
        apply bool_decide_ext. unfold is_plain. rewrite Forall_cons. tauto.
      * symmetry. apply bool_decide_eq_false. unfold is_plain. rewrite Forall_cons. lia.
    + apply lookup_ge_None in E. by rewrite drop_ge by done.
Qed.

Lemma char_chunk_eq s more :
  is_text s -> (length s <= 7)%nat ->
  is_char_chunk (int_cell (chunk_value s more)) = bool_decide (is_plain s).
Proof.
  intros Hs Hl. unfold is_char_chunk. rewrite chunk_lowest by done.
  assert (Hb : negb ((if more then 1 else 0) =? 0) && negb ((if more then 1 else 0) =? 1) = false) by (by destruct more).
  rewrite Hb. apply (char_chunk_loop_eq s more 7 0); done || lia.
Qed.

Lemma int_chunk_word s more : is_word 64 (int_cell (chunk_value s more)) /\ cell_tag (int_cell (chunk_value s more)) = INT.
Proof. split; [apply mk_cell_word|apply cell_tag_mk]. Qed.

(** The last chunk is the one nothing follows. *)
Lemma last_chunk s more : is_text s -> (length s <= 7)%nat ->
  as_char_chunk (int_cell (chunk_value s more)) = s /\ is_last_char_chunk (int_cell (chunk_value s more)) = negb more.
Proof.
  intros Hs Hl. split; [apply (as_char_chunk_loop_eq s more Hs Hl 7 0); lia|].
  unfold is_last_char_chunk. rewrite chunk_lowest by done. by destruct more.
Qed.

(** What one call writes, another reads. *)
Definition read_back (pre out s : list Z) : Prop := forall tl acc rf,
  (length out <= 8 * rf)%nat ->
  if decide (is_plain s)
  then read_string_loop rf (pre ++ out ++ tl) (length pre) acc = Ok (acc ++ s, (length pre + length out)%nat)
  else exists c offset, read_string_loop rf (pre ++ out ++ tl) (length pre) acc = Throw (UnexpectedData c offset).

Lemma write_chunks_end fuel pre i : (length str <= i)%nat -> write_chunks fuel pre str i = Ok pre.
Proof. intros H. destruct fuel; cbn [write_chunks]; by rewrite (proj2 (Nat.ltb_ge _ _)). Qed.

Lemma write_chunks_read_back fuel i pre :
  (i < length str)%nat -> (length str - i <= fuel)%nat ->
  exists out, write_chunks fuel pre str i = Ok (pre ++ out) /\ read_back pre out (drop i str).
Proof.
  revert i pre. induction fuel as [|fuel IH]; intros i pre Hi Hf; [lia|]. cbn [write_chunks].
  rewrite (proj2 (Nat.ltb_lt _ _)) by done. rewrite chunk_written, Ok_bind, write_cell_end, Ok_bind.
  set (s := take 7 (drop i str)). set (more := (i + 7 <? length str)%nat).
  assert (Hsl : (length s <= 7)%nat) by (unfold s; rewrite length_take; lia).
  destruct (int_chunk_word s more) as [Hw Ht]. destruct (last_chunk s more (chunk_text i) Hsl) as [Hch Hlast].
  pose proof (char_chunk_eq s more (chunk_text i) Hsl) as Hck.
  set (c := int_cell (chunk_value s more)) in *.
  assert (Hstep : forall out tl acc rf, (length (cell_bytes 8 c ++ out) <= 8 * rf)%nat -> exists rf', rf = S rf' /\
    (length out <= 8 * rf')%nat /\
    read_string_loop rf (pre ++ (cell_bytes 8 c ++ out) ++ tl) (length pre) acc =
      if bool_decide (is_plain s) then
        if more then read_string_loop rf' ((pre ++ cell_bytes 8 c) ++ out ++ tl) (length (pre ++ cell_bytes 8 c)) (acc ++ s)
        else Ok (acc ++ s, (length pre + 8)%nat)
      else Throw (UnexpectedData c (Z.of_nat (length pre)))).
  { intros out tl acc rf Hrf. rewrite length_app, length_cell_bytes in Hrf. destruct rf as [|rf']; [lia|].
    exists rf'. split; [done|]. split; [lia|]. cbn [read_string_loop]. rewrite <-!app_assoc, read_cell_written, Ok_bind by done.
    rewrite Ht. change (bool_decide (INT = INT)) with true. cbn [require]. rewrite Ok_bind, Hck.
    destruct (bool_decide (is_plain s)); cbn [require]; [|done]. rewrite Ok_bind, Hlast, Hch.
    destruct more; cbn [negb]; [|done]. by rewrite length_app, length_cell_bytes. }
  destruct more eqn:Hm.
  - apply Nat.ltb_lt in Hm.
    destruct (IH (i + 7)%nat (pre ++ cell_bytes 8 c)) as (out & Hout & Hread); [lia|lia|].
    exists (cell_bytes 8 c ++ out). rewrite Hout, <-app_assoc. split; [done|].
    assert (Hsplit : drop i str = s ++ drop (i + 7) str) by (unfold s; by rewrite <-drop_drop, take_drop).
    intros tl acc rf Hrf. destruct (Hstep out tl acc rf Hrf) as (rf' & -> & Hrf' & Heq). rewrite Heq.
    specialize (Hread tl (acc ++ s) rf' Hrf'). rewrite Hsplit. unfold is_plain in *.
    destruct (decide (Forall _ (s ++ _))) as [Hall|Hno].
    + apply Forall_app in Hall as [H1 H2]. rewrite bool_decide_eq_true_2 by done. rewrite decide_True in Hread by done.
      rewrite Hread. f_equal. f_equal; [by rewrite app_assoc|]. rewrite !length_app. lia.
    + case_bool_decide as Hp; [|eauto]. rewrite decide_False in Hread; [done|].
      intros Hd. apply Hno. by apply Forall_app.
  - apply Nat.ltb_ge in Hm. exists (cell_bytes 8 c). split; [by apply write_chunks_end|].
    assert (Hs : s = drop i str) by (unfold s; rewrite take_ge by (rewrite length_drop; lia); done).
    intros tl acc rf Hrf. rewrite <-(app_nil_r (cell_bytes 8 c)) in Hrf.
    destruct (Hstep [] tl acc rf Hrf) as (rf' & -> & _ & Heq). rewrite app_nil_r in Heq. rewrite Heq, <-Hs, length_cell_bytes.
    case_bool_decide; case_decide; done || eauto.
Qed.

End text.

(** C27: A string without NUL is written in chunks of seven characters and read back,
    with the offset behind it, when its characters are ASCII.  A name with another
    character can be written, but reading it throws. *)
Theorem encoded_string_roundtrip str pre tl :
  str <> [] -> is_text str ->
  exists out, write_encoded_string pre str = Ok (pre ++ out) /\
    if decide (is_plain str)
    then read_encoded_string (pre ++ out ++ tl) (length pre) = Ok (str, length (pre ++ out))
    else exists c offset, read_encoded_string (pre ++ out ++ tl) (length pre) = Throw (UnexpectedData c offset).
Proof.
  intros Hne Ht. destruct (write_chunks_read_back str Ht (length str) 0 pre) as (out & Hw & Hr).
  { destruct str; [done|cbn; lia]. }
  { lia. }
  exists out. split; [done|]. specialize (Hr tl [] (S (length (pre ++ out ++ tl)))).
  rewrite drop_0, <-length_app in Hr. apply Hr. rewrite !length_app. lia.
Qed.

Lemma encoded_string_roundtrip_witness :
  exists out, write_encoded_string [1; 2] [97; 98; 99; 100; 101; 102; 103; 104] = Ok ([1; 2] ++ out) /\
    read_encoded_string ([1; 2] ++ out ++ [0]) 2 = Ok ([97; 98; 99; 100; 101; 102; 103; 104], 18%nat).
Proof.
  destruct (encoded_string_roundtrip [97; 98; 99; 100; 101; 102; 103; 104] [1; 2] [0]) as (out & Hw & Hr);
    [done|by apply (bool_decide_unpack _)|].
  exists out. split; [done|]. rewrite decide_True in Hr by by apply (bool_decide_unpack _).
  assert (length ([1; 2] ++ out) = 18%nat) as Hl; [|by rewrite <-Hl].
  vm_compute in Hw. injection Hw as <-. done.
Defined.
