(* ===== verification/FastHash.v ===== *)
(** * The fast hash ([src/src/common/fast_hash.hpp], [fast_hash.cpp])

    A 32-bit Murmur hash.  Bytes are taken eight at a time into a 64-bit word, which is
    then passed to [update(uint32_t)]: the first four bytes of every full group are
    dropped. *)

From S2P Require Import Prelude.

Record fast_hash := FastHash { fh_state : Z; fh_count : Z }.

Definition HASH_SEED : Z := 38136192.
Definition C1 : Z := 0xcc9e2d51.
Definition C2 : Z := 0x1b873593.

(** [reset] *)
Definition fast_hash_new : fast_hash := FastHash HASH_SEED 0.

Definition rotl32 (x r : Z) : Z := w32 (x ≪ r) ||| (x ≫ (32 - r)).

Definition fmix32 (h : Z) : Z :=
  let h := h ^^^ (h ≫ 16) in
  let h := w32 (h * 0x85ebca6b) in
  let h := h ^^^ (h ≫ 13) in
  let h := w32 (h * 0xc2b2ae35) in
  h ^^^ (h ≫ 16).

(** [update(uint32_t)]; the argument is converted. *)
Definition update_word (h : fast_hash) (value : Z) : fast_hash :=
  let k1 := w32 (w32 value * C1) in
  let k1 := w32 (rotl32 k1 15 * C2) in
  let h1 := fh_state h ^^^ k1 in
  let h1 := w32 (rotl32 h1 13 * 5 + 0xe6546b64) in
  FastHash h1 (w64 (fh_count h + 4)).

(** [v = (v << 8) | bytes[i+j]] for the bytes of one group *)
Definition group_value (bytes : list Z) : Z := foldl (fun v b => w64 (v ≪ 8) ||| b) 0 bytes.

(** [update(const uint8_t *, size_t)]; [fuel] is the length. *)
Fixpoint update_groups (fuel : nat) (h : fast_hash) (bytes : list Z) : fast_hash :=
  match fuel, bytes with
  | S fuel, _ :: _ => update_groups fuel (update_word h (group_value (take 8 bytes))) (drop 8 bytes)
  | _, _ => h
  end.
Definition update_bytes (h : fast_hash) (bytes : list Z) : fast_hash := update_groups (length bytes) h bytes.

(** [operator << (fast_hash &, uint64_t)] *)
Definition update_uint64 (h : fast_hash) (val : Z) : fast_hash :=
  let high := val ≫ 32 in
  let h := if high =? 0 then h else update_word h high in
  update_word h (val &&& 0xffffffff).

(** [h1 ^= count_] mixes the low 32 bits of the count. *)
Definition finalize (h : fast_hash) : Z := fmix32 (fh_state h ^^^ w32 (fh_count h)).

(** ** What the hash sees of a string *)

(** The low words of the groups. *)
Fixpoint low_words (fuel : nat) (bytes : list Z) : list Z :=
  match fuel, bytes with
  | S fuel, _ :: _ => w32 (group_value (take 8 bytes)) :: low_words fuel (drop 8 bytes)
  | _, _ => []
  end.

Lemma update_word_low h v : update_word h (w32 v) = update_word h v.
Proof. unfold update_word. by rewrite wrap_wrap. Qed.

Lemma update_groups_low fuel h bytes :
  update_groups fuel h bytes = foldl update_word h (low_words fuel bytes).
Proof.
  revert h bytes. induction fuel as [|fuel IH]; intros h bytes; [done|]. destruct bytes as [|b bytes]; [done|].
  cbn [update_groups low_words foldl]. by rewrite IH, update_word_low.
Qed.

Lemma update_bytes_low h n1 n2 :
  low_words (length n1) n1 = low_words (length n2) n2 -> update_bytes h n1 = update_bytes h n2.
Proof. intros H. unfold update_bytes. by rewrite !update_groups_low, H. Qed.

Lemma rotl32_word x r : is_word 32 x -> 0 <= r <= 32 -> is_word 32 (rotl32 x r).
Proof.
  intros Hx Hr. unfold rotl32. apply lor_word; [done|by apply wrap_word|].
  apply (shiftr_word 32); [lia|lia|lia|done].
Qed.

Lemma fmix32_word h : is_word 32 h -> is_word 32 (fmix32 h).
Proof.
  assert (Hs : forall x n, is_word 32 x -> 0 <= n -> is_word 32 (x ^^^ (x ≫ n))).
  { intros x n Hx Hn. apply lxor_word; [done..|]. apply (shiftr_word 32); [lia..|done]. }
  intros Hh. unfold fmix32. apply Hs; [|done]. by apply wrap_word.
Qed.

Lemma update_word_state h v : is_word 32 (fh_state (update_word h v)).
Proof. by apply wrap_word. Qed.

Lemma finalize_word h : is_word 32 (fh_state h) -> is_word 32 (finalize h).
Proof. intros Hh. apply fmix32_word, lxor_word; [done..|by apply wrap_word]. Qed.

(** Four letters of an eight-letter name do not count. *)
Lemma group_step k v v' b :
  8 <= k <= 64 -> wrap (k - 8) v = wrap (k - 8) v' ->
  wrap k (w64 (v ≪ 8) ||| b) = wrap k (w64 (v' ≪ 8) ||| b).
Proof.
  intros Hk Hv. apply Z.bits_inj'. intros i Hi. autorewrite with zbits.
  destruct (Z.ltb_spec i k); [|by rewrite !andb_false_r]. rewrite !andb_true_r. f_equal.
  destruct (decide (i < 8)) as [Hi8|Hi8].
  { by rewrite !(Z.testbit_neg_r _ (i - 8)) by lia. }
  f_equal. apply (f_equal (fun x => Z.testbit x (i - 8))) in Hv. rewrite !wrap_spec in Hv by lia.
  by rewrite (proj2 (Z.ltb_lt _ _)), !andb_true_r in Hv by lia.
Qed.

Lemma group_value_eight l b1 b2 b3 b4 :
  w32 (group_value (l ++ [b1; b2; b3; b4])) = w32 (group_value [b1; b2; b3; b4]).
Proof.
  unfold group_value. rewrite foldl_app. cbn [foldl].
  repeat (apply group_step; [lia|]). cbn [Z.sub]. unfold wrap. by rewrite !Z.land_0_r.
Qed.

(** Names of eight letters with the same last four are one to the hash. *)
Lemma last_four_decide h a1 a2 a3 a4 a1' a2' a3' a4' b1 b2 b3 b4 :
  update_bytes h [a1; a2; a3; a4; b1; b2; b3; b4] = update_bytes h [a1'; a2'; a3'; a4'; b1; b2; b3; b4].
Proof.
  apply update_bytes_low. cbn [length low_words take drop]. f_equal.
  etrans; [apply (group_value_eight [a1; a2; a3; a4])|]. symmetry. apply (group_value_eight [a1'; a2'; a3'; a4']).
Qed.
