(* ===== verification/HeapBlock.v ===== *)
(** * Blocks of the heap ([heap_block] of [src/src/common/term.hpp])

    A block is 8192 cells of the heap, of which the first [size] are allocated.  The
    cells are a map from positions, without the ones that were never written.  With
    [src/src/global/global.hpp] a block is written to the database as the bytes of its
    allocated cells. *)

From S2P Require Import Prelude Bits Cells Heap.

Record heap_block := HeapBlock {
  hb_index : Z;
  hb_size : Z;
  hb_changed : bool;
  hb_cells : gmap Z Z
}.

Definition block_new (index : Z) : heap_block := HeapBlock index 0 false ∅.
Definition hb_offset (b : heap_block) : Z := hb_index b * MAX_SIZE.
Definition hb_set_changed (b : heap_block) (v : bool) : heap_block :=
  HeapBlock (hb_index b) (hb_size b) v (hb_cells b).
Definition hb_with_cells (b : heap_block) (m : gmap Z Z) : heap_block :=
  HeapBlock (hb_index b) (hb_size b) (hb_changed b) m.

(** [cells_[addr - offset_]]: the position must lie in the array. *)
Definition position (b : heap_block) (addr : Z) : res Z :=
  let p := addr - hb_offset b in
  _ ← require ((0 <=? p) && (p <? MAX_SIZE)) UndefinedBehaviour; Ok p.

(** [operator [] (size_t) const]; [operator [] (size_t)] used as an l-value, after the
    callback. *)
Definition block_get (b : heap_block) (addr : Z) : res Z :=
  p ← position b addr; of_option (hb_cells b !! p) UndefinedBehaviour.
Definition block_set (b : heap_block) (addr c : Z) : res heap_block :=
  p ← position b addr; Ok (hb_with_cells b (<[p := c]> (hb_cells b))).

Definition can_allocate (b : heap_block) (n : Z) : bool := hb_size b + n <=? MAX_SIZE.
(** [trim(n)], [allocate(n)]: the size alone. *)
Definition block_trim (b : heap_block) (n : Z) : heap_block := HeapBlock (hb_index b) n (hb_changed b) (hb_cells b).
Definition block_allocate (b : heap_block) (n : Z) : heap_block * Z :=
  (block_trim b (hb_size b + n), hb_offset b + hb_size b).

(** [watch]: the callback is not called. *)
Definition block_watch (b : heap_block) (addr : Z) (value : bool) : res heap_block :=
  p ← position b addr;
  c ← of_option (hb_cells b !! p) UndefinedBehaviour;
  if bool_decide (cell_tag c = REF) && value then
    Ok (hb_with_cells b (<[p := ref_cell_watched (ptr_index c)]> (hb_cells b)))
  else if bool_decide (cell_tag c = RFW) && negb value then
    Ok (hb_with_cells b (<[p := ref_cell (ptr_index c)]> (hb_cells b)))
  else Ok b.

(** ** Bytes *)

(** [heap_block_to_custom_data] *)
Definition block_cells (b : heap_block) : res (list Z) :=
  mapM (fun p => of_option (hb_cells b !! p) UndefinedBehaviour) (seqZ 0 (hb_size b)).
Definition heap_block_to_custom_data (b : heap_block) : res (list Z) :=
  cs ← block_cells b; Ok (cs ≫= write_uint64).

(** [custom_data_to_heap_block]: more than 8192 cells overrun the array. *)
Fixpoint read_cells (n : nat) (src : list Z) : res (list Z) :=
  match n with
  | O => Ok []
  | S n => c ← read_uint64 src; cs ← read_cells n (drop 8 src); Ok (c :: cs)
  end.
Definition cells_from (cs : list Z) : gmap Z Z := list_to_map (zip (seqZ 0 (Z.of_nat (length cs))) cs).
Definition custom_data_to_heap_block (data : list Z) (b : heap_block) : res heap_block :=
  let n := (length data / 8)%nat in
  _ ← require (Z.of_nat n <=? MAX_SIZE) UndefinedBehaviour;
  cs ← read_cells n data;
  Ok (HeapBlock (hb_index b) (Z.of_nat n) (hb_changed b) (cells_from cs ∪ hb_cells b)).

(** ** Facts *)

(** Every allocated cell has been written, and is a word. *)
Record block_full (b : heap_block) : Prop := BlockFull {
  bf_size : 0 <= hb_size b <= MAX_SIZE;
  bf_cells : forall p, 0 <= p < hb_size b -> exists c, hb_cells b !! p = Some c /\ is_word 64 c
}.

Lemma seqZ_cons_nat (m : Z) (n : nat) : seqZ m (Z.of_nat (S n)) = m :: seqZ (m + 1) (Z.of_nat n).
Proof. rewrite seqZ_cons by lia. f_equal; f_equal; lia. Qed.

Lemma cells_from_lookup cs p c : cells_from cs !! p = Some c <-> 0 <= p /\ cs !! Z.to_nat p = Some c.
Proof.
  unfold cells_from. rewrite <-elem_of_list_to_map.
  - rewrite elem_of_lookup_zip_with. split.
    + intros (i & x & y & [= -> ->] & Hx & Hy). apply lookup_seqZ in Hx as [-> Hi].
      split; [lia|]. by replace (Z.to_nat _) with i by lia.
    + intros [Hp Hc]. exists (Z.to_nat p), p, c. split_and!; [done| |done].
      apply lookup_seqZ. apply lookup_lt_Some in Hc. lia.
  - rewrite fst_zip; [apply NoDup_seqZ|]. rewrite length_seqZ. lia.
Qed.

Lemma read_cells_written cs : Forall (is_word 64) cs ->
  read_cells (length cs) (cs ≫= write_uint64) = Ok cs.
Proof.
  induction 1 as [|c cs Hc _ IH]; [done|]. cbn [length read_cells mbind list_bind].
  rewrite read_write_uint64, wrap_id by done. cbn [mbind res_bind].
  rewrite drop_app_length' by done. by rewrite IH.
Qed.

Lemma block_cells_spec b : block_full b ->
  exists cs, block_cells b = Ok cs /\ Z.of_nat (length cs) = hb_size b /\ Forall (is_word 64) cs /\
    forall p, 0 <= p < hb_size b -> cs !! Z.to_nat p = hb_cells b !! p.
Proof.
  intros [Hs Hc]. unfold block_cells.
  assert (Hgen : forall n m, 0 <= m -> m + Z.of_nat n <= hb_size b ->
    exists cs, mapM (fun p => of_option (hb_cells b !! p) UndefinedBehaviour) (seqZ m (Z.of_nat n)) = Ok cs /\
      length cs = n /\ Forall (is_word 64) cs /\
      forall p, m <= p < m + Z.of_nat n -> cs !! Z.to_nat (p - m) = hb_cells b !! p).
  { induction n as [|n IH]; intros m Hm Hn.
    - exists []. split_and!; [done..|lia].
    - destruct (Hc m) as (c & Hmc & Hw); [lia|]. destruct (IH (m + 1)) as (cs & Hcs & Hl & Hf & Hp); [lia..|].
      exists (c :: cs). rewrite seqZ_cons_nat. cbn [mapM]. rewrite Hmc. cbn [of_option]. rewrite Ok_bind, Hcs.
      split_and!; [done|cbn; by rewrite Hl|by constructor|].
      intros p Hp'. destruct (decide (p = m)) as [->|Hne]; [by rewrite Z.sub_diag|].
      replace (Z.to_nat (p - m)) with (S (Z.to_nat (p - (m + 1)))) by lia. cbn. apply Hp. lia. }
  destruct (Hgen (Z.to_nat (hb_size b)) 0) as (cs & Hcs & Hl & Hf & Hp); [lia..|].
  exists cs. rewrite Z2Nat.id in Hcs, Hp by lia. split_and!; [done|lia|done|].
  intros p Hp'. rewrite <-Hp by lia. by rewrite Z.sub_0_r.
Qed.

(** A block read back has the allocated cells of the block written. *)
Lemma block_read_written b : block_full b ->
  exists data, heap_block_to_custom_data b = Ok data /\ are_bytes data /\
    length data = (8 * Z.to_nat (hb_size b))%nat /\
    forall b0, hb_cells b0 = ∅ -> exists b', custom_data_to_heap_block data b0 = Ok b' /\
      hb_index b' = hb_index b0 /\ hb_size b' = hb_size b /\ hb_changed b' = hb_changed b0 /\ block_full b' /\
      forall p, 0 <= p < hb_size b -> hb_cells b' !! p = hb_cells b !! p.
Proof.
  intros Hb. destruct (block_cells_spec b Hb) as (cs & Hcs & Hl & Hf & Hp). destruct Hb as [Hs Hc].
  exists (cs ≫= write_uint64). unfold heap_block_to_custom_data. rewrite Hcs.
  assert (Hlen : length (cs ≫= write_uint64) = (8 * length cs)%nat).
  { clear. induction cs as [|c cs IH]; [done|]. cbn [mbind list_bind]. rewrite length_app, IH. cbn. lia. }
  split_and!; [done| |rewrite Hlen; lia|].
  { clear. induction cs as [|c cs IH]; [constructor|]. cbn [mbind list_bind]. apply Forall_app. split; [|done].
    rewrite write_uint64_le. apply le_bytes_are_bytes. }
  intros b0 Hb0. unfold custom_data_to_heap_block.
  assert (Hdiv : (length (cs ≫= write_uint64) / 8)%nat = length cs)
    by (rewrite Hlen, Nat.mul_comm; by apply Nat.div_mul).
  rewrite Hdiv. rewrite (proj2 (Z.leb_le _ _)) by lia. cbn [require]. rewrite Ok_bind, read_cells_written by done.
  rewrite Ok_bind. eexists. split; [done|]. cbn [hb_index hb_size hb_changed hb_cells].
  assert (Hcell : forall p, 0 <= p < hb_size b -> (cells_from cs ∪ hb_cells b0) !! p = hb_cells b !! p).
  { intros p Hp'. rewrite Hb0, map_union_empty, <-Hp by done.
    destruct (cells_from cs !! p) as [c|] eqn:E; [by apply cells_from_lookup in E as [_ ->]|].
    destruct (cs !! Z.to_nat p) as [c|] eqn:E2; [|done].
    rewrite (proj2 (cells_from_lookup cs p c)) in E; [done|]. split; [lia|done]. }
  split_and!; [done|lia|done| |done]. split; cbn; [lia|]. intros p Hp'. rewrite Hcell by lia. apply Hc. lia.
Qed.
