(* ===== verification/Probing.v ===== *)
(** * Open addressing without removal

    Symbols and predicates are stored under keys made of a hash of the name and the
    number of the attempt ([src/src/global/global.hpp]).  An entry holds its name, so
    looking a name up passes over slots that hold other names.  The entries stored this
    way are a finite map. *)

From S2P Require Import Prelude.

Section probing.
Context {N V : Type} `{Countable N}.
(** The slots of a name; the bytes of an entry and the name in them. *)
Context (key : N -> Z -> Z) (entry : N -> V -> list Z) (name_of : list Z -> option N).
Context (valid : N -> V -> Prop) (is_slot : Z -> Prop) (attempts : nat).
Hypothesis key_is_slot : forall n j, is_slot (key n j).
Hypothesis name_of_entry : forall n v, valid n v -> name_of (entry n v) = Some n.

Implicit Types (m : gmap Z (list Z)) (t : gmap N V).

(** The slot holds an entry of another name. *)
Definition passed_over m (n : N) (j : Z) : Prop :=
  exists n' v', n' <> n /\ valid n' v' /\ m !! key n j = Some (entry n' v').

(** The bytes [m] hold the table [t]. *)
Record slots m t : Prop := Slots {
  sl_sound : forall k d, is_slot k -> m !! k = Some d ->
    exists n v j, d = entry n v /\ valid n v /\ t !! n = Some v /\ k = key n j /\ 0 <= j < Z.of_nat attempts /\
      forall j', 0 <= j' < j -> passed_over m n j';
  sl_complete : forall n v, t !! n = Some v -> valid n v /\ exists j, m !! key n j = Some (entry n v)
}.

(** The search: [None] when the attempts are used up, else the slot and what it holds. *)
Fixpoint probe (count : nat) m (n : N) (i : Z) : option (Z * option (list Z)) :=
  match count with
  | O => None
  | S count =>
      match m !! key n i with
      | None => Some (key n i, None)
      | Some d => if decide (name_of d = Some n) then Some (key n i, Some d) else probe count m n (i + 1)
      end
  end.

Lemma probe_passes count m n i k j :
  (forall j', i <= j' < i + Z.of_nat k -> passed_over m n j') ->
  j = i + Z.of_nat k -> probe (k + count) m n i = probe count m n j.
Proof.
  revert i. induction k as [|k IH]; intros i Hp ->; [by rewrite Z.add_0_r|]. cbn [Nat.add probe].
  destruct (Hp i) as (n' & v' & Hne & Hv & ->); [lia|]. rewrite name_of_entry by done.
  rewrite decide_False by congruence. apply IH; [|lia]. intros j' Hj'. apply Hp. lia.
Qed.

Lemma probe_found m t n v :
  slots m t -> t !! n = Some v -> exists k, probe attempts m n 0 = Some (k, Some (entry n v)).
Proof.
  intros [Hs Hc] Hn. destruct (Hc n v Hn) as (Hv & j & Hj).
  destruct (Hs _ _ (key_is_slot n j) Hj) as (n2 & v2 & j2 & He & Hv2 & Ht2 & Hk & Hj2 & Hp).
  assert (n2 = n) as ->.
  { apply (f_equal name_of) in He. rewrite !name_of_entry in He by done. congruence. }
  exists (key n j2). replace attempts with (Z.to_nat j2 + S (attempts - Z.to_nat j2 - 1))%nat by lia.
  rewrite (probe_passes _ _ _ _ _ j2); [|intros j' Hj'; apply Hp; lia|lia].
  cbn [probe]. rewrite <-Hk, Hj. by rewrite decide_True by (by apply name_of_entry).
Qed.

Lemma probe_inv count m t n i k o :
  slots m t -> probe count m n i = Some (k, o) -> 0 <= i -> i + Z.of_nat count = Z.of_nat attempts ->
  (forall j', 0 <= j' < i -> passed_over m n j') ->
  exists j, k = key n j /\ 0 <= j < Z.of_nat attempts /\ m !! k = o /\
    (forall j', 0 <= j' < j -> passed_over m n j') /\
    match o with Some d => exists v, d = entry n v /\ t !! n = Some v | None => True end.
Proof.
  intros Hsl. revert i. induction count as [|count IH]; intros i; [done|]. cbn [probe].
  destruct (m !! key n i) as [d|] eqn:Hd.
  - destruct (sl_sound _ _ Hsl _ _ (key_is_slot n i) Hd) as (n2 & v2 & j2 & -> & Hv2 & Ht2 & Hk & Hj2 & Hp).
    rewrite name_of_entry by done. case_decide as E.
    + injection E as ->. intros [= <- <-] Hi Hc Hpo. exists i. split_and!; [done|lia|lia|done|done|by exists v2].
    + intros Hpr Hi Hc Hpo. apply (IH (i + 1)); [done|lia|lia|]. intros j' Hj'.
      destruct (decide (j' = i)) as [->|]; [|apply Hpo; lia]. exists n2, v2. split_and!; [congruence|done|done].
  - intros [= <- <-] Hi Hc Hpo. exists i. split_and!; [done|lia|lia|done|done|done].
Qed.

(** Looking up. *)
Lemma probe_lookup m t n :
  slots m t ->
  match probe attempts m n 0 with
  | Some (_, Some d) => exists v, d = entry n v /\ t !! n = Some v
  | _ => t !! n = None
  end.
Proof.
  intros Hsl. destruct (t !! n) as [v|] eqn:Hn.
  { destruct (probe_found m t n v Hsl Hn) as [k ->]. by exists v. }
  destruct (probe attempts m n 0) as [[k [d|]]|] eqn:Hp; [|done..].
  destruct (probe_inv _ _ _ _ _ _ _ Hsl Hp) as (j & _ & _ & _ & _ & v & _ & Hv); [lia..|].
  by rewrite Hn in Hv.
Qed.

(** Storing at the slot the search ends at. *)
Lemma slots_store m t n v k o :
  slots m t -> probe attempts m n 0 = Some (k, o) -> valid n v ->
  slots (<[k := entry n v]> m) (<[n := v]> t).
Proof.
  intros Hsl Hp Hv. destruct (probe_inv _ _ _ _ _ _ _ Hsl Hp) as (j & -> & Hj & Hm & Hpo & Ho); [lia..|].
  (* what is passed over at that slot has another name *)
  assert (Hfree : forall j', passed_over m n j' -> key n j' <> key n j).
  { intros j' (n2 & v2 & Hne & Hv2 & Hm2) E. rewrite E, Hm in Hm2. rewrite Hm2 in Ho. destruct Ho as (v3 & He & Ht3).
    destruct (sl_complete _ _ Hsl n v3 Ht3) as [Hv3 _].
    apply (f_equal name_of) in He. rewrite !name_of_entry in He by done. congruence. }
  assert (Hpass : forall n' j', passed_over m n' j' -> passed_over (<[key n j := entry n v]> m) n' j').
  { intros n' j' Hp'. pose proof Hp' as (n2 & v2 & Hne & Hv2 & Hm2). destruct (decide (key n' j' = key n j)) as [E|E].
    - exists n, v. rewrite E, lookup_insert_eq. split_and!; [|done|done]. intros ->. by apply (Hfree j').
    - exists n2, v2. by rewrite lookup_insert_ne by congruence. }
  split.
  - intros k d Hk Hd. destruct (decide (k = key n j)) as [->|Hne].
    + rewrite lookup_insert_eq in Hd. injection Hd as <-. exists n, v, j. rewrite lookup_insert_eq.
      split_and!; [done..|lia|lia|]. intros j' Hj'. by apply Hpass, Hpo.
    + rewrite lookup_insert_ne in Hd by done. destruct (sl_sound _ _ Hsl k d Hk Hd) as (n2 & v2 & j2 & -> & Hv2 & Ht2 & -> & Hj2 & Hp2).
      exists n2, v2, j2. split_and!; [done..| |done|lia|lia|intros j' Hj'; by apply Hpass, Hp2].
      destruct (decide (n2 = n)) as [->|]; [exfalso|by rewrite lookup_insert_ne].
      destruct (Z.lt_trichotomy j2 j) as [Hlt|[->|Hlt]]; [|done|].
      * destruct (Hpo j2) as (n4 & v4 & Hne4 & Hv4 & Hm4); [lia|]. rewrite Hm4 in Hd. injection Hd as He.
        apply (f_equal name_of) in He. rewrite !name_of_entry in He by done. congruence.
      * by apply (Hfree j); [apply Hp2; lia|].
  - intros n' v' Hn'. destruct (decide (n' = n)) as [->|Hne].
    + rewrite lookup_insert_eq in Hn'. injection Hn' as <-. split; [done|]. exists j. by rewrite lookup_insert_eq.
    + rewrite lookup_insert_ne in Hn' by done. destruct (sl_complete _ _ Hsl n' v' Hn') as (Hv' & j' & Hj').
      split; [done|]. exists j'. rewrite lookup_insert_ne; [done|]. intros E. rewrite <-E, Hm in Hj'. rewrite Hj' in Ho.
      destruct Ho as (v3 & He & Ht3). destruct (sl_complete _ _ Hsl n v3 Ht3) as [Hv3 _].
      apply (f_equal name_of) in He. rewrite !name_of_entry in He by done. congruence.
Qed.

(** Keys that are no slots do not matter. *)
Lemma slots_other m t k d : slots m t -> ~ is_slot k -> slots (<[k := d]> m) t.
Proof.
  intros [Hs Hc] Hk. assert (Hpass : forall n j, passed_over m n j -> passed_over (<[k := d]> m) n j).
  { intros n j (n2 & v2 & ? & ? & ?). exists n2, v2. rewrite lookup_insert_ne; [done|].
    intros ->. by apply Hk. }
  split.
  - intros k' d' Hk' Hd'. rewrite lookup_insert_ne in Hd' by (by intros ->).
    destruct (Hs k' d' Hk' Hd') as (n & v & j & ? & ? & ? & ? & ? & Hp). exists n, v, j. split_and!; try done; try lia.
    intros j' Hj'. by apply Hpass, Hp.
  - intros n v Hn. destruct (Hc n v Hn) as (Hv & j & Hj). split; [done|]. exists j.
    rewrite lookup_insert_ne; [done|]. intros ->. by apply Hk.
Qed.

Lemma slots_empty : slots ∅ ∅.
Proof. split; [intros k d _|intros n v]; by rewrite lookup_empty. Qed.

(** No slot is left when all hold other names. *)
Lemma probe_full m n : (forall j, 0 <= j < Z.of_nat attempts -> passed_over m n j) -> probe attempts m n 0 = None.
Proof.
  intros Hp. replace attempts with (attempts + 0)%nat by lia.
  by rewrite (probe_passes 0 m n 0 attempts (Z.of_nat attempts)) by (done || lia).
Qed.

(** A slot that no other name has is not passed over. *)
Lemma probe_passed count m n i : probe count m n i = None ->
  forall j, i <= j < i + Z.of_nat count -> exists d, m !! key n j = Some d /\ name_of d <> Some n.
Proof.
  revert i. induction count as [|count IH]; intros i; [intros _ j Hj; lia|]. cbn [probe].
  destruct (m !! key n i) as [d|] eqn:Hd; [|done]. destruct (decide (name_of d = Some n)); [done|]. intros Hp j Hj.
  destruct (decide (j = i)) as [->|]; [by exists d|]. apply (IH (i + 1)); [done|lia].
Qed.
Lemma probe_own_slot m t n j :
  slots m t -> 0 <= j < Z.of_nat attempts ->
  (forall n', is_Some (t !! n') -> n' <> n -> forall j', 0 <= j' < Z.of_nat attempts -> key n' j' <> key n j) ->
  is_Some (probe attempts m n 0).
Proof.
  intros Hsl Hj Hown. destruct (probe attempts m n 0) as [o|] eqn:Hp; [by eexists|]. exfalso.
  destruct (probe_passed _ _ _ _ Hp j) as (d & Hd & Hne); [lia|].
  destruct (sl_sound _ _ Hsl _ _ (key_is_slot n j) Hd) as (n' & v' & j' & -> & Hv & Ht & Hk & Hj' & _).
  rewrite name_of_entry in Hne by done. apply (Hown n' ltac:(by eexists) ltac:(congruence) j' Hj'). congruence.
Qed.

(** As many names with the same slots as there are attempts leave none for another. *)
Lemma probe_crowded m t n (l : list N) :
  slots m t -> NoDup l -> length l = attempts -> (n ∉ l) ->
  (forall n', n' ∈ l -> is_Some (t !! n') /\ forall j, key n' j = key n j) ->
  probe attempts m n 0 = None.
Proof.
  intros Hsl Hnd Hlen Hn Hl. apply probe_full. intros j Hj.
  set (names := (fun j => m !! key n j ≫= name_of) <$> seqZ 0 (Z.of_nat attempts)).
  assert (Hsub : (Some <$> l) ⊆+ names).
  { apply NoDup_submseteq; [by apply (NoDup_fmap_2 Some)|]. intros o (n' & -> & Hn')%list_elem_of_fmap.
    destruct (Hl n' Hn') as [[v Hv] Hk]. destruct (sl_complete _ _ Hsl n' v Hv) as (Hok & j1 & Hj1).
    destruct (sl_sound _ _ Hsl _ _ (key_is_slot n' j1) Hj1) as (n2 & v2 & j2 & He & Hv2 & _ & Hkey & Hj2 & _).
    assert (n2 = n') as -> by (apply (f_equal name_of) in He; rewrite !name_of_entry in He by done; congruence).
    unfold names. apply list_elem_of_fmap. exists j2. split; [|apply elem_of_seqZ; lia].
    rewrite <-Hk, <-Hkey, Hj1. cbn. by rewrite name_of_entry. }
  apply submseteq_length_Permutation in Hsub; [|unfold names; rewrite !length_fmap, length_seqZ; lia].
  assert (Hin : (m !! key n j ≫= name_of) ∈ Some <$> l).
  { rewrite Hsub. unfold names. apply list_elem_of_fmap. exists j. split; [done|]. apply elem_of_seqZ. lia. }
  apply list_elem_of_fmap in Hin as (n' & Hn' & Hin). destruct (m !! key n j) as [d|] eqn:Hd; [|done].
  destruct (sl_sound _ _ Hsl _ _ (key_is_slot n j) Hd) as (n2 & v2 & _ & -> & Hv2 & _).
  cbn in Hn'. rewrite name_of_entry in Hn' by done. injection Hn' as ->. exists n', v2. split_and!; [|done|done].
  by intros ->.
Qed.

End probing.
