(* ===== verification/GlobalDb.v ===== *)
(** * The stores of the global state ([src/src/global/global.hpp], [global.cpp])

    The heap blocks, symbols, predicates, frozen closures and goals of the chain's tip,
    each in a trie database of the blockchain.  Symbols and predicates are stored under a
    hash of their name; a slot that is taken is passed over, ten slots are tried. *)

From S2P Require Import Prelude Bits Cells Heap FastHash HeapBlock.
From S2P Require Import TrieNode TrieDb TrieIter MetaEntry Blockchain.

Abbreviation qname := (Z * Z)%type.

Definition with_heap_db (c : blockchain) (db : triedb) : blockchain :=
  Blockchain (meta_db c) (blocks_db c) db (closure_db c) (symbols_db c) (program_db c) (tip c)
    (at_height c) (chains c) (bc_version c) (bc_height c) (bc_nonce c) (bc_time c).
Definition with_closure_db (c : blockchain) (db : triedb) : blockchain :=
  Blockchain (meta_db c) (blocks_db c) (heap_db c) db (symbols_db c) (program_db c) (tip c)
    (at_height c) (chains c) (bc_version c) (bc_height c) (bc_nonce c) (bc_time c).
Definition with_symbols_db (c : blockchain) (db : triedb) : blockchain :=
  Blockchain (meta_db c) (blocks_db c) (heap_db c) (closure_db c) db (program_db c) (tip c)
    (at_height c) (chains c) (bc_version c) (bc_height c) (bc_nonce c) (bc_time c).
Definition with_program_db (c : blockchain) (db : triedb) : blockchain :=
  Blockchain (meta_db c) (blocks_db c) (heap_db c) (closure_db c) (symbols_db c) db (tip c)
    (at_height c) (chains c) (bc_version c) (bc_height c) (bc_nonce c) (bc_time c).
Definition with_blocks_db (c : blockchain) (db : triedb) : blockchain :=
  Blockchain (meta_db c) db (heap_db c) (closure_db c) (symbols_db c) (program_db c) (tip c)
    (at_height c) (chains c) (bc_version c) (bc_height c) (bc_nonce c) (bc_time c).

Definition heap_root (c : blockchain) : Z := m_root_heap (tip c).
Definition closure_root (c : blockchain) : Z := m_root_closure (tip c).
Definition symbols_root (c : blockchain) : Z := m_root_symbols (tip c).
Definition program_root (c : blockchain) : Z := m_root_program (tip c).
Definition blocks_root (c : blockchain) : Z := m_root_blocks (tip c).

(** [is_empty()] of a trie database *)
Definition db_is_empty (db : triedb) : bool := bool_decide (roots db = ∅).

Section stores.
(** BLAKE2b with 32 bytes of output; the loop bound of [find]; what [remove] finds when
    it leaves the tree (see [TrieDb]). *)
Context (blake2b : list Z -> list Z) (find_fuel : nat) (beyond : Z).

Definition find_leaf (db : triedb) (root key : Z) : res (option triedb_leaf) :=
  found ← TrieIter.find db find_fuel root key;
  Ok (match found with Some (leaf, _) => Some leaf | None => None end).

(** ** Heap blocks *)

(** An absent block dereferences the null leaf. *)
Definition db_get_heap_block (c : blockchain) (block_index : Z) : res heap_block :=
  leaf ← find_leaf (heap_db c) (heap_root c) block_index;
  leaf ← of_option leaf UndefinedBehaviour;
  data ← copy_out (l_data leaf);
  custom_data_to_heap_block data (block_new block_index).

Definition db_set_heap_block (c : blockchain) (block_index : Z) (block : heap_block) : res blockchain :=
  data ← heap_block_to_custom_data block;
  db ← update blake2b (heap_db c) (heap_root c) block_index data;
  Ok (with_heap_db c db).

(** ** Symbols *)

Definition MAX_NAME_LENGTH : Z := 256.

Definition db_num_symbols (c : blockchain) : res Z :=
  if db_is_empty (symbols_db c) then Ok 0
  else if symbols_root c =? 0 then Ok 0
  else n ← num_entries (symbols_db c) (symbols_root c); Ok (n / 2).

(** The buffer has room for a name of 256 bytes. *)
Definition db_symbol_entry_to_custom_data (symbol_index : Z) (symbol_name : list Z) : res (list Z) :=
  i ← checked_cast_unsigned 32 symbol_index;
  n ← checked_cast_unsigned 32 (Z.of_nat (length symbol_name));
  _ ← require (n <=? MAX_NAME_LENGTH) UndefinedBehaviour;
  Ok (write_uint32 i ++ write_uint32 n ++ symbol_name).

Definition db_custom_data_to_symbol_entry (buffer : list Z) : res (Z * list Z) :=
  '(symbol_index, p) ← get_u32 buffer;
  '(str_len, p) ← get_u32 p;
  _ ← require (str_len <? MAX_NAME_LENGTH) AssertFailed;
  '(symbol_name, _) ← get_bytes str_len p;
  Ok (symbol_index, symbol_name).

(** The slot of the [i]th attempt: bit 29 keeps names apart from indices. *)
Definition symbol_key (name : list Z) (i : Z) : Z :=
  let h := finalize (update_uint64 (update_bytes fast_hash_new name) i) in
  (h &&& w32 (Z.lnot (1 ≪ 29))) ||| (1 ≪ 29).

Definition db_get_symbol_name (c : blockchain) (index : Z) : res (list Z) :=
  leaf ← find_leaf (symbols_db c) (symbols_root c) index;
  match leaf with
  | None => Ok []
  | Some leaf =>
      data ← copy_out (l_data leaf);
      '(symbol_index, symbol_name) ← db_custom_data_to_symbol_entry data;
      _ ← require (symbol_index =? index) AssertFailed;
      Ok symbol_name
  end.

(** Attempts [i], [i + 1], ..., of which [n] are left; 0 stands for not found. *)
Fixpoint symbol_index_loop (n : nat) (c : blockchain) (name : list Z) (i : Z) : res Z :=
  match n with
  | O => Ok 0
  | S n =>
      leaf ← find_leaf (symbols_db c) (symbols_root c) (symbol_key name i);
      match leaf with
      | None => Ok 0
      | Some leaf =>
          data ← copy_out (l_data leaf);
          '(symbol_index, symbol_name) ← db_custom_data_to_symbol_entry data;
          if bool_decide (symbol_name = name) then Ok symbol_index else symbol_index_loop n c name (i + 1)
      end
  end.
Definition db_get_symbol_index (c : blockchain) (name : list Z) : res Z :=
  if symbols_root c =? 0 then Ok 0 else symbol_index_loop 10 c name 0.

(** The first slot that is free or holds the name. *)
Fixpoint symbol_slot (n : nat) (c : blockchain) (name : list Z) (i : Z) : res (option Z) :=
  match n with
  | O => Ok None
  | S n =>
      let key := symbol_key name i in
      leaf ← find_leaf (symbols_db c) (symbols_root c) key;
      match leaf with
      | None => Ok (Some key)
      | Some leaf =>
          p ← get_bytes 4 (cd_bytes (l_data leaf));
          '(str_len, p) ← get_u32 (snd p);
          _ ← require (cd_size (l_data leaf) =? 8 + str_len) AssertFailed;
          '(str, _) ← get_bytes str_len p;
          if bool_decide (name = str) then Ok (Some key) else symbol_slot n c name (i + 1)
      end
  end.
Definition db_set_symbol_index (c : blockchain) (index : Z) (name : list Z) : res (blockchain * bool) :=
  slot ← symbol_slot 10 c name 0;
  match slot with
  | None => Ok (c, false)
  | Some key =>
      data ← db_symbol_entry_to_custom_data index name;
      db ← update blake2b (symbols_db c) (symbols_root c) key data;
      db ← update blake2b db (symbols_root c) index data;
      Ok (with_symbols_db c db, true)
  end.

(** ** Predicates *)

Definition db_num_predicates (c : blockchain) : res Z :=
  if db_is_empty (program_db c) then Ok 0
  else if program_root c =? 0 then Ok 0
  else num_entries (program_db c) (program_root c).

Definition predicate_key (qn : qname) (i : Z) : Z :=
  finalize (update_uint64 (update_uint64 (update_uint64 fast_hash_new (fst qn)) (snd qn)) i).

(** The name an entry starts with, and the rest of its bytes. *)
Definition read_qname (p : list Z) : res (qname * list Z) :=
  '(qfirst, p) ← get_u64 p;
  '(qsecond, p) ← get_u64 p;
  Ok ((qfirst, qsecond), p).

(** The entry of the predicate. *)
Fixpoint predicate_entry (n : nat) (c : blockchain) (qn : qname) (i : Z) : res (option (triedb_leaf * list Z)) :=
  match n with
  | O => Ok None
  | S n =>
      leaf ← find_leaf (program_db c) (program_root c) (predicate_key qn i);
      match leaf with
      | None => Ok None
      | Some leaf =>
          '(qn_entry, p) ← read_qname (cd_bytes (l_data leaf));
          if bool_decide (qn = qn_entry) then Ok (Some (leaf, p)) else predicate_entry n c qn (i + 1)
      end
  end.
Definition db_get_predicate (c : blockchain) (qn : qname) : res (option (list Z)) :=
  if program_root c =? 0 then Ok None
  else
    entry ← predicate_entry 10 c qn 0;
    match entry with
    | None => Ok None
    | Some (leaf, p) =>
        let n_bytes := cd_size (l_data leaf) - 16 in
        clauses ← read_cells (Z.to_nat (w64 n_bytes / 8)) p;
        Ok (Some clauses)
    end.

Definition MAX_CLAUSES : Z := 32.

Fixpoint predicate_slot (n : nat) (c : blockchain) (qn : qname) (i : Z) : res (option Z) :=
  match n with
  | O => Ok None
  | S n =>
      let key := predicate_key qn i in
      leaf ← find_leaf (program_db c) (program_root c) key;
      match leaf with
      | None => Ok (Some key)
      | Some leaf =>
          '(qn_entry, _) ← read_qname (cd_bytes (l_data leaf));
          if bool_decide (qn = qn_entry) then Ok (Some key) else predicate_slot n c qn (i + 1)
      end
  end.
Definition db_set_predicate (c : blockchain) (qn : qname) (clauses : list Z) : res (blockchain * bool) :=
  if MAX_CLAUSES <? Z.of_nat (length clauses) then Ok (c, false)
  else
    slot ← predicate_slot 10 c qn 0;
    match slot with
    | None => Ok (c, false)
    | Some key =>
        let data := write_uint64 (fst qn) ++ write_uint64 (snd qn) ++ (clauses ≫= write_uint64) in
        db ← update blake2b (program_db c) (program_root c) key data;
        Ok (with_program_db c db, true)
    end.

(** ** Frozen closures *)

Definition db_num_frozen_closures (c : blockchain) : res Z :=
  if db_is_empty (closure_db c) then Ok 0 else num_entries (closure_db c) (closure_root c).

Definition db_get_closure (c : blockchain) (addr : Z) : res Z :=
  leaf ← find_leaf (closure_db c) (closure_root c) addr;
  match leaf with
  | None => Ok EMPTY_LIST
  | Some leaf =>
      _ ← require (cd_size (l_data leaf) =? 8) AssertFailed;
      read_uint64 (cd_bytes (l_data leaf))
  end.
Definition db_remove_closure (c : blockchain) (addr : Z) : res blockchain :=
  db ← remove blake2b beyond (closure_db c) (closure_root c) addr; Ok (with_closure_db c db).
Definition db_set_closure (c : blockchain) (addr t : Z) : res blockchain :=
  db ← update blake2b (closure_db c) (closure_root c) addr (write_uint64 t); Ok (with_closure_db c db).

(** ** Goals *)

Definition db_set_block (c : blockchain) (height : Z) (buf : list Z) : res blockchain :=
  db ← update blake2b (blocks_db c) (blocks_root c) height buf; Ok (with_blocks_db c db).
(** The stored bytes of the goals, which [db_get_block] then reads as a term. *)
Definition db_get_block_data (c : blockchain) (e : meta_entry) : res (option (list Z)) :=
  leaf ← find_leaf (blocks_db c) (m_root_blocks e) (m_height e);
  match leaf with
  | None => Ok None
  | Some leaf => data ← copy_out (l_data leaf); Ok (Some data)
  end.

End stores.
