(* ===== verification/GlobalDbSpec.v ===== *)
(** * The stores of the global state are maps

    Each store of [GlobalDb] in terms of the finite map the version of its database
    holds: heap blocks and frozen closures by key, symbols and predicates as tables. *)

From S2P Require Import Prelude Bits Cells Heap FastHash HeapBlock Probing.
From S2P Require Import TrieNode TrieDb TrieDbSpec TrieUpdate TrieRoots TrieMap TrieIter TrieWalk.
From S2P Require Import MetaEntry Blockchain GlobalDb.

(** The version [root] of the database is the map [m]. *)
Definition holds (db : triedb) (root : Z) (m : version_map) : Prop :=
  exists s, refines db s /\ s !! root = Some m.

(** With enough fuel. *)
Definition eventually (P : nat -> Prop) : Prop := exists f0, forall f, (f0 <= f)%nat -> P f.

Lemma eventually_and P Q : eventually P -> eventually Q -> eventually (fun f => P f /\ Q f).
Proof. intros [f HP] [g HQ]. exists (f + g)%nat. intros k Hk. split; [apply HP|apply HQ]; lia. Qed.
Lemma eventually_mono P Q : eventually P -> (forall f, P f -> Q f) -> eventually Q.
Proof. intros [f HP] H. exists f. intros k Hk. by apply H, HP. Qed.
Lemma eventually_always (P : nat -> Prop) : (forall f, P f) -> eventually P.
Proof. intros H. exists O. intros f _. apply H. Qed.

Section holds.
Context (blake2b : list Z -> list Z).
Hypothesis blake2b_length : forall bs, length (blake2b bs) = 32%nat.
Hypothesis blake2b_bytes : forall bs, are_bytes (blake2b bs).
Implicit Types (db : triedb) (m : version_map).

Lemma holds_root db root m : holds db root m ->
  db_ok db /\ exists r, roots db !! root = Some r /\ (forall k, root_map db root k = m !! k) /\
    r_num_entries r = w64 (Z.of_nat (size m)).
Proof.
  intros (s & Hs & Hm). split; [apply Hs|].
  destruct (refines_lookup db s root Hs) as [[_ H]|(r & m' & Hr & Hm' & Hk & Hn)]; [by rewrite H in Hm|].
  rewrite Hm in Hm'. injection Hm' as <-. by exists r.
Qed.

Lemma holds_nonzero db root m : holds db root m -> root <> 0 /\ roots db <> ∅.
Proof.
  intros (Hok & r & Hr & _)%holds_root. split.
  - pose proof (ro_low _ _ _ (do_roots _ Hok root r Hr)) as Hlow. unfold VERSION_SZ in Hlow. lia.
  - intros E. by rewrite E, lookup_empty in Hr.
Qed.

(** [update] stores, other versions stay. *)
Lemma holds_update db root m key data :
  holds db root m -> is_word 64 key -> data_fits data ->
  exists db', update blake2b db root key data = Ok db' /\ holds db' root (<[key := data]> m).
Proof.
  intros (s & Hs & Hm) Hk Hd.
  pose proof (db_run_sim blake2b blake2b_length blake2b_bytes 0 db s (OpUpdate root key data) Hs (conj Hk Hd)) as H.
  cbn [spec_run db_run] in H. rewrite Hm in H. cbn in H. destruct H as (db' & Hdb' & Hs').
  exists db'. split; [done|]. eexists. split; [exact Hs'|]. by rewrite lookup_insert_eq.
Qed.

Lemma holds_remove beyond db root m key :
  holds db root m -> is_word 64 key -> is_Some (m !! key) ->
  exists db', remove blake2b beyond db root key = Ok db' /\ holds db' root (delete key m).
Proof.
  intros (s & Hs & Hm) Hk Hd.
  pose proof (db_run_sim blake2b blake2b_length blake2b_bytes beyond db s (OpRemove root key) Hs Hk) as H.
  cbn [spec_run db_run] in H. rewrite Hm in H. cbn in H. rewrite option_guard_True in H by done. cbn in H.
  destruct H as (db' & Hdb' & Hs').
  exists db'. split; [done|]. eexists. split; [exact Hs'|]. by rewrite lookup_insert_eq.
Qed.

Lemma holds_remove_absent beyond db root m key :
  holds db root m -> is_word 64 key -> m !! key = None ->
  exists e, remove blake2b beyond db root key = Throw e.
Proof.
  intros (s & Hs & Hm) Hk Hd.
  pose proof (db_run_sim blake2b blake2b_length blake2b_bytes beyond db s (OpRemove root key) Hs Hk) as H.
  cbn [spec_run db_run] in H. rewrite Hm in H. cbn in H.
  rewrite option_guard_False in H by (rewrite Hd; by intros [? ?]). exact H.
Qed.

(** What the leaf [find] returns looks like. *)
Definition leaf_for (l : option triedb_leaf) (o : option (list Z)) : Prop :=
  match l, o with
  | Some l, Some d => l_data l = custom_data_of d /\ copy_out (l_data l) = Ok d
  | None, None => True
  | _, _ => False
  end.

Lemma find_holds db root m key :
  holds db root m -> is_word 64 key ->
  eventually (fun f => exists l, find_leaf f db root key = Ok l /\ leaf_for l (m !! key)).
Proof.
  intros (Hok & r & Hr & Hm & _)%holds_root Hk. exists (version_fuel db root). intros f Hf.
  destruct (find_leaf_ok db root r Hok Hr f key Hk Hf) as (o & Ho & Hl). unfold find_leaf. rewrite Ho, Ok_bind.
  destruct o as [[l p]|]; (eexists; split; [done|]).
  - destruct Hl as (_ & Hmap & Hlok). rewrite Hm in Hmap. rewrite Hmap. cbn.
    destruct (l_data l) as [bs sz] eqn:E. destruct Hlok as (_ & [Hsz _] & _). rewrite E in Hsz. cbn in *.
    subst sz. split; [done|]. unfold copy_out. cbn. rewrite Z.leb_refl. cbn. rewrite Nat2Z.id.
    by rewrite take_ge by lia.
  - rewrite Hm in Hl. by rewrite Hl.
Qed.

Lemma num_holds db root m : holds db root m -> num_entries db root = Ok (w64 (Z.of_nat (size m))).
Proof.
  intros H. pose proof (holds_nonzero _ _ _ H) as [H0 _]. apply holds_root in H as (_ & r & Hr & _ & Hn).
  unfold num_entries. rewrite (proj2 (Z.eqb_neq _ _)) by done. unfold get_root. rewrite Hr. cbn. by rewrite Hn.
Qed.

(** ** Frozen closures *)

(** The stored closures: a map from addresses to cells. *)
Definition closure_data (m : gmap Z Z) : version_map := write_uint64 <$> m.
Definition closures_are (c : blockchain) (m : gmap Z Z) : Prop :=
  holds (closure_db c) (closure_root c) (closure_data m) /\ map_Forall (fun addr t => is_word 64 addr /\ is_word 64 t) m.

Lemma data_fits_word t : data_fits (write_uint64 t).
Proof. split; [rewrite write_uint64_le; apply le_bytes_are_bytes|by vm_compute]. Qed.

Lemma get_closure c (m : gmap Z Z) addr :
  closures_are c m -> is_word 64 addr ->
  eventually (fun f => db_get_closure f c addr = Ok (default EMPTY_LIST (m !! addr))).
Proof.
  intros [Hh Hw] Ha. eapply eventually_mono; [exact (find_holds _ _ _ _ Hh Ha)|]. intros f (l & Hl & Hfor).
  unfold db_get_closure. rewrite Hl, Ok_bind. unfold closure_data in Hfor. rewrite lookup_fmap in Hfor.
  destruct l as [l|], (m !! addr) as [t|] eqn:E; cbn in Hfor; try done.
  destruct Hfor as [-> _]. cbn [cd_size cd_bytes custom_data_of]. change (length (write_uint64 t)) with 8%nat.
  rewrite require_true by done. rewrite <-(app_nil_r (write_uint64 t)), Ok_bind, read_write_uint64, wrap_id; [done|].
  by apply (Hw addr).
Qed.

Lemma set_closure c (m : gmap Z Z) addr t :
  closures_are c m -> is_word 64 addr -> is_word 64 t ->
  exists db, db_set_closure blake2b c addr t = Ok (with_closure_db c db) /\ closures_are (with_closure_db c db) (<[addr := t]> m).
Proof.
  intros [Hh Hw] Ha Ht. destruct (holds_update _ _ _ addr (write_uint64 t) Hh Ha (data_fits_word t)) as (db & Hdb & Hh').
  exists db. unfold db_set_closure. rewrite Hdb, Ok_bind. split; [done|]. split.
  - unfold closure_data in *. rewrite fmap_insert. exact Hh'.
  - by apply map_Forall_insert_2.
Qed.

Lemma remove_closure beyond c (m : gmap Z Z) addr :
  closures_are c m -> is_word 64 addr -> is_Some (m !! addr) ->
  exists db, db_remove_closure blake2b beyond c addr = Ok (with_closure_db c db) /\
    closures_are (with_closure_db c db) (delete addr m).
Proof.
  intros [Hh Hw] Ha Hm. destruct (holds_remove beyond _ _ _ addr Hh Ha) as (db & Hdb & Hh').
  { unfold closure_data. rewrite lookup_fmap. by apply fmap_is_Some. }
  exists db. unfold db_remove_closure. rewrite Hdb, Ok_bind. split; [done|]. split.
  - unfold closure_data in *. rewrite fmap_delete. exact Hh'.
  - by apply map_Forall_delete.
Qed.

(** ** Heap blocks *)

(** The stored blocks: the bytes under [i] are those of block [i]. *)
Definition same_block (b b' : heap_block) : Prop :=
  hb_size b' = hb_size b /\ forall p, 0 <= p < hb_size b -> hb_cells b' !! p = hb_cells b !! p.
Definition blocks_are (c : blockchain) (bs : gmap Z heap_block) : Prop :=
  exists m, holds (heap_db c) (heap_root c) m /\
    forall i, match bs !! i with
              | Some b => is_word 64 i /\ block_full b /\ exists d, m !! i = Some d /\ heap_block_to_custom_data b = Ok d
              | None => m !! i = None
              end.

Lemma get_heap_block_ok c bs i b :
  blocks_are c bs -> bs !! i = Some b ->
  exists b', eventually (fun f => db_get_heap_block f c i = Ok b') /\ hb_index b' = i /\ hb_changed b' = false /\
    block_full b' /\ same_block b b'.
Proof.
  intros (m & Hh & Hm) Hb. specialize (Hm i). rewrite Hb in Hm. destruct Hm as (Hi & Hf & d & Hmi & Hd).
  destruct (block_read_written b Hf) as (d' & Hd' & _ & _ & Hread). rewrite Hd in Hd'. injection Hd' as <-.
  destruct (Hread (block_new i)) as (b' & Hb' & Hix & Hsz & Hch & Hf' & Hp'); [done|].
  exists b'. split_and!; [|done|done|done|by split].
  eapply eventually_mono; [exact (find_holds _ _ _ _ Hh Hi)|]. intros f (l & Hl & Hfor).
  unfold db_get_heap_block. rewrite Hl, Ok_bind. rewrite Hmi in Hfor. destruct l as [l|]; [|done].
  destruct Hfor as [_ Hc]. cbn [of_option]. by rewrite Ok_bind, Hc, Ok_bind.
Qed.

Lemma set_heap_block_ok c bs i b :
  blocks_are c bs -> is_word 64 i -> block_full b ->
  exists db, db_set_heap_block blake2b c i b = Ok (with_heap_db c db) /\
    blocks_are (with_heap_db c db) (<[i := b]> bs).
Proof.
  intros (m & Hh & Hm) Hi Hf. destruct (block_read_written b Hf) as (d & Hd & Hby & Hlen & _).
  destruct (holds_update _ _ _ i d Hh Hi) as (db & Hdb & Hh').
  { split; [done|]. rewrite Hlen. destruct Hf as [Hs _]. unfold MAX_SIZE, leaf_MAX_SIZE_IN_BYTES, MB in *. lia. }
  exists db. unfold db_set_heap_block. rewrite Hd, Ok_bind, Hdb. split; [done|].
  exists (<[i := d]> m). split; [exact Hh'|]. intros j. destruct (decide (j = i)) as [->|Hne].
  - rewrite !lookup_insert_eq. split_and!; [done..|]. by exists d.
  - rewrite !lookup_insert_ne by done. apply Hm.
Qed.

(** ** Symbols *)

Definition symbol_entry (name : list Z) (index : Z) : list Z :=
  write_uint32 index ++ write_uint32 (Z.of_nat (length name)) ++ name.
Definition symbol_name_of (d : list Z) : option (list Z) :=
  match db_custom_data_to_symbol_entry d with Ok (_, name) => Some name | Throw _ => None end.
Definition symbol_ok (name : list Z) (index : Z) : Prop :=
  is_word 29 index /\ (length name < 256)%nat /\ are_bytes name.
(** Keys of names have bit 29 set. *)
Definition name_slot (k : Z) : Prop := Z.testbit k 29 = true.

Lemma get_bytes_all bs : get_bytes (Z.of_nat (length bs)) bs = Ok (bs, []).
Proof. rewrite <-(app_nil_r bs) at 2. by apply get_bytes_app. Qed.

Lemma read_symbol_entry name index :
  symbol_ok name index -> db_custom_data_to_symbol_entry (symbol_entry name index) = Ok (index, name).
Proof.
  intros (Hi & Hl & _). unfold db_custom_data_to_symbol_entry, symbol_entry.
  rewrite get_u32_write by (eapply is_word_le; [exact Hi|lia]). rewrite Ok_bind.
  rewrite get_u32_write by (split; lia). rewrite Ok_bind. cbn beta iota.
  rewrite (proj2 (Z.ltb_lt _ _)) by (unfold MAX_NAME_LENGTH; lia). cbn [require]. rewrite Ok_bind.
  by rewrite get_bytes_all.
Qed.
Lemma symbol_name_of_entry name index : symbol_ok name index -> symbol_name_of (symbol_entry name index) = Some name.
Proof. intros H. unfold symbol_name_of. by rewrite read_symbol_entry. Qed.

Lemma symbol_key_slot name j : name_slot (symbol_key name j).
Proof. unfold name_slot, symbol_key. by rewrite Z.lor_spec, orb_true_r. Qed.
Lemma symbol_key_word name j : is_word 64 (symbol_key name j).
Proof.
  apply (is_word_le 32); [|done]. unfold symbol_key. apply lor_word; [done| |by vm_compute].
  apply land_word; [done|]. by apply finalize_word, update_word_state.
Qed.
Lemma index_no_slot index : is_word 29 index -> ~ name_slot index.
Proof. intros [_ H]%is_word_testbit; [|done]. unfold name_slot. by rewrite H. Qed.

(** The stored table: names with their indices, and under each index its name. *)
Definition symbols_are (c : blockchain) (t : gmap (list Z) Z) : Prop :=
  exists m, holds (symbols_db c) (symbols_root c) m /\
    slots symbol_key symbol_entry symbol_ok name_slot 10 m t /\
    forall name index, t !! name = Some index -> m !! index = Some (symbol_entry name index).

(** Hashes are not to be computed below. *)
#[local] Opaque symbol_key.

(** The name's slot in the table, and who holds it. *)
Definition symbol_probe (m : version_map) (name : list Z) : option (Z * option (list Z)) :=
  probe symbol_key symbol_name_of 10 m name 0.

(** Both searches follow [probe]. *)
Lemma slot_data m t k d :
  slots symbol_key symbol_entry symbol_ok name_slot 10 m t -> name_slot k -> m !! k = Some d ->
  exists name index, d = symbol_entry name index /\ symbol_ok name index.
Proof. intros Hs Hk Hd. destruct (sl_sound _ _ _ _ _ _ _ Hs k d Hk Hd) as (n & v & _ & -> & Hv & _). by exists n, v. Qed.

Lemma index_loop_probe c m t name :
  holds (symbols_db c) (symbols_root c) m -> slots symbol_key symbol_entry symbol_ok name_slot 10 m t ->
  forall count i, eventually (fun f => symbol_index_loop f count c name i =
    Ok (match probe symbol_key symbol_name_of count m name i with
        | Some (_, Some d) => match db_custom_data_to_symbol_entry d with Ok (index, _) => index | Throw _ => 0 end
        | _ => 0
        end)).
Proof.
  intros Hh Hs. induction count as [|count IH]; intros i; [by apply eventually_always|].
  destruct (IH (i + 1)) as [f0 Hf0]. destruct (find_holds _ _ _ _ Hh (symbol_key_word name i)) as [f1 Hf1].
  exists (f0 + f1)%nat. intros f Hf. cbn [symbol_index_loop probe].
  destruct (Hf1 f) as (l & Hl & Hfor); [lia|]. rewrite Hl, Ok_bind.
  destruct (m !! symbol_key name i) as [d|] eqn:Hd, l as [l|]; cbn in Hfor; try done.
  destruct Hfor as [_ Hc]. rewrite Hc, Ok_bind.
  destruct (slot_data _ _ _ _ Hs (symbol_key_slot name i) Hd) as (n' & v' & -> & Hok).
  rewrite symbol_name_of_entry, read_symbol_entry, Ok_bind by done. cbn beta iota.
  destruct (decide (n' = name)) as [->|Hne].
  - rewrite bool_decide_eq_true_2, decide_True by done. by rewrite read_symbol_entry.
  - rewrite bool_decide_eq_false_2, decide_False by congruence. apply Hf0. lia.
Qed.

Lemma symbol_slot_probe c m t name :
  holds (symbols_db c) (symbols_root c) m -> slots symbol_key symbol_entry symbol_ok name_slot 10 m t ->
  forall count i, eventually (fun f => symbol_slot f count c name i =
    Ok (fst <$> probe symbol_key symbol_name_of count m name i)).
Proof.
  intros Hh Hs. induction count as [|count IH]; intros i; [by apply eventually_always|].
  destruct (IH (i + 1)) as [f0 Hf0]. destruct (find_holds _ _ _ _ Hh (symbol_key_word name i)) as [f1 Hf1].
  exists (f0 + f1)%nat. intros f Hf. cbn [symbol_slot probe].
  destruct (Hf1 f) as (l & Hl & Hfor); [lia|]. rewrite Hl, Ok_bind.
  destruct (m !! symbol_key name i) as [d|] eqn:Hd, l as [l|]; cbn in Hfor; try done.
  destruct Hfor as [-> _]. cbn [cd_bytes cd_size custom_data_of].
  destruct (slot_data _ _ _ _ Hs (symbol_key_slot name i) Hd) as (n' & v' & -> & Hok).
  rewrite symbol_name_of_entry by done. pose proof Hok as (_ & Hlen & _). unfold symbol_entry.
  rewrite get_bytes_app, Ok_bind by done. cbn [snd]. rewrite get_u32_write, Ok_bind by (split; lia). cbn beta iota.
  rewrite require_true by (apply Z.eqb_eq; rewrite !length_app; cbn [length write_uint32]; lia).
  rewrite Ok_bind, get_bytes_all, Ok_bind. cbn beta iota.
  destruct (decide (n' = name)) as [->|Hne].
  - by rewrite bool_decide_eq_true_2, decide_True by done.
  - rewrite bool_decide_eq_false_2, decide_False by congruence. apply Hf0. lia.
Qed.

Lemma get_symbol_index c t name :
  symbols_are c t -> eventually (fun f => db_get_symbol_index f c name = Ok (default 0 (t !! name))).
Proof.
  intros (m & Hh & Hs & _). pose proof (holds_nonzero _ _ _ Hh) as [Hr _].
  eapply eventually_mono; [exact (index_loop_probe c m t name Hh Hs 10 0)|]. intros f Hf.
  unfold db_get_symbol_index. rewrite (proj2 (Z.eqb_neq _ _)) by done. rewrite Hf.
  pose proof (probe_lookup symbol_key symbol_entry symbol_name_of symbol_ok name_slot 10
    symbol_key_slot symbol_name_of_entry m t name Hs) as Hp.
  destruct (probe _ _ _ _ _ _) as [[k [d|]]|]; [|by rewrite Hp..]. destruct Hp as (v & -> & Hv).
  destruct (sl_complete _ _ _ _ _ _ _ Hs name v Hv) as [Hok _]. by rewrite read_symbol_entry, Hv.
Qed.

Lemma get_symbol_name c t name index :
  symbols_are c t -> t !! name = Some index ->
  eventually (fun f => db_get_symbol_name f c index = Ok name).
Proof.
  intros (m & Hh & Hs & Hn) Ht. specialize (Hn name index Ht).
  destruct (sl_complete _ _ _ _ _ _ _ Hs name index Ht) as [Hok _]. pose proof Hok as (Hi & _).
  assert (Hi64 : is_word 64 index) by (eapply is_word_le; [exact Hi|lia]).
  eapply eventually_mono; [exact (find_holds _ _ _ _ Hh Hi64)|]. intros f (l & Hl & Hfor).
  unfold db_get_symbol_name. rewrite Hl, Ok_bind. rewrite Hn in Hfor. destruct l as [l|]; [|done].
  destruct Hfor as [_ ->]. rewrite Ok_bind, read_symbol_entry, Ok_bind by done. cbn beta iota.
  by rewrite Z.eqb_refl.
Qed.

Lemma symbol_entry_fits name index : symbol_ok name index -> data_fits (symbol_entry name index).
Proof.
  intros (_ & Hl & Hb). unfold symbol_entry. split.
  - rewrite !write_uint32_le. repeat (apply Forall_app; split); [apply le_bytes_are_bytes..|done].
  - rewrite !length_app. cbn [length write_uint32]. unfold leaf_MAX_SIZE_IN_BYTES, MB. lia.
Qed.

Lemma write_symbol_entry name index : symbol_ok name index ->
  db_symbol_entry_to_custom_data index name = Ok (symbol_entry name index).
Proof.
  intros (Hi & Hl & _). unfold db_symbol_entry_to_custom_data, checked_cast_unsigned. destruct Hi as [? Hi].
  rewrite (proj2 (Z.leb_le 0 index)), (proj2 (Z.ltb_lt index _)) by lia. cbn [andb require]. rewrite !Ok_bind.
  rewrite (proj2 (Z.leb_le 0 _)), (proj2 (Z.ltb_lt (Z.of_nat _) _)) by lia. cbn [andb require]. rewrite !Ok_bind.
  rewrite (proj2 (Z.leb_le _ _)) by (unfold MAX_NAME_LENGTH; lia). done.
Qed.

Lemma set_symbol c t name index :
  symbols_are c t -> symbol_ok name index -> (forall name', t !! name' = Some index -> name' = name) ->
  exists c' b, eventually (fun f => db_set_symbol_index blake2b f c index name = Ok (c', b)) /\
    if b : bool then exists db, c' = with_symbols_db c db /\ symbols_are c' (<[name := index]> t)
    else c' = c /\ exists m, holds (symbols_db c) (symbols_root c) m /\ symbol_probe m name = None /\
      slots symbol_key symbol_entry symbol_ok name_slot 10 m t.
Proof.
  intros (m & Hh & Hs & Hn) Hok Hfresh.
  pose proof (symbol_slot_probe c m t name Hh Hs 10 0) as [f0 Hf0].
  destruct (probe symbol_key symbol_name_of 10 m name 0) as [[k o]|] eqn:Hp.
  - destruct (probe_inv symbol_key symbol_entry symbol_name_of symbol_ok name_slot 10 symbol_key_slot
      symbol_name_of_entry _ _ _ _ _ _ _ Hs Hp) as (j & -> & Hj & Hm & _); [lia..|].
    pose proof (symbol_entry_fits _ _ Hok) as Hfit.
    destruct (holds_update _ _ _ _ _ Hh (symbol_key_word name j) Hfit) as (db1 & Hdb1 & Hh1).
    destruct (holds_update _ _ _ index _ Hh1 ltac:(eapply is_word_le; [apply Hok|lia]) Hfit) as (db2 & Hdb2 & Hh2).
    exists (with_symbols_db c db2), true. split.
    + exists f0. intros f Hf. unfold db_set_symbol_index. rewrite Hf0 by done. cbn [fmap option_fmap option_map fst].
      rewrite Ok_bind, write_symbol_entry, Ok_bind, Hdb1, Ok_bind by done. by rewrite Hdb2.
    + exists db2. split; [done|]. eexists. split; [exact Hh2|]. split.
      * apply slots_other; [apply symbol_key_slot| |by apply index_no_slot, Hok].
        by eapply slots_store; [apply symbol_key_slot|apply symbol_name_of_entry|..].
      * intros name' index' Ht. destruct (decide (index' = index)) as [->|Hne].
        -- rewrite lookup_insert_eq. destruct (decide (name' = name)) as [->|Hne']; [done|].
           rewrite lookup_insert_ne in Ht by done. by rewrite (Hfresh name' Ht).
        -- rewrite lookup_insert_ne by done.
           destruct (decide (name' = name)) as [->|Hne'].
           { rewrite lookup_insert_eq in Ht. congruence. }
           rewrite lookup_insert_ne in Ht by done. rewrite lookup_insert_ne; [by apply Hn|].
           intros E. destruct (sl_complete _ _ _ _ _ _ _ Hs name' index' Ht) as [[Hi _] _].
           apply (index_no_slot index' Hi). rewrite <-E. apply symbol_key_slot.
  - exists c, false. split; [|split; [done|by exists m]].
    exists f0. intros f Hf. unfold db_set_symbol_index. by rewrite Hf0.
Qed.

(** ** Predicates *)

Definition predicate_data (qn : qname) (clauses : list Z) : list Z :=
  write_uint64 (fst qn) ++ write_uint64 (snd qn) ++ (clauses ≫= write_uint64).
Definition predicate_name_of (d : list Z) : option qname :=
  match read_qname d with Ok (qn, _) => Some qn | Throw _ => None end.
Definition predicate_ok (qn : qname) (clauses : list Z) : Prop :=
  is_word 64 (fst qn) /\ is_word 64 (snd qn) /\ Z.of_nat (length clauses) <= MAX_CLAUSES /\ Forall (is_word 64) clauses.

(** The stored program: predicates with their clauses. *)
Definition predicates_are (c : blockchain) (t : gmap qname (list Z)) : Prop :=
  exists m, holds (program_db c) (program_root c) m /\
    slots predicate_key predicate_data predicate_ok (fun _ => True) 10 m t.

Lemma read_predicate_data qn clauses tl : predicate_ok qn clauses ->
  read_qname (predicate_data qn clauses ++ tl) = Ok (qn, (clauses ≫= write_uint64) ++ tl).
Proof.
  intros (H1 & H2 & _). unfold read_qname, predicate_data. rewrite <-!app_assoc.
  rewrite get_u64_write, Ok_bind by done. cbn beta iota. rewrite get_u64_write, Ok_bind by done. by destruct qn.
Qed.
Lemma predicate_name_of_data qn clauses :
  predicate_ok qn clauses -> predicate_name_of (predicate_data qn clauses) = Some qn.
Proof. intros H. unfold predicate_name_of. rewrite <-(app_nil_r (predicate_data _ _)). by rewrite read_predicate_data. Qed.
Lemma predicate_key_word qn j : is_word 64 (predicate_key qn j).
Proof.
  apply (is_word_le 32); [|done]. apply finalize_word. unfold update_uint64. by apply update_word_state.
Qed.
#[local] Opaque predicate_key.
Lemma length_words (cs : list Z) : length (cs ≫= write_uint64) = (8 * length cs)%nat.
Proof. induction cs as [|c cs IH]; [done|]. cbn [mbind list_bind]. rewrite length_app, IH. cbn. lia. Qed.

Section program.
Variables (c : blockchain) (m : version_map) (t : gmap qname (list Z)).
Hypothesis Hh : holds (program_db c) (program_root c) m.
Hypothesis Hs : slots predicate_key predicate_data predicate_ok (fun _ => True) 10 m t.

Lemma predicate_at k d : m !! k = Some d -> exists qn cs, d = predicate_data qn cs /\ predicate_ok qn cs.
Proof. intros Hd. destruct (sl_sound _ _ _ _ _ _ _ Hs k d I Hd) as (n & v & _ & -> & Hv & _). by exists n, v. Qed.

Lemma predicate_entry_probe qn : forall count i, eventually (fun f => exists o, predicate_entry f count c qn i = Ok o /\
    match probe predicate_key predicate_name_of count m qn i, o with
    | Some (_, Some d), Some (leaf, p) => l_data leaf = custom_data_of d /\ d = write_uint64 (fst qn) ++ write_uint64 (snd qn) ++ p
    | Some (_, Some d), None => False
    | _, o => o = None
    end).
Proof.
  induction count as [|count IH]; intros i; [apply eventually_always; intros f; by exists None|].
  destruct (IH (i + 1)) as [f0 Hf0]. destruct (find_holds _ _ _ _ Hh (predicate_key_word qn i)) as [f1 Hf1].
  exists (f0 + f1)%nat. intros f Hf. cbn [predicate_entry probe].
  destruct (Hf1 f) as (l & Hl & Hfor); [lia|]. rewrite Hl, Ok_bind.
  destruct (m !! predicate_key qn i) as [d|] eqn:Hd, l as [l|]; cbn in Hfor; try done; [|by exists None].
  destruct Hfor as [Hld _]. destruct (predicate_at _ _ Hd) as (n' & v' & -> & Hok). rewrite Hld. cbn [cd_bytes custom_data_of].
  rewrite predicate_name_of_data by done. rewrite <-(app_nil_r (predicate_data n' v')).
  rewrite read_predicate_data, Ok_bind, app_nil_r by done. cbn beta iota. destruct (decide (n' = qn)) as [->|Hne].
  - rewrite bool_decide_eq_true_2, decide_True by done. eexists. split; [done|]. by rewrite app_nil_r.
  - rewrite bool_decide_eq_false_2, decide_False by congruence. apply Hf0. lia.
Qed.

Lemma predicate_slot_probe qn : forall count i, eventually (fun f => predicate_slot f count c qn i =
    Ok (fst <$> probe predicate_key predicate_name_of count m qn i)).
Proof.
  induction count as [|count IH]; intros i; [by apply eventually_always|].
  destruct (IH (i + 1)) as [f0 Hf0]. destruct (find_holds _ _ _ _ Hh (predicate_key_word qn i)) as [f1 Hf1].
  exists (f0 + f1)%nat. intros f Hf. cbn [predicate_slot probe].
  destruct (Hf1 f) as (l & Hl & Hfor); [lia|]. rewrite Hl, Ok_bind.
  destruct (m !! predicate_key qn i) as [d|] eqn:Hd, l as [l|]; cbn in Hfor; try done.
  destruct Hfor as [Hld _]. destruct (predicate_at _ _ Hd) as (n' & v' & -> & Hok). rewrite Hld. cbn [cd_bytes custom_data_of].
  rewrite predicate_name_of_data by done. rewrite <-(app_nil_r (predicate_data n' v')).
  rewrite read_predicate_data, Ok_bind by done. cbn beta iota. destruct (decide (n' = qn)) as [->|Hne].
  - by rewrite bool_decide_eq_true_2, decide_True by done.
  - rewrite bool_decide_eq_false_2, decide_False by congruence. apply Hf0. lia.
Qed.
End program.

Lemma get_predicate_clauses c t qn :
  predicates_are c t -> eventually (fun f => db_get_predicate f c qn = Ok (t !! qn)).
Proof.
  intros (m & Hh & Hs). pose proof (holds_nonzero _ _ _ Hh) as [Hr _].
  eapply eventually_mono; [exact (predicate_entry_probe c m t Hh Hs qn 10 0)|]. intros f (o & Ho & Hp).
  unfold db_get_predicate. rewrite (proj2 (Z.eqb_neq _ _)) by done. rewrite Ho, Ok_bind.
  pose proof (probe_lookup predicate_key predicate_data predicate_name_of predicate_ok (fun _ => True) 10
    (fun _ _ => I) predicate_name_of_data m t qn Hs) as Hl.
  destruct (probe _ _ _ _ _ _) as [[k [d|]]|]; [|by rewrite Hp, Hl..]. destruct o as [[leaf p]|]; [|done].
  destruct Hp as [-> Hd], Hl as (cs & Hcs & Ht). destruct (sl_complete _ _ _ _ _ _ _ Hs qn cs Ht) as [(H1 & H2 & Hlen & Hcw) _].
  rewrite Hcs in Hd. unfold predicate_data in Hd. apply app_inv_head, app_inv_head in Hd as <-.
  cbn [cd_size custom_data_of]. rewrite Hcs. unfold predicate_data. rewrite !length_app, length_words. cbn [length write_uint64].
  unfold MAX_CLAUSES in Hlen. rewrite wrap_id by (split; lia).
  replace (Z.to_nat _) with (length cs); [by rewrite read_cells_written, Ht|].
  replace (_ - 16) with (Z.of_nat (length cs) * 8) by lia. rewrite Z.div_mul by done. lia.
Qed.

Lemma set_predicate_clauses c t qn clauses :
  predicates_are c t -> is_word 64 (fst qn) -> is_word 64 (snd qn) -> Forall (is_word 64) clauses ->
  exists c' b, eventually (fun f => db_set_predicate blake2b f c qn clauses = Ok (c', b)) /\
    if b : bool then exists db, c' = with_program_db c db /\ predicates_are c' (<[qn := clauses]> t)
    else c' = c /\ (MAX_CLAUSES < Z.of_nat (length clauses) \/
      exists m, holds (program_db c) (program_root c) m /\ probe predicate_key predicate_name_of 10 m qn 0 = None /\
        slots predicate_key predicate_data predicate_ok (fun _ => True) 10 m t).
Proof.
  intros (m & Hh & Hs) H1 H2 Hw. unfold db_set_predicate. destruct (Z.ltb_spec MAX_CLAUSES (Z.of_nat (length clauses))) as [Hlt|Hle].
  { exists c, false. split; [by apply eventually_always|]. split; [done|]. by left. }
  assert (Hok : predicate_ok qn clauses) by done.
  pose proof (predicate_slot_probe c m t Hh Hs qn 10 0) as [f0 Hf0].
  destruct (probe predicate_key predicate_name_of 10 m qn 0) as [[k o]|] eqn:Hp.
  - destruct (probe_inv predicate_key predicate_data predicate_name_of predicate_ok (fun _ => True) 10 (fun _ _ => I)
      predicate_name_of_data _ _ _ _ _ _ _ Hs Hp) as (j & -> & Hj & Hm & _); [lia..|].
    destruct (holds_update _ _ _ (predicate_key qn j) (predicate_data qn clauses) Hh (predicate_key_word qn j)) as (db & Hdb & Hh').
    { unfold predicate_data, MAX_CLAUSES in *. split.
      - rewrite !write_uint64_le. repeat (apply Forall_app; split); [apply le_bytes_are_bytes..|].
        clear. induction clauses as [|x l IH]; [constructor|]. cbn [mbind list_bind]. apply Forall_app. split; [|done].
        rewrite write_uint64_le. apply le_bytes_are_bytes.
      - rewrite !length_app, length_words. cbn [length write_uint64]. unfold leaf_MAX_SIZE_IN_BYTES, MB. lia. }
    exists (with_program_db c db), true. split.
    + exists f0. intros f Hf. rewrite Hf0 by done. cbn [fmap option_fmap option_map fst]. rewrite Ok_bind.
      unfold predicate_data in Hdb. by rewrite Hdb.
    + exists db. split; [done|]. eexists. split; [exact Hh'|].
      by eapply slots_store; [done|apply predicate_name_of_data|..].
  - exists c, false. split; [|split; [done|right; by exists m]].
    exists f0. intros f Hf. by rewrite Hf0.
Qed.
End holds.
