(* ===== verification/BlockHeap.v ===== *)
(** * The heap in blocks of the global interpreter ([src/src/global/global_interpreter.*])

    The heap of the global interpreter keeps only some of its blocks in memory: blocks that
    were changed since the last commit, blocks in a cache, the head block and the block used
    last; all others are read from the database.  Blocks are objects on the C++ heap, which
    several of these places point to, and the cache deletes the ones it evicts.  A pointer
    is the number of its object; using one whose object was deleted is
    [UndefinedBehaviour]. *)

From stdpp Require Import sorting.
From S2P Require Import Prelude Cells Heap HeapBlock Lru TrieNode TrieDb TrieIter Blockchain GlobalDb.

Abbreviation block_cache := (@lru_cache Z _ _ Z).

Record block_heap := BlockHeap {
  bh_objects : gmap Z heap_block;   (* the blocks in memory *)
  bh_next : Z;                      (* the number of the next object *)
  bh_size : Z;                      (* size_ *)
  bh_head : option Z;               (* head_block_ *)
  bh_current : option Z;            (* current_block_ *)
  bh_current_index : Z;             (* current_block_index_ *)
  bh_cache : block_cache;           (* block_cache_ *)
  bh_modified : gmap Z Z;           (* modified_blocks_ *)
  bh_old_size : Z                   (* old_heap_size_ *)
}.

Definition NEW_BLOCK : Z := 2 ^ 64 - 1.
Definition NO_BLOCK : Z := 2 ^ 64 - 2.

Definition with_objects (g : block_heap) m n : block_heap :=
  BlockHeap m n (bh_size g) (bh_head g) (bh_current g) (bh_current_index g) (bh_cache g) (bh_modified g) (bh_old_size g).
Definition with_head (g : block_heap) p size : block_heap :=
  BlockHeap (bh_objects g) (bh_next g) size p (bh_current g) (bh_current_index g) (bh_cache g) (bh_modified g) (bh_old_size g).
Definition with_current (g : block_heap) p i : block_heap :=
  BlockHeap (bh_objects g) (bh_next g) (bh_size g) (bh_head g) p i (bh_cache g) (bh_modified g) (bh_old_size g).
Definition with_cache (g : block_heap) c : block_heap :=
  BlockHeap (bh_objects g) (bh_next g) (bh_size g) (bh_head g) (bh_current g) (bh_current_index g) c (bh_modified g) (bh_old_size g).
Definition with_modified (g : block_heap) m : block_heap :=
  BlockHeap (bh_objects g) (bh_next g) (bh_size g) (bh_head g) (bh_current g) (bh_current_index g) (bh_cache g) m (bh_old_size g).
Definition with_old_size (g : block_heap) n : block_heap :=
  BlockHeap (bh_objects g) (bh_next g) (bh_size g) (bh_head g) (bh_current g) (bh_current_index g) (bh_cache g) (bh_modified g) n.

(** [global_interpreter(global &)] *)
Definition block_heap_new (capacity : nat) : block_heap :=
  BlockHeap ∅ 0 0 None None NO_BLOCK (lru_empty capacity) ∅ 0.

(** ** Objects *)

Definition object (g : block_heap) (p : Z) : res heap_block := of_option (bh_objects g !! p) UndefinedBehaviour.
Definition set_object (g : block_heap) (p : Z) (b : heap_block) : block_heap :=
  with_objects g (<[p := b]> (bh_objects g)) (bh_next g).
Definition new_object (g : block_heap) (b : heap_block) : block_heap * Z :=
  (with_objects g (<[bh_next g := b]> (bh_objects g)) (bh_next g + 1), bh_next g).

(** [set_head_block] *)
Definition set_head_block (g : block_heap) (p : option Z) : res block_heap :=
  match p with
  | None => Ok (with_head g None (bh_size g))
  | Some q => b ← object g q; Ok (with_head g p (hb_index b * MAX_SIZE + hb_size b))
  end.

(** ** The cache *)

(** [block_flusher::evicted]: blocks that changed and the head block live on. *)
Definition evicted (g : block_heap) (e : option (Z * Z)) : res block_heap :=
  match e with
  | None => Ok g
  | Some (_, p) =>
      b ← object g p;
      if negb (hb_changed b) && negb (bool_decide (bh_head g = Some p)) then
        Ok (with_objects g (delete p (bh_objects g)) (bh_next g))
      else Ok g
  end.
Definition cache_erase (g : block_heap) (i : Z) : res block_heap :=
  let '(c, e) := lru_erase (bh_cache g) i in evicted (with_cache g c) e.
Definition cache_insert (g : block_heap) (i p : Z) : res block_heap :=
  '(c, e) ← lru_insert (bh_cache g) i p; evicted (with_cache g c) e.

(** [std::unordered_map::insert]: an entry that is there stays. *)
Definition insert_modified (g : block_heap) (i p : Z) : block_heap :=
  match bh_modified g !! i with
  | Some _ => g
  | None => with_modified g (<[i := p]> (bh_modified g))
  end.

(** [modified_heap_block], the callback of the first write to a block *)
Definition modified_heap_block (g : block_heap) (p : Z) : res block_heap :=
  b ← object g p;
  g ← cache_erase g (hb_index b);
  Ok (insert_modified g (hb_index b) p).

(** ** Finding a block *)

Definition num_blocks (g : block_heap) : Z := (bh_size g + MAX_SIZE - 1) / MAX_SIZE.
Definition last_block_index (g : block_heap) : Z := if bh_size g =? 0 then 0 else find_block_index (bh_size g - 1).

Section stored.
Context (blake2b : list Z -> list Z) (find_fuel : nat).

(** [db_get_heap_block] of the interpreter *)
Definition load_block (c : blockchain) (g : block_heap) (i : Z) : res (block_heap * Z) :=
  b ← db_get_heap_block find_fuel c i;
  let '(g, p) := new_object g b in
  g ← cache_insert g i p;
  Ok (with_current g (Some p) (bh_current_index g), p).

Definition is_head (g : block_heap) (i : Z) : bool :=
  if bh_size g =? 0 then false else find_block_index (bh_size g - 1) =? i.

(** [get_heap_block]: the block's object. *)
Definition get_heap_block (c : blockchain) (g : block_heap) (i : Z) : res (block_heap * Z) :=
  if bh_current_index g =? i then p ← of_option (bh_current g) UndefinedBehaviour; Ok (g, p)
  else if i =? NEW_BLOCK then
    let new_index := match bh_head g with None => 0 | Some _ => num_blocks g end in
    let '(g, p) := new_object g (block_new new_index) in
    let g := insert_modified g new_index p in
    g ← set_head_block g (Some p);
    Ok (with_current g (Some p) new_index, p)
  else
    let g := with_current g (bh_current g) i in
    let head := is_head g i in
    match bh_modified g !! i with
    | Some p =>
        let g := with_current g (Some p) i in
        g ← (if head then set_head_block g (Some p) else Ok g);
        Ok (g, p)
    | None =>
        let '(cache, found) := lru_find (bh_cache g) i in
        let g := with_cache g cache in
        match found with
        | Some p =>
            let g := with_current g (Some p) i in
            g ← (if head then set_head_block g (Some p) else Ok g);
            Ok (g, p)
        | None =>
            '(g, p) ← load_block c g i;
            g ← (if head then set_head_block g (Some p) else Ok g);
            Ok (g, p)
        end
    end.

(** ** Cells *)

(** [heap::get] *)
Definition bh_get (c : blockchain) (g : block_heap) (addr : Z) : res (block_heap * Z) :=
  _ ← require (addr <? bh_size g) (HeapIndexOutOfRange addr (bh_size g));
  '(g, p) ← get_heap_block c g (find_block_index addr);
  b ← object g p;
  v ← block_get b addr;
  Ok (g, v).

(** [block[addr] = v] *)
Definition write_cell (g : block_heap) (p addr v : Z) : res block_heap :=
  b ← object g p;
  g ← (if hb_changed b then Ok g else modified_heap_block (set_object g p (hb_set_changed b true)) p);
  b ← object g p;
  b ← block_set b addr v;
  Ok (set_object g p b).
Definition bh_set (c : blockchain) (g : block_heap) (addr v : Z) : res block_heap :=
  '(g, p) ← get_heap_block c g (find_block_index addr);
  write_cell g p addr v.

(** [heap::watch] *)
Definition bh_watch (c : blockchain) (g : block_heap) (addr : Z) (value : bool) : res block_heap :=
  '(g, p) ← get_heap_block c g (find_block_index addr);
  b ← object g p;
  b ← block_watch b addr value;
  Ok (set_object g p b).

(** ** Allocation *)

(** [ensure_allocate(n)] *)
Definition bh_ensure_allocate (c : blockchain) (g : block_heap) (n : Z) : res block_heap :=
  need ← match bh_head g with
         | None => Ok true
         | Some p => b ← object g p; Ok (negb (can_allocate b n))
         end;
  if (need : bool) then '(g, _) ← get_heap_block c g NEW_BLOCK; Ok g else Ok g.

(** [allocate(tag, n)]; more cells than a block has overrun it. *)
Definition bh_allocate (c : blockchain) (g : block_heap) (t : tag) (n : Z) : res (block_heap * Z) :=
  g ← bh_ensure_allocate c g n;
  p ← of_option (bh_head g) UndefinedBehaviour;
  b ← object g p;
  _ ← require (can_allocate b n) UndefinedBehaviour;
  let '(b, addr) := block_allocate b n in
  let g := with_head (set_object g p b) (bh_head g) (hb_offset b + hb_size b) in
  g ← write_cell g p addr (mk_cell t addr);
  Ok (g, addr).

(** ** Trimming *)

(** [internal_trim], whose loop over [blocks_] finds none. *)
Definition internal_trim (c : blockchain) (g : block_heap) (new_size : Z) : res block_heap :=
  if bh_size g =? 0 then Ok g
  else
    let heap_end := if 0 <? new_size then new_size - 1 else 0 in
    '(g, p) ← get_heap_block c g (find_block_index heap_end);
    b ← object g p;
    Ok (with_head (set_object g p (block_trim b (new_size - hb_offset b))) (Some p) new_size).

Fixpoint erase_blocks (n : nat) (g : block_heap) (i : Z) : res block_heap :=
  match n with
  | O => Ok g
  | S n =>
      g ← cache_erase g i;
      erase_blocks n (with_modified g (delete i (bh_modified g))) (i + 1)
  end.
Definition trim_global_heap (c : blockchain) (g : block_heap) (new_size : Z) : res block_heap :=
  let last_index := last_block_index g in
  g ← internal_trim c g new_size;
  let first_index := last_block_index g + 1 in
  erase_blocks (Z.to_nat (last_index + 1 - first_index)) g first_index.

(** ** Commit and discard *)

Fixpoint commit_blocks (c : blockchain) (g : block_heap) (ps : list Z) : res (blockchain * block_heap) :=
  match ps with
  | [] => Ok (c, g)
  | p :: ps =>
      b ← object g p;
      c ← db_set_heap_block blake2b c (hb_index b) b;
      let g := set_object g p (hb_set_changed b false) in
      g ← cache_insert g (hb_index b) p;
      commit_blocks c g ps
  end.
(** The changed blocks, sorted by index. *)
Definition modified_in_order (g : block_heap) : list Z :=
  omap (fun i => bh_modified g !! i) (merge_sort Z.le (elements (dom (bh_modified g)))).
Definition commit_heap (c : blockchain) (g : block_heap) : res (blockchain * block_heap) :=
  '(c, g) ← commit_blocks c g (modified_in_order g);
  Ok (c, with_old_size (with_modified g ∅) (bh_size g)).

(** The loop of [discard_changes] over the changed blocks, in the map's order. *)
Fixpoint discard_blocks (g : block_heap) (l : list (Z * Z)) : res block_heap :=
  match l with
  | [] => Ok g
  | (i, p) :: l =>
      b ← object g p;
      g ← cache_erase (set_object g p (hb_set_changed b false)) i;
      discard_blocks g l
  end.
Definition drop_modified (g : block_heap) : res block_heap :=
  g ← discard_blocks g (map_to_list (bh_modified g));
  Ok (with_modified g ∅).
(** The rest of it: the trim, and the head block read again. *)
Definition restore_head (c : blockchain) (g : block_heap) : res block_heap :=
  g ← trim_global_heap c g (bh_old_size g);
  let g := with_current g None NO_BLOCK in
  g ← set_head_block g None;
  '(g, _) ← bh_get c g (w64 (bh_old_size g - 1));
  Ok (with_current g (bh_head g) (bh_current_index g)).
Definition discard_heap (c : blockchain) (g : block_heap) : res block_heap :=
  g ← drop_modified g;
  restore_head c g.

(** ** Starting *)

Definition new_heap (c : blockchain) (g : block_heap) : res block_heap :=
  _ ← require (bh_size g =? 0) AssertFailed;
  '(g, p) ← get_heap_block c g NEW_BLOCK;
  set_head_block g (Some p).

(** The last block of the database is the head. *)
Definition init_from_heap_db (c : blockchain) (g : block_heap) : res block_heap :=
  if db_is_empty (heap_db c) then new_heap c g
  else if heap_root c =? 0 then new_heap c g
  else
    n ← num_entries (heap_db c) (heap_root c);
    if n =? 0 then new_heap c g
    else
      root ← get_root (heap_db c) (heap_root c);
      it ← previous (heap_db c) find_fuel (r_ptr root) [];
      if iterator_eqb it [] then new_heap c g
      else
        leaf ← iterator_leaf (heap_db c) it;
        let block_index := l_key leaf in
        '(g, p) ← get_heap_block c g block_index;
        b ← object g p;
        set_head_block (with_head g (bh_head g) (block_index * MAX_SIZE + hb_size b)) (Some p).

End stored.
