(* ===== verification/BlockHeapSpec.v ===== *)
(** * The heap in blocks implements the heap

    [Heap] treats the heap as one array; [BlockHeap] as blocks that come and go.  The
    invariant [bh_ok] says which object stands for a block and that objects that were not
    changed agree with the database.  Under it, reading, writing and allocating are those
    of [Heap]; a commit stores the heap, and discarding goes back to the stored one. *)

From stdpp Require Import sorting.
From S2P Require Import Prelude Cells Heap HeapBlock Lru TrieNode TrieDb TrieIter TrieMap Blockchain.
From S2P Require Import GlobalDb GlobalDbSpec BlockHeap.

(** ** Blocks with the same allocated cells *)

#[export] Instance same_block_equiv : Equivalence same_block.
Proof.
  split.
  - by intros b.
  - intros b b' [Hs Hc]. split; [done|]. intros p Hp. rewrite Hc; [done|lia].
  - intros b1 b2 b3 [Hs1 Hc1] [Hs2 Hc2]. split; [congruence|]. intros p Hp. rewrite Hc2, Hc1; [done|lia|lia].
Qed.

Lemma same_block_flag b v : same_block b (hb_set_changed b v).
Proof. by split. Qed.

(** ** Which object is block [i] *)

Definition head_index (g : block_heap) : option Z := p ← bh_head g; b ← bh_objects g !! p; Some (hb_index b).
Definition resident (g : block_heap) (i : Z) : option Z :=
  match bh_modified g !! i with
  | Some p => Some p
  | None =>
      match lc_map (bh_cache g) !! i with
      | Some p => Some p
      | None => if decide (head_index g = Some i) then bh_head g else None
      end
  end.

(** Block [i] of the heap: its object, or the stored block. *)
Definition block_at (bs : gmap Z heap_block) (g : block_heap) (i : Z) : option heap_block :=
  match resident g i with
  | Some p => bh_objects g !! p
  | None => bs !! i
  end.

(** An object that was not changed. *)
Definition clean (bs : gmap Z heap_block) (i : Z) (b : heap_block) : Prop :=
  hb_changed b = false /\ exists b0, bs !! i = Some b0 /\ same_block b0 b.

Record bh_ok (bs : gmap Z heap_block) (g : block_heap) : Prop := BhOk {
  ok_fresh : forall p, is_Some (bh_objects g !! p) -> p < bh_next g;
  ok_cache : cache_ok (bh_cache g) /\ (0 < lc_capacity (bh_cache g))%nat;
  ok_resident : forall i p, resident g i = Some p ->
    exists b, bh_objects g !! p = Some b /\ hb_index b = i /\ 0 <= i < NO_BLOCK /\ 0 <= hb_size b <= MAX_SIZE /\
      (bh_modified g !! i = None -> clean bs i b);
  ok_disjoint : forall i, is_Some (bh_modified g !! i) -> lc_map (bh_cache g) !! i = None;
  ok_current : bh_current_index g <> NO_BLOCK ->
    is_Some (bh_current g) /\ bh_current g = resident g (bh_current_index g);
  ok_head : exists p b, bh_head g = Some p /\ bh_objects g !! p = Some b /\ resident g (hb_index b) = Some p /\
    bh_size g = hb_offset b + hb_size b /\ 0 < hb_size b;
  ok_all : forall i j, head_index g = Some j -> 0 <= i <= j -> is_Some (block_at bs g i);
  ok_beyond : forall i j, head_index g = Some j -> j < i -> bh_modified g !! i = None /\ lc_map (bh_cache g) !! i = None
}.

(** Equal heaps, up to where the blocks are. *)
Definition same_view (bs : gmap Z heap_block) (g : block_heap) (bs' : gmap Z heap_block) (g' : block_heap) : Prop :=
  bh_size g' = bh_size g /\ head_index g' = head_index g /\
  forall i, option_Forall2 same_block (block_at bs g i) (block_at bs' g' i).

Lemma option_Forall2_same_refl (o : option heap_block) : option_Forall2 same_block o o.
Proof. destruct o; by constructor. Qed.
#[export] Hint Resolve option_Forall2_same_refl : core.

Lemma same_view_refl bs g : same_view bs g bs g.
Proof. by split_and!. Qed.
Lemma same_view_trans bs1 g1 bs2 g2 bs3 g3 :
  same_view bs1 g1 bs2 g2 -> same_view bs2 g2 bs3 g3 -> same_view bs1 g1 bs3 g3.
Proof.
  intros (S1 & H1 & V1) (S2 & H2 & V2). split_and!; [congruence..|]. intros i.
  specialize (V1 i). specialize (V2 i). destruct V1 as [b1 b2 E1|]; inversion_clear V2 as [? b3 E2|]; constructor.
  by transitivity b2.
Qed.

(** ** Objects and residents *)

Section ok.
Context (bs : gmap Z heap_block).
Implicit Types (g : block_heap) (i p : Z).

Lemma resident_inj g i j p : bh_ok bs g -> resident g i = Some p -> resident g j = Some p -> i = j.
Proof.
  intros Hg (b & Hb & <- & _)%(ok_resident _ _ Hg) (b' & Hb' & <- & _)%(ok_resident _ _ Hg). congruence.
Qed.

Lemma head_index_eq g p b : bh_head g = Some p -> bh_objects g !! p = Some b -> head_index g = Some (hb_index b).
Proof. intros Hp Hb. unfold head_index. rewrite Hp. cbn. by rewrite Hb. Qed.

Lemma resident_modified g i p : bh_modified g !! i = Some p -> resident g i = Some p.
Proof. unfold resident. by intros ->. Qed.
Lemma resident_cached g i p : bh_modified g !! i = None -> lc_map (bh_cache g) !! i = Some p -> resident g i = Some p.
Proof. unfold resident. by intros -> ->. Qed.

Lemma size_index i n : 0 < n <= MAX_SIZE -> find_block_index (i * MAX_SIZE + n - 1) = i.
Proof. intros. unfold find_block_index, MAX_SIZE in *. symmetry. apply (Z.div_unique _ _ _ (n - 1)); lia. Qed.

(** The head of a heap that is not empty. *)
Lemma head_facts g : bh_ok bs g ->
  exists p b, bh_head g = Some p /\ bh_objects g !! p = Some b /\ resident g (hb_index b) = Some p /\
    bh_size g = hb_index b * MAX_SIZE + hb_size b /\ 0 < hb_size b <= MAX_SIZE /\ 0 <= hb_index b < NO_BLOCK /\
    head_index g = Some (hb_index b) /\ forall i, is_head g i = (hb_index b =? i).
Proof.
  intros Hg. destruct (ok_head _ _ Hg) as (p & b & Hp & Hb & Hr & Hs & Hpos).
  destruct (ok_resident _ _ Hg _ _ Hr) as (b2 & Hb2 & _ & Hi & Hsz & _). simplify_eq.
  exists p, b. split_and!; try done; try lia.
  - by eapply head_index_eq.
  - intros i. unfold is_head. unfold hb_offset in Hs. rewrite (proj2 (Z.eqb_neq _ _)) by (unfold MAX_SIZE in *; lia).
    by rewrite Hs, size_index by lia.
Qed.

Lemma set_head_same g p b :
  bh_ok bs g -> bh_head g = Some p -> bh_objects g !! p = Some b -> set_head_block g (Some p) = Ok g.
Proof.
  intros Hg Hp Hb. destruct (head_facts g Hg) as (p' & b' & Hp' & Hb' & _ & Hs & _). simplify_eq.
  unfold set_head_block, object. rewrite Hb. cbn. unfold with_head. rewrite <-Hs, <-Hp. by destruct g.
Qed.

(** The invariant only looks at some fields. *)
Lemma with_current_ok g p i :
  bh_ok bs g -> resident g i = Some p -> bh_ok bs (with_current g (Some p) i).
Proof. intros [] Hr. by split. Qed.

Lemma touch_ok g i p :
  bh_ok bs g -> lc_map (bh_cache g) !! i = Some p ->
  let g' := with_cache g (lru_find (bh_cache g) i).1 in bh_ok bs g' /\ lc_map (bh_cache g') = lc_map (bh_cache g).
Proof.
  intros Hg Hi g'. assert (Hm : lc_map (bh_cache g') = lc_map (bh_cache g)).
  { unfold g', lru_find. cbn. by rewrite Hi. }
  assert (Hres : forall j, resident g' j = resident g j) by (intros j; unfold resident; by rewrite Hm).
  split; [|done]. destruct Hg as [H1 [H2 H2'] H3 H4 H5 H6 H7 H8]. split; try done.
  - split; [by apply find_ok|]. unfold g', lru_find. cbn. by rewrite Hi.
  - intros j q. rewrite Hres. apply H3.
  - intros j. rewrite Hm. apply H4.
  - rewrite Hres. apply H5.
  - destruct H6 as (q & b & Hq). exists q, b. by rewrite Hres.
  - intros j k Hk Hj. unfold block_at. rewrite Hres. by apply (H7 j k).
  - intros j k Hk Hj. rewrite Hm. by apply (H8 j k).
Qed.

(** A new entry of the cache, and the one it drives out. *)
Lemma lru_insert_absent (c : block_cache) i p :
  cache_ok c -> (0 < lc_capacity c)%nat -> lc_map c !! i = None ->
  exists c' e, lru_insert c i p = Ok (c', e) /\ cache_ok c' /\ lc_capacity c' = lc_capacity c /\
    match e with
    | None => lc_map c' = <[i := p]> (lc_map c)
    | Some (k, q) => lc_map c !! k = Some q /\ k <> i /\ lc_map c' = <[i := p]> (delete k (lc_map c))
    end.
Proof.
  intros Hc Hcap Hi. destruct (lru_insert_ok c i p Hc Hcap) as (c' & e & H & Hok & Hcap').
  exists c', e. split_and!; [done..|]. unfold lru_insert in H. rewrite Hi in H.
  destruct (_ <=? _)%nat; [|by injection H as <- <-]. apply bind_Ok in H as ([c1 e1] & H1 & H). injection H as <- <-.
  apply bind_Ok in H1 as (k & Hk & H1). apply of_option_Ok, last_Some_elem_of in Hk.
  apply (co_keys c Hc) in Hk as [q Hq]. unfold lru_erase in H1. rewrite Hq in H1. injection H1 as <- <-. cbn.
  split_and!; [done| |done]. intros ->. by rewrite Hi in Hq.
Qed.

(** Evicting an object that was not changed loses nothing. *)
Definition evict_result (g : block_heap) (e : option (Z * Z)) : gmap Z heap_block :=
  match e with
  | Some (_, q) => if bool_decide (bh_head g = Some q) then bh_objects g else delete q (bh_objects g)
  | None => bh_objects g
  end.
Lemma evicted_clean g e :
  (forall k q, e = Some (k, q) -> exists b, bh_objects g !! q = Some b /\ hb_changed b = false) ->
  evicted g e = Ok (with_objects g (evict_result g e) (bh_next g)).
Proof.
  intros He. destruct e as [[k q]|]; cbn; [|by destruct g]. destruct (He k q eq_refl) as (b & Hb & Hch).
  unfold object. rewrite Hb. cbn. rewrite Hch. cbn. case_bool_decide; cbn; [by destruct g|done].
Qed.

(** The state after block [i] was read from the database. *)
Definition loaded (g : block_heap) (i : Z) (b : heap_block) (c : block_cache) (e : option (Z * Z)) : block_heap :=
  let n := bh_next g in
  BlockHeap (<[n := b]> (evict_result g e)) (n + 1) (bh_size g)
    (if decide (head_index g = Some i) then Some n else bh_head g) (Some n) i c (bh_modified g) (bh_old_size g).

Lemma next_free g : bh_ok bs g -> bh_objects g !! bh_next g = None.
Proof.
  intros Hg. destruct (bh_objects g !! bh_next g) eqn:E; [|done]. pose proof (ok_fresh _ _ Hg (bh_next g)) as Hf.
  rewrite E in Hf. specialize (Hf ltac:(by eexists)). lia.
Qed.

Section load.
Variables (g : block_heap) (i : Z) (b : heap_block) (c : block_cache) (e : option (Z * Z)).
Hypothesis Hg : bh_ok bs g.
Hypothesis Hi : 0 <= i < NO_BLOCK.
Hypothesis Hb : hb_index b = i.
Hypothesis Hsz : 0 <= hb_size b <= MAX_SIZE.
Hypothesis Hcl : clean bs i b.
Hypothesis Hmi : bh_modified g !! i = None.
Hypothesis Hci : lc_map (bh_cache g) !! i = None.
Hypothesis Hij : forall j, head_index g = Some j -> i <= j.
Hypothesis Hc : cache_ok c.
Hypothesis Hcap : lc_capacity c = lc_capacity (bh_cache g).
Hypothesis He : match e with
  | None => lc_map c = <[i := bh_next g]> (lc_map (bh_cache g))
  | Some (k, q) => lc_map (bh_cache g) !! k = Some q /\ k <> i /\ lc_map c = <[i := bh_next g]> (delete k (lc_map (bh_cache g)))
  end.
Let g' := loaded g i b c e.

(** Objects the cache did not drop are still there. *)
Lemma loaded_kept p b0 : bh_objects g !! p = Some b0 ->
  (forall k q, e = Some (k, q) -> q = p -> bh_head g = Some q) -> bh_objects g' !! p = Some b0.
Proof.
  intros Hp Hq. cbn. rewrite lookup_insert_ne by (intros <-; by rewrite next_free in Hp). unfold evict_result.
  destruct e as [[k q]|]; [|done]. case_bool_decide as Hh; [done|]. rewrite lookup_delete_ne; [done|].
  intros ->. by apply Hh, (Hq k p).
Qed.

Lemma loaded_evicted k q : e = Some (k, q) -> resident g k = Some q /\ bh_modified g !! k = None /\ k <> i.
Proof.
  intros ->. destruct He as (Hk & Hki & _). assert (Hmk : bh_modified g !! k = None).
  { destruct (bh_modified g !! k) eqn:E; [|done]. by rewrite (ok_disjoint _ _ Hg k) in Hk by (by eexists). }
  split_and!; [by apply resident_cached|done|done].
Qed.

Lemma loaded_head : head_index g' = head_index g.
Proof.
  destruct (head_facts g Hg) as (hp & hb & Hhp & Hhb & _ & _ & _ & _ & Hhx & _).
  unfold head_index at 1. cbn. case_decide as Hd; cbn.
  - rewrite lookup_insert_eq. cbn. by rewrite Hb.
  - rewrite Hhp. cbn. pose proof (loaded_kept hp hb Hhb) as Hk. cbn in Hk. rewrite Hk; [by rewrite Hhx|]. by intros k q _ ->.
Qed.

Lemma loaded_cache j : lc_map c !! j =
  if decide (j = i) then Some (bh_next g) else if decide (fst <$> e = Some j) then None else lc_map (bh_cache g) !! j.
Proof.
  destruct e as [[k q]|]; cbn.
  - destruct He as (_ & Hki & ->). case_decide as H1; [subst; by rewrite lookup_insert_eq|].
    rewrite lookup_insert_ne by done. case_decide as H2; [injection H2 as ->; by rewrite lookup_delete_eq|].
    rewrite lookup_delete_ne; [done|]. by intros ->.
  - rewrite He. case_decide as H1; [subst; by rewrite lookup_insert_eq|]. by rewrite lookup_insert_ne.
Qed.

Lemma loaded_resident : resident g' i = Some (bh_next g).
Proof. apply resident_cached; [done|]. cbn. by rewrite loaded_cache, decide_True. Qed.

(** The other blocks: the same object, or no more in memory. *)
Lemma loaded_other j : j <> i ->
  (resident g' j = resident g j /\ forall p, resident g j = Some p -> bh_objects g' !! p = bh_objects g !! p) \/
  (resident g' j = None /\ bh_modified g !! j = None /\ is_Some (resident g j)).
Proof.
  intros Hj. destruct (head_facts g Hg) as (hp & hb & Hhp & Hhb & Hhr & _ & _ & _ & Hhx & _).
  assert (Hr' : resident g' j = match bh_modified g !! j with Some p => Some p | None => match lc_map c !! j with Some p => Some p
    | None => if decide (head_index g = Some j) then bh_head g else None end end).
  { unfold resident. rewrite loaded_head. cbn. destruct (bh_modified g !! j); [done|]. destruct (lc_map c !! j); [done|].
    destruct (decide (head_index g = Some j)); [|done]. rewrite decide_False; [done|]. congruence. }
  rewrite loaded_cache, decide_False in Hr' by done.
  destruct (decide (fst <$> e = Some j)) as [Hq|Hne].
  - apply fmap_Some in Hq as ([k q] & Ee & Hk). cbn in Hk. subst k. destruct (loaded_evicted j q Ee) as (Hrq & Hmq & _).
    rewrite Hmq in Hr'. destruct (decide (head_index g = Some j)) as [Hhj|Hhj]; [left|right; by split_and!].
    assert (hp = q) as -> by (rewrite Hhx in Hhj; injection Hhj as E; rewrite E in Hhr; congruence).
    split; [congruence|]. intros p Hp. assert (p = q) as -> by congruence. rewrite Hhb.
    apply loaded_kept; [done|]. by intros k q' _ ->.
  - left. split; [done|]. intros p Hp. destruct (ok_resident _ _ Hg _ _ Hp) as (b0 & Hb0 & _). rewrite Hb0.
    apply loaded_kept; [done|]. intros k q Hk ->. destruct (loaded_evicted k p Hk) as (Hrk & _).
    assert (k = j) as -> by (by eapply resident_inj). exfalso. apply Hne. by rewrite Hk.
Qed.

Lemma loaded_view j : option_Forall2 same_block (block_at bs g j) (block_at bs g' j).
Proof.
  destruct (decide (j = i)) as [->|Hj].
  - unfold block_at. rewrite loaded_resident. cbn. rewrite lookup_insert_eq. destruct Hcl as (_ & b0 & Hb0 & Hs0).
    destruct (resident g i) as [p|] eqn:Hp; [|rewrite Hb0; by constructor].
    destruct (ok_resident _ _ Hg _ _ Hp) as (bp & -> & _ & _ & _ & Hc'). destruct (Hc' Hmi) as (_ & b1 & Hb1 & Hs1).
    constructor. rewrite Hb0 in Hb1. injection Hb1 as <-. by transitivity b0.
  - destruct (loaded_other j Hj) as [[Hr Ho]|(Hr & Hm & [p Hp])]; unfold block_at; rewrite Hr.
    + destruct (resident g j) as [p|]; [by rewrite (Ho p)|done].
    + rewrite Hp. destruct (ok_resident _ _ Hg _ _ Hp) as (bp & -> & _ & _ & _ & Hc').
      destruct (Hc' Hm) as (_ & b1 & -> & Hs1). by constructor.
Qed.

Lemma loaded_fresh p : is_Some (bh_objects g' !! p) -> p < bh_next g'.
Proof.
  intros [b0 Hp]. cbn in Hp |- *. destruct (decide (p = bh_next g)) as [->|Hne]; [lia|].
  rewrite lookup_insert_ne in Hp by done. assert (Hp' : is_Some (bh_objects g !! p)).
  { unfold evict_result in Hp. destruct e as [[k q]|]; [|by eexists]. case_bool_decide; [by eexists|].
    apply lookup_delete_Some in Hp as [_ Hp]. by eexists. }
  pose proof (ok_fresh _ _ Hg p Hp'). lia.
Qed.

Lemma loaded_head_ok : exists p b, bh_head g' = Some p /\ bh_objects g' !! p = Some b /\ resident g' (hb_index b) = Some p /\
  bh_size g' = hb_offset b + hb_size b /\ 0 < hb_size b.
Proof.
  destruct (head_facts g Hg) as (hp & hb & Hhp & Hhb & Hhr & Hhs & Hhsz & _ & Hhx & _).
  destruct (decide (head_index g = Some i)) as [Hd|Hd].
  - exists (bh_next g), b. cbn. rewrite decide_True, lookup_insert_eq by done.
    assert (i = hb_index hb) as Hih by congruence.
    assert (hb_size b = hb_size hb) as Hszb.
    { pose proof (loaded_view i) as Hv. unfold block_at in Hv. rewrite loaded_resident in Hv. cbn in Hv.
      rewrite lookup_insert_eq, Hih, Hhr, Hhb in Hv. by inversion_clear Hv as [? ? [? _]|]. }
    unfold hb_offset. rewrite Hb. split_and!; [done..|exact loaded_resident|lia|lia].
  - exists hp, hb. assert (hb_index hb <> i) as Hne by congruence.
    assert (Hr : resident g' (hb_index hb) = Some hp).
    { destruct (loaded_other _ Hne) as [[Hr _]|(Hr & _)]; [by rewrite Hr|].
      exfalso. unfold resident in Hr. rewrite loaded_head, Hhx, decide_True in Hr by done. cbn in Hr.
      rewrite (decide_False (P := _ = Some i)) in Hr by done. repeat case_match; congruence. }
    split_and!; [cbn; by rewrite decide_False|apply loaded_kept; [done|by intros ? ? _ ->]|done|cbn; unfold hb_offset; lia|lia].
Qed.

Lemma loaded_ok : bh_ok bs g' /\ same_view bs g bs g' /\ resident g' i = Some (bh_next g).
Proof.
  split; [|split; [split_and!; [done|exact loaded_head|exact loaded_view]|exact loaded_resident]]. split.
  - exact loaded_fresh.
  - cbn. rewrite Hcap. split; [done|]. apply (ok_cache _ _ Hg).
  - intros j p Hp. destruct (decide (j = i)) as [->|Hj].
    + rewrite loaded_resident in Hp. injection Hp as <-. exists b. cbn. rewrite lookup_insert_eq. by split_and!; try lia.
    + destruct (loaded_other j Hj) as [[Hr Ho]|(Hr & _)]; [|congruence]. rewrite Hr in Hp.
      destruct (ok_resident _ _ Hg _ _ Hp) as (b0 & Hb0 & H'). exists b0. rewrite (Ho p Hp). by split.
  - intros j Hj. cbn in *. pose proof (ok_disjoint _ _ Hg j Hj) as Hd. rewrite loaded_cache, Hd.
    rewrite decide_False by (intros ->; rewrite Hmi in Hj; by destruct Hj). by case_decide.
  - intros _. change (bh_current_index g') with i. rewrite loaded_resident. split; [by eexists|done].
  - exact loaded_head_ok.
  - intros j k. rewrite loaded_head. intros Hk Hj. pose proof (ok_all _ _ Hg j k Hk Hj) as [b0 Hb0].
    pose proof (loaded_view j) as Hv. rewrite Hb0 in Hv. inversion_clear Hv. by eexists.
  - intros j k. rewrite loaded_head. intros Hk Hj. destruct (ok_beyond _ _ Hg j k Hk Hj) as [Hm Hcj]. split; [done|].
    pose proof (Hij k Hk) as Hle. cbn. rewrite loaded_cache, Hcj, decide_False by lia. by case_decide.
Qed.
End load.

(** ** Finding a block *)

Definition reaches (f : nat -> res (block_heap * Z)) (g : block_heap) (i : Z) (g' : block_heap) (p : Z) : Prop :=
  eventually (fun n => f n = Ok (g', p)) /\ bh_ok bs g' /\ same_view bs g bs g' /\ resident g' i = Some p /\
  bh_modified g' = bh_modified g /\ bh_old_size g' = bh_old_size g.

Lemma load_block_ok c g i :
  bh_ok bs g -> blocks_are c bs -> 0 <= i -> (forall j, head_index g = Some j -> i <= j) ->
  bh_modified g !! i = None -> lc_map (bh_cache g) !! i = None -> is_Some (bs !! i) ->
  exists g' p, reaches (fun f => '(g1, p) ← load_block f c (with_current g (bh_current g) i) i;
    g1 ← (if is_head (with_current g (bh_current g) i) i then set_head_block g1 (Some p) else Ok g1); Ok (g1, p)) g i g' p.
Proof.
  intros Hg Hc Hi Hij Hmi Hci [b0 Hb0]. destruct (head_facts g Hg) as (hp & hb & Hhp & Hhb & Hhr & Hhs & Hhsz & Hhi & Hhx & Hish).
  pose proof (Hij _ Hhx) as Hle.
  destruct (get_heap_block_ok c bs i b0 Hc Hb0) as (b & Hb & Hbi & Hbc & Hbf & Hbs).
  destruct (ok_cache _ _ Hg) as [Hco Hcap].
  destruct (lru_insert_absent _ _ (bh_next g) Hco Hcap Hci) as (cc & e & Hins & Hco' & Hcap' & He).
  assert (Hcl : clean bs i b) by (split; [done|by exists b0]).
  assert (Hev : forall k q, e = Some (k, q) -> q <> bh_next g /\ exists b1, bh_objects g !! q = Some b1 /\ hb_changed b1 = false).
  { intros k q Hkq. destruct (loaded_evicted g i b cc e Hg He k q Hkq) as (Hrk & Hmk & _).
    destruct (ok_resident _ _ Hg _ _ Hrk) as (b1 & Hb1 & _ & _ & _ & Hcl1). destruct (Hcl1 Hmk) as [Hch _].
    split; [|by exists b1]. intros ->. by rewrite (next_free g Hg) in Hb1. }
  exists (loaded g i b cc e), (bh_next g). unfold reaches. assert (Hi2 : 0 <= i < NO_BLOCK) by lia.
  pose proof (loaded_ok g i b cc e Hg Hi2 Hbi (bf_size _ Hbf) Hcl Hmi Hci Hij Hco' Hcap' He) as (Hok & Hv & Hr).
  split_and!; try done. eapply eventually_mono; [exact Hb|]. intros f Hf.
  unfold load_block. rewrite Hf, Ok_bind. cbn [new_object]. unfold cache_insert. cbn [bh_cache with_objects with_current bh_next].
  rewrite Hins, Ok_bind. rewrite evicted_clean.
  2:{ intros k q Hkq. destruct (Hev k q Hkq) as (Hq & b1 & Hb1 & Hch). exists b1. cbn. by rewrite lookup_insert_ne. }
  rewrite Ok_bind. cbn beta iota. rewrite Ok_bind. cbn beta iota.
  assert (Hobj : forall g2, bh_head g2 = bh_head g -> bh_objects g2 = <[bh_next g := b]> (bh_objects g) ->
      evict_result g2 e = <[bh_next g := b]> (evict_result g e)).
  { intros g2 Hh2 Ho2. unfold evict_result. destruct e as [[k q]|]; [|done]. rewrite Hh2, Ho2. case_bool_decide; [done|].
    apply delete_insert_ne. by destruct (Hev k q eq_refl) as [Hq _]. }
  change (is_head (with_current g (bh_current g) i) i) with (is_head g i). rewrite Hish, Hobj by done.
  unfold loaded. destruct (Z.eqb_spec (hb_index hb) i) as [E|E].
  - unfold set_head_block, object. cbn. rewrite lookup_insert_eq. cbn. unfold with_head. cbn.
    rewrite decide_True by congruence. do 3 f_equal. rewrite Hbi, Hhs, E. f_equal.
    rewrite E in Hhr. destruct (ok_resident _ _ Hg _ _ Hhr) as (b2 & Hb2 & _ & _ & _ & Hcl2). destruct (Hcl2 Hmi) as (_ & b3 & Hb3 & [Hs3 _]).
    destruct Hbs as [Hbs _]. rewrite Hbs. congruence.
  - cbn. rewrite decide_False by congruence. done.
Qed.

Lemma find_block_ok c g i :
  bh_ok bs g -> blocks_are c bs -> 0 <= i -> (forall j, head_index g = Some j -> i <= j) ->
  exists g' p, reaches (fun f => get_heap_block f c g i) g i g' p.
Proof.
  intros Hg Hc Hi Hij. destruct (head_facts g Hg) as (hp & hb & Hhp & Hhb & Hhr & Hhs & Hhsz & Hhi & Hhx & Hish).
  pose proof (Hij _ Hhx) as Hle. unfold reaches, get_heap_block. destruct (Z.eqb_spec (bh_current_index g) i) as [Hcur|Hcur].
  { destruct (ok_current _ _ Hg) as [[p Hp] Hr]; [lia|]. exists g, p. rewrite Hp. rewrite Hcur, Hp in Hr.
    split_and!; try done. by apply eventually_always. }
  rewrite (proj2 (Z.eqb_neq i NEW_BLOCK)) by (unfold NEW_BLOCK, NO_BLOCK in *; lia).
  assert (Hsethead : forall p g1, resident g i = Some p -> bh_ok bs g1 -> bh_head g1 = bh_head g -> bh_objects g1 = bh_objects g ->
    (if is_head g i then set_head_block g1 (Some p) else Ok g1) = Ok g1).
  { intros p g1 Hp Hg1 Hh1 Ho1. rewrite Hish. destruct (Z.eqb_spec (hb_index hb) i) as [<-|]; [|done].
    apply (set_head_same g1 p hb Hg1); congruence. }
  change (is_head (with_current g (bh_current g) i) i) with (is_head g i).
  cbn [bh_modified bh_cache with_current]. destruct (bh_modified g !! i) as [p|] eqn:Hm.
  { pose proof (resident_modified _ _ _ Hm) as Hr. pose proof (with_current_ok g p i Hg Hr) as Hg1.
    exists (with_current g (Some p) i), p. change (with_current (with_current g (bh_current g) i) (Some p) i) with (with_current g (Some p) i).
    split_and!; try done. apply eventually_always. intros f. by rewrite (Hsethead p) by done. }
  destruct (lc_map (bh_cache g) !! i) as [p|] eqn:Hcache.
  { pose proof (resident_cached _ _ _ Hm Hcache) as Hr. destruct (touch_ok g i p Hg Hcache) as [Hg1 Hmap].
    set (g1 := with_cache g (lru_find (bh_cache g) i).1) in *.
    assert (Hres : forall j, resident g1 j = resident g j) by (intros j; unfold resident; by rewrite Hmap).
    pose proof (with_current_ok g1 p i Hg1 ltac:(by rewrite Hres)) as Hg2.
    exists (with_current g1 (Some p) i), p.
    assert (Hfind : lru_find (bh_cache g) i = (bh_cache g1, Some p)).
    { unfold g1, lru_find. by rewrite Hcache. }
    split_and!; try done; [| |by change (resident g1 i = Some p); rewrite Hres].
    - apply eventually_always. intros f. rewrite Hfind.
      change (with_current (with_cache (with_current g (bh_current g) i) (bh_cache g1)) (Some p) i) with (with_current g1 (Some p) i).
      by rewrite (Hsethead p) by done.
    - split_and!; [done..|]. intros j. unfold block_at. change (resident (with_current g1 (Some p) i) j) with (resident g1 j).
      by rewrite Hres. }
  assert (Hfind : lru_find (bh_cache g) i = (bh_cache g, None)) by (unfold lru_find; by rewrite Hcache).
  rewrite Hfind. change (with_cache (with_current g (bh_current g) i) (bh_cache g)) with (with_current g (bh_current g) i).
  destruct (resident g i) as [p|] eqn:Hr.
  - destruct (ok_resident _ _ Hg _ _ Hr) as (b & Hb & _ & _ & _ & Hcl). destruct (Hcl Hm) as (_ & b0 & Hb0 & _).
    apply load_block_ok; [done..|]. by eexists.
  - pose proof (ok_all _ _ Hg i _ Hhx ltac:(lia)) as Hall. unfold block_at in Hall. rewrite Hr in Hall.
    by apply load_block_ok.
Qed.

(** ** Writing *)

(** Object [p] of block [i] was changed to [b]; [n] is the new size of the heap. *)
Definition written (g : block_heap) (i p : Z) (b : heap_block) (n : Z) : block_heap :=
  BlockHeap (<[p := b]> (bh_objects g)) (bh_next g) n (bh_head g) (bh_current g) (bh_current_index g)
    (lru_erase (bh_cache g) i).1 (<[i := p]> (bh_modified g)) (bh_old_size g).

Lemma lru_erase_map (c : block_cache) i j :
  lc_map (lru_erase c i).1 !! j = if decide (j = i) then None else lc_map c !! j.
Proof.
  unfold lru_erase. destruct (lc_map c !! i) as [v|] eqn:E; cbn.
  - case_decide; [subst; apply lookup_delete_eq|by apply lookup_delete_ne].
  - case_decide; [by subst|done].
Qed.

Section write.
Variables (g : block_heap) (i p : Z) (b b' : heap_block) (n : Z).
Hypothesis Hg : bh_ok bs g.
Hypothesis Hr : resident g i = Some p.
Hypothesis Hb : bh_objects g !! p = Some b.
Hypothesis Hb' : hb_index b' = i.
Hypothesis Hsz : 0 <= hb_size b' <= MAX_SIZE.
Hypothesis Hn : if decide (bh_head g = Some p) then n = i * MAX_SIZE + hb_size b' /\ 0 < hb_size b' else n = bh_size g.

Lemma written_object j q : resident g j = Some q -> bh_objects (written g i p b' n) !! q = if decide (j = i) then Some b' else bh_objects g !! q.
Proof.
  intros Hq. cbn [bh_objects written]. destruct (decide (j = i)) as [->|E].
  { rewrite Hr in Hq. injection Hq as <-. apply lookup_insert_eq. }
  apply lookup_insert_ne. intros <-. apply E. by eapply resident_inj.
Qed.

Lemma written_head : head_index (written g i p b' n) = head_index g.
Proof.
  destruct (head_facts g Hg) as (hp & hb & Hhp & Hhb & Hhr & _ & _ & _ & Hhx & _).
  rewrite Hhx. unfold head_index. change (bh_head (written g i p b' n)) with (bh_head g). rewrite Hhp.
  cbn [mbind option_bind]. rewrite (written_object _ _ Hhr).
  destruct (decide (hb_index hb = i)) as [E|E]; cbn; [congruence|by rewrite Hhb].
Qed.

Lemma written_resident j : resident (written g i p b' n) j = resident g j.
Proof.
  unfold resident at 1. rewrite written_head. cbn [written bh_modified bh_cache bh_head]. rewrite lru_erase_map.
  destruct (decide (j = i)) as [->|E]; [by rewrite lookup_insert_eq|]. by rewrite lookup_insert_ne.
Qed.

Lemma written_block j : block_at bs (written g i p b' n) j = if decide (j = i) then Some b' else block_at bs g j.
Proof.
  unfold block_at. rewrite written_resident. destruct (resident g j) as [q|] eqn:Hq; [by apply written_object|].
  rewrite decide_False; [done|]. congruence.
Qed.

Lemma written_head_ok : exists q b0, bh_head (written g i p b' n) = Some q /\ bh_objects (written g i p b' n) !! q = Some b0 /\
    resident (written g i p b' n) (hb_index b0) = Some q /\ n = hb_offset b0 + hb_size b0 /\ 0 < hb_size b0.
Proof.
  destruct (head_facts g Hg) as (hp & hb & Hhp & Hhb & Hhr & Hhs & Hhsz & _ & _ & _).
  destruct (decide (hb_index hb = i)) as [E|E].
  - assert (hp = p) as -> by congruence. rewrite decide_True in Hn by done. exists p, b'.
    pose proof (written_object _ _ Hr) as Ho. rewrite decide_True in Ho by done.
    rewrite Hb', written_resident. unfold hb_offset. rewrite Hb'. split_and!; try done; by destruct Hn.
  - rewrite decide_False in Hn by (intros E2; apply E; eapply resident_inj; [exact Hg|exact Hhr|congruence]).
    exists hp, hb. rewrite written_resident. pose proof (written_object _ _ Hhr) as Ho. rewrite decide_False in Ho by done.
    split_and!; try done; [congruence|unfold hb_offset; lia|lia].
Qed.

Lemma written_ok : bh_ok bs (written g i p b' n).
Proof.
  destruct (ok_resident _ _ Hg _ _ Hr) as (b0 & Hb0 & _ & Hi & _). split.
  - intros q [b1 Hq]. cbn in Hq. apply (ok_fresh _ _ Hg). destruct (decide (q = p)) as [->|]; [by eexists|].
    rewrite lookup_insert_ne in Hq by done. by eexists.
  - cbn. rewrite erase_capacity. destruct (ok_cache _ _ Hg). split; [by apply erase_ok|done].
  - intros j q. rewrite written_resident. intros Hq. rewrite (written_object _ _ Hq).
    destruct (ok_resident _ _ Hg _ _ Hq) as (b1 & Hb1 & Hx & Hj & Hs & Hcl). destruct (decide (j = i)) as [E|E].
    + exists b'. rewrite E in *. split_and!; try done; try lia. cbn. by rewrite lookup_insert_eq.
    + exists b1. split_and!; try done; try lia. cbn. by rewrite lookup_insert_ne.
  - intros j Hj. cbn in *. rewrite lru_erase_map. destruct (decide (j = i)) as [E|E]; [done|]. rewrite lookup_insert_ne in Hj by done.
    by apply (ok_disjoint _ _ Hg).
  - rewrite written_resident. apply (ok_current _ _ Hg).
  - exact written_head_ok.
  - intros j k. rewrite written_head, written_block. intros Hk Hj. destruct (decide (j = i)); [by eexists|]. by apply (ok_all _ _ Hg j k).
  - intros j k. rewrite written_head. intros Hk Hj. destruct (ok_beyond _ _ Hg j k Hk Hj) as [Hm Hc].
    assert (j <> i). { intros ->. unfold resident in Hr. rewrite Hm, Hc, decide_False in Hr; [done|]. intros E.
      rewrite Hk in E. injection E as ->. lia. }
    cbn. rewrite lru_erase_map, decide_False, lookup_insert_ne by done. done.
Qed.
End write.

(** What the first write relies on: no other object stands for block [i]. *)
Record attached (g : block_heap) (i p : Z) (b : heap_block) : Prop := Attached {
  at_object : bh_objects g !! p = Some b;
  at_index : hb_index b = i;
  at_modified : forall q, bh_modified g !! i = Some q -> q = p;
  at_cached : forall q, lc_map (bh_cache g) !! i = Some q -> q = p /\ bh_modified g !! i = None;
  at_changed : hb_changed b = true -> bh_modified g !! i = Some p
}.

Lemma resident_attached g i p b :
  bh_ok bs g -> resident g i = Some p -> bh_objects g !! p = Some b -> attached g i p b.
Proof.
  intros Hg Hr Hb. destruct (ok_resident _ _ Hg _ _ Hr) as (b0 & Hb0 & Hi & _ & _ & Hcl).
  rewrite Hb in Hb0. injection Hb0 as <-. split; [done..| | |].
  - intros q Hq. rewrite (resident_modified _ _ _ Hq) in Hr. congruence.
  - intros q Hq. assert (Hm : bh_modified g !! i = None).
    { destruct (bh_modified g !! i) eqn:E; [|done]. by rewrite (ok_disjoint _ _ Hg) in Hq by (by eexists). }
    split; [|done]. rewrite (resident_cached _ _ _ Hm Hq) in Hr. congruence.
  - intros Hch. destruct (bh_modified g !! i) as [q|] eqn:E; [|by destruct (Hcl eq_refl) as [? _]; congruence].
    by rewrite (resident_modified _ _ _ E) in Hr.
Qed.

Lemma write_cell_written g i p b addr v :
  attached g i p b -> 0 <= addr - i * MAX_SIZE < MAX_SIZE ->
  write_cell g p addr v = Ok (written g i p
    (HeapBlock i (hb_size b) true (<[addr - i * MAX_SIZE := v]> (hb_cells b))) (bh_size g)).
Proof.
  intros [Hb <- Hmod Hcache Hchm] Hp. unfold write_cell, object. rewrite Hb. cbn [of_option]. rewrite Ok_bind.
  assert (Hset : forall v2, block_set (hb_set_changed b v2) addr v =
    Ok (HeapBlock (hb_index b) (hb_size b) v2 (<[addr - hb_index b * MAX_SIZE := v]> (hb_cells b)))).
  { intros v2. unfold block_set, position, hb_offset. cbn.
    by rewrite (proj2 (Z.leb_le _ _)), (proj2 (Z.ltb_lt _ _)) by lia. }
  destruct (hb_changed b) eqn:Hch.
  - specialize (Hchm eq_refl). rewrite Ok_bind, Hb. cbn [of_option]. rewrite Ok_bind.
    replace b with (hb_set_changed b true) at 1 by (destruct b; cbn in *; by subst). rewrite Hset, Ok_bind.
    unfold written, set_object, with_objects. rewrite (insert_id (bh_modified g)) by done.
    unfold lru_erase. destruct (lc_map (bh_cache g) !! hb_index b) as [q|] eqn:Hq; [|done].
    destruct (Hcache q eq_refl). congruence.
  - unfold modified_heap_block, object. cbn [bh_objects set_object with_objects]. rewrite lookup_insert_eq. cbn [of_option].
    rewrite Ok_bind. unfold cache_erase. cbn [bh_cache set_object with_objects hb_index hb_set_changed].
    destruct (lru_erase (bh_cache g) (hb_index b)) as [c e] eqn:Her.
    assert (Hev : evicted (with_cache (set_object g p (hb_set_changed b true)) c) e = Ok (with_cache (set_object g p (hb_set_changed b true)) c)).
    { unfold lru_erase in Her. destruct (lc_map (bh_cache g) !! hb_index b) as [q|]; [|by injection Her as <- <-].
      injection Her as <- <-. destruct (Hcache q eq_refl) as [-> _]. cbn. unfold object. cbn. by rewrite lookup_insert_eq. }
    unfold set_object, with_objects in Hev |- *. rewrite Hev, Ok_bind. unfold insert_modified, with_cache.
    cbn [bh_modified]. destruct (bh_modified g !! hb_index b) as [q|] eqn:Hm.
    + rewrite (Hmod q eq_refl) in *. rewrite Ok_bind. cbn [bh_objects]. rewrite lookup_insert_eq. cbn [of_option].
      rewrite Ok_bind, Hset, Ok_bind. unfold written. cbn. by rewrite insert_insert_eq, (insert_id (bh_modified g)), Her by done.
    + rewrite Ok_bind. cbn [bh_objects with_modified]. rewrite lookup_insert_eq. cbn [of_option].
      rewrite Ok_bind, Hset, Ok_bind. unfold written. cbn. by rewrite insert_insert_eq, Her by done.
Qed.

(** ** A new block *)

(** Block [i], the next one, with [b] in it. *)
Definition opened (g : block_heap) (b : heap_block) : block_heap :=
  let p := bh_next g in
  BlockHeap (<[p := b]> (bh_objects g)) (p + 1) (hb_offset b + hb_size b) (Some p) (Some p) (hb_index b)
    (bh_cache g) (<[hb_index b := p]> (bh_modified g)) (bh_old_size g).

Section open.
Variables (g : block_heap) (b : heap_block) (j : Z).
Hypothesis Hg : bh_ok bs g.
Hypothesis Hj : head_index g = Some j.
Hypothesis Hb : hb_index b = j + 1.
Hypothesis Hlast : j + 1 < NO_BLOCK.
Hypothesis Hsz : 0 < hb_size b <= MAX_SIZE.

Lemma opened_object p b0 : bh_objects g !! p = Some b0 -> bh_objects (opened g b) !! p = Some b0.
Proof. intros Hp. cbn. rewrite lookup_insert_ne; [done|]. intros <-. by rewrite next_free in Hp. Qed.

Lemma opened_head : head_index (opened g b) = Some (j + 1).
Proof. unfold head_index. cbn. rewrite lookup_insert_eq. cbn. by rewrite Hb. Qed.

Lemma opened_none : resident g (j + 1) = None.
Proof.
  destruct (ok_beyond _ _ Hg (j + 1) j Hj ltac:(lia)) as [Hm Hc]. unfold resident. rewrite Hm, Hc, Hj.
  rewrite decide_False; [done|]. intros [=]. lia.
Qed.

(** The old head is in the table or agrees with the database. *)
Lemma opened_resident k :
  (k = j + 1 /\ resident (opened g b) k = Some (bh_next g)) \/
  (k <> j + 1 /\ resident (opened g b) k = resident g k) \/
  (k <> j + 1 /\ resident (opened g b) k = None /\ bh_modified g !! k = None /\ is_Some (resident g k)).
Proof.
  destruct (decide (k = j + 1)) as [->|Hne]; [left|right].
  - split; [done|]. apply resident_modified. cbn. by rewrite Hb, lookup_insert_eq.
  - destruct (resident g k) as [p|] eqn:Hr.
    + unfold resident in Hr |- *. cbn [opened bh_modified bh_cache]. rewrite Hb, lookup_insert_ne, opened_head by done.
      destruct (bh_modified g !! k); [by left|]. destruct (lc_map _ !! _); [by left|].
      rewrite decide_False by congruence. right. by split_and!.
    + left. split; [done|]. unfold resident in Hr |- *. cbn [opened bh_modified bh_cache].
      rewrite Hb, lookup_insert_ne, opened_head by done. rewrite (decide_False (P := Some (j + 1) = Some k)) by congruence.
      by repeat case_match.
Qed.

Lemma opened_view k : option_Forall2 same_block (if decide (k = j + 1) then Some b else block_at bs g k) (block_at bs (opened g b) k).
Proof.
  destruct (opened_resident k) as [[-> Hr]|[[Hne Hr]|(Hne & Hr & Hm & [p Hp])]]; unfold block_at; rewrite Hr.
  - rewrite decide_True by done. cbn. rewrite lookup_insert_eq. by constructor.
  - rewrite decide_False by done. destruct (resident g k) as [p|] eqn:Hp; [|done].
    destruct (ok_resident _ _ Hg _ _ Hp) as (b0 & Hb0 & _). rewrite Hb0, (opened_object _ _ Hb0). by constructor.
  - rewrite decide_False by done. rewrite Hp. destruct (ok_resident _ _ Hg _ _ Hp) as (b0 & -> & _ & _ & _ & Hcl).
    destruct (Hcl Hm) as (_ & b1 & -> & Hs). by constructor.
Qed.

Lemma opened_ok : bh_ok bs (opened g b).
Proof.
  split.
  - intros p [b0 Hp]. cbn in *. destruct (decide (p = bh_next g)) as [->|]; [lia|]. rewrite lookup_insert_ne in Hp by done.
    pose proof (ok_fresh _ _ Hg p ltac:(by eexists)). lia.
  - apply (ok_cache _ _ Hg).
  - intros k p Hp. destruct (head_facts g Hg) as (hp & hb & _ & _ & _ & _ & _ & Hhi & Hhx & _).
    assert (j = hb_index hb) as Hjh by congruence.
    destruct (opened_resident k) as [[-> Hr]|[[Hne Hr]|(Hne & Hr & _)]]; rewrite Hr in Hp; [| |done].
    + injection Hp as <-. exists b. cbn. rewrite lookup_insert_eq, Hb, lookup_insert_eq. split_and!; try done; lia.
    + destruct (ok_resident _ _ Hg _ _ Hp) as (b0 & Hb0 & Hx & Hk & Hs & Hcl). exists b0.
      rewrite (opened_object _ _ Hb0). split_and!; try done; try lia. cbn. by rewrite Hb, lookup_insert_ne.
  - intros k. cbn. rewrite Hb. destruct (decide (k = j + 1)) as [->|Hne].
    + intros _. apply (ok_beyond _ _ Hg _ j Hj). lia.
    + rewrite lookup_insert_ne by done. apply (ok_disjoint _ _ Hg).
  - intros _. cbn. split; [by eexists|]. symmetry. apply resident_modified. cbn. by rewrite lookup_insert_eq.
  - exists (bh_next g), b. cbn. rewrite lookup_insert_eq. split_and!; try done; [|lia].
    apply resident_modified. cbn. by rewrite lookup_insert_eq.
  - intros k j2. rewrite opened_head. intros [= <-] Hk. pose proof (opened_view k) as Hv.
    destruct (decide (k = j + 1)); [inversion_clear Hv; by eexists|].
    destruct (ok_all _ _ Hg k j Hj ltac:(lia)) as [b0 Hb0]. rewrite Hb0 in Hv. inversion_clear Hv. by eexists.
  - intros k j2. rewrite opened_head. intros [= <-] Hk. cbn. rewrite Hb, lookup_insert_ne by lia.
    apply (ok_beyond _ _ Hg k j Hj). lia.
Qed.
End open.

(** ** The heap as one array *)

Definition cell_of (b : heap_block) (pos : Z) : option Z := if pos <? hb_size b then hb_cells b !! pos else None.
Definition cell_at (g : block_heap) (addr : Z) : option Z :=
  b ← block_at bs g (find_block_index addr); cell_of b (addr mod MAX_SIZE).
(** The address lies in the allocated part of its block. *)
Definition allocated (g : block_heap) (addr : Z) : Prop :=
  0 <= addr < bh_size g /\ exists b, block_at bs g (find_block_index addr) = Some b /\ addr mod MAX_SIZE < hb_size b.

(** The blocks are the heap [h]. *)
Record implements (g : block_heap) (h : heap) : Prop := Implements {
  im_size : h_size h = bh_size g;
  im_blocks : head_index g = Some (h_blocks h - 1);
  im_cells : forall addr v, h_cells h !! addr = Some v -> 0 <= addr < bh_size g /\ cell_at g addr = Some v
}.

Lemma same_cell b b' pos : same_block b b' -> 0 <= pos -> cell_of b' pos = cell_of b pos.
Proof.
  intros [Hs Hc] Hp. unfold cell_of. rewrite Hs. destruct (Z.ltb_spec pos (hb_size b)); [|done]. apply Hc. lia.
Qed.

Lemma same_view_cell g g' addr : same_view bs g bs g' -> cell_at g' addr = cell_at g addr.
Proof.
  intros (_ & _ & Hv). unfold cell_at. specialize (Hv (find_block_index addr)).
  destruct Hv as [b b' Hs|]; [|done]. cbn. apply same_cell; [done|]. by apply Z.mod_pos_bound.
Qed.

Lemma same_view_implements g g' h : same_view bs g bs g' -> implements g h -> implements g' h.
Proof.
  intros Hv [H1 H2 H3]. pose proof Hv as (Hs & Hx & _). split; [congruence..|].
  intros addr v Ha. rewrite (same_view_cell _ _ _ Hv), Hs. by apply H3.
Qed.

Lemma same_view_allocated g g' addr : same_view bs g bs g' -> allocated g addr -> allocated g' addr.
Proof.
  intros (Hs & _ & Hv) (H0 & b & Hb & Hlt). split; [by rewrite Hs|]. specialize (Hv (find_block_index addr)).
  rewrite Hb in Hv. inversion_clear Hv as [? b' [Hsz _] E|]. exists b'. split; [done|]. lia.
Qed.

Lemma address_split addr : addr = find_block_index addr * MAX_SIZE + addr mod MAX_SIZE /\ 0 <= addr mod MAX_SIZE < MAX_SIZE.
Proof.
  unfold find_block_index, MAX_SIZE. pose proof (Z.div_mod addr 8192). pose proof (Z.mod_pos_bound addr 8192). lia.
Qed.

Lemma index_bound g addr j : bh_ok bs g -> head_index g = Some j -> addr < bh_size g -> find_block_index addr <= j.
Proof.
  intros Hg Hj Ha. destruct (head_facts g Hg) as (hp & hb & _ & _ & _ & Hs & Hsz & _ & Hx & _).
  assert (j = hb_index hb) as -> by congruence. pose proof (address_split addr). unfold MAX_SIZE in *. nia.
Qed.

(** The block an address that holds a cell lies in. *)
Lemma reach_cell c g h addr :
  bh_ok bs g -> blocks_are c bs -> implements g h -> 0 <= addr -> find_block_index addr < h_blocks h ->
  exists g' p b, reaches (fun f => get_heap_block f c g (find_block_index addr)) g (find_block_index addr) g' p /\
    bh_objects g' !! p = Some b /\ hb_index b = find_block_index addr /\
    position b addr = Ok (addr mod MAX_SIZE) /\ cell_at g' addr = cell_of b (addr mod MAX_SIZE) /\
    block_at bs g' (find_block_index addr) = Some b.
Proof.
  intros Hg Hc Him Ha Hlt. pose proof (address_split addr) as [Hs Hm].
  destruct (find_block_ok c g (find_block_index addr) Hg Hc) as (g' & p & Hre).
  { unfold find_block_index, MAX_SIZE. apply Z.div_pos; lia. }
  { intros j Hj. rewrite (im_blocks _ _ Him) in Hj. injection Hj as <-. lia. }
  pose proof Hre as (_ & Hg' & _ & Hr & _). destruct (ok_resident _ _ Hg' _ _ Hr) as (b & Hb & Hx & _).
  assert (Hba : block_at bs g' (find_block_index addr) = Some b) by (unfold block_at; by rewrite Hr).
  exists g', p, b. split_and!; try done.
  - unfold position, hb_offset. rewrite Hx. replace (addr - _) with (addr mod MAX_SIZE) by lia.
    by rewrite (proj2 (Z.leb_le _ _)), (proj2 (Z.ltb_lt _ _)) by lia.
  - unfold cell_at. by rewrite Hba.
Qed.

Lemma bh_get_implements c g h addr v :
  bh_ok bs g -> blocks_are c bs -> implements g h -> heap_get h addr = Ok v ->
  exists g', eventually (fun f => bh_get f c g addr = Ok (g', v)) /\ bh_ok bs g' /\ implements g' h /\ same_view bs g bs g' /\
    bh_old_size g' = bh_old_size g.
Proof.
  intros Hg Hc Him H. unfold heap_get, check_index in H. apply bind_Ok in H as (u & Hlt%require_Ok & H).
  apply of_option_Ok in H. destruct (im_cells _ _ Him _ _ H) as [H0 Hcell]. apply Z.ltb_lt in Hlt. rewrite (im_size _ _ Him) in Hlt.
  assert (Hix : find_block_index addr < h_blocks h).
  { pose proof (index_bound _ _ _ Hg (im_blocks _ _ Him) Hlt). lia. }
  destruct (reach_cell c g h addr Hg Hc Him (proj1 H0) Hix) as (g' & p & b & (He & Hg' & Hv & Hr & _ & Hold) & Hb & Hx & Hpos & Hca & _).
  exists g'. split_and!; [|done|by eapply same_view_implements|done|done]. eapply eventually_mono; [exact He|]. intros f Hf.
  unfold bh_get. rewrite (proj2 (Z.ltb_lt _ _)) by done. cbn [require]. rewrite Ok_bind, Hf, Ok_bind. cbn beta iota.
  unfold object. rewrite Hb. cbn [of_option]. rewrite Ok_bind. unfold block_get. rewrite Hpos, !Ok_bind.
  rewrite (same_view_cell _ _ _ Hv), Hcell in Hca. unfold cell_of in Hca. destruct (_ <? _); [|done]. by rewrite <-Hca.
Qed.

(** Writing one cell of an object that may have grown: the heap after it. *)
Lemma written_cells g i p b v addr n sz b' :
  bh_ok bs g -> resident g i = Some p -> bh_objects g !! p = Some b -> find_block_index addr = i ->
  b' = HeapBlock i sz true (<[addr mod MAX_SIZE := v]> (hb_cells b)) -> hb_size b <= sz -> addr mod MAX_SIZE < sz ->
  (forall a w, 0 <= a -> (if decide (a = addr) then w = v else cell_at g a = Some w) -> cell_at (written g i p b' n) a = Some w) /\
  (forall a, bh_size g <= n -> allocated g a -> allocated (written g i p b' n) a) /\
  (forall a, find_block_index a = i -> 0 <= a < n -> a mod MAX_SIZE < sz -> allocated (written g i p b' n) a).
Proof.
  intros Hg Hr Hb Hi -> Hsz Hlt. set (b' := HeapBlock _ _ _ _).
  pose proof (written_block g i p b' n Hg Hr eq_refl) as Hblock.
  assert (Hbi : block_at bs g i = Some b) by (unfold block_at; by rewrite Hr). split_and!.
  - intros a w Ha Hw. unfold cell_at. rewrite Hblock.
    pose proof (address_split a) as [Hsa Hma]. pose proof (address_split addr) as [Hs Hm].
    destruct (decide (find_block_index a = i)) as [E|E].
    + unfold cell_of. cbn. destruct (decide (a = addr)) as [->|Hne].
      * rewrite (proj2 (Z.ltb_lt _ _)) by done. rewrite Hw. apply lookup_insert_eq.
      * unfold cell_at in Hw. rewrite E, Hbi in Hw. cbn in Hw. unfold cell_of in Hw.
        destruct (Z.ltb_spec (a mod MAX_SIZE) (hb_size b)); [|done]. rewrite (proj2 (Z.ltb_lt _ _)) by lia.
        rewrite lookup_insert_ne; [done|]. intros E2. apply Hne. rewrite Hsa, Hs. congruence.
    + rewrite decide_False in Hw by (by intros ->). exact Hw.
  - intros a Hn (Ha & b1 & Hb1 & Hl). split; [cbn; lia|]. rewrite Hblock.
    destruct (decide (find_block_index a = i)) as [E|E]; [|by exists b1]. exists b'. split; [done|]. cbn.
    rewrite E, Hbi in Hb1. injection Hb1 as <-. lia.
  - intros a Ha H0 Hl. split; [done|]. exists b'. by rewrite Hblock, decide_True.
Qed.

Lemma bh_set_implements c g h addr v h' :
  bh_ok bs g -> blocks_are c bs -> implements g h -> allocated g addr -> heap_set h addr v = Ok h' ->
  exists g', eventually (fun f => bh_set f c g addr v = Ok g') /\ bh_ok bs g' /\ implements g' h' /\
    (forall a, allocated g a -> allocated g' a) /\ bh_old_size g' = bh_old_size g.
Proof.
  intros Hg Hc Him Hal H. unfold heap_set in H. apply bind_Ok in H as (u & Hlt%require_Ok & [= <-]).
  unfold block_exists in Hlt. apply Z.ltb_lt in Hlt. pose proof Hal as [H0 _].
  destruct (reach_cell c g h addr Hg Hc Him (proj1 H0) Hlt) as (g1 & p & b & (He & Hg1 & Hv & Hr & _ & Hold) & Hb & Hx & Hpos & _ & Hba).
  pose proof (same_view_implements _ _ _ Hv Him) as Him1. pose proof (same_view_allocated _ _ _ Hv Hal) as (_ & b0 & Hb0 & Hlt0).
  rewrite Hba in Hb0. injection Hb0 as <-. pose proof (address_split addr) as [Hs Hm].
  destruct (ok_resident _ _ Hg1 _ _ Hr) as (b0 & Hb0 & _ & Hi & Hsz & _). rewrite Hb in Hb0. injection Hb0 as <-.
  set (b' := HeapBlock (find_block_index addr) (hb_size b) true (<[addr mod MAX_SIZE := v]> (hb_cells b))).
  destruct (written_cells g1 _ p b v addr (bh_size g1) (hb_size b) b' Hg1 Hr Hb eq_refl eq_refl ltac:(lia) Hlt0) as (Hcells & Hall & _).
  assert (Hn : if decide (bh_head g1 = Some p) then bh_size g1 = find_block_index addr * MAX_SIZE + hb_size b' /\ 0 < hb_size b'
               else bh_size g1 = bh_size g1).
  { case_decide as E; [|done]. destruct (head_facts g1 Hg1) as (hp & hb & Hhp & Hhb & _ & Hhs & Hhsz & _). cbn.
    assert (hp = p) as -> by congruence. assert (hb = b) as -> by congruence. rewrite <-Hx. lia. }
  exists (written g1 (find_block_index addr) p b' (bh_size g1)). split_and!; [|by eapply written_ok| | |done].
  - eapply eventually_mono; [exact He|]. intros f Hf. unfold bh_set. rewrite Hf, Ok_bind. cbn beta iota.
    rewrite (write_cell_written g1 (find_block_index addr) p b); [|by apply resident_attached|lia].
    by replace (addr - find_block_index addr * MAX_SIZE) with (addr mod MAX_SIZE) by lia.
  - destruct Him1 as [H1 H2 H3]. split; [exact H1|by rewrite written_head|]. intros a w. cbn. intros Ha.
    destruct (decide (a = addr)) as [->|Hne].
    + rewrite lookup_insert_eq in Ha. injection Ha as <-. destruct Hv as [Hsize _]. split; [lia|].
      apply Hcells; [lia|]. by rewrite decide_True.
    + rewrite lookup_insert_ne in Ha by done. destruct (H3 a w Ha) as [Ha0 Hw]. split; [done|].
      apply Hcells; [lia|]. by rewrite decide_False.
  - intros a Ha. apply Hall; [done|]. by eapply same_view_allocated.
Qed.

(** ** Allocating *)

(** What [allocate] leaves: the heap of [h'] and [n] more cells. *)
Definition allocates (g : block_heap) (h' : heap) (addr n : Z) (g' : block_heap) : Prop :=
  bh_ok bs g' /\ implements g' h' /\ (forall a, allocated g a -> allocated g' a) /\
  (forall a, addr <= a < addr + n -> allocated g' a) /\ bh_old_size g' = bh_old_size g.

Lemma allocate_in_head c g h t n p b :
  bh_ok bs g -> implements g h -> 0 < n -> bh_head g = Some p -> bh_objects g !! p = Some b -> can_allocate b n = true ->
  exists g', (forall f, bh_allocate f c g t n = Ok (g', bh_size g)) /\
    allocates g (with_layout h (<[bh_size g := mk_cell t (bh_size g)]> (h_cells h)) (bh_size g + n) (h_blocks h)) (bh_size g) n g'.
Proof.
  intros Hg Him Hn Hp Hb Hcan. destruct (head_facts g Hg) as (hp & hb & Hhp & Hhb & Hhr & Hhs & Hhsz & Hhi & Hhx & _).
  assert (hp = p) as -> by congruence. assert (hb = b) as -> by congruence. clear Hhp Hhb.
  unfold can_allocate in Hcan. apply Z.leb_le in Hcan. set (addr := bh_size g).
  assert (Hsplit : find_block_index addr = hb_index b /\ addr mod MAX_SIZE = hb_size b).
  { unfold addr. rewrite Hhs. unfold find_block_index. split.
    - symmetry. apply (Z.div_unique _ _ _ (hb_size b)); unfold MAX_SIZE in *; lia.
    - symmetry. apply (Z.mod_unique _ _ (hb_index b)); unfold MAX_SIZE in *; lia. }
  destruct Hsplit as [Hix Hmod].
  set (b' := HeapBlock (hb_index b) (hb_size b + n) true (<[addr mod MAX_SIZE := mk_cell t addr]> (hb_cells b))).
  destruct (written_cells g (hb_index b) p b (mk_cell t addr) addr (addr + n) (hb_size b + n) b' Hg Hhr Hb Hix eq_refl ltac:(lia) ltac:(lia))
    as (Hcells & Hall & Hnew).
  assert (Hn' : if decide (bh_head g = Some p) then addr + n = hb_index b * MAX_SIZE + hb_size b' /\ 0 < hb_size b'
                else addr + n = bh_size g) by (rewrite decide_True by done; cbn; unfold addr; lia).
  exists (written g (hb_index b) p b' (addr + n)). split; [|split_and!].
  - intros f. unfold bh_allocate, bh_ensure_allocate. rewrite Hp. unfold object. rewrite Hb. cbn [of_option]. rewrite !Ok_bind.
    unfold can_allocate. rewrite (proj2 (Z.leb_le _ _)) by lia. cbn [negb]. rewrite Ok_bind, Hp. cbn [of_option].
    rewrite Ok_bind, Hb. cbn [of_option]. rewrite Ok_bind, (proj2 (Z.leb_le _ _)) by lia. cbn [require].
    rewrite Ok_bind. cbn [block_allocate].
    assert (Hoff : hb_offset b + hb_size b = addr) by (unfold hb_offset, addr; lia). rewrite Hoff.
    change (hb_offset (block_trim b (hb_size b + n)) + hb_size (block_trim b (hb_size b + n))) with (hb_offset b + (hb_size b + n)).
    replace (hb_offset b + (hb_size b + n)) with (addr + n) by lia.
    rewrite (write_cell_written _ (hb_index b) p (block_trim b (hb_size b + n))); [| |unfold hb_offset in *; lia].
    + rewrite Ok_bind. do 2 f_equal. unfold written, set_object, with_head, with_objects. cbn. rewrite insert_insert_eq.
      unfold b'. replace (addr - hb_index b * MAX_SIZE) with (addr mod MAX_SIZE) by (rewrite Hmod; unfold hb_offset in *; lia).
      by rewrite Hp.
    + destruct (resident_attached g _ p b Hg Hhr Hb) as [_ _ A1 A2 A3]. split; [apply lookup_insert_eq|done..].
  - by eapply written_ok; [..|unfold b'; cbn; lia|exact Hn'].
  - destruct Him as [H1 H2 H3]. split; [done|by rewrite (written_head g (hb_index b) p b' _ Hg Hhr)|]. intros a w. cbn. intros Ha.
    destruct (decide (a = addr)) as [->|Hne].
    + rewrite lookup_insert_eq in Ha. injection Ha as <-. split; [unfold addr, MAX_SIZE in *; lia|]. apply Hcells; [unfold addr, MAX_SIZE in *; lia|].
      by rewrite decide_True.
    + rewrite lookup_insert_ne in Ha by done. destruct (H3 a w Ha) as [Ha0 Hw]. split; [unfold addr; lia|].
      apply Hcells; [lia|]. by rewrite decide_False.
  - intros a Ha. apply Hall; [unfold addr; lia|done].
  - intros a Ha. assert (Hai : find_block_index a = hb_index b /\ a mod MAX_SIZE < hb_size b + n).
    { assert (Hs : a = hb_index b * MAX_SIZE + (a - hb_index b * MAX_SIZE)) by lia. unfold find_block_index, addr, MAX_SIZE in *. split.
      - symmetry. apply (Z.div_unique _ _ _ (a - hb_index b * 8192)); lia.
      - rewrite <-(Z.mod_unique a 8192 (hb_index b) (a - hb_index b * 8192)); lia. }
    destruct Hai as [Ha1 Ha2]. apply Hnew; [done|unfold addr, MAX_SIZE in *; lia|done].
  - done.
Qed.

Lemma allocate_new_block c g h t n p b :
  bh_ok bs g -> implements g h -> 0 < n <= MAX_SIZE -> bh_head g = Some p -> bh_objects g !! p = Some b ->
  can_allocate b n = false -> h_blocks h < NO_BLOCK ->
  let addr := h_blocks h * MAX_SIZE in
  exists g', (forall f, bh_allocate f c g t n = Ok (g', addr)) /\
    allocates g (with_layout h (<[addr := mk_cell t addr]> (h_cells h)) (addr + n) (h_blocks h + 1)) addr n g'.
Proof.
  intros Hg Him Hn Hp Hb Hcan Hlast addr. destruct (head_facts g Hg) as (hp & hb & Hhp & Hhb & Hhr & Hhs & Hhsz & Hhi & Hhx & _).
  assert (hp = p) as -> by congruence. assert (hb = b) as -> by congruence. clear Hhp Hhb.
  assert (Hj : h_blocks h = hb_index b + 1). { pose proof (im_blocks _ _ Him) as H. rewrite Hhx in H. injection H. lia. }
  set (j := hb_index b) in *. set (b' := HeapBlock (j + 1) n true {[0 := mk_cell t addr]}).
  assert (Hnum : num_blocks g = j + 1).
  { unfold num_blocks. rewrite Hhs. symmetry. apply (Z.div_unique _ _ _ (hb_size b - 1)); unfold MAX_SIZE in *; lia. }
  assert (Hcur : (bh_current_index g =? NEW_BLOCK) = false).
  { apply Z.eqb_neq. destruct (decide (bh_current_index g = NO_BLOCK)) as [->|Hne]; [done|].
    destruct (ok_current _ _ Hg Hne) as [[q Hq] Hr]. rewrite Hq in Hr. symmetry in Hr.
    destruct (ok_resident _ _ Hg _ _ Hr) as (? & _ & _ & Hi & _). unfold NO_BLOCK, NEW_BLOCK in *. lia. }
  assert (Hmod : bh_modified g !! (j + 1) = None /\ lc_map (bh_cache g) !! (j + 1) = None)
    by (apply (ok_beyond _ _ Hg (j + 1) j Hhx); lia). destruct Hmod as [Hmod Hcache].
  assert (Hbsz : 0 < hb_size b' <= MAX_SIZE) by (cbn; lia).
  assert (Hopen : bh_ok bs (opened g b')) by (eapply (opened_ok g b' j); cbn; try done; lia).
  pose proof (opened_view g b' j Hg eq_refl) as Hview.
  assert (Haddr : find_block_index addr = j + 1 /\ addr mod MAX_SIZE = 0).
  { unfold addr, find_block_index. rewrite Hj. split; [by apply Z.div_mul|by apply Z.mod_mul]. }
  assert (Hbk : exists b2, block_at bs (opened g b') (j + 1) = Some b2 /\ same_block b' b2).
  { specialize (Hview (j + 1)). rewrite decide_True in Hview by done. inversion_clear Hview. by eexists. }
  destruct Hbk as (b2 & Hb2 & Hs2).
  exists (opened g b'). split; [|split_and!; [done| | | |done]].
  - intros f. unfold bh_allocate, bh_ensure_allocate. rewrite Hp. unfold object. rewrite Hb. cbn [of_option]. rewrite !Ok_bind, Hcan.
    cbn [negb]. unfold get_heap_block. rewrite Hcur, Z.eqb_refl, Hp, Hnum. cbn [new_object].
    unfold insert_modified. cbn [bh_modified with_objects]. rewrite Hmod. unfold set_head_block, object. cbn [bh_objects with_modified with_objects].
    rewrite lookup_insert_eq. cbn [of_option]. rewrite ?Ok_bind. cbn beta iota. rewrite ?Ok_bind.
    cbn [bh_head with_current with_head of_option]. rewrite ?Ok_bind. cbn [bh_objects with_current with_head with_modified with_objects].
    rewrite lookup_insert_eq. cbn [of_option]. rewrite Ok_bind. unfold can_allocate. cbn [hb_size block_new].
    rewrite (proj2 (Z.leb_le _ _)) by lia. cbn [require]. rewrite Ok_bind. cbn [block_allocate].
    assert (Hoff : hb_offset (block_new (j + 1)) + 0 = addr) by (unfold hb_offset, addr; cbn; lia).
    cbn [hb_size block_new]. rewrite Hoff. cbn [block_trim hb_index hb_size hb_changed hb_cells block_new].
    rewrite (write_cell_written _ (j + 1) (bh_next g) (HeapBlock (j + 1) (0 + n) false ∅)); [| |unfold addr, MAX_SIZE; lia].
    + rewrite Ok_bind. do 2 f_equal. unfold written, opened, set_object, with_head, with_current, with_modified, with_objects, hb_offset. cbn.
      rewrite !insert_insert_eq. unfold lru_erase. rewrite Hcache. rewrite Z.add_0_l.
      by replace (addr - (j + 1) * MAX_SIZE) with 0 by (unfold addr; lia).
    + split; cbn; try done; [apply lookup_insert_eq|intros q Hq; rewrite lookup_insert_eq in Hq; congruence|intros q Hq; congruence].
  - pose proof Him as [H1 H2 H3]. split; [cbn; unfold hb_offset, addr; cbn; lia|rewrite (opened_head g b' j eq_refl); cbn; f_equal; lia|].
    intros a w. cbn. intros Ha. destruct (decide (a = addr)) as [->|Hne].
    + rewrite lookup_insert_eq in Ha. injection Ha as <-. split; [unfold hb_offset, addr, MAX_SIZE in *; cbn; lia|].
      unfold cell_at. destruct Haddr as [-> ->]. rewrite Hb2. cbn. rewrite (same_cell b' b2 0 Hs2) by done.
      unfold cell_of. cbn. rewrite (proj2 (Z.ltb_lt _ _)) by lia. apply lookup_singleton_eq.
    + rewrite lookup_insert_ne in Ha by done. destruct (H3 a w Ha) as [Ha0 Hw].
      split; [unfold hb_offset, MAX_SIZE in *; cbn; lia|]. unfold cell_at in Hw |- *.
      specialize (Hview (find_block_index a)). destruct (decide (find_block_index a = j + 1)) as [E|E].
      * exfalso. pose proof (address_split a) as [Hsa Hma]. rewrite E in Hsa. unfold MAX_SIZE in *. lia.
      * destruct Hview as [b3 b4 Hs|]; [|done]. cbn in *. rewrite (same_cell b3); [done|done|by apply Z.mod_pos_bound].
  - intros a (Ha & b3 & Hb3 & Hl). split; [cbn; unfold hb_offset; cbn; lia|]. specialize (Hview (find_block_index a)).
    destruct (decide (find_block_index a = j + 1)) as [E|E].
    + exfalso. pose proof (address_split a) as [Hsa Hma]. rewrite E in Hsa. unfold MAX_SIZE in *. lia.
    + rewrite Hb3 in Hview. inversion_clear Hview as [? b4 [Hs4 _]|]. exists b4. split; [done|]. lia.
  - intros a Ha. assert (Hai : find_block_index a = j + 1 /\ a mod MAX_SIZE = a - addr).
    { unfold find_block_index, addr, MAX_SIZE in *. split.
      - symmetry. apply (Z.div_unique _ _ _ (a - h_blocks h * 8192)); lia.
      - symmetry. apply (Z.mod_unique _ _ (j + 1)); lia. }
    destruct Hai as [Ha1 Ha2]. split; [unfold addr, MAX_SIZE in *; cbn; unfold hb_offset, MAX_SIZE; cbn; lia|].
    exists b2. rewrite Ha1, Ha2. split; [done|]. destruct Hs2 as [-> _]. cbn. lia.
Qed.

Lemma bh_allocate_implements c g h t n h' addr :
  bh_ok bs g -> implements g h -> 0 < n <= MAX_SIZE -> h_blocks h < NO_BLOCK -> allocate h t n = Ok (h', addr) ->
  exists g', (forall f, bh_allocate f c g t n = Ok (g', addr)) /\ allocates g h' addr n g'.
Proof.
  intros Hg Him Hn Hlast H. destruct (head_facts g Hg) as (hp & hb & Hhp & Hhb & Hhr & Hhs & Hhsz & Hhi & Hhx & _).
  pose proof (im_blocks _ _ Him) as Hbl. rewrite Hhx in Hbl. injection Hbl as Hbl.
  assert (Hhead : head_size h = hb_size hb).
  { unfold head_size, head_offset. rewrite (im_size _ _ Him), Hhs, <-Hbl. lia. }
  unfold allocate, ensure_allocate in H. rewrite (proj2 (Z.eqb_neq (h_blocks h) 0)) in H by lia.
  cbn [orb] in H. rewrite Hhead in H. destruct (hb_size hb + n <=? MAX_SIZE) eqn:Hcan; cbn [negb] in H.
  - apply bind_Ok in H as (u & _ & [= <- <-]). rewrite (im_size _ _ Him).
    apply (allocate_in_head c g h t n hp hb); [done..|lia|done|done|done].
  - apply bind_Ok in H as (u & _ & [= <- <-]). cbn. by apply (allocate_new_block c g h t n hp hb).
Qed.
End ok.

(** ** Commit *)

Section commit.
Context (blake2b : list Z -> list Z).
Hypothesis blake2b_length : forall bs, length (blake2b bs) = 32%nat.
Hypothesis blake2b_bytes : forall bs, are_bytes (blake2b bs).

(** The state after block [i] was stored; [c] is the cache with it. *)
Definition stored (g : block_heap) (i p : Z) (b : heap_block) (c : block_cache) : block_heap :=
  with_modified (with_cache (set_object g p (hb_set_changed b false)) c) (delete i (bh_modified g)).

Section one.
Variables (bs : gmap Z heap_block) (g : block_heap) (i p : Z) (b : heap_block) (c : block_cache).
Hypothesis Hg : bh_ok bs g.
Hypothesis Hm : bh_modified g !! i = Some p.
Hypothesis Hb : bh_objects g !! p = Some b.
Hypothesis Hc : cache_ok c.
Hypothesis Hcap : lc_capacity c = lc_capacity (bh_cache g).
Hypothesis Hmap : lc_map c = <[i := p]> (lc_map (bh_cache g)).

Lemma stored_index : hb_index b = i.
Proof.
  destruct (ok_resident _ _ Hg _ _ (resident_modified _ _ _ Hm)) as (b0 & Hb0 & Hi & _). congruence.
Qed.

Lemma stored_object q b0 : bh_objects g !! q = Some b0 ->
  exists b1, bh_objects (stored g i p b c) !! q = Some b1 /\ hb_index b1 = hb_index b0 /\ hb_size b1 = hb_size b0 /\ same_block b0 b1 /\
    (hb_changed b0 = false -> hb_changed b1 = false).
Proof.
  intros Hq. cbn. destruct (decide (q = p)) as [->|Hne].
  - rewrite lookup_insert_eq. rewrite Hb in Hq. injection Hq as <-. eexists. by split_and!.
  - rewrite lookup_insert_ne by done. by exists b0.
Qed.

Lemma stored_head : head_index (stored g i p b c) = head_index g.
Proof.
  destruct (head_facts bs g Hg) as (hp & hb & Hhp & Hhb & _ & _ & _ & _ & Hhx & _).
  unfold head_index at 1. change (bh_head (stored g i p b c)) with (bh_head g). rewrite Hhp. cbn [mbind option_bind].
  destruct (stored_object hp hb Hhb) as (b1 & -> & Hx & _). cbn. by rewrite Hx, Hhx.
Qed.

Lemma stored_resident j : resident (stored g i p b c) j = resident g j.
Proof.
  unfold resident at 1. rewrite stored_head. cbn [stored bh_modified bh_cache bh_head with_modified with_cache set_object with_objects].
  rewrite Hmap. destruct (decide (j = i)) as [->|Hne].
  - rewrite lookup_delete_eq, lookup_insert_eq. by rewrite (resident_modified _ _ _ Hm).
  - by rewrite lookup_delete_ne, lookup_insert_ne by done.
Qed.

Lemma stored_view : same_view bs g (<[i := b]> bs) (stored g i p b c).
Proof.
  split_and!; [done|exact stored_head|]. intros j. unfold block_at. rewrite stored_resident.
  destruct (resident g j) as [q|] eqn:Hq.
  - destruct (ok_resident _ _ Hg _ _ Hq) as (b0 & Hb0 & _). destruct (stored_object q b0 Hb0) as (b1 & Hb1 & _ & _ & Hs & _).
    rewrite Hb0, Hb1. by constructor.
  - rewrite lookup_insert_ne; [done|]. intros <-. by rewrite (resident_modified _ _ _ Hm) in Hq.
Qed.

Lemma stored_ok : bh_ok (<[i := b]> bs) (stored g i p b c).
Proof.
  split.
  - intros q [b0 Hq]. cbn in Hq. apply (ok_fresh _ _ Hg). destruct (decide (q = p)) as [->|]; [by eexists|].
    rewrite lookup_insert_ne in Hq by done. by eexists.
  - cbn. rewrite Hcap. split; [done|]. apply (ok_cache _ _ Hg).
  - intros j q. rewrite stored_resident. intros Hq. destruct (ok_resident _ _ Hg _ _ Hq) as (b0 & Hb0 & Hx & Hj & Hs & Hcl).
    destruct (stored_object q b0 Hb0) as (b1 & Hb1 & Hx1 & Hs1 & Hsame & Hch). exists b1. split_and!; [done|congruence|lia..|lia|lia|].
    cbn. destruct (decide (j = i)) as [->|Hne].
    + intros _. rewrite (resident_modified _ _ _ Hm) in Hq. injection Hq as <-. cbn in Hb1. rewrite lookup_insert_eq in Hb1.
      injection Hb1 as <-. split; [done|]. exists b. rewrite lookup_insert_eq. split; [done|]. apply same_block_flag.
    + rewrite lookup_delete_ne by done. intros Hmj. destruct (Hcl Hmj) as (Hc0 & b2 & Hb2 & Hs2). split; [by apply Hch|].
      exists b2. rewrite lookup_insert_ne by done. split; [done|]. by transitivity b0.
  - intros j. cbn. rewrite Hmap. destruct (decide (j = i)) as [->|Hne]; [rewrite lookup_delete_eq; by intros [? ?]|].
    rewrite lookup_delete_ne, lookup_insert_ne by done. apply (ok_disjoint _ _ Hg).
  - rewrite stored_resident. apply (ok_current _ _ Hg).
  - destruct (ok_head _ _ Hg) as (hp & hb & Hhp & Hhb & Hhr & Hhs & Hpos).
    destruct (stored_object hp hb Hhb) as (b1 & Hb1 & Hx1 & Hs1 & _). exists hp, b1. rewrite stored_resident.
    unfold hb_offset in *. rewrite Hx1. split_and!; try done; [cbn; lia|lia].
  - intros j k. rewrite stored_head. intros Hk Hj. destruct (ok_all _ _ Hg j k Hk Hj) as [b0 Hb0].
    destruct stored_view as (_ & _ & Hv). specialize (Hv j). rewrite Hb0 in Hv. inversion_clear Hv. by eexists.
  - intros j k. rewrite stored_head. intros Hk Hj. destruct (ok_beyond _ _ Hg j k Hk Hj) as [Hmj Hcj].
    assert (j <> i) by congruence. cbn. by rewrite Hmap, lookup_delete_ne, lookup_insert_ne.
Qed.
End one.

(** [commit_blocks] does not look at the table of changed blocks. *)
Lemma commit_blocks_modified c g ps m :
  commit_blocks blake2b c (with_modified g m) ps = ('(c', g') ← commit_blocks blake2b c g ps; Ok (c', with_modified g' m)).
Proof.
  revert c g. induction ps as [|p ps IH]; intros c g; [done|]. cbn [commit_blocks]. unfold object. cbn [bh_objects with_modified].
  destruct (bh_objects g !! p) as [b|]; cbn [of_option]; [|done]. rewrite !Ok_bind.
  destruct (db_set_heap_block blake2b c (hb_index b) b) as [c1|]; [|done]. rewrite !Ok_bind.
  unfold cache_insert. cbn [bh_cache set_object with_objects with_modified].
  destruct (lru_insert (bh_cache g) (hb_index b) p) as [[cc e]|]; [|done]. rewrite !Ok_bind.
  assert (Hev : forall g0, evicted (with_modified g0 m) e = (g1 ← evicted g0 e; Ok (with_modified g1 m))).
  { intros g0. destruct e as [[k q]|]; [|done]. cbn. unfold object. cbn. destruct (bh_objects g0 !! q) as [b1|]; [|done].
    cbn. by destruct (_ && _). }
  change (with_cache (set_object (with_modified g m) p (hb_set_changed b false)) cc)
    with (with_modified (with_cache (set_object g p (hb_set_changed b false)) cc) m). rewrite Hev.
  destruct (evicted _ e) as [g1|]; [|done]. rewrite !Ok_bind. apply IH.
Qed.

Lemma commit_blocks_ok l c bs g :
  blocks_are c bs -> bh_ok bs g -> NoDup l -> (forall i, i ∈ l <-> is_Some (bh_modified g !! i)) ->
  (length (lc_access (bh_cache g)) + length l <= lc_capacity (bh_cache g))%nat ->
  (forall i b, block_at bs g i = Some b -> is_Some (bh_modified g !! i) -> block_full b) ->
  exists c' bs' g', commit_blocks blake2b c g (omap (fun i => bh_modified g !! i) l) = Ok (c', with_modified g' (bh_modified g)) /\
    bh_modified g' = ∅ /\ blocks_are c' bs' /\ bh_ok bs' g' /\ same_view bs g bs' g'.
Proof.
  revert c bs g. induction l as [|i l IH]; intros c bs g Hc Hg Hnd Hl Hroom Hfull.
  { exists c, bs, g. assert (bh_modified g = ∅) as E.
    { apply map_empty. intros i. destruct (bh_modified g !! i) eqn:Ei; [|done].
      assert (i ∈ []) as Hi by (apply Hl; by eexists). by apply elem_of_nil in Hi. }
    split_and!; try done. cbn. do 2 f_equal. by destruct g. }
  apply NoDup_cons in Hnd as [Hni Hnd].
  destruct (proj1 (Hl i) ltac:(left)) as [p Hp]. cbn [omap list_omap]. rewrite Hp. cbn [commit_blocks].
  pose proof (resident_modified _ _ _ Hp) as Hr. destruct (ok_resident _ _ Hg _ _ Hr) as (b & Hb & Hbi & Hi & Hsz & _).
  unfold object. rewrite Hb. cbn [of_option]. rewrite Ok_bind.
  assert (Hf : block_full b) by (apply (Hfull i); [unfold block_at; by rewrite Hr|by eexists]).
  rewrite Hbi. destruct (set_heap_block_ok blake2b blake2b_length blake2b_bytes c bs i b Hc ltac:(unfold NO_BLOCK in *; split; lia) Hf)
    as (db & Hdb & Hc'). rewrite Hdb, Ok_bind. unfold cache_insert. cbn [bh_cache set_object with_objects].
  destruct (ok_cache _ _ Hg) as [Hco Hcap]. pose proof (ok_disjoint _ _ Hg i ltac:(by eexists)) as Hci.
  assert (Hins : exists cc, lru_insert (bh_cache g) i p = Ok (cc, None) /\ lc_map cc = <[i := p]> (lc_map (bh_cache g)) /\
    lc_access cc = i :: lc_access (bh_cache g)).
  { unfold lru_insert. rewrite Hci. rewrite (proj2 (Nat.leb_gt _ _)) by (cbn in Hroom; lia). rewrite Ok_bind. by eexists. }
  destruct Hins as (cc & Hins & Hmap & Hacc).
  destruct (lru_insert_ok (bh_cache g) i p Hco Hcap) as (cc2 & e2 & Hins2 & Hco2 & Hcap2). rewrite Hins in Hins2. injection Hins2 as <- <-.
  rewrite Hins, Ok_bind. cbn [evicted]. rewrite Ok_bind.
  pose proof (stored_ok bs g i p b cc Hg Hp Hb Hco2 Hcap2 Hmap) as Hg1.
  pose proof (stored_view bs g i p b cc Hg Hp Hb Hmap) as Hv1.
  destruct (IH (with_heap_db c db) (<[i := b]> bs) (stored g i p b cc) Hc' Hg1 Hnd) as (c' & bs' & g' & Hrun & Hm' & Hc2 & Hg' & Hv').
  { intros j. cbn. destruct (decide (j = i)) as [->|Hne].
    - rewrite lookup_delete_eq. split; [done|by intros [? ?]].
    - rewrite lookup_delete_ne by done. rewrite <-Hl. split; [by right|]. by intros [->|?]%elem_of_cons. }
  { cbn. rewrite Hacc, Hcap2. cbn in Hroom |- *. lia. }
  { intros j b1 Hb1 [q Hq]. cbn in Hq. apply lookup_delete_Some in Hq as [Hne Hq].
    unfold block_at in Hb1. rewrite (stored_resident bs g i p b cc Hg Hp Hb Hmap) in Hb1. rewrite (resident_modified _ _ _ Hq) in Hb1. cbn in Hb1.
    rewrite lookup_insert_ne in Hb1; [|intros ->; eapply Hne, (resident_inj bs); [done|by apply resident_modified..]].
    apply (Hfull j); [|by eexists]. unfold block_at. by rewrite (resident_modified _ _ _ Hq). }
  exists c', bs', g'. split_and!; try done; [|by eapply same_view_trans].
  assert (Homap : omap (fun j => bh_modified (stored g i p b cc) !! j) l = omap (fun j => bh_modified g !! j) l).
  { clear -Hni. induction l as [|j l IHl]; [done|]. apply not_elem_of_cons in Hni as [Hij Hni]. cbn.
    rewrite lookup_delete_ne by done. cbn in IHl. destruct (bh_modified g !! j); [f_equal|]; by apply IHl. }
  rewrite Homap in Hrun.
  pose proof (commit_blocks_modified (with_heap_db c db) (stored g i p b cc) (omap (fun j => bh_modified g !! j) l) (bh_modified g)) as Hcm.
  rewrite Hrun, Ok_bind in Hcm. exact Hcm.
Qed.

Lemma commit_heap_ok c bs g :
  blocks_are c bs -> bh_ok bs g -> (length (lc_access (bh_cache g)) + size (bh_modified g) <= lc_capacity (bh_cache g))%nat ->
  (forall i b, block_at bs g i = Some b -> is_Some (bh_modified g !! i) -> block_full b) ->
  exists c' bs' g', commit_heap blake2b c g = Ok (c', g') /\ blocks_are c' bs' /\ bh_ok bs' g' /\ same_view bs g bs' g' /\
    bh_modified g' = ∅ /\ bh_old_size g' = bh_size g'.
Proof.
  intros Hc Hg Hroom Hfull. unfold commit_heap, modified_in_order. set (l := merge_sort Z.le (elements (dom (bh_modified g)))).
  assert (Hperm : l ≡ₚ elements (dom (bh_modified g))) by apply merge_sort_Permutation.
  destruct (commit_blocks_ok l c bs g Hc Hg) as (c' & bs' & g' & Hrun & Hm' & Hc' & Hg' & Hv').
  - rewrite Hperm. apply NoDup_elements.
  - intros i. rewrite Hperm, elem_of_elements. apply elem_of_dom.
  - rewrite Hperm. change (length (elements (dom (bh_modified g)))) with (size (dom (bh_modified g))). by rewrite size_dom.
  - exact Hfull.
  - exists c', bs', (with_old_size g' (bh_size g')). rewrite Hrun, Ok_bind. cbn beta iota.
    assert (Hgm : with_modified (with_modified g' (bh_modified g)) ∅ = g') by (rewrite <-Hm'; by destruct g'). rewrite Hgm.
    split_and!; try done. clear Hgm. destruct Hg'. by split.
Qed.
End commit.
