(* ===== verification/BlockHeapDiscard.v ===== *)
(** * Discarding changes of the heap in blocks

    [discard_heap] drops the table of changed blocks and reads the head again.  In between
    the invariant of [BlockHeapSpec] does not hold: the head and the block used last may be
    objects with changes.  What does hold is [settled], and it is enough to get back to the
    heap of the last commit. *)

From S2P Require Import Prelude Cells Heap HeapBlock Lru TrieNode TrieDb TrieIter TrieMap Blockchain.
From S2P Require Import GlobalDb GlobalDbSpec BlockHeap BlockHeapSpec.

(** The stored blocks are a heap of [n] cells, whose head is block [k]. *)
Record committed (bs : gmap Z heap_block) (n k : Z) : Prop := Committed {
  cm_index : 0 <= k < NO_BLOCK;
  cm_word : n <= 2 ^ 64;
  cm_head : exists b, bs !! k = Some b /\ n = k * MAX_SIZE + hb_size b /\ 0 < hb_size b <= MAX_SIZE;
  cm_all : forall i, 0 <= i <= k -> is_Some (bs !! i)
}.

(** The changes are dropped: cached objects agree with the database, and the block used
    last has an object. *)
Record settled (bs : gmap Z heap_block) (g : block_heap) : Prop := Settled {
  st_fresh : forall p, is_Some (bh_objects g !! p) -> p < bh_next g;
  st_cache : cache_ok (bh_cache g) /\ (0 < lc_capacity (bh_cache g))%nat;
  st_modified : bh_modified g = ∅;
  st_cached : forall i p, lc_map (bh_cache g) !! i = Some p ->
    exists b, bh_objects g !! p = Some b /\ hb_index b = i /\ 0 <= i < NO_BLOCK /\ 0 <= hb_size b <= MAX_SIZE /\ clean bs i b;
  st_current : bh_current_index g <> NO_BLOCK -> exists p b, bh_current g = Some p /\ bh_objects g !! p = Some b /\
    hb_index b = bh_current_index g
}.

Section discard.
Context (bs : gmap Z heap_block).
Implicit Types (g : block_heap) (i p k n : Z).

Lemma settled_next g : settled bs g -> bh_objects g !! bh_next g = None.
Proof.
  intros Hg. destruct (bh_objects g !! bh_next g) eqn:E; [|done]. pose proof (st_fresh _ _ Hg (bh_next g)) as Hf.
  rewrite E in Hf. specialize (Hf ltac:(by eexists)). lia.
Qed.

(** An object may change if the cached ones do not. *)
Lemma settled_set g p b b' :
  settled bs g -> bh_objects g !! p = Some b -> hb_index b' = hb_index b ->
  (lc_map (bh_cache g) !! hb_index b = Some p -> b' = b) -> settled bs (set_object g p b').
Proof.
  intros [H1 H2 H3 H4 H5] Hp Hx Hc. split; cbn; try done.
  - intros q [b0 Hq]. apply H1. destruct (decide (q = p)) as [->|]; [by eexists|]. rewrite lookup_insert_ne in Hq by done. by eexists.
  - intros i q Hq. destruct (H4 i q Hq) as (b0 & Hb0 & Hi & Hr). destruct (decide (q = p)) as [->|Hne].
    + rewrite Hp in Hb0. injection Hb0 as <-. rewrite <-Hi in Hq. rewrite (Hc Hq). exists b. by rewrite lookup_insert_eq.
    + exists b0. by rewrite lookup_insert_ne.
  - intros Hcur. destruct (H5 Hcur) as (q & b0 & Hq & Hb0 & Hi). destruct (decide (q = p)) as [->|Hne].
    + exists p, b'. rewrite lookup_insert_eq. split_and!; congruence.
    + exists q, b0. by rewrite lookup_insert_ne.
Qed.

(** ** The changed blocks *)

Lemma discard_blocks_settle l g :
  (forall i p, (i, p) ∈ l -> is_Some (bh_objects g !! p) /\ lc_map (bh_cache g) !! i = None) ->
  exists m, discard_blocks g l = Ok (with_objects g m (bh_next g)) /\
    (forall p, is_Some (m !! p) <-> is_Some (bh_objects g !! p)) /\
    (forall p b, bh_objects g !! p = Some b -> exists b', m !! p = Some b' /\ hb_index b' = hb_index b /\
       ((forall i, (i, p) ∉ l) -> b' = b)).
Proof.
  revert g. induction l as [|[i p] l IH]; intros g Hl.
  { exists (bh_objects g). split_and!; [by destruct g|done|]. intros p b Hp. by exists b. }
  destruct (Hl i p ltac:(left)) as [[b Hb] Hc]. cbn [discard_blocks]. unfold object. rewrite Hb. cbn [of_option]. rewrite Ok_bind.
  unfold cache_erase. cbn [bh_cache set_object with_objects]. unfold lru_erase. rewrite Hc. cbn [evicted]. rewrite Ok_bind.
  set (g1 := with_cache (set_object g p (hb_set_changed b false)) (bh_cache g)).
  assert (Hobj : forall q b0, bh_objects g !! q = Some b0 -> exists b1, bh_objects g1 !! q = Some b1 /\ hb_index b1 = hb_index b0 /\ (q <> p -> b1 = b0)).
  { intros q b0 Hq. cbn. destruct (decide (q = p)) as [->|Hne]; [|rewrite lookup_insert_ne by done; by exists b0].
    rewrite lookup_insert_eq. rewrite Hb in Hq. injection Hq as <-. by eexists. }
  destruct (IH g1) as (m & Hm & Hdom & Hsame).
  { intros j q Hj. destruct (Hl j q ltac:(by right)) as [[b0 Hb0] Hcj]. split; [|done].
    destruct (Hobj q b0 Hb0) as (b1 & -> & _). by eexists. }
  exists m. split_and!; [exact Hm| |].
  - intros q. rewrite Hdom. cbn. destruct (decide (q = p)) as [->|Hne]; [|by rewrite lookup_insert_ne].
    rewrite lookup_insert_eq, Hb. split; intros _; by eexists.
  - intros q b0 Hq. destruct (Hobj q b0 Hq) as (b1 & Hb1 & Hx & Hne). destruct (Hsame q b1 Hb1) as (b2 & Hb2 & Hx2 & Hl2).
    exists b2. split_and!; [done|congruence|]. intros Hno. rewrite Hl2, Hne; [done| |].
    + intros ->. apply (Hno i). by left.
    + intros j Hj. apply (Hno j). by right.
Qed.

(** Dropping the changes of a heap that satisfies its invariant. *)
Lemma drop_modified_settle g :
  bh_ok bs g -> exists g', drop_modified g = Ok g' /\ settled bs g' /\ bh_size g' = bh_size g /\ bh_old_size g' = bh_old_size g /\
    bh_cache g' = bh_cache g.
Proof.
  intros Hg. destruct (discard_blocks_settle (map_to_list (bh_modified g)) g) as (m & Hm & Hdom & Hsame).
  { intros i p Hip%elem_of_map_to_list. pose proof (resident_modified _ _ _ Hip) as Hr.
    destruct (ok_resident _ _ Hg _ _ Hr) as (b & Hb & _). split; [by eexists|]. apply (ok_disjoint _ _ Hg). by eexists. }
  unfold drop_modified. rewrite Hm, Ok_bind. eexists. split_and!; [done|split; cbn|done..].
  - intros p Hp%Hdom. by apply (ok_fresh _ _ Hg).
  - apply (ok_cache _ _ Hg).
  - done.
  - intros i p Hp. assert (Hmi : bh_modified g !! i = None).
    { destruct (bh_modified g !! i) eqn:E; [|done]. by rewrite (ok_disjoint _ _ Hg i) in Hp by (by eexists). }
    pose proof (resident_cached _ _ _ Hmi Hp) as Hr. destruct (ok_resident _ _ Hg _ _ Hr) as (b & Hb & Hi & Hr1 & Hsz & Hcl).
    destruct (Hsame p b Hb) as (b' & Hb' & _ & Heq). exists b. rewrite Hb', Heq; [split_and!; try done; try lia; by apply Hcl|].
    intros j Hj%elem_of_map_to_list. pose proof (resident_modified _ _ _ Hj) as Hrj.
    assert (j = i) as -> by (by eapply resident_inj). congruence.
  - intros Hcur. destruct (ok_current _ _ Hg Hcur) as [[p Hp] Hr]. rewrite Hp in Hr. symmetry in Hr.
    destruct (ok_resident _ _ Hg _ _ Hr) as (b & Hb & Hi & _). destruct (Hsame p b Hb) as (b' & Hb' & Hx & _).
    exists p, b'. split_and!; [done|done|congruence].
Qed.

(** ** Finding a block *)

Definition finds (f : nat -> res (block_heap * Z)) (g : block_heap) (k : Z) (g' : block_heap) (p : Z) (b : heap_block) : Prop :=
  eventually (fun x => f x = Ok (g', p)) /\ settled bs g' /\ bh_objects g' !! p = Some b /\ hb_index b = k /\
  bh_old_size g' = bh_old_size g /\ bh_current g' = Some p /\ bh_current_index g' = k /\
  (bh_current_index g <> k -> lc_map (bh_cache g') !! k = Some p /\
     bh_head g' = (if is_head g k then Some p else bh_head g) /\
     bh_size g' = (if is_head g k then k * MAX_SIZE + hb_size b else bh_size g)) /\
  (forall j, is_Some (lc_map (bh_cache g') !! j) -> j = k \/ is_Some (lc_map (bh_cache g) !! j)).

Lemma settled_cache g c p k :
  settled bs g -> cache_ok c -> lc_capacity c = lc_capacity (bh_cache g) -> lc_map c = lc_map (bh_cache g) ->
  lc_map c !! k = Some p -> settled bs (with_current (with_cache g c) (Some p) k).
Proof.
  intros [H1 [H2 H2'] H3 H4 H5] Hc Hcap Hm Hk. rewrite Hm in Hk. split; cbn; try done.
  - by rewrite Hcap.
  - by rewrite Hm.
  - intros _. destruct (H4 k p Hk) as (b & Hb & Hi & _). by exists p, b.
Qed.

(** The head and the size do not matter. *)
Lemma settled_head g (p : option Z) n : settled bs g -> settled bs (with_head g p n).
Proof. by intros []. Qed.

(** After a block was read and went to the cache. *)
Section load.
Variables (g : block_heap) (k : Z) (b : heap_block) (c : block_cache) (e : option (Z * Z)) (hp : option Z) (n : Z).
Hypothesis Hg : settled bs g.
Hypothesis Hk : 0 <= k < NO_BLOCK.
Hypothesis Hb : hb_index b = k.
Hypothesis Hsz : 0 <= hb_size b <= MAX_SIZE.
Hypothesis Hcl : clean bs k b.
Hypothesis Hc : cache_ok c.
Hypothesis Hcap : lc_capacity c = lc_capacity (bh_cache g).
Hypothesis He : match e with
  | None => lc_map c = <[k := bh_next g]> (lc_map (bh_cache g))
  | Some (j, q) => lc_map (bh_cache g) !! j = Some q /\ j <> k /\ lc_map c = <[k := bh_next g]> (delete j (lc_map (bh_cache g)))
  end.
Let g' := BlockHeap (<[bh_next g := b]> (evict_result g e)) (bh_next g + 1) n hp (Some (bh_next g)) k c (bh_modified g) (bh_old_size g).

Lemma settled_entry j p : lc_map c !! j = Some p ->
  (j = k /\ p = bh_next g) \/ (j <> k /\ lc_map (bh_cache g) !! j = Some p /\ fst <$> e <> Some j).
Proof.
  intros Hj. destruct (decide (j = k)) as [->|Hne].
  - left. split; [done|]. destruct e as [[i q]|]; [destruct He as (_ & _ & E)|rename He into E]; rewrite E, lookup_insert_eq in Hj; congruence.
  - right. split; [done|]. destruct e as [[i q]|]; [destruct He as (_ & _ & E)|rename He into E]; rewrite E, lookup_insert_ne in Hj by done; [|done].
    destruct (decide (i = j)) as [->|Hij]; [by rewrite lookup_delete_eq in Hj|]. rewrite lookup_delete_ne in Hj by done.
    split; [done|]. cbn. congruence.
Qed.

Lemma settled_load : settled bs g'.
Proof.
  split; [intros p [b0 Hp]|..|intros j p Hj|intros _].
  - cbn in Hp |- *. destruct (decide (p = bh_next g)) as [->|Hne]; [lia|]. rewrite lookup_insert_ne in Hp by done.
    assert (is_Some (bh_objects g !! p)) as Hs%(st_fresh _ _ Hg); [|lia]. unfold evict_result in Hp.
    destruct e as [[i q]|]; [|by eexists]. case_bool_decide; [by eexists|]. apply lookup_delete_Some in Hp as [_ Hp]. by eexists.
  - cbn. rewrite Hcap. split; [done|]. apply (st_cache _ _ Hg).
  - exact (st_modified _ _ Hg).
  - cbn in Hj |- *. destruct (settled_entry j p Hj) as [[-> ->]|(Hne & Hp & Hev)].
    + exists b. rewrite lookup_insert_eq. by split_and!; try lia.
    + destruct (st_cached _ _ Hg j p Hp) as (b0 & Hb0 & Hi & Hrest). exists b0.
      rewrite lookup_insert_ne by (intros <-; by rewrite settled_next in Hb0). split; [|done]. unfold evict_result.
      destruct e as [[i q]|]; [|done]. case_bool_decide; [done|]. rewrite lookup_delete_ne; [done|]. intros ->.
      destruct He as (Hi2 & _). destruct (st_cached _ _ Hg i p Hi2) as (b1 & Hb1 & Hi1 & _). cbn in Hev. congruence.
  - cbn. exists (bh_next g), b. by rewrite lookup_insert_eq.
Qed.
End load.

Lemma settled_find c g k :
  settled bs g -> blocks_are c bs -> 0 <= k < NO_BLOCK -> is_Some (bs !! k) ->
  exists g' p b, finds (fun f => get_heap_block f c g k) g k g' p b.
Proof.
  intros Hg Hc Hk [b0 Hb0]. unfold finds, get_heap_block. destruct (Z.eqb_spec (bh_current_index g) k) as [Hcur|Hcur].
  { destruct (st_current _ _ Hg) as (p & b & Hp & Hb & Hi); [lia|]. exists g, p, b. rewrite Hp. split_and!; try done; [|lia|by right].
    by apply eventually_always. }
  rewrite (proj2 (Z.eqb_neq k NEW_BLOCK)) by (unfold NEW_BLOCK, NO_BLOCK in *; lia).
  change (is_head (with_current g (bh_current g) k) k) with (is_head g k). cbn [bh_modified bh_cache with_current].
  rewrite (st_modified _ _ Hg), lookup_empty. destruct (lc_map (bh_cache g) !! k) as [p|] eqn:Hp.
  - assert (Hfind : lru_find (bh_cache g) k = ((lru_find (bh_cache g) k).1, Some p)) by (unfold lru_find; by rewrite Hp).
    rewrite Hfind. set (cc := (lru_find (bh_cache g) k).1) in *.
    assert (Hm : lc_map cc = lc_map (bh_cache g) /\ lc_capacity cc = lc_capacity (bh_cache g)) by (unfold cc, lru_find; by rewrite Hp).
    destruct Hm as [Hm Hcap]. destruct (st_cached _ _ Hg k p Hp) as (b & Hb & Hi & _).
    set (g1 := with_current (with_cache g cc) (Some p) k).
    assert (Hg1 : settled bs g1) by (apply settled_cache; [done|apply find_ok, (st_cache _ _ Hg)|done|done|by rewrite Hm]).
    exists (if is_head g k then with_head g1 (Some p) (k * MAX_SIZE + hb_size b) else g1), p, b. split_and!.
    + apply eventually_always. intros f. change (with_current (with_cache (with_current g (bh_current g) k) cc) (Some p) k) with g1.
      destruct (is_head g k); [|done]. unfold set_head_block, object. change (bh_objects g1) with (bh_objects g). rewrite Hb. cbn. by rewrite Hi.
    + destruct (is_head g k); [by apply settled_head|done].
    + by destruct (is_head g k).
    + done.
    + by destruct (is_head g k).
    + by destruct (is_head g k).
    + by destruct (is_head g k).
    + intros _. destruct (is_head g k); cbn; rewrite Hm; by split_and!.
    + intros j Hj. right. destruct (is_head g k); cbn in Hj; by rewrite Hm in Hj.
  - assert (Hfind : lru_find (bh_cache g) k = (bh_cache g, None)) by (unfold lru_find; by rewrite Hp). rewrite Hfind.
    destruct (get_heap_block_ok c bs k b0 Hc Hb0) as (b & Hb & Hbi & Hbc & Hbf & Hbs).
    destruct (st_cache _ _ Hg) as [Hco Hcap]. destruct (lru_insert_absent _ _ (bh_next g) Hco Hcap Hp) as (cc & e & Hins & Hco' & Hcap' & He).
    set (hp := if is_head g k then Some (bh_next g) else bh_head g).
    set (n := if is_head g k then k * MAX_SIZE + hb_size b else bh_size g).
    assert (Hev : forall j q, e = Some (j, q) -> q <> bh_next g /\ exists b1, bh_objects g !! q = Some b1 /\ hb_changed b1 = false).
    { intros j q ->. destruct He as (Hj & _). destruct (st_cached _ _ Hg j q Hj) as (b1 & Hb1 & _ & _ & _ & Hch & _).
      split; [|by exists b1]. intros ->. by rewrite settled_next in Hb1. }
    eexists _, (bh_next g), b. split_and!.
    + eapply eventually_mono; [exact Hb|]. intros f Hf. unfold load_block. cbn [bh_cache with_cache with_current].
      rewrite Hf, Ok_bind. cbn [new_object]. unfold cache_insert. cbn [bh_cache with_objects with_current bh_next with_cache].
      rewrite Hins, Ok_bind, evicted_clean.
      2:{ intros j q Hjq. destruct (Hev j q Hjq) as (Hq & b1 & Hb1 & Hch). exists b1. cbn. by rewrite lookup_insert_ne. }
      rewrite Ok_bind. cbn beta iota. rewrite Ok_bind. cbn beta iota.
      assert (Hobj : forall g2, bh_head g2 = bh_head g -> bh_objects g2 = <[bh_next g := b]> (bh_objects g) ->
          evict_result g2 e = <[bh_next g := b]> (evict_result g e)).
      { intros g2 Hh2 Ho2. unfold evict_result. destruct e as [[j q]|]; [|done]. rewrite Hh2, Ho2. case_bool_decide; [done|].
        apply delete_insert_ne. by destruct (Hev j q eq_refl) as [Hq _]. }
      rewrite Hobj by done.
      transitivity (Ok (BlockHeap (<[bh_next g := b]> (evict_result g e)) (bh_next g + 1) n hp (Some (bh_next g)) k cc (bh_modified g) (bh_old_size g), bh_next g)).
      * unfold n, hp. destruct (is_head g k); [|done]. unfold set_head_block, object. cbn. rewrite lookup_insert_eq. cbn. by rewrite Hbi.
      * reflexivity.
    + apply (settled_load g k b cc e hp n Hg Hk Hbi (bf_size _ Hbf)); [split; [done|by exists b0]|done..].
    + cbn. by rewrite lookup_insert_eq.
    + done.
    + done.
    + done.
    + done.
    + intros _. cbn. split_and!; [|done..]. destruct e as [[j q]|]; [destruct He as (_ & _ & ->)|rewrite He]; by rewrite lookup_insert_eq.
    + intros j [q Hj]. cbn in Hj. destruct (settled_entry g k b cc e hp n He j q Hj) as [[-> _]|(_ & Hq & _)]; [by left|right; by eexists].
Qed.

(** ** Trimming *)

Lemma settled_erase g i :
  settled bs g -> bh_current_index g <> i ->
  exists g', cache_erase g i = Ok g' /\ settled bs (with_modified g' (delete i (bh_modified g'))) /\
    bh_old_size g' = bh_old_size g /\ bh_size g' = bh_size g /\ bh_current_index g' = bh_current_index g /\
    forall j, lc_map (bh_cache g') !! j = if decide (j = i) then None else lc_map (bh_cache g) !! j.
Proof.
  intros Hg Hcur. pose proof (lru_erase_map (bh_cache g) i) as Hmap. pose proof (erase_ok (bh_cache g) i (proj1 (st_cache _ _ Hg))) as Hok.
  pose proof (erase_capacity (bh_cache g) i) as Hcap. unfold cache_erase.
  destruct (lru_erase (bh_cache g) i) as [cc e] eqn:Her. cbn [fst] in Hmap, Hok, Hcap.
  assert (He : forall j q, e = Some (j, q) -> j = i /\ lc_map (bh_cache g) !! i = Some q).
  { unfold lru_erase in Her. destruct (lc_map (bh_cache g) !! i) as [v|] eqn:E; injection Her as <- <-; [|done].
    by intros j q [= <- <-]. }
  assert (Hobj : forall q, e = Some (i, q) -> exists b, bh_objects g !! q = Some b /\ hb_index b = i /\ hb_changed b = false).
  { intros q Hq. destruct (He i q Hq) as [_ Hi]. destruct (st_cached _ _ Hg i q Hi) as (b & Hb & Hx & _ & _ & Hch & _). by exists b. }
  rewrite evicted_clean.
  2:{ intros j q Hq. destruct (He j q Hq) as [-> _]. destruct (Hobj q Hq) as (b & Hb & _ & Hch). by exists b. }
  assert (Hkeep : forall p b, bh_objects g !! p = Some b -> hb_index b <> i -> evict_result (with_cache g cc) e !! p = Some b).
  { intros p b Hp Hne. unfold evict_result. destruct e as [[j q]|]; [|done]. case_bool_decide; [done|]. cbn.
    rewrite lookup_delete_ne; [done|]. intros ->. destruct (He j p eq_refl) as [-> _]. destruct (Hobj p eq_refl) as (b1 & Hb1 & Hx & _). congruence. }
  eexists. split_and!; [done| |done..]. split; cbn.
  - intros p [b Hp]. apply (st_fresh _ _ Hg). unfold evict_result in Hp. destruct e as [[j q]|]; [|by eexists].
    case_bool_decide; [by eexists|]. apply lookup_delete_Some in Hp as [_ Hp]. by eexists.
  - rewrite Hcap. split; [done|]. apply (st_cache _ _ Hg).
  - rewrite (st_modified _ _ Hg). apply delete_empty.
  - intros j p. rewrite Hmap. destruct (decide (j = i)) as [|Hne]; [done|]. intros Hj.
    destruct (st_cached _ _ Hg j p Hj) as (b & Hb & Hx & Hrest). exists b. split; [|done]. apply Hkeep; congruence.
  - intros Hno. destruct (st_current _ _ Hg Hno) as (p & b & Hp & Hb & Hx). exists p, b. split_and!; [done| |done]. apply Hkeep; congruence.
Qed.

Lemma erase_blocks_settle m g i :
  settled bs g -> bh_current_index g < i -> (forall j, is_Some (lc_map (bh_cache g) !! j) -> j < i + Z.of_nat m) ->
  exists g', erase_blocks m g i = Ok g' /\ settled bs g' /\
    (forall j, is_Some (lc_map (bh_cache g') !! j) -> is_Some (lc_map (bh_cache g) !! j) /\ j < i) /\
    bh_old_size g' = bh_old_size g /\ bh_size g' = bh_size g.
Proof.
  revert g i. induction m as [|m IH]; intros g i Hg Hcur Hj.
  { exists g. split_and!; try done. intros j H. specialize (Hj j H). split; [done|lia]. }
  destruct (settled_erase g i Hg ltac:(lia)) as (g1 & H1 & Hg1 & Hold & Hsz & Hci & Hmap). cbn [erase_blocks]. rewrite H1, Ok_bind.
  destruct (IH _ (i + 1) Hg1) as (g' & Hrun & Hg' & Hlt & Hold' & Hsz').
  - cbn. lia.
  - intros j [p Hp]. cbn in Hp. rewrite Hmap in Hp. destruct (decide (j = i)); [done|]. specialize (Hj j ltac:(by eexists)). lia.
  - exists g'. split_and!; [done|done| |etransitivity; [exact Hold'|done]|etransitivity; [exact Hsz'|done]].
    intros j Hp. destruct (Hlt j Hp) as [Hp1 Hlt1]. cbn in Hp1. rewrite Hmap in Hp1. destruct (decide (j = i)); [by destruct Hp1|].
    split; [done|lia].
Qed.

Lemma committed_index n k : committed bs n k -> find_block_index (n - 1) = k /\ 0 < n.
Proof.
  intros [Hk _ (b & _ & -> & Hs) _]. split; [by apply size_index|]. unfold MAX_SIZE in *. lia.
Qed.

(** Trimming to the committed size, when no block beyond the head is cached. *)
Lemma trim_settle c g n k :
  settled bs g -> blocks_are c bs -> committed bs n k -> 0 < bh_size g ->
  (forall j, is_Some (lc_map (bh_cache g) !! j) -> j <= last_block_index g) ->
  exists g', eventually (fun f => trim_global_heap f c g n = Ok g') /\ settled bs g' /\
    (forall j, is_Some (lc_map (bh_cache g') !! j) -> j <= k) /\ bh_old_size g' = bh_old_size g /\ bh_size g' = n.
Proof.
  intros Hg Hc Hcm Hpos Hlast. destruct (committed_index n k Hcm) as [Hix Hn]. pose proof Hcm as [Hk Hw (b0 & Hb0 & Hn0 & Hs0) Hall].
  destruct (settled_find c g k Hg Hc Hk ltac:(by eexists)) as (g1 & p & b & He & Hg1 & Hb & Hbi & Hold & _ & Hci & _ & Hcache).
  set (g2 := with_head (set_object g1 p (block_trim b (n - hb_offset b))) (Some p) n).
  assert (Hg2 : settled bs g2).
  { apply settled_head, (settled_set g1 p b); [done..|]. intros Hp.
    destruct (st_cached _ _ Hg1 _ _ Hp) as (b1 & Hb1 & _ & _ & _ & _ & b2 & Hb2 & [Hs2 _]). rewrite Hbi, Hb0 in Hb2. injection Hb2 as <-.
    assert (b1 = b) as -> by congruence. unfold hb_offset. rewrite Hbi, Hn0. replace (_ - _) with (hb_size b) by lia. by destruct b. }
  assert (Hsz : bh_size g2 = n) by done.
  assert (Hli : last_block_index g2 = k).
  { unfold last_block_index. rewrite Hsz, (proj2 (Z.eqb_neq _ _)), Hix by lia. done. }
  destruct (erase_blocks_settle (Z.to_nat (last_block_index g + 1 - (k + 1))) g2 (k + 1) Hg2) as (g' & Hrun & Hg' & Hlt & Hold' & Hsz').
  { change (bh_current_index g2) with (bh_current_index g1). lia. }
  { intros j Hj. destruct (Hcache j Hj) as [->|H]; [lia|]. specialize (Hlast j H). lia. }
  exists g'. split_and!; [|done|intros j Hj; destruct (Hlt j Hj); lia|etransitivity; [exact Hold'|exact Hold]|by etransitivity; [exact Hsz'|]].
  eapply eventually_mono; [exact He|]. intros f Hf. unfold trim_global_heap, internal_trim.
  rewrite (proj2 (Z.eqb_neq (bh_size g) 0)), (proj2 (Z.ltb_lt 0 n)), Hix by lia. rewrite Hf, Ok_bind. cbn beta iota.
  unfold object. rewrite Hb. cbn [of_option]. rewrite !Ok_bind. fold g2. by rewrite Hli.
Qed.

(** ** The head again *)

(** A settled heap whose head and last block used is block [k], in the cache, and no more
    blocks are cached. *)
Lemma settled_bh_ok g n k p b :
  settled bs g -> committed bs n k -> (forall j, is_Some (lc_map (bh_cache g) !! j) -> j <= k) ->
  lc_map (bh_cache g) !! k = Some p -> bh_objects g !! p = Some b -> bh_head g = Some p -> bh_current g = Some p ->
  bh_current_index g = k -> bh_size g = n ->
  bh_ok bs g /\ head_index g = Some k /\ forall i, option_Forall2 same_block (bs !! i) (block_at bs g i).
Proof.
  intros Hg Hcm Hle Hk Hb Hhp Hcp Hci Hsz. pose proof Hcm as [Hk0 Hw (b0 & Hb0 & Hn0 & Hs0) Hall].
  destruct (st_cached _ _ Hg k p Hk) as (b1 & Hb1 & Hx & _ & Hs & Hch & b2 & Hb2 & Hsame). rewrite Hb in Hb1. injection Hb1 as <-.
  rewrite Hb0 in Hb2. injection Hb2 as <-.
  assert (Hhx : head_index g = Some k) by (unfold head_index; rewrite Hhp; cbn; by rewrite Hb; cbn; rewrite Hx).
  assert (Hres : forall i, resident g i = lc_map (bh_cache g) !! i).
  { intros i. unfold resident. rewrite (st_modified _ _ Hg), lookup_empty, Hhx. destruct (lc_map (bh_cache g) !! i) eqn:E; [done|].
    destruct (decide (Some k = Some i)) as [[= <-]|]; congruence. }
  assert (Hview : forall i, option_Forall2 same_block (bs !! i) (block_at bs g i)).
  { intros i. unfold block_at. rewrite Hres. destruct (lc_map (bh_cache g) !! i) as [q|] eqn:Hq; [|done].
    destruct (st_cached _ _ Hg i q Hq) as (b3 & -> & _ & _ & _ & _ & b4 & -> & H4). by constructor. }
  split; [|done]. split.
  - apply (st_fresh _ _ Hg).
  - apply (st_cache _ _ Hg).
  - intros i q. rewrite Hres. intros Hq. destruct (st_cached _ _ Hg i q Hq) as (b3 & Hb3 & Hi & Hr & Hs3 & Hcl).
    exists b3. by split_and!; try lia.
  - intros i. rewrite (st_modified _ _ Hg), lookup_empty. by intros [? ?].
  - intros _. rewrite Hres, Hci, Hk. by split; [eexists|].
  - exists p, b. rewrite Hres, Hx. destruct Hsame as [Hs1 _]. unfold hb_offset. rewrite Hx. split_and!; try done; lia.
  - intros i j. rewrite Hhx. intros [= <-] Hi. destruct (Hall i Hi) as [b3 Hb3]. specialize (Hview i). rewrite Hb3 in Hview.
    inversion_clear Hview. by eexists.
  - intros i j. rewrite Hhx. intros [= <-] Hi. rewrite (st_modified _ _ Hg), lookup_empty. split; [done|].
    destruct (lc_map (bh_cache g) !! i) eqn:E; [|done]. specialize (Hle i ltac:(by eexists)). lia.
Qed.

Lemma restore_head_ok c g n k :
  settled bs g -> blocks_are c bs -> committed bs n k -> 0 < bh_size g -> bh_old_size g = n ->
  (forall j, is_Some (lc_map (bh_cache g) !! j) -> j <= last_block_index g) ->
  exists g', eventually (fun f => restore_head f c g = Ok g') /\ bh_ok bs g' /\ bh_size g' = n /\ head_index g' = Some k /\
    (forall i, option_Forall2 same_block (bs !! i) (block_at bs g' i)) /\ bh_modified g' = ∅ /\ bh_old_size g' = n.
Proof.
  intros Hg Hc Hcm Hpos Hold Hlast. destruct (committed_index n k Hcm) as [Hix Hn]. pose proof Hcm as [Hk Hw (b0 & Hb0 & Hn0 & Hs0) Hall].
  destruct (trim_settle c g n k Hg Hc Hcm Hpos Hlast) as (g1 & He1 & Hg1 & Hle & Hold1 & Hsz1).
  set (g2 := with_head (with_current g1 None NO_BLOCK) None (bh_size g1)).
  assert (Hg2 : settled bs g2) by (apply settled_head; destruct Hg1; by split).
  destruct (settled_find c g2 k Hg2 Hc Hk ltac:(by eexists)) as (g3 & p & b & He3 & Hg3 & Hb & Hbi & Hold3 & Hcp & Hci & Hcase & Hcache).
  destruct (Hcase ltac:(cbn; unfold NO_BLOCK in *; lia)) as (Hp & Hhead & Hsize).
  assert (Hish : is_head g2 k = true).
  { unfold is_head. cbn [g2 bh_size with_head with_current]. rewrite Hsz1, (proj2 (Z.eqb_neq n 0)), Hix by lia. apply Z.eqb_refl. }
  rewrite Hish in Hhead, Hsize.
  destruct (st_cached _ _ Hg3 k p Hp) as (b1 & Hb1 & _ & _ & _ & _ & b2 & Hb2 & Hsame). rewrite Hb in Hb1. injection Hb1 as <-.
  rewrite Hb0 in Hb2. injection Hb2 as <-. pose proof Hsame as [Hs1 Hcells].
  set (g4 := with_current g3 (bh_head g3) (bh_current_index g3)).
  assert (Hg4 : settled bs g4).
  { destruct Hg3 as [H1 H2 H3 H4 H5]. split; try done. intros Hno. exists p, b. cbn. split_and!; [done|done|congruence]. }
  destruct (settled_bh_ok g4 n k p b Hg4 Hcm) as (Hok & Hhx & Hview); [|cbn; congruence..|cbn; lia|].
  { intros j Hj. destruct (Hcache j Hj) as [->|H]; [done|]. by apply Hle. }
  assert (Hcell : exists v, hb_cells b !! (n - 1 - hb_offset b) = Some v).
  { destruct Hc as (m & _ & Hm). specialize (Hm k). rewrite Hb0 in Hm. destruct Hm as (_ & Hf & _).
    destruct (bf_cells _ Hf (hb_size b0 - 1) ltac:(lia)) as (v & Hv & _). exists v. unfold hb_offset.
    rewrite Hbi, Hn0. replace (_ - _) with (hb_size b0 - 1) by lia. rewrite Hcells; [done|lia]. }
  destruct Hcell as [v Hv]. exists g4. split_and!; try done; [|cbn; lia|exact (st_modified _ _ Hg3)|cbn; rewrite Hold3; cbn; congruence].
  eapply eventually_mono; [exact (eventually_and _ _ He1 He3)|]. intros f [Hf1 Hf3]. unfold restore_head. rewrite Hold, Hf1, Ok_bind.
  unfold set_head_block at 1. rewrite Ok_bind. change (with_head (with_current g1 None NO_BLOCK) None (bh_size (with_current g1 None NO_BLOCK))) with g2.
  replace (w64 (bh_old_size g2 - 1)) with (n - 1); [|change (bh_old_size g2) with (bh_old_size g1); rewrite Hold1, Hold; symmetry; apply wrap_id; split; lia].
  unfold bh_get. change (bh_size g2) with (bh_size g1). rewrite Hsz1, (proj2 (Z.ltb_lt (n - 1) n)) by lia. cbn [require]. rewrite Ok_bind, Hix, Hf3, Ok_bind.
  cbn beta iota. unfold object. rewrite Hb. cbn [of_option]. rewrite Ok_bind. unfold block_get, position.
  assert (Hpos2 : 0 <= n - 1 - hb_offset b < MAX_SIZE) by (unfold hb_offset; rewrite Hbi; lia).
  rewrite (proj2 (Z.leb_le _ _)), (proj2 (Z.ltb_lt _ _)) by lia. cbn [andb require]. rewrite !Ok_bind, Hv. cbn [of_option]. by rewrite Ok_bind.
Qed.
End discard.
