(* ===== verification/BlockHeapRun.v ===== *)
(** * The heap of the global interpreter over a block of the chain

    A block of the chain executes goals on the heap in blocks, then commits the heap or
    discards what was done.  Programs of heap operations run on the specification, one
    array of cells, and on the blocks with the same results; the commit stores the heap;
    the discard brings back the heap of the last commit. *)

From stdpp Require Import sorting.
From S2P Require Import Prelude Cells Heap HeapBlock Lru TrieNode TrieDb TrieIter TrieMap Blockchain Chain.
From S2P Require Import GlobalDb GlobalDbSpec BlockHeap BlockHeapSpec BlockHeapDiscard.

(** ** Programs *)

Inductive heap_op :=
  | GetCell (addr : Z)
  | SetCell (addr v : Z)
  | Allocate (t : tag) (n : Z).

(** What a program may do: it writes to cells of its own, [own], and to what it allocates. *)
Definition range := (Z * Z)%type.
Definition in_range (addr : Z) (r : range) : bool := (r.1 <=? addr) && (addr <? r.1 + r.2).
Definition owned (own : list range) (addr : Z) : Prop := Exists (fun r => in_range addr r = true) own.

(** The specification: a heap as one array; a result for every read and allocation. *)
Fixpoint spec_heap_run (h : heap) (own : list range) (ops : list heap_op) : option (heap * list range * list Z) :=
  match ops with
  | [] => Some (h, own, [])
  | GetCell addr :: ops =>
      match heap_get h addr with
      | Ok v => '(h, own, out) ← spec_heap_run h own ops; Some (h, own, v :: out)
      | _ => None
      end
  | SetCell addr v :: ops =>
      match heap_set h addr v with
      | Ok h => if existsb (in_range addr) own then spec_heap_run h own ops else None
      | _ => None
      end
  | Allocate t n :: ops =>
      if (0 <? n) && (n <=? MAX_SIZE) && (h_blocks h <? NO_BLOCK) then
        match allocate h t n with
        | Ok (h, addr) => '(h, own, out) ← spec_heap_run h ((addr, n) :: own) ops; Some (h, own, addr :: out)
        | _ => None
        end
      else None
  end.

(** The same on the blocks. *)
Fixpoint block_heap_run (find_fuel : nat) (c : blockchain) (g : block_heap) (ops : list heap_op) : res (block_heap * list Z) :=
  match ops with
  | [] => Ok (g, [])
  | GetCell addr :: ops =>
      '(g, v) ← bh_get find_fuel c g addr;
      '(g, out) ← block_heap_run find_fuel c g ops; Ok (g, v :: out)
  | SetCell addr v :: ops =>
      g ← bh_set find_fuel c g addr v;
      block_heap_run find_fuel c g ops
  | Allocate t n :: ops =>
      '(g, addr) ← bh_allocate find_fuel c g t n;
      '(g, out) ← block_heap_run find_fuel c g ops; Ok (g, addr :: out)
  end.

(** [g] is the heap [h], and [own] lies in it. *)
Record represents (bs : gmap Z heap_block) (g : block_heap) (h : heap) (own : list range) : Prop := Represents {
  rp_ok : bh_ok bs g;
  rp_heap : implements bs g h;
  rp_own : forall addr, owned own addr -> allocated bs g addr
}.

Section run.
Context (bs : gmap Z heap_block) (c : blockchain).
Hypothesis Hc : blocks_are c bs.

Lemma run_get g h own addr v : represents bs g h own -> heap_get h addr = Ok v ->
  exists g', eventually (fun f => bh_get f c g addr = Ok (g', v)) /\ represents bs g' h own /\ bh_old_size g' = bh_old_size g.
Proof.
  intros [Hg Him Hown] H. destruct (bh_get_implements bs c g h addr v Hg Hc Him H) as (g' & He & Hg' & Him' & Hv & Hold).
  exists g'. split_and!; [done|split; [done..|]|done]. intros a Ha. by eapply same_view_allocated, Hown.
Qed.

Lemma run_set g h own addr v h' : represents bs g h own -> heap_set h addr v = Ok h' -> existsb (in_range addr) own = true ->
  exists g', eventually (fun f => bh_set f c g addr v = Ok g') /\ represents bs g' h' own /\ bh_old_size g' = bh_old_size g.
Proof.
  intros [Hg Him Hown] H (r & Hin & Hr)%existsb_exists.
  assert (Hal : allocated bs g addr).
  { apply Hown, Exists_exists. exists r. split; [by apply list_elem_of_In|done]. }
  destruct (bh_set_implements bs c g h addr v h' Hg Hc Him Hal H) as (g' & He & Hg' & Him' & Hall & Hold).
  exists g'. split_and!; [done|split; [done..|]|done]. intros a Ha. by apply Hall, Hown.
Qed.

Lemma run_allocate g h own t n h' addr : represents bs g h own ->
  (0 <? n) && (n <=? MAX_SIZE) && (h_blocks h <? NO_BLOCK) = true -> allocate h t n = Ok (h', addr) ->
  exists g', (forall f, bh_allocate f c g t n = Ok (g', addr)) /\ represents bs g' h' ((addr, n) :: own) /\ bh_old_size g' = bh_old_size g.
Proof.
  intros [Hg Him Hown] [[Hn1 Hn2]%andb_true_iff Hb]%andb_true_iff H.
  apply Z.ltb_lt in Hn1, Hb. apply Z.leb_le in Hn2.
  destruct (bh_allocate_implements bs c g h t n h' addr Hg Him ltac:(done) Hb H) as (g' & He & Hg' & Him' & Hall & Hnew & Hold).
  exists g'. split_and!; [done|split; [done..|]|done]. intros a Ha. apply Exists_cons in Ha as [Ha|Ha].
  - unfold in_range in Ha. cbn in Ha. apply andb_true_iff in Ha as [Ha1 Ha2]. apply Z.leb_le in Ha1. apply Z.ltb_lt in Ha2. by apply Hnew.
  - by apply Hall, Hown.
Qed.

Lemma run_represents ops g h own h' own' out :
  represents bs g h own -> spec_heap_run h own ops = Some (h', own', out) ->
  exists g', eventually (fun f => block_heap_run f c g ops = Ok (g', out)) /\ represents bs g' h' own' /\ bh_old_size g' = bh_old_size g.
Proof.
  revert g h own h' own' out. induction ops as [|[addr|addr v|t n] ops IH]; intros g h own h' own' out Hrep; cbn [spec_heap_run block_heap_run].
  - intros [= <- <- <-]. exists g. split_and!; [by apply eventually_always|done..].
  - destruct (heap_get h addr) as [v|] eqn:Hget; [|done]. destruct (spec_heap_run h own ops) as [[[h1 own1] out1]|] eqn:Hspec; [|done].
    intros [= <- <- <-]. destruct (run_get g h own addr v Hrep Hget) as (g1 & He1 & Hrep1 & Hold1).
    destruct (IH g1 h own _ _ _ Hrep1 Hspec) as (g2 & He2 & Hrep2 & Hold2). exists g2. split_and!; [|done|congruence].
    eapply eventually_mono; [exact (eventually_and _ _ He1 He2)|]. intros f [Hf1 Hf2]. by rewrite Hf1, Ok_bind, Hf2.
  - destruct (heap_set h addr v) as [h1|] eqn:Hset; [|done]. destruct (existsb _ own) eqn:Hown; [|done]. intros Hspec.
    destruct (run_set g h own addr v h1 Hrep Hset Hown) as (g1 & He1 & Hrep1 & Hold1).
    destruct (IH g1 h1 own _ _ _ Hrep1 Hspec) as (g2 & He2 & Hrep2 & Hold2). exists g2. split_and!; [|done|congruence].
    eapply eventually_mono; [exact (eventually_and _ _ He1 He2)|]. intros f [Hf1 Hf2]. by rewrite Hf1, Ok_bind.
  - destruct (_ && _ && _) eqn:Hn; [|done]. destruct (allocate h t n) as [[h1 addr]|] eqn:Hal; [|done].
    destruct (spec_heap_run h1 _ ops) as [[[h2 own2] out2]|] eqn:Hspec; [|done]. intros [= <- <- <-].
    destruct (run_allocate g h own t n h1 addr Hrep Hn Hal) as (g1 & He1 & Hrep1 & Hold1).
    destruct (IH g1 h1 _ _ _ _ Hrep1 Hspec) as (g2 & He2 & Hrep2 & Hold2). exists g2. split_and!; [|done|congruence].
    eapply eventually_mono; [exact He2|]. intros f Hf. by rewrite He1, Ok_bind, Hf.
Qed.
End run.

(** ** Commit and discard *)

Lemma same_block_trans o1 o2 o3 :
  option_Forall2 same_block o1 o2 -> option_Forall2 same_block o1 o3 -> option_Forall2 same_block o2 o3.
Proof.
  intros [b1 b2 H|]; intros H2; inversion_clear H2 as [? b3 H3|]; constructor. by transitivity b1.
Qed.

(** Without changed blocks, the heap is the stored one. *)
Lemma unchanged_committed bs g :
  bh_ok bs g -> bh_modified g = ∅ -> bh_size g <= 2 ^ 64 ->
  exists k, committed bs (bh_size g) k /\ head_index g = Some k /\ forall i, option_Forall2 same_block (bs !! i) (block_at bs g i).
Proof.
  intros Hg Hm Hw. destruct (head_facts bs g Hg) as (p & b & Hp & Hb & Hr & Hs & Hsz & Hi & Hx & _).
  assert (Hview : forall i, option_Forall2 same_block (bs !! i) (block_at bs g i)).
  { intros i. unfold block_at. destruct (resident g i) as [q|] eqn:Hq; [|done].
    destruct (ok_resident _ _ Hg _ _ Hq) as (b1 & -> & _ & _ & _ & Hcl).
    destruct (Hcl ltac:(by rewrite Hm, lookup_empty)) as (_ & b2 & -> & H2). by constructor. }
  exists (hb_index b). split; [split|by split]; [done|done| |].
  - specialize (Hview (hb_index b)). unfold block_at in Hview. rewrite Hr, Hb in Hview.
    inversion Hview as [b0 ? [Hs0 _] E|]. exists b0. split; [done|]. lia.
  - intros i Hik. destruct (ok_all _ _ Hg i _ Hx Hik) as [b1 Hb1]. specialize (Hview i). rewrite Hb1 in Hview.
    inversion Hview. by eexists.
Qed.

(** Discarding, from any state the programs reach. *)
Lemma discard_heap_ok bs c g k :
  blocks_are c bs -> bh_ok bs g -> committed bs (bh_old_size g) k ->
  exists g', eventually (fun f => discard_heap f c g = Ok g') /\ bh_ok bs g' /\ bh_size g' = bh_old_size g /\ head_index g' = Some k /\
    (forall i, option_Forall2 same_block (bs !! i) (block_at bs g' i)) /\ bh_modified g' = ∅ /\ bh_old_size g' = bh_old_size g.
Proof.
  intros Hc Hg Hcm. destruct (drop_modified_settle bs g Hg) as (g1 & H1 & Hg1 & Hsz & Hold & Hcache).
  destruct (head_facts bs g Hg) as (p & b & Hp & Hb & Hr & Hs & Hbsz & Hi & Hx & _).
  assert (Hpos : 0 < bh_size g1) by (rewrite Hsz; unfold MAX_SIZE in *; lia).
  destruct (restore_head_ok bs c g1 (bh_old_size g) k Hg1 Hc Hcm Hpos Hold) as (g' & He & Hg' & H').
  - intros j [q Hj]. rewrite Hcache in Hj. unfold last_block_index. rewrite Hsz in Hpos |- *. rewrite (proj2 (Z.eqb_neq _ _)) by lia.
    rewrite Hs, size_index by done. destruct (Z.le_gt_cases j (hb_index b)); [done|].
    destruct (ok_beyond _ _ Hg j _ Hx ltac:(lia)) as [_ Hn]. congruence.
  - exists g'. split_and!; try apply H'; [|done]. eapply eventually_mono; [exact He|]. intros f Hf.
    unfold discard_heap. by rewrite H1, Ok_bind.
Qed.

(** Every allocated cell has been written. *)
Definition all_written (bs : gmap Z heap_block) (g : block_heap) (h : heap) : Prop :=
  forall addr, allocated bs g addr -> exists v, h_cells h !! addr = Some v /\ is_word 64 v.

Lemma written_full bs g h i b :
  bh_ok bs g -> implements bs g h -> all_written bs g h -> block_at bs g i = Some b -> is_Some (bh_modified g !! i) -> block_full b.
Proof.
  intros Hg Him Hw Hb [p Hp]. pose proof (resident_modified g i p Hp) as Hr.
  destruct (ok_resident _ _ Hg _ _ Hr) as (b1 & Hb1 & Hx & Hi & Hsz & _). unfold block_at in Hb. rewrite Hr, Hb1 in Hb. injection Hb as ->.
  destruct (head_facts bs g Hg) as (hp & hb & Hhp & Hhb & Hhr & Hs & Hhsz & _ & Hhx & _).
  assert (Hle : i <= hb_index hb).
  { destruct (Z.le_gt_cases i (hb_index hb)); [done|]. destruct (ok_beyond _ _ Hg i _ Hhx ltac:(lia)). congruence. }
  split; [done|]. intros pos Hpos.
  assert (Hsplit : find_block_index (i * MAX_SIZE + pos) = i /\ (i * MAX_SIZE + pos) mod MAX_SIZE = pos).
  { unfold find_block_index. split.
    - symmetry. apply (Z.div_unique _ _ _ pos); unfold MAX_SIZE in *; lia.
    - symmetry. apply (Z.mod_unique _ _ i); unfold MAX_SIZE in *; lia. }
  destruct Hsplit as [Hix Hmod].
  assert (Hba : block_at bs g i = Some b) by (unfold block_at; by rewrite Hr).
  destruct (Hw (i * MAX_SIZE + pos)) as (v & Hv & Hword).
  - split; [|exists b; rewrite Hix, Hmod; split; [done|lia]]. rewrite Hs. destruct (decide (i = hb_index hb)) as [E|E].
    + assert (hp = p) as -> by congruence. assert (hb = b) as -> by congruence. unfold MAX_SIZE in *. lia.
    + unfold MAX_SIZE in *. lia.
  - destruct (im_cells _ _ _ Him _ _ Hv) as [_ Hcell]. unfold cell_at in Hcell. rewrite Hix, Hba in Hcell. cbn in Hcell.
    rewrite Hmod in Hcell. unfold cell_of in Hcell. destruct (_ <? _); [|done]. by exists v.
Qed.

(** A heap with the same blocks is the same. *)
Lemma view_represents bs g bs' g' h own :
  same_view bs g bs' g' -> bh_ok bs' g' -> represents bs g h own -> represents bs' g' h own.
Proof.
  intros (Hs & Hx & Hv) Hg' [Hg [H1 H2 H3] Hown].
  assert (Hcell : forall a v, cell_at bs g a = Some v -> cell_at bs' g' a = Some v).
  { intros a v. unfold cell_at. specialize (Hv (find_block_index a)). destruct Hv as [b b' Hb|]; [|done]. cbn. intros <-.
    apply same_cell; [done|]. by apply Z.mod_pos_bound. }
  split; [done|split; [congruence..|]|].
  - intros a v Ha. destruct (H3 a v Ha) as [Ha0 Hc]. split; [lia|]. by apply Hcell.
  - intros a Ha. destruct (Hown a Ha) as (Ha0 & b & Hb & Hl). split; [lia|]. specialize (Hv (find_block_index a)).
    rewrite Hb in Hv. inversion Hv as [? b' [Hsz _] E|]. exists b'. split; [done|]. lia.
Qed.

Section commit.
Context (blake2b : list Z -> list Z).
Hypothesis blake2b_length : forall bs, length (blake2b bs) = 32%nat.
Hypothesis blake2b_bytes : forall bs, are_bytes (blake2b bs).

Lemma commit_represents c bs g h own :
  blocks_are c bs -> represents bs g h own -> all_written bs g h ->
  (length (lc_access (bh_cache g)) + size (bh_modified g) <= lc_capacity (bh_cache g))%nat ->
  exists c' bs' g', commit_heap blake2b c g = Ok (c', g') /\ blocks_are c' bs' /\ represents bs' g' h own /\
    bh_size g' = bh_size g /\ bh_modified g' = ∅ /\ bh_old_size g' = bh_size g'.
Proof.
  intros Hc [Hg Him Hown] Hw Hroom.
  destruct (commit_heap_ok blake2b blake2b_length blake2b_bytes c bs g Hc Hg Hroom) as (c' & bs' & g' & Hrun & Hc' & Hg' & Hv & Hm & Hold).
  { intros i b. by apply written_full with h. }
  exists c', bs', g'. split_and!; try done; [|by destruct Hv]. by eapply view_represents.
Qed.
End commit.

Lemma committed_heap_cells bs g h own addr v : represents bs g h own -> bh_modified g = ∅ -> bh_size g <= 2 ^ 64 ->
  h_cells h !! addr = Some v -> exists b, bs !! find_block_index addr = Some b /\ cell_of b (addr mod MAX_SIZE) = Some v.
Proof.
  intros [Hg [_ _ H3] _] Hm Hsz Hv. destruct (H3 addr v Hv) as [_ Hcell].
  destruct (unchanged_committed bs g Hg Hm Hsz) as (k & _ & _ & Hview).
  unfold cell_at in Hcell. specialize (Hview (find_block_index addr)). destruct Hview as [b b' Hb|]; [|done].
  exists b. split; [done|]. rewrite <-Hcell. cbn. symmetry. apply same_cell; [done|]. by apply Z.mod_pos_bound.
Qed.

(** ** The properties *)

(** C5: programs that allocate structures, read cells, and write cells they have allocated run
    on the blocks of the global interpreter, which come from the cache, the table of
    changed blocks or the database, as they do on one array of cells: with enough fuel for
    the database the same results, and the blocks then are the array's cells again.
    Watching cells is not among the operations. *)
Theorem block_heap_refines_heap bs c g h own ops h' own' out :
  blocks_are c bs -> represents bs g h own -> spec_heap_run h own ops = Some (h', own', out) ->
  exists g', eventually (fun f => block_heap_run f c g ops = Ok (g', out)) /\ represents bs g' h' own'.
Proof.
  intros Hc Hrep Hspec. destruct (run_represents bs c Hc ops g h own h' own' out Hrep Hspec) as (g' & He & Hrep' & _).
  by exists g'.
Qed.

Section theorems.
Context (blake2b : list Z -> list Z).
Hypothesis blake2b_length : forall bs, length (blake2b bs) = 32%nat.
Hypothesis blake2b_bytes : forall bs, are_bytes (blake2b bs).

(** [commit_heap] stores every cell of the heap in the database and leaves the heap as
    it is, without changed blocks, when every allocated cell was written and the cache has
    room for the changed blocks. *)
Theorem commit_stores_heap c bs g h own :
  blocks_are c bs -> represents bs g h own -> all_written bs g h -> bh_size g <= 2 ^ 64 ->
  (length (lc_access (bh_cache g)) + size (bh_modified g) <= lc_capacity (bh_cache g))%nat ->
  exists c' bs' g', commit_heap blake2b c g = Ok (c', g') /\ blocks_are c' bs' /\ represents bs' g' h own /\
    bh_modified g' = ∅ /\ bh_old_size g' = bh_size g' /\
    forall addr v, h_cells h !! addr = Some v ->
      exists b, bs' !! find_block_index addr = Some b /\ cell_of b (addr mod MAX_SIZE) = Some v.
Proof.
  intros Hc Hrep Hw Hsz Hroom.
  destruct (commit_represents blake2b blake2b_length blake2b_bytes c bs g h own Hc Hrep Hw Hroom)
    as (c' & bs' & g' & Hrun & Hc' & Hrep' & Hsz' & Hm & Hold).
  exists c', bs', g'. split_and!; try done. intros addr v. apply (committed_heap_cells bs' g' h own addr v); [done..|lia].
Qed.
End theorems.

(** C6: after a commit, whatever cells a program allocated, read and wrote (each write to a
    cell it had allocated), [discard_heap] brings back the committed heap.  Watching a cell
    and trimming the heap are not among the operations. *)
Theorem discard_restores_heap bs c g h own ops h' own' out :
  blocks_are c bs -> represents bs g h own -> bh_modified g = ∅ -> bh_old_size g = bh_size g -> bh_size g <= 2 ^ 64 ->
  spec_heap_run h own ops = Some (h', own', out) ->
  exists g' g'', eventually (fun f => block_heap_run f c g ops = Ok (g', out)) /\
    eventually (fun f => discard_heap f c g' = Ok g'') /\ represents bs g'' h own /\
    bh_modified g'' = ∅ /\ bh_old_size g'' = bh_size g''.
Proof.
  intros Hc Hrep Hm Hold Hw Hspec. destruct (run_represents bs c Hc ops g h own h' own' out Hrep Hspec) as (g' & He & [Hg' _ _] & Hold').
  destruct (unchanged_committed bs g (rp_ok _ _ _ _ Hrep) Hm Hw) as (k & Hcm & Hx & Hview).
  rewrite <-Hold, <-Hold' in Hcm. destruct (discard_heap_ok bs c g' k Hc Hg' Hcm) as (g'' & He' & Hg'' & Hs & Hx' & Hview' & Hm' & Hold'').
  exists g', g''. split_and!; [done|done| |done|congruence]. apply (view_represents bs g bs g''); [|done|done].
  split_and!; [congruence..|]. intros i. eapply same_block_trans; [apply Hview|apply Hview'].
Qed.

(** ** Examples *)

Module BlockExample.
(** A new heap of one cell. *)
Definition new_chain : blockchain := with_heap_db genesis_chain (heap_db genesis_chain).
Definition new_cell : res (block_heap * Z) :=
  g ← new_heap 20 new_chain (block_heap_new 2); bh_allocate 20 new_chain g REF 1.
Definition blocks : block_heap :=
  BlockHeap {[0 := HeapBlock 0 1 true {[0 := mk_cell REF 0]}]} 1 1 (Some 0) (Some 0) 0 (lru_empty 2) {[0 := 0]} 0.
Definition cells : heap := with_layout heap_empty {[0 := mk_cell REF 0]} 1 1.
Definition program : list heap_op := [Allocate STR 2; SetCell 2 42; GetCell 0; SetCell 0 7; GetCell 2].
Definition result : heap := with_layout heap_empty {[0 := 7; 1 := mk_cell STR 1; 2 := 42]} 3 1.

Lemma new_cell_blocks : new_cell = Ok (blocks, 0).
Proof. by vm_compute. Qed.

Lemma resident_blocks i : resident blocks i = if decide (i = 0) then Some 0 else None.
Proof.
  unfold resident. destruct (decide (i = 0)) as [->|Hne]; [done|]. cbn. rewrite lookup_singleton_ne by done.
  rewrite lookup_empty, decide_False; [done|]. intros [= E]. done.
Qed.

Lemma blocks_ok : bh_ok ∅ blocks.
Proof.
  assert (Hhx : head_index blocks = Some 0) by done. split.
  - intros p [b Hp]. cbn in *. apply lookup_singleton_Some in Hp as [<- _]. lia.
  - split; [|cbn; lia]. split; cbn; [constructor| |lia]. intros k. rewrite lookup_empty. split; [by intros ?%elem_of_nil|by intros [? ?]].
  - intros i p. rewrite resident_blocks. destruct (decide (i = 0)) as [->|]; [|done]. intros [= <-]. eexists. split; [done|].
    cbn. unfold NO_BLOCK, MAX_SIZE. split_and!; try done; lia.
  - intros i _. apply lookup_empty.
  - intros _. split; [by eexists|done].
  - eexists _, _. split_and!; [done..|cbn; lia].
  - intros i j. rewrite Hhx. intros [= <-] Hi. assert (i = 0) as -> by lia. by eexists.
  - intros i j. rewrite Hhx. intros [= <-] Hi. split; [|apply lookup_empty]. cbn. apply lookup_singleton_ne. lia.
Qed.

Lemma new_chain_blocks : blocks_are new_chain ∅.
Proof.
  exists ∅. split; [|intros i; by rewrite !lookup_empty]. exists (<[20 := ∅]> ∅).
  assert (heap_db new_chain = example_db) as -> by by vm_compute. split; [exact example_refines|].
  assert (heap_root new_chain = 20) as -> by by vm_compute. by rewrite lookup_insert_eq.
Qed.

Lemma blocks_cells : represents ∅ blocks cells [(0, 1)].
Proof.
  split; [exact blocks_ok|split|].
  - done.
  - done.
  - intros a v Ha. cbn in Ha. apply lookup_singleton_Some in Ha as [<- <-]. split; [cbn; lia|done].
  - intros a Ha. apply Exists_cons in Ha as [Ha|Ha%Exists_nil]; [|done]. apply andb_true_iff in Ha as [H1 H2].
    apply Z.leb_le in H1. apply Z.ltb_lt in H2. cbn in H1, H2. assert (a = 0) as -> by lia.
    split; [cbn; lia|]. eexists. split; [done|]. cbn. done.
Qed.

Lemma blocks_written : all_written ∅ blocks cells.
Proof.
  intros a [Ha _]. cbn in Ha. assert (a = 0) as -> by lia. eexists. split; [done|]. by apply (bool_decide_unpack _).
Qed.

Lemma program_result : spec_heap_run cells [(0, 1)] program = Some (result, [(1, 2); (0, 1)], [1; mk_cell REF 0; 42]).
Proof. by vm_compute. Qed.
End BlockExample.

Lemma block_heap_refines_heap_witness :
  exists g', eventually (fun f => block_heap_run f BlockExample.new_chain BlockExample.blocks BlockExample.program = Ok (g', [1; mk_cell REF 0; 42])) /\
    represents ∅ g' BlockExample.result [(1, 2); (0, 1)].
Proof.
  apply (block_heap_refines_heap ∅ BlockExample.new_chain BlockExample.blocks BlockExample.cells [(0, 1)] BlockExample.program).
  - exact BlockExample.new_chain_blocks.
  - exact BlockExample.blocks_cells.
  - exact BlockExample.program_result.
Defined.

Lemma commit_stores_heap_witness :
  exists c' bs' g', commit_heap checksum BlockExample.new_chain BlockExample.blocks = Ok (c', g') /\ blocks_are c' bs' /\
    exists b, bs' !! 0 = Some b /\ cell_of b 0 = Some (mk_cell REF 0).
Proof.
  destruct (commit_stores_heap checksum checksum_length checksum_bytes BlockExample.new_chain ∅ BlockExample.blocks BlockExample.cells [(0, 1)]
    BlockExample.new_chain_blocks BlockExample.blocks_cells BlockExample.blocks_written) as (c' & bs' & g' & H1 & H2 & _ & _ & _ & H3);
    [done|by vm_compute; lia|].
  exists c', bs', g'. split_and!; [done..|]. by apply (H3 0).
Defined.

Lemma discard_restores_heap_witness :
  exists c' bs' g g' g'', commit_heap checksum BlockExample.new_chain BlockExample.blocks = Ok (c', g) /\
    eventually (fun f => block_heap_run f c' g BlockExample.program = Ok (g', [1; mk_cell REF 0; 42])) /\
    eventually (fun f => discard_heap f c' g' = Ok g'') /\ represents bs' g'' BlockExample.cells [(0, 1)].
Proof.
  destruct (commit_represents checksum checksum_length checksum_bytes BlockExample.new_chain ∅ BlockExample.blocks BlockExample.cells [(0, 1)]
    BlockExample.new_chain_blocks BlockExample.blocks_cells BlockExample.blocks_written) as (c' & bs' & g & H1 & H2 & H3 & H4 & H5 & H6);
    [by vm_compute; lia|].
  destruct (discard_restores_heap bs' c' g BlockExample.cells [(0, 1)] BlockExample.program _ _ _ H2 H3 H5 H6 ltac:(by rewrite H4) BlockExample.program_result)
    as (g' & g'' & H7 & H8 & H9 & _).
  by exists c', bs', g, g', g''.
Defined.
