(* ===== verification/GlobalState.v ===== *)
(** * The state of the global interpreter ([src/src/global/global_interpreter.*])

    On top of the stores of [GlobalDb] the global interpreter keeps what has changed since
    the last commit: new atoms, changed frozen closures, updated predicates and, in
    [BlockHeap], changed heap blocks.  Looking something up asks the changes, then the
    database; [increment_height] ([global.cpp]) writes all of them to the next version of
    the databases; [discard_changes] is to drop them. *)

From stdpp Require Import sorting.
From S2P Require Import Prelude Bits Cells Heap HeapBlock Lru TrieNode TrieDb TrieIter MetaEntry Blockchain GlobalDb BlockHeap.
From S2P Require Import Machine Clauses Interpreter.

(** ** Atoms *)

Abbreviation atom_name := (list Z).

(** The tables of [term.hpp], the counters and the atoms that are not stored yet. *)
Record atoms := Atoms {
  at_index : gmap atom_name Z;        (* atom_name_to_index_table_ *)
  at_name : gmap Z atom_name;         (* atom_index_to_name_table_ *)
  at_next : Z;                        (* next_atom_id_ *)
  at_start_next : Z;                  (* start_next_atom_id_ *)
  at_new : list (Z * atom_name);      (* new_atoms_ *)
  at_new_indices : gmap atom_name Z   (* new_atom_indices_ *)
}.

Definition set_atom_index (a : atoms) (name : atom_name) (i : Z) : atoms :=
  Atoms (<[name := i]> (at_index a)) (<[i := name]> (at_name a)) (at_next a) (at_start_next a) (at_new a) (at_new_indices a).
Definition clear_atom_index (a : atoms) (name : atom_name) (i : Z) : atoms :=
  Atoms (delete name (at_index a)) (delete i (at_name a)) (at_next a) (at_start_next a) (at_new a) (at_new_indices a).
Definition add_new_atom (a : atoms) (name : atom_name) (i : Z) : atoms :=
  Atoms (at_index a) (at_name a) (at_next a) (at_start_next a) (at_new a ++ [(i, name)]) (<[name := i]> (at_new_indices a)).
Definition with_next_atom (a : atoms) (n : Z) : atoms :=
  Atoms (at_index a) (at_name a) n (at_start_next a) (at_new a) (at_new_indices a).

Section state.
(** [blake2b_64]: BLAKE2b with 64 bytes of output. *)
Context (blake2b blake2b_64 : list Z -> list Z) (find_fuel : nat) (beyond : Z).

Definition new_atom (c : blockchain) (a : atoms) (name : atom_name) : res (atoms * Z) :=
  index ← db_get_symbol_index find_fuel c name;
  if negb (index =? 0) then Ok (a, index)
  else
    let atom_id := at_next a in
    let a := with_next_atom a (w64 (at_next a + 1)) in
    Ok (add_new_atom (set_atom_index a name atom_id) name atom_id, atom_id).

Definition load_atom_name (c : blockchain) (a : atoms) (index : Z) : res atoms :=
  name ← db_get_symbol_name find_fuel c index;
  Ok (if bool_decide (name = []) then a else set_atom_index a name index).

Definition load_atom_index (c : blockchain) (a : atoms) (name : atom_name) : res atoms :=
  match at_new_indices a !! name with
  | Some _ => Ok a
  | None =>
      index ← db_get_symbol_index find_fuel c name;
      if negb (index =? 0) then Ok (set_atom_index a name index)
      else '(a, _) ← new_atom c a name; Ok a
  end.

(** [heap::resolve_atom_index] with these callbacks *)
Definition resolve_atom_index (c : blockchain) (a : atoms) (name : atom_name) : res (atoms * Z) :=
  a ← load_atom_index c a name;
  match at_index a !! name with
  | Some i => Ok (a, i)
  | None => '(a, i) ← new_atom c a name; Ok (set_atom_index a name i, i)
  end.

(** [heap::atom_name] of a cell that holds an index *)
Definition atom_name_of (c : blockchain) (a : atoms) (index : Z) : res (atoms * atom_name) :=
  match at_name a !! index with
  | Some name => Ok (a, name)
  | None =>
      a ← load_atom_name c a index;
      name ← of_option (at_name a !! index) UndefinedBehaviour;
      Ok (a, name)
  end.

Definition init_from_symbols_db (c : blockchain) (a : atoms) : res atoms :=
  n ← db_num_symbols c;
  Ok (Atoms (at_index a) (at_name a) n n (at_new a) (at_new_indices a)).

Definition num_symbols (c : blockchain) (a : atoms) : res Z :=
  n ← db_num_symbols c; Ok (n + Z.of_nat (length (at_new a))).

(** Whether a symbol was stored is not looked at. *)
Fixpoint commit_atoms (c : blockchain) (l : list (Z * atom_name)) : res blockchain :=
  match l with
  | [] => Ok c
  | (symbol_index, symbol_name) :: l =>
      '(c, _) ← db_set_symbol_index blake2b find_fuel c symbol_index symbol_name;
      commit_atoms c l
  end.
Definition commit_symbols (c : blockchain) (a : atoms) : res (blockchain * atoms) :=
  c ← commit_atoms c (at_new a);
  Ok (c, Atoms (at_index a) (at_name a) (at_next a) (at_start_next a) [] ∅).

(** What [discard_changes] does to the atoms: [new_atoms_] stays. *)
Definition discard_symbols (a : atoms) : atoms :=
  let a := foldl (fun a '(i, name) => clear_atom_index a name i) a (at_new a) in
  Atoms (at_index a) (at_name a) (at_start_next a) (at_start_next a) (at_new a) ∅.

(** ** Frozen closures *)

(** Of the machine only the trail and [register_hb()].  [none], the default cell, in
    [modified_closures_] stands for a closure that was removed. *)
Record closures := Closures {
  cl_modified : gmap Z Z;   (* modified_closures_ *)
  cl_new : Z;               (* new_frozen_closures_ *)
  cl_trail : list Z;
  cl_hb : Z
}.
Definition none : Z := no_term.
Definition with_closures (s : closures) (m : gmap Z Z) (n : Z) : closures := Closures m n (cl_trail s) (cl_hb s).
Definition trail_closure (s : closures) (addr : Z) : closures :=
  if addr <? cl_hb s then Closures (cl_modified s) (cl_new s) (cl_trail s ++ [addr]) (cl_hb s) else s.

Definition get_frozen_closure (c : blockchain) (s : closures) (addr : Z) : res Z :=
  match cl_modified s !! addr with
  | Some t => Ok t
  | None => db_get_closure find_fuel c addr
  end.

Definition clear_frozen_closure (c : blockchain) (g : block_heap) (s : closures) (addr : Z) : res (block_heap * closures) :=
  cl ← get_frozen_closure c s addr;
  if cl =? EMPTY_LIST then Ok (g, s)
  else
    g ← bh_watch find_fuel c g addr false;
    Ok (g, match cl_modified s !! addr with
           | Some _ => with_closures s (delete addr (cl_modified s)) (cl_new s - 1)
           | None => with_closures s (<[addr := none]> (cl_modified s)) (cl_new s - 1)
           end).

Definition set_frozen_closure (c : blockchain) (g : block_heap) (s : closures) (addr closure : Z) : res (block_heap * closures) :=
  g ← bh_watch find_fuel c g addr true;
  let s := trail_closure s addr in
  Ok (g, with_closures s (<[addr := closure]> (cl_modified s)) (cl_new s + 1)).

Definition num_frozen_closures (c : blockchain) (s : closures) : res Z :=
  n ← db_num_frozen_closures c; Ok (n + cl_new s).

(** The entries of the map in the order of their addresses, from [addr] on. *)
Definition address_le (p q : Z * Z) : Prop := p.1 <= q.1.
#[global] Instance address_le_decision p q : Decision (address_le p q) := decide (p.1 <= q.1).
Definition in_address_order (m : gmap Z Z) : list (Z * Z) := merge_sort address_le (map_to_list m).
Definition lower_bound (m : gmap Z Z) (addr : Z) : list (Z * Z) := filter (fun p => addr <= p.1) (in_address_order m).

(** The changed closures from [from] to before [to]. *)
Definition between (m : gmap Z Z) (from to : Z) : list (Z * Z) :=
  filter (fun p => p.1 < to /\ p.2 <> none) (lower_bound m from).

(** The loop over the stored closures: [k] more are asked for, [last] is the address of
    the last leaf.  After a changed leaf the iterator goes forward in both directions. *)
Fixpoint stored_closures (fuel : nat) (db : triedb) (root_ptr : Z) (m : gmap Z Z) (reversed : bool) (to : Z)
    (it : spine) (k last : Z) (out : list (Z * Z)) : res (list (Z * Z) * Z * Z) :=
  match fuel with
  | O => Throw OutOfFuel
  | S fuel =>
      if at_end it || (k =? 0) then Ok (out, k, last)
      else
        leaf ← iterator_leaf db it;
        let addr := l_key leaf in
        if (if reversed then addr <? to else to <=? addr) then Ok (out, k, last)
        else
          let out := out ++ (if reversed then between m (w64 (addr + 1)) last else between m (w64 (last + 1)) addr) in
          match m !! addr with
          | Some t =>
              it ← TrieIter.next db find_fuel it;
              if t =? none then stored_closures fuel db root_ptr m reversed to it k addr out
              else stored_closures fuel db root_ptr m reversed to it (k - 1) addr (out ++ [(addr, t)])
          | None =>
              _ ← require (cd_size (l_data leaf) =? 8) AssertFailed;
              cl ← read_uint64 (cd_bytes (l_data leaf));
              it ← (if reversed then TrieIter.previous db find_fuel root_ptr it else TrieIter.next db find_fuel it);
              stored_closures fuel db root_ptr m reversed to it (k - 1) addr (out ++ [(addr, cl)])
          end
  end.

(** The first [k] entries that are not removals. *)
Definition changed_closures (k : Z) (l : list (Z * Z)) : list (Z * Z) :=
  take (Z.to_nat k) (filter (fun p => p.2 <> none) l).

Definition get_frozen_closures (fuel : nat) (c : blockchain) (s : closures) (heap_size from to max : Z) : res (list (Z * Z)) :=
  let db := closure_db c in
  let m := cl_modified s in
  let reversed := (heap_size =? from) && (to <=? from) in
  root ← get_root db (closure_root c);
  it ← (if reversed then TrieIter.previous db find_fuel (r_ptr root) [] else iterator_begin_key db find_fuel (closure_root c) from);
  '(out, k, last) ← stored_closures fuel db (r_ptr root) m reversed to it max from [];
  Ok (out ++
      (if reversed then
         if 0 <? last then changed_closures k (filter (fun p => to <= p.1) (rev (filter (fun p => p.1 < last - 1) (in_address_order m))))
         else []
       else changed_closures k (filter (fun p => p.1 < to) (lower_bound m last)))).

(** The map's order is that of the addresses. *)
Fixpoint commit_closure_list (c : blockchain) (l : list (Z * Z)) : res blockchain :=
  match l with
  | [] => Ok c
  | (addr, t) :: l =>
      c ← (if t =? none then db_remove_closure blake2b beyond c addr else db_set_closure blake2b c addr t);
      commit_closure_list c l
  end.
Definition commit_closures (c : blockchain) (s : closures) : res (blockchain * closures) :=
  c ← commit_closure_list c (in_address_order (cl_modified s));
  Ok (c, with_closures s ∅ 0).

(** [new_frozen_closures_] keeps its value. *)
Definition discard_closures (s : closures) : closures := with_closures s ∅ (cl_new s).

(** ** Predicates *)

(** The program of the interpreter, and its changes. *)
Record program := Program {
  pr_interp : interp;
  pr_updated : list qname;               (* updated_predicates_ *)
  pr_old : list (qname * predicate);     (* old_predicates_ *)
  pr_new : Z;                            (* new_predicates_ *)
  pr_next_id : Z;                        (* next_predicate_id_ *)
  pr_start_next_id : Z                   (* start_next_predicate_id_ *)
}.
Definition with_interp (p : program) (i : interp) : program :=
  Program i (pr_updated p) (pr_old p) (pr_new p) (pr_next_id p) (pr_start_next_id p).
Definition with_changes (p : program) (updated : list qname) (old : list (qname * predicate)) (n : Z) : program :=
  Program (pr_interp p) updated old n (pr_next_id p) (pr_start_next_id p).

Definition SYSTEM : Z := con_constant [115; 121; 115; 116; 101; 109] 0.

(** [internal_get_predicate] *)
Definition internal_get_predicate (p : program) (qn : qname) : option predicate := i_program (pr_interp p) !! qn.

(** [import_predicate]: the table of built-ins is not modelled, their code points are. *)
Definition import_predicate (i : interp) (qn : qname) : interp :=
  let imported_qn := (i_module i, snd qn) in
  let '(i, p) := get_code i imported_qn in
  if negb (is_fail p) then i
  else let '(i, cp) := get_code i qn in set_code i imported_qn cp.

(** The cost of a clause, [interp.cost(clause)]. *)
Context (cost : Z -> Z).

(** [add_clause] of the predicate for each clause of the database *)
Fixpoint add_clauses (i : interp) (m : managed_clauses) (clauses : list Z) : res managed_clauses :=
  match clauses with
  | [] => Ok m
  | t :: clauses => m ← add_clause (i_heap i) m (ManagedClause t (cost t)) LAST_CLAUSE; add_clauses i m clauses
  end.
Definition add_loaded (p : program) (qn : qname) (clauses : list Z) : res program :=
  pd ← of_option (internal_get_predicate p qn) UndefinedBehaviour;
  m ← add_clauses (pr_interp p) (pd_clauses pd) clauses;
  Ok (with_interp p (set_clauses (pr_interp p) qn pd m)).

Definition load_predicate (c : blockchain) (p : program) (qn : qname) : res program :=
  stored ← db_get_predicate find_fuel c qn;
  match stored with
  | Some clauses => add_loaded p qn clauses
  | None =>
      stored ← db_get_predicate find_fuel c (SYSTEM, snd qn);
      match stored with
      | Some clauses =>
          p ← add_loaded p qn clauses;
          Ok (with_interp p (import_predicate (pr_interp p) qn))
      | None => Ok p
      end
  end.

(** [get_predicate(qn)]: an empty predicate is loaded, too. *)
Definition global_get_predicate (c : blockchain) (p : program) (qn : qname) : res (program * predicate) :=
  p ← match internal_get_predicate p qn with
      | Some pd => if is_empty pd then load_predicate c p qn else Ok p
      | None => load_predicate c (with_interp p (fst (get_predicate (pr_interp p) qn))) qn
      end;
  pd ← of_option (internal_get_predicate p qn) UndefinedBehaviour;
  Ok (p, pd).

Definition updated_predicate_pre (p : program) (qn : qname) : program :=
  match internal_get_predicate p qn with
  | Some pd =>
      with_changes p (pr_updated p) (pr_old p ++ [(qn, pd)]) (if is_empty pd then pr_new p + 1 else pr_new p)
  | None => with_changes p (pr_updated p) (pr_old p) (pr_new p + 1)
  end.
(** [interpreter::updated_predicate_post] drops the compiled code. *)
Definition updated_predicate_post (p : program) (qn : qname) : res program :=
  pd ← of_option (internal_get_predicate p qn) UndefinedBehaviour;
  Ok (with_changes p (pr_updated p ++ [qn]) (pr_old p) (if is_empty pd then pr_new p - 1 else pr_new p)).

(** The end of [load_clause] with these hooks: the clause [t] joins its predicate. *)
Definition global_add_clause (c : blockchain) (p : program) (qn : qname) (t : Z) (pos : clause_position) : res program :=
  '(p, _) ← global_get_predicate c p qn;
  let p := updated_predicate_pre p qn in
  pd ← of_option (internal_get_predicate p qn) UndefinedBehaviour;
  m ← add_clause (i_heap (pr_interp p)) (pd_clauses pd) (ManagedClause t (cost t)) pos;
  let p := with_interp p (updated_predicate (set_code (set_clauses (pr_interp p) qn pd m) qn (code_of_qname qn)) qn) in
  updated_predicate_post p qn.

(** [remove_clauses(qn)] of the interpreter: it calls the hooks itself. *)
Definition global_remove_clauses (c : blockchain) (p : program) (qn : qname) : res program :=
  '(p, pd) ← global_get_predicate c p qn;
  if mc_num_clauses (pd_clauses pd) =? 0 then Ok p
  else
    let p := updated_predicate_pre p qn in
    updated_predicate_post (with_interp p (set_clauses (pr_interp p) qn pd mc_empty)) qn.

Definition clear_predicate (p : program) (qn : qname) : program :=
  with_interp p (with_program (pr_interp p) (delete qn (i_program (pr_interp p))) (i_predicates (pr_interp p))).
Definition restore_predicate (p : program) (qn : qname) (pd : predicate) : program :=
  with_interp p (with_program (pr_interp p) (<[qn := pd]> (i_program (pr_interp p))) (i_predicates (pr_interp p))).

Definition num_predicates (c : blockchain) (p : program) : res Z :=
  n ← db_num_predicates c; Ok (n + pr_new p).

Definition unique_predicate_id (p : program) : program * Z :=
  (Program (pr_interp p) (pr_updated p) (pr_old p) (pr_new p) (w64 (pr_next_id p + 1)) (pr_start_next_id p), pr_next_id p).

Definition init_from_program_db (c : blockchain) (p : program) : res program :=
  n ← db_num_predicates c;
  Ok (Program (pr_interp p) (pr_updated p) (pr_old p) (pr_new p) n n).

(** All positions are written, those of erased clauses too; whether the predicate was
    stored is not looked at. *)
Fixpoint commit_predicates (c : blockchain) (p : program) (l : list qname) : res (blockchain * program) :=
  match l with
  | [] => Ok (c, p)
  | qn :: l =>
      '(p, pd) ← global_get_predicate c p qn;
      '(c, _) ← db_set_predicate blake2b find_fuel c qn (mc_clause <$> mc_clauses (pd_clauses pd));
      commit_predicates c p l
  end.
Definition commit_program (c : blockchain) (p : program) : res (blockchain * program) :=
  if bool_decide (pr_updated p = []) then Ok (c, p)
  else
    '(c, p) ← commit_predicates c p (pr_updated p);
    Ok (c, with_changes p [] [] 0).

(** The predicates of [discard_changes], without the compiled code. *)
Definition discard_program (p : program) : program :=
  let p := foldl clear_predicate p (pr_updated p) in
  let p := foldl (fun p '(qn, pd) => restore_predicate p qn pd) p (pr_old p) in
  Program (pr_interp p) [] [] 0 (pr_start_next_id p) (pr_start_next_id p).

(** ** All of it *)

(** [global] with its [global_interpreter]: [commit_version_], [commit_height_],
    [commit_time_] and the serialized [commit_goals_]. *)
Record global := Global {
  gl_chain : blockchain;
  gl_heap : block_heap;
  gl_atoms : atoms;
  gl_closures : closures;
  gl_program : program;
  gl_version : Z;
  gl_height : Z;
  gl_time : Z;
  gl_goals : list Z
}.

Definition with_block_data (c : blockchain) (version height time : Z) : blockchain :=
  Blockchain (meta_db c) (blocks_db c) (heap_db c) (closure_db c) (symbols_db c) (program_db c) (tip c)
    (at_height c) (chains c) version height (bc_nonce c) time.

(** [increment_height] up to [update_tip]: the next version of the databases with the
    changes and the goals. *)
Definition store_changes (g : global) : res global :=
  let c := gl_chain g in
  '(c, heap) ← commit_heap blake2b c (gl_heap g);
  '(c, cls) ← commit_closures c (gl_closures g);
  '(c, ats) ← commit_symbols c (gl_atoms g);
  '(c, prg) ← commit_program c (gl_program g);
  Ok (Global c heap ats cls prg (gl_version g) (gl_height g) (gl_time g) (gl_goals g)).
Definition with_chain (g : global) (c : blockchain) : global :=
  Global c (gl_heap g) (gl_atoms g) (gl_closures g) (gl_program g) (gl_version g) (gl_height g) (gl_time g) (gl_goals g).
Definition store_version (g : global) : res global :=
  c ← advance blake2b (with_block_data (gl_chain g) (gl_version g) (gl_height g) (gl_time g));
  g ← store_changes (with_chain g c);
  c ← db_set_block blake2b (gl_chain g) (m_height (tip (gl_chain g))) (gl_goals g);
  Ok (with_chain g c).
(** [empty_goals] is what the serializer makes of the empty list. *)
Definition increment_height (empty_goals junk : list Z) (g : global) : res global :=
  g ← store_version g;
  c ← update_tip blake2b blake2b_64 find_fuel junk (gl_chain g);
  Ok (Global c (gl_heap g) (gl_atoms g) (gl_closures g) (gl_program g) (gl_version g) (gl_height g) (gl_time g) empty_goals).

(** [trim_heap_safe] of the interpreter clears the closures beyond the new size. *)
Fixpoint clear_frozen_closures (c : blockchain) (g : block_heap) (s : closures) (l : list (Z * Z)) : res (block_heap * closures) :=
  match l with
  | [] => Ok (g, s)
  | (addr, _) :: l => '(g, s) ← clear_frozen_closure c g s addr; clear_frozen_closures c g s l
  end.
Definition clear_closures_beyond (fuel : nat) (c : blockchain) (g : block_heap) (s : closures) (new_size : Z) : res (block_heap * closures) :=
  l ← get_frozen_closures fuel c s (bh_size g) new_size (bh_size g) (2 ^ 64 - 1);
  clear_frozen_closures c g s l.

(** [discard_changes], without [reset()] of the machine, which goes before the heap. *)
Definition discard_changes (fuel : nat) (g : global) : res global :=
  let c := gl_chain g in
  let prg := discard_program (gl_program g) in
  heap ← drop_modified (gl_heap g);
  let ats := discard_symbols (gl_atoms g) in
  '(heap, cls) ← clear_closures_beyond fuel c heap (gl_closures g) (bh_old_size heap);
  heap ← restore_head find_fuel c heap;
  Ok (Global c heap ats (discard_closures cls) prg (gl_version g) (gl_height g) (gl_time g) (gl_goals g)).

End state.
