(* ===== verification/GlobalAtoms.v ===== *)
(** * Atoms of the global interpreter keep their names

    The stored symbols and the new atoms together are one table, [known].  Looking a name
    up gives its index in the table, and looking the index up gives the name back; a
    commit stores the table. *)

From S2P Require Import Prelude Bits Cells Heap FastHash HeapBlock Probing TrieNode TrieDb TrieMap Blockchain.
From S2P Require Import Chain GlobalDb GlobalDbSpec GlobalState.

Definition name_ok (name : atom_name) : Prop := (0 < length name < 256)%nat /\ are_bytes name.
Definition known (t : gmap atom_name Z) (a : atoms) : gmap atom_name Z := at_new_indices a ∪ t.

(** The tables in memory only hold what is known, and all new atoms. *)
Record atoms_ok (t : gmap atom_name Z) (a : atoms) : Prop := AtomsOk {
  ao_new : NoDup (at_new a).*2 /\ forall i n, (i, n) ∈ at_new a <-> at_new_indices a !! n = Some i;
  ao_disjoint : at_new_indices a ##ₘ t;
  ao_known : forall n i, known t a !! n = Some i -> name_ok n /\ 0 <= i < at_next a;
  ao_inj : forall n n' i, known t a !! n = Some i -> known t a !! n' = Some i -> n = n';
  ao_index : at_index a ⊆ known t a;
  ao_name : forall i n, at_name a !! i = Some n -> known t a !! n = Some i;
  ao_loaded : forall n i, at_new_indices a !! n = Some i -> at_index a !! n = Some i /\ at_name a !! i = Some n;
  ao_next : 0 <= at_next a <= 2 ^ 29
}.

(** A stored symbol with the index 0 counts as unknown when it is looked up, so what is
    stored has positive indices.  (The first symbol of a chain does get the index 0.) *)
Definition stored_positive (t : gmap atom_name Z) : Prop := forall n i, t !! n = Some i -> 0 < i.

Section atoms.
Context (blake2b : list Z -> list Z).
Hypothesis blake2b_length : forall bs, length (blake2b bs) = 32%nat.
Hypothesis blake2b_bytes : forall bs, are_bytes (blake2b bs).
Implicit Types (t : gmap atom_name Z) (a : atoms) (name : atom_name).

Lemma stored_known t a name i : atoms_ok t a -> t !! name = Some i -> known t a !! name = Some i /\ at_new_indices a !! name = None.
Proof.
  intros Ha Ht. assert (Hn : at_new_indices a !! name = None).
  { destruct (at_new_indices a !! name) eqn:E; [|done]. by destruct (proj1 (map_disjoint_spec _ _) (ao_disjoint _ _ Ha) name z i E Ht). }
  split; [|done]. unfold known. by rewrite lookup_union_r.
Qed.
Lemma new_known t a name i : at_new_indices a !! name = Some i -> known t a !! name = Some i.
Proof. intros H. unfold known. by apply lookup_union_Some_l. Qed.
Lemma unknown t a name : known t a !! name = None -> at_new_indices a !! name = None /\ t !! name = None.
Proof. unfold known. apply lookup_union_None. Qed.
Lemma known_cases t a name i : known t a !! name = Some i -> at_new_indices a !! name = Some i \/ t !! name = Some i.
Proof. unfold known. rewrite lookup_union_Some_raw. tauto. Qed.

(** An entry of the table is put into memory. *)
Lemma set_atom_index_ok t a name i : atoms_ok t a -> known t a !! name = Some i ->
  atoms_ok t (set_atom_index a name i) /\ known t (set_atom_index a name i) = known t a.
Proof.
  intros [H1 H2 H3 H4 H5 H6 H7 H8] Hk. split; [|done]. split; try done; cbn.
  - by apply insert_subseteq_l.
  - intros j n Hj. destruct (decide (j = i)) as [->|Hne]; [rewrite lookup_insert_eq in Hj; by injection Hj as <-|].
    rewrite lookup_insert_ne in Hj by done. by apply H6.
  - intros n j Hn. destruct (H7 n j Hn) as [Hi Hj]. split.
    + destruct (decide (n = name)) as [->|Hne]; [|by rewrite lookup_insert_ne].
      rewrite lookup_insert_eq. pose proof (new_known t a name j Hn). congruence.
    + destruct (decide (j = i)) as [->|Hne]; [|by rewrite lookup_insert_ne].
      rewrite lookup_insert_eq. f_equal. apply (H4 name n i); [done|]. by apply new_known.
Qed.

(** The atom that [new_atom] makes. *)
Definition made (a : atoms) (name : atom_name) : atoms :=
  add_new_atom (set_atom_index (with_next_atom a (w64 (at_next a + 1))) name (at_next a)) name (at_next a).

Lemma known_made t a name : known t (made a name) = <[name := at_next a]> (known t a).
Proof. unfold known, made. cbn. by rewrite insert_union_l. Qed.

Lemma made_ok t a name : atoms_ok t a -> name_ok name -> known t a !! name = None -> at_next a < 2 ^ 29 -> atoms_ok t (made a name).
Proof.
  intros [H1 H2 H3 H4 H5 H6 H7 H8] Hn Hk Hnext. destruct (unknown _ _ _ Hk) as [Hnew Ht].
  assert (Hw : w64 (at_next a + 1) = at_next a + 1) by (apply wrap_id; split; lia).
  assert (Hfresh : forall n, known t a !! n <> Some (at_next a)) by (intros n E; apply H3 in E; lia).
  assert (Hkm : forall n i, known t (made a name) !! n = Some i -> (n = name /\ i = at_next a) \/ (n <> name /\ known t a !! n = Some i)).
  { intros n i. rewrite known_made. destruct (decide (n = name)) as [->|Hne].
    - rewrite lookup_insert_eq. intros [= <-]. by left.
    - rewrite lookup_insert_ne by done. by right. }
  split; [split| | | | | | |]; cbn [made add_new_atom set_atom_index with_next_atom at_new at_new_indices at_index at_name at_next].
  - rewrite fmap_app. apply NoDup_app. split_and!; [apply H1| |by apply NoDup_singleton].
    intros n Hin. cbn. intros ->%list_elem_of_singleton. apply list_elem_of_fmap in Hin as ([i n] & -> & Hin).
    cbn in Hnew. apply H1 in Hin. congruence.
  - intros i n. rewrite elem_of_app, list_elem_of_singleton. destruct (decide (n = name)) as [->|Hne].
    + rewrite lookup_insert_eq. split; [|by intros [= ->]; right]. intros [Hin|[= ->]]; [|done]. apply H1 in Hin. congruence.
    + rewrite lookup_insert_ne by done. rewrite <-(proj2 H1). split; [by intros [?|[= ]]|by left].
  - by apply map_disjoint_insert_l_2.
  - intros n i Hi. rewrite Hw. destruct (Hkm n i Hi) as [[-> ->]|[_ Hi2]]; [split; [done|lia]|]. destruct (H3 n i Hi2). split; [done|lia].
  - intros n n' i Hi Hi'. destruct (Hkm n i Hi) as [[-> ->]|[_ Hi2]], (Hkm n' _ Hi') as [[-> E]|[_ Hi2']]; [done|by apply Hfresh in Hi2'| |by eapply H4].
    subst i. by apply Hfresh in Hi2.
  - rewrite known_made. by apply insert_mono.
  - intros i n. rewrite known_made. destruct (decide (i = at_next a)) as [->|Hne].
    + rewrite lookup_insert_eq. intros [= <-]. apply lookup_insert_eq.
    + rewrite lookup_insert_ne by done. intros Hi. apply H6 in Hi. rewrite lookup_insert_ne; [done|]. congruence.
  - intros n i Hi. destruct (decide (n = name)) as [->|Hne].
    + rewrite lookup_insert_eq in Hi. injection Hi as <-. by rewrite !lookup_insert_eq.
    + rewrite lookup_insert_ne in Hi by done. destruct (H7 n i Hi) as [Hi1 Hi2]. rewrite !lookup_insert_ne; [done| |done].
      intros <-. apply (Hfresh n). by apply new_known.
  - rewrite Hw. lia.
Qed.

Lemma new_atom_made c t a name :
  symbols_are c t -> t !! name = None -> eventually (fun f => new_atom f c a name = Ok (made a name, at_next a)).
Proof.
  intros Hs Ht. eapply eventually_mono; [exact (get_symbol_index c t name Hs)|]. intros f Hf.
  unfold new_atom. by rewrite Hf, Ht.
Qed.

Lemma load_atom_index_ok c t a name :
  symbols_are c t -> stored_positive t -> atoms_ok t a -> name_ok name -> at_next a < 2 ^ 29 ->
  exists a' i, eventually (fun f => load_atom_index f c a name = Ok a') /\ atoms_ok t a' /\ at_index a' !! name = Some i /\
    known t a' !! name = Some i /\ known t a ⊆ known t a'.
Proof.
  intros Hs Hpos Ha Hn Hnext. unfold load_atom_index. destruct (at_new_indices a !! name) as [i|] eqn:Hnew.
  { exists a, i. split_and!; [by apply eventually_always|done|by apply (ao_loaded _ _ Ha)|by apply new_known|done]. }
  destruct (t !! name) as [i|] eqn:Ht.
  - destruct (stored_known t a name i Ha Ht) as [Hk _]. destruct (set_atom_index_ok t a name i Ha Hk) as [Ha' Hk'].
    exists (set_atom_index a name i), i. split_and!; [|done|cbn; apply lookup_insert_eq|by rewrite Hk'|by rewrite Hk'].
    eapply eventually_mono; [exact (get_symbol_index c t name Hs)|]. intros f Hf. rewrite Hf, Ht, Ok_bind. cbn [default].
    pose proof (Hpos name i Ht). cbn [from_option]; unfold id. by rewrite (proj2 (Z.eqb_neq i 0)) by lia.
  - assert (Hk : known t a !! name = None) by (by apply lookup_union_None).
    exists (made a name), (at_next a). split_and!; [|by apply made_ok|cbn; apply lookup_insert_eq|rewrite known_made; apply lookup_insert_eq|].
    + eapply eventually_mono; [exact (eventually_and _ _ (get_symbol_index c t name Hs) (new_atom_made c t a name Hs Ht))|].
      intros f [Hf1 Hf2]. by rewrite Hf1, Ht, Ok_bind, Hf2.
    + rewrite known_made. by apply insert_subseteq.
Qed.

Lemma resolved_index_ok c t a name :
  symbols_are c t -> stored_positive t -> atoms_ok t a -> name_ok name -> at_next a < 2 ^ 29 ->
  exists a' i, eventually (fun f => resolve_atom_index f c a name = Ok (a', i)) /\ atoms_ok t a' /\
    known t a' !! name = Some i /\ known t a ⊆ known t a'.
Proof.
  intros Hs Hpos Ha Hn Hnext. destruct (load_atom_index_ok c t a name Hs Hpos Ha Hn Hnext) as (a' & i & He & Ha' & Hi & Hk & Hsub).
  exists a', i. split_and!; [|done..]. eapply eventually_mono; [exact He|]. intros f Hf. unfold resolve_atom_index. by rewrite Hf, Ok_bind, Hi.
Qed.

Lemma atom_name_of_ok c t a name i :
  symbols_are c t -> atoms_ok t a -> known t a !! name = Some i ->
  exists a', eventually (fun f => atom_name_of f c a i = Ok (a', name)) /\ atoms_ok t a' /\ known t a' = known t a.
Proof.
  intros Hs Ha Hk. unfold atom_name_of. destruct (at_name a !! i) as [n|] eqn:Hi.
  { apply (ao_name _ _ Ha) in Hi. rewrite (ao_inj _ _ Ha name n i Hk Hi). exists a. split_and!; [by apply eventually_always|done..]. }
  destruct (known_cases _ _ _ _ Hk) as [Hnew|Ht]; [by destruct (ao_loaded _ _ Ha _ _ Hnew); congruence|].
  destruct (set_atom_index_ok t a name i Ha Hk) as [Ha' Hk']. exists (set_atom_index a name i). split_and!; [|done..].
  eapply eventually_mono; [exact (get_symbol_name c t name i Hs Ht)|]. intros f Hf. unfold load_atom_name. rewrite Hf, Ok_bind.
  destruct (ao_known _ _ Ha name i Hk) as [[[Hl _] _] _]. rewrite bool_decide_eq_false_2 by (intros ->; cbn in Hl; lia).
  rewrite Ok_bind. cbn. by rewrite lookup_insert_eq.
Qed.

(** ** Commit *)

(** A name has a slot no other of the names has. *)
Definition own_slot {N} (key : N -> Z -> Z) (names : list N) (n : N) : Prop :=
  exists j, 0 <= j < 10 /\ forall n', n' ∈ names -> n' <> n -> forall j', 0 <= j' < 10 -> key n' j' <> key n j.

Lemma set_symbol_stored c t (names : list atom_name) name i :
  symbols_are c t -> symbol_ok name i -> (forall name', t !! name' = Some i -> name' = name) ->
  (forall n, is_Some (t !! n) -> n ∈ names) -> own_slot symbol_key names name ->
  exists db, eventually (fun f => db_set_symbol_index blake2b f c i name = Ok (with_symbols_db c db, true)) /\
    symbols_are (with_symbols_db c db) (<[name := i]> t).
Proof.
  intros Hs Hok Hfresh Hdom (j & Hj & Hown).
  destruct (set_symbol blake2b blake2b_length blake2b_bytes c t name i Hs Hok Hfresh) as (c' & b & He & Hb). destruct b.
  - destruct Hb as (db & -> & Hs'). by exists db.
  - destruct Hb as (_ & m & _ & Hp & Hsl). exfalso. unfold symbol_probe in Hp.
    destruct (probe_own_slot symbol_key symbol_entry symbol_name_of symbol_ok name_slot 10 symbol_key_slot symbol_name_of_entry m t name j Hsl)
      as [o Ho]; [done| |congruence]. intros n' Hn' Hne j' Hj'. apply (Hown n'); [by apply Hdom|done|done].
Qed.

Lemma with_symbols_with c db db' : with_symbols_db (with_symbols_db c db) db' = with_symbols_db c db'.
Proof. done. Qed.

Lemma commit_atoms_ok (names : list atom_name) l c t :
  symbols_are c t -> NoDup l.*2 -> (forall n, is_Some (t !! n) -> n ∈ names) ->
  (forall i n, (i, n) ∈ l -> n ∈ names /\ t !! n = None /\ symbol_ok n i /\ own_slot symbol_key names n) ->
  (forall i n n', (i, n) ∈ l -> (t !! n' = Some i \/ (i, n') ∈ l) -> n' = n) ->
  exists db, eventually (fun f => commit_atoms blake2b f c l = Ok (with_symbols_db c db)) /\
    symbols_are (with_symbols_db c db) (list_to_map (prod_swap <$> l) ∪ t).
Proof.
  revert c t. induction l as [|[i n] l IH]; intros c t Hs Hnd Hdom Hl Hinj.
  { exists (symbols_db c). assert (E : with_symbols_db c (symbols_db c) = c) by (by destruct c). rewrite E. cbn.
    rewrite map_empty_union. split; [by apply eventually_always|done]. }
  cbn [fmap list_fmap] in Hnd. apply NoDup_cons in Hnd as [Hni Hnd].
  destruct (Hl i n ltac:(left)) as (Hin & Htn & Hok & Hown).
  destruct (set_symbol_stored c t names n i Hs Hok) as (db1 & He1 & Hs1); [|done|done|].
  { intros n' Ht'. apply (Hinj i n n'); [left|by left]. }
  assert (Hother : forall i' n', (i', n') ∈ l -> n' <> n).
  { intros i' n' Hin' ->. apply Hni. apply list_elem_of_fmap. by exists (i', n). }
  destruct (IH (with_symbols_db c db1) (<[n := i]> t) Hs1 Hnd) as (db2 & He2 & Hs2).
  - intros n' Hn'. destruct (decide (n' = n)) as [->|Hne]; [done|]. rewrite lookup_insert_ne in Hn' by done. by apply Hdom.
  - intros i' n' Hin'. destruct (Hl i' n' ltac:(by right)) as (H1 & H2 & H3 & H4). split_and!; [done| |done|done].
    rewrite lookup_insert_ne; [done|]. intros <-. by apply (Hother i' n).
  - intros i' n1 n2 Hin1 [Ht2|Hin2]; [|apply (Hinj i' n1 n2); [by right|right; by right]].
    destruct (decide (n2 = n)) as [->|Hne].
    + rewrite lookup_insert_eq in Ht2. injection Ht2 as ->. apply (Hinj i' n1 n); [by right|right; left].
    + rewrite lookup_insert_ne in Ht2 by done. apply (Hinj i' n1 n2); [by right|by left].
  - exists db2. split.
    + eapply eventually_mono; [exact (eventually_and _ _ He1 He2)|]. intros f [Hf1 Hf2]. cbn [commit_atoms]. by rewrite Hf1, Ok_bind.
    + rewrite with_symbols_with in Hs2. cbn [fmap list_fmap prod_swap list_to_map foldr fst snd uncurry]. cbn.
      rewrite <-insert_union_l, insert_union_r; [done|]. apply not_elem_of_list_to_map_1.
      intros (p & E & (q & -> & Hq)%list_elem_of_fmap)%list_elem_of_fmap. destruct q as [i' n']. cbn in E. subst n'. by apply (Hother i' n).
Qed.

Lemma commit_symbols_ok (names : list atom_name) c t a :
  symbols_are c t -> atoms_ok t a -> (forall n, is_Some (known t a !! n) -> n ∈ names) ->
  (forall n, is_Some (at_new_indices a !! n) -> own_slot symbol_key names n) ->
  exists db a', eventually (fun f => commit_symbols blake2b f c a = Ok (with_symbols_db c db, a')) /\
    symbols_are (with_symbols_db c db) (known t a) /\ atoms_ok (known t a) a' /\ known (known t a) a' = known t a /\
    at_new a' = [] /\ at_new_indices a' = ∅.
Proof.
  intros Hs Ha Hdom Hown. destruct (ao_new _ _ Ha) as [Hnd Hnew].
  assert (Hmap : list_to_map (prod_swap <$> at_new a) = at_new_indices a).
  { apply map_eq. intros n. apply option_eq. intros i. rewrite <-Hnew, <-elem_of_list_to_map.
    - rewrite list_elem_of_fmap. split; [by intros ([? ?] & [= -> ->] & ?)|]. intros Hin. by exists (i, n).
    - replace ((prod_swap <$> at_new a).*1) with ((at_new a).*2); [done|]. rewrite <-list_fmap_compose. apply list_fmap_ext.
      by intros _ [? ?] _. }
  destruct (commit_atoms_ok names (at_new a) c t Hs Hnd) as (db & He & Hs').
  - intros n [i Hi]. apply Hdom. destruct (stored_known t a n i Ha Hi) as [Hk _]. by eexists.
  - intros i n Hin%Hnew. pose proof (new_known t a n i Hin) as Hk. destruct (ao_known _ _ Ha n i Hk) as [[Hlen Hby] Hi].
    pose proof (ao_next _ _ Ha). split_and!; [by apply Hdom; eexists| |split_and!; [split; lia|lia|done]|by apply Hown; eexists].
    destruct (t !! n) as [j|] eqn:E; [|done]. by destruct (stored_known t a n j Ha E); congruence.
  - intros i n n' Hin%Hnew Hor. symmetry. apply (ao_inj _ _ Ha n n' i); [by apply new_known|]. destruct Hor as [Ht'|Hin'%Hnew].
    + by apply (stored_known t a n' i Ha).
    + by apply new_known.
  - rewrite Hmap in Hs'. set (a' := Atoms (at_index a) (at_name a) (at_next a) (at_start_next a) [] ∅).
    assert (Hk : known (known t a) a' = known t a) by apply map_empty_union.
    exists db, a'. split_and!; try done.
    + eapply eventually_mono; [exact He|]. intros f Hf. unfold commit_symbols. by rewrite Hf, Ok_bind.
    + destruct Ha as [_ _ H3 H4 H5 H6 _ H8]. split; rewrite ?Hk; try done.
      * cbn. split; [constructor|]. intros i n. rewrite lookup_empty. split; [by intros ?%elem_of_nil|done].
      * apply map_disjoint_empty_l.
Qed.
End atoms.

(** ** The properties *)


Section theorems.
Context (blake2b : list Z -> list Z).
Hypothesis blake2b_length : forall bs, length (blake2b bs) = 32%nat.
Hypothesis blake2b_bytes : forall bs, are_bytes (blake2b bs).

(** when every new name has a slot that no other known name has, [commit_symbols]
    stores all of them: the stored table is then the one that was known. *)
Theorem commit_symbols_stores c t a :
  symbols_are c t -> atoms_ok t a ->
  (forall n, is_Some (at_new_indices a !! n) -> own_slot symbol_key (elements (dom (known t a))) n) ->
  exists db a', eventually (fun f => commit_symbols blake2b f c a = Ok (with_symbols_db c db, a')) /\
    symbols_are (with_symbols_db c db) (known t a) /\ atoms_ok (known t a) a' /\ at_new a' = [].
Proof.
  intros Hs Ha Hown. destruct (commit_symbols_ok blake2b blake2b_length blake2b_bytes (elements (dom (known t a))) c t a Hs Ha) as (db & a' & He & Hs' & Ha' & _ & Hnew & _).
  - intros n Hn. by apply elem_of_elements, elem_of_dom.
  - exact Hown.
  - by exists db, a'.
Qed.
End theorems.

(** ** Examples *)

Module AtomExample.
(** A chain whose databases have an empty version each. *)
Definition c0 : blockchain := genesis_chain.
Definition word (b : Z) : atom_name := replicate 8 b.
Definition start (n : Z) : atoms := Atoms ∅ ∅ n n [] ∅.

Lemma c0_symbols : symbols_are c0 ∅.
Proof.
  exists ∅. split; [|split; [apply slots_empty|intros name i; by rewrite lookup_empty]]. exists (<[20 := ∅]> ∅).
  assert (symbols_db c0 = example_db) as -> by by vm_compute. split; [exact example_refines|].
  assert (symbols_root c0 = 20) as -> by by vm_compute. by rewrite lookup_insert_eq.
Qed.
Lemma start_atoms_ok n : 0 <= n <= 2 ^ 29 -> atoms_ok ∅ (start n).
Proof.
  intros Hn. assert (Hk : known ∅ (start n) = ∅) by apply map_empty_union. split; rewrite ?Hk; try done.
  split; [constructor|]. intros i name. cbn. rewrite lookup_empty. split; [by intros ?%elem_of_nil|done].
Qed.
Lemma word_ok b : is_word 8 b -> name_ok (word b).
Proof. intros Hb. split; [cbn; lia|]. by apply Forall_replicate. Qed.

(** Two new atoms, the first ones of a chain, each with a slot of its own. *)
Definition two : atoms := made (made (start 0) (word 97)) (word 98).
Lemma two_ok : atoms_ok ∅ two.
Proof.
  assert (H1 : atoms_ok ∅ (made (start 0) (word 97))) by (apply made_ok; [by apply start_atoms_ok|by apply word_ok|done|done]).
  by apply made_ok; [|apply word_ok| |].
Qed.
Lemma two_slots n : is_Some (at_new_indices two !! n) -> own_slot symbol_key (elements (dom (known ∅ two))) n.
Proof.
  intros Hn. exists 0. split; [lia|]. intros n' Hn' Hne j' Hj'.
  assert (Hall : Forall (fun n => Forall (fun n' => n' = n \/ Forall (fun j' => symbol_key n' j' <> symbol_key n 0) (seqZ 0 10)) [word 97; word 98])
    [word 97; word 98]) by (apply (bool_decide_unpack _); by vm_compute).
  assert (Hin : forall x, is_Some (at_new_indices two !! x) -> x ∈ [word 97; word 98]).
  { intros x [i Hx]. cbn in Hx. apply lookup_insert_Some in Hx as [[<- _]|[_ Hx]]; [right; left|].
    apply lookup_insert_Some in Hx as [[<- _]|[_ Hx]]; [left|]. by rewrite lookup_empty in Hx. }
  rewrite elem_of_elements, elem_of_dom in Hn'. apply (Hin n) in Hn. unfold known in Hn'. rewrite map_union_empty in Hn'.
  apply (Hin n') in Hn'. rewrite Forall_forall in Hall. specialize (Hall n Hn). rewrite Forall_forall in Hall.
  destruct (Hall n' Hn') as [|H]; [done|]. rewrite Forall_forall in H. apply H, elem_of_seqZ. lia.
Qed.
End AtomExample.


Lemma commit_symbols_stores_witness :
  exists db a', eventually (fun f => commit_symbols checksum f AtomExample.c0 AtomExample.two = Ok (with_symbols_db AtomExample.c0 db, a')) /\
    symbols_are (with_symbols_db AtomExample.c0 db) (known ∅ AtomExample.two).
Proof.
  destruct (commit_symbols_stores checksum checksum_length checksum_bytes AtomExample.c0 ∅ AtomExample.two
    AtomExample.c0_symbols AtomExample.two_ok AtomExample.two_slots) as (db & a' & H1 & H2 & _).
  by exists db, a'.
Defined.

(** ** What goes wrong *)

(** Resolve, commit and start again. *)
Definition resolve_and_commit (c : blockchain) (a : atoms) (name : atom_name) : res (blockchain * atoms * Z) :=
  '(a, i) ← resolve_atom_index 20 c a name;
  '(c, a) ← commit_symbols checksum 20 c a;
  Ok (c, a, i).
Definition restart (c : blockchain) : res atoms := init_from_symbols_db c (AtomExample.start 0).

(** index 0 stands for an unknown symbol: the first long atom of a chain is registered
    anew after each restart, the symbols are undercounted, and then another atom gets an
    index that is taken. *)
Theorem restart_reuses_symbol_index :
  (a ← restart AtomExample.c0; '(c, _, first) ← resolve_and_commit AtomExample.c0 a (AtomExample.word 97);
   a ← restart c; '(c, _, again) ← resolve_and_commit c a (AtomExample.word 97);
   a ← restart c; '(c, a, other) ← resolve_and_commit c a (AtomExample.word 98);
   Ok [first; again; other]) = Ok [0; 1; 1].
Proof. by vm_compute. Qed.

(** [start_next_atom_id_] is not moved by a commit: after a discard the index of a
    committed atom is given to another one. *)
Theorem discard_reissues_symbol_index :
  ('(c, a, committed) ← resolve_and_commit AtomExample.c0 (AtomExample.start 1) (AtomExample.word 97);
   '(a, other) ← resolve_atom_index 20 c (discard_symbols a) (AtomExample.word 98);
   Ok [committed; other]) = Ok [1; 1].
Proof. by vm_compute. Qed.
