(* ===== verification/GlobalClosures.v ===== *)
(** * Frozen closures of the global interpreter

    The stored closures with the changes laid over them are what the interpreter sees; a
    commit writes the changes, and then the stored closures are what was seen. *)

From stdpp Require Import sorting.
From S2P Require Import Prelude Bits Cells Heap HeapBlock TrieNode TrieDb TrieDbSpec TrieUpdate TrieRoots TrieMap TrieIter TrieWalk Blockchain Chain.
From S2P Require Import GlobalDb GlobalDbSpec BlockHeap BlockHeapSpec BlockHeapDiscard BlockHeapRun Clauses GlobalState.

(** The changes [m] laid over the stored closures. *)
Definition overlay (m stored : gmap Z Z) : gmap Z Z :=
  merge (fun change old => match change with Some t => if t =? none then None else Some t | None => old end) m stored.

Lemma overlay_lookup m stored addr :
  overlay m stored !! addr = match m !! addr with Some t => if t =? none then None else Some t | None => stored !! addr end.
Proof. unfold overlay. rewrite lookup_merge. by destruct (m !! addr), (stored !! addr). Qed.

Lemma overlay_empty stored : overlay ∅ stored = stored.
Proof. apply map_eq. intros addr. by rewrite overlay_lookup, lookup_empty. Qed.

Lemma overlay_set m stored addr t : t <> none -> overlay (<[addr := t]> m) stored = <[addr := t]> (overlay m stored).
Proof.
  intros Ht. apply map_eq. intros a. rewrite overlay_lookup. destruct (decide (a = addr)) as [->|Hne].
  - rewrite !lookup_insert_eq. by rewrite (proj2 (Z.eqb_neq _ _)).
  - by rewrite !lookup_insert_ne, overlay_lookup by done.
Qed.

Section closures.
Context (blake2b : list Z -> list Z) (beyond : Z).
Hypothesis blake2b_length : forall bs, length (blake2b bs) = 32%nat.
Hypothesis blake2b_bytes : forall bs, are_bytes (blake2b bs).

(** One change. *)
Definition apply_change (stored : gmap Z Z) (p : Z * Z) : gmap Z Z :=
  if p.2 =? none then delete p.1 stored else <[p.1 := p.2]> stored.

Lemma commit_change c m addr t :
  closures_are c m -> is_word 64 addr -> is_word 64 t -> (t = none -> is_Some (m !! addr)) ->
  exists db, (if t =? none then db_remove_closure blake2b beyond c addr else db_set_closure blake2b c addr t) = Ok (with_closure_db c db) /\
    closures_are (with_closure_db c db) (apply_change m (addr, t)).
Proof.
  intros Hc Ha Ht Hnone. unfold apply_change. cbn. destruct (Z.eqb_spec t none) as [->|Hne].
  - by apply remove_closure; [..|apply Hnone].
  - by apply set_closure.
Qed.

Lemma commit_list_ok l c m :
  closures_are c m -> Forall (fun p => is_word 64 p.1 /\ is_word 64 p.2) l -> NoDup l.*1 ->
  (forall addr, (addr, none) ∈ l -> is_Some (m !! addr)) ->
  exists db, commit_closure_list blake2b beyond c l = Ok (with_closure_db c db) /\
    closures_are (with_closure_db c db) (foldl apply_change m l).
Proof.
  revert c m. induction l as [|[addr t] l IH]; intros c m Hc Hw Hnd Hnone.
  { exists (closure_db c). assert (E : with_closure_db c (closure_db c) = c) by (by destruct c). by rewrite E. }
  apply Forall_cons in Hw as [[Ha Ht] Hw]. cbn [fmap list_fmap] in Hnd. apply NoDup_cons in Hnd as [Hni Hnd].
  destruct (commit_change c m addr t Hc Ha Ht) as (db & Hdb & Hc').
  { intros ->. apply Hnone. left. }
  destruct (IH _ _ Hc' Hw Hnd) as (db' & Hdb' & Hc'').
  - intros a Hin. specialize (Hnone a ltac:(by right)). assert (a <> addr).
    { intros ->. apply Hni, list_elem_of_fmap. by exists (addr, none). }
    unfold apply_change. cbn. destruct (t =? none); [by rewrite lookup_delete_ne|by rewrite lookup_insert_ne].
  - exists db'. cbn [commit_closure_list foldl]. by rewrite Hdb, Ok_bind.
Qed.

Lemma apply_changes l m addr : NoDup l.*1 ->
  foldl apply_change m l !! addr =
    match (list_to_map l : gmap Z Z) !! addr with Some t => if t =? none then None else Some t | None => m !! addr end.
Proof.
  revert m. induction l as [|[a t] l IH]; intros m Hnd; [done|]. cbn [fmap list_fmap] in Hnd. apply NoDup_cons in Hnd as [Hni Hnd].
  cbn [foldl]. rewrite IH by done. cbn [list_to_map foldr uncurry fst snd]. unfold apply_change. cbn.
  destruct (decide (addr = a)) as [->|Hne].
  - rewrite lookup_insert_eq. rewrite (not_elem_of_list_to_map_1 l a) by done.
    destruct (t =? none); [apply lookup_delete_eq|apply lookup_insert_eq].
  - rewrite lookup_insert_ne by done. destruct (list_to_map l !! addr); [done|].
    destruct (t =? none); [by rewrite lookup_delete_ne|by rewrite lookup_insert_ne].
Qed.

Lemma in_address_order_perm m : in_address_order m ≡ₚ map_to_list m.
Proof. apply merge_sort_Permutation. Qed.

Lemma commit_closures_ok c m s :
  closures_are c m -> map_Forall (fun addr t => is_word 64 addr /\ is_word 64 t) (cl_modified s) ->
  (forall addr, cl_modified s !! addr = Some none -> is_Some (m !! addr)) ->
  exists db, commit_closures blake2b beyond c s = Ok (with_closure_db c db, with_closures s ∅ 0) /\
    closures_are (with_closure_db c db) (overlay (cl_modified s) m).
Proof.
  intros Hc Hw Hnone. pose proof (in_address_order_perm (cl_modified s)) as Hp.
  assert (Hnd : NoDup (in_address_order (cl_modified s)).*1) by (rewrite Hp; apply NoDup_fst_map_to_list).
  destruct (commit_list_ok (in_address_order (cl_modified s)) c m Hc) as (db & Hdb & Hc').
  - rewrite Hp. apply Forall_forall. intros [a t] Hin%elem_of_map_to_list. by apply Hw.
  - done.
  - intros a Hin. rewrite Hp in Hin. apply elem_of_map_to_list in Hin. by apply Hnone.
  - exists db. unfold commit_closures. rewrite Hdb, Ok_bind. split; [done|].
    replace (overlay (cl_modified s) m) with (foldl apply_change m (in_address_order (cl_modified s))); [done|].
    apply map_eq. intros a. rewrite apply_changes, overlay_lookup by done.
    rewrite (list_to_map_proper _ (map_to_list (cl_modified s))), list_to_map_to_list by (done || by rewrite Hp). done.
Qed.
End closures.

Lemma get_frozen_closure_ok c m s addr :
  closures_are c m -> is_word 64 addr -> cl_modified s !! addr <> Some none ->
  eventually (fun f => get_frozen_closure f c s addr = Ok (default EMPTY_LIST (overlay (cl_modified s) m !! addr))).
Proof.
  intros Hc Ha Hnone. rewrite overlay_lookup. unfold get_frozen_closure. destruct (cl_modified s !! addr) as [t|].
  - apply eventually_always. intros _. rewrite (proj2 (Z.eqb_neq _ _)) by congruence. done.
  - by apply get_closure.
Qed.

(** ** Listing *)

Definition address_lt (p q : Z * Z) : Prop := p.1 < q.1.

(** Walking forward over the stored closures when nothing changed. *)
Definition closure_leaf (l : triedb_leaf) (p : Z * Z) : Prop :=
  l_key l = p.1 /\ l_data l = custom_data_of (write_uint64 p.2) /\ is_word 64 p.2.

Lemma between_none from to : between ∅ from to = [].
Proof. done. Qed.

Lemma stored_closures_forward fuel f db root_ptr to steps it ls ps k last out :
  iterate db steps f it = Ok ls -> Forall2 closure_leaf ls ps -> StronglySorted address_lt ps ->
  (length ls < fuel)%nat -> 0 <= k ->
  exists k' last', stored_closures f fuel db root_ptr ∅ false to it k last out =
    Ok (out ++ take (Z.to_nat k) (filter (fun p => p.1 < to) ps), k', last').
Proof.
  revert steps it ls ps k last out. induction fuel as [|fuel IH]; intros steps it ls ps k last out Hit Hps Hs Hlen Hk; [lia|].
  cbn [stored_closures]. destruct (Z.eqb_spec k 0) as [->|Hk0].
  { rewrite orb_true_r. cbn. rewrite app_nil_r. by eexists _, _. }
  rewrite orb_false_r. destruct steps as [|steps].
  { cbn [iterate] in Hit. unfold iterator_eqb in Hit. cbn in Hit. destruct (at_end it); [|done]. injection Hit as <-.
    inversion_clear Hps. cbn. rewrite take_nil, app_nil_r. by eexists _, _. }
  cbn [iterate] in Hit. unfold iterator_eqb in Hit. cbn [at_end] in Hit. destruct (at_end it) eqn:Hend.
  { injection Hit as <-. inversion_clear Hps. cbn. rewrite take_nil, app_nil_r. by eexists _, _. }
  apply bind_Ok in Hit as (leaf & Hleaf & Hit). apply bind_Ok in Hit as (it' & Hnext & Hit).
  apply bind_Ok in Hit as (ls' & Hit & [= <-]). rewrite Hleaf, Ok_bind. cbn [negb].
  apply Forall2_cons_inv_l in Hps as ([a t] & ps' & (Hka & Hda & Hwt) & Hps' & ->). cbn in Hka, Hda, Hwt.
  apply StronglySorted_inv in Hs as [Hs Hall]. rewrite Hka. destruct (Z.leb_spec to a) as [Hto|Hto].
  { rewrite filter_cons_False by (cbn; lia). eexists _, _.
    assert (Hnone : filter (fun p : Z * Z => p.1 < to) ps' = []).
    { clear -Hall Hto. induction Hall as [|q l Hq _ IH]; [done|]. unfold address_lt in Hq. cbn in Hq. by rewrite filter_cons_False by lia. }
    by rewrite Hnone, take_nil, app_nil_r. }
  rewrite lookup_empty, between_none, app_nil_r, Hda. cbn [cd_size cd_bytes custom_data_of].
  change (length (write_uint64 t)) with 8%nat. rewrite require_true by done. rewrite Ok_bind.
  rewrite <-(app_nil_r (write_uint64 t)), read_write_uint64, wrap_id, Ok_bind, Hnext, Ok_bind by done.
  destruct (IH steps it' ls' ps' (k - 1) a (out ++ [(a, t)]) Hit Hps' Hs) as (k' & last' & ->); [cbn in Hlen; lia|lia|].
  eexists _, _. do 3 f_equal. rewrite filter_cons_True by (cbn; lia).
  replace (Z.to_nat k) with (S (Z.to_nat (k - 1))) by lia. cbn [take]. by rewrite <-app_assoc.
Qed.

Lemma sorted_unique (l1 l2 : list (Z * Z)) :
  StronglySorted address_lt l1 -> StronglySorted address_lt l2 -> (forall p, p ∈ l1 <-> p ∈ l2) -> l1 = l2.
Proof.
  revert l2. induction l1 as [|x l1 IH]; intros l2 H1 H2 Hin.
  { destruct l2 as [|y l2]; [done|]. assert (y ∈ @nil (Z * Z)) as H by (apply Hin; left). by apply elem_of_nil in H. }
  destruct l2 as [|y l2].
  { assert (x ∈ @nil (Z * Z)) as H by (apply Hin; left). by apply elem_of_nil in H. }
  apply StronglySorted_inv in H1 as [H1 Hx], H2 as [H2 Hy]. rewrite Forall_forall in Hx, Hy. unfold address_lt in Hx, Hy.
  assert (x = y) as ->.
  { pose proof (proj1 (Hin x) ltac:(left)) as [->|Hxl]%elem_of_cons; [done|]. pose proof (proj2 (Hin y) ltac:(left)) as [->|Hyl]%elem_of_cons; [done|].
    specialize (Hx _ Hyl). specialize (Hy _ Hxl). lia. }
  f_equal. apply IH; [done..|]. intros p. split; intros Hp.
  - assert (p ∈ y :: l2) as [->|]%elem_of_cons by (apply Hin; by right); [|done]. specialize (Hx _ Hp). lia.
  - assert (p ∈ y :: l1) as [->|]%elem_of_cons by (apply Hin; by right); [|done]. specialize (Hy _ Hp). lia.
Qed.

Lemma sorted_filter_lt (P : Z * Z -> Prop) `{!forall p, Decision (P p)} (l : list (Z * Z)) :
  StronglySorted address_lt l -> StronglySorted address_lt (filter P l).
Proof.
  induction 1 as [|p l Hs IH Hall]; [constructor|]. destruct (decide (P p)); [rewrite filter_cons_True by done|by rewrite filter_cons_False].
  constructor; [done|]. rewrite Forall_forall in Hall. apply Forall_forall. intros q [_ Hq]%list_elem_of_filter. by apply Hall.
Qed.

#[local] Instance address_le_total : Total address_le.
Proof. intros p q. unfold address_le. lia. Qed.
#[local] Instance address_le_trans : Transitive address_le.
Proof. intros p q r. unfold address_le. lia. Qed.

Lemma in_address_order_sorted m : StronglySorted address_lt (in_address_order m).
Proof.
  assert (Hs : StronglySorted address_le (in_address_order m)) by apply (StronglySorted_merge_sort address_le).
  assert (Hnd : NoDup (in_address_order m).*1) by (rewrite (in_address_order_perm m); apply NoDup_fst_map_to_list).
  induction Hs as [|p l Hs IH Hall]; [constructor|]. cbn [fmap list_fmap] in Hnd. apply NoDup_cons in Hnd as [Hni Hnd].
  constructor; [by apply IH|]. rewrite Forall_forall in Hall. apply Forall_forall. intros q Hq. specialize (Hall q Hq).
  assert (p.1 <> q.1) by (intros E; apply Hni; rewrite E; by apply list_elem_of_fmap_2). unfold address_le, address_lt in *. lia.
Qed.

(** What a walk over the leaves from [from] on visits. *)
Lemma leaves_closures db id (m : gmap Z Z) from (ls : list triedb_leaf) :
  (forall k, root_map db id k = closure_data m !! k) -> map_Forall (fun addr t => is_word 64 addr /\ is_word 64 t) m ->
  StronglySorted (fun l l' => l_key l < l_key l') ls ->
  (forall k d, (root_map db id k = Some d /\ from <= k) <-> exists l, l ∈ ls /\ l_key l = k /\ cd_bytes (l_data l) = d) ->
  Forall (leaf_ok (hash_size_of db)) ls ->
  Forall2 closure_leaf ls (filter (fun p => from <= p.1) (in_address_order m)).
Proof.
  intros Hrm Hw Hs Hmap Hlok. set (ps := (fun l => (l_key l, default 0 (m !! l_key l))) <$> ls).
  assert (Hleaf : forall l, l ∈ ls -> from <= l_key l /\ exists t, m !! l_key l = Some t /\ cd_bytes (l_data l) = write_uint64 t).
  { intros l Hl. destruct (proj2 (Hmap (l_key l) (cd_bytes (l_data l)))) as [Hd Hle]; [by exists l|]. split; [done|].
    rewrite Hrm in Hd. unfold closure_data in Hd. rewrite lookup_fmap in Hd. destruct (m !! l_key l) as [t|]; [|done].
    injection Hd as Hd. by exists t. }
  assert (Hps : ps = filter (fun p => from <= p.1) (in_address_order m)).
  { apply sorted_unique; [|apply sorted_filter_lt, in_address_order_sorted|].
    - unfold ps. clear -Hs. induction Hs as [|l ls Hs IH Hall]; [constructor|]. cbn. constructor; [done|].
      rewrite Forall_forall in Hall. apply Forall_forall. intros p (l' & -> & Hl')%list_elem_of_fmap. by apply Hall.
    - intros [a t]. unfold ps. rewrite list_elem_of_fmap, list_elem_of_filter, (in_address_order_perm m), elem_of_map_to_list. cbn. split.
      + intros (l & [= -> ->] & Hl). destruct (Hleaf l Hl) as (Hle & t & Ht & _). by rewrite Ht.
      + intros [Hle Ht]. destruct (proj1 (Hmap a (write_uint64 t))) as (l & Hl & <- & _).
        * split; [|done]. rewrite Hrm. unfold closure_data. by rewrite lookup_fmap, Ht.
        * exists l. by rewrite Ht. }
  rewrite <-Hps. unfold ps. apply Forall2_fmap_r, Forall_Forall2_diag, Forall_forall. intros l Hl.
  destruct (Hleaf l Hl) as (_ & t & Ht & Hd). rewrite Forall_forall in Hlok. destruct (Hlok l Hl) as (_ & [Hsz _] & _).
  unfold closure_leaf. cbn. rewrite Ht. cbn. split_and!; [done| |by apply (Hw (l_key l))].
  destruct (l_data l) as [d sz]. cbn in *. by subst.
Qed.

Lemma get_frozen_closures_ok c m s heap_size from to max :
  closures_are c m -> cl_modified s = ∅ -> is_word 64 from -> 0 <= max -> heap_size <> from \/ from < to ->
  eventually (fun f => get_frozen_closures f f c s heap_size from to max =
    Ok (take (Z.to_nat max) (filter (fun p => from <= p.1 < to) (in_address_order m)))).
Proof.
  intros [Hh Hw] Hm Hfrom Hmax Hdir. pose proof (holds_root _ _ _ Hh) as (Hok & r & Hr & Hrm & _).
  set (db := closure_db c) in *. set (id := closure_root c) in *.
  pose (steps := length (version_nodes db id)).
  exists (version_fuel db id + steps + length (in_address_order m) + 1)%nat. intros f Hf.
  destruct (walk_from_key db id r Hok Hr f steps from Hfrom ltac:(lia) ltac:(unfold steps; lia)) as (it & ls & Hit & Hls & Hs & Hmap & Hlok).
  pose proof (leaves_closures db id m from ls Hrm Hw Hs Hmap Hlok) as Hps.
  unfold get_frozen_closures. fold db id. unfold get_root. rewrite Hr. cbn [of_option]. rewrite Ok_bind.
  assert (Hrev : (heap_size =? from) && (to <=? from) = false).
  { apply andb_false_iff. destruct Hdir; [left; by apply Z.eqb_neq|right; by apply Z.leb_gt]. }
  rewrite Hrev, Hit, Ok_bind, Hm.
  destruct (stored_closures_forward f f db (r_ptr r) to steps it ls _ max from [] Hls Hps) as (k' & last' & ->).
  - apply sorted_filter_lt, in_address_order_sorted.
  - rewrite (Forall2_length _ _ _ Hps). pose proof (length_filter (fun p => from <= p.1) (in_address_order m)). lia.
  - done.
  - rewrite Ok_bind. cbn beta iota.
    assert (Hnil : changed_closures k' (filter (fun p => p.1 < to) (lower_bound ∅ last')) = []) by (assert (lower_bound ∅ last' = []) as -> by done; apply take_nil).
    rewrite Hnil, app_nil_r. cbn [app]. rewrite list_filter_filter. do 2 f_equal. apply list_filter_iff. intros p. lia.
Qed.

(** ** The properties *)

(** [commit_closures] makes the stored closures those the interpreter sees: the changes
    laid over the stored ones; nothing is changed then.  A removal must be of a stored
    closure. *)
Theorem commit_closures_stores blake2b beyond c m s :
  (forall bs, length (blake2b bs) = 32%nat) -> (forall bs, are_bytes (blake2b bs)) ->
  closures_are c m -> map_Forall (fun addr t => is_word 64 addr /\ is_word 64 t) (cl_modified s) ->
  (forall addr, cl_modified s !! addr = Some none -> is_Some (m !! addr)) ->
  exists db, commit_closures blake2b beyond c s = Ok (with_closure_db c db, with_closures s ∅ 0) /\
    closures_are (with_closure_db c db) (overlay (cl_modified s) m).
Proof. intros Hl Hb. by apply commit_closures_ok. Qed.

(** C22: when nothing has changed, [get_frozen_closures] upwards lists the stored closures
    from [from] to before [to] in the order of their addresses, the first [max] of them. *)
Theorem frozen_closures_in_order c m s heap_size from to max :
  closures_are c m -> cl_modified s = ∅ -> is_word 64 from -> 0 <= max -> heap_size <> from \/ from < to ->
  eventually (fun f => get_frozen_closures f f c s heap_size from to max =
    Ok (take (Z.to_nat max) (filter (fun p => from <= p.1 < to) (in_address_order m)))).
Proof. apply get_frozen_closures_ok. Qed.

(** ** Examples *)

Module ClosureExample.
Definition c0 : blockchain := genesis_chain.
Lemma c0_closures : closures_are c0 ∅.
Proof.
  split; [|done]. exists (<[20 := ∅]> ∅).
  assert (closure_db c0 = example_db) as -> by by vm_compute. split; [exact example_refines|].
  assert (closure_root c0 = 20) as -> by by vm_compute. by rewrite lookup_insert_eq.
Qed.
(** The closures [l] stored; a cell to freeze. *)
Definition stored (l : list (Z * Z)) : res blockchain := commit_closure_list checksum 0 c0 l.
Definition changed (l : list (Z * Z)) : closures := Closures (list_to_map l) 0 [] 0.
Definition cell_0 : block_heap := BlockExample.blocks.
End ClosureExample.

Lemma commit_closures_stores_witness :
  exists db, commit_closures checksum 0 ClosureExample.c0 (ClosureExample.changed [(9, 48); (5, 40)]) =
      Ok (with_closure_db ClosureExample.c0 db, ClosureExample.changed []) /\
    closures_are (with_closure_db ClosureExample.c0 db) {[9 := 48; 5 := 40]}.
Proof.
  destruct (commit_closures_stores checksum 0 ClosureExample.c0 ∅ (ClosureExample.changed [(9, 48); (5, 40)])
    checksum_length checksum_bytes ClosureExample.c0_closures) as (db & H1 & H2).
  - by apply (bool_decide_unpack _).
  - intros addr H. exfalso. revert H. cbn. rewrite !lookup_insert_Some, lookup_empty. unfold none, no_term. intros H. naive_solver.
  - exists db. split; [exact H1|]. exact H2.
Defined.

Lemma frozen_closures_in_order_witness :
  exists c, eventually (fun f => get_frozen_closures f f c (ClosureExample.changed []) 20 6 12 5 = Ok [(9, 48)]).
Proof.
  destruct (commit_closures_ok checksum 0 checksum_length checksum_bytes ClosureExample.c0 ∅ (ClosureExample.changed [(9, 48); (5, 40)])
    ClosureExample.c0_closures) as (db & _ & H).
  - by apply (bool_decide_unpack _).
  - intros addr H. exfalso. revert H. cbn. rewrite !lookup_insert_Some, lookup_empty. unfold none, no_term. intros H. naive_solver.
  - exists (with_closure_db ClosureExample.c0 db).
    exact (frozen_closures_in_order _ _ (ClosureExample.changed []) 20 6 12 5 H eq_refl ltac:(by split) ltac:(lia) ltac:(by left)).
Defined.

(** ** What goes wrong *)

(** A closure that was cleared reads as the cell 0, not as the empty list, and clearing it
    again brings the stored one back. *)
Theorem clearing_twice_restores :
  (c ← ClosureExample.stored [(0, 40)];
   '(g, s) ← clear_frozen_closure 20 c ClosureExample.cell_0 (ClosureExample.changed []) 0;
   once ← get_frozen_closure 20 c s 0;
   '(_, s) ← clear_frozen_closure 20 c g s 0;
   twice ← get_frozen_closure 20 c s 0;
   Ok [once; twice]) = Ok [0; 40].
Proof. by vm_compute. Qed.

(** A changed closure at the last stored address is listed twice; counting down, a removed
    one turns the iterator round. *)
Theorem frozen_closures_repeat :
  (c ← ClosureExample.stored [(5, 40); (9, 48)];
   up ← get_frozen_closures 20 20 c (ClosureExample.changed [(9, 56)]) 20 0 20 5;
   down ← get_frozen_closures 20 20 c (ClosureExample.changed [(5, none)]) 20 20 0 3;
   Ok (up, down)) = Ok ([(5, 40); (9, 56); (9, 56)], [(9, 48); (9, 48); (9, 48)]).
Proof. by vm_compute. Qed.

(** freezing a variable of a committed block does not mark the block as changed: the
    commit stores the closure, but the stored variable is not watched. *)
Theorem watch_is_not_committed :
  ('(c, g) ← commit_heap checksum ClosureExample.c0 ClosureExample.cell_0;
   '(g, s) ← set_frozen_closure 20 c g (ClosureExample.changed []) 0 40;
   '(g, seen) ← bh_get 20 c g 0;
   '(c, g) ← commit_heap checksum c g;
   '(c, _) ← commit_closures checksum 0 c s;
   b ← db_get_heap_block 20 c 0;
   stored ← block_get b 0;
   closure ← db_get_closure 20 c 0;
   Ok [seen; stored; closure]) = Ok [ref_cell_watched 0; ref_cell 0; 40].
Proof. by vm_compute. Qed.
