(* ===== verification/GlobalProgram.v ===== *)
(** * Updated predicates of the global interpreter

    A commit stores the clauses of the updated predicates over the stored ones.  A discard
    puts back the predicates that were kept by [updated_predicate_pre]: right for those
    that were updated once. *)

From S2P Require Import Prelude Bits Cells Heap FastHash HeapBlock Probing TrieNode TrieDb TrieMap Blockchain Chain.
From S2P Require Import GlobalDb GlobalDbSpec GlobalState GlobalAtoms Machine Clauses Interpreter InterpExamples.

(** The clauses that are written for a predicate. *)
Definition written_clauses (pd : predicate) : list Z := mc_clause <$> mc_clauses (pd_clauses pd).
Definition clauses_in (p : program) (qn : qname) : list Z :=
  match internal_get_predicate p qn with Some pd => written_clauses pd | None => [] end.

(** The table after the commit. *)
Definition committed_program (p : program) (t : gmap qname (list Z)) : gmap qname (list Z) :=
  foldl (fun t qn => <[qn := clauses_in p qn]> t) t (pr_updated p).

Lemma foldl_insert_lookup (f : qname -> list Z) (l : list qname) (t : gmap qname (list Z)) qn :
  foldl (fun t qn => <[qn := f qn]> t) t l !! qn = if decide (qn ∈ l) then Some (f qn) else t !! qn.
Proof.
  revert t. induction l as [|q l IH]; intros t; cbn [foldl]; [by rewrite decide_False by apply not_elem_of_nil|].
  rewrite IH. destruct (decide (qn ∈ l)) as [Hin|Hin]; [by rewrite decide_True by (by right)|].
  destruct (decide (qn = q)) as [->|Hne].
  - by rewrite lookup_insert_eq, decide_True by left.
  - rewrite lookup_insert_ne by done. rewrite decide_False; [done|]. by intros [?|?]%elem_of_cons.
Qed.

(** The names that are stored or are to be. *)
Definition names_of (t : gmap qname (list Z)) (p : program) : list qname := elements (dom t) ++ pr_updated p.

(** What can be stored: at most 32 clauses, under a slot of its own. *)
Record storable (names : list qname) (p : program) (qn : qname) : Prop := Storable {
  so_present : exists pd, internal_get_predicate p qn = Some pd /\ is_empty pd = false;
  so_name : is_word 64 (fst qn) /\ is_word 64 (snd qn);
  so_clauses : Z.of_nat (length (clauses_in p qn)) <= MAX_CLAUSES /\ Forall (is_word 64) (clauses_in p qn);
  so_slot : own_slot predicate_key names qn
}.

Section program.
Context (blake2b : list Z -> list Z) (cost : Z -> Z).
Hypothesis blake2b_length : forall bs, length (blake2b bs) = 32%nat.
Hypothesis blake2b_bytes : forall bs, are_bytes (blake2b bs).

Lemma set_predicate_stored c t (names : list qname) p qn :
  predicates_are c t -> storable names p qn -> (forall q, is_Some (t !! q) -> q ∈ names) ->
  exists db, eventually (fun f => db_set_predicate blake2b f c qn (clauses_in p qn) = Ok (with_program_db c db, true)) /\
    predicates_are (with_program_db c db) (<[qn := clauses_in p qn]> t).
Proof.
  intros Ht [_ [H1 H2] [Hlen Hw] (j & Hj & Hown)] Hdom.
  destruct (set_predicate_clauses blake2b blake2b_length blake2b_bytes c t qn (clauses_in p qn) Ht H1 H2 Hw) as (c' & b & He & Hb). destruct b.
  - destruct Hb as (db & -> & Ht'). by exists db.
  - destruct Hb as (_ & [Hlt|(m & _ & Hp & Hsl)]); [lia|]. exfalso.
    destruct (probe_own_slot predicate_key predicate_data predicate_name_of predicate_ok (fun _ => True) 10 (fun _ _ => I)
      predicate_name_of_data m t qn j Hsl) as [o Ho]; [done| |congruence].
    intros q Hq Hne j' Hj'. apply (Hown q); [by apply Hdom|done|done].
Qed.

Lemma get_present f c p qn pd : internal_get_predicate p qn = Some pd -> is_empty pd = false ->
  global_get_predicate f cost c p qn = Ok (p, pd).
Proof. intros Hp He. unfold global_get_predicate. by rewrite Hp, He, Ok_bind, Hp. Qed.

Lemma commit_predicates_ok (names : list qname) p l c t :
  predicates_are c t -> (forall q, is_Some (t !! q) -> q ∈ names) -> (forall qn, qn ∈ l -> qn ∈ names /\ storable names p qn) ->
  exists db, eventually (fun f => commit_predicates blake2b f cost c p l = Ok (with_program_db c db, p)) /\
    predicates_are (with_program_db c db) (foldl (fun t qn => <[qn := clauses_in p qn]> t) t l).
Proof.
  revert c t. induction l as [|qn l IH]; intros c t Ht Hdom Hl.
  { exists (program_db c). assert (E : with_program_db c (program_db c) = c) by (by destruct c). rewrite E.
    split; [by apply eventually_always|done]. }
  destruct (Hl qn ltac:(left)) as [Hin Hs]. destruct (set_predicate_stored c t names p qn Ht Hs Hdom) as (db & He & Ht').
  destruct (IH (with_program_db c db) _ Ht') as (db' & He' & Ht'').
  - intros q Hq. destruct (decide (q = qn)) as [->|Hne]; [done|]. rewrite lookup_insert_ne in Hq by done. by apply Hdom.
  - intros q Hq. apply Hl. by right.
  - exists db'. split; [|done]. eapply eventually_mono; [exact (eventually_and _ _ He He')|]. intros f [Hf Hf'].
    destruct (so_present _ _ _ Hs) as (pd & Hpd & Hne). cbn [commit_predicates]. rewrite (get_present f c p qn pd Hpd Hne), Ok_bind.
    cbn beta iota. unfold clauses_in in Hf. rewrite Hpd in Hf. unfold written_clauses in Hf. rewrite Hf, Ok_bind. exact Hf'.
Qed.

Lemma commit_program_ok (names : list qname) c p t :
  predicates_are c t -> (forall q, is_Some (t !! q) -> q ∈ names) -> (forall qn, qn ∈ pr_updated p -> qn ∈ names /\ storable names p qn) ->
  exists db p', eventually (fun f => commit_program blake2b f cost c p = Ok (with_program_db c db, p')) /\
    predicates_are (with_program_db c db) (committed_program p t) /\ pr_interp p' = pr_interp p /\ pr_updated p' = [] /\
    (pr_updated p <> [] -> pr_old p' = [] /\ pr_new p' = 0).
Proof.
  intros Ht Hdom Hl. unfold commit_program, committed_program. case_bool_decide as Hu.
  { rewrite Hu. exists (program_db c), p. assert (E : with_program_db c (program_db c) = c) by (by destruct c). rewrite E.
    split_and!; [by apply eventually_always|done..]. }
  destruct (commit_predicates_ok names p (pr_updated p) c t Ht Hdom Hl) as (db & He & Ht').
  exists db, (with_changes p [] [] 0). split_and!; try done. eapply eventually_mono; [exact He|]. intros f Hf. by rewrite Hf, Ok_bind.
Qed.

(** ** Discarding *)

Lemma clear_all_lookup l p qn : internal_get_predicate (foldl clear_predicate p l) qn =
  if decide (qn ∈ l) then None else internal_get_predicate p qn.
Proof.
  revert p. induction l as [|q l IH]; intros p; cbn [foldl]; [by rewrite decide_False by apply not_elem_of_nil|].
  rewrite IH. destruct (decide (qn ∈ l)) as [Hin|Hin]; [by rewrite decide_True by (by right)|].
  unfold internal_get_predicate, clear_predicate. cbn. destruct (decide (qn = q)) as [->|Hne].
  - rewrite lookup_delete_eq, decide_True by left. done.
  - rewrite lookup_delete_ne by done. rewrite decide_False; [done|]. by intros [?|?]%elem_of_cons.
Qed.

(** The last copy of a predicate is the one that is restored. *)
Lemma restore_all_lookup l p qn :
  internal_get_predicate (foldl (fun p '(qn, pd) => restore_predicate p qn pd) p l) qn =
    match last (filter (fun q => q.1 = qn) l) with Some (_, pd) => Some pd | None => internal_get_predicate p qn end.
Proof.
  revert p. induction l as [|[q pd] l IH]; intros p; [done|]. cbn [foldl]. rewrite IH.
  destruct (decide (q = qn)) as [->|Hne].
  - rewrite filter_cons_True by done. rewrite last_cons. destruct (last _) as [[? ?]|]; [done|].
    unfold internal_get_predicate. cbn. apply lookup_insert_eq.
  - rewrite filter_cons_False by done. destruct (last _) as [[? ?]|]; [done|].
    unfold internal_get_predicate. cbn. by apply lookup_insert_ne.
Qed.

Lemma discard_program_lookup p qn :
  internal_get_predicate (discard_program p) qn =
    match last (filter (fun q => q.1 = qn) (pr_old p)) with
    | Some (_, pd) => Some pd
    | None => if decide (qn ∈ pr_updated p) then None else internal_get_predicate p qn
    end.
Proof.
  unfold discard_program.
  set (p1 := foldl clear_predicate p (pr_updated p)). assert (Hold : pr_old p1 = pr_old p).
  { unfold p1. generalize (pr_updated p). intros l. clear p1. revert p. induction l as [|q l IH]; intros p; [done|]. cbn [foldl]. by rewrite IH. }
  rewrite Hold. change (internal_get_predicate (Program ?i _ _ _ _ _) qn) with (i_program i !! qn).
  pose proof (restore_all_lookup (pr_old p) p1 qn) as H. unfold internal_get_predicate in H at 1. rewrite H.
  destruct (last _) as [[? ?]|]; [done|]. apply clear_all_lookup.
Qed.

(** ** Updates *)

(** Loading a predicate changes no other. *)
Definition only_at (qn : qname) (p p' : program) : Prop :=
  (forall q, q <> qn -> internal_get_predicate p' q = internal_get_predicate p q) /\
  pr_updated p' = pr_updated p /\ pr_old p' = pr_old p.

Lemma only_at_refl qn p : only_at qn p p.
Proof. done. Qed.
Lemma only_at_trans qn p1 p2 p3 : only_at qn p1 p2 -> only_at qn p2 p3 -> only_at qn p1 p3.
Proof. intros (H1 & U1 & O1) (H2 & U2 & O2). split_and!; [|congruence..]. intros q Hq. by rewrite H2, H1. Qed.

Lemma add_loaded_only p qn cs p' : add_loaded cost p qn cs = Ok p' -> only_at qn p p'.
Proof.
  unfold add_loaded. intros H. apply bind_Ok in H as (pd & _ & H). apply bind_Ok in H as (m & _ & [= <-]).
  split_and!; [|done..]. intros q Hq. unfold internal_get_predicate. cbn. by rewrite lookup_insert_ne.
Qed.

Lemma import_predicate_program i qn : i_program (import_predicate i qn) = i_program i.
Proof.
  unfold import_predicate, get_code. destruct (i_code i !! _) as [cp|]; [destruct (is_fail cp)|]; cbn; try done.
  - by destruct (i_code i !! _).
  - by destruct (<[_ := code_fail]> (i_code i) !! _).
Qed.

Lemma load_predicate_only f c p qn p' : load_predicate f cost c p qn = Ok p' -> only_at qn p p'.
Proof.
  unfold load_predicate. intros H. apply bind_Ok in H as (stored & _ & H). destruct stored as [cs|]; [by eapply add_loaded_only|].
  apply bind_Ok in H as (stored & _ & H). destruct stored as [cs|]; [|injection H as <-; apply only_at_refl].
  apply bind_Ok in H as (p1 & H1 & [= <-]). apply add_loaded_only in H1 as (H1 & U1 & O1). split_and!; [|done..].
  intros q Hq. rewrite <-H1 by done. unfold internal_get_predicate. cbn. by rewrite import_predicate_program.
Qed.

Lemma global_get_only f c p qn p' pd : global_get_predicate f cost c p qn = Ok (p', pd) ->
  only_at qn p p' /\ internal_get_predicate p' qn = Some pd /\
  (forall pd0, internal_get_predicate p qn = Some pd0 -> is_empty pd0 = false -> pd = pd0).
Proof.
  unfold global_get_predicate. intros H. apply bind_Ok in H as (p1 & H1 & H). apply bind_Ok in H as (pd1 & Hpd%of_option_Ok & [= <- <-]).
  split_and!; [|done|].
  - destruct (internal_get_predicate p qn) as [pd0|] eqn:Hp.
    + destruct (is_empty pd0); [by eapply load_predicate_only|]. injection H1 as <-. apply only_at_refl.
    + eapply only_at_trans; [|by eapply load_predicate_only]. split_and!; [|done..]. intros q Hq.
      unfold internal_get_predicate, get_predicate in *. rewrite Hp. cbn. by apply lookup_insert_ne.
  - intros pd0 Hp Hne. rewrite Hp, Hne in H1. injection H1 as <-. congruence.
Qed.

(** One more clause: the copy that is kept, and what changes. *)
Lemma global_add_clause_keeps f c p qn t pos p' : global_add_clause f cost c p qn t pos = Ok p' ->
  exists pd, pr_updated p' = pr_updated p ++ [qn] /\ pr_old p' = pr_old p ++ [(qn, pd)] /\
    (forall q, q <> qn -> internal_get_predicate p' q = internal_get_predicate p q) /\
    (forall pd0, internal_get_predicate p qn = Some pd0 -> is_empty pd0 = false -> pd = pd0).
Proof.
  unfold global_add_clause. intros H. apply bind_Ok in H as ([p1 pd] & Hget & H).
  destruct (global_get_only f c p qn p1 pd Hget) as ((Hq1 & Hu1 & Ho1) & Hpd & Hsame). exists pd.
  assert (Hpre : updated_predicate_pre p1 qn = with_changes p1 (pr_updated p1) (pr_old p1 ++ [(qn, pd)]) (if is_empty pd then pr_new p1 + 1 else pr_new p1))
    by (unfold updated_predicate_pre; by rewrite Hpd).
  rewrite Hpre in H. apply bind_Ok in H as (pd2 & _ & H). apply bind_Ok in H as (m & _ & H).
  unfold updated_predicate_post in H. apply bind_Ok in H as (pd3 & _ & [= <-]). cbn. rewrite Hu1, Ho1. split_and!; try done.
  intros q Hq. rewrite <-Hq1 by done. unfold internal_get_predicate. cbn. by rewrite lookup_insert_ne.
Qed.

(** Clauses for several predicates. *)
Fixpoint add_each (f : nat) (c : blockchain) (p : program) (l : list (qname * Z)) : res program :=
  match l with
  | [] => Ok p
  | (qn, t) :: l => p ← global_add_clause f cost c p qn t LAST_CLAUSE; add_each f c p l
  end.

Abbreviation about_name qn := (fun q : qname * _ => q.1 = qn).

(** The copies that are kept of a predicate: one for every clause it gets, in order; the
    first is the predicate as it was. *)
Lemma add_each_keeps f c l p p' qn : add_each f c p l = Ok p' ->
  exists old, pr_old p' = pr_old p ++ old /\ length (filter (about_name qn) old) = length (filter (about_name qn) l) /\
    pr_updated p' = pr_updated p ++ l.*1 /\
    (filter (about_name qn) l = [] -> internal_get_predicate p' qn = internal_get_predicate p qn) /\
    (forall q pd pd0, head (filter (about_name qn) old) = Some (q, pd) ->
      internal_get_predicate p qn = Some pd0 -> is_empty pd0 = false -> pd = pd0).
Proof.
  revert p. induction l as [|[q t] l IH]; intros p; cbn [add_each fmap list_fmap fst].
  { intros [= <-]. exists []. by rewrite !app_nil_r. }
  intros H. apply bind_Ok in H as (p1 & H1 & H).
  destruct (global_add_clause_keeps f c p q t LAST_CLAUSE p1 H1) as (pd & Hu1 & Ho1 & Hq1 & Hsame).
  destruct (IH p1 H) as (old & Ho & Hn & Hu & Hq & Hkeep). exists ((q, pd) :: old).
  rewrite Ho, Ho1, Hu, Hu1, <-!app_assoc. destruct (decide (q = qn)) as [->|Hne].
  - rewrite !filter_cons_True by done. cbn [length]. split_and!; [done|by rewrite Hn|done|done|].
    intros q' pd' pd0 [= <- <-]. apply Hsame.
  - rewrite !filter_cons_False by done. split_and!; [done..| |].
    + intros Hl. by rewrite Hq, Hq1.
    + intros q' pd' pd0 Hh Hp. apply (Hkeep q' pd' pd0 Hh). by rewrite Hq1.
Qed.
End program.

(** ** The properties *)

(** [commit_program] stores the clauses in memory of every updated predicate, when there
    are at most 32 of them and the predicate has a slot that no other has; other stored
    predicates stay.  No changes are left. *)
Theorem commit_program_stores blake2b cost c p t :
  (forall bs, length (blake2b bs) = 32%nat) -> (forall bs, are_bytes (blake2b bs)) -> predicates_are c t ->
  (forall qn, qn ∈ pr_updated p -> storable (names_of t p) p qn) ->
  exists db p' t', eventually (fun f => commit_program blake2b f cost c p = Ok (with_program_db c db, p')) /\
    predicates_are (with_program_db c db) t' /\
    (forall qn, t' !! qn = if decide (qn ∈ pr_updated p) then Some (clauses_in p qn) else t !! qn) /\ pr_updated p' = [].
Proof.
  intros Hlen Hbytes Ht Hs.
  destruct (commit_program_ok blake2b cost Hlen Hbytes (names_of t p) c p t Ht) as (db & p' & He & Ht' & _ & Hu & _).
  - intros q Hq. apply elem_of_app. left. by apply elem_of_elements, elem_of_dom.
  - intros qn Hqn. split; [apply elem_of_app; by right|by apply Hs].
  - exists db, p', (committed_program p t). split_and!; try done. intros qn. apply (foldl_insert_lookup (clauses_in p)).
Qed.


(** ** Examples *)

Module ProgramExample.
Definition c0 : blockchain := genesis_chain.
Definition P : Z := con_constant [112] 0.
Definition Q : Z := con_constant [113] 0.
Definition p_0 : qname := (USER, P).
Definition q_0 : qname := (USER, Q).
Definition cost (t : Z) : Z := 1.
Definition no_program : program := Program (Interp first_wam ∅ [] ∅ USER ∅) [] [] 0 0 0.

Lemma c0_predicates : predicates_are c0 ∅.
Proof.
  exists ∅. split; [|apply slots_empty]. exists (<[20 := ∅]> ∅).
  assert (program_db c0 = example_db) as -> by by vm_compute. split; [exact example_refines|].
  assert (program_root c0 = 20) as -> by by vm_compute. by rewrite lookup_insert_eq.
Qed.
Definition added : program := ok_or no_program (add_each cost 20 c0 no_program [(p_0, P); (q_0, Q)]).

Lemma added_present qn : qn ∈ [p_0; q_0] -> exists pd, internal_get_predicate added qn = Some pd /\ is_empty pd = false.
Proof.
  assert (Hall : forallb (fun qn => match internal_get_predicate added qn with Some pd => negb (is_empty pd) | None => false end) [p_0; q_0] = true)
    by by vm_compute.
  intros Hqn. apply list_elem_of_In in Hqn. apply (proj1 (forallb_forall _ _) Hall) in Hqn.
  destruct (internal_get_predicate added qn) as [pd|]; [|done]. exists pd. split; [done|]. by destruct (is_empty pd).
Qed.
Lemma added_slots qn : qn ∈ [p_0; q_0] -> own_slot predicate_key [p_0; q_0] qn.
Proof.
  assert (Hall : Forall (fun n => Forall (fun n' => n' = n \/ Forall (fun j' => predicate_key n' j' <> predicate_key n 0) (seqZ 0 10)) [p_0; q_0])
    [p_0; q_0]) by (apply (bool_decide_unpack _); by vm_compute).
  intros Hqn. exists 0. split; [lia|]. intros n' Hn' Hne j' Hj'. rewrite Forall_forall in Hall. specialize (Hall qn Hqn).
  rewrite Forall_forall in Hall. destruct (Hall n' Hn') as [|H]; [done|]. rewrite Forall_forall in H. apply H, elem_of_seqZ. lia.
Qed.
Lemma added_clauses qn : qn ∈ [p_0; q_0] ->
  (is_word 64 (fst qn) /\ is_word 64 (snd qn)) /\ Z.of_nat (length (clauses_in added qn)) <= MAX_CLAUSES /\ Forall (is_word 64) (clauses_in added qn).
Proof.
  set (word := fun c => (0 <=? c) && (c <? 2 ^ 64)).
  assert (Hword : forall c, word c = true -> is_word 64 c).
  { intros c [H1 H2]%andb_true_iff. apply Z.leb_le in H1. apply Z.ltb_lt in H2. by split. }
  assert (Hall : forallb (fun qn : qname => word (fst qn) && word (snd qn) &&
    (Z.of_nat (length (clauses_in added qn)) <=? MAX_CLAUSES) && forallb word (clauses_in added qn)) [p_0; q_0] = true)
    by by vm_compute.
  intros Hqn. apply list_elem_of_In in Hqn. apply (proj1 (forallb_forall _ _) Hall) in Hqn.
  apply andb_true_iff in Hqn as [Hqn Hc]. apply andb_true_iff in Hqn as [Hqn Hl]. apply andb_true_iff in Hqn as [Hf Hs].
  split; [by split; apply Hword|]. split; [by apply Z.leb_le|]. apply Forall_forall. intros c Hin.
  apply list_elem_of_In in Hin. apply Hword. by apply (proj1 (forallb_forall _ _) Hc) in Hin.
Qed.
Lemma added_updated : pr_updated added = [p_0; q_0].
Proof. by vm_compute. Qed.
Lemma added_storable qn : qn ∈ pr_updated added -> storable (names_of ∅ added) added qn.
Proof.
  assert (Hn : names_of ∅ added = [p_0; q_0]) by (unfold names_of; by rewrite added_updated, dom_empty_L, elements_empty).
  rewrite Hn, added_updated. intros Hqn. destruct (added_clauses qn Hqn) as [Hname Hcl].
  split; [by apply added_present|done|done|by apply added_slots].
Qed.
(** Two predicates with a clause each are loaded. *)
Definition loaded : program := with_changes added [] [] 0.
End ProgramExample.


Lemma commit_program_stores_witness :
  exists db p' t', eventually (fun f => commit_program checksum f ProgramExample.cost ProgramExample.c0 ProgramExample.added =
      Ok (with_program_db ProgramExample.c0 db, p')) /\
    predicates_are (with_program_db ProgramExample.c0 db) t' /\ t' !! ProgramExample.p_0 = Some [ProgramExample.P].
Proof.
  destruct (commit_program_stores checksum ProgramExample.cost ProgramExample.c0 ProgramExample.added ∅
    checksum_length checksum_bytes ProgramExample.c0_predicates ProgramExample.added_storable) as (db & p' & t' & H1 & H2 & H3 & _).
  exists db, p', t'. split_and!; [done..|]. rewrite H3, ProgramExample.added_updated. by vm_compute.
Defined.


(** ** What goes wrong *)

(** [old_predicates_] keeps a copy per update and all are restored in turn, so that the
    last one stays: of two clauses that a goal added, the discard leaves the first. *)
Theorem discard_keeps_first_update :
  (p ← add_each ProgramExample.cost 20 ProgramExample.c0 ProgramExample.loaded
         [(ProgramExample.p_0, ProgramExample.P); (ProgramExample.p_0, ProgramExample.P)];
   Ok (clauses_in ProgramExample.loaded ProgramExample.p_0, clauses_in (discard_program p) ProgramExample.p_0)) =
  Ok ([ProgramExample.P], [ProgramExample.P; ProgramExample.P]).
Proof. by vm_compute. Qed.

(** a predicate whose clauses were removed is empty, and the commit loads an empty
    predicate from the database before it writes it: the removed clauses stay. *)
Theorem removed_clauses_stay :
  ('(c, p) ← commit_program checksum 20 ProgramExample.cost ProgramExample.c0 ProgramExample.added;
   p ← global_remove_clauses 20 ProgramExample.cost c p ProgramExample.p_0;
   let removed := clauses_in p ProgramExample.p_0 in
   '(c, _) ← commit_program checksum 20 ProgramExample.cost c p;
   stored ← db_get_predicate 20 c ProgramExample.p_0;
   Ok (removed, stored)) = Ok ([], Some [ProgramExample.P]).
Proof. by vm_compute. Qed.
