(* ===== verification/GlobalCommit.v ===== *)
(** * A block of the chain stores the global state

    [increment_height] makes the next version of the databases and writes all changes to
    it: the heap, the frozen closures, the symbols, the program and the goals.  The version
    before stays as it was. *)

From S2P Require Import Prelude Util Bits Cells Heap HeapBlock Lru Probing TrieNode TrieDb TrieDbSpec TrieUpdate TrieRoots TrieMap TrieIter TrieWalk.
From S2P Require Import Clauses MetaEntry Blockchain Chain ChainEntries GlobalDb GlobalDbSpec BlockHeap BlockHeapSpec BlockHeapRun.
From S2P Require Import GlobalState GlobalAtoms GlobalClosures GlobalProgram.

(** ** The next version *)

Lemma holds_next db root m r :
  holds db root m -> roots db !! root = Some r -> is_word 32 (r_height r + 1) ->
  exists db', new_root_from db root = Ok (db', roots_end db) /\ holds db' (roots_end db) m /\ holds db' root m /\
    roots db' !! root = roots db !! root.
Proof.
  intros (s & Hs & Hm) Hr Hh. destruct (refines_lookup db s root Hs) as [[_ H]|(r' & m' & Hr' & Hm' & Hk & Hn)]; [by rewrite H in Hm|].
  rewrite Hr in Hr'. injection Hr' as <-. rewrite Hm in Hm'. injection Hm' as <-.
  destruct (new_root_sim db s root r m Hs Hr Hm Hk Hn Hh) as (db' & Hdb' & Hs').
  destruct (new_root_from db root) as [[db1 id]|] eqn:E; [|done]. injection Hdb' as ->.
  assert (id = roots_end db) as ->.
  { unfold new_root_from in E. apply bind_Ok in E as (p & _ & E). apply bind_Ok in E as (b & _ & [= _ <-]). done. }
  assert (Hne : roots_end db <> root).
  { intros <-. pose proof (ro_high _ _ _ (do_roots _ (rf_ok _ _ Hs) _ r Hr)). unfold root_serialization_size in *. lia. }
  exists db'. split; [done|]. split; [exists (<[roots_end db := m]> s); split; [done|apply lookup_insert_eq]|]. split.
  - exists (<[roots_end db := m]> s). split; [done|]. by rewrite lookup_insert_ne.
  - destruct (new_root_from_correct db root r (rf_ok _ _ Hs) Hr Hh) as (db2 & E2 & _ & _ & _ & _ & _ & H).
    rewrite E in E2. injection E2 as ->. by apply H.
Qed.

(** A database and its version in use, of which there can be another. *)
Definition can_advance (db : triedb) (root : Z) : Prop :=
  exists m r, holds db root m /\ roots db !! root = Some r /\ is_word 32 (r_height r + 1).

Lemma next_version db root : can_advance db root ->
  exists db', new_root_from db root = Ok (db', roots_end db) /\
    roots db' !! root = roots db !! root /\ forall m, holds db root m -> holds db' (roots_end db) m /\ holds db' root m.
Proof.
  intros (m & r & Hh & Hr & Hw). destruct (holds_next db root m r Hh Hr Hw) as (db' & Hdb' & _ & _ & Hrs). exists db'. split; [done|].
  split; [done|]. intros m' Hm'. destruct (holds_next db root m' r Hm' Hr Hw) as (db'' & Hdb'' & H1 & H2 & _). rewrite Hdb' in Hdb''.
  by injection Hdb'' as <-.
Qed.

(** All six databases. *)
Definition chain_can_advance (c : blockchain) : Prop :=
  m_root_meta (tip c) <> 0 /\
  can_advance (meta_db c) (m_root_meta (tip c)) /\ can_advance (blocks_db c) (blocks_root c) /\ can_advance (heap_db c) (heap_root c) /\
  can_advance (closure_db c) (closure_root c) /\ can_advance (symbols_db c) (symbols_root c) /\ can_advance (program_db c) (program_root c).

(** What the tip's versions hold. *)
Record contents (c : blockchain) (goals heap closures symbols program : version_map) : Prop := Contents {
  ct_goals : holds (blocks_db c) (blocks_root c) goals;
  ct_heap : holds (heap_db c) (heap_root c) heap;
  ct_closures : holds (closure_db c) (closure_root c) closures;
  ct_symbols : holds (symbols_db c) (symbols_root c) symbols;
  ct_program : holds (program_db c) (program_root c) program
}.

Section advance.
Context (blake2b : list Z -> list Z).

Lemma advance_ok c : chain_can_advance c ->
  exists c', advance blake2b c = Ok c' /\ m_previous_id (tip c') = m_id (tip c) /\ m_height (tip c') = w32 (m_height (tip c) + 1) /\
    m_pow_proof (tip c') = m_pow_proof (tip c) /\ chains c' = chains c /\ at_height c' = at_height c /\
    can_advance (meta_db c') (m_root_meta (tip c)) /\
    (forall g h cl s p, contents c g h cl s p -> contents c' g h cl s p /\ contents (with_tip c' (tip c)) g h cl s p).
Proof.
  intros (Hmeta & A0 & A1 & A2 & A3 & A4 & A5).
  destruct (next_version _ _ A0) as (d0 & N0 & R0 & K0). destruct (next_version _ _ A1) as (d1 & N1 & R1 & K1).
  destruct (next_version _ _ A2) as (d2 & N2 & R2 & K2). destruct (next_version _ _ A3) as (d3 & N3 & R3 & K3).
  destruct (next_version _ _ A4) as (d4 & N4 & R4 & K4). destruct (next_version _ _ A5) as (d5 & N5 & R5 & K5).
  unfold blocks_root, heap_root, closure_root, symbols_root, program_root in *.
  unfold advance. rewrite (proj2 (Z.eqb_neq _ _)) by done. rewrite N0, Ok_bind. cbn beta iota. rewrite N1, Ok_bind. cbn beta iota.
  rewrite N2, Ok_bind. cbn beta iota. rewrite N3, Ok_bind. cbn beta iota. rewrite N4, Ok_bind. cbn beta iota. rewrite N5, Ok_bind. cbn beta iota.
  eexists. split; [done|]. split_and!; [done..| |].
  - destruct A0 as (m & r & Hm & Hr & Hw). exists m, r. split; [by apply K0|]. by rewrite <-Hr.
  - intros g h cl s p [H1 H2 H3 H4 H5]. split; split; cbn; first [by apply K1|by apply K2|by apply K3|by apply K4|by apply K5].
Qed.
End advance.

(** ** Storing the changes *)

(** A state whose changes can be stored. *)
Record state_ok (c : blockchain) (g : global) (bs : gmap Z heap_block) (h : heap) (own : list range)
    (m : gmap Z Z) (t : gmap atom_name Z) (pt : gmap qname (list Z)) : Prop := StateOk {
  sk_blocks : blocks_are c bs;
  sk_heap : represents bs (gl_heap g) h own;
  sk_written : all_written bs (gl_heap g) h;
  sk_size : bh_size (gl_heap g) <= 2 ^ 64;
  sk_room : (length (lc_access (bh_cache (gl_heap g))) + size (bh_modified (gl_heap g)) <= lc_capacity (bh_cache (gl_heap g)))%nat;
  sk_closures : closures_are c m;
  sk_closure_words : map_Forall (fun addr t => is_word 64 addr /\ is_word 64 t) (cl_modified (gl_closures g));
  sk_removed : forall addr, cl_modified (gl_closures g) !! addr = Some none -> is_Some (m !! addr);
  sk_symbols : symbols_are c t;
  sk_atoms : atoms_ok t (gl_atoms g);
  sk_names : forall n, is_Some (at_new_indices (gl_atoms g) !! n) -> own_slot symbol_key (elements (dom (known t (gl_atoms g)))) n;
  sk_predicates : predicates_are c pt;
  sk_updated : forall qn, qn ∈ pr_updated (gl_program g) -> storable (names_of pt (gl_program g)) (gl_program g) qn
}.

(** The chain holds the state, and nothing is left to be stored. *)
Record state_stored (c : blockchain) (g g' : global) (h : heap) (own : list range)
    (m : gmap Z Z) (t : gmap atom_name Z) (pt : gmap qname (list Z)) : Prop := StateStored {
  ss_heap : exists bs, blocks_are c bs /\ represents bs (gl_heap g') h own /\ bh_modified (gl_heap g') = ∅ /\
    bh_old_size (gl_heap g') = bh_size (gl_heap g') /\
    forall addr v, h_cells h !! addr = Some v -> exists b, bs !! find_block_index addr = Some b /\ cell_of b (addr mod MAX_SIZE) = Some v;
  ss_closures : closures_are c (overlay (cl_modified (gl_closures g)) m) /\ cl_modified (gl_closures g') = ∅;
  ss_symbols : symbols_are c (known t (gl_atoms g)) /\ atoms_ok (known t (gl_atoms g)) (gl_atoms g') /\ at_new (gl_atoms g') = [];
  ss_program : predicates_are c (committed_program (gl_program g) pt) /\ pr_updated (gl_program g') = [] /\
    pr_interp (gl_program g') = pr_interp (gl_program g)
}.

Section store.
Context (blake2b : list Z -> list Z) (beyond : Z) (cost : Z -> Z).
Hypothesis blake2b_length : forall bs, length (blake2b bs) = 32%nat.
Hypothesis blake2b_bytes : forall bs, are_bytes (blake2b bs).

(** The heap's commit touches its database only. *)
Lemma commit_blocks_chain ps c g c' g' :
  commit_blocks blake2b c g ps = Ok (c', g') -> exists db, c' = with_heap_db c db.
Proof.
  revert c g. induction ps as [|p ps IH]; intros c g.
  { intros [= <- <-]. exists (heap_db c). by destruct c. }
  cbn [commit_blocks]. intros H. apply bind_Ok in H as (b & _ & H). apply bind_Ok in H as (c1 & H1 & H).
  apply bind_Ok in H as (g1 & _ & H). destruct (IH c1 g1 H) as (db & ->).
  unfold db_set_heap_block in H1. apply bind_Ok in H1 as (d & _ & H1). apply bind_Ok in H1 as (db1 & _ & [= <-]). by exists db.
Qed.
Lemma commit_heap_chain c g c' g' : commit_heap blake2b c g = Ok (c', g') -> exists db, c' = with_heap_db c db.
Proof.
  unfold commit_heap. intros H. apply bind_Ok in H as ([c1 g1] & H1 & [= <- <-]). by eapply commit_blocks_chain.
Qed.

Lemma store_changes_ok g bs h own m t pt :
  state_ok (gl_chain g) g bs h own m t pt ->
  exists g', eventually (fun f => store_changes blake2b f beyond cost g = Ok g') /\
    state_stored (gl_chain g') g g' h own m t pt /\
    blocks_db (gl_chain g') = blocks_db (gl_chain g) /\ meta_db (gl_chain g') = meta_db (gl_chain g) /\
    tip (gl_chain g') = tip (gl_chain g) /\ chains (gl_chain g') = chains (gl_chain g) /\ gl_goals g' = gl_goals g.
Proof.
  intros []. destruct (commit_represents blake2b blake2b_length blake2b_bytes (gl_chain g) bs (gl_heap g) h own
    sk_blocks0 sk_heap0 sk_written0 sk_room0) as (c1 & bs1 & heap1 & Hh & Hb1 & Hrep1 & Hsz1 & Hm1 & Hold1).
  destruct (commit_heap_chain _ _ _ _ Hh) as (dh & ->).
  destruct (commit_closures_ok blake2b beyond blake2b_length blake2b_bytes (with_heap_db (gl_chain g) dh) m (gl_closures g)
    sk_closures0 sk_closure_words0 sk_removed0) as (dc & Hcl & Hc1).
  set (c2 := with_closure_db (with_heap_db (gl_chain g) dh) dc) in *.
  destruct (commit_symbols_ok blake2b blake2b_length blake2b_bytes (elements (dom (known t (gl_atoms g)))) c2 t (gl_atoms g)
    sk_symbols0 sk_atoms0) as (ds & ats & Hs & Hs1 & Ha1 & _ & Hnew & _).
  { intros n Hn. by apply elem_of_elements, elem_of_dom. }
  { done. }
  set (c3 := with_symbols_db c2 ds) in *.
  destruct (commit_program_ok blake2b cost blake2b_length blake2b_bytes (names_of pt (gl_program g)) c3 (gl_program g) pt sk_predicates0)
    as (dp & prg & Hp & Hp1 & Hi & Hu & _).
  { intros q Hq. apply elem_of_app. left. by apply elem_of_elements, elem_of_dom. }
  { intros qn Hqn. split; [apply elem_of_app; by right|by apply sk_updated0]. }
  set (c4 := with_program_db c3 dp) in *.
  exists (Global c4 heap1 ats (with_closures (gl_closures g) ∅ 0) prg (gl_version g) (gl_height g) (gl_time g) (gl_goals g)).
  split_and!; try done.
  - eapply eventually_mono; [exact (eventually_and _ _ Hs Hp)|]. intros f [Hfs Hfp]. unfold store_changes.
    rewrite Hh, Ok_bind. cbn beta iota. rewrite Hcl, Ok_bind. cbn beta iota. fold c2. rewrite Hfs, Ok_bind. cbn beta iota. fold c3.
    by rewrite Hfp, Ok_bind.
  - split; cbn; try done. exists bs1. split_and!; try done. intros addr v. apply (committed_heap_cells bs1 heap1 h own addr v); [done..|lia].
Qed.

(** The version the next block starts from holds what the one before does. *)
Lemma advanced_state c c' g bs h own m t pt goals :
  (forall gm hm cm sm pm, contents c gm hm cm sm pm -> contents c' gm hm cm sm pm) ->
  holds (blocks_db c) (blocks_root c) goals -> state_ok c g bs h own m t pt ->
  state_ok c' g bs h own m t pt /\ holds (blocks_db c') (blocks_root c') goals.
Proof.
  intros Hadv Hg [(hm & Hh & Hbs) K2 K3 K4 K5 [Hcl Hcw] K7 K8 (sm & Hs & Hsl & Hsn) K10 K11 (pm & Hp & Hpl) K13].
  destruct (Hadv goals hm (closure_data m) sm pm (Contents _ _ _ _ _ _ Hg Hh Hcl Hs Hp)) as [C1 C2 C3 C4 C5].
  split; [|done]. split; try done; [by exists hm|by exists sm|by exists pm].
Qed.

Lemma store_version_ok g bs h own m t pt goals :
  chain_can_advance (gl_chain g) -> state_ok (gl_chain g) g bs h own m t pt ->
  holds (blocks_db (gl_chain g)) (blocks_root (gl_chain g)) goals -> data_fits (gl_goals g) ->
  exists g', eventually (fun f => store_version blake2b f beyond cost g = Ok g') /\
    state_stored (gl_chain g') g g' h own m t pt /\
    m_previous_id (tip (gl_chain g')) = m_id (tip (gl_chain g)) /\
    m_height (tip (gl_chain g')) = w32 (m_height (tip (gl_chain g)) + 1) /\
    holds (blocks_db (gl_chain g')) (blocks_root (gl_chain g')) (<[m_height (tip (gl_chain g')) := gl_goals g]> goals) /\
    chains (gl_chain g') = chains (gl_chain g) /\
    m_pow_proof (tip (gl_chain g')) = m_pow_proof (tip (gl_chain g)) /\
    can_advance (meta_db (gl_chain g')) (m_root_meta (tip (gl_chain g))) /\ gl_goals g' = gl_goals g.
Proof.
  intros Hadv Hst Hgoals Hfit. set (c0 := with_block_data (gl_chain g) (gl_version g) (gl_height g) (gl_time g)).
  destruct (advance_ok blake2b c0 Hadv) as (c1 & H1 & Hprev & Hheight & Hproof & Hch & _ & Hmeta & Hcont).
  assert (Hst0 : state_ok c0 g bs h own m t pt) by (destruct Hst; by split).
  destruct (advanced_state c0 c1 g bs h own m t pt goals) as [Hst1 Hgoals1]; [|exact Hgoals|exact Hst0|].
  { intros gm hm cm sm pm Hct. by destruct (Hcont gm hm cm sm pm Hct). }
  assert (Hst2 : state_ok c1 (with_chain g c1) bs h own m t pt) by (destruct Hst1; by split).
  destruct (store_changes_ok (with_chain g c1) bs h own m t pt Hst2) as (g2 & H2 & Hss & Hbdb & Hmdb & Htip & Hch2 & Hg2).
  assert (Hw : is_word 64 (m_height (tip (gl_chain g2)))).
  { rewrite Htip. cbn. rewrite Hheight. apply (is_word_le 32); [|done]. by apply wrap_word. }
  assert (Hgoals2 : holds (blocks_db (gl_chain g2)) (blocks_root (gl_chain g2)) goals).
  { unfold blocks_root. rewrite Hbdb, Htip. exact Hgoals1. }
  destruct (holds_update blake2b blake2b_length blake2b_bytes _ _ _ (m_height (tip (gl_chain g2))) (gl_goals g2) Hgoals2 Hw)
    as (db & Hdb & Hgoals3); [by rewrite Hg2|].
  exists (with_chain g2 (with_blocks_db (gl_chain g2) db)). cbn [gl_chain with_chain]. split_and!.
  - eapply eventually_mono; [exact H2|]. intros f Hf. unfold store_version. fold c0. rewrite H1, Ok_bind, Hf, Ok_bind.
    unfold db_set_block. by rewrite Hdb, !Ok_bind.
  - destruct Hss. by split.
  - cbn. rewrite Htip. exact Hprev.
  - cbn. rewrite Htip. exact Hheight.
  - cbn. rewrite Hg2 in Hgoals3. exact Hgoals3.
  - cbn. rewrite Hch2. exact Hch.
  - cbn. rewrite Htip. exact Hproof.
  - cbn. rewrite Hmdb. exact Hmeta.
  - exact Hg2.
Qed.
End store.

(** ** The tip *)

Lemma masked_byte x : is_word 8 (x &&& 0xff).
Proof. exact (wrap_word 8 x ltac:(lia)). Qed.

Lemma entry_write_bytes e : are_bytes (m_id e) -> are_bytes (m_previous_id e) -> are_bytes (entry_write e).
Proof.
  intros Hi Hp. unfold entry_write. rewrite !write_uint64_le.
  assert (Hu : are_bytes (utime_to_bytes (m_timestamp e))).
  { unfold utime_to_bytes. apply Forall_rev, le_bytes_are_bytes. }
  assert (Hf : are_bytes (flt_write (m_pow_difficulty e))).
  { unfold flt_write, fxp_write. cbn [drop]. repeat apply Forall_cons_2; try apply masked_byte; [by apply wrap_word..|constructor]. }
  assert (Hw : are_bytes (proof_write (m_pow_proof e))).
  { unfold proof_write. induction (m_pow_proof e) as [|w ws IH]; [constructor|]. cbn [mbind list_bind].
    apply Forall_app. split; [|exact IH]. unfold word_bytes. repeat apply Forall_cons_2; try apply masked_byte. constructor. }
  unfold are_bytes in *. rewrite !Forall_app. split_and!; try done; apply le_bytes_are_bytes.
Qed.

Lemma root_hash_total db root m : holds db root m -> exists h, root_hash db root = Ok h.
Proof.
  intros (Hok & r & Hr & _)%holds_root. unfold root_hash, get_root. rewrite Hr. cbn [of_option]. rewrite Ok_bind.
  destruct (ro_branch _ _ _ (do_roots _ Hok root r Hr)) as (n & b & Hb & _ & Htr).
  rewrite (get_branch_at_Ok _ _ _ Hb), Ok_bind. destruct n; [done|]. destruct Htr as (_ & [Hwf _] & _).
  rewrite copy_out_wf by done. by eexists.
Qed.

(** [update_tip] leaves the state and its versions alone. *)
Record same_state (c c' : blockchain) : Prop := SameState {
  sm_blocks : blocks_db c' = blocks_db c /\ blocks_root c' = blocks_root c;
  sm_heap : heap_db c' = heap_db c /\ heap_root c' = heap_root c;
  sm_closures : closure_db c' = closure_db c /\ closure_root c' = closure_root c;
  sm_symbols : symbols_db c' = symbols_db c /\ symbols_root c' = symbols_root c;
  sm_program : program_db c' = program_db c /\ program_root c' = program_root c
}.

Lemma same_state_stored c c' g g' h own m t pt : same_state c c' -> state_stored c g g' h own m t pt -> state_stored c' g g' h own m t pt.
Proof.
  intros [_ [E1 R1] [E2 R2] [E3 R3] [E4 R4]] [(bs & (bm & Hb & Hbs) & H1) [[H2 H2'] H2''] [(sm & Hs & Hs') H3] [(pm & Hp & Hp') H4]]. split.
  - exists bs. split; [|done]. exists bm. split; [by rewrite E1, R1|done].
  - split; [split; [by rewrite E2, R2|done]|done].
  - split; [|done]. exists sm. split; [by rewrite E3, R3|done].
  - split; [|done]. exists pm. split; [by rewrite E4, R4|done].
Qed.

(** What [update_tip] relies on: the goals of the tip are stored, and its predecessor is
    known, with a version of the meta database that can have a successor. *)
Record tip_ok (c : blockchain) : Prop := TipOk {
  tk_contents : exists g h cl s p, contents c g h cl s p /\ is_Some (g !! m_height (tip c));
  tk_height : is_word 32 (m_height (tip c));
  tk_previous : m_previous_id (tip c) <> meta_id_zero /\ length (m_previous_id (tip c)) = 32%nat /\ are_bytes (m_previous_id (tip c));
  tk_proof : length (m_pow_proof (tip c)) = TOTAL_SIZE;
  tk_meta : exists prev, chains c !! m_previous_id (tip c) = Some prev /\ can_advance (meta_db c) (m_root_meta prev)
}.

Section tip.
Context (blake2b blake2b_64 : list Z -> list Z) (junk : list Z).
Hypothesis blake2b_length : forall bs, length (blake2b bs) = 32%nat.
Hypothesis blake2b_bytes : forall bs, are_bytes (blake2b bs).
Hypothesis blake2b_64_length : forall bs, length (blake2b_64 bs) = 64%nat.
Hypothesis blake2b_64_bytes : forall bs, are_bytes (blake2b_64 bs).
Hypothesis junk_ok : length junk = 32%nat /\ are_bytes junk.

Lemma id_preimage_total c : tip_ok c -> eventually (fun f => exists bytes, id_preimage f c = Ok bytes).
Proof.
  intros [(g & h & cl & s & p & [H0 H1 H2 H3 H4] & [d Hd]) Hh _ _ _].
  pose proof (holds_root _ _ _ H0) as (Hok & r & Hr & Hmap & _).
  exists (version_fuel (blocks_db c) (blocks_root c)). intros f Hf. unfold id_preimage.
  destruct (root_hash_total _ _ _ H1) as (h1 & E1), (root_hash_total _ _ _ H2) as (h2 & E2),
    (root_hash_total _ _ _ H3) as (h3 & E3), (root_hash_total _ _ _ H4) as (h4 & E4).
  pose proof (num_holds _ _ _ H1) as N1. pose proof (num_holds _ _ _ H2) as N2. pose proof (num_holds _ _ _ H3) as N3. pose proof (num_holds _ _ _ H4) as N4.
  unfold heap_root, closure_root, symbols_root, program_root, blocks_root in *.
  assert (Hblock : exists block, (if m_height (tip c) =? 0 then Ok []
     else b ← find (blocks_db c) f (m_root_blocks (tip c)) (m_height (tip c)); '(leaf, _) ← of_option b AssertFailed; copy_out (l_hash leaf)) = Ok block).
  { destruct (m_height (tip c) =? 0); [by eexists|].
    destruct (find_leaf_ok (blocks_db c) _ r Hok Hr f (m_height (tip c))) as (o & Ho & Hl); [by eapply is_word_le|done|].
    rewrite Ho, Ok_bind. destruct o as [[l pt]|].
    - destruct Hl as (_ & _ & [Hwf _] & _). cbn [of_option]. rewrite Ok_bind, copy_out_wf by done. by eexists.
    - rewrite Hmap, Hd in Hl. done. }
  destruct Hblock as [block Hb]. rewrite Hb, Ok_bind. rewrite E1, Ok_bind, E2, Ok_bind, E3, Ok_bind, E4, Ok_bind.
  rewrite N1, Ok_bind, N2, Ok_bind, N3, Ok_bind, N4, Ok_bind. by eexists.
Qed.

Lemma update_tip_ok c : tip_ok c ->
  eventually (fun f => exists c' bytes, update_tip blake2b blake2b_64 f junk c = Ok c' /\ same_state c c' /\
    id_preimage f c' = Ok bytes /\ m_id (tip c') = take HASH_SIZE (blake2b_64 bytes) /\
    m_previous_id (tip c') = m_previous_id (tip c) /\ m_height (tip c') = m_height (tip c)).
Proof.
  intros Hc. eapply eventually_mono; [exact (id_preimage_total c Hc)|]. intros f [bytes Hb].
  destruct Hc as [_ Hh (Hz & Hpl & Hpb) Hproof (prev & Hprev & Hadv)]. unfold update_tip, update_meta_id. rewrite Hb, !Ok_bind.
  set (t := set_id (tip c) (take HASH_SIZE (blake2b_64 bytes))). cbn [tip with_tip chains].
  destruct (chains c !! m_id t) as [e|] eqn:E.
  { eexists _, bytes. split; [done|]. split; [by case_bool_decide|]. by case_bool_decide. }
  destruct (next_version _ _ Hadv) as (db & Hdb & _ & Hnext). destruct Hadv as (mm & _ & Hmm & _ & _).
  destruct (Hnext mm Hmm) as [Hmm' _]. pose proof (holds_root _ _ _ Hmm') as (Hok & r & Hr & _).
  unfold add_meta_entry. change (m_previous_id t) with (m_previous_id (tip c)).
  unfold id_is_zero. rewrite bool_decide_false by done. unfold get_meta_entry. cbn [chains with_tip meta_db]. rewrite Hprev. cbn [of_option].
  rewrite Ok_bind, Hdb, Ok_bind. cbn beta iota.
  set (e := set_root_meta t (roots_end (meta_db c))).
  assert (Hid : length (m_id e) = 32%nat /\ are_bytes (m_id e)).
  { cbn. split; [by rewrite length_take, blake2b_64_length|]. apply Forall_take, blake2b_64_bytes. }
  destruct (update_meta_entry_stores blake2b blake2b_length blake2b_bytes junk (with_meta_db (with_tip c t) db) e r) as (c' & Hc' & Heq & _);
    [done|done|done| |].
  { split.
    - apply Forall_app. split; [apply entry_write_bytes; [exact (proj2 Hid)|exact Hpb]|apply junk_ok].
    - assert (Hlp : length (proof_write (m_pow_proof e)) = 144%nat) by (rewrite length_proof_write; change (m_pow_proof e) with (m_pow_proof (tip c)); by rewrite Hproof).
      unfold entry_write. rewrite !length_app, Hlp, length_utime_to_bytes, (proj1 Hid), !write_uint64_le, !length_le_bytes.
      change (m_previous_id e) with (m_previous_id (tip c)). rewrite Hpl, (proj1 junk_ok). cbn [length flt_write fxp_write drop].
      unfold leaf_MAX_SIZE_IN_BYTES, MB. lia. }
  rewrite Hc', !Ok_bind. eexists _, bytes. split; [done|]. rewrite Heq. by split_and!.
Qed.
End tip.

(** ** A whole block *)

(** A tip that is filed under its identifier. *)
Record tip_filed (c : blockchain) : Prop := TipFiled {
  tf_id : m_id (tip c) <> meta_id_zero /\ length (m_id (tip c)) = 32%nat /\ are_bytes (m_id (tip c));
  tf_proof : length (m_pow_proof (tip c)) = TOTAL_SIZE;
  tf_entry : exists e, chains c !! m_id (tip c) = Some e /\ m_root_meta e = m_root_meta (tip c)
}.

(** [c'] has the block after the tip of [c], with the goals [gs]; its identifier is the
    hash of the state. *)
Record next_block (blake2b_64 : list Z -> list Z) (f : nat) (c c' : blockchain) (goals : version_map) (gs : list Z) : Prop := NextBlock {
  nb_previous : m_previous_id (tip c') = m_id (tip c);
  nb_height : m_height (tip c') = w32 (m_height (tip c) + 1);
  nb_goals : holds (blocks_db c') (blocks_root c') (<[m_height (tip c') := gs]> goals);
  nb_id : exists bytes, id_preimage f c' = Ok bytes /\ m_id (tip c') = take HASH_SIZE (blake2b_64 bytes)
}.

Lemma stored_tip_ok c g g' h own m t pt goals gs prev :
  state_stored c g g' h own m t pt -> holds (blocks_db c) (blocks_root c) (<[m_height (tip c) := gs]> goals) ->
  is_word 32 (m_height (tip c)) ->
  m_previous_id (tip c) <> meta_id_zero /\ length (m_previous_id (tip c)) = 32%nat /\ are_bytes (m_previous_id (tip c)) ->
  length (m_pow_proof (tip c)) = TOTAL_SIZE ->
  chains c !! m_previous_id (tip c) = Some prev -> can_advance (meta_db c) (m_root_meta prev) -> tip_ok c.
Proof.
  intros [(bs & (hm & Hh & _) & _) [[Hcl _] _] [(sm & Hs & _) _] [(pm & Hp & _) _]] Hg Hw Hid Hproof Hprev Hadv. split; try done.
  - exists (<[m_height (tip c) := gs]> goals), hm, (closure_data (overlay (cl_modified (gl_closures g)) m)), sm, pm.
    split; [by split|]. rewrite lookup_insert_eq. by eexists.
  - by exists prev.
Qed.

Section block.
Context (blake2b blake2b_64 : list Z -> list Z) (junk : list Z) (beyond : Z) (cost : Z -> Z).
Hypothesis blake2b_length : forall bs, length (blake2b bs) = 32%nat.
Hypothesis blake2b_bytes : forall bs, are_bytes (blake2b bs).
Hypothesis blake2b_64_length : forall bs, length (blake2b_64 bs) = 64%nat.
Hypothesis blake2b_64_bytes : forall bs, are_bytes (blake2b_64 bs).
Hypothesis junk_ok : length junk = 32%nat /\ are_bytes junk.

(** C4: for a state whose changes can be stored ([state_ok]), [increment_height] returns, and
    the new block of the chain holds the whole state: the cells of the heap, the closures
    with their changes, the names of the old and the new atoms, the clauses of the loaded
    and the updated predicates, and the goals; nothing is left to be stored, the block
    follows the old tip and its identifier is the hash of the state.

    The state can be stored when: the blocks of the heap are within memory and all written,
    and the cache has room for those that changed; closures, removed ones included, have
    addresses and terms of 64 bits and a removed one is stored; new atoms have names and
    indices as resolving gives them (the first of a chain has the index 0), updated
    predicates have between one and 32 clauses, and each new atom and updated predicate has
    one of its ten slots in the database to itself.  ([removed_clauses_stay]: an emptied
    predicate is not stored.)  The versions of the tip must be able to have successors
    ([chain_can_advance]) and the tip must be filed under its identifier ([tip_filed]). *)
Theorem block_stores_state g bs h own m t pt goals empty_goals :
  chain_can_advance (gl_chain g) -> tip_filed (gl_chain g) -> state_ok (gl_chain g) g bs h own m t pt ->
  holds (blocks_db (gl_chain g)) (blocks_root (gl_chain g)) goals -> data_fits (gl_goals g) ->
  eventually (fun f => exists g', increment_height blake2b blake2b_64 f beyond cost empty_goals junk g = Ok g' /\
    state_stored (gl_chain g') g g' h own m t pt /\ gl_goals g' = empty_goals /\
    next_block blake2b_64 f (gl_chain g) (gl_chain g') goals (gl_goals g)).
Proof.
  intros Hadv [Hid Hproof (e & He & Hroot)] Hst Hgoals Hfit.
  destruct (store_version_ok blake2b beyond cost blake2b_length blake2b_bytes g bs h own m t pt goals Hadv Hst Hgoals Hfit)
    as (g1 & Hsv & Hss & Hp1 & Hh1 & Hg1 & Hc1 & Hpr1 & Hm1 & Hgs).
  assert (Htip : tip_ok (gl_chain g1)).
  { apply (stored_tip_ok _ _ _ _ _ _ _ _ _ _ e Hss Hg1); rewrite ?Hp1, ?Hh1, ?Hc1, ?Hpr1, ?Hroot; try done. by apply wrap_word. }
  eapply eventually_mono; [apply eventually_and; [exact Hsv|]; apply (update_tip_ok blake2b blake2b_64 junk); eassumption|].
  intros f [Hf (c' & bytes & Hu & Hsame & Hb & Hi & Hp & Hh)]. unfold increment_height. rewrite Hf, Ok_bind, Hu, Ok_bind.
  eexists. split; [done|]. cbn [gl_chain gl_heap gl_goals]. split_and!.
  - pose proof (same_state_stored _ _ _ _ _ _ _ _ _ Hsame Hss) as [S1 S2 S3 S4]. by split.
  - done.
  - split; [by rewrite Hp|by rewrite Hh| |by exists bytes].
    rewrite Hh. destruct (sm_blocks _ _ Hsame) as [-> ->]. exact Hg1.
Qed.
End block.

(** ** Example *)

Module StateExample.
(** A filed genesis block over empty databases. *)
Definition id : list Z := replicate 32 1.
Definition genesis : meta_entry := set_id (tip genesis_chain) id.
Definition c : blockchain := with_index (with_tip genesis_chain genesis) {[0 := {[id]}]} {[id := genesis]}.
Definition hash_64 (bs : list Z) : list Z := checksum bs ++ checksum bs.
(** A cell, a closure, two atoms and two predicates are new. *)
Definition g : global :=
  Global c BlockExample.blocks AtomExample.two (ClosureExample.changed [(9, 48); (5, 40)]) ProgramExample.added 1 1 0 [1; 2].

Lemma empty_versions : contents c ∅ ∅ ∅ ∅ ∅.
Proof.
  assert (H : forall db root, db = example_db -> root = 20 -> holds db root ∅).
  { intros db root -> ->. exists (<[20 := ∅]> ∅). split; [exact example_refines|]. by rewrite lookup_insert_eq. }
  split; apply H; by vm_compute.
Qed.

Lemma can_advance_c : chain_can_advance c.
Proof.
  assert (H : forall db root, db = example_db -> root = 20 -> can_advance db root).
  { intros db root -> ->. exists ∅. destruct (roots example_db !! 20) as [r|] eqn:Hr; [|by vm_compute in Hr].
    exists r. split; [|split; [done|]].
    - exists (<[20 := ∅]> ∅). split; [exact example_refines|]. by rewrite lookup_insert_eq.
    - vm_compute in Hr. injection Hr as <-. by split. }
  split; [by vm_compute|]. split_and!; apply H; by vm_compute.
Qed.

Lemma filed : tip_filed c.
Proof.
  split.
  - split_and!; [by vm_compute|done|]. by apply Forall_replicate.
  - by vm_compute.
  - exists genesis. split; [|done]. apply lookup_singleton_eq.
Qed.

Lemma state : state_ok c g ∅ BlockExample.cells [(0, 1)] ∅ ∅ ∅.
Proof.
  destruct empty_versions as [H0 H1 H2 H3 H4]. split.
  - exists ∅. split; [done|]. intros i. by rewrite !lookup_empty.
  - exact BlockExample.blocks_cells.
  - exact BlockExample.blocks_written.
  - cbn. lia.
  - by apply (bool_decide_unpack _).
  - by split.
  - by apply (bool_decide_unpack _).
  - intros addr H. exfalso. revert H. cbn. rewrite !lookup_insert_Some, lookup_empty. unfold none, no_term. intros H. naive_solver.
  - exists ∅. split; [done|]. split; [apply slots_empty|]. intros name i. by rewrite lookup_empty.
  - exact AtomExample.two_ok.
  - exact AtomExample.two_slots.
  - exists ∅. split; [done|apply slots_empty].
  - exact ProgramExample.added_storable.
Qed.
End StateExample.

Lemma hash_64_ok bs : length (StateExample.hash_64 bs) = 64%nat /\ are_bytes (StateExample.hash_64 bs).
Proof.
  unfold StateExample.hash_64. split; [by rewrite length_app, checksum_length|].
  apply Forall_app. split; apply checksum_bytes.
Qed.

Lemma block_stores_state_witness :
  eventually (fun f => exists g',
    increment_height checksum StateExample.hash_64 f 0 ProgramExample.cost [] (replicate 32 0) StateExample.g = Ok g' /\
    symbols_are (gl_chain g') (known ∅ AtomExample.two) /\ closures_are (gl_chain g') {[9 := 48; 5 := 40]} /\
    m_height (tip (gl_chain g')) = 1).
Proof.
  assert (Hhash : forall bs, length (StateExample.hash_64 bs) = 64%nat) by apply hash_64_ok.
  assert (Hbytes : forall bs, are_bytes (StateExample.hash_64 bs)) by apply hash_64_ok.
  eapply eventually_mono.
  - apply (block_stores_state checksum StateExample.hash_64 (replicate 32 0) 0 ProgramExample.cost checksum_length checksum_bytes Hhash Hbytes
      ltac:(split; [done|by apply Forall_replicate]) StateExample.g ∅ BlockExample.cells [(0, 1)] ∅ ∅ ∅ ∅ []
      StateExample.can_advance_c StateExample.filed StateExample.state (ct_goals _ _ _ _ _ _ StateExample.empty_versions)).
    split; [|by vm_compute]. repeat constructor; by vm_compute.
  - intros f (g' & H1 & H2 & _ & H3). exists g'. split_and!; [exact H1|apply H2|apply H2|]. rewrite (nb_height _ _ _ _ _ _ H3). by vm_compute.
Defined.
